(* ===== verification/_CoqProject ===== *)
-Q . S2P
Prelude.v
GoStd.v
Sha256.v
GoText.v
Utf8.v
Executor.v
FS.v
Json.v
RecordStore.v
ArtifactStore.v
Journal.v
Runner.v
Supervisor.v
Gpu.v
Cgroup.v
Probe.v
ResourceGuard.v
Base64.v
Manifest.v
SoftwareUpdate.v
UpdateRuns.v
Outbox.v
EventServer.v
GatePlan.v
CommerceGate.v
GateText.v
GateProtocol.v
GateRuns.v
PrivateIngress.v
ContainerdSpec.v
Workspace.v
ContainerdEngine.v
ContainerdBackend.v
GoHttp.v
ArtifactHTTP.v
AdapterProtocol.v
A2AAdapter.v
MCPAdapter.v
PacketAdapter.v
AdapterRuns.v
CapabilityGate.v
Metrics.v
DirLock.v
UnixServer.v
EventService.v
PrivateRead.v
AdapterServer.v
OutcomeEvidence.v
ConfigJson.v
WorkerRun.v
Worker.v
Systemd.v
PublicServers.v
