(* ===== verification/Prelude.v ===== *)
(** * Verification of the TOS AI execution foundation

    tos-ai executes paid software work for other agents on an operator's own
    machine.  A request arrives through a transport (the public A2A, MCP and
    Agent Packet adapters, or the private Messenger bridge), is authorised by
    a gate, run once in an isolated container, and its artifacts and result
    are published.  Beside this path stand the local execution gate for
    commercial agreements, the private ingress for confidential input, the
    capability gate at the executor sink, the update manager of the node's
    own software, and the monitors of the host.  Everything that must survive
    a crash is kept in private directories.

    ** How the parts correspond to files

    Foundations.
    - [Prelude]: the [result] type and its notation, byte strings, machine
      integers with their wrap-around ([wrap64], ...), the hint databases and
      tactics, the generic lemmas.
    - [GoStd], [GoText], [Utf8], [GoHttp], [Base64], [Sha256]: the functions of
      Go's standard library the code uses, executable: hex, paths, splitting,
      numbers, IP addresses, UTF-8, base64, big-endian integers, SHA-256.
    - [FS]: the [os] file interface as a state monad over a disk with a fault
      script.  Every operation may fail, write a part, or be where the
      process dies; [power_loss] keeps only what was synchronised, in any of
      the ways the file system allows.  [wp] is its weakest precondition.
    - [Json], [RecordStore]: the JSON codec as a class with the laws the code
      relies on, and files that hold one record.

    The execution of work.
    - [Executor]: pkg/executor/executor.go, the policy and [PolicyExecutor].
    - [Supervisor]: pkg/executor/supervisor.go, a transition system.
    - [Gpu]: executor/gpuisolation/client.go, exclusive device leases.
    - [ContainerdSpec], [Workspace], [ContainerdEngine], [ContainerdBackend]:
      pkg/executor/containerdbackend, in this order: what a request may ask
      and the isolation it gets (spec.go, metrics.go), the unpacking of the
      archive on a tree with symbolic links (workspace.go), one run over the
      interface of containerd (sdk.go, cdi.go), the life of the backend
      (backend.go).
    - [ArtifactStore], [Journal], [Runner]: pkg/artifactstore/store.go,
      pkg/softwarework/journal.go, runner.go and preset.go.
    - [Cgroup], [Probe], [ResourceGuard]: pkg/probe and
      internal/resourceguard/guard.go, what the host offers and the gate that
      follows it.

    The transports.
    - [AdapterProtocol]: the calls the adapters make and the order the
      protocol prescribes; [A2AAdapter], [MCPAdapter], [PacketAdapter]: the
      packages of these names; [ArtifactHTTP]: pkg/artifacthttp/locator.go;
      [AdapterRuns]: all of them over the runner, one operation of it at a
      time, and the locator.
    - [Outbox], [EventServer]: pkg/messengereventbridge, outbox.go and
      publisher.go, server.go and execution_handlers.go.
    - [DirLock]: internal/dirlock and internal/osguard, ownership locks on a
      host of processes, descriptors, names and inodes where every system call
      of one process may be followed by calls, or the death, of others; a
      rely-guarantee logic proves programs on it.  [UnixServer]:
      internal/unixserver/listener.go, [EventService]:
      pkg/messengereventbridge/unix.go, on the same host.
    - [PrivateRead]: the reads of credentials, configuration and archives by
      path, under any change of the directory between their calls;
      [AdapterServer]: pkg/adapterhttp; [PublicServers]: the adapters behind
      it (a2aadapter/server.go, mcpadapter/server.go).
    - [Metrics]: pkg/metricsexport, collector and exporter.
    - [ConfigJson], [WorkerRun], [Worker]: cmd/tos-messenger-event-worker, the
      check for duplicate fields against the JSON grammar, the concurrent life
      of the process ([UnixService.Run] too), its configuration and opening.

    The gates and the node's own software.
    - [GatePlan], [CommerceGate], [GateText], [GateProtocol], [GateRuns]:
      pkg/commercegate/gate.go and open_unix.go: plans, operations, what a
      record becomes as JSON text, the theorems on histories, sample runs.
    - [OutcomeEvidence]: pkg/commercegate/outcome_evidence.go and
      outcome_metering.go.
    - [PrivateIngress]: pkg/privateingress/store.go.
    - [CapabilityGate]: pkg/capabilitygate/gate.go.
    - [Manifest], [SoftwareUpdate], [UpdateRuns]: pkg/update/manifest.go and
      pkg/softwareupdate/manager.go; [Systemd]: pkg/servicemanager/systemd.go.

    A Go struct is a record with a prefix per type, an operation keeps the name
    of its Go function, a method takes its receiver first.  A Go [error] is the
    text of the error.  Mutexes are modelled by what they protect: a critical
    section is a function on the state, and where calls overlap, the sections
    are the steps of a transition system.

    ** What the theorems show

    - Once only: an execution starts at most once in the gate
      ([start_at_most_once]) and is run at most once by the runner
      ([executor_called_at_most_once]), under a claim of its own when it comes
      through an adapter ([adapters_run_authorised_once]); an outbound effect
      is sent at most once ([effect_sent_at_most_once]); private content is
      accepted once ([accept_once]); an event has one result
      ([one_result_per_event]); a capability start is linearised once
      ([admitted_once_monotone]).  All of them hold over histories with
      failing operations, deaths of the process and power loss.
    - Durable state: the update state, the gate's and the ingress's records,
      the outbox and the publication index follow an abstract protocol on disk
      and after any power loss ([update_state_crash_safe],
      [operations_refine_machine], [records_follow_protocol],
      [handoff_protocol], [publish_never_loses], [publication_durable],
      [deletion_journaled], [known_good_slot_untouched]).  A statement that
      needs more than this, as the durability of a publication, which assumes
      that no file operation of a publication returns an error, says so.
    - Isolation: requests conform to the operator's policy
      ([Validate_iff_Conforms], [Execute_calls_conforming]), a container has
      the fixed isolation ([isolation_enforced]), unpacking stays inside its
      directory and is faithful ([workspace_confined], [workspace_faithful]),
      a run whose clean-up reports no error leaves nothing of its own behind
      ([run_leaves_no_residue]).
    - Bounds on resources: [supervised_bounded], [gpu_leases_exclusive],
      [backend_lifecycle], [Execute_result_bounded],
      [effective_resources_tight], [collected_report_valid].
    - Progress: interrupted executions are settled ([Open_settles]), an
      unconfirmed update falls back ([unconfirmed_update_falls_back]), closing
      terminates ([backend_close_terminates]).
    - Round trips: what was stored is what is read ([Put_Get_roundtrip],
      [accepted_content_opens], [published_is_served]).
    - The host: one process at a time owns a directory and a listening socket,
      however processes interleave, fail and die, and a dead owner blocks
      nobody ([lock_exclusive], [lock_recoverable], [listener_undisturbed],
      [listener_recovers], [service_no_leak]); a credential that is used is the
      content of the protected file that was checked ([credential_checked]).
    - The edges: a public handler serves authenticated, bounded requests only
      ([boundary_enforced], [server_hardened], [public_servers_guarded]); the
      configuration check accepts exactly the documents without duplicate
      fields ([rejectDuplicateJSON_exact]); an accepted configuration is
      consistent and opens or leaves nothing open ([configuration_consistent],
      [opening_closes]); the process accounts for its components
      ([worker_run_accounts]); exported evidence and assertions agree
      ([artifacts_consistent]); systemd is called with fixed commands only
      ([only_fixed_commands]).
    - Metrics: [collector_bounded], [exported_is_collected].

    ** Interfaces and hypotheses

    Code that is not in the repository is a class or an argument: the commerce
    and trusted-capability protocol modules ([Commerce], [PrivateCommerce],
    [OutcomeCommerce], [Trusted]), the chain and daemon clients of the worker
    ([WorkerModules]), containerd ([Runtime], [RuntimeLaws]), Ed25519
    ([Ed25519]), archive/tar, the NVML library, url.Parse ([NetUrl]), the
    parsers of certificates ([CertificateParsers]), the JSON codec
    ([Json], [JsonLaws], [JsonTextLaws]).  A theorem assumes of them only what
    its statement or its section's context names, and its witness instantiates
    them with concrete functions.  Statements on digests end in "or a collision
    of SHA-256 is known", since SHA-256 is executable here and its collision
    resistance is not a theorem.

    encoding/json writes U+FFFD for the bytes of a string that are not part of
    valid UTF-8 ([Utf8]).  A record with such strings does not read back as itself:
    the gate, the private ingress and the publication index state what it reads
    back as ([json_text], with the law [json_reads]); the other stores assume of
    the record in question that its strings are valid.

    ** Bounds and fuel

    Recursion is structural wherever the code's loop consumes a list.  The
    fuelled functions are: the binary search of [EventServer] (the number of
    values, since the interval shrinks in every round, [search_strings_spec]),
    decimal numbers of [GoStd] (twenty digits write every 64-bit number,
    [decimal_spec]), the groups of an IPv6 address (at most eight), the scan of
    [ConfigJson] (twice the number of lexemes, [scan_total]), the links a path
    may follow in [DirLock] (forty, the limit of Linux), and the schedule and
    the blocks of [Sha256] (their number).  Histories are lists of
    steps of any length: there is no bound on the number of calls, crashes or
    interleavings.

    ** What is not modelled, and why

    - Timers, contexts and the scheduling of goroutines, except as choices of
      the environment in the transition systems.
    - Handles of files are names, links beside symbolic links and changes of
      a directory by other processes are outside [FS]; [Workspace] has
      symbolic links, and [DirLock] and [PrivateRead] have other processes.
    - The A2A and MCP transports and Go's HTTP server are those of their
      libraries.
    - [main] of software-work-execute, beyond its reads and its request: it
      opens the modelled components in order and prints the outcome.
    - The builds for Windows, Darwin and unsupported platforms; the model is of
      the Linux build.
    - pkg/executor/backendtest, a harness for tests of backends, and
      internal/nilcheck, a reflection on interface values: constructors take
      whether a dependency is nil as an argument.
*)

From Stdlib Require Export ZArith Lia String Ascii.
From stdpp Require Export base tactics gmap strings numbers list sorting.
Export list.
#[global] Open Scope string_scope.
#[global] Open Scope list_scope.
#[global] Open Scope Z_scope.
Abbreviation length := Datatypes.length.
#[global] Arguments String.append : simpl nomatch.

(** ** Results *)

(** A Go function that returns [(T, error)] is modelled by a value of
    [result]: [Err] carries the text of the error. *)
Inductive result (A : Type) : Type :=
| Ok (a : A)
| Err (e : string).
Arguments Ok {A} a.
Arguments Err {A} e.

Definition rbind {A B} (m : result A) (k : A -> result B) : result B :=
  match m with Ok a => k a | Err e => Err e end.

Definition is_ok {A} (m : result A) : bool :=
  match m with Ok _ => true | Err _ => false end.

(** [fail_if c e] is the Go statement [if c { return errors.New(e) }]. *)
Definition fail_if (c : bool) (e : string) : result unit :=
  if c then Err e else Ok tt.

Declare Scope go_scope.
Delimit Scope go_scope with go.
Notation "'let*' x ':=' m 'in' k" := (rbind m (fun x => k))
  (at level 10, x pattern, m at level 100, k at level 200) : go_scope.
Notation "m ';;;' k" := (rbind m (fun _ => k))
  (at level 100, right associativity) : go_scope.
Notation "s =s? t" := (String.eqb s t) (at level 70) : go_scope.
Notation "s <>s? t" := (negb (String.eqb s t)) (at level 70) : go_scope.
#[global] Open Scope go_scope.

(** ** Byte strings

    A Go [string] and a Go [[]byte] are both modelled by [string], a finite
    sequence of 8-bit characters. *)

Abbreviation bytes := string (only parsing).

Definition len (s : string) : Z := Z.of_nat (String.length s).

Definition llen {A} (l : list A) : Z := Z.of_nat (length l).

Fixpoint str_forallb (p : ascii -> bool) (s : string) : bool :=
  match s with
  | EmptyString => true
  | String c s' => p c && str_forallb p s'
  end.

Fixpoint str_filter (p : ascii -> bool) (s : string) : string :=
  match s with
  | EmptyString => ""
  | String c s' => if p c then String c (str_filter p s') else str_filter p s'
  end.

Definition str_existsb (p : ascii -> bool) (s : string) : bool :=
  negb (str_forallb (fun c => negb (p c)) s).

(** [s[n:]] and [s[:n]]. *)
Fixpoint str_drop (n : nat) (s : string) : string :=
  match n, s with
  | S n', String _ s' => str_drop n' s'
  | _, _ => s
  end.

Fixpoint str_take (n : nat) (s : string) : string :=
  match n, s with
  | S n', String c s' => String c (str_take n' s')
  | _, _ => EmptyString
  end.

(** [strings.HasPrefix], [strings.TrimPrefix], [strings.HasSuffix]. *)
Definition has_prefix (s p : string) : bool := str_take (String.length p) s =s? p.

Definition trim_prefix (s p : string) : string :=
  if has_prefix s p then str_drop (String.length p) s else s.

Definition has_suffix (s p : string) : bool :=
  (String.length p <=? String.length s)%nat &&
  (str_drop (String.length s - String.length p) s =s? p).

(** [strings.IndexByte(s, c) >= 0]. *)
Definition contains_byte (s : string) (c : ascii) : bool :=
  str_existsb (Ascii.eqb c) s.

(** [strings.Contains(s, t)]. *)
Fixpoint contains_str (s t : string) : bool :=
  has_prefix s t ||
  match s with
  | EmptyString => false
  | String _ s' => contains_str s' t
  end.

Definition code (c : ascii) : Z := Z.of_nat (nat_of_ascii c).

Definition in_range (lo hi c : ascii) : bool :=
  (code lo <=? code c) && (code c <=? code hi).

Definition is_digit (c : ascii) : bool := in_range "0" "9" c.
Definition is_lower (c : ascii) : bool := in_range "a" "z" c.
Definition is_upper (c : ascii) : bool := in_range "A" "Z" c.
Definition is_lower_hex (c : ascii) : bool := is_digit c || in_range "a" "f" c.
Definition is_hex (c : ascii) : bool := is_lower_hex c || in_range "A" "F" c.

(** The Go string order [s < t] is the lexicographic order of the bytes. *)
Fixpoint str_compare (s t : string) : comparison :=
  match s, t with
  | EmptyString, EmptyString => Eq
  | EmptyString, String _ _ => Lt
  | String _ _, EmptyString => Gt
  | String a s', String b t' =>
      match code a ?= code b with Eq => str_compare s' t' | c => c end
  end.

Definition str_ltb (s t : string) : bool :=
  match str_compare s t with Lt => true | _ => false end.

Definition str_leb (s t : string) : bool := negb (str_ltb t s).

(** ** Machine integers *)

Definition two64 : Z := 18446744073709551616.
Definition two63 : Z := 9223372036854775808.
Definition max_u64 : Z := two64 - 1.

(** [wrap64 x] is the value of the Go conversion [uint64(x)]. *)
Definition wrap64 (x : Z) : Z := x mod two64.

(** [sint64 x] is the value of the Go conversion [int64(x)]. *)
Definition sint64 (x : Z) : Z :=
  let y := wrap64 x in if y <? two63 then y else y - two64.

Definition u64 (x : Z) : Prop := 0 <= x < two64.
Definition i64 (x : Z) : Prop := - two63 <= x < two63.
Definition u32 (x : Z) : Prop := 0 <= x < 4294967296.

(** Durations are [int64] nanoseconds. *)
Definition time_Millisecond : Z := 1000000.
Definition time_Second : Z := 1000 * time_Millisecond.
Definition time_Minute : Z := 60 * time_Second.
Definition time_Hour : Z := 60 * time_Minute.

(** ** Lemmas and automation *)

Create HintDb go discriminated.

Lemma rbind_ok {A B} (m : result A) (k : A -> result B) b :
  rbind m k = Ok b <-> exists a, m = Ok a /\ k a = Ok b.
Proof. destruct m; simpl; naive_solver. Qed.

Lemma rbind_err {A B} (m : result A) (k : A -> result B) e :
  rbind m k = Err e <-> m = Err e \/ exists a, m = Ok a /\ k a = Err e.
Proof. destruct m; simpl; naive_solver. Qed.

Lemma fail_if_ok c e u : fail_if c e = Ok u <-> c = false.
Proof. destruct c, u; simpl; naive_solver. Qed.

Lemma then_ok {A} (m : result unit) (k : result A) a : (m ;;; k) = Ok a <-> m = Ok tt /\ k = Ok a.
Proof. destruct m as [[]|]; simpl; split; intros H; [done|by destruct H|done|by destruct H]. Qed.

Lemma if_ok {A} (b : bool) (m k : result A) a :
  (if b then m else k) = Ok a <-> (b = true -> m = Ok a) /\ (b = false -> k = Ok a).
Proof. destruct b; split; [split| |split|]; intros; try done; destruct H; auto. Qed.

Lemma existsb_false {A} (f : A -> bool) l : existsb f l = false <-> Forall (fun x => f x = false) l.
Proof.
  induction l as [|x l IH]; simpl; [split; auto|].
  rewrite orb_false_iff, IH, Forall_cons. done.
Qed.

Lemma forallb_true {A} (f : A -> bool) l : forallb f l = true <-> Forall (fun x => f x = true) l.
Proof.
  induction l as [|x l IH]; simpl; [split; auto|].
  rewrite andb_true_iff, IH, Forall_cons. done.
Qed.

Lemma is_ok_true {A} (m : result A) : is_ok m = true <-> exists a, m = Ok a.
Proof. destruct m; simpl; naive_solver. Qed.

Lemma is_ok_false {A} (m : result A) : is_ok m = false <-> exists e, m = Err e.
Proof. destruct m; simpl; naive_solver. Qed.

(** Rewriting of boolean equations and of successful runs into propositions. *)
Create Rewrite HintDb go_prop.
#[export] Hint Rewrite @then_ok fail_if_ok andb_true_iff orb_false_iff negb_true_iff negb_false_iff
  String.eqb_eq String.eqb_neq Z.leb_le Z.leb_gt Z.ltb_lt Z.ltb_ge Z.eqb_eq Z.eqb_neq
  @existsb_false @forallb_true bool_decide_eq_true bool_decide_eq_false : go_prop.

(** Turn boolean hypotheses into propositions. *)
Ltac bool_props :=
  repeat match goal with
  | H : _ && _ = true |- _ => apply andb_true_iff in H; destruct H
  | H : _ || _ = false |- _ => apply orb_false_iff in H; destruct H
  | H : negb _ = true |- _ => apply negb_true_iff in H
  | H : negb _ = false |- _ => apply negb_false_iff in H
  | H : (_ =s? _) = true |- _ => apply String.eqb_eq in H
  | H : (_ =s? _) = false |- _ => apply String.eqb_neq in H
  | H : (_ <=? _)%Z = true |- _ => apply Z.leb_le in H
  | H : (_ <=? _)%Z = false |- _ => apply Z.leb_gt in H
  | H : (_ <? _)%Z = true |- _ => apply Z.ltb_lt in H
  | H : (_ <? _)%Z = false |- _ => apply Z.ltb_ge in H
  | H : (_ =? _)%Z = true |- _ => apply Z.eqb_eq in H
  | H : (_ =? _)%Z = false |- _ => apply Z.eqb_neq in H
  | H : bool_decide _ = true |- _ => apply bool_decide_eq_true in H
  | H : bool_decide _ = false |- _ => apply bool_decide_eq_false in H
  end.

(** Invert a chain of Go statements that ended without an error. *)
Ltac result_inv :=
  repeat match goal with
  | H : rbind _ _ = Ok _ |- _ =>
      let a := fresh "a" in let H1 := fresh "Hok" in
      apply rbind_ok in H as (a & H1 & H)
  | H : fail_if _ _ = Ok _ |- _ => apply fail_if_ok in H
  | H : Ok _ = Ok _ |- _ => injection H as H; try subst
  | H : Err _ = Ok _ |- _ => discriminate H
  | H : Ok _ = Err _ |- _ => discriminate H
  | H : (if ?c then Err _ else _) = Ok _ |- _ =>
      let E := fresh "E" in destruct c eqn:E; [discriminate H|]
  | H : unit |- _ => destruct H
  end.

(** Closed goals, by evaluation: equations, bounds and their conjunctions. *)
Ltac by_compute := repeat split; vm_compute; first [reflexivity | discriminate].

Lemma pair_fst {A B} (p : A * B) (a : A) : p.1 = a -> p = (a, p.2).
Proof. by destruct p; intros <-. Qed.

Lemma str_app_nil s : s +:+ "" = s.
Proof. induction s; simpl; congruence. Qed.

Lemma str_app_assoc s t u : s +:+ (t +:+ u) = (s +:+ t) +:+ u.
Proof. induction s; simpl; congruence. Qed.

Lemma str_length_app s t :
  String.length (s +:+ t) = (String.length s + String.length t)%nat.
Proof. induction s; simpl; congruence. Qed.

Lemma len_app s t : len (s +:+ t) = len s + len t.
Proof. unfold len. rewrite str_length_app. lia. Qed.

Lemma len_nonneg s : 0 <= len s.
Proof. unfold len; lia. Qed.

Lemma len_zero s : len s = 0 -> s = "".
Proof. destruct s; [done|]. unfold len; simpl; lia. Qed.

Lemma str_take_app s t : str_take (String.length s) (s +:+ t) = s.
Proof. induction s; simpl; [by destruct t|congruence]. Qed.

Lemma str_drop_app s t : str_drop (String.length s) (s +:+ t) = t.
Proof. induction s; simpl; [by destruct t|done]. Qed.

Lemma str_take_drop n s : str_take n s +:+ str_drop n s = s.
Proof. revert s; induction n; destruct s; simpl; congruence. Qed.

Lemma str_drop_length n s : String.length (str_drop n s) = (String.length s - n)%nat.
Proof. revert s; induction n; destruct s; simpl; auto. Qed.

Lemma str_take_length n s : String.length (str_take n s) = Nat.min n (String.length s).
Proof. revert s; induction n; destruct s; simpl; auto. Qed.

Lemma str_take_all n s : (String.length s <= n)%nat -> str_take n s = s.
Proof. revert s; induction n; destruct s; simpl; intros; try lia; [done..|]. f_equal. apply IHn. lia. Qed.

(** A bounded read that stays below its bound read everything. *)
Lemma str_take_below m s :
  0 <= m -> len (str_take (Z.to_nat (m + 1)) s) <= m -> str_take (Z.to_nat (m + 1)) s = s.
Proof. unfold len. rewrite str_take_length. intros. apply str_take_all. lia. Qed.

Lemma str_app_inj s t u v :
  String.length s = String.length t -> s +:+ u = t +:+ v -> s = t /\ u = v.
Proof.
  revert t; induction s; destruct t; simpl; intros Hl Heq; try discriminate; [done|].
  injection Heq as -> Heq. injection Hl as Hl.
  destruct (IHs _ Hl Heq) as [-> ->]. done.
Qed.

Lemma has_prefix_app p t : has_prefix (p +:+ t) p = true.
Proof. unfold has_prefix. rewrite str_take_app. apply String.eqb_refl. Qed.

Lemma has_prefix_spec s p : has_prefix s p = true <-> exists t, s = p +:+ t.
Proof.
  split; [|intros [t ->]; apply has_prefix_app].
  intros H%String.eqb_eq. exists (str_drop (String.length p) s).
  rewrite <- H at 1. symmetry; apply str_take_drop.
Qed.

Lemma trim_prefix_app p t : trim_prefix (p +:+ t) p = t.
Proof. unfold trim_prefix. rewrite has_prefix_app. apply str_drop_app. Qed.

Lemma str_forallb_app p s t : str_forallb p (s +:+ t) = str_forallb p s && str_forallb p t.
Proof. induction s; simpl; [done|]. by rewrite IHs, andb_assoc. Qed.

Lemma str_forallb_impl (p q : ascii -> bool) s :
  (forall c, p c = true -> q c = true) -> str_forallb p s = true -> str_forallb q s = true.
Proof.
  intros Hpq. induction s; simpl; [done|].
  rewrite !andb_true_iff. naive_solver.
Qed.

Lemma str_filter_forallb p s : str_forallb p (str_filter p s) = true.
Proof. induction s as [|c s IH]; simpl; [done|]. destruct (p c) eqn:E; simpl; [by rewrite E|done]. Qed.

Lemma code_inj a b : code a = code b -> a = b.
Proof.
  unfold code. intros H%Nat2Z.inj.
  rewrite <- (ascii_nat_embedding a), <- (ascii_nat_embedding b). congruence.
Qed.

Lemma str_compare_eq s t : str_compare s t = Eq <-> s = t.
Proof.
  revert t; induction s; destruct t; simpl; try done.
  destruct (Z.compare_spec (code a) (code a0)) as [E| |]; split; intros H'; try done.
  - apply code_inj in E as ->. f_equal. by apply IHs.
  - injection H' as -> ->. by apply IHs.
  - injection H' as -> ->. lia.
  - injection H' as -> ->. lia.
Qed.

Lemma str_compare_antisym s t : str_compare t s = CompOpp (str_compare s t).
Proof.
  revert t; induction s; destruct t; simpl; try done.
  rewrite (Z.compare_antisym (code a) (code a0)).
  destruct (code a ?= code a0); simpl; auto.
Qed.

Lemma str_ltb_irrefl s : str_ltb s s = false.
Proof. unfold str_ltb. by rewrite (proj2 (str_compare_eq s s)). Qed.

Lemma str_ltb_trans s t u : str_ltb s t = true -> str_ltb t u = true -> str_ltb s u = true.
Proof.
  unfold str_ltb.
  revert t u; induction s as [|a s IH]; destruct t as [|b t], u as [|c u]; simpl; try done.
  destruct (Z.compare_spec (code a) (code b)), (Z.compare_spec (code b) (code c)),
    (Z.compare_spec (code a) (code c)); try done; try lia; eauto.
Qed.

Lemma str_ltb_neq s t : str_ltb s t = true -> s <> t.
Proof. intros H ->. by rewrite str_ltb_irrefl in H. Qed.

Lemma str_ltb_total s t : str_ltb s t = true \/ s = t \/ str_ltb t s = true.
Proof.
  unfold str_ltb. rewrite (str_compare_antisym s t).
  destruct (str_compare s t) eqn:E; simpl; auto.
  right; left. by apply str_compare_eq.
Qed.

(** The order as a relation, for sorting. *)
Definition str_le (s t : string) : Prop := str_leb s t = true.
#[export] Instance str_le_dec : RelDecision str_le := fun a b => bool_eq_dec (str_leb a b) true.

Lemma str_leb_spec s t : str_leb s t = true <-> str_ltb s t = true \/ s = t.
Proof.
  unfold str_leb. destruct (str_ltb_total s t) as [H|[->|H]].
  - destruct (str_ltb t s) eqn:E; simpl; [|split; by auto]. pose proof (str_ltb_trans _ _ _ H E) as F.
    by rewrite str_ltb_irrefl in F.
  - rewrite str_ltb_irrefl. simpl. split; by auto.
  - rewrite H. simpl. split; [done|]. intros [E|E]; [|by apply str_ltb_neq in H].
    pose proof (str_ltb_trans _ _ _ H E) as F. by rewrite str_ltb_irrefl in F.
Qed.

#[export] Instance str_le_total : Total str_le.
Proof. intros s t. unfold str_le. rewrite !str_leb_spec. destruct (str_ltb_total s t) as [|[|]]; auto. Qed.

#[export] Instance str_le_trans : Transitive str_le.
Proof.
  intros s t u. unfold str_le. rewrite !str_leb_spec. intros [H| ->] [K| ->]; auto.
  left. by eapply str_ltb_trans.
Qed.

Lemma str_le_antisym s t : str_le s t -> str_le t s -> s = t.
Proof.
  unfold str_le. rewrite !str_leb_spec. intros [H|H] [K|K]; auto.
  pose proof (str_ltb_trans _ _ _ H K) as F. by rewrite str_ltb_irrefl in F.
Qed.

Lemma wrap64_small x : u64 x -> wrap64 x = x.
Proof. intros. unfold wrap64, u64, two64 in *. apply Z.mod_small; lia. Qed.

Lemma wrap64_bound x : u64 (wrap64 x).
Proof. unfold wrap64, u64, two64. apply Z.mod_pos_bound; lia. Qed.

#[export] Hint Resolve len_nonneg wrap64_bound has_prefix_app : go.
