(* ===== verification/GoStd.v ===== *)
(** * The parts of the Go standard library the program uses

    Executable definitions of [encoding/hex], [path.Clean], [path.Base],
    [strings.Split], [strconv.ParseUint], [strconv.FormatUint], [net.ParseIP], [net.SplitHostPort]
    and of the regular expressions the program compiles, with the lemmas the
    components share. *)

From S2P Require Import Prelude.

(** ** encoding/hex *)

Definition hex_digit (n : Z) : ascii :=
  ascii_of_nat (Z.to_nat (if n <? 10 then 48 + n else 87 + n)).

Fixpoint hex_EncodeToString (s : bytes) : string :=
  match s with
  | EmptyString => ""
  | String c s' =>
      String (hex_digit (code c / 16)) (String (hex_digit (code c mod 16)) (hex_EncodeToString s'))
  end.

(** [_, err := hex.DecodeString(s); err == nil]. *)
Definition hex_decodable (s : string) : bool :=
  Nat.even (String.length s) && str_forallb is_hex s.

(** ** Patterns

    The regular expressions are anchored, [prefix] followed by [n] characters
    [0-9a-f]. *)
Definition hex_pattern (prefix : string) (n : nat) (s : string) : bool :=
  has_prefix s prefix &&
  (String.length s =? String.length prefix + n)%nat &&
  str_forallb is_lower_hex (str_drop (String.length prefix) s).

(** The text of a SHA-256 digest: sha256:<64 lower-case hexadecimal digits>. *)
Definition digest_pattern : string -> bool := hex_pattern "sha256:" 64.

Lemma hex_pattern_spec prefix n s :
  hex_pattern prefix n s = true <->
  exists t, s = prefix +:+ t /\ String.length t = n /\ str_forallb is_lower_hex t = true.
Proof.
  unfold hex_pattern. rewrite !andb_true_iff, has_prefix_spec, Nat.eqb_eq. split.
  - intros [[[t ->] Hl] Hh]. exists t.
    rewrite str_drop_app in Hh. rewrite str_length_app in Hl. split_and!; auto; lia.
  - intros (t & -> & Hl & Hh). rewrite str_drop_app, str_length_app. split_and!; eauto; lia.
Qed.

Lemma hex_digit_lower_hex n : 0 <= n < 16 -> is_lower_hex (hex_digit n) = true.
Proof.
  intros H.
  assert (Hn : n ∈ seqZ 0 16) by (apply elem_of_seqZ; lia).
  change (seqZ 0 16) with [0;1;2;3;4;5;6;7;8;9;10;11;12;13;14;15] in Hn.
  repeat (apply elem_of_cons in Hn as [->|Hn]; [reflexivity|]).
  by apply elem_of_nil in Hn.
Qed.

Lemma hex_encode_length s : String.length (hex_EncodeToString s) = (2 * String.length s)%nat.
Proof. induction s; simpl; [done|]. rewrite IHs. simpl. lia. Qed.

Lemma code_bound c : 0 <= code c < 256.
Proof. unfold code. pose proof (nat_ascii_bounded c). lia. Qed.

Lemma hex_encode_lower_hex s : str_forallb is_lower_hex (hex_EncodeToString s) = true.
Proof.
  induction s as [|c s IH]; [done|].
  cbn [hex_EncodeToString str_forallb]. rewrite IH.
  pose proof (code_bound c).
  rewrite !hex_digit_lower_hex; [done| |].
  - apply Z.mod_pos_bound; lia.
  - split; [apply Z.div_pos; lia|apply Z.div_lt_upper_bound; lia].
Qed.

Lemma hex_digit_inj m n :
  0 <= m < 16 -> 0 <= n < 16 -> hex_digit m = hex_digit n -> m = n.
Proof.
  intros Hm Hn H. unfold hex_digit in H. apply (f_equal nat_of_ascii) in H.
  destruct (Z.ltb_spec m 10), (Z.ltb_spec n 10);
    rewrite !nat_ascii_embedding in H by lia; lia.
Qed.

Lemma hex_encode_inj s t : hex_EncodeToString s = hex_EncodeToString t -> s = t.
Proof.
  revert t; induction s as [|a s IH]; destruct t as [|b t]; simpl; try done.
  injection 1 as H1 H2 H3.
  pose proof (code_bound a). pose proof (code_bound b).
  apply hex_digit_inj in H1; [|split; [apply Z.div_pos|apply Z.div_lt_upper_bound]; lia..].
  apply hex_digit_inj in H2; [|apply Z.mod_pos_bound; lia..].
  f_equal; [|auto].
  apply code_inj.
  rewrite (Z.div_mod (code a) 16), (Z.div_mod (code b) 16) by lia. congruence.
Qed.

(** ** strings.Split, strings.LastIndex *)

(** [strings.Split(s, string(sep))]: the fields between separators. *)
Fixpoint str_split (sep : ascii) (s : string) : list string :=
  match s with
  | EmptyString => [""]
  | String c s' =>
      if Ascii.eqb c sep then "" :: str_split sep s'
      else match str_split sep s' with
           | f :: fs => String c f :: fs
           | [] => [String c ""]
           end
  end.

Fixpoint str_join (sep : string) (l : list string) : string :=
  match l with
  | [] => ""
  | [x] => x
  | x :: l' => x +:+ sep +:+ str_join sep l'
  end.

(** [strings.IndexByte(s, c)] and [strings.LastIndexByte(s, c)]. *)
Fixpoint index_byte (s : string) (c : ascii) : option nat :=
  match s with
  | EmptyString => None
  | String d s' => if Ascii.eqb d c then Some 0%nat else S <$> index_byte s' c
  end.

Fixpoint last_index_byte (s : string) (c : ascii) : option nat :=
  match s with
  | EmptyString => None
  | String d s' =>
      match last_index_byte s' c with
      | Some n => Some (S n)
      | None => if Ascii.eqb d c then Some 0%nat else None
      end
  end.

(** ** path *)

(** The components [path.Clean] keeps: empty and [.] components are dropped,
    [..] removes the previous component where there is one that is not [..],
    and is dropped at a root.  [acc] is reversed. *)
Fixpoint clean_components (rooted : bool) (acc : list string) (l : list string) : list string :=
  match l with
  | [] => rev acc
  | c :: l' =>
      if (c =s? "") || (c =s? ".") then clean_components rooted acc l'
      else if c =s? ".." then
        match acc with
        | [] => if rooted then clean_components rooted [] l' else clean_components rooted [".."] l'
        | d :: acc' =>
            if d =s? ".." then clean_components rooted (".." :: acc) l'
            else clean_components rooted acc' l'
        end
      else clean_components rooted (c :: acc) l'
  end.

Definition path_Clean (p : string) : string :=
  if p =s? "" then "." else
  let rooted := has_prefix p "/" in
  let body := str_join "/" (clean_components rooted [] (str_split "/" p)) in
  if rooted then "/" +:+ body else if body =s? "" then "." else body.

(** [path.Base]: the last component, trailing slashes removed first. *)
Definition path_Base (p : string) : string :=
  if p =s? "" then "." else
  match rev (filter (fun c => c <> "") (str_split "/" p)) with
  | [] => "/"
  | c :: _ => c
  end.

Definition no_byte (c : ascii) (s : string) : Prop := contains_byte s c = false.

(** A path component that names an entry below its parent. *)
Definition proper_component (s : string) : Prop :=
  s <> "" /\ s <> "." /\ s <> ".." /\ no_byte "/" s.

Lemma no_byte_cons c d s : no_byte c (String d s) <-> c <> d /\ no_byte c s.
Proof.
  unfold no_byte, contains_byte, str_existsb; simpl.
  rewrite !negb_false_iff, andb_true_iff, negb_true_iff, Ascii.eqb_neq. done.
Qed.

Lemma str_split_no_byte c s : Forall (no_byte c) (str_split c s).
Proof.
  induction s as [|d s IH]; simpl; [by repeat constructor|].
  destruct (Ascii.eqb_spec d c) as [->|Hne]; [by constructor|].
  destruct (str_split c s) as [|f fs].
  - constructor; [|done]. apply no_byte_cons. done.
  - apply Forall_cons in IH as [? ?]. constructor; [|done]. by apply no_byte_cons.
Qed.

Lemma str_split_no_sep c s : no_byte c s -> str_split c s = [s].
Proof.
  induction s as [|d s IH]; [done|]. intros [Hne Hs]%no_byte_cons. simpl.
  destruct (Ascii.eqb_spec d c); [congruence|]. by rewrite IH.
Qed.

Lemma str_split_app c s t :
  no_byte c s -> str_split c (s +:+ String c t) = s :: str_split c t.
Proof.
  induction s as [|d s IH]; simpl.
  - intros _. by rewrite Ascii.eqb_refl.
  - intros [Hne Hs]%no_byte_cons. destruct (Ascii.eqb_spec d c); [congruence|]. by rewrite IH.
Qed.

Lemma str_split_join c l :
  l <> [] -> Forall (no_byte c) l -> str_split c (str_join (String c "") l) = l.
Proof.
  intros Hne H. induction H as [|x l Hx Hl IH]; [done|].
  destruct l as [|y l]; [by apply str_split_no_sep|].
  change (str_join (String c "") (x :: y :: l))
    with (x +:+ String c (str_join (String c "") (y :: l))).
  by rewrite str_split_app, IH.
Qed.

Lemma clean_components_proper acc l :
  Forall proper_component acc -> Forall (no_byte "/") l ->
  Forall proper_component (clean_components true acc l).
Proof.
  intros Hacc Hl. revert acc Hacc.
  induction Hl as [|x l Hx Hl IH]; intros acc Hacc; simpl; [by apply Forall_rev|].
  destruct (String.eqb_spec x "") as [->|?]; simpl; [auto|].
  destruct (String.eqb_spec x ".") as [->|?]; simpl; [auto|].
  destruct (String.eqb_spec x "..") as [->|?].
  - destruct acc as [|d acc']; [auto|].
    apply Forall_cons in Hacc as [(? & ? & Hd & ?) Hacc].
    destruct (String.eqb_spec d ".."); [done|auto].
  - apply IH. constructor; [|done]. by split_and!.
Qed.

(** A rooted path that [path.Clean] leaves alone is the root, or its components
    are all proper: it holds no empty, [.] or [..] component. *)
Lemma path_Clean_fixed p :
  has_prefix p "/" = true -> path_Clean p = p ->
  p = "/" \/ Forall proper_component (tail (str_split "/" p)).
Proof.
  intros Habs Hfix. unfold path_Clean in Hfix.
  destruct (String.eqb_spec p "") as [->|_]; [done|]. rewrite Habs in Hfix.
  set (cs := clean_components true [] (str_split "/" p)) in *.
  assert (Hcs : Forall proper_component cs).
  { apply clean_components_proper; [done|apply str_split_no_byte]. }
  destruct cs as [|c cs'] eqn:E; [by left; rewrite <- Hfix|right].
  rewrite <- Hfix.
  change ("/" +:+ str_join "/" (c :: cs')) with ("" +:+ String "/" (str_join "/" (c :: cs'))).
  rewrite str_split_app by done. cbn [tail].
  rewrite str_split_join; [done|done|].
  eapply Forall_impl; [exact Hcs|]. by intros x (_ & _ & _ & ?).
Qed.

Definition filepath_IsAbs (p : string) : bool := has_prefix p "/".

(** ** strconv.ParseUint(s, 10, bits) *)

Definition digit_value (c : ascii) : Z := code c - 48.

Fixpoint decimal_value (acc : Z) (s : string) : Z :=
  match s with
  | EmptyString => acc
  | String c s' => decimal_value (acc * 10 + digit_value c) s'
  end.

Definition ParseUint (s : string) (bits : Z) : option Z :=
  if (s =s? "") || negb (str_forallb is_digit s) then None
  else let v := decimal_value 0 s in if v <? 2 ^ bits then Some v else None.

(** ** strconv.FormatUint(n, 10)

    One digit per unit of fuel; [decimal k] writes every number below [10 ^ k],
    so twenty digits are enough for an unsigned 64-bit number. *)
Fixpoint decimal (fuel : nat) (n : Z) : string :=
  match fuel with
  | O => ""
  | S fuel => (if n <? 10 then "" else decimal fuel (n / 10)) +:+ String (ascii_of_nat (Z.to_nat (48 + n mod 10))) ""
  end.

Definition FormatUint (n : Z) : string := decimal 20 n.

Lemma digit_char d : 0 <= d < 10 ->
  is_digit (ascii_of_nat (Z.to_nat (48 + d))) = true /\ digit_value (ascii_of_nat (Z.to_nat (48 + d))) = d.
Proof.
  intros H. assert (E : code (ascii_of_nat (Z.to_nat (48 + d))) = 48 + d).
  { unfold code. rewrite nat_ascii_embedding by lia. lia. }
  unfold is_digit, in_range, digit_value. rewrite E. change (code "0") with 48. change (code "9") with 57.
  rewrite andb_true_iff, !Z.leb_le. lia.
Qed.

Lemma decimal_value_app acc s t : decimal_value acc (s +:+ t) = decimal_value (decimal_value acc s) t.
Proof. revert acc. induction s; intros acc; simpl; auto. Qed.

Lemma decimal_spec fuel n :
  0 <= n < 10 ^ Z.of_nat fuel -> (fuel <> 0)%nat ->
  decimal fuel n <> "" /\ str_forallb is_digit (decimal fuel n) = true /\ decimal_value 0 (decimal fuel n) = n.
Proof.
  revert n. induction fuel as [|fuel IH]; intros n Hn Hf; [done|]. cbn [decimal].
  destruct (digit_char (n mod 10)) as [Hd Hv]; [apply Z.mod_pos_bound; lia|].
  set (c := ascii_of_nat _) in *.
  destruct (Z.ltb_spec n 10) as [Hlt|Hge].
  - simpl. rewrite Hd, Hv, Z.mod_small by lia. done.
  - assert (fuel <> 0)%nat by (intros ->; simpl in Hn; lia).
    rewrite Nat2Z.inj_succ, Z.pow_succ_r in Hn by lia.
    destruct (IH (n / 10)) as (Hne & Hdig & Hval); [split; [apply Z.div_pos|apply Z.div_lt_upper_bound]; lia|done|].
    split_and!.
    + by destruct (decimal fuel (n / 10)).
    + rewrite str_forallb_app, Hdig. simpl. by rewrite Hd.
    + rewrite decimal_value_app, Hval. cbn [decimal_value]. rewrite Hv.
      rewrite (Z.div_mod n 10) at 3 by lia. lia.
Qed.

Lemma FormatUint_ParseUint n : u64 n -> ParseUint (FormatUint n) 64 = Some n.
Proof.
  unfold u64, two64. intros Hn. destruct (decimal_spec 20 n) as (Hne & Hdig & Hval); [lia|done|].
  unfold ParseUint, FormatUint. rewrite Hdig, Hval.
  destruct (String.eqb_spec (decimal 20 n) ""); [done|]. cbn [orb negb].
  change (2 ^ 64) with 18446744073709551616. by destruct (Z.ltb_spec n 18446744073709551616); [|lia].
Qed.

(** ** net.ParseIP *)

Definition parse_octet (s : string) : option Z :=
  if (s =s? "") || negb (str_forallb is_digit s) || (has_prefix s "0" && (1 <? len s)) then None
  else let v := decimal_value 0 s in if v <=? 255 then Some v else None.

Definition parse_ipv4 (s : string) : option (list Z) :=
  match str_split "." s with
  | [a; b; c; d] =>
      a' ← parse_octet a; b' ← parse_octet b; c' ← parse_octet c; d' ← parse_octet d;
      Some [a'; b'; c'; d']
  | _ => None
  end.

Definition hex_value (c : ascii) : Z :=
  if is_digit c then code c - 48 else if in_range "a" "f" c then code c - 87 else code c - 55.

(** The longest run of hexadecimal digits, its value and the rest. *)
Fixpoint hex_run (acc : Z) (n : nat) (s : string) : Z * nat * string :=
  match s with
  | String c s' => if is_hex c then hex_run (acc * 16 + hex_value c) (S n) s' else (acc, n, s)
  | EmptyString => (acc, n, s)
  end.

(** One iteration of the loop of [netip.parseIPv6] per unit of fuel; the loop
    stores two bytes per iteration and stops at sixteen, so eight iterations
    suffice.  [acc] holds the bytes so far, [ell] the position of [::]. *)
Fixpoint ipv6_groups (fuel : nat) (acc : list Z) (ell : option nat) (s : string)
    : option (list Z * option nat * string) :=
  match fuel with
  | O => Some (acc, ell, s)
  | S fuel' =>
      let '(v, off, rest) := hex_run 0 0 s in
      if (4 <? off)%nat || (off =? 0)%nat then None else
      if has_prefix rest "." then
        if bool_decide (ell = None) && negb (length acc =? 12)%nat then None
        else if (16 <? length acc + 4)%nat then None
        else fs ← parse_ipv4 s; Some (acc ++ fs, ell, "")
      else
        let acc' := acc ++ [v / 256; v mod 256] in
        match rest with
        | EmptyString => Some (acc', ell, "")
        | String c rest' =>
            if negb (Ascii.eqb c ":") then None else
            match rest' with
            | EmptyString => None
            | String d rest'' =>
                if Ascii.eqb d ":" then
                  if bool_decide (is_Some ell) then None
                  else if rest'' =s? "" then Some (acc', Some (length acc'), "")
                  else ipv6_groups fuel' acc' (Some (length acc')) rest''
                else ipv6_groups fuel' acc' ell rest'
            end
        end
  end.

Definition parse_ipv6 (s : string) : option (list Z) :=
  let start :=
    if has_prefix s "::" then
      if str_drop 2 s =s? "" then Some ([], Some 0%nat, "")
      else ipv6_groups 8 [] (Some 0%nat) (str_drop 2 s)
    else ipv6_groups 8 [] None s in
  '(acc, ell, rest) ← start;
  if rest <>s? "" then None else
  if (length acc <? 16)%nat then
    e ← ell;
    Some (take e acc ++ replicate (16 - length acc) 0 ++ drop e acc)
  else if bool_decide (is_Some ell) then None else Some acc.

(** The first of [.], [:] and the percent sign decides the form; an address
    with a zone is not an IP for [net.ParseIP]. *)
Fixpoint ip_form (s : string) : option ascii :=
  match s with
  | EmptyString => None
  | String c s' =>
      if Ascii.eqb c "." || Ascii.eqb c ":" || Ascii.eqb c "%" then Some c else ip_form s'
  end.

(** The result is the sixteen-byte form, an IPv4 address mapped into
    [::ffff:0:0/96]. *)
Definition net_ParseIP (s : string) : option (list Z) :=
  match ip_form s with
  | Some "."%char => v4 ← parse_ipv4 s; Some (replicate 10 0 ++ [255; 255] ++ v4)
  | Some ":"%char => if contains_byte s "%" then None else parse_ipv6 s
  | _ => None
  end.

(** ** net.SplitHostPort *)

Definition net_SplitHostPort (hp : string) : option (string * string) :=
  i ← last_index_byte hp ":";
  '(host, j, k) ←
    (if has_prefix hp "[" then
       e ← index_byte hp "]";
       if (S e =? i)%nat then Some (str_take (e - 1) (str_drop 1 hp), 1%nat, S e) else None
     else
       let host := str_take i hp in
       if contains_byte host ":" then None else Some (host, 0%nat, 0%nat));
  if contains_byte (str_drop j hp) "[" then None else
  if contains_byte (str_drop k hp) "]" then None else
  Some (host, str_drop (S i) hp).

Example ParseIP_v4 : net_ParseIP "10.0.0.7" = Some (replicate 10 0 ++ [255;255;10;0;0;7]).
Proof. reflexivity. Qed.
Example ParseIP_v6 : net_ParseIP "fe80::1" = Some ([254;128] ++ replicate 13 0 ++ [1]).
Proof. reflexivity. Qed.
Example ParseIP_embedded :
  net_ParseIP "::ffff:1.2.3.4" = net_ParseIP "1.2.3.4" /\ net_ParseIP "1.2.3.04" = None /\
  net_ParseIP "::" = Some (replicate 16 0) /\ net_ParseIP "1:2:3:4:5:6:7:8:9" = None /\
  net_ParseIP "1:2:3:4:5:6:7::8" = None /\ net_ParseIP "fe80::1%eth0" = None.
Proof. repeat split. Qed.
Example SplitHostPort_ex :
  net_SplitHostPort "[::1]:443" = Some ("::1", "443") /\ net_SplitHostPort "h:80" = Some ("h", "80") /\
  net_SplitHostPort "a:b:80" = None.
Proof. repeat split. Qed.
Example path_Clean_ex :
  path_Clean "/a/../b//c/." = "/b/c" /\ path_Clean "../a/.." = ".." /\ path_Clean "/.." = "/".
Proof. repeat split. Qed.

(** ** sort

    [sort.Slice] by a string key, [sort.Strings] and [sort.StringsAreSorted].
    Where the keys are distinct the result does not depend on the algorithm. *)
Section SortBy.
Context {A : Type} (key : A -> string).
Definition key_le (a b : A) : Prop := str_le (key a) (key b).
#[export] Instance key_le_dec : RelDecision key_le := fun a b => str_le_dec _ _.
#[export] Instance key_le_total : Total key_le.
Proof. intros a b. apply str_le_total. Qed.
#[export] Instance key_le_trans : Transitive key_le.
Proof. intros a b c. unfold key_le. apply str_le_trans. Qed.

Definition sort_by (l : list A) : list A := merge_sort key_le l.

(** The validation loop over a sorted slice: every element valid and its key
    different from that of its predecessor. *)
Fixpoint each_distinct (ok : A -> bool) (previous : option string) (l : list A) : bool :=
  match l with
  | [] => true
  | a :: rest => ok a && negb (bool_decide (previous = Some (key a))) && each_distinct ok (Some (key a)) rest
  end.

Lemma sort_by_perm l : sort_by l ≡ₚ l.
Proof. apply merge_sort_Permutation. Qed.

Lemma sort_by_sorted l : StronglySorted key_le (sort_by l).
Proof. apply Sorted_StronglySorted; [apply _|]. apply Sorted_merge_sort. apply _. Qed.

(** Sorting makes the neighbour test a test for duplicates. *)
Lemma each_distinct_nodup ok l p :
  StronglySorted key_le l -> each_distinct ok p l = true ->
  (forall x, p = Some x -> Forall (fun a => str_le x (key a)) l) ->
  NoDup (option_list p ++ (key <$> l)) /\ Forall (fun a => ok a = true) l.
Proof.
  revert p. induction l as [|a rest IH]; intros p Hs Hv Hp.
  { split; [|by constructor]. destruct p; simpl; [|constructor]. apply NoDup_singleton. }
  inversion Hs as [|? ? Hs' Hle]; subst. simpl in Hv. bool_props.
  match goal with Hr : each_distinct ok (Some (key a)) rest = true |- _ => rename Hr into Hrest end.
  destruct (IH (Some (key a)) Hs' Hrest) as [Hnd Hva]; [by intros x [= <-]|].
  split; [|by apply Forall_cons].
  destruct p as [x|]; simpl in *; [|done]. apply NoDup_cons. split; [|done].
  specialize (Hp x eq_refl). apply Forall_cons in Hp as [Hxa _].
  apply not_elem_of_cons. split; [congruence|]. intros (y & -> & Hy)%list_elem_of_fmap.
  rewrite Forall_forall in Hle. pose proof (str_le_antisym _ _ Hxa (Hle _ Hy)). congruence.
Qed.

Lemma each_distinct_sorted ok l :
  each_distinct ok None (sort_by l) = true -> NoDup (key <$> sort_by l) /\ Forall (fun a => ok a = true) (sort_by l).
Proof. intros Hv. by apply (each_distinct_nodup ok (sort_by l) None); [apply sort_by_sorted| |]. Qed.

(** A slice with distinct keys has one sorted order. *)
Lemma sort_by_unique l l' : NoDup (key <$> l) -> l ≡ₚ l' -> sort_by l = sort_by l'.
Proof.
  intros Hnd Hp.
  assert (Hinj : forall a b, a ∈ l -> b ∈ l -> key a = key b -> a = b).
  { clear Hp l'. induction l as [|x l IH]; intros a b Ha Hb Hk; [by apply elem_of_nil in Ha|].
    apply NoDup_cons in Hnd as [Hx Hnd].
    apply elem_of_cons in Ha as [->|Ha]; apply elem_of_cons in Hb as [->|Hb]; auto;
      exfalso; apply Hx; [rewrite Hk|rewrite <- Hk]; by apply list_elem_of_fmap_2. }
  apply (StronglySorted_unique_strong key_le); [|apply sort_by_sorted..|by rewrite !sort_by_perm].
  intros a b Ha Hb Hab Hba. rewrite sort_by_perm in Ha. rewrite sort_by_perm, <- Hp in Hb.
  apply Hinj; auto. by apply str_le_antisym.
Qed.
End SortBy.

Definition sort_Strings (l : list string) : list string := sort_by (fun s => s) l.

Fixpoint strings_are_sorted (values : list string) : bool :=
  match values with
  | a :: (b :: _) as rest => negb (str_ltb b a) && strings_are_sorted rest
  | _ => true
  end.
