(* ===== verification/Sha256.v ===== *)
(** * crypto/sha256

    The SHA-256 function of FIPS 180-4 on byte strings, executable, and the
    digest text ["sha256:" + hex] the program forms from it everywhere. *)

From S2P Require Import Prelude GoStd.

Definition w32 (x : Z) : Z := Z.land x 4294967295.
Definition rotr (n x : Z) : Z := Z.lor (Z.shiftr x n) (w32 (Z.shiftl x (32 - n))).
Definition shr (n x : Z) : Z := Z.shiftr x n.
Definition not32 (x : Z) : Z := Z.lxor x 4294967295.

Definition ch x y z : Z := Z.lxor (Z.land x y) (Z.land (not32 x) z).
Definition maj x y z : Z := Z.lxor (Z.lxor (Z.land x y) (Z.land x z)) (Z.land y z).
Definition Sigma0 x : Z := Z.lxor (Z.lxor (rotr 2 x) (rotr 13 x)) (rotr 22 x).
Definition Sigma1 x : Z := Z.lxor (Z.lxor (rotr 6 x) (rotr 11 x)) (rotr 25 x).
Definition sigma0 x : Z := Z.lxor (Z.lxor (rotr 7 x) (rotr 18 x)) (shr 3 x).
Definition sigma1 x : Z := Z.lxor (Z.lxor (rotr 17 x) (rotr 19 x)) (shr 10 x).

(** The constants are the first 32 bits of the fractional parts of the cube
    roots of the first 64 primes, and of the square roots of the first eight. *)
Definition is_prime (n : Z) : bool :=
  forallb (fun d => negb (n mod d =? 0)) (seqZ 2 (Z.sqrt n - 1)).

Definition primes : list Z := Eval vm_compute in filter (fun n => is_prime n = true) (seqZ 2 310).

(** The integer cube root, bit by bit from bit 40 down. *)
Definition cube_root (n : Z) : Z :=
  foldl (fun r b => let r' := r + Z.shiftl 1 (40 - b) in if r' * r' * r' <=? n then r' else r)
    0 (seqZ 0 41).

Definition K256 : list Z :=
  Eval vm_compute in (fun p => w32 (cube_root (Z.shiftl p 96))) <$> primes.

Definition H256 : list Z :=
  Eval vm_compute in (fun p => w32 (Z.sqrt (Z.shiftl p 64))) <$> take 8 primes.

(** Big-endian bytes of a word, and the reverse. *)
Definition be_bytes (n : nat) (x : Z) : list Z :=
  (fun i => Z.land (Z.shiftr x (8 * (Z.of_nat n - 1 - Z.of_nat i))) 255) <$> seq 0 n.

Fixpoint words_of (l : list Z) : list Z :=
  match l with
  | a :: b :: c :: d :: l' =>
      Z.lor (Z.lor (Z.shiftl a 24) (Z.shiftl b 16)) (Z.lor (Z.shiftl c 8) d) :: words_of l'
  | _ => []
  end.

Fixpoint bytes_of (s : string) : list Z :=
  match s with EmptyString => [] | String c s' => code c :: bytes_of s' end.

Fixpoint string_of_bytes (l : list Z) : string :=
  match l with
  | [] => ""
  | x :: l' => String (ascii_of_nat (Z.to_nat x)) (string_of_bytes l')
  end.

(** The padded message: 0x80, zeros up to 56 modulo 64, the length in bits. *)
Definition sha_pad (l : list Z) : list Z :=
  let n := Z.of_nat (length l) in
  l ++ [128] ++ replicate (Z.to_nat ((55 - n) mod 64)) 0 ++ be_bytes 8 (8 * n).

(** The message schedule; [ws] is reversed, so that W(t-2), W(t-7), W(t-15)
    and W(t-16) are at positions 1, 6, 14 and 15. *)
Fixpoint schedule (fuel : nat) (ws : list Z) : list Z :=
  match fuel with
  | O => rev ws
  | S f =>
      let at_ i := default 0 (ws !! i) in
      let w := w32 (sigma1 (at_ 1%nat) + at_ 6%nat + sigma0 (at_ 14%nat) + at_ 15%nat) in
      schedule f (w :: ws)
  end.

Definition sha_round (st : list Z) (kw : Z * Z) : list Z :=
  match st with
  | [a; b; c; d; e; f; g; h] =>
      let t1 := h + Sigma1 e + ch e f g + fst kw + snd kw in
      let t2 := Sigma0 a + maj a b c in
      [w32 (t1 + t2); a; b; c; w32 (d + t1); e; f; g]
  | _ => st
  end.

Definition sha_block (st : list Z) (block : list Z) : list Z :=
  let ws := schedule 48 (rev (words_of block)) in
  let st' := foldl sha_round st (zip K256 ws) in
  zip_with (fun x y => w32 (x + y)) st st'.

Fixpoint sha_blocks (fuel : nat) (st : list Z) (l : list Z) : list Z :=
  match fuel with
  | O => st
  | S f => match l with [] => st | _ => sha_blocks f (sha_block st (take 64 l)) (drop 64 l) end
  end.

(** One unit of fuel per block; there are at most [length] blocks. *)
Definition sha256_Sum256 (s : bytes) : bytes :=
  let m := sha_pad (bytes_of s) in
  string_of_bytes (sha_blocks (length m) H256 m ≫= be_bytes 4).

(** [digest s] is ["sha256:" + hex.EncodeToString(sha256.Sum256(s))]. *)
Definition digest (s : bytes) : string := "sha256:" +:+ hex_EncodeToString (sha256_Sum256 s).

Lemma sha_round_length st kw : length st = 8%nat -> length (sha_round st kw) = 8%nat.
Proof. intros H. do 9 (destruct st as [|? st]; try done). Qed.

Lemma sha_rounds_length kws st :
  length st = 8%nat -> length (foldl sha_round st kws) = 8%nat.
Proof. revert st. induction kws; simpl; auto using sha_round_length. Qed.

Lemma sha_block_length st block : length st = 8%nat -> length (sha_block st block) = 8%nat.
Proof.
  intros H. unfold sha_block. rewrite length_zip_with, sha_rounds_length by done. lia.
Qed.

Lemma sha_blocks_length fuel st l :
  length st = 8%nat -> length (sha_blocks fuel st l) = 8%nat.
Proof.
  revert st l. induction fuel as [|f IH]; simpl; intros st l H; [done|].
  destruct l; auto using sha_block_length.
Qed.

Lemma string_of_bytes_length l : String.length (string_of_bytes l) = length l.
Proof. induction l; simpl; congruence. Qed.

Lemma be_bytes_length n x : length (be_bytes n x) = n.
Proof. unfold be_bytes. by rewrite length_fmap, length_seq. Qed.

Lemma bind_be_bytes_length n l : length (l ≫= be_bytes n) = (length l * n)%nat.
Proof.
  induction l as [|x l IH]; [done|].
  change ((x :: l) ≫= be_bytes n) with (be_bytes n x ++ (l ≫= be_bytes n)).
  rewrite length_app, IH, be_bytes_length. simpl; lia.
Qed.

Lemma sha256_length s : String.length (sha256_Sum256 s) = 32%nat.
Proof.
  unfold sha256_Sum256. rewrite string_of_bytes_length, bind_be_bytes_length, sha_blocks_length; done.
Qed.

(** Every digest text is accepted by the digest pattern. *)
Lemma digest_matches s : digest_pattern (digest s) = true.
Proof.
  apply hex_pattern_spec. exists (hex_EncodeToString (sha256_Sum256 s)).
  split_and!; [done| |apply hex_encode_lower_hex].
  by rewrite hex_encode_length, sha256_length.
Qed.

#[export] Hint Resolve digest_matches : go.

(** The FIPS 180-4 test vectors of one and of two blocks. *)
Example sha256_abc :
  digest "abc" = "sha256:ba7816bf8f01cfea414140de5dae2223b00361a396177a9cb410ff61f20015ad".
Proof. vm_compute. reflexivity. Qed.

Example sha256_two_blocks :
  digest "abcdbcdecdefdefgefghfghighijhijkijkljklmklmnlmnomnopnopq" =
  "sha256:248d6a61d20638b8e5c026930c3e6039a33ce45964ff2167f6ecedd419db06c1".
Proof. vm_compute. reflexivity. Qed.

Lemma digest_trim s : trim_prefix (digest s) "sha256:" = hex_EncodeToString (sha256_Sum256 s).
Proof. apply trim_prefix_app. Qed.

Lemma digest_len s : len (digest s) = 71.
Proof. unfold digest. rewrite len_app. unfold len. by rewrite hex_encode_length, sha256_length. Qed.

#[global] Opaque sha256_Sum256 digest.

(** A collision of SHA-256. *)
Definition collision : Prop := exists x y : bytes, x <> y /\ sha256_Sum256 x = sha256_Sum256 y.
