(* ===== verification/GoText.v ===== *)
(** * unicode/utf8, strings, strconv and path/filepath

    The functions of the standard library the host probe uses on untrusted
    text: decoding of UTF-8 with Go's treatment of invalid bytes, splitting into
    fields, signed numbers, and slash-separated paths as lists of components. *)

From S2P Require Import Prelude GoStd.

(** ** unicode/utf8 *)

Definition RuneError : Z := 65533.

(** [utf8.DecodeRuneInString] of a non-empty string whose first byte is [b0]:
    the rune and the number of its bytes; an invalid byte is one [RuneError]. *)
Definition decode_rune (b0 : Z) (rest : list Z) : Z * nat :=
  let cont lo hi x := (lo <=? x) && (x <=? hi) in
  let bad := (RuneError, 1%nat) in
  if b0 <? 128 then (b0, 1%nat) else
  if b0 <? 194 then bad else
  if b0 <? 224 then
    match rest with
    | b1 :: _ => if cont 128 191 b1 then ((b0 - 192) * 64 + (b1 - 128), 2%nat) else bad
    | _ => bad
    end else
  if b0 <? 240 then
    match rest with
    | b1 :: b2 :: _ =>
        if cont (if b0 =? 224 then 160 else 128) (if b0 =? 237 then 159 else 191) b1 && cont 128 191 b2
        then ((b0 - 224) * 4096 + (b1 - 128) * 64 + (b2 - 128), 3%nat) else bad
    | _ => bad
    end else
  if b0 <? 245 then
    match rest with
    | b1 :: b2 :: b3 :: _ =>
        if cont (if b0 =? 240 then 144 else 128) (if b0 =? 244 then 143 else 191) b1 && cont 128 191 b2 && cont 128 191 b3
        then ((b0 - 240) * 262144 + (b1 - 128) * 4096 + (b2 - 128) * 64 + (b3 - 128), 4%nat) else bad
    | _ => bad
    end else bad.

Definition first_bytes (s : string) : list Z := code <$> list_ascii_of_string (str_take 3 s).

(** A rune with the bytes it was decoded from. *)
Record rune := Rune { r_value : Z; r_bytes : string }.

(** [range s]; [skip] bytes of the current rune are still to be passed. *)
Fixpoint runes_from (skip : nat) (s : string) : list rune :=
  match s with
  | EmptyString => []
  | String c s' =>
      match skip with
      | S k => runes_from k s'
      | O => let (r, n) := decode_rune (code c) (first_bytes s') in
             Rune r (str_take n s) :: runes_from (n - 1) s'
      end
  end.
Definition runes (s : string) : list rune := runes_from 0 s.

Definition rune_text (l : list rune) : string := foldr (fun r acc => r_bytes r +:+ acc) "" l.

(** A byte that is not part of a valid sequence. *)
Definition invalid_byte (r : rune) : bool := (r_value r =? RuneError) && (len (r_bytes r) =? 1).

Definition utf8_ValidString (s : string) : bool := negb (existsb invalid_byte (runes s)).

(** [unicode.IsSpace] and [unicode.IsControl]. *)
Definition IsSpace (r : Z) : bool :=
  ((9 <=? r) && (r <=? 13)) || (r =? 32) || (r =? 133) || (r =? 160) || (r =? 5760) ||
  ((8192 <=? r) && (r <=? 8202)) || (r =? 8232) || (r =? 8233) || (r =? 8239) || (r =? 8287) || (r =? 12288).
Definition IsControl (r : Z) : bool := (r <? 32) || ((127 <=? r) && (r <? 160)).

Definition has_control (s : string) : bool := existsb (fun r => IsControl (r_value r)) (runes s).

(** ** strings *)

(** [strings.Fields]. *)
Fixpoint fields_of (current : list rune) (l : list rune) : list string :=
  match l with
  | [] => match current with [] => [] | _ => [rune_text (rev current)] end
  | r :: l' =>
      if IsSpace (r_value r)
      then match current with [] => fields_of [] l' | _ => rune_text (rev current) :: fields_of [] l' end
      else fields_of (r :: current) l'
  end.
Definition strings_Fields (s : string) : list string := fields_of [] (runes s).

Fixpoint drop_spaces (l : list rune) : list rune :=
  match l with
  | r :: l' => if IsSpace (r_value r) then drop_spaces l' else l
  | [] => []
  end.
Definition strings_TrimSpace (s : string) : string := rune_text (rev (drop_spaces (rev (drop_spaces (runes s))))).

Definition trim_suffix (s t : string) : string :=
  if has_suffix s t then str_take (String.length s - String.length t) s else s.

(** [strings.SplitN(s, string(sep), n + 1)]. *)
Fixpoint str_splitN (n : nat) (sep : ascii) (s : string) : list string :=
  match n with
  | O => [s]
  | S n' =>
      match index_byte s sep with
      | None => [s]
      | Some i => str_take i s :: str_splitN n' sep (str_drop (S i) s)
      end
  end.

(** [strings.Index(s, t)], as the texts before and after the first [t]. *)
Fixpoint str_cut (s t : string) : option (string * string) :=
  if has_prefix s t then Some ("", str_drop (String.length t) s) else
  match s with
  | EmptyString => None
  | String c s' => match str_cut s' t with Some (a, b) => Some (String c a, b) | None => None end
  end.

(** ** strconv *)

(** [strconv.ParseInt(s, 10, 64)], which is [strconv.Atoi] on a 64-bit host. *)
Definition ParseInt (s : string) : option Z :=
  let (neg, digits) := match s with
                       | String "+" s' => (false, s')
                       | String "-" s' => (true, s')
                       | _ => (false, s)
                       end in
  match ParseUint digits 64 with
  | None => None
  | Some u => if (if neg then two63 <? u else two63 <=? u) then None else Some (if neg then - u else u)
  end.

(** ** path/filepath on Unix *)

Definition filepath_Join (a b : string) : string :=
  if a =s? "" then (if b =s? "" then "" else path_Clean b) else
  if b =s? "" then path_Clean a else path_Clean (a +:+ "/" +:+ b).

Definition filepath_Dir (p : string) : string :=
  match last_index_byte p "/" with
  | None => path_Clean ""
  | Some i => path_Clean (str_take (S i) p)
  end.

(** The components of a path, without the empty ones. *)
Definition components (p : string) : list string := filter (fun c => c <> "") (str_split "/" p).

Fixpoint strip_common (a b : list string) : list string * list string :=
  match a, b with
  | x :: a', y :: b' => if x =s? y then strip_common a' b' else (a, b)
  | _, _ => (a, b)
  end.

(** [filepath.Rel] of two absolute paths. *)
Definition filepath_Rel (base target : string) : option string :=
  let base := path_Clean base in
  let target := path_Clean target in
  if negb (filepath_IsAbs base && filepath_IsAbs target) then None else
  if base =s? target then Some "." else
  let (up, down) := strip_common (components base) (components target) in
  Some (str_join "/" (((fun _ => "..") <$> up) ++ down)).

Example text_ex :
  strings_Fields (" a " +:+ String "009" "bc ") = ["a"; "bc"] /\ strings_TrimSpace " x y " = "x y" /\
  str_splitN 2 ":" "0::/a:b" = ["0"; ""; "/a:b"] /\ str_cut "ab - cd - e" " - " = Some ("ab", "cd - e") /\
  ParseInt "-1" = Some (-1) /\ ParseInt "+7" = Some 7 /\ filepath_Rel "/a/b" "/a/c/d" = Some "../c/d" /\
  filepath_Rel "/" "/a" = Some "a" /\ filepath_Dir "/a/b" = "/a" /\ filepath_Dir "/a" = "/" /\ filepath_Join "/" "a" = "/a".
Proof. by_compute. Qed.

(** ** Absolute paths as lists of components *)

Definition render (cs : list string) : string := "/" +:+ str_join "/" cs.

Abbreviation proper := (Forall proper_component).

Lemma clean_components_filter acc l :
  Forall (fun c => c = "" \/ proper_component c) l ->
  clean_components true acc l = rev acc ++ filter (fun c => c <> "") l.
Proof.
  intros Hl. revert acc. induction Hl as [|c l Hc Hl IH]; intros acc; cbn [clean_components]; [by rewrite filter_nil, app_nil_r|].
  destruct Hc as [->|(H1 & H2 & H3 & _)].
  - rewrite filter_cons_False by (intros H; by apply H). simpl. apply IH.
  - rewrite filter_cons_True by done. apply String.eqb_neq in H1, H2, H3. rewrite H1, H2, H3. cbn [orb]. rewrite IH. simpl.
    by rewrite <- app_assoc.
Qed.

Lemma filter_proper cs : proper cs -> filter (fun c => c <> "") cs = cs.
Proof. intros H. induction H as [|c cs (Hc & _) _ IH]; [done|]. by rewrite filter_cons_True, IH. Qed.

Lemma clean_components_id cs : proper cs -> clean_components true [] cs = cs.
Proof.
  intros H. rewrite clean_components_filter by (eapply Forall_impl; [exact H|]; auto). by rewrite filter_proper.
Qed.

Lemma proper_no_slash cs : proper cs -> Forall (no_byte "/") cs.
Proof. intros H. eapply Forall_impl; [exact H|]. by intros c (_ & _ & _ & ?). Qed.

Lemma split_render cs : proper cs -> str_split "/" (render cs) = "" :: match cs with [] => [""] | _ => cs end.
Proof.
  intros H. unfold render. change ("/" +:+ str_join "/" cs) with ("" +:+ String "/" (str_join "/" cs)).
  rewrite str_split_app by done. f_equal. destruct cs as [|c cs]; [done|].
  apply str_split_join; [done|by apply proper_no_slash].
Qed.

Lemma path_Clean_abs p :
  filepath_IsAbs p = true -> path_Clean p = render (clean_components true [] (str_split "/" p)).
Proof.
  unfold filepath_IsAbs, path_Clean, render. intros Ha. destruct (String.eqb_spec p "") as [->|_]; [done|]. by rewrite Ha.
Qed.

Lemma render_abs cs : filepath_IsAbs (render cs) = true.
Proof. apply has_prefix_app. Qed.

Lemma clean_render cs : proper cs -> path_Clean (render cs) = render cs.
Proof.
  intros H. rewrite path_Clean_abs, split_render by (done || apply render_abs). simpl.
  destruct cs as [|c cs]; [done|]. by rewrite clean_components_id.
Qed.

(** A clean absolute path is its components. *)
Lemma clean_is_render p :
  filepath_IsAbs p = true -> exists cs, proper cs /\ path_Clean p = render cs.
Proof.
  intros Ha. rewrite path_Clean_abs by done. eexists. split; [|done].
  apply clean_components_proper; [done|apply str_split_no_byte].
Qed.

Lemma components_render cs : proper cs -> components (render cs) = cs.
Proof.
  intros H. unfold components. rewrite split_render by done. rewrite filter_cons_False by (intros E; by apply E).
  destruct cs as [|c cs]; [done|]. by apply filter_proper.
Qed.

Lemma render_inj cs cs' : proper cs -> proper cs' -> render cs = render cs' -> cs = cs'.
Proof. intros H H' E. rewrite <- (components_render cs), <- (components_render cs') by done. by rewrite E. Qed.

Lemma str_split_app_gen c s t : str_split c (s +:+ String c t) = str_split c s ++ str_split c t.
Proof.
  induction s as [|d s IH]; simpl; [by rewrite Ascii.eqb_refl|].
  destruct (Ascii.eqb d c); [by rewrite IH|]. rewrite IH.
  destruct (str_split c s) eqn:E; [|done]. exfalso. destruct s; simpl in E; [done|]. repeat case_match; done.
Qed.

Lemma join_render cs f : proper cs -> proper_component f -> filepath_Join (render cs) f = render (cs ++ [f]).
Proof.
  intros H Hf. unfold filepath_Join. destruct (String.eqb_spec (render cs) "") as [E|_]; [done|].
  destruct (String.eqb_spec f "") as [->|_]; [by destruct Hf|].
  rewrite path_Clean_abs by (unfold render; rewrite <- !str_app_assoc; apply has_prefix_app).
  change (render cs +:+ "/" +:+ f) with (render cs +:+ String "/" f). rewrite str_split_app_gen, split_render by done.
  rewrite (str_split_no_sep "/" f) by apply Hf.
  assert (Hall : Forall (fun c => c = "" \/ proper_component c) (match cs with [] => [""] | _ => cs end ++ [f])).
  { apply Forall_app. split; [|apply Forall_singleton; by right].
    destruct cs as [|c cs]; [by repeat constructor|]. eapply Forall_impl; [exact H|]. auto. }
  simpl. rewrite clean_components_filter by done. simpl. f_equal. rewrite filter_app.
  rewrite (filter_cons_True _ f) by apply Hf. f_equal. destruct cs as [|c cs]; [done|]. by apply filter_proper.
Qed.

Lemma last_index_app c s t : no_byte c t -> last_index_byte (s +:+ String c t) c = Some (String.length s).
Proof.
  intros Ht. assert (Hnone : last_index_byte t c = None).
  { revert Ht. induction t as [|d t IH]; [done|]. intros [Hne Ht]%no_byte_cons. simpl. rewrite IH by done.
    destruct (Ascii.eqb_spec d c); [congruence|done]. }
  induction s as [|d s IH]; simpl; [by rewrite Hnone, Ascii.eqb_refl|]. by rewrite IH.
Qed.

Lemma render_snoc cs c : exists s, render (cs ++ [c]) = s +:+ String "/" c /\ path_Clean (s +:+ "/") = path_Clean (render cs).
Proof.
  destruct cs as [|x cs]; [by exists ""|]. exists (render (x :: cs)). split.
  - unfold render. rewrite <- str_app_assoc. f_equal. revert x. induction cs as [|y cs IH]; intros x; [done|].
    change (str_join "/" ((x :: y :: cs) ++ [c])) with (x +:+ "/" +:+ str_join "/" ((y :: cs) ++ [c])).
    rewrite IH. change (str_join "/" (x :: y :: cs)) with (x +:+ "/" +:+ str_join "/" (y :: cs)). by rewrite !str_app_assoc.
  - rewrite !path_Clean_abs; [|apply render_abs|unfold render; rewrite <- str_app_assoc; apply has_prefix_app].
    f_equal. change ("/") with (String "/" ""). rewrite str_split_app_gen.
    assert (Hd : forall acc l, clean_components true acc (l ++ [""]) = clean_components true acc l).
    { intros acc l. revert acc. induction l as [|y l IH]; intros acc; simpl; [done|]. repeat case_match; auto. }
    apply Hd.
Qed.

Lemma str_take_snoc s c : str_take (S (String.length s)) (s +:+ String "/" c) = s +:+ "/".
Proof. induction s as [|a s IH]; [by destruct c|]. change (String a (str_take (S (String.length s)) (s +:+ String "/" c)) = String a (s +:+ "/")). by rewrite IH. Qed.

Lemma dir_render cs c : proper (cs ++ [c]) -> filepath_Dir (render (cs ++ [c])) = render cs.
Proof.
  intros [H Hc]%Forall_app. apply Forall_cons in Hc as [Hc _]. destruct (render_snoc cs c) as (s & -> & Hs).
  unfold filepath_Dir. rewrite last_index_app by apply Hc. cbv iota beta. by rewrite str_take_snoc, Hs, clean_render.
Qed.

Lemma strip_common_prefix b rest : strip_common b (b ++ rest) = ([], rest).
Proof. induction b as [|x b IH]; simpl; [by destruct rest|]. by rewrite String.eqb_refl. Qed.

Lemma strip_common_spec b t up down : strip_common b t = (up, down) -> exists c, b = c ++ up /\ t = c ++ down.
Proof.
  revert t. induction b as [|x b IH]; intros [|y t] E; simpl in E; try (injection E as <- <-; by exists []).
  destruct (String.eqb_spec x y) as [->|Hne].
  - destruct (IH _ E) as (c & -> & ->). by exists (y :: c).
  - injection E as <- <-. by exists [].
Qed.
