(* ===== verification/Utf8.v ===== *)
(** * UTF-8 text

    The decoding of UTF-8 ([GoText.runes]) and its inverse, and [utf8_fix]: what
    encoding/json makes of a Go string, whose invalid bytes become U+FFFD.  Text
    that is valid, in particular ASCII, is not changed. *)

From S2P Require Import Prelude GoStd Sha256 GoText.

(** ** Decoding *)

Lemma decode_rune_take b0 l : decode_rune b0 (take 3 l) = decode_rune b0 l.
Proof. by destruct l as [|x [|y [|z l]]]. Qed.

Lemma first_bytes_eq s : first_bytes s = take 3 (bytes_of s).
Proof.
  assert (H : forall n s, code <$> list_ascii_of_string (str_take n s) = take n (bytes_of s)).
  { intros n. induction n as [|n IH]; intros [|c t]; try done. simpl. f_equal. apply IH. }
  apply H.
Qed.

(** A decoded rune is an invalid byte, or its bytes alone decide it. *)
Lemma decode_rune_cases b0 l :
  decode_rune b0 l = (RuneError, 1%nat) \/
  exists v k, decode_rune b0 l = (v, S k) /\ (k <= length l)%nat /\ forall more, decode_rune b0 (take k l ++ more) = (v, S k).
Proof.
  unfold decode_rune. destruct (b0 <? 128) eqn:E1.
  { right. exists b0, 0%nat. split_and!; [done|lia|]. done. }
  destruct (b0 <? 194); [by left|]. destruct (b0 <? 224).
  { destruct l as [|b1 l]; [by left|]. destruct (_ && _) eqn:E; [right|by left].
    eexists _, 1%nat. split_and!; [done|simpl; lia|]. intros more. simpl. by rewrite E. }
  destruct (b0 <? 240).
  { destruct l as [|b1 [|b2 l]]; [by left|by left|]. match goal with |- context [if ?c then _ else (RuneError, 1%nat)] => destruct c eqn:E end; [right|by left].
    eexists _, 2%nat. split_and!; [done|simpl; lia|]. intros more. simpl. by rewrite E. }
  destruct (b0 <? 245); [|by left].
  destruct l as [|b1 [|b2 [|b3 l]]]; [by left..|]. match goal with |- context [if ?c then _ else (RuneError, 1%nat)] => destruct c eqn:E end; [right|by left].
  eexists _, 3%nat. split_and!; [done|simpl; lia|]. intros more. simpl. by rewrite E.
Qed.

(** The bytes of a rune that was decoded without an error. *)
Definition well_formed (r : rune) : Prop :=
  exists c s, r_bytes r = String c s /\ forall more, decode_rune (code c) (bytes_of s ++ more) = (r_value r, S (String.length s)).

Lemma bytes_of_app s t : bytes_of (s +:+ t) = bytes_of s ++ bytes_of t.
Proof. induction s; simpl; congruence. Qed.

Lemma bytes_of_take n s : bytes_of (str_take n s) = take n (bytes_of s).
Proof. revert s. induction n; intros [|c s]; simpl; congruence. Qed.

Lemma bytes_of_length s : length (bytes_of s) = String.length s.
Proof. induction s; simpl; congruence. Qed.

Lemma runes_from_forall skip s : Forall (fun r => invalid_byte r = true \/ well_formed r) (runes_from skip s).
Proof.
  revert skip. induction s as [|c s IH]; intros skip; [by destruct skip|]. destruct skip as [|k]; [|apply IH].
  cbn [runes_from]. rewrite first_bytes_eq, decode_rune_take.
  destruct (decode_rune_cases (code c) (bytes_of s)) as [->|(v & k & -> & Hk & Hmore)]; (constructor; [|apply IH]).
  - left. done.
  - right. exists c, (str_take k s). split; [done|]. intros more. rewrite bytes_of_take, Hmore. rewrite bytes_of_length in Hk.
    rewrite str_take_length. simpl. do 2 f_equal. lia.
Qed.

Lemma runes_skip s t : runes_from (String.length s) (s +:+ t) = runes_from 0 t.
Proof. induction s as [|c s IH]; [done|]. apply IH. Qed.

(** Decoding the text of well-formed runes gives the runes. *)
Lemma runes_text l : Forall well_formed l -> runes (rune_text l) = l.
Proof.
  induction 1 as [|r l (c & s & Hb & Hd) _ IH]; [done|]. unfold runes in *. cbn [rune_text foldr]. rewrite Hb. cbn [String.append runes_from].
  change (foldr (fun r acc => r_bytes r +:+ acc) "" l) with (rune_text l).
  rewrite first_bytes_eq, decode_rune_take, bytes_of_app, Hd. cbn [Nat.sub].
  rewrite Nat.sub_0_r, runes_skip, IH. destruct r as [v b]. simpl in *. subst b. do 2 f_equal.
  change (String c (s +:+ rune_text l)) with (String c s +:+ rune_text l).
  change (String c (str_take (String.length s) (s +:+ rune_text l))) with (str_take (String.length (String c s)) (String c s +:+ rune_text l)).
  by rewrite str_take_app.
Qed.

(** ** Replacing what is not UTF-8 *)

(** The three bytes of U+FFFD. *)
Definition replacement : string :=
  String (ascii_of_nat 239) (String (ascii_of_nat 191) (String (ascii_of_nat 189) "")).

Definition fix_rune (r : rune) : rune := if invalid_byte r then Rune RuneError replacement else r.

(** The string [json.Unmarshal] gives for what [json.Marshal] wrote for [s]. *)
Definition utf8_fix (s : string) : string := rune_text (fix_rune <$> runes s).
#[global] Arguments utf8_fix : simpl never.

Lemma fix_rune_well_formed r : invalid_byte r = true \/ well_formed r -> well_formed (fix_rune r).
Proof.
  unfold fix_rune. destruct (invalid_byte r) eqn:E; [|intros [?|?]; [congruence|done]].
  intros _. eexists _, _. split; [reflexivity|]. intros more. reflexivity.
Qed.

Lemma fix_rune_valid r : invalid_byte (fix_rune r) = false.
Proof. unfold fix_rune. by destruct (invalid_byte r) eqn:E. Qed.

Lemma fix_rune_idem r : fix_rune (fix_rune r) = fix_rune r.
Proof. unfold fix_rune at 1. by rewrite fix_rune_valid. Qed.

Lemma runes_fix s : runes (utf8_fix s) = fix_rune <$> runes s.
Proof.
  apply runes_text, Forall_fmap. eapply Forall_impl; [apply runes_from_forall|]. intros r. apply fix_rune_well_formed.
Qed.

Lemma utf8_fix_idem s : utf8_fix (utf8_fix s) = utf8_fix s.
Proof.
  unfold utf8_fix at 1. rewrite runes_fix, <- list_fmap_compose. unfold utf8_fix. f_equal.
  apply list_fmap_ext. intros _ r _. apply fix_rune_idem.
Qed.

(** The bytes of the runes are the bytes of the text. *)
Lemma rune_text_runes_from k s : rune_text (runes_from k s) = str_drop k s.
Proof.
  revert k. induction s as [|c s IH]; intros k; [by destruct k|]. destruct k as [|k]; cbn [runes_from str_drop]; [|apply IH].
  rewrite first_bytes_eq, decode_rune_take.
  assert (Hn : exists v n, decode_rune (code c) (bytes_of s) = (v, S n)).
  { destruct (decode_rune_cases (code c) (bytes_of s)) as [->|(v & k & -> & _)]; eauto. }
  destruct Hn as (v & n & ->). cbn [rune_text foldr r_bytes]. cbn [Nat.sub]. rewrite Nat.sub_0_r.
  change (foldr _ _ ?l) with (rune_text l). rewrite IH. cbn [str_take String.append]. by rewrite str_take_drop.
Qed.

Lemma rune_text_runes s : rune_text (runes s) = s.
Proof. unfold runes. rewrite rune_text_runes_from. by destruct s. Qed.

(** Valid text is not changed. *)
Lemma utf8_fix_valid s : utf8_ValidString s = true -> utf8_fix s = s.
Proof.
  intros Hv. unfold utf8_fix. rewrite <- (rune_text_runes s) at 2. f_equal. rewrite <- (list_fmap_id (runes s)) at 2.
  unfold utf8_ValidString in Hv. apply negb_true_iff in Hv. rewrite existsb_false in Hv.
  apply list_fmap_ext. intros i r Hr. unfold fix_rune. by rewrite (Forall_lookup_1 _ _ _ _ Hv Hr).
Qed.

Lemma utf8_fix_empty s : utf8_fix s = "" <-> s = "".
Proof.
  split; [|by intros ->]. intros Hs. destruct s as [|c s]; [done|]. apply (f_equal runes) in Hs. rewrite runes_fix in Hs.
  unfold runes in Hs. cbn [runes_from] in Hs. by destruct (decode_rune _ _).
Qed.

(** ** ASCII *)

Definition is_ascii (s : string) : bool := str_forallb (fun c => code c <? 128) s.

Lemma runes_ascii s : is_ascii s = true -> Forall (fun r => invalid_byte r = false) (runes s).
Proof.
  unfold runes. induction s as [|c s IH]; [constructor|]. intros Hs. unfold is_ascii in *. cbn [str_forallb] in Hs.
  apply andb_true_iff in Hs as [Hc Hs]. cbn [runes_from]. unfold decode_rune. rewrite Hc. constructor; [|by apply IH].
  unfold invalid_byte, RuneError. cbn [r_value]. destruct (Z.eqb_spec (code c) 65533); [lia|done].
Qed.

Lemma utf8_fix_ascii s : is_ascii s = true -> utf8_fix s = s.
Proof. intros Hs. apply utf8_fix_valid. unfold utf8_ValidString. by rewrite (proj2 (existsb_false _ _) (runes_ascii s Hs)). Qed.

(** ASCII text comes from itself only. *)
Lemma utf8_fix_ascii_inv s t : is_ascii t = true -> utf8_fix s = t -> s = t.
Proof.
  intros Ht Hs. subst t. unfold utf8_fix in *. rewrite <- (rune_text_runes s) at 1. f_equal. rewrite <- (list_fmap_id (runes s)) at 1.
  assert (Hf : Forall (fun r => is_ascii (r_bytes r) = true) (fix_rune <$> runes s)).
  { revert Ht. generalize (fix_rune <$> runes s). intros l. induction l as [|r l IH]; [constructor|]. cbn [rune_text foldr].
    change (foldr _ _ ?l) with (rune_text l). unfold is_ascii at 1. rewrite str_forallb_app. intros [? ?]%andb_true_iff.
    constructor; [done|by apply IH]. }
  symmetry. apply list_fmap_ext. intros i r Hr. pose proof (Forall_lookup_1 _ _ i (fix_rune r) Hf) as Hi.
  rewrite list_lookup_fmap, Hr in Hi. specialize (Hi eq_refl). unfold fix_rune in *. by destruct (invalid_byte r).
Qed.

(** A constant is the decoded text exactly when it is the text. *)
Lemma utf8_fix_eqb t : is_ascii t = true -> forall s, (utf8_fix s =s? t) = (s =s? t).
Proof.
  intros Ht s. destruct (String.eqb_spec s t) as [->|Hne]; [by rewrite utf8_fix_ascii, String.eqb_refl|].
  apply String.eqb_neq. intros Heq. by apply Hne, utf8_fix_ascii_inv.
Qed.
