(* ===== verification/Executor.v ===== *)
(** * pkg/executor/executor.go: execution policy and the policy executor

    The terminal-owned policy, the validation of a requested container
    specification against it, and [PolicyExecutor], which calls an isolated
    runtime client once and validates what it returns. *)

From S2P Require Import Prelude GoStd Sha256.

(** ** Data *)

Definition MaxAllowedImagesHard : Z := 1024.
Definition MaxAllowedNetworkHostsHard : Z := 1024.
Definition MaxExecutionIDBytes : Z := 128.

Definition NetworkNone : string := "none".
Definition NetworkAllowlist : string := "allowlist".

Record Limits := {
  lim_CPUMillis : Z;        (* uint64 *)
  lim_MemoryBytes : Z;      (* uint64 *)
  lim_DiskBytes : Z;        (* uint64 *)
  lim_PIDs : Z;             (* uint32 *)
  lim_ExecutionTime : Z;    (* time.Duration, int64 nanoseconds *)
  lim_OutputBytes : Z;      (* uint64 *)
  lim_GPUDeviceCount : Z;   (* uint32 *)
}.

(** The range of each field's Go type. *)
Definition Limits_wf (l : Limits) : Prop :=
  u64 (lim_CPUMillis l) /\ u64 (lim_MemoryBytes l) /\ u64 (lim_DiskBytes l) /\ u32 (lim_PIDs l) /\
  i64 (lim_ExecutionTime l) /\ u64 (lim_OutputBytes l) /\ u32 (lim_GPUDeviceCount l).

Record Mount := { mnt_Source : string; mnt_Target : string }.

Record Spec := {
  sp_ImageDigest : string;
  sp_Entrypoint : list string;
  sp_WorkingDirectory : string;
  sp_Environment : gmap string string;
  sp_WorkspaceArchive : bool;
  sp_ReadOnlyRoot : bool;
  sp_Network : string;
  sp_AllowedHosts : list string;
  sp_AllowGPU : bool;
  sp_UserID : Z;
  sp_GroupID : Z;
  sp_Privileged : bool;
  sp_NoNewPrivileges : bool;
  sp_HostMounts : list Mount;
  sp_ExposeRuntimeSocket : bool;
  sp_Limits : Limits;
}.

Record Usage := {
  us_CPUMillis : Z;
  us_PeakMemory : Z;
  us_DiskWritten : Z;
  us_Duration : Z;
}.

Record Result := {
  res_ExitCode : Z;
  res_Output : bytes;
  res_Usage : Usage;
}.

(** The zero value [Result{}]. *)
Definition ZeroResult : Result :=
  {| res_ExitCode := 0; res_Output := "";
     res_Usage := {| us_CPUMillis := 0; us_PeakMemory := 0; us_DiskWritten := 0; us_Duration := 0 |} |}.

Record ContainerRequest := {
  cr_ExecutionDigest : string;
  cr_ImageDigest : string;
  cr_Entrypoint : list string;
  cr_WorkingDirectory : string;
  cr_Environment : gmap string string;
  cr_WorkspaceArchive : bool;
  cr_UserID : Z;
  cr_GroupID : Z;
  cr_ReadOnlyRoot : bool;
  cr_NoNewPrivileges : bool;
  cr_Network : string;
  cr_AllowedHosts : list string;
  cr_AllowGPU : bool;
  cr_Limits : Limits;
}.

Record Policy := {
  pol_AllowedImages : gset string;
  pol_AllowedNetworkHosts : list string;
  pol_MaxAllowedImages : Z;
  pol_MaxEnvironment : Z;
  pol_MaxArguments : Z;
  pol_MaxAllowedHosts : Z;
  pol_MaxStringBytes : Z;
  pol_MaxInputBytes : Z;
  pol_Ceiling : Limits;
  pol_PermitGPU : bool;
  pol_PermitNetwork : bool;
  pol_RequireReadOnlyRoot : bool;
}.

(** ** String and host validation *)

Definition nul : ascii := ascii_of_nat 0.

Definition invalidContainerString (value : string) (maximum : Z) (allowEmpty : bool) : bool :=
  (negb allowEmpty && (len value =? 0)) || (maximum <? len value) || contains_byte value nul.

Definition dns_char (c : ascii) : bool :=
  is_lower c || is_upper c || is_digit c || Ascii.eqb c "-".

Definition last_char (s : string) : option ascii := String.get (String.length s - 1) s.

Definition invalid_label (label : string) : bool :=
  (len label =? 0) || (63 <? len label) ||
  bool_decide (String.get 0 label = Some "-"%char) || bool_decide (last_char label = Some "-"%char) ||
  negb (str_forallb dns_char label).

Definition invalidDNSHostname (hostname : string) : bool :=
  (len hostname =? 0) || (253 <? len hostname) ||
  existsb invalid_label (str_split "." hostname).

Definition invalidNetworkPort (port : string) : bool :=
  match ParseUint port 16 with
  | None => true
  | Some parsed => parsed =? 0
  end.

Definition invalidNetworkHost (host : string) (maximum : Z) : bool :=
  if invalidContainerString host maximum false then true
  else if bool_decide (is_Some (net_ParseIP host)) then false
  else if has_prefix host "[" && has_suffix host "]" then
    bool_decide (net_ParseIP (str_take (String.length host - 2) (str_drop 1 host)) = None)
  else if contains_byte host ":" then
    match net_SplitHostPort host with
    | None => true
    | Some (hostname, port) =>
        if invalidNetworkPort port then true
        else if bool_decide (is_Some (net_ParseIP hostname)) then false
        else invalidDNSHostname hostname
    end
  else invalidDNSHostname host.

(** The loop over the hosts with its set of hosts seen so far. *)
Fixpoint validateNetworkHosts_from (seen : gset string) (hosts : list string) (maximum : Z)
    : result unit :=
  match hosts with
  | [] => Ok tt
  | host :: hosts' =>
      fail_if (invalidNetworkHost host maximum)
        "host is empty, malformed, or exceeds the string bound" ;;;
      fail_if (bool_decide (host ∈ seen)) "duplicate host" ;;;
      validateNetworkHosts_from ({[host]} ∪ seen) hosts' maximum
  end.

Definition validateNetworkHosts (hosts : list string) (maximum : Z) : result unit :=
  validateNetworkHosts_from ∅ hosts maximum.

Fixpoint containsExactString (values : list string) (target : string) : bool :=
  match values with
  | [] => false
  | value :: values' => if value =s? target then true else containsExactString values' target
  end.

Definition validWorkspaceDirectory (value : string) : bool :=
  if (value <>s? "/workspace/source") && negb (has_prefix value "/workspace/source/") then false
  else (path_Clean value =s? value) && (len value <=? 4096).

(** [fmt.Errorf(prefix + ": %w", err)] applied to the error of [m]. *)
Definition wrap_err {A} (prefix : string) (m : result A) : result A :=
  match m with Ok a => Ok a | Err e => Err (prefix +:+ ": " +:+ e) end.

(** ** Limits *)

Definition validatePolicyCeiling (ceiling : Limits) (permitGPU : bool) : result unit :=
  fail_if ((lim_CPUMillis ceiling =? 0) || (lim_MemoryBytes ceiling =? 0) ||
           (lim_DiskBytes ceiling =? 0) || (lim_PIDs ceiling =? 0) ||
           (lim_ExecutionTime ceiling <=? 0) || (lim_OutputBytes ceiling =? 0))
    "executor policy contains a zero or invalid resource ceiling" ;;;
  fail_if (permitGPU && (lim_GPUDeviceCount ceiling =? 0))
    "GPU policy requires a positive device ceiling".

Fixpoint ceiling_checks (checks : list (string * Z * Z)) : result unit :=
  match checks with
  | [] => Ok tt
  | (name, requested, maximum) :: checks' =>
      fail_if ((requested =? 0) || (maximum =? 0) || (maximum <? requested))
        (name +:+ " limit is zero or exceeds policy") ;;;
      ceiling_checks checks'
  end.

Definition withinCeiling (request ceiling : Limits) : result unit :=
  fail_if ((lim_ExecutionTime request <=? 0) || (lim_ExecutionTime ceiling <=? 0))
    "execution time limit is zero or exceeds policy" ;;;
  ceiling_checks
    [ ("cpu", lim_CPUMillis request, lim_CPUMillis ceiling);
      ("memory", lim_MemoryBytes request, lim_MemoryBytes ceiling);
      ("disk", lim_DiskBytes request, lim_DiskBytes ceiling);
      ("output", lim_OutputBytes request, lim_OutputBytes ceiling);
      ("execution time", wrap64 (lim_ExecutionTime request), wrap64 (lim_ExecutionTime ceiling));
      ("pids", lim_PIDs request, lim_PIDs ceiling) ].

(** ** Policy validation *)

(** [Policy.validate]. *)
Definition policy_validate (p : Policy) : result unit :=
  fail_if ((pol_MaxAllowedImages p <=? 0) || (MaxAllowedImagesHard <? pol_MaxAllowedImages p) ||
           (pol_MaxAllowedImages p <? Z.of_nat (size (pol_AllowedImages p))) ||
           (MaxAllowedNetworkHostsHard <? llen (pol_AllowedNetworkHosts p)) ||
           (pol_MaxEnvironment p <? 0) || (pol_MaxArguments p <=? 0) || (pol_MaxAllowedHosts p <? 0) ||
           (MaxAllowedNetworkHostsHard <? pol_MaxAllowedHosts p) ||
           (pol_MaxStringBytes p <=? 0) || (pol_MaxInputBytes p =? 0))
    "invalid executor policy" ;;;
  validatePolicyCeiling (pol_Ceiling p) (pol_PermitGPU p) ;;;
  (if pol_PermitNetwork p then
     fail_if ((pol_MaxAllowedHosts p =? 0) || (llen (pol_AllowedNetworkHosts p) =? 0))
       "network policy requires an operator host allowlist"
   else
     fail_if (negb (llen (pol_AllowedNetworkHosts p) =? 0))
       "network host allowlist requires network permission") ;;;
  wrap_err "invalid executor network policy"
    (validateNetworkHosts (pol_AllowedNetworkHosts p) (pol_MaxStringBytes p)) ;;;
  fail_if (negb (forallb digest_pattern (elements (pol_AllowedImages p))))
    "executor policy contains an unpinned image".

Definition invalid_env (p : Policy) (kv : string * string) : bool :=
  invalidContainerString kv.1 (pol_MaxStringBytes p) false || contains_str kv.1 "=" ||
  invalidContainerString kv.2 (pol_MaxStringBytes p) true.

(** The network part of [Policy.Validate]. *)
Definition validate_network (p : Policy) (spec : Spec) : result unit :=
  if sp_Network spec =s? NetworkNone then
    fail_if (negb (llen (sp_AllowedHosts spec) =? 0)) "allowed hosts require allowlist network mode"
  else if sp_Network spec =s? NetworkAllowlist then
    fail_if (negb (pol_PermitNetwork p) || (llen (sp_AllowedHosts spec) =? 0))
      "network access is not authorized" ;;;
    fail_if (existsb (fun host => negb (containsExactString (pol_AllowedNetworkHosts p) host))
               (sp_AllowedHosts spec))
      "network host is not authorized"
  else Err "invalid network mode".

(** The GPU part of [Policy.Validate]. *)
Definition validate_gpu (p : Policy) (spec : Spec) : result unit :=
  fail_if (sp_AllowGPU spec && negb (pol_PermitGPU p)) "GPU device access is not authorized" ;;;
  if sp_AllowGPU spec then
    fail_if ((lim_GPUDeviceCount (sp_Limits spec) =? 0) ||
             (lim_GPUDeviceCount (pol_Ceiling p) <? lim_GPUDeviceCount (sp_Limits spec)))
      "GPU device limit is zero or exceeds policy"
  else
    fail_if (negb (lim_GPUDeviceCount (sp_Limits spec) =? 0))
      "GPU device count requires GPU authorization".

(** [Policy.Validate]. *)
Definition Validate (p : Policy) (spec : Spec) : result unit :=
  policy_validate p ;;;
  fail_if (negb (digest_pattern (sp_ImageDigest spec)))
    "container image must be pinned by sha256 digest" ;;;
  fail_if (negb (bool_decide (sp_ImageDigest spec ∈ pol_AllowedImages p)))
    "container image is not allowlisted" ;;;
  fail_if ((llen (sp_Entrypoint spec) =? 0) || (pol_MaxArguments p <? llen (sp_Entrypoint spec)) ||
           (pol_MaxEnvironment p <? Z.of_nat (size (sp_Environment spec))) ||
           (pol_MaxAllowedHosts p <? llen (sp_AllowedHosts spec)) ||
           negb (llen (sp_HostMounts spec) =? 0))
    "executor argument or environment bounds exceeded" ;;;
  fail_if (existsb (fun a => invalidContainerString a (pol_MaxStringBytes p) false) (sp_Entrypoint spec))
    "executor argument is invalid" ;;;
  (if sp_WorkspaceArchive spec then
     fail_if (negb (validWorkspaceDirectory (sp_WorkingDirectory spec)))
       "workspace execution requires a bounded working directory"
   else
     fail_if ((sp_WorkingDirectory spec <>s? "") && (sp_WorkingDirectory spec <>s? "/"))
       "working directory requires a workspace archive") ;;;
  fail_if (existsb (invalid_env p) (map_to_list (sp_Environment spec)))
    "executor environment is invalid" ;;;
  wrap_err "executor allowed host is invalid"
    (validateNetworkHosts (sp_AllowedHosts spec) (pol_MaxStringBytes p)) ;;;
  fail_if (sp_Privileged spec) "privileged execution is forbidden" ;;;
  fail_if ((sp_UserID spec =? 0) || (sp_GroupID spec =? 0))
    "container must run as a non-root user and group" ;;;
  fail_if (negb (sp_NoNewPrivileges spec)) "no-new-privileges is required" ;;;
  fail_if (sp_ExposeRuntimeSocket spec) "container runtime socket exposure is forbidden" ;;;
  fail_if (pol_RequireReadOnlyRoot p && negb (sp_ReadOnlyRoot spec))
    "read-only root filesystem is required" ;;;
  validate_network p spec ;;;
  validate_gpu p spec ;;;
  withinCeiling (sp_Limits spec) (pol_Ceiling p).

Definition ValidateInput (p : Policy) (input : bytes) : result unit :=
  fail_if (pol_MaxInputBytes p <? len input) "executor input exceeds policy".

(** ** Results and identities *)

Definition validateResult (limits : Limits) (r : Result) : result unit :=
  fail_if ((res_ExitCode r <? 0) || (255 <? res_ExitCode r) ||
           (lim_OutputBytes limits <? len (res_Output r)) ||
           (lim_CPUMillis limits <? us_CPUMillis (res_Usage r)) ||
           (lim_MemoryBytes limits <? us_PeakMemory (res_Usage r)) ||
           (lim_DiskBytes limits <? us_DiskWritten (res_Usage r)) ||
           (us_Duration (res_Usage r) <? 0) ||
           (lim_ExecutionTime limits <? us_Duration (res_Usage r)))
    "isolated execution result exceeds requested limits".

Definition ExecutionDigest (executionID : string) : result string :=
  fail_if ((executionID =s? "") || (MaxExecutionIDBytes <? len executionID))
    "invalid isolated execution identity" ;;;
  Ok (digest ("TOS-AI-EXECUTION-ID-V1" +:+ String nul "" +:+ executionID)).

Definition ValidateExecutionDigest (value : string) : result unit :=
  fail_if (negb (digest_pattern value)) "invalid isolated execution digest".

(** ** Contexts and the policy executor

    A [context.Context] is what can be observed of it: its error at a time
    (nanoseconds) and its deadline. *)
Record Context := {
  ctx_Err : Z -> option string;
  ctx_Deadline : option Z;
}.

Definition DeadlineExceeded : string := "context deadline exceeded".

(** [context.WithTimeout(parent, d)] called at time [start].  [fired t] tells
    whether the timer goroutine has published the expiry by time [t]; it may be
    late, which is why the code also compares the clock with the deadline. *)
Definition WithTimeout (parent : Context) (start d : Z) (fired : Z -> bool) : Context :=
  let deadline :=
    match ctx_Deadline parent with
    | Some t => Z.min t (start + d)
    | None => start + d
    end in
  {| ctx_Err t :=
       match ctx_Err parent t with
       | Some e => Some e
       | None => if fired t && (deadline <=? t) then Some DeadlineExceeded else None
       end;
     ctx_Deadline := Some deadline |}.

(** [executionContextError], the clock reading [now]. *)
Definition executionContextError (ctx : Context) (now : Z) : option string :=
  match ctx_Err ctx now with
  | Some e => Some e
  | None =>
      match ctx_Deadline ctx with
      | Some deadline => if deadline <=? now then Some DeadlineExceeded else None
      | None => None
      end
  end.

(** What a call of a runtime client does: it returns a result and an error, or
    it panics. *)
Inductive ClientOutcome :=
| Returned (r : Result) (err : option string)
| Panicked.

Definition ContainerdClient : Type := ContainerRequest -> bytes -> ClientOutcome.

Definition callContainerdClient (client : ContainerdClient) (request : ContainerRequest) (input : bytes)
    : Result * option string :=
  match client request input with
  | Returned r err => (r, err)
  | Panicked => (ZeroResult, Some "container runtime client panicked")
  end.

Record PolicyExecutor := {
  pe_policy : Policy;
  pe_client : ContainerdClient;
}.

Definition clonePolicy (policy : Policy) : Policy :=
  {| pol_AllowedImages := list_to_set (elements (pol_AllowedImages policy));
     pol_AllowedNetworkHosts := pol_AllowedNetworkHosts policy ++ [];
     pol_MaxAllowedImages := pol_MaxAllowedImages policy;
     pol_MaxEnvironment := pol_MaxEnvironment policy;
     pol_MaxArguments := pol_MaxArguments policy;
     pol_MaxAllowedHosts := pol_MaxAllowedHosts policy;
     pol_MaxStringBytes := pol_MaxStringBytes policy;
     pol_MaxInputBytes := pol_MaxInputBytes policy;
     pol_Ceiling := pol_Ceiling policy;
     pol_PermitGPU := pol_PermitGPU policy;
     pol_PermitNetwork := pol_PermitNetwork policy;
     pol_RequireReadOnlyRoot := pol_RequireReadOnlyRoot policy |}.

(** A nil client is [None]. *)
Definition NewPolicyExecutor (policy : Policy) (client : option ContainerdClient)
    : result PolicyExecutor :=
  policy_validate policy ;;;
  match client with
  | None => Err "nil container runtime client"
  | Some c => Ok {| pe_policy := clonePolicy policy; pe_client := c |}
  end.

Definition request_of (executionDigest : string) (spec : Spec) : ContainerRequest :=
  {| cr_ExecutionDigest := executionDigest;
     cr_ImageDigest := sp_ImageDigest spec;
     cr_Entrypoint := sp_Entrypoint spec;
     cr_WorkingDirectory := sp_WorkingDirectory spec;
     cr_Environment := sp_Environment spec;
     cr_WorkspaceArchive := sp_WorkspaceArchive spec;
     cr_UserID := sp_UserID spec;
     cr_GroupID := sp_GroupID spec;
     cr_ReadOnlyRoot := sp_ReadOnlyRoot spec;
     cr_NoNewPrivileges := sp_NoNewPrivileges spec;
     cr_Network := sp_Network spec;
     cr_AllowedHosts := sp_AllowedHosts spec;
     cr_AllowGPU := sp_AllowGPU spec;
     cr_Limits := sp_Limits spec |}.

(** The clock and the timer during one call: the time of the call, the time
    the client has returned, and the timer's behaviour. *)
Record Clock := {
  ck_start : Z;
  ck_finish : Z;
  ck_fired : Z -> bool;
}.

(** [PolicyExecutor.Execute].  The first component is the list of calls made to
    the client. *)
Definition Execute (e : option PolicyExecutor) (ctx : option Context) (ck : Clock)
    (executionID : string) (spec : Spec) (input : bytes)
    : list (ContainerRequest * bytes) * result Result :=
  match e with
  | None => ([], Err "invalid policy executor")
  | Some e =>
  match ctx with
  | None => ([], Err "nil execution context")
  | Some ctx =>
  match ctx_Err ctx (ck_start ck) with
  | Some err => ([], Err err)
  | None =>
  match ExecutionDigest executionID with
  | Err err => ([], Err err)
  | Ok executionDigest =>
  match Validate (pe_policy e) spec with
  | Err err => ([], Err err)
  | Ok _ =>
  match ValidateInput (pe_policy e) input with
  | Err err => ([], Err err)
  | Ok _ =>
      let request := request_of executionDigest spec in
      let executionCtx :=
        WithTimeout ctx (ck_start ck) (lim_ExecutionTime (sp_Limits spec)) (ck_fired ck) in
      let '(r, err) := callContainerdClient (pe_client e) request input in
      ([(request, input)],
       match executionContextError executionCtx (ck_finish ck) with
       | Some contextErr => Err contextErr
       | None =>
           match err with
           | Some _ => Err "isolated execution backend failed"
           | None => validateResult (sp_Limits spec) r ;;; Ok r
           end
       end)
  end end end end end end.

(** [DenyAll.Execute]. *)
Definition DenyAll_Execute (executionID : string) (spec : Spec) (input : bytes) : result Result :=
  Err "arbitrary workload execution is disabled".

(** ** Specification: what a conforming request is *)

(** A string a container may be given: bounded, without NUL, non-empty unless
    [allowEmpty]. *)
Definition container_string (maximum : Z) (allowEmpty : bool) (s : string) : Prop :=
  (allowEmpty = false -> s <> "") /\ len s <= maximum /\ no_byte nul s.

Definition limits_within (request ceiling : Limits) : Prop :=
  0 < lim_CPUMillis request <= lim_CPUMillis ceiling /\
  0 < lim_MemoryBytes request <= lim_MemoryBytes ceiling /\
  0 < lim_DiskBytes request <= lim_DiskBytes ceiling /\
  0 < lim_PIDs request <= lim_PIDs ceiling /\
  0 < lim_ExecutionTime request <= lim_ExecutionTime ceiling /\
  0 < lim_OutputBytes request <= lim_OutputBytes ceiling.

Record Conforms (p : Policy) (s : Spec) : Prop := {
  cf_pinned : digest_pattern (sp_ImageDigest s) = true;
  cf_allowed : sp_ImageDigest s ∈ pol_AllowedImages p;
  cf_args : 0 < llen (sp_Entrypoint s) <= pol_MaxArguments p;
  cf_arg_strings : Forall (container_string (pol_MaxStringBytes p) false) (sp_Entrypoint s);
  cf_env_size : Z.of_nat (size (sp_Environment s)) <= pol_MaxEnvironment p;
  cf_env : forall k v, sp_Environment s !! k = Some v ->
    container_string (pol_MaxStringBytes p) false k /\ contains_str k "=" = false /\
    container_string (pol_MaxStringBytes p) true v;
  cf_no_mounts : sp_HostMounts s = [];
  cf_workdir : if sp_WorkspaceArchive s then validWorkspaceDirectory (sp_WorkingDirectory s) = true
               else sp_WorkingDirectory s = "" \/ sp_WorkingDirectory s = "/";
  cf_hosts_bound : llen (sp_AllowedHosts s) <= pol_MaxAllowedHosts p;
  cf_hosts_nodup : NoDup (sp_AllowedHosts s);
  cf_hosts_valid : Forall (fun h => invalidNetworkHost h (pol_MaxStringBytes p) = false) (sp_AllowedHosts s);
  cf_unprivileged : sp_Privileged s = false /\ sp_UserID s <> 0 /\ sp_GroupID s <> 0 /\
    sp_NoNewPrivileges s = true /\ sp_ExposeRuntimeSocket s = false;
  cf_readonly : pol_RequireReadOnlyRoot p = true -> sp_ReadOnlyRoot s = true;
  cf_network :
    (sp_Network s = NetworkNone /\ sp_AllowedHosts s = []) \/
    (sp_Network s = NetworkAllowlist /\ pol_PermitNetwork p = true /\ sp_AllowedHosts s <> [] /\
     Forall (fun h => h ∈ pol_AllowedNetworkHosts p) (sp_AllowedHosts s));
  cf_gpu :
    if sp_AllowGPU s
    then pol_PermitGPU p = true /\
         0 < lim_GPUDeviceCount (sp_Limits s) <= lim_GPUDeviceCount (pol_Ceiling p)
    else lim_GPUDeviceCount (sp_Limits s) = 0;
  cf_limits : limits_within (sp_Limits s) (pol_Ceiling p);
}.

(** ** Lemmas *)

Lemma llen_zero {A} (l : list A) : llen l = 0 <-> l = [].
Proof. unfold llen. destruct l; simpl; split; try done; lia. Qed.

Lemma llen_nonneg {A} (l : list A) : 0 <= llen l.
Proof. unfold llen. lia. Qed.

Lemma invalidContainerString_spec s m ae :
  invalidContainerString s m ae = false <-> container_string m ae s.
Proof.
  unfold invalidContainerString, container_string, no_byte.
  autorewrite with go_prop.
  destruct ae; simpl; autorewrite with go_prop.
  - naive_solver.
  - split; [intros [[H ?] ?]; split_and!; auto; intros _ ->; by apply H|].
    intros (H & ? & ?). split_and!; auto. intros E%len_zero. by apply H.
Qed.

Lemma Forall_container_strings m ae l :
  Forall (fun s => invalidContainerString s m ae = false) l <-> Forall (container_string m ae) l.
Proof.
  split; intros H; (eapply Forall_impl; [exact H|]); intros s; apply invalidContainerString_spec.
Qed.

Lemma containsExactString_spec l s : containsExactString l s = true <-> s ∈ l.
Proof.
  induction l as [|x l IH]; simpl; [split; [done|by intros ?%elem_of_nil]|].
  destruct (String.eqb_spec x s) as [->|Hne]; rewrite elem_of_cons; [naive_solver|].
  rewrite IH. naive_solver.
Qed.

Lemma validateNetworkHosts_from_ok seen hosts m :
  validateNetworkHosts_from seen hosts m = Ok tt <->
  NoDup hosts /\ (forall h, h ∈ hosts -> h ∉ seen) /\
  Forall (fun h => invalidNetworkHost h m = false) hosts.
Proof.
  revert seen. induction hosts as [|h hosts IH]; intros seen; simpl.
  - split; [|done]. intros _. split_and!; [constructor|by intros h ?%elem_of_nil|constructor].
  - autorewrite with go_prop. rewrite IH, Forall_cons, NoDup_cons. set_solver.
Qed.

Lemma validateNetworkHosts_ok hosts m :
  validateNetworkHosts hosts m = Ok tt <->
  NoDup hosts /\ Forall (fun h => invalidNetworkHost h m = false) hosts.
Proof. unfold validateNetworkHosts. rewrite validateNetworkHosts_from_ok. set_solver. Qed.

Lemma wrap_err_ok {A} e (m : result A) a : wrap_err e m = Ok a <-> m = Ok a.
Proof. destruct m; simpl; naive_solver. Qed.

Lemma withinCeiling_ok r c :
  Limits_wf r -> Limits_wf c -> withinCeiling r c = Ok tt <-> limits_within r c.
Proof.
  intros (? & ? & ? & ? & Ht & ? & ?) (? & ? & ? & ? & Ht' & ? & ?).
  unfold withinCeiling, ceiling_checks, limits_within. autorewrite with go_prop.
  unfold u64, u32, i64, two64, two63 in *.
  assert (Hw : forall t, 0 < t < 9223372036854775808 -> wrap64 t = t)
    by (intros; apply wrap64_small; unfold u64, two64; lia).
  split.
  - intros ([? ?] & Hr). rewrite !Hw in Hr by lia. lia.
  - intros Hr. rewrite !Hw by lia. split_and!; first [lia|done].
Qed.

Lemma validate_network_ok p s :
  validate_network p s = Ok tt <->
  (sp_Network s = NetworkNone /\ sp_AllowedHosts s = []) \/
  (sp_Network s = NetworkAllowlist /\ pol_PermitNetwork p = true /\ sp_AllowedHosts s <> [] /\
   Forall (fun h => h ∈ pol_AllowedNetworkHosts p) (sp_AllowedHosts s)).
Proof.
  unfold validate_network.
  destruct (String.eqb_spec (sp_Network s) NetworkNone) as [->|Hn].
  - autorewrite with go_prop. rewrite llen_zero. unfold NetworkNone, NetworkAllowlist. naive_solver.
  - destruct (String.eqb_spec (sp_Network s) NetworkAllowlist) as [->|Hn'].
    + autorewrite with go_prop. rewrite llen_zero.
      assert (Hiff : Forall (fun x => negb (containsExactString (pol_AllowedNetworkHosts p) x) = false)
                       (sp_AllowedHosts s) <->
                     Forall (fun h => h ∈ pol_AllowedNetworkHosts p) (sp_AllowedHosts s)).
      { split; intros H; (eapply Forall_impl; [exact H|]); intros h; rewrite negb_false_iff; apply containsExactString_spec. }
      rewrite Hiff. naive_solver.
    + split; [done|]. intros [[? _]|[? _]]; congruence.
Qed.

Lemma validate_gpu_ok p s :
  0 <= lim_GPUDeviceCount (sp_Limits s) ->
  validate_gpu p s = Ok tt <->
  if sp_AllowGPU s
  then pol_PermitGPU p = true /\
       0 < lim_GPUDeviceCount (sp_Limits s) <= lim_GPUDeviceCount (pol_Ceiling p)
  else lim_GPUDeviceCount (sp_Limits s) = 0.
Proof.
  intros Hpos. unfold validate_gpu. autorewrite with go_prop.
  destruct (sp_AllowGPU s); simpl; autorewrite with go_prop; [|naive_solver].
  split; [intros (? & ? & ?); split; [done|lia]|]. intros (? & ?). split; [done|lia].
Qed.

Lemma env_ok p (env : gmap string string) :
  Forall (fun kv => invalid_env p kv = false) (map_to_list env) <->
  forall k v, env !! k = Some v ->
    container_string (pol_MaxStringBytes p) false k /\ contains_str k "=" = false /\
    container_string (pol_MaxStringBytes p) true v.
Proof.
  rewrite Forall_forall. unfold invalid_env. split.
  - intros H k v Hkv. specialize (H (k, v)). rewrite elem_of_map_to_list in H.
    specialize (H Hkv). simpl in H. rewrite !orb_false_iff, !invalidContainerString_spec in H.
    destruct H as [[? ?] ?]. auto.
  - intros H [k v] Hkv%elem_of_map_to_list. simpl.
    rewrite !orb_false_iff, !invalidContainerString_spec.
    destruct (H k v Hkv) as (? & ? & ?). auto.
Qed.

Lemma workdir_ok (s : Spec) :
  (if sp_WorkspaceArchive s
   then fail_if (negb (validWorkspaceDirectory (sp_WorkingDirectory s)))
          "workspace execution requires a bounded working directory"
   else fail_if ((sp_WorkingDirectory s <>s? "") && (sp_WorkingDirectory s <>s? "/"))
          "working directory requires a workspace archive") = Ok tt <->
  if sp_WorkspaceArchive s then validWorkspaceDirectory (sp_WorkingDirectory s) = true
  else sp_WorkingDirectory s = "" \/ sp_WorkingDirectory s = "/".
Proof.
  destruct (sp_WorkspaceArchive s); autorewrite with go_prop; [done|].
  rewrite andb_false_iff, !negb_false_iff, !String.eqb_eq. done.
Qed.

Lemma bounds_ok (p : Policy) (s : Spec) :
  ((llen (sp_Entrypoint s) =? 0) || (pol_MaxArguments p <? llen (sp_Entrypoint s)) ||
   (pol_MaxEnvironment p <? Z.of_nat (size (sp_Environment s))) ||
   (pol_MaxAllowedHosts p <? llen (sp_AllowedHosts s)) ||
   negb (llen (sp_HostMounts s) =? 0)) = false <->
  0 < llen (sp_Entrypoint s) <= pol_MaxArguments p /\
  Z.of_nat (size (sp_Environment s)) <= pol_MaxEnvironment p /\
  llen (sp_AllowedHosts s) <= pol_MaxAllowedHosts p /\ sp_HostMounts s = [].
Proof.
  autorewrite with go_prop. rewrite (llen_zero (sp_HostMounts s)).
  pose proof (llen_nonneg (sp_Entrypoint s)).
  split.
  - intros [[[[? ?] ?] ?] ?]. split_and!; first [assumption|lia].
  - intros ([? ?] & ? & ? & ?). split_and!; first [assumption|lia].
Qed.

(** [Validate] decides exactly the declarative specification. *)
Lemma Validate_spec (p : Policy) (s : Spec) :
  Limits_wf (sp_Limits s) -> Limits_wf (pol_Ceiling p) ->
  Validate p s = Ok tt <-> policy_validate p = Ok tt /\ Conforms p s.
Proof.
  intros Hs Hp. unfold Validate.
  rewrite !then_ok, !fail_if_ok, wrap_err_ok, validateNetworkHosts_ok, workdir_ok, bounds_ok,
    validate_network_ok, validate_gpu_ok, withinCeiling_ok, !existsb_false, Forall_container_strings,
    env_ok by (try done; apply Hs).
  autorewrite with go_prop. rewrite (andb_false_iff (pol_RequireReadOnlyRoot p)), negb_false_iff.
  split.
  - intros; destruct_and!. split; [done|]. constructor; auto.
    intros Hr. naive_solver congruence.
  - intros [? []]. destruct_and!. split_and!; auto.
    destruct (pol_RequireReadOnlyRoot p); auto.
Qed.

(** The exact condition of the call, and what it is. *)
Lemma Execute_called pe ctx ck id spec input :
  let calls := (Execute (Some pe) (Some ctx) ck id spec input).1 in
  (calls <> [] <-> ctx_Err ctx (ck_start ck) = None /\ 0 < len id <= MaxExecutionIDBytes /\ ValidateInput (pe_policy pe) input = Ok tt /\
     Validate (pe_policy pe) spec = Ok tt) /\
  (calls = [] \/ calls <> [] /\ calls = [(request_of (digest ("TOS-AI-EXECUTION-ID-V1" +:+ String nul "" +:+ id)) spec, input)]).
Proof.
  cbv zeta. unfold Execute, ExecutionDigest. destruct (ctx_Err ctx (ck_start ck)); [split; [naive_solver|by left]|].
  assert (Hid : forall e, fail_if ((id =s? "") || (MaxExecutionIDBytes <? len id)) e = Ok tt <-> 0 < len id <= MaxExecutionIDBytes).
  { intros e. rewrite fail_if_ok, orb_false_iff, String.eqb_neq, Z.ltb_ge. 
    assert (id <> "" <-> 0 < len id) as -> by (destruct id; unfold len; cbn; [split; [done|lia]|split; [lia|done]]). lia. }
  specialize (Hid "invalid isolated execution identity"). destruct (fail_if _ _) as [[]|]; cbn [rbind]; [|split; [naive_solver|by left]].
  destruct (Validate (pe_policy pe) spec) as [[]|]; [|split; [naive_solver|by left]].
  destruct (ValidateInput (pe_policy pe) input) as [[]|]; [|split; [naive_solver|by left]].
  destruct (callContainerdClient _ _ _) as [r err]. cbn [fst]. split; [naive_solver|by right].
Qed.

Lemma WithTimeout_expired parent start d fired t :
  start + d <= t -> exists e, executionContextError (WithTimeout parent start d fired) t = Some e.
Proof.
  intros H. unfold executionContextError.
  destruct (ctx_Err (WithTimeout parent start d fired) t) as [e|]; [by eauto|].
  exists DeadlineExceeded. simpl.
  assert (Hle : match ctx_Deadline parent with Some t0 => Z.min t0 (start + d) | None => start + d end <= t)
    by (destruct (ctx_Deadline parent); lia).
  apply Z.leb_le in Hle. by rewrite Hle.
Qed.

Lemma clonePolicy_id p : clonePolicy p = p.
Proof.
  destruct p. unfold clonePolicy; simpl. f_equal; [|apply app_nil_r].
  apply set_eq. intros x. by rewrite elem_of_list_to_set, elem_of_elements.
Qed.

(** ** Properties *)

(** C5. Fail-closed policy: [Policy.Validate] accepts a specification exactly
    when the policy is itself valid and the specification conforms to it (pinned
    and allowlisted image, no mounts, unprivileged, allowlisted unique hosts,
    positive limits within the ceiling, and so on). *)
Theorem Validate_iff_Conforms (p : Policy) (s : Spec)
    (Hs : Limits_wf (sp_Limits s)) (Hp : Limits_wf (pol_Ceiling p)) :
  Validate p s = Ok tt <-> policy_validate p = Ok tt /\ Conforms p s.
Proof. exact (Validate_spec p s Hs Hp). Qed.

(** What the runtime client is asked to run: exactly the specification's image,
    command, directory, environment, identity, network, devices and limits, under
    the domain-separated digest of the execution identity; and each of them is
    within the policy. *)
Record request_conforms (p : Policy) (id : string) (s : Spec) (req : ContainerRequest) : Prop := {
  rc_execution : cr_ExecutionDigest req = digest ("TOS-AI-EXECUTION-ID-V1" +:+ String nul "" +:+ id);
  rc_image : cr_ImageDigest req = sp_ImageDigest s /\ cr_ImageDigest req ∈ pol_AllowedImages p /\ digest_pattern (cr_ImageDigest req) = true;
  rc_command : cr_Entrypoint req = sp_Entrypoint s /\ 0 < llen (cr_Entrypoint req) <= pol_MaxArguments p;
  rc_directory : cr_WorkingDirectory req = sp_WorkingDirectory s /\ cr_WorkspaceArchive req = sp_WorkspaceArchive s;
  rc_environment : cr_Environment req = sp_Environment s /\ Z.of_nat (size (cr_Environment req)) <= pol_MaxEnvironment p;
  rc_user : cr_UserID req = sp_UserID s /\ cr_GroupID req = sp_GroupID s /\ cr_UserID req <> 0 /\ cr_GroupID req <> 0;
  rc_privileges : cr_NoNewPrivileges req = true;
  rc_root : cr_ReadOnlyRoot req = sp_ReadOnlyRoot s /\ (pol_RequireReadOnlyRoot p = true -> cr_ReadOnlyRoot req = true);
  rc_network : cr_Network req = sp_Network s /\ cr_AllowedHosts req = sp_AllowedHosts s /\
    ((cr_Network req = NetworkNone /\ cr_AllowedHosts req = []) \/
     (cr_Network req = NetworkAllowlist /\ pol_PermitNetwork p = true /\ Forall (fun h => h ∈ pol_AllowedNetworkHosts p) (cr_AllowedHosts req)));
  rc_gpu : cr_AllowGPU req = sp_AllowGPU s /\ (cr_AllowGPU req = true -> pol_PermitGPU p = true) /\
    (cr_AllowGPU req = false -> lim_GPUDeviceCount (cr_Limits req) = 0);
  rc_limits : cr_Limits req = sp_Limits s /\ limits_within (cr_Limits req) (pol_Ceiling p);
}.

Lemma request_of_conforms p id s : Conforms p s ->
  request_conforms p id s (request_of (digest ("TOS-AI-EXECUTION-ID-V1" +:+ String nul "" +:+ id)) s).
Proof.
  intros [? ? [? ?] ? ? ? ? ? ? ? ? (? & ? & ? & ? & ?) ? Hn Hg ?]. constructor; cbn; try done.
  - split_and!; [done|done|]. destruct Hn as [?|(? & ? & _ & ?)]; [by left|by right].
  - destruct (sp_AllowGPU s); split_and!; naive_solver.
Qed.

(** C17. The runtime client is called exactly when the context is alive, the
    identity and the input are within bounds, and the specification conforms to
    the valid policy; the one call it gets carries the caller's input and a
    request that has the specification's values, all within the policy, under the
    digest of the execution identity. *)
Theorem Execute_calls_conforming pol client e ctx ck id spec input
    (Hnew : NewPolicyExecutor pol (Some client) = Ok e)
    (Hs : Limits_wf (sp_Limits spec)) (Hp : Limits_wf (pol_Ceiling pol)) :
  let calls := (Execute (Some e) (Some ctx) ck id spec input).1 in
  (calls <> [] <-> ctx_Err ctx (ck_start ck) = None /\ 0 < len id <= MaxExecutionIDBytes /\ len input <= pol_MaxInputBytes pol /\ Conforms pol spec) /\
  (calls = [] \/ exists req, calls = [(req, input)] /\ request_conforms pol id spec req).
Proof.
  unfold NewPolicyExecutor in Hnew. result_inv. cbv zeta.
  match goal with Hv : policy_validate pol = Ok ?u |- _ => destruct u; rename Hv into Hvalid end.
  destruct (Execute_called {| pe_policy := clonePolicy pol; pe_client := client |} ctx ck id spec input) as [Hiff Hcall].
  cbn [pe_policy] in *. rewrite clonePolicy_id in *. unfold ValidateInput in *. rewrite fail_if_ok, Z.ltb_ge in Hiff.
  assert (HV : Validate pol spec = Ok tt <-> Conforms pol spec) by (rewrite Validate_spec by done; split; [by intros [_ ?]|by split]).
  split; [rewrite Hiff, HV; tauto|].
  destruct Hcall as [Hnil|(Hne & ->)]; [by left|right]. eexists. split; [reflexivity|]. apply request_of_conforms. tauto.
Qed.

(** A result the executor returns is the client's result, was returned
    without error before the execution deadline, and stays within every
    requested limit; a late, failed, panicked or oversized run yields an error. *)
Theorem Execute_result_bounded e ctx ck id spec input r
    (Hok : (Execute (Some e) (Some ctx) ck id spec input).2 = Ok r) :
  ck_finish ck < ck_start ck + lim_ExecutionTime (sp_Limits spec) /\
  (exists d, ExecutionDigest id = Ok d /\
     pe_client e (request_of d spec) input = Returned r None) /\
  0 <= res_ExitCode r <= 255 /\
  len (res_Output r) <= lim_OutputBytes (sp_Limits spec) /\
  us_CPUMillis (res_Usage r) <= lim_CPUMillis (sp_Limits spec) /\
  us_PeakMemory (res_Usage r) <= lim_MemoryBytes (sp_Limits spec) /\
  us_DiskWritten (res_Usage r) <= lim_DiskBytes (sp_Limits spec) /\
  0 <= us_Duration (res_Usage r) <= lim_ExecutionTime (sp_Limits spec).
Proof.
  unfold Execute in Hok.
  destruct (ctx_Err ctx (ck_start ck)); [done|].
  destruct (ExecutionDigest id) as [d|] eqn:Hd; [|done].
  destruct (Validate (pe_policy e) spec) as [[]|]; [|done].
  destruct (ValidateInput (pe_policy e) input) as [[]|]; [|done].
  unfold callContainerdClient in Hok.
  destruct (pe_client e (request_of d spec) input) as [r' [err|]|] eqn:Hc; cbn [snd] in Hok;
    destruct (executionContextError _ _) eqn:Hx; try done.
  apply then_ok in Hok as [Hv [= ->]].
  unfold validateResult in Hv. autorewrite with go_prop in Hv.
  split; [|split; [eauto|lia]].
  apply Z.nle_gt. intros Hle.
  destruct (WithTimeout_expired ctx (ck_start ck) _ (ck_fired ck) _ Hle) as [e' He']. congruence.
Qed.

(** A working directory accepted with a workspace archive is
    /workspace/source or a descendant: no component of the path is empty, [.]
    or [..]. *)
Theorem workspace_directory_confined (value : string)
    (Hv : validWorkspaceDirectory value = true) :
  exists rest, str_split "/" value = "" :: "workspace" :: "source" :: rest /\
    Forall proper_component rest /\ len value <= 4096.
Proof.
  unfold validWorkspaceDirectory in Hv.
  destruct ((value <>s? "/workspace/source") && negb (has_prefix value "/workspace/source/")) eqn:E; [done|].
  apply andb_true_iff in Hv as [Hc%String.eqb_eq Hl%Z.leb_le].
  apply andb_false_iff in E as [E%negb_false_iff%String.eqb_eq|E%negb_false_iff].
  - subst. exists []. split_and!; [reflexivity|constructor|done].
  - apply has_prefix_spec in E as [t ->]. exists (str_split "/" t).
    split_and!; [reflexivity| |done].
    apply path_Clean_fixed in Hc as [Hc|Hc]; [done| |reflexivity].
    change (tail (str_split "/" ("/workspace/source/" +:+ t)))
      with ("workspace" :: "source" :: str_split "/" t) in Hc.
    by apply Forall_cons in Hc as [_ [_ Hc]%Forall_cons].
Qed.

(** A remote task may always request less: lowering the limits of an
    accepted specification, keeping them positive, leaves it accepted. *)
Theorem Validate_monotone (p : Policy) (s s' : Spec)
    (Hok : Validate p s = Ok tt) (Hp : Limits_wf (pol_Ceiling p))
    (Hs : Limits_wf (sp_Limits s)) (Hs' : Limits_wf (sp_Limits s'))
    (Hsame : s' = {| sp_ImageDigest := sp_ImageDigest s; sp_Entrypoint := sp_Entrypoint s;
       sp_WorkingDirectory := sp_WorkingDirectory s; sp_Environment := sp_Environment s;
       sp_WorkspaceArchive := sp_WorkspaceArchive s; sp_ReadOnlyRoot := sp_ReadOnlyRoot s;
       sp_Network := sp_Network s; sp_AllowedHosts := sp_AllowedHosts s; sp_AllowGPU := sp_AllowGPU s;
       sp_UserID := sp_UserID s; sp_GroupID := sp_GroupID s; sp_Privileged := sp_Privileged s;
       sp_NoNewPrivileges := sp_NoNewPrivileges s; sp_HostMounts := sp_HostMounts s;
       sp_ExposeRuntimeSocket := sp_ExposeRuntimeSocket s; sp_Limits := sp_Limits s' |})
    (Hless : limits_within (sp_Limits s') (sp_Limits s))
    (Hgpu : lim_GPUDeviceCount (sp_Limits s') = lim_GPUDeviceCount (sp_Limits s)) :
  Validate p s' = Ok tt.
Proof.
  apply Validate_spec in Hok as [Hpol HC]; [|done..].
  apply Validate_spec; [done..|]. split; [done|].
  destruct HC. rewrite Hsame. constructor; simpl; auto; [by rewrite Hgpu|].
  unfold limits_within in *. lia.
Qed.

(** ** Witnesses *)

Module Samples.

Definition image : string :=
  "sha256:9624bca74096f810c5b24e489521dde124fadcfa1808581648b38bdc1ba1b105".

Definition limits : Limits :=
  {| lim_CPUMillis := 1000; lim_MemoryBytes := 1048576; lim_DiskBytes := 4096; lim_PIDs := 8;
     lim_ExecutionTime := 2000000000; lim_OutputBytes := 64; lim_GPUDeviceCount := 0 |}.

Definition policy : Policy :=
  {| pol_AllowedImages := {[image]}; pol_AllowedNetworkHosts := ["example.org:443"; "10.0.0.7"];
     pol_MaxAllowedImages := 1; pol_MaxEnvironment := 2; pol_MaxArguments := 4; pol_MaxAllowedHosts := 1;
     pol_MaxStringBytes := 64; pol_MaxInputBytes := 128; pol_Ceiling := limits;
     pol_PermitGPU := false; pol_PermitNetwork := true; pol_RequireReadOnlyRoot := true |}.

Definition spec_with (l : Limits) : Spec :=
  {| sp_ImageDigest := image; sp_Entrypoint := ["/bin/tool"; "run"];
     sp_WorkingDirectory := "/workspace/source/pkg"; sp_Environment := {["HOME" := "/workspace"]};
     sp_WorkspaceArchive := true; sp_ReadOnlyRoot := true; sp_Network := NetworkAllowlist;
     sp_AllowedHosts := ["example.org:443"]; sp_AllowGPU := false; sp_UserID := 1000; sp_GroupID := 1000;
     sp_Privileged := false; sp_NoNewPrivileges := true; sp_HostMounts := [];
     sp_ExposeRuntimeSocket := false; sp_Limits := l |}.

Definition spec : Spec := spec_with limits.

Definition good_result : Result :=
  {| res_ExitCode := 0; res_Output := "ok";
     res_Usage := {| us_CPUMillis := 10; us_PeakMemory := 100; us_DiskWritten := 0; us_Duration := 5 |} |}.

Definition client : ContainerdClient := fun _ _ => Returned good_result None.

Definition executor : PolicyExecutor := {| pe_policy := clonePolicy policy; pe_client := client |}.

Definition context : Context := {| ctx_Err := fun _ => None; ctx_Deadline := None |}.

Definition clock : Clock := {| ck_start := 100; ck_finish := 200; ck_fired := fun _ => false |}.

End Samples.

Lemma Validate_iff_Conforms_witness :
  policy_validate Samples.policy = Ok tt /\ Conforms Samples.policy Samples.spec.
Proof. apply (Validate_iff_Conforms Samples.policy Samples.spec); by_compute. Defined.

Lemma Execute_calls_conforming_witness :
  let calls := (Execute (Some Samples.executor) (Some Samples.context) Samples.clock "job" Samples.spec "in").1 in
  calls <> [] /\ (calls = [] \/ exists req, calls = [(req, "in")] /\ request_conforms Samples.policy "job" Samples.spec req).
Proof.
  split; [by_compute|].
  refine (proj2 (Execute_calls_conforming Samples.policy Samples.client Samples.executor Samples.context Samples.clock "job" Samples.spec "in" _ _ _)); by_compute.
Defined.

Lemma Execute_result_bounded_witness :
  (Execute (Some Samples.executor) (Some Samples.context) Samples.clock "job" Samples.spec "in").2
    = Ok Samples.good_result /\
  len (res_Output Samples.good_result) <= lim_OutputBytes (sp_Limits Samples.spec).
Proof.
  assert (Hok : (Execute (Some Samples.executor) (Some Samples.context) Samples.clock "job" Samples.spec "in").2
    = Ok Samples.good_result) by (vm_compute; reflexivity).
  split; [exact Hok|].
  exact (proj1 (proj2 (proj2 (proj2
    (Execute_result_bounded Samples.executor Samples.context Samples.clock "job" Samples.spec "in"
       Samples.good_result Hok))))).
Defined.

Lemma workspace_directory_confined_witness :
  exists rest, str_split "/" "/workspace/source/pkg" = "" :: "workspace" :: "source" :: rest /\
    Forall proper_component rest /\ len "/workspace/source/pkg" <= 4096.
Proof. apply (workspace_directory_confined "/workspace/source/pkg"). by_compute. Defined.

Lemma Validate_monotone_witness :
  Validate Samples.policy
    (Samples.spec_with
       {| lim_CPUMillis := 1; lim_MemoryBytes := 1; lim_DiskBytes := 1; lim_PIDs := 1;
          lim_ExecutionTime := 1; lim_OutputBytes := 1; lim_GPUDeviceCount := 0 |}) = Ok tt.
Proof. apply (Validate_monotone Samples.policy Samples.spec); by_compute. Defined.
