(* ===== verification/FS.v ===== *)
(** * The operating system's file interface: faults, crashes and power loss

    The durable components of the program (journal, outbox, gates, update
    manager, artifact store) talk to a private directory through [os].  This
    file models that interface as a small state monad over a disk, in which a
    fault script chosen by the environment decides, operation by operation,
    whether it succeeds, fails, writes only a part of its data, or whether the
    process dies there.

    A disk keeps, beside the contents the running process sees, the values each
    name had since its directory was last synchronised: after a power loss any
    of these may be found, and a file whose data was not synchronised may hold
    any data.

    Files are values: a handle is the name it was opened under.  This is exact
    for the program, which writes through a handle only between the creation of
    a file and its first rename or link.  Every directory is locked by the one
    process that uses it ([internal/dirlock]), so operations do not interleave. *)

From S2P Require Import Prelude.

(** A path is a directory and a base name. *)
Abbreviation path := (string * string)%type (only parsing).

Inductive kind := Regular | Directory | Symlink | Socket.
#[export] Instance kind_eq_dec : EqDecision kind.
Proof. solve_decision. Defined.

(** The permission bits 0o400, 0o500, 0o600 and 0o700. *)
Definition o400 : Z := 256.
Definition o500 : Z := 320.
Definition o600 : Z := 384.
Definition o700 : Z := 448.

Record inode := Inode {
  i_kind : kind;
  i_perm : Z;           (* Mode().Perm() *)
  i_owned : bool;       (* owned by the current user *)
  i_single : bool;      (* one link *)
  i_data : bytes;
  i_synced : bool;      (* data reached the disk *)
}.
#[export] Instance inode_eq_dec : EqDecision inode.
Proof. solve_decision. Defined.

(** Beside the files, [d_log] records the effects performed on the outside world
    (newest first); it is not stored anywhere, it only lets theorems count them. *)
Record disk := Disk {
  d_live : gmap path inode;
  d_old : gmap path (list (option inode));
  d_log : list (string * string);
}.

Inductive decision := DOk | DFail | DShort (n : nat) | DCrash.

Record world := World {
  w_disk : disk;
  w_script : list decision;
  w_rand : list string;
}.

Inductive errno := ENOENT | EEXIST | EIO.
#[export] Instance errno_eq_dec : EqDecision errno.
Proof. solve_decision. Defined.

Inductive sys (A : Type) := SOk (a : A) | SErr (e : errno).
Arguments SOk {A} a.
Arguments SErr {A} e.

(** A computation ends with a value, or the process dies in it. *)
Inductive outcome (A : Type) := Done (a : A) | Crashed.
Arguments Done {A} a.
Arguments Crashed {A}.

Definition IO (A : Type) : Type := world -> outcome A * world.

#[export] Instance io_ret : MRet IO := fun A a w => (Done a, w).
#[export] Instance io_bind : MBind IO := fun A B k m w =>
  match m w with
  | (Done a, w') => k a w'
  | (Crashed, w') => (Crashed, w')
  end.

(** ** Disk updates *)

Definition old_values (d : disk) (p : path) : list (option inode) := default [] (d_old d !! p).

(** A change of what a name denotes; the previous value may still be found
    after a power loss. *)
Definition d_upd (p : path) (v : option inode) (d : disk) : disk :=
  {| d_live := match v with Some i => <[p := i]> (d_live d) | None => delete p (d_live d) end;
     d_old := <[p := d_live d !! p :: old_values d p]> (d_old d);
     d_log := d_log d |}.

(** A change of the file a name denotes. *)
Definition d_mod (p : path) (f : inode -> inode) (d : disk) : disk :=
  {| d_live := alter f p (d_live d); d_old := d_old d; d_log := d_log d |}.

(** A synchronisation of a directory. *)
Definition d_sync (dir : string) (d : disk) : disk :=
  {| d_live := d_live d; d_old := filter (fun kv => kv.1.1 <> dir) (d_old d); d_log := d_log d |}.

(** An effect on the outside world. *)
Definition d_emit (e : string * string) (d : disk) : disk :=
  {| d_live := d_live d; d_old := d_old d; d_log := e :: d_log d |}.

(** ** Operations *)

Definition pop : IO decision := fun w =>
  match w_script w with
  | [] => (Done DOk, w)
  | DCrash :: s => (Crashed, World (w_disk w) s (w_rand w))
  | x :: s => (Done x, World (w_disk w) s (w_rand w))
  end.

Definition get_disk : IO disk := fun w => (Done (w_disk w), w).
Definition emit (e : string * string) : IO unit := fun w =>
  (Done tt, World (d_emit e (w_disk w)) (w_script w) (w_rand w)).
Definition put_disk (d : disk) : IO unit := fun w => (Done tt, World d (w_script w) (w_rand w)).

(** An operation that, when the environment lets it run, computes its result
    and its effect from the disk. *)
Definition op {A} (f : disk -> sys A * disk) : IO (sys A) :=
  x ← pop;
  match x with
  | DOk => d ← get_disk; _ ← put_disk (f d).2; mret (f d).1
  | _ => mret (SErr EIO)
  end.

Definition lookup_sys (p : path) (d : disk) : sys inode :=
  match d_live d !! p with Some i => SOk i | None => SErr ENOENT end.

Definition lstat (p : path) : IO (sys inode) := op (fun d => (lookup_sys p d, d)).

Definition read_file (p : path) : IO (sys bytes) :=
  op (fun d => (match d_live d !! p with Some i => SOk (i_data i) | None => SErr ENOENT end, d)).

Definition new_inode (perm : Z) : inode := Inode Regular perm true true "" false.

(** [os.OpenFile(p, O_WRONLY|O_CREATE|O_EXCL, perm)]. *)
Definition create_excl (p : path) (perm : Z) : IO (sys unit) :=
  op (fun d => match d_live d !! p with
               | Some _ => (SErr EEXIST, d)
               | None => (SOk tt, d_upd p (Some (new_inode perm)) d)
               end).

Definition append_data (b : bytes) (i : inode) : inode :=
  Inode (i_kind i) (i_perm i) (i_owned i) (i_single i) (i_data i +:+ b) false.

(** [file.Write(b)]; a short write leaves a prefix. *)
Definition write_file (p : path) (b : bytes) : IO (sys unit) :=
  x ← pop;
  d ← get_disk;
  match x with
  | DOk => _ ← put_disk (d_mod p (append_data b) d); mret (SOk tt)
  | DShort n => _ ← put_disk (d_mod p (append_data (str_take n b)) d); mret (SErr EIO)
  | _ => mret (SErr EIO)
  end.

Definition mark_synced (i : inode) : inode :=
  Inode (i_kind i) (i_perm i) (i_owned i) (i_single i) (i_data i) true.

Definition set_perm (perm : Z) (i : inode) : inode :=
  Inode (i_kind i) perm (i_owned i) (i_single i) (i_data i) (i_synced i).

Definition fsync (p : path) : IO (sys unit) := op (fun d => (SOk tt, d_mod p mark_synced d)).
Definition close_file (p : path) : IO (sys unit) := op (fun d => (SOk tt, d)).
Definition chmod (p : path) (perm : Z) : IO (sys unit) := op (fun d => (SOk tt, d_mod p (set_perm perm) d)).

Definition rename (src dst : path) : IO (sys unit) :=
  op (fun d => match d_live d !! src with
               | None => (SErr ENOENT, d)
               | Some i => (SOk tt, d_upd src None (d_upd dst (Some i) d))
               end).

Definition remove (p : path) : IO (sys unit) :=
  op (fun d => match d_live d !! p with
               | None => (SErr ENOENT, d)
               | Some _ => (SOk tt, d_upd p None d)
               end).

Definition link (src dst : path) : IO (sys unit) :=
  op (fun d => match d_live d !! src, d_live d !! dst with
               | None, _ => (SErr ENOENT, d)
               | Some _, Some _ => (SErr EEXIST, d)
               | Some i, None => (SOk tt, d_upd dst (Some i) d)
               end).

(** [os.Open(dir)] and [directory.Sync()]. *)
Definition open_dir (dir : string) : IO (sys unit) := op (fun d => (SOk tt, d)).
Definition sync_dir (dir : string) : IO (sys unit) := op (fun d => (SOk tt, d_sync dir d)).

(** The base names in a directory, sorted. *)
Definition names_in (dir : string) (d : disk) : list string :=
  merge_sort str_le
    ((fun kv => kv.1.2) <$> filter (fun kv => kv.1.1 = dir) (map_to_list (d_live d))).

Definition read_dir (dir : string) : IO (sys (list string)) := op (fun d => (SOk (names_in dir d), d)).

(** [os.ReadDir(dir)]: the names with their types. *)
Definition kind_in (dir : string) (d : disk) (name : string) : kind :=
  match d_live d !! (dir, name) with Some i => i_kind i | None => Regular end.

Definition read_entries (dir : string) : IO (sys (list (string * kind))) :=
  op (fun d => (SOk ((fun n => (n, kind_in dir d n)) <$> names_in dir d), d)).

(** [os.CreateTemp(dir, pattern)]: a new file with mode 0600 whose name is the
    pattern followed by random digits, not yet in use. *)
Definition max_name_length (d : disk) : nat :=
  foldr (fun kv acc => Nat.max (String.length kv.1.2) acc) 0%nat (map_to_list (d_live d)).

Fixpoint zeros (n : nat) : string := match n with O => "" | S n' => String "0" (zeros n') end.

Definition temp_name (dir pattern digits : string) (d : disk) : string :=
  let s := pattern +:+ str_filter is_digit digits in
  match d_live d !! (dir, s) with
  | None => s
  | Some _ => s +:+ zeros (max_name_length d)
  end.

Definition pop_rand : IO string := fun w =>
  match w_rand w with
  | [] => (Done "", w)
  | n :: r => (Done n, World (w_disk w) (w_script w) r)
  end.

Definition create_temp (dir pattern : string) : IO (sys path) :=
  n ← pop_rand;
  op (fun d => let p := (dir, temp_name dir pattern n d) in
               (SOk p, d_upd p (Some (new_inode o600)) d)).

(** A private file whose data reached the disk. *)
Definition plain_file (mode : Z) (data : bytes) : inode := Inode Regular mode true true data true.

(** [os.MkdirAll(dir, 0o700)]; a directory is the name [("", dir)]. *)
Definition dir_inode : inode := Inode Directory o700 true true "" true.

Definition mkdir_all (dir : string) : IO (sys unit) :=
  op (fun d => match d_live d !! ("", dir) with
               | None => (SOk tt, d_upd ("", dir) (Some dir_inode) d)
               | Some i => (if bool_decide (i_kind i = Directory) then SOk tt else SErr EIO, d)
               end).

(** [dirlock.Acquire(dir, name)]: fails when another process owns the lock,
    which is the environment's choice. *)
Definition acquire_lock (dir name : string) : IO (sys unit) := op (fun d => (SOk tt, d)).

Definition sys_ok {A} (m : sys A) : bool := match m with SOk _ => true | SErr _ => false end.

(** ** Power loss *)

(** [candidate d p v]: after a power loss the name [p] may denote [v]. *)
Definition candidate (d : disk) (p : path) (v : option inode) : Prop :=
  v = d_live d !! p \/ v ∈ old_values d p.

(** What a candidate is found to be: data that was not synchronised is
    arbitrary. *)
Inductive settles : option inode -> option inode -> Prop :=
| settles_none : settles None None
| settles_synced i : i_synced i = true -> settles (Some i) (Some i)
| settles_torn i b : i_synced i = false ->
    settles (Some i) (Some (Inode (i_kind i) (i_perm i) (i_owned i) (i_single i) b true)).

Definition power_loss (d d' : disk) : Prop :=
  d_old d' = ∅ /\ d_log d' = d_log d /\
  forall p, exists v, candidate d p v /\ settles v (d_live d' !! p).

(** Every value the name may be found to have satisfies [Φ]. *)
Definition always (d : disk) (p : path) (Φ : option inode -> Prop) : Prop :=
  forall v, candidate d p v -> Φ v.

(** ** Weakest preconditions

    [wp S m Q C d]: from disk [d], whatever decisions of [S] the environment
    makes, [m] ends with a value and a disk in [Q], or dies on a disk in [C].
    [any] allows every fault, [no_error] only the death of the process, [no_fault]
    none. *)
Definition any (x : decision) : Prop := True.
Definition no_fault (x : decision) : Prop := x = DOk.
Definition no_error (x : decision) : Prop := x = DOk \/ x = DCrash.

Definition wp {A} (S : decision -> Prop) (m : IO A) (Q : A -> disk -> Prop) (C : disk -> Prop)
    (d : disk) : Prop :=
  forall script rand, Forall S script ->
    match m (World d script rand) with
    | (Done a, w') => Forall S (w_script w') /\ Q a (w_disk w')
    | (Crashed, w') => C (w_disk w')
    end.

Lemma wp_ret {A} S (a : A) Q C d : Q a d -> wp S (mret a) Q C d.
Proof. intros H script rand HS. simpl. auto. Qed.

Lemma wp_bind {A B} S (m : IO A) (k : A -> IO B) Q C d :
  wp S m (fun a => wp S (k a) Q C) C d -> wp S (m ≫= k) Q C d.
Proof.
  intros H script rand HS. specialize (H script rand HS).
  unfold mbind, io_bind.
  destruct (m (World d script rand)) as [[a|] [d' script' rand']]; [|exact H].
  destruct H as [HS' H]. apply (H script' rand' HS').
Qed.

Lemma wp_mono {A} S (m : IO A) (Q Q' : A -> disk -> Prop) (C C' : disk -> Prop) d :
  wp S m Q C d -> (forall a d', Q a d' -> Q' a d') -> (forall d', C d' -> C' d') -> wp S m Q' C' d.
Proof.
  intros H HQ HC script rand HS. specialize (H script rand HS).
  destruct (m (World d script rand)) as [[a|] w']; [|auto]. destruct H; auto.
Qed.

Lemma wp_true {A} (m : IO A) d : wp any m (fun _ _ => True) (fun _ => True) d.
Proof. intros script rand _. destruct (m _) as [[a|] w']; [|done]. split; [by apply Forall_true|done]. Qed.

Lemma wp_and {A} S (m : IO A) (Q1 Q2 : A -> disk -> Prop) (C1 C2 : disk -> Prop) d :
  wp S m Q1 C1 d -> wp S m Q2 C2 d -> wp S m (fun a d' => Q1 a d' /\ Q2 a d') (fun d' => C1 d' /\ C2 d') d.
Proof.
  intros H1 H2 script rand HS. specialize (H1 script rand HS). specialize (H2 script rand HS).
  destruct (m (World d script rand)) as [[a|] w']; [|done]. destruct H1, H2. done.
Qed.

Lemma wp_run {A} (m : IO A) Q C w :
  wp any m Q C (w_disk w) ->
  match m w with (Done a, w') => Q a (w_disk w') | (Crashed, w') => C (w_disk w') end.
Proof.
  intros H. destruct w as [d script rand]. specialize (H script rand). simpl in H.
  destruct (m (World d script rand)) as [[a|] w'].
  - apply H. by apply Forall_true.
  - apply H. by apply Forall_true.
Qed.

Lemma wp_op {A} S (f : disk -> sys A * disk) Q C d :
  (S DCrash -> C d) -> ((exists x, S x /\ x <> DOk /\ x <> DCrash) -> Q (SErr EIO) d) -> Q (f d).1 (f d).2 ->
  wp S (op f) Q C d.
Proof.
  intros HC HF HO script rand HS.
  unfold op, mbind, io_bind, pop, get_disk, put_disk, mret, io_ret.
  destruct HS as [|x s Hx HS]; simpl; [by split|].
  destruct x; simpl; split_and?; eauto; apply HF; eexists; (split; [exact Hx|split; done]).
Qed.

Lemma wp_write S p b Q C d :
  (S DCrash -> C d) -> ((exists x, S x /\ x <> DOk /\ x <> DCrash) -> Q (SErr EIO) d) ->
  (forall n, S (DShort n) -> Q (SErr EIO) (d_mod p (append_data (str_take n b)) d)) ->
  Q (SOk tt) (d_mod p (append_data b) d) ->
  wp S (write_file p b) Q C d.
Proof.
  intros HC HF HN HO script rand HS.
  unfold write_file, mbind, io_bind, pop, get_disk, put_disk, mret, io_ret.
  destruct HS as [|x s Hx HS]; simpl; [by split|].
  destruct x; simpl; split_and?; eauto; apply HF; eexists; (split; [exact Hx|split; done]).
Qed.

Lemma wp_emit S e Q C d : Q tt (d_emit e d) -> wp S (emit e) Q C d.
Proof. intros H script rand HS. simpl. auto. Qed.

Lemma wp_create_temp S dir pattern Q C d :
  (S DCrash -> C d) -> ((exists x, S x /\ x <> DOk /\ x <> DCrash) -> Q (SErr EIO) d) ->
  (forall p digits, p = (dir, temp_name dir pattern digits d) ->
     Q (SOk p) (d_upd p (Some (new_inode o600)) d)) ->
  wp S (create_temp dir pattern) Q C d.
Proof.
  intros HC HF HO. unfold create_temp. apply wp_bind.
  intros script rand HS. unfold pop_rand. simpl.
  destruct rand as [|n r]; simpl; (split; [done|]); apply wp_op;
    [exact HC|exact HF|by eapply HO|exact HC|exact HF|by eapply HO].
Qed.

(** ** Lemmas on candidates *)

Create HintDb fs discriminated.
Create Rewrite HintDb fs_live.

Lemma live_upd p v d q :
  d_live (d_upd p v d) !! q = if decide (p = q) then v else d_live d !! q.
Proof.
  unfold d_upd; simpl. destruct v; case_decide; subst; simplify_map_eq; done.
Qed.

Lemma live_mod p f d q :
  d_live (d_mod p f d) !! q = if decide (p = q) then f <$> d_live d !! q else d_live d !! q.
Proof. unfold d_mod; simpl. rewrite lookup_alter. case_decide; subst; done. Qed.

Lemma live_sync dir d : d_live (d_sync dir d) = d_live d.
Proof. done. Qed.

#[export] Hint Rewrite live_upd live_mod live_sync : fs_live.

Lemma old_upd p v d q :
  old_values (d_upd p v d) q = if decide (p = q) then d_live d !! q :: old_values d q else old_values d q.
Proof. unfold old_values, d_upd; simpl. rewrite lookup_insert. case_decide; subst; done. Qed.

Lemma old_mod p f d q : old_values (d_mod p f d) q = old_values d q.
Proof. done. Qed.

Lemma old_sync dir d q : old_values (d_sync dir d) q = if decide (q.1 = dir) then [] else old_values d q.
Proof.
  unfold old_values, d_sync; simpl. rewrite map_lookup_filter.
  destruct (d_old d !! q) as [l|] eqn:E; simpl; [|by case_decide].
  case_guard; case_decide; simpl; congruence.
Qed.

#[export] Hint Rewrite old_upd old_mod old_sync : fs_live.

Lemma candidate_upd p v d q x :
  candidate (d_upd p v d) q x <-> (p = q /\ x = v) \/ candidate d q x.
Proof.
  unfold candidate. rewrite live_upd, old_upd. case_decide; [|naive_solver].
  rewrite elem_of_cons. naive_solver.
Qed.

Lemma candidate_mod p f d q x :
  candidate (d_mod p f d) q x -> candidate d q x \/ (p = q /\ x = f <$> d_live d !! q).
Proof. unfold candidate. rewrite live_mod, old_mod. case_decide; naive_solver. Qed.

Lemma candidate_sync dir d q x : candidate (d_sync dir d) q x -> candidate d q x.
Proof.
  unfold candidate. rewrite live_sync, old_sync. case_decide; [|done].
  intros [->|Hx]; [by left|]. by apply elem_of_nil in Hx.
Qed.

Lemma always_upd p v d q Φ : always d q Φ -> (p = q -> Φ v) -> always (d_upd p v d) q Φ.
Proof. intros H Hv x [[-> ->]|Hx]%candidate_upd; auto. Qed.

Lemma always_mod p f d q Φ :
  always d q Φ -> (p = q -> Φ (f <$> d_live d !! q)) -> always (d_mod p f d) q Φ.
Proof. intros H Hf x [Hx|[-> ->]]%candidate_mod; auto. Qed.

Lemma always_sync dir d q Φ : always d q Φ -> always (d_sync dir d) q Φ.
Proof. intros H x Hx%candidate_sync. auto. Qed.

Lemma always_emit e d q Φ : always d q Φ -> always (d_emit e d) q Φ.
Proof. done. Qed.

Lemma always_live d q Φ : always d q Φ -> Φ (d_live d !! q).
Proof. intros H. apply H. by left. Qed.

(** After a synchronisation only the live value remains. *)
Lemma always_synced dir base d Φ :
  Φ (d_live d !! (dir, base)) -> always (d_sync dir d) (dir, base) Φ.
Proof.
  intros H x Hx. unfold candidate in Hx. rewrite live_sync, old_sync in Hx. simpl in Hx.
  rewrite decide_True in Hx by done. destruct Hx as [->|Hx]; [done|]. by apply elem_of_nil in Hx.
Qed.

Lemma always_power_loss d d' q Φ :
  (forall v v', Φ v -> settles v v' -> Φ v') -> always d q Φ -> power_loss d d' -> always d' q Φ.
Proof.
  intros Hst H (Hold & _ & Hpl) x Hx. destruct (Hpl q) as (v & Hv & Hs).
  unfold candidate, old_values in Hx. rewrite Hold, lookup_empty in Hx. simpl in Hx.
  destruct Hx as [->|Hx]; [|by apply elem_of_nil in Hx]. eauto.
Qed.

(** A process that dies without a power loss leaves the disk as it is, which is
    one of the disks a power loss may leave when all data was synchronised. *)
Definition present (v : option inode) : Prop := is_Some v.

Lemma present_settles v v' : present v -> settles v v' -> present v'.
Proof. intros [i ->] Hs. inversion Hs; subst; eexists; done. Qed.

(** A synchronised file with the property [P]. *)
Definition stored (P : inode -> Prop) (v : option inode) : Prop :=
  exists i, v = Some i /\ i_synced i = true /\ P i.

Lemma stored_settles P v v' : stored P v -> settles v v' -> stored P v'.
Proof. intros (i & -> & Hs & HP) H. inversion H; subst; [|congruence]. by exists i. Qed.

Lemma stored_present P v : stored P v -> present v.
Proof. intros (i & -> & _). by eexists. Qed.

Lemma always_mono d q (Φ Ψ : option inode -> Prop) :
  always d q Φ -> (forall v, Φ v -> Ψ v) -> always d q Ψ.
Proof. intros H HΦ v Hv. auto. Qed.

Lemma max_name_length_spec d p :
  is_Some (d_live d !! p) -> (String.length p.2 <= max_name_length d)%nat.
Proof.
  intros [i Hi%elem_of_map_to_list]. unfold max_name_length.
  induction (map_to_list (d_live d)) as [|x l IH]; [by apply elem_of_nil in Hi|].
  apply elem_of_cons in Hi as [<-|Hi]; simpl; [lia|]. specialize (IH Hi). lia.
Qed.

Lemma zeros_length n : String.length (zeros n) = n.
Proof. induction n; simpl; congruence. Qed.

(** The name of a temporary file is not in use. *)
Lemma temp_name_fresh dir pattern digits d :
  pattern <> "" -> d_live d !! (dir, temp_name dir pattern digits d) = None.
Proof.
  intros Hp. unfold temp_name.
  destruct (d_live d !! (dir, pattern +:+ str_filter is_digit digits)) eqn:E; [|done].
  match goal with |- ?o = None => destruct o as [j|] eqn:E'; [exfalso|done] end.
  pose proof (max_name_length_spec d _ (ltac:(eexists; exact E'))) as H. simpl in H.
  rewrite !str_length_app, zeros_length in H.
  destruct pattern; [done|simpl in H; lia].
Qed.

Lemma zeros_digits n : str_forallb is_digit (zeros n) = true.
Proof. induction n; [done|]. simpl. by rewrite IHn. Qed.

(** A temporary name is the pattern followed by digits. *)
Lemma temp_name_pattern dir pattern digits d :
  exists s, temp_name dir pattern digits d = pattern +:+ s /\ str_forallb is_digit s = true.
Proof.
  unfold temp_name. destruct (d_live d !! _).
  - eexists. rewrite <- str_app_assoc. split; [done|].
    by rewrite str_forallb_app, str_filter_forallb, zeros_digits.
  - eexists. split; [done|]. apply str_filter_forallb.
Qed.

#[export] Hint Resolve always_upd always_mod always_sync present_settles stored_present : fs.

(** ** Automation for weakest preconditions *)

Ltac wp_step :=
  lazymatch goal with
  | |- wp _ (mret _) _ _ _ => apply wp_ret
  | |- wp _ (_ ≫= _) _ _ _ => apply wp_bind
  | |- wp _ (write_file _ _) _ _ _ => apply wp_write; [intros ? | intros [? ?] | intros ? ? |]
  | |- wp _ (emit _) _ _ _ => apply wp_emit
  | |- wp _ (create_temp _ _) _ _ _ => apply wp_create_temp; [intros ? | intros [? ?] | intros t digits Htemp]
  | |- wp _ (if ?c then _ else _) _ _ _ => let E := fresh "E" in destruct c eqn:E
  | |- wp _ (match ?x with _ => _ end) _ _ _ => let E := fresh "E" in destruct x eqn:E
  | |- wp _ ?m _ _ _ => apply wp_op; [intros ? | intros [? ?] |]
  end; cbn beta iota zeta delta [fst snd negb sys_ok].

Ltac wp_steps := repeat wp_step.

(** Without faults the crash and failure cases are absurd. *)
Ltac no_fault_absurd :=
  exfalso; unfold no_fault in *;
  repeat match goal with H : _ /\ _ |- _ => destruct H end; congruence.

(** Where only deaths occur the failure cases are absurd. *)
Ltac no_error_absurd :=
  exfalso; unfold no_error in *; repeat match goal with H : _ /\ _ |- _ => destruct H end;
  match goal with H : _ = DOk \/ _ = DCrash |- _ => destruct H; congruence end.

Ltac wp_ok := wp_step; try solve [no_fault_absurd].

(** ** Invariants of programs

    [keeps I m]: whatever faults occur, [m] leaves the disk in [I], also where
    the process dies. *)
Definition keeps {A} (I : disk -> Prop) (m : IO A) : Prop :=
  forall d, I d -> wp any m (fun _ => I) I d.

Lemma keeps_ret {A} I (a : A) : keeps I (mret a).
Proof. intros d H. by apply wp_ret. Qed.

Lemma keeps_bind {A B} I (m : IO A) (k : A -> IO B) :
  keeps I m -> (forall a, keeps I (k a)) -> keeps I (m ≫= k).
Proof. intros Hm Hk d H. apply wp_bind. eapply wp_mono; [by apply Hm| |done]. intros a d' Hd'. by apply Hk. Qed.

Lemma keeps_op {A} I (f : disk -> sys A * disk) : (forall d, I d -> I (f d).2) -> keeps I (op f).
Proof. intros Hf d H. apply wp_op; auto. Qed.

Lemma keeps_emit I e : (forall d, I d -> I (d_emit e d)) -> keeps I (emit e).
Proof. intros Hf d H. apply wp_emit. auto. Qed.

Lemma keeps_write I p b :
  (forall d b', I d -> I (d_mod p (append_data b') d)) -> keeps I (write_file p b).
Proof. intros Hf d H. apply wp_write; auto. Qed.

Lemma keeps_create_temp I dir pattern :
  (forall d t, I d -> I (d_upd t (Some (new_inode o600)) d)) -> keeps I (create_temp dir pattern).
Proof. intros Hf d H. apply wp_create_temp; auto. Qed.

(** The name of a temporary file may be assumed to be the one chosen. *)
Lemma keeps_with_temp {B} I dir pattern (k : sys path -> IO B) :
  (forall e, keeps I (k (SErr e))) ->
  (forall d digits t, I d -> t = (dir, temp_name dir pattern digits d) ->
     wp any (k (SOk t)) (fun _ => I) I (d_upd t (Some (new_inode o600)) d)) ->
  keeps I (create_temp dir pattern ≫= k).
Proof.
  intros He Hk d H. apply wp_bind. apply wp_create_temp; [done| |].
  - intros _. by apply He.
  - intros p digits Hp. by eapply Hk.
Qed.

Lemma keeps_mono {A} (I : disk -> Prop) (m : IO A) d Q C :
  keeps I m -> I d -> (forall a d', I d' -> Q a d') -> (forall d', I d' -> C d') -> wp any m Q C d.
Proof. intros Hm H HQ HC. eapply wp_mono; [by apply Hm|auto|auto]. Qed.

(** A name other than the one an operation touches keeps its file. *)
Lemma live_upd_ne p v d q : p <> q -> d_live (d_upd p v d) !! q = d_live d !! q.
Proof. intros. by rewrite live_upd, decide_False. Qed.

Lemma live_mod_ne p f d q : p <> q -> d_live (d_mod p f d) !! q = d_live d !! q.
Proof. intros. by rewrite live_mod, decide_False. Qed.

Ltac keeps_step :=
  lazymatch goal with
  | |- keeps _ (mret _) => apply keeps_ret
  | |- keeps _ (_ ≫= _) => apply keeps_bind; [|intros ?]
  | |- keeps _ (emit _) => apply keeps_emit; intros ? ?
  | |- keeps _ (write_file _ _) => apply keeps_write; intros ? ? ?
  | |- keeps _ (create_temp _ _) => apply keeps_create_temp; intros ? ? ?
  | |- keeps _ (if ?c then _ else _) => destruct c eqn:?
  | |- keeps _ (match ?x with _ => _ end) => destruct x eqn:?
  | |- keeps _ _ => apply keeps_op; intros ? ?
  end; cbn beta iota zeta delta [fst snd negb sys_ok].

Ltac keeps_steps := repeat keeps_step.

(** ** Names that stay present *)

(** [occupied p d]: on disk [d], and after any power loss, [p] is a file. *)
Definition occupied (p : path) (d : disk) : Prop := always d p present.

Lemma occupied_live p d : occupied p d -> exists i, d_live d !! p = Some i.
Proof. intros H0. exact (always_live _ _ _ H0). Qed.

Lemma occupied_mod p q f d : occupied p d -> occupied p (d_mod q f d).
Proof.
  intros H0. apply always_mod; [done|]. intros ->.
  destruct (occupied_live _ _ H0) as [i ->]. by eexists.
Qed.

Lemma occupied_remove p q d : occupied p d -> q <> p -> occupied p (d_upd q None d).
Proof. intros H0 Hne. apply always_upd; [done|]. by intros ->. Qed.

Lemma occupied_put p q i d : occupied p d -> occupied p (d_upd q (Some i) d).
Proof. intros H0. apply always_upd; [done|]. by eexists. Qed.

Lemma occupied_sync p dir d : occupied p d -> occupied p (d_sync dir d).
Proof. apply always_sync. Qed.

Lemma occupied_power_loss p d d' : occupied p d -> power_loss d d' -> occupied p d'.
Proof. intros H0 Hp. by apply (always_power_loss d d' p _ present_settles). Qed.

Lemma occupied_not_temp p d dir pattern digits t :
  pattern <> "" -> occupied p d -> t = (dir, temp_name dir pattern digits d) -> t <> p.
Proof.
  intros Hpat Hocc -> <-. destruct (occupied_live _ _ Hocc) as [i Hi].
  rewrite temp_name_fresh in Hi; done.
Qed.

#[export] Hint Resolve occupied_mod occupied_put occupied_sync occupied_remove : fs.

(** Close the goals an invariant on one name leaves for the operations on other
    names. *)
Ltac keeps_file :=
  repeat case_match; cbn [fst snd]; eauto with fs.

Lemma keeps_run {A} (I : disk -> Prop) (m : IO A) w : keeps I m -> I (w_disk w) -> I (w_disk (m w).2).
Proof.
  intros Hm H. pose proof (wp_run _ _ _ w (Hm (w_disk w) H)) as Hw. by destruct (m w) as [[a|] w'].
Qed.

Definition log_is (l : list (string * string)) (d : disk) : Prop := d_log d = l.

(** Close the goals the invariant [log_is] leaves: file operations do not
    touch the log. *)
Ltac keeps_log := repeat case_match; cbn [fst snd]; done.
