(* ===== verification/Json.v ===== *)
(** * encoding/json as an interface

    The durable records are written with [json.Marshal] and read back with
    [json.Unmarshal] or a strict decoder.  The components only rely on two
    documented facts, stated by the class [JsonLaws]: what was marshalled,
    possibly followed by a newline, decodes to the same value (for values whose
    strings are valid UTF-8), and the text is not empty.  Where the strings may
    be any bytes, [JsonTextLaws] states what the decoder makes of them: every
    byte that is not part of valid UTF-8 becomes U+FFFD, so that decoded text is
    always valid.

    [FieldsJson] is a concrete implementation of the interface for any record
    that can be listed as strings; it shows that the laws can hold and lets the
    witnesses run. *)

From S2P Require Import Prelude GoText Utf8.

Class Json (A : Type) := {
  json_marshal : A -> bytes;
  json_unmarshal : bytes -> option A;
}.

Definition newline : string := String (ascii_of_nat 10) "".

Class JsonLaws (A : Type) `{Json A} := {
  json_representable : A -> Prop;
  json_roundtrip : forall a, json_representable a -> json_unmarshal (json_marshal a) = Some a;
  json_roundtrip_nl : forall a, json_representable a ->
    json_unmarshal (json_marshal a +:+ newline) = Some a;
  json_nonempty : forall a, json_marshal a <> "";
}.

(** ** Strings of any bytes

    [json_text a] is [a] with every string as the decoder gives it back;
    [json_keys a] says that the keys of its maps are valid UTF-8 (two keys with
    invalid bytes can become the same key). *)
Class JsonText (A : Type) := {
  json_text : A -> A;
  json_keys : A -> bool;
  json_text_idem : forall a, json_text (json_text a) = json_text a;
  json_keys_text : forall a, json_keys (json_text a) = json_keys a;
}.

Class JsonTextLaws (A : Type) `{Json A} `{JsonText A} := {
  json_reads : forall a, json_keys a = true -> json_unmarshal (json_marshal a) = Some (json_text a);
  json_reads_nl : forall a, json_keys a = true -> json_unmarshal (json_marshal a +:+ newline) = Some (json_text a);
  json_decoded : forall s a, json_unmarshal s = Some a -> json_text a = a /\ json_keys a = true;
}.

(** ** A concrete implementation *)

(** Numbers, in binary. *)
Fixpoint put_pos (p : positive) : string :=
  match p with xH => "" | xO q => String "0" (put_pos q) | xI q => String "1" (put_pos q) end.

Fixpoint get_pos (s : string) : positive :=
  match s with
  | String "0" s' => xO (get_pos s')
  | String _ s' => xI (get_pos s')
  | EmptyString => xH
  end.

Definition put_Z (z : Z) : string :=
  match z with Z0 => "" | Zpos p => String "+" (put_pos p) | Zneg p => String "-" (put_pos p) end.

Definition get_Z (s : string) : Z :=
  match s with
  | String "+" s' => Zpos (get_pos s')
  | String _ s' => Zneg (get_pos s')
  | EmptyString => Z0
  end.

Lemma get_put_pos p : get_pos (put_pos p) = p.
Proof. induction p; simpl; congruence. Qed.

Lemma get_put_Z z : get_Z (put_Z z) = z.
Proof. destruct z; simpl; by rewrite ?get_put_pos. Qed.

(** A string is written as its length, a colon and its characters; a list is
    closed by a bracket. *)
Definition put_string (s : string) : string := put_Z (Z.of_nat (String.length s)) +:+ ":" +:+ s.

Fixpoint put_strings (l : list string) : string :=
  match l with
  | [] => "]"
  | s :: l' => put_string s +:+ put_strings l'
  end.

(** The reader is in a length, whose digits are [acc] reversed, or in a string
    that has [S n] more characters after those of [acc], reversed. *)
Inductive reading := InLength (acc : list ascii) | InString (n : nat) (acc : list ascii).

Definition text_of (acc : list ascii) : string := string_of_list_ascii (rev acc).

Fixpoint get_from (s : string) (st : reading) (done : list string) : option (list string) :=
  match s with
  | EmptyString => None
  | String c s' =>
      match st with
      | InString O acc => get_from s' (InLength []) (text_of (c :: acc) :: done)
      | InString (S n) acc => get_from s' (InString n (c :: acc)) done
      | InLength acc =>
          if Ascii.eqb c "]" then
            match acc with
            | [] => if (s' =s? "") || (s' =s? newline) then Some (rev done) else None
            | _ => None
            end
          else if Ascii.eqb c ":" then
            match Z.to_nat (get_Z (text_of acc)) with
            | O => get_from s' (InLength []) ("" :: done)
            | S n => get_from s' (InString n []) done
            end
          else get_from s' (InLength (c :: acc)) done
      end
  end.

Definition get_strings (s : string) : option (list string) := get_from s (InLength []) [].

Definition length_char (c : ascii) : bool := negb (Ascii.eqb c "]") && negb (Ascii.eqb c ":").

Lemma put_pos_chars p : str_forallb length_char (put_pos p) = true.
Proof. induction p; simpl; try done; by rewrite IHp. Qed.

Lemma put_Z_chars z : str_forallb length_char (put_Z z) = true.
Proof. destruct z; [done| |]; apply put_pos_chars. Qed.

Lemma get_from_length h rest acc done :
  str_forallb length_char h = true ->
  get_from (h +:+ rest) (InLength acc) done = get_from rest (InLength (rev (list_ascii_of_string h) ++ acc)) done.
Proof.
  revert acc. induction h as [|c h IH]; intros acc Hh; [done|]. simpl in Hh. apply andb_true_iff in Hh as [Hc Hh].
  unfold length_char in Hc. apply andb_true_iff in Hc as [H1 H2]. apply negb_true_iff in H1, H2.
  cbn [String.append get_from]. rewrite H1, H2, (IH _ Hh). f_equal. simpl. by rewrite <- app_assoc.
Qed.

Lemma get_from_string n s rest acc done :
  String.length s = S n ->
  get_from (s +:+ rest) (InString n acc) done =
  get_from rest (InLength []) (text_of (rev (list_ascii_of_string s) ++ acc) :: done).
Proof.
  revert n acc. induction s as [|c s IH]; intros n acc Hn; [done|]. injection Hn as Hn. cbn [String.append get_from].
  destruct n as [|n]; [by destruct s|]. rewrite (IH _ _ Hn). simpl. by rewrite <- app_assoc.
Qed.

Lemma text_of_rev s : text_of (rev (list_ascii_of_string s) ++ []) = s.
Proof. unfold text_of. by rewrite app_nil_r, rev_involutive, string_of_list_ascii_of_string. Qed.

Lemma get_put_string s rest done :
  get_from (put_string s +:+ rest) (InLength []) done = get_from rest (InLength []) (s :: done).
Proof.
  unfold put_string. rewrite <- !str_app_assoc, get_from_length by apply put_Z_chars.
  cbn [String.append get_from]. change (Ascii.eqb ":" "]") with false. change (Ascii.eqb ":" ":") with true. cbn iota.
  rewrite text_of_rev, get_put_Z, Nat2Z.id. destruct s as [|c s]; [done|].
  cbn [String.length]. rewrite get_from_string by done. by rewrite text_of_rev.
Qed.

Lemma get_from_strings l done rest :
  rest = "" \/ rest = newline ->
  get_from (put_strings l +:+ rest) (InLength []) done = Some (rev done ++ l).
Proof.
  intros Hr. revert done. induction l as [|s l IH]; intros done; cbn [put_strings].
  - destruct Hr as [->| ->]; simpl; by rewrite app_nil_r.
  - rewrite <- str_app_assoc, get_put_string, IH. simpl. by rewrite <- app_assoc.
Qed.

Lemma get_put_strings l rest : rest = "" \/ rest = newline -> get_strings (put_strings l +:+ rest) = Some l.
Proof. intros Hr. unfold get_strings. by rewrite get_from_strings. Qed.

(** A record as a list of strings. *)
Class Fields (A : Type) := {
  to_fields : A -> list string;
  of_fields : list string -> option A;
  of_to_fields : forall a, of_fields (to_fields a) = Some a;
}.

#[export] Instance FieldsJson `{Fields A} : Json A := {|
  json_marshal a := put_strings (to_fields a);
  json_unmarshal b := get_strings b ≫= of_fields;
|}.

#[export] Instance FieldsJsonLaws `{Fields A} : JsonLaws A.
Proof.
  refine {| json_representable _ := True |}; simpl.
  - intros a _. rewrite <- (str_app_nil (put_strings _)), get_put_strings by auto. apply of_to_fields.
  - intros a _. rewrite get_put_strings by auto. apply of_to_fields.
  - intros a. destruct (to_fields a) as [|s l]; [done|]. simpl. unfold put_string.
    by destruct (put_Z (Z.of_nat (String.length s))).
Defined.

(** The same encoding with a decoder that replaces invalid bytes. *)
Definition TextFieldsJson `{Fields A} `{JsonText A} : Json A := {|
  json_marshal a := put_strings (to_fields a);
  json_unmarshal b := match get_strings b ≫= of_fields with
                      | Some a => if json_keys a then Some (json_text a) else None
                      | None => None
                      end;
|}.

Lemma TextFieldsJsonLaws `{Fields A} `{JsonText A} : @JsonTextLaws A TextFieldsJson _.
Proof.
  constructor; cbn [json_marshal json_unmarshal TextFieldsJson].
  - intros a Ha. rewrite <- (str_app_nil (put_strings _)), get_put_strings by auto. cbn [mbind option_bind].
    by rewrite of_to_fields, Ha.
  - intros a Ha. rewrite get_put_strings by auto. cbn [mbind option_bind]. by rewrite of_to_fields, Ha.
  - intros s a. destruct (get_strings s ≫= of_fields) as [b|]; [|done]. destruct (json_keys b) eqn:E; [|done].
    intros [= <-]. by rewrite json_text_idem, json_keys_text.
Qed.
