(* ===== verification/RecordStore.v ===== *)
(** * Records in private directories

    What the execution gate and the private ingress share: the sequencing of
    fallible file operations, the errors of [os], files that hold one complete
    JSON record, now and after any power loss, and the protocol a record follows
    when every change is a step from what was read. *)

From S2P Require Import Prelude FS Json.

(** ** Sequencing of fallible operations *)

Definition ebind {A B} (m : IO (result A)) (k : A -> IO (result B)) : IO (result B) :=
  r ← m; match r with Ok a => k a | Err e => mret (Err e) end.
Notation "'let!' x ':=' m 'in' k" := (ebind m (fun x => k))
  (at level 10, x pattern, m at level 100, k at level 200) : go_scope.
Definition require (r : result unit) : IO (result unit) := mret r.
Definition lift_sys {A} (m : IO (sys A)) (e : string) : IO (result A) :=
  r ← m; mret (match r with SOk a => Ok a | SErr _ => Err e end).

(** [os.ErrNotExist] and the other errors of a failed call. *)
Definition ErrNotExist : string := "file does not exist".

Definition read_error (e : errno) : string :=
  match e with ENOENT => ErrNotExist | EEXIST => "file exists" | EIO => "input/output error" end.

(** A call on an open handle, which may fail. *)
Definition handle_call : IO (sys unit) := op (fun d => (SOk tt, d)).

(** [io.LimitReader(r, n)] read to its end. *)
Definition limit_read (n : Z) (s : bytes) : bytes := if len s <=? n then s else str_take (Z.to_nat n) s.

Lemma wp_ebind {A B} S (m : IO (result A)) (k : A -> IO (result B)) Q C d :
  wp S m (fun r d' => match r with Ok a => wp S (k a) Q C d' | Err e => Q (Err e) d' end) C d ->
  wp S (ebind m k) Q C d.
Proof. intros Hm. apply wp_bind. eapply wp_mono; [exact Hm| |done]. intros [a|e] d' Hd'; [done|by apply wp_ret]. Qed.

Lemma keeps_ebind {A B} I (m : IO (result A)) (k : A -> IO (result B)) :
  keeps I m -> (forall a, keeps I (k a)) -> keeps I (ebind m k).
Proof. intros Hm Hk. apply keeps_bind; [done|]. intros [a|e]; [apply Hk|apply keeps_ret]. Qed.

Lemma wp_require {B} S (c : result unit) (k : unit -> IO (result B)) Q C d :
  (forall e, c = Err e -> Q (Err e) d) -> (c = Ok tt -> wp S (k tt) Q C d) -> wp S (ebind (require c) k) Q C d.
Proof. intros He Hk. apply wp_ebind, wp_ret. destruct c as [[]|e]; auto. Qed.

Lemma remove_keeps_other p name Φ : name <> p -> keeps (fun d => always d p Φ) (remove name).
Proof. intros Hn. apply keeps_op. intros d Hd. case_match; cbn [fst snd]; [by apply always_upd|done]. Qed.

(** ** Properties of one name

    A property of what [p] denotes is kept by operations on other names. *)
Record about (p : path) (I : disk -> Prop) : Prop := {
  about_upd d s v : s <> p -> I d -> I (d_upd s v d);
  about_mod d s f : s <> p -> I d -> I (d_mod s f d);
  about_sync d dir : I d -> I (d_sync dir d);
}.

Lemma about_always p Φ : about p (fun d => always d p Φ).
Proof. split; intros; [by apply always_upd|by apply always_mod|by apply always_sync]. Qed.

Lemma about_live p Φ : about p (fun d => Φ (d_live d !! p)).
Proof. split; intros; [by rewrite live_upd_ne|by rewrite live_mod_ne|done]. Qed.

#[export] Hint Resolve about_always about_live : fs.

(** ** Files that hold a record *)

Section Records.
Context {R : Type} `{Json R}.

Definition json_file (r : R) : inode := plain_file o600 (json_marshal r).

(** The name holds a complete record with the property [P]. *)
Definition holds (P : R -> Prop) (v : option inode) : Prop := exists r, v = Some (json_file r) /\ P r.

(** ... now and after any power loss. *)
Definition at_path (P : R -> Prop) (p : path) (d : disk) : Prop := always d p (holds P).

Lemma holds_some P v : holds P v -> is_Some v.
Proof. intros (r & -> & _). by eexists. Qed.

Lemma at_path_power_loss P p d d' : at_path P p d -> power_loss d d' -> at_path P p d'.
Proof.
  intros Ha Hp. eapply always_power_loss; [|exact Ha|exact Hp].
  intros v v' (r & -> & HP) Hs. inversion Hs; subst; [|done]. by exists r.
Qed.

Lemma at_path_mono P P' p d : at_path P p d -> (forall r, P r -> P' r) -> at_path P' p d.
Proof. intros Ha HP. eapply always_mono; [exact Ha|]. intros v (r & -> & Hr). exists r. auto. Qed.

End Records.

(** ** Records that follow a protocol

    The strings of a record may be any bytes; what is read is the record with
    its text made valid.  [step_text] says of the protocol that a step from a
    record that was read is also one to what the result reads back as. *)

(** A record that was read: its strings are valid. *)
Definition clean `{JsonText R} (r : R) : Prop := json_text r = r /\ json_keys r = true.

(** A property [P] of what is stored and a property [Q] of what is read from it:
    a stored record reads back with [Q], and a step from such a record stores
    [P] again. *)
Record stable `{Json R} `{JsonText R} (step : R -> R -> Prop) (P Q : R -> Prop) : Prop := {
  st_read : forall r r0, P r -> json_unmarshal (json_marshal r) = Some r0 -> Q r0;
  st_step : forall r r', clean r -> Q r -> step r r' -> P r';
}.

(** What is stored reads back with the property. *)
Definition reads `{JsonText R} (Q : R -> Prop) (r : R) : Prop := json_keys r = true /\ Q (json_text r).

(** The record itself, or one step from a record that was read. *)
Definition from_read `{JsonText R} (step : R -> R -> Prop) (r r' : R) : Prop :=
  r' = r \/ exists x, clean x /\ rtc step (json_text r) x /\ step x r'.

Lemma from_read_steps `{JsonText R} (step : R -> R -> Prop) r r' :
  from_read step r r' -> r' = r \/ rtc step (json_text r) r'.
Proof. intros [->|(x & _ & Hx & Hs)]; [by left|right]. by eapply rtc_r. Qed.

Section Stable.
Context {R : Type} `{JsonTextLaws R} (step : R -> R -> Prop).

Lemma decoded_clean s r : json_unmarshal s = Some r -> clean r.
Proof. apply json_decoded. Qed.

(** A durable property of the record is a property of what is read. *)
Lemma at_path_read P Q p d i r :
  stable step P Q -> at_path P p d -> d_live d !! p = Some i -> json_unmarshal (i_data i) = Some r -> Q r.
Proof.
  intros HPQ Hp Hi Hj. destruct (always_live _ _ _ Hp) as (r0 & Hr0 & HP). rewrite Hr0 in Hi. injection Hi as <-.
  by eapply st_read.
Qed.

Context (step_text : forall r r', clean r -> step r r' -> json_keys r' = true /\ step r (json_text r')).

Lemma reads_stable Q : (forall r r', Q r -> step r r' -> Q r') -> stable step (reads Q) Q.
Proof using All.
  intros HQ. split.
  - intros r r0 [Hk Hr] Hj. rewrite json_reads in Hj by done. by injection Hj as <-.
  - intros r r' Hc Hr Hs. destruct (step_text r r' Hc Hs) as [Hk Hs']. split; [done|]. by eapply HQ.
Qed.

Lemma from_read_stable r : json_keys r = true -> stable step (from_read step r) (rtc step (json_text r)).
Proof using All.
  intros Hk. split.
  - intros r1 r0 [->|(x & Hc & Hx & Hs)] Hj.
    + rewrite json_reads in Hj by done. by injection Hj as <-.
    + destruct (step_text x r1 Hc Hs) as [Hk1 Hs1]. rewrite json_reads in Hj by done. injection Hj as <-. by eapply rtc_r.
  - intros x r' Hc Hx Hs. right. eauto.
Qed.
End Stable.
