(* ===== verification/ArtifactStore.v ===== *)
(** * pkg/artifactstore/store.go: immutable content-addressed storage *)

From S2P Require Import Prelude GoStd Sha256 FS.

Definition MaxObjectBytesHard : Z := 67108864.

Definition media_char (c : ascii) : bool :=
  is_lower c || is_digit c || contains_byte "!#$&^_.+-" c.

(** [[a-z0-9][a-z0-9!#$&^_.+-]{0,126}]. *)
Definition media_token (s : string) : bool :=
  match s with
  | EmptyString => false
  | String c s' => (is_lower c || is_digit c) && str_forallb media_char s' && (len s' <=? 126)
  end.

Definition mediaTypePattern (s : string) : bool :=
  match str_split "/" s with
  | [a; b] => media_token a && media_token b
  | _ => false
  end.

Record Descriptor := {
  de_Digest : string;
  de_MediaType : string;
  de_SizeBytes : Z;
}.

Record Store := { st_objects : string; st_maximum : Z }.

(** [Store.path]. *)
Definition object_path (s : Store) (d : string) : path := (st_objects s, trim_prefix d "sha256:").

(** An [io.Reader]: the bytes it yields, and whether reading then fails (the
    reader fails or its context ends). *)
Record Reader := { rd_bytes : bytes; rd_fails : bool }.

Definition requirePrivateDirectory (dir : string) : IO (result unit) :=
  info ← lstat ("", dir);
  mret (match info with
        | SOk i => fail_if (negb (bool_decide (i_kind i = Directory)) || negb (i_perm i =? o700))
                     "artifact store directory must be private"
        | SErr _ => Err "artifact store directory must be private"
        end).

(** [Open].  [resolved] is the result of [filepath.EvalSymlinks]. *)
Definition Open (root : string) (maximum : Z) (resolved : option string) : IO (result Store) :=
  if negb (filepath_IsAbs root) || (maximum =? 0) || (MaxObjectBytesHard <? maximum)
  then mret (Err "invalid artifact store configuration") else
  if path_Clean root <>s? root then mret (Err "artifact store root is not canonical") else
  r ← mkdir_all root;
  if negb (sys_ok r) then mret (Err "create artifact store root") else
  if negb (bool_decide (resolved = Some root)) then mret (Err "artifact store root contains a symlink") else
  r ← requirePrivateDirectory root;
  match r with
  | Err e => mret (Err e)
  | Ok _ =>
      let objects := root +:+ "/objects" in
      r ← op (fun d => match d_live d !! ("", objects) with
                       | None => (SOk tt, d_upd ("", objects) (Some dir_inode) d)
                       | Some _ => (SErr EEXIST, d)
                       end);
      match r with
      | SErr ENOENT | SErr EIO => mret (Err "create artifact object directory")
      | _ =>
          r ← requirePrivateDirectory objects;
          mret (r ;;; Ok {| st_objects := objects; st_maximum := maximum |})
      end
  end.

Definition syncDirectory (dir : string) : IO (result unit) :=
  r ← open_dir dir;
  if negb (sys_ok r) then mret (Err "open artifact object directory") else
  r ← sync_dir dir;
  mret (fail_if (negb (sys_ok r)) "sync artifact object directory").

(** [Store.Get]; [ctxErr] is the error of the context at entry, [ctxLate] tells
    whether it ends while the object is read. *)
Definition Get (s : Store) (ctxErr : option string) (ctxLate : bool) (d : string) : IO (result bytes) :=
  if (st_objects s =s? "") || negb (digest_pattern d) then mret (Err "invalid artifact get request") else
  match ctxErr with
  | Some e => mret (Err e)
  | None =>
  let objectPath := object_path s d in
  info ← lstat objectPath;
  match info with
  | SErr _ => mret (Err "invalid artifact object")
  | SOk info =>
  if negb (bool_decide (i_kind info = Regular)) || negb (i_perm info =? o400) ||
     (st_maximum s <? len (i_data info)) then mret (Err "invalid artifact object") else
  r ← close_file objectPath; (* os.Open *)
  if negb (sys_ok r) then mret (Err "open artifact object") else
  opened ← lstat objectPath; (* file.Stat *)
  match opened with
  | SErr _ => mret (Err "artifact object changed while opening")
  | SOk opened =>
  if negb (bool_decide (opened = info)) || negb (bool_decide (i_kind opened = Regular)) ||
     negb (i_perm opened =? o400) then mret (Err "artifact object changed while opening") else
  value ← read_file objectPath;
  match value with
  | SErr _ => mret (Err "read artifact object")
  | SOk value =>
      let value := str_take (Z.to_nat (st_maximum s + 1)) value in
      if ctxLate || (st_maximum s <? len value) || negb (len value =? len (i_data info))
      then mret (Err "read artifact object") else
      if digest value <>s? d then mret (Err "artifact object digest mismatch") else
      mret (Ok value)
  end end end end.

(** [copyBounded] into the temporary object and the hash: what was hashed. *)
Definition copyBounded (s : Store) (temporary : path) (reader : Reader) : IO (result bytes) :=
  let value := str_take (Z.to_nat (st_maximum s + 1)) (rd_bytes reader) in
  r ← write_file temporary value;
  mret (if negb (sys_ok r) || rd_fails reader then Err "write artifact object"
        else if st_maximum s <? len value then Err "artifact object exceeds size limit"
        else Ok value).

(** The body of [Store.Put] after the temporary object was created; [ctxGet] is
    the error of the context when an existing object is verified. *)
Definition Put_body (s : Store) (ctxGet : option string) (mediaType : string) (reader : Reader)
    (temporary : path)
    : IO (result Descriptor) :=
  copied ← copyBounded s temporary reader;
  synced ← fsync temporary;
  closed ← close_file temporary;
  match copied with
  | Err e => mret (Err e)
  | Ok value =>
  if negb (sys_ok synced) then mret (Err "sync artifact temporary object") else
  if negb (sys_ok closed) then mret (Err "close artifact temporary object") else
  r ← chmod temporary o400;
  if negb (sys_ok r) then mret (Err "protect artifact temporary object") else
  let d := digest value in
  let descriptor := {| de_Digest := d; de_MediaType := mediaType; de_SizeBytes := len value |} in
  r ← link temporary (object_path s d);
  match r with
  | SOk _ =>
      r ← syncDirectory (st_objects s);
      mret (r ;;; Ok descriptor)
  | SErr EEXIST =>
      stored ← Get s ctxGet false d;
      mret (match stored with
            | Ok stored =>
                if len stored =? len value then Ok descriptor
                else Err "existing artifact object failed verification"
            | Err _ => Err "existing artifact object failed verification"
            end)
  | SErr _ => mret (Err "commit artifact object")
  end
  end.

Definition Put (s : Store) (ctxErr ctxGet : option string) (mediaType : string) (reader : Reader)
    : IO (result Descriptor) :=
  if (st_objects s =s? "") || negb (mediaTypePattern mediaType)
  then mret (Err "invalid artifact put request") else
  match ctxErr with
  | Some e => mret (Err e)
  | None =>
      temporary ← create_temp (st_objects s) ".put-";
      match temporary with
      | SErr _ => mret (Err "create artifact temporary object")
      | SOk temporary =>
          r ← Put_body s ctxGet mediaType reader temporary;
          _ ← remove temporary; (* deferred *)
          mret r
      end
  end.

(** ** Lemmas *)

(** A well-formed object: regular, read-only, synchronised, bounded, and named
    by its content. *)
Definition good_object (s : Store) (d : string) (i : inode) : Prop :=
  i_kind i = Regular /\ i_perm i = o400 /\ len (i_data i) <= st_maximum s /\ digest (i_data i) = d.

Lemma Get_wp s S ctxErr late d disk0 :
  0 <= st_maximum s ->
  wp S (Get s ctxErr late d)
    (fun r disk1 => disk1 = disk0 /\ forall v, r = Ok v ->
       exists i, d_live disk0 !! object_path s d = Some i /\ i_data i = v /\ good_object s d i)
    (fun disk1 => disk1 = disk0) disk0.
Proof.
  intros Hmax. unfold Get. wp_steps. all: try done.
  all: try (split; [done|]; intros v Hv; discriminate Hv).
  split; [done|]. intros v [= <-]. bool_props.
  unfold lookup_sys in *. destruct (d_live disk0 !! object_path s d) as [j|] eqn:Hj; [|done].
  simplify_eq. rewrite str_take_below in * by lia. eexists. split; [done|]. split; [done|].
  split_and!; done.
Qed.

(** Reading back a well-formed object. *)
Lemma Get_good s d i disk0 :
  st_objects s <> "" -> digest_pattern d = true -> 0 <= st_maximum s ->
  d_live disk0 !! object_path s d = Some i -> good_object s d i ->
  wp no_fault (Get s None false d) (fun r disk1 => r = Ok (i_data i) /\ disk1 = disk0)
    (fun _ => False) disk0.
Proof.
  intros Hobj Hd Hmax Hi (Hk & Hp & Hl & Hdig). unfold Get.
  rewrite Hd, (proj2 (String.eqb_neq _ _) Hobj). simpl.
  assert (Ht : str_take (Z.to_nat (st_maximum s + 1)) (i_data i) = i_data i)
    by (apply str_take_all; revert Hl Hmax; unfold len; lia).
  assert (Hs : lookup_sys (object_path s d) disk0 = SOk i) by (unfold lookup_sys; by rewrite Hi).
  wp_ok. wp_ok. rewrite Hs, Hk, Hp, (proj2 (Z.ltb_ge _ _) Hl). simpl.
  wp_ok. wp_ok. wp_ok. wp_ok. rewrite Hs, Hk, Hp, bool_decide_eq_true_2 by done. simpl.
  wp_ok. wp_ok. rewrite Hi, Ht, Z.eqb_refl, (proj2 (Z.ltb_ge _ _) Hl), Hdig, String.eqb_refl. simpl.
  by apply wp_ret.
Qed.

(** What holds of the disk when [Put] has returned a descriptor for [b]. *)
Definition put_post (s : Store) (mediaType : string) (b : bytes) (d0 d1 : disk) (r : result Descriptor)
    : Prop :=
  forall desc, r = Ok desc ->
    desc = {| de_Digest := digest b; de_MediaType := mediaType; de_SizeBytes := len b |} /\
    len b <= st_maximum s /\
    exists i, d_live d1 !! object_path s (digest b) = Some i /\ good_object s (digest b) i /\
      len (i_data i) = len b /\
      (d_live d0 !! object_path s (digest b) = None ->
         i_data i = b /\
         always d1 (object_path s (digest b)) (stored (fun j => good_object s (digest b) j /\ i_data j = b))).

(** The temporary object while [Put_body] runs. *)
Definition temp_inode (perm : Z) (b : bytes) (synced : bool) : inode :=
  Inode Regular perm true true b synced.

Lemma put_post_err s mt b d0 d1 e : put_post s mt b d0 d1 (Err e).
Proof. intros desc H; discriminate H. Qed.

Lemma put_post_linked s mt t b d0 d1 (E : len b <= st_maximum s) :
  d_live d1 !! t = Some (temp_inode o400 b true) ->
  d_live d1 !! object_path s (digest b) = None ->
  put_post s mt b d0 (d_sync (st_objects s) (d_upd (object_path s (digest b)) (Some (temp_inode o400 b true)) d1))
    (Ok {| de_Digest := digest b; de_MediaType := mt; de_SizeBytes := len b |}).
Proof.
  intros Ht Hn desc [= <-]. split; [done|]. split; [done|].
  exists (temp_inode o400 b true). rewrite live_sync, live_upd, decide_True by done.
  assert (Hg : good_object s (digest b) (temp_inode o400 b true)) by (unfold good_object; auto).
  split_and!; try done. intros _. split; [done|].
  apply always_synced. rewrite live_upd, decide_True by done. exists (temp_inode o400 b true). auto.
Qed.

Lemma copied_ok (s : Store) (reader : Reader) (b : bytes) :
  0 <= st_maximum s ->
  (if false || rd_fails reader then Err "write artifact object"
   else if st_maximum s <? len (str_take (Z.to_nat (st_maximum s + 1)) (rd_bytes reader))
        then Err "artifact object exceeds size limit"
        else Ok (str_take (Z.to_nat (st_maximum s + 1)) (rd_bytes reader))) = Ok b ->
  b = rd_bytes reader /\ len b <= st_maximum s /\
  str_take (Z.to_nat (st_maximum s + 1)) (rd_bytes reader) = rd_bytes reader.
Proof.
  intros Hmax H. destruct (false || rd_fails reader); [done|].
  destruct (Z.ltb_spec (st_maximum s) (len (str_take (Z.to_nat (st_maximum s + 1)) (rd_bytes reader))));
    [done|]. injection H as <-. rewrite str_take_below in * by done. auto.
Qed.

Lemma Put_body_wp s ctxGet mt reader t d0 d1 :
  0 <= st_maximum s ->
  d_live d1 !! t = Some (new_inode o600) ->
  (forall q, q <> t -> d_live d1 !! q = d_live d0 !! q) ->
  (forall b, object_path s (digest b) <> t) ->
  wp any (Put_body s ctxGet mt reader t)
    (fun r d2 => put_post s mt (rd_bytes reader) d0 d2 r) (fun _ => True) d1.
Proof.
  intros Hmax Ht Hother Hnt. unfold Put_body, copyBounded, syncDirectory.
  wp_steps. all: try apply put_post_err; try done. all: try solve [simplify_eq].
  - apply copied_ok in E as (-> & Hlen & Hval); [|done]. rewrite Hval in *.
    set (d3 := d_mod t (set_perm o400) _) in *.
    assert (Ht3 : d_live d3 !! t = Some (temp_inode o400 (rd_bytes reader) true)).
    { unfold d3. autorewrite with fs_live. rewrite !decide_True, Ht by done. done. }
    rewrite Ht3 in *.
    destruct (d_live d3 !! object_path s (digest (rd_bytes reader))) eqn:Hobj; [done|].
    apply (put_post_linked s mt t); done.
  - apply copied_ok in E as (-> & Hlen & Hval); [|done]. rewrite Hval in *.
    set (d3 := d_mod t (set_perm o400) _) in *.
    assert (Ht3 : d_live d3 !! t = Some (temp_inode o400 (rd_bytes reader) true)).
    { unfold d3. autorewrite with fs_live. rewrite !decide_True, Ht by done. done. }
    rewrite Ht3 in *.
    destruct (d_live d3 !! object_path s (digest (rd_bytes reader))) as [i|] eqn:Hobj; [|done].
    eapply wp_mono; [by apply Get_wp| |done].
    intros r d4 [-> Hr]. apply wp_ret. intros desc Hdesc.
    destruct r as [v|]; [|done]. destruct (Z.eqb_spec (len v) (len (rd_bytes reader))) as [Hl|]; [|done].
    injection Hdesc as <-. split; [done|]. split; [done|].
    destruct (Hr v eq_refl) as (i' & Hi' & <- & Hg). exists i'. split_and!; try done.
    intros Hnone. exfalso. revert Hobj. unfold d3. autorewrite with fs_live.
    rewrite !decide_False, Hother, Hnone by (apply not_eq_sym, Hnt || apply Hnt). done.
Qed.

Lemma object_path_not_temp s b dir digits d :
  object_path s (digest b) <> (dir, temp_name dir ".put-" digits d).
Proof.
  unfold object_path. rewrite digest_trim. intros [= _ H].
  destruct (temp_name_pattern dir ".put-" digits d) as (r & Hr & _). rewrite Hr in H.
  pose proof (hex_encode_lower_hex (sha256_Sum256 b)) as Hh. rewrite H in Hh. discriminate Hh.
Qed.

Lemma put_post_remove s mt b d0 d1 r t :
  (forall b, object_path s (digest b) <> t) ->
  put_post s mt b d0 d1 r -> put_post s mt b d0 (d_upd t None d1) r.
Proof.
  intros Hnt H desc Hr. destruct (H desc Hr) as (-> & Hl & i & Hi & Hg & Hli & Hnew).
  split; [done|]. split; [done|]. exists i.
  rewrite live_upd, decide_False by (apply not_eq_sym, Hnt).
  split_and!; try done. intros [? ?]%Hnew. split; [done|].
  apply always_upd; [done|]. intros ->. by destruct (Hnt b).
Qed.

Lemma Put_wp s ctxErr ctxGet mt reader d0 :
  0 <= st_maximum s ->
  wp any (Put s ctxErr ctxGet mt reader)
    (fun r d1 => put_post s mt (rd_bytes reader) d0 d1 r) (fun _ => True) d0.
Proof.
  intros Hmax. unfold Put.
  wp_step; [apply wp_ret, put_post_err|]. wp_step; [apply wp_ret, put_post_err|].
  wp_step. wp_step; [done|apply wp_ret, put_post_err|].
  assert (Hnt : forall b, object_path s (digest b) <> t) by (intros; subst t; apply object_path_not_temp).
  wp_step. eapply wp_mono; [apply (Put_body_wp s ctxGet mt reader t d0)| |done]; try done.
  - rewrite live_upd, decide_True; done.
  - intros q Hq. rewrite live_upd, decide_False; done.
  - intros r d2 Hpost. wp_steps; try done; try exact Hpost.
    destruct (d_live d2 !! t); [|exact Hpost]. by apply put_post_remove.
Qed.

(** [Put] leaves every other name as it was, whatever faults occur. *)
Definition holds_file (q : path) (i : inode) (d : disk) : Prop := d_live d !! q = Some i.

Lemma Put_body_keeps s ctxGet mt reader t q i :
  t <> q -> keeps (holds_file q i) (Put_body s ctxGet mt reader t).
Proof.
  intros Htq. unfold Put_body, copyBounded, syncDirectory, Get, holds_file. keeps_steps.
  all: rewrite ?live_mod_ne by done; try done.
  all: repeat case_match; try done; cbn [snd]; rewrite live_upd; case_decide; congruence.
Qed.

Lemma Put_keeps s ctxErr ctxGet mt reader q i :
  keeps (holds_file q i) (Put s ctxErr ctxGet mt reader).
Proof.
  unfold Put. keeps_step; [apply keeps_ret|]. keeps_step; [apply keeps_ret|].
  apply keeps_with_temp; [intros; apply keeps_ret|].
  intros d digits t Hq Ht.
  assert (Htq : t <> q).
  { intros <-. unfold holds_file in Hq. rewrite Ht, temp_name_fresh in Hq; done. }
  apply (keeps_mono (holds_file q i)); [|by unfold holds_file in *; rewrite live_upd_ne|done|done].
  apply keeps_bind; [by apply Put_body_keeps|]. unfold holds_file. intros r. keeps_steps.
  all: try done. case_match; cbn [snd]; [|done]. by rewrite live_upd_ne.
Qed.

Lemma Put_occupied s ctxErr ctxGet mt reader p : keeps (occupied p) (Put s ctxErr ctxGet mt reader).
Proof.
  unfold Put. keeps_step; [apply keeps_ret|]. keeps_step; [apply keeps_ret|].
  apply keeps_with_temp; [intros; apply keeps_ret|]. intros d digits t Hocc Ht.
  assert (Hne : t <> p) by (eapply occupied_not_temp; [|exact Hocc|exact Ht]; done).
  apply (keeps_mono (occupied p)); [|by apply occupied_put|done|done].
  unfold Put_body, copyBounded, syncDirectory, Get. keeps_steps; keeps_file.
Qed.

Lemma Put_log s ctxErr ctxGet mt reader l : keeps (log_is l) (Put s ctxErr ctxGet mt reader).
Proof. unfold Put, Put_body, copyBounded, syncDirectory, Get. keeps_steps; keeps_log. Qed.

(** ** Properties *)

(** Immutability: whatever operation fails and wherever the process dies
    inside [Put], every object (indeed every name) already present keeps its
    exact file. *)
Theorem Put_immutable s ctxErr ctxGet mt reader w q i (Hq : d_live (w_disk w) !! q = Some i) :
  d_live (w_disk (Put s ctxErr ctxGet mt reader w).2) !! q = Some i.
Proof.
  pose proof (wp_run _ _ _ w (Put_keeps s ctxErr ctxGet mt reader q i (w_disk w) Hq)) as H.
  destruct (Put s ctxErr ctxGet mt reader w) as [[r|] w']; exact H.
Qed.

(** Store round trip: when [Put] succeeds, under any faults, the descriptor
    names the digest and the size of the content, and a later [Get] of that
    digest returns bytes of that digest and size; they are the content itself
    when the object was new.  A new object also survives a power loss. *)
Theorem Put_Get_roundtrip s ctxErr ctxGet mt reader w desc w' late
    (Hobj : st_objects s <> "") (Hmax : 0 <= st_maximum s)
    (Hput : Put s ctxErr ctxGet mt reader w = (Done (Ok desc), w')) :
  let b := rd_bytes reader in
  desc = {| de_Digest := digest b; de_MediaType := mt; de_SizeBytes := len b |} /\ len b <= st_maximum s /\
  exists v, (Get s None false (de_Digest desc) (World (w_disk w') [] late)).1 = Done (Ok v) /\
    digest v = digest b /\ len v = len b /\
    (d_live (w_disk w) !! object_path s (digest b) = None ->
       v = b /\ forall d'', power_loss (w_disk w') d'' ->
         (Get s None false (de_Digest desc) (World d'' [] late)).1 = Done (Ok b)).
Proof.
  pose proof (wp_run _ _ _ w (Put_wp s ctxErr ctxGet mt reader (w_disk w) Hmax)) as H.
  rewrite Hput in H. destruct (H desc eq_refl) as (-> & Hl & i & Hi & Hg & Hli & Hnew).
  cbv zeta. cbn [de_Digest]. split; [done|]. split; [done|]. exists (i_data i).
  assert (HGet : forall j d'', d_live d'' !! object_path s (digest (rd_bytes reader)) = Some j ->
    good_object s (digest (rd_bytes reader)) j ->
    (Get s None false (digest (rd_bytes reader)) (World d'' [] late)).1 = Done (Ok (i_data j))).
  { intros j d'' Hj Hgj.
    pose proof (Get_good s _ j d'' Hobj (digest_matches _) Hmax Hj Hgj [] late (proj2 (Forall_nil _) I)) as HG.
    destruct (Get s None false (digest (rd_bytes reader)) (World d'' [] late)) as [[r|] w'']; [|done].
    by destruct HG as (_ & -> & _). }
  split; [by apply HGet|]. split; [apply Hg|]. split; [done|].
  intros Hnone. destruct (Hnew Hnone) as [-> Hal]. split; [done|].
  intros d'' Hpl.
  apply (always_power_loss _ d'') in Hal; [|apply stored_settles|done].
  apply always_live in Hal as (j & Hj & _ & Hgj & Hjb). rewrite <- Hjb at 2. by apply HGet.
Qed.

(** Tamper detection: [Get] only ever returns bytes whose digest is the one
    asked for and whose size is within the store's bound, whatever is on disk
    and whatever faults occur. *)
Theorem Get_verifies s ctxErr late d w v w'
    (Hmax : 0 <= st_maximum s) (Hget : Get s ctxErr late d w = (Done (Ok v), w')) :
  digest v = d /\ len v <= st_maximum s /\ w_disk w' = w_disk w.
Proof.
  pose proof (wp_run _ _ _ w (Get_wp s any ctxErr late d (w_disk w) Hmax)) as H.
  rewrite Hget in H. destruct H as [Hd H]. destruct (H v eq_refl) as (i & _ & <- & Hk & Hp & Hl & Hdig).
  done.
Qed.

(** ** Samples *)

Module Samples.
Definition store : Store := {| st_objects := "/store/objects"; st_maximum := 16 |}.
Definition empty : world := World (Disk ∅ ∅ []) [] ["7"].
Definition reader : Reader := {| rd_bytes := "artifact"; rd_fails := false |}.
Definition put_run : outcome (result Descriptor) * world := Put store None None "text/plain" reader empty.
Definition desc : Descriptor :=
  {| de_Digest := digest "artifact"; de_MediaType := "text/plain"; de_SizeBytes := 8 |}.
Definition object : inode := Inode Regular o400 true true "artifact" true.
(** The directory cannot be synchronised in the first [Put]. *)
Definition sync_fails : list decision := [DOk; DOk; DOk; DOk; DOk; DOk; DOk; DFail].
Definition first_put : outcome (result Descriptor) * world :=
  Put store None None "text/plain" reader (World (Disk ∅ ∅ []) sync_fails []).
Definition second_put : outcome (result Descriptor) * world :=
  Put store None None "text/plain" reader (World (w_disk first_put.2) [] []).
End Samples.

(** A durability gap: when the directory could not be synchronised in a
    first [Put] (which reports the error), a second [Put] of the same content
    finds the object, reports success without synchronising the directory, and
    a power loss may still remove the object. *)
Theorem Put_existing_not_durable :
  Samples.first_put.1 = Done (Err "sync artifact object directory") /\
  Samples.second_put.1 = Done (Ok Samples.desc) /\
  candidate (w_disk Samples.second_put.2) (object_path Samples.store (digest "artifact")) None.
Proof.
  split; [vm_compute; reflexivity|]. split; [vm_compute; reflexivity|].
  right. vm_compute. constructor.
Qed.

(** ** Witnesses *)

Lemma Put_immutable_witness :
  d_live (w_disk (Put Samples.store None None "text/plain" {| rd_bytes := "other"; rd_fails := false |}
            (World (w_disk Samples.put_run.2) [DOk; DShort 2; DOk; DCrash] [])).2)
    !! object_path Samples.store (digest "artifact") = Some Samples.object.
Proof. apply Put_immutable. vm_compute. reflexivity. Defined.

Lemma Put_Get_roundtrip_witness :
  exists v, (Get Samples.store None false (digest "artifact") (World (w_disk Samples.put_run.2) [] [])).1
    = Done (Ok v) /\ digest v = digest "artifact".
Proof.
  assert (Hput : Samples.put_run = (Done (Ok Samples.desc), Samples.put_run.2))
    by (apply pair_fst; vm_compute; reflexivity).
  pose proof (Put_Get_roundtrip Samples.store None None "text/plain" Samples.reader Samples.empty
    Samples.desc Samples.put_run.2 [] (fun H => ltac:(discriminate H)) (fun H => ltac:(discriminate H)) Hput)
    as (_ & _ & v & Hv & Hd & _).
  exists v. split; [exact Hv | exact Hd].
Defined.

Lemma Get_verifies_witness : digest "artifact" = de_Digest Samples.desc.
Proof.
  apply (Get_verifies Samples.store None false (digest "artifact") (World (w_disk Samples.put_run.2) [] [])
    "artifact" (Get Samples.store None false (digest "artifact") (World (w_disk Samples.put_run.2) [] [])).2);
    [discriminate | apply pair_fst; vm_compute; reflexivity].
Defined.
