(* ===== verification/Journal.v ===== *)
(** * pkg/softwarework/journal.go: the at-most-once execution journal *)

From S2P Require Import Prelude GoStd Sha256 FS Json ArtifactStore.

Record Outcome := {
  oc_QuoteCommitment : string;
  oc_ExecutionID : string;
  oc_InputDigest : string;
  oc_ResultDigest : string;
  oc_Artifact : Descriptor;
  oc_Report : Descriptor;
  oc_SourceDigest : string;
  oc_ToolchainDigest : string;
  oc_SandboxDigest : string;
  oc_ExitCode : Z;
  oc_CompletedAtUnix : Z;
}.

Definition ZeroDescriptor : Descriptor := {| de_Digest := ""; de_MediaType := ""; de_SizeBytes := 0 |}.

Definition ZeroOutcome : Outcome :=
  {| oc_QuoteCommitment := ""; oc_ExecutionID := ""; oc_InputDigest := ""; oc_ResultDigest := "";
     oc_Artifact := ZeroDescriptor; oc_Report := ZeroDescriptor; oc_SourceDigest := "";
     oc_ToolchainDigest := ""; oc_SandboxDigest := ""; oc_ExitCode := 0; oc_CompletedAtUnix := 0 |}.

Record journalRecord := {
  jr_Schema : string;
  jr_Fingerprint : string;
  jr_State : string;
  jr_Outcome : Outcome;
}.

Definition journalSchema : string := "tos.service.software-work-journal.v1".

Definition executionIDPattern : string -> bool := digest_pattern.

Record Journal := { j_root : string }.

Definition OpenJournal (root : string) : IO (result Journal) :=
  if negb (filepath_IsAbs root) || (path_Clean root <>s? root)
  then mret (Err "invalid software-work journal root") else
  r ← mkdir_all root;
  if negb (sys_ok r) then mret (Err "create software-work journal root") else
  info ← lstat ("", root);
  match info with
  | SErr _ => mret (Err "software-work journal root must be private")
  | SOk i =>
      if negb (bool_decide (i_kind i = Directory)) || negb (i_perm i =? o700)
      then mret (Err "software-work journal root must be private") else
      r ← acquire_lock root ".software-work-journal.lock";
      mret (if negb (sys_ok r) then Err "software-work journal is already owned"
            else Ok {| j_root := root |})
  end.

(** [Journal.path]. *)
Definition journal_path (j : Journal) (executionID : string) : path :=
  (j_root j, str_drop 7 executionID +:+ ".json").

Definition syncDirectory (dir : string) : IO (result unit) :=
  r ← open_dir dir;
  if negb (sys_ok r) then mret (Err "open software-work journal directory") else
  r ← sync_dir dir;
  mret (fail_if (negb (sys_ok r)) "sync software-work journal directory").

Section Journal.
Context `{Json journalRecord}.

Definition valid_journal_record (r : journalRecord) : bool :=
  (jr_Schema r =s? journalSchema) && executionIDPattern (jr_Fingerprint r) &&
  ((jr_State r =s? "running") || (jr_State r =s? "complete")).

Definition readJournalRecord (p : path) : IO (result journalRecord) :=
  info ← lstat p;
  match info with
  | SErr _ => mret (Err "invalid software-work journal record")
  | SOk i =>
      if negb (bool_decide (i_kind i = Regular)) || negb (i_perm i =? o600) ||
         (len (i_data i) <=? 0) || (32768 <? len (i_data i))
      then mret (Err "invalid software-work journal record") else
      value ← read_file p;
      match value with
      | SErr _ => mret (Err "read software-work journal record")
      | SOk value =>
          mret (match json_unmarshal value with
                | Some record =>
                    if valid_journal_record record then Ok record
                    else Err "invalid software-work journal record"
                | None => Err "invalid software-work journal record"
                end)
      end
  end.

Definition running_record (fingerprint : string) : journalRecord :=
  {| jr_Schema := journalSchema; jr_Fingerprint := fingerprint; jr_State := "running";
     jr_Outcome := ZeroOutcome |}.

Definition Claim (j : Journal) (executionID fingerprint : string) : IO (result (bool * journalRecord)) :=
  if negb (executionIDPattern executionID) || negb (executionIDPattern fingerprint)
  then mret (Err "invalid software-work journal claim") else
  let p := journal_path j executionID in
  let record := running_record fingerprint in
  let encoded := json_marshal record in
  file ← create_excl p o600;
  match file with
  | SOk _ =>
      r ← write_file p (encoded +:+ newline);
      if negb (sys_ok r) then
        _ ← close_file p; _ ← remove p; mret (Err "write software-work claim")
      else
      r ← fsync p;
      if negb (sys_ok r) then
        _ ← close_file p; _ ← remove p; mret (Err "sync software-work claim")
      else
      r ← close_file p;
      if negb (sys_ok r) then _ ← remove p; mret (Err "close software-work claim") else
      r ← syncDirectory (j_root j);
      match r with
      | Err e => _ ← remove p; mret (Err e)
      | Ok _ => mret (Ok (true, record))
      end
  | SErr EEXIST =>
      existing ← readJournalRecord p;
      mret (match existing with
            | Err e => Err e
            | Ok existing =>
                if jr_Fingerprint existing <>s? fingerprint
                then Err "execution identity conflicts with another request"
                else Ok (false, existing)
            end)
  | SErr _ => mret (Err "create software-work claim")
  end.

(** The part of [Journal.Complete] that writes the temporary file [name]. *)
Definition Complete_body (j : Journal) (p name : path) (record : journalRecord) : IO (result unit) :=
  r ← chmod name o600;
  if negb (sys_ok r) then _ ← close_file name; mret (Err "protect software-work completion") else
  r ← write_file name (json_marshal record +:+ newline);
  if negb (sys_ok r) then _ ← close_file name; mret (Err "write software-work completion") else
  r ← fsync name;
  if negb (sys_ok r) then _ ← close_file name; mret (Err "sync software-work completion") else
  r ← close_file name;
  if negb (sys_ok r) then mret (Err "close software-work completion") else
  r ← rename name p;
  if negb (sys_ok r) then mret (Err "commit software-work completion") else
  syncDirectory (j_root j).

Definition complete_record (existing : journalRecord) (fingerprint : string) (outcome : Outcome)
    : journalRecord :=
  {| jr_Schema := jr_Schema existing; jr_Fingerprint := fingerprint; jr_State := "complete";
     jr_Outcome := outcome |}.

Definition Complete (j : Journal) (executionID fingerprint : string) (outcome : Outcome)
    : IO (result unit) :=
  let p := journal_path j executionID in
  existing ← readJournalRecord p;
  match existing with
  | Err _ => mret (Err "software-work claim cannot be completed")
  | Ok existing =>
      if (jr_Fingerprint existing <>s? fingerprint) || (jr_State existing <>s? "running")
      then mret (Err "software-work claim cannot be completed") else
      name ← create_temp (j_root j) ".complete-";
      match name with
      | SErr _ => mret (Err "create software-work completion")
      | SOk name =>
          r ← Complete_body j p name (complete_record existing fingerprint outcome);
          _ ← remove name; (* deferred *)
          mret r
      end
  end.

(** ** Lemmas: a claimed name stays present *)

Lemma readJournalRecord_keeps I p : keeps I (readJournalRecord p).
Proof. unfold readJournalRecord. keeps_steps; done. Qed.

Lemma Claim_occupied j id fp p : keeps (occupied p) (Claim j id fp).
Proof.
  intros d Hocc. unfold Claim. wp_step; [by apply wp_ret|].
  destruct (decide (journal_path j id = p)) as [<-|Hne].
  - destruct (occupied_live _ _ Hocc) as [i Hi].
    wp_step. wp_step; [done|by apply wp_ret|]. rewrite Hi. cbn [fst snd].
    wp_step. eapply keeps_mono; [apply readJournalRecord_keeps|exact Hocc| |done].
    intros a d' Hd'. by apply wp_ret.
  - apply (keeps_mono (occupied p)); [|exact Hocc|done|done]. unfold syncDirectory.
    keeps_steps; try apply readJournalRecord_keeps; keeps_file.
Qed.

Lemma Complete_body_occupied j q name record p :
  name <> p -> keeps (occupied p) (Complete_body j q name record).
Proof. intros Hne. unfold Complete_body, syncDirectory. keeps_steps; keeps_file. Qed.

Lemma Complete_occupied j id fp outcome p : keeps (occupied p) (Complete j id fp outcome).
Proof.
  unfold Complete. apply keeps_bind; [apply readJournalRecord_keeps|]. intros existing.
  keeps_step; [|apply keeps_ret]. keeps_step; [apply keeps_ret|].
  apply keeps_with_temp; [intros; apply keeps_ret|]. intros d digits t Hocc Ht.
  assert (Hne : t <> p) by (eapply occupied_not_temp; [|exact Hocc|exact Ht]; done).
  apply (keeps_mono (occupied p)); [|by apply occupied_put|done|done].
  apply keeps_bind; [by apply Complete_body_occupied|]. intros r. keeps_steps; keeps_file.
Qed.

Lemma Claim_log j id fp l : keeps (log_is l) (Claim j id fp).
Proof. unfold Claim, syncDirectory. keeps_steps; try apply readJournalRecord_keeps; keeps_log. Qed.

Lemma Complete_log j id fp outcome l : keeps (log_is l) (Complete j id fp outcome).
Proof.
  unfold Complete, Complete_body, syncDirectory. keeps_steps; try apply readJournalRecord_keeps; keeps_log.
Qed.

(** The file a record is written to. *)
Definition record_file (record : journalRecord) : inode :=
  Inode Regular o600 true true (json_marshal record +:+ newline) true.

(** A lease is granted only on a free name, and leaves it occupied by the
    synchronised record. *)
Definition claim_post (j : Journal) (id fp : string) (d0 d1 : disk) (r : result (bool * journalRecord))
    : Prop :=
  (forall record, r = Ok (true, record) ->
     record = running_record fp /\ d_live d0 !! journal_path j id = None /\
     always d1 (journal_path j id)
       (stored (fun i => i = record_file record))) /\
  (forall record, r = Ok (false, record) -> d1 = d0 /\ jr_Fingerprint record = fp).

Lemma claim_post_err j id fp d0 d1 e : claim_post j id fp d0 d1 (Err e).
Proof. split; intros ? [=]. Qed.

Lemma readJournalRecord_wp p d :
  wp any (readJournalRecord p)
    (fun r d' => d' = d /\ forall record, r = Ok record ->
       valid_journal_record record = true /\ exists i, d_live d !! p = Some i)
    (fun d' => d' = d) d.
Proof.
  unfold readJournalRecord, lookup_sys. wp_steps; try done; (split; [done|]); try (intros ? [=]; fail).
  intros record Hr. repeat case_match; simplify_eq. eauto.
Qed.

Lemma Claim_wp j id fp d0 :
  wp any (Claim j id fp) (fun r d1 => claim_post j id fp d0 d1 r) (fun _ => True) d0.
Proof.
  unfold Claim, syncDirectory.
  wp_step; [apply wp_ret, claim_post_err|].
  wp_step. wp_step; [done|apply wp_ret, claim_post_err|].
  destruct (d_live d0 !! journal_path j id) eqn:Hlive; cbn [fst snd].
  - wp_step. eapply wp_mono; [apply readJournalRecord_wp| |done].
    intros existing d' [-> _]. apply wp_ret. destruct existing as [record|e]; [|apply claim_post_err].
    destruct (String.eqb_spec (jr_Fingerprint record) fp) as [Hfp|]; cbn [negb]; [|apply claim_post_err].
    split; intros record' [= <-]; done.
  - wp_steps; try apply claim_post_err; try done.
    all: try (match goal with E : fail_if false _ = Err _ |- _ => discriminate E end).
    split; [|intros ? [=]]. intros record [= <-]. split; [done|]. split; [done|].
    apply always_synced. rewrite !live_mod, live_upd, !decide_True by done. cbn.
    eexists. split; [reflexivity|]. done.
Qed.

(** A successful completion leaves the complete record, synchronised. *)
Lemma Complete_wp j id fp outcome d0 :
  wp any (Complete j id fp outcome)
    (fun r d1 => r = Ok tt ->
       always d1 (journal_path j id)
         (stored (fun i => i = record_file (complete_record (running_record fp) fp outcome))))
    (fun _ => True) d0.
Proof.
  unfold Complete. wp_step. eapply wp_mono; [apply readJournalRecord_wp| |done].
  intros existing d1 [-> Hread]. wp_step; [|apply wp_ret; intros [=]].
  destruct (Hread a eq_refl) as [Hvalid [i Hi]]. wp_step; [apply wp_ret; intros [=]|].
  wp_step. wp_step; [done|apply wp_ret; intros [=]|].
  assert (Hne : t <> journal_path j id).
  { intros ->. rewrite Htemp, temp_name_fresh in Hi; done. }
  assert (Hschema : jr_Schema a = journalSchema).
  { unfold valid_journal_record in Hvalid. bool_props. done. }
  unfold Complete_body, syncDirectory.
  wp_steps; try done; try (intros [=]; fail).
  all: repeat case_match; cbn [snd] in *; try done.
  all: intros _; try (apply always_upd; [|done]); apply always_synced.
  all: fold (journal_path j id).
  all: match goal with Hl : d_live (d_mod _ mark_synced _) !! _ = Some _ |- _ =>
         rewrite !live_mod, live_upd, !decide_True in Hl by done; injection Hl as <- end.
  all: rewrite live_upd, decide_False, live_upd, decide_True by done.
  all: eexists; (split; [reflexivity|]); (split; [reflexivity|]); unfold record_file, complete_record;
    simpl; by rewrite Hschema.
Qed.

(** ** Reading back, without faults *)

Context {laws : JsonLaws journalRecord}.

(** A record that is read back: valid, representable and within the bound. *)
Definition readable (record : journalRecord) : Prop :=
  valid_journal_record record = true /\ json_representable record /\
  len (json_marshal record +:+ newline) <= 32768.

Lemma readJournalRecord_stored p record d :
  readable record -> d_live d !! p = Some (record_file record) ->
  wp no_fault (readJournalRecord p) (fun r d' => r = Ok record /\ d' = d) (fun _ => False) d.
Proof.
  intros (Hv & Hrep & Hlen) Hp. unfold readJournalRecord.
  wp_ok. wp_ok. unfold lookup_sys. rewrite Hp. cbn [record_file i_kind i_perm i_data].
  rewrite (proj2 (Z.ltb_ge _ _) Hlen), (proj2 (Z.leb_gt _ _)).
  2: { pose proof (json_nonempty record). destruct (json_marshal record); [done|].
       unfold len; simpl; lia. }
  simpl. wp_ok. wp_ok. rewrite Hp. cbn [record_file i_data]. wp_ok.
  by rewrite json_roundtrip_nl, Hv.
Qed.

Lemma Claim_stored j id fp record d :
  executionIDPattern id = true -> executionIDPattern fp = true ->
  readable record -> jr_Fingerprint record = fp ->
  d_live d !! journal_path j id = Some (record_file record) ->
  wp no_fault (Claim j id fp) (fun r d' => r = Ok (false, record) /\ d' = d) (fun _ => False) d.
Proof.
  intros Hid Hfp Hread Hsame Hlive. unfold Claim. rewrite Hid, Hfp. simpl.
  wp_ok. wp_ok. rewrite Hlive. cbn [fst snd]. wp_ok.
  eapply wp_mono; [by apply readJournalRecord_stored| |done].
  intros r d' [-> ->]. apply wp_ret. by rewrite Hsame, String.eqb_refl.
Qed.

End Journal.
