(* ===== verification/Runner.v ===== *)
(** * pkg/softwarework/runner.go and preset.go: the at-most-once runner *)

From S2P Require Import Prelude GoStd Sha256 Executor FS Json ArtifactStore Journal.

Definition quoteCommitmentPattern : string -> bool := hex_pattern "tvm-cell-sha256:" 64.

Definition ArtifactMediaType : string := "application/vnd.tos.service.software-artifact.v1+tar".
Definition ReportMediaType : string := "application/vnd.tos.service.test-report.v1+json".

Record Contract := {
  co_ManifestDigest : string;
  co_ToolchainDigest : string;
  co_SandboxDigest : string;
  co_Executable : string;
  co_Arguments : list string;
  co_WorkingDirectory : string;
  co_Limits : Limits;
  co_UserID : Z;
  co_GroupID : Z;
}.

Record Request := {
  rq_QuoteCommitment : string;
  rq_ExecutionID : string;
  rq_InputDigest : string;
  rq_SourceDigest : string;
  rq_SourceArchive : bytes;
}.

Definition forbiddenExecutable (value : string) : bool :=
  bool_decide (path_Base value ∈
    ["sh"; "bash"; "dash"; "zsh"; "fish"; "ksh"; "cmd"; "powershell"; "pwsh"]).

Definition validateContract (v : Contract) : result unit :=
  fail_if
    (negb (executionIDPattern (co_ManifestDigest v)) || negb (executionIDPattern (co_ToolchainDigest v)) ||
     (co_SandboxDigest v <>s? co_ManifestDigest v) || (co_Executable v =s? "") ||
     (llen (co_Arguments v) =? 0) || (64 <? llen (co_Arguments v)) ||
     negb (has_prefix (co_Executable v) "/") || (path_Clean (co_Executable v) <>s? co_Executable v) ||
     forbiddenExecutable (co_Executable v) || (co_WorkingDirectory v <>s? "/workspace/source") ||
     (co_UserID v =? 0) || (co_GroupID v =? 0) ||
     (lim_CPUMillis (co_Limits v) =? 0) || (lim_MemoryBytes (co_Limits v) =? 0) ||
     (lim_DiskBytes (co_Limits v) =? 0) || (lim_PIDs (co_Limits v) =? 0) ||
     (lim_ExecutionTime (co_Limits v) <=? 0) || (lim_OutputBytes (co_Limits v) =? 0) ||
     negb (lim_GPUDeviceCount (co_Limits v) =? 0))
    "invalid software-work contract" ;;;
  fail_if (existsb (fun a => (a =s? "") || (512 <? len a) || contains_byte a nul) (co_Arguments v))
    "invalid software-work contract".

Definition validateRequest (contract : Contract) (v : Request) : result unit :=
  fail_if
    (negb (quoteCommitmentPattern (rq_QuoteCommitment v)) || negb (executionIDPattern (rq_ExecutionID v)) ||
     negb (executionIDPattern (rq_InputDigest v)) || negb (executionIDPattern (rq_SourceDigest v)) ||
     (digest (rq_SourceArchive v) <>s? rq_SourceDigest v) ||
     (lim_DiskBytes (co_Limits contract) <? len (rq_SourceArchive v)))
    "software-work request does not match its commitments".

(** The anonymous structures that are marshalled. *)
Record fingerprintFields := {
  ff_Manifest : string;
  ff_Quote : string;
  ff_Execution : string;
  ff_Input : string;
  ff_Source : string;
}.

Record reportFields := {
  rf_Schema : string;
  rf_ExecutionID : string;
  rf_ResultDigest : string;
  rf_ExitCode : Z;
  rf_Usage : Usage;
  rf_CompletedAtUnix : Z;
}.

(** The environment the runner gives to every job. *)
Definition job_environment : gmap string string :=
  {["GOROOT" := "/usr/local/go"; "HOME" := "/workspace"; "GOCACHE" := "/workspace/go-cache";
    "GOTMPDIR" := "/workspace"; "TMPDIR" := "/workspace"; "CGO_ENABLED" := "0"; "GOMAXPROCS" := "2"]}.

Definition job_spec (c : Contract) : Spec :=
  {| sp_ImageDigest := co_ToolchainDigest c; sp_Entrypoint := co_Executable c :: co_Arguments c;
     sp_WorkingDirectory := co_WorkingDirectory c; sp_Environment := job_environment;
     sp_WorkspaceArchive := true; sp_ReadOnlyRoot := true; sp_Network := NetworkNone;
     sp_AllowedHosts := []; sp_AllowGPU := false; sp_UserID := co_UserID c; sp_GroupID := co_GroupID c;
     sp_Privileged := false; sp_NoNewPrivileges := true; sp_HostMounts := [];
     sp_ExposeRuntimeSocket := false; sp_Limits := co_Limits c |}.

(** ** The frozen V1 preset *)

Definition FrozenV1ManifestDigest : string :=
  "sha256:e4db0138ca2a4d5ad8f3c7ec458304927344e341ae610ee0a682b9cc5b00594e".
Definition FrozenV1ImageDigest : string :=
  "sha256:9624bca74096f810c5b24e489521dde124fadcfa1808581648b38bdc1ba1b105".

Definition FrozenV1Limits : Limits :=
  {| lim_CPUMillis := 120000; lim_MemoryBytes := 1073741824; lim_DiskBytes := 2147483648; lim_PIDs := 64;
     lim_ExecutionTime := 180 * time_Second; lim_OutputBytes := 16777216; lim_GPUDeviceCount := 0 |}.

Definition FrozenV1Policy : Policy :=
  {| pol_AllowedImages := {[FrozenV1ImageDigest]}; pol_AllowedNetworkHosts := [];
     pol_MaxAllowedImages := 1; pol_MaxEnvironment := 8; pol_MaxArguments := 8; pol_MaxAllowedHosts := 0;
     pol_MaxStringBytes := 4096; pol_MaxInputBytes := 16777216; pol_Ceiling := FrozenV1Limits;
     pol_PermitGPU := false; pol_PermitNetwork := false; pol_RequireReadOnlyRoot := true |}.

Definition FrozenV1Contract : Contract :=
  {| co_ManifestDigest := FrozenV1ManifestDigest; co_ToolchainDigest := FrozenV1ImageDigest;
     co_SandboxDigest := FrozenV1ManifestDigest; co_Executable := "/usr/local/bin/go";
     co_Arguments := ["test"; "./..."; "-count=1"]; co_WorkingDirectory := "/workspace/source";
     co_Limits := FrozenV1Limits; co_UserID := 65532; co_GroupID := 65532 |}.

(** ** The runner

    The executor is any implementation of [executor.Executor]; the archive
    writer is [archive/tar]. *)
Record Runner := {
  ru_executor : string -> Spec -> bytes -> result Result;
  ru_store : Store;
  ru_journal : Journal;
  ru_contract : Contract;
}.

Section Runner.
Context `{!Json journalRecord, !Json fingerprintFields, !Json reportFields}.
Variable tar_archive : list (string * bytes) -> option bytes.

(** Nil components are [None]. *)
Definition NewRunner (ex : option (string -> Spec -> bytes -> result Result)) (store : option Store)
    (journal : option Journal) (contract : Contract) : result Runner :=
  match ex, store, journal with
  | Some ex, Some store, Some journal =>
      if is_ok (validateContract contract)
      then Ok {| ru_executor := ex; ru_store := store; ru_journal := journal; ru_contract := contract |}
      else Err "invalid software-work runner configuration"
  | _, _, _ => Err "invalid software-work runner configuration"
  end.

Definition requestFingerprint (contract : Contract) (request : Request) : string :=
  digest (json_marshal
    {| ff_Manifest := co_ManifestDigest contract; ff_Quote := rq_QuoteCommitment request;
       ff_Execution := rq_ExecutionID request; ff_Input := rq_InputDigest request;
       ff_Source := rq_SourceDigest request |}).

Definition buildArtifact (output report : bytes) : result bytes :=
  match tar_archive [("output.log", output); ("report.json", report)] with
  | Some b => Ok b
  | None => Err "encode software-work artifact"
  end.

Definition report_of (request : Request) (r : Result) (completed : Z) : reportFields :=
  {| rf_Schema := "tos.service.software-work-report.v1"; rf_ExecutionID := rq_ExecutionID request;
     rf_ResultDigest := digest (res_Output r); rf_ExitCode := res_ExitCode r; rf_Usage := res_Usage r;
     rf_CompletedAtUnix := wrap64 completed |}.

Definition outcome_of (contract : Contract) (request : Request) (r : Result) (completed : Z)
    (artifact report : Descriptor) : Outcome :=
  {| oc_QuoteCommitment := rq_QuoteCommitment request; oc_ExecutionID := rq_ExecutionID request;
     oc_InputDigest := rq_InputDigest request; oc_ResultDigest := digest (res_Output r);
     oc_Artifact := artifact; oc_Report := report; oc_SourceDigest := rq_SourceDigest request;
     oc_ToolchainDigest := co_ToolchainDigest contract; oc_SandboxDigest := co_SandboxDigest contract;
     oc_ExitCode := res_ExitCode r; oc_CompletedAtUnix := wrap64 completed |}.

Definition bytes_reader (b : bytes) : Reader := {| rd_bytes := b; rd_fails := false |}.

(** [Runner.Execute] after the lease was granted; the call of the executor is
    recorded in the log.  [ctxs] are the errors of the context when each [Put]
    starts and when it verifies an existing object. *)
Definition Execute_leased (r : Runner) (ctxs : list (option string)) (completed : Z) (request : Request)
    (fingerprint : string) : IO (result Outcome) :=
  let ctx n := mjoin (ctxs !! n) in
  _ ← emit ("exec", rq_ExecutionID request);
  match ru_executor r (rq_ExecutionID request) (job_spec (ru_contract r)) (rq_SourceArchive request) with
  | Err e => mret (Err e)
  | Ok res =>
  if negb (res_ExitCode res =? 0) then mret (Err "software-work objective success condition failed") else
  let reportBytes := json_marshal (report_of request res completed) in
  report ← Put (ru_store r) (ctx 0%nat) (ctx 1%nat) ReportMediaType (bytes_reader reportBytes);
  match report with
  | Err e => mret (Err e)
  | Ok report =>
  match buildArtifact (res_Output res) reportBytes with
  | Err e => mret (Err e)
  | Ok artifactBytes =>
  artifact ← Put (ru_store r) (ctx 2%nat) (ctx 3%nat) ArtifactMediaType (bytes_reader artifactBytes);
  match artifact with
  | Err e => mret (Err e)
  | Ok artifact =>
      let outcome := outcome_of (ru_contract r) request res completed artifact report in
      c ← Complete (ru_journal r) (rq_ExecutionID request) fingerprint outcome;
      mret (c ;;; Ok outcome)
  end end end end.

Definition Execute (r : Runner) (ctxs : list (option string)) (completed : Z) (request : Request)
    : IO (result Outcome) :=
  match validateRequest (ru_contract r) request with
  | Err e => mret (Err e)
  | Ok _ =>
      let fingerprint := requestFingerprint (ru_contract r) request in
      claim ← Claim (ru_journal r) (rq_ExecutionID request) fingerprint;
      match claim with
      | Err e => mret (Err e)
      | Ok (true, _) => Execute_leased r ctxs completed request fingerprint
      | Ok (false, record) =>
          mret (if jr_State record =s? "complete" then Ok (jr_Outcome record)
                else Err "software-work execution outcome is ambiguous")
      end
  end.

(** ** Histories

    The state of the worker: the disk with the log of executor calls, and the
    executions that hold a lease and have not called the executor yet.  Claims
    and completions are atomic (the journal's mutex); executor calls, artifact
    writes and completions of different executions interleave.  A process that
    dies, in an operation or between two, loses its leases. *)
Record state := { s_disk : disk; s_leased : list string }.

Definition lease_of (executionID : string) (o : outcome (result (bool * journalRecord)))
    (leased : list string) : list string :=
  match o with
  | Done (Ok (true, _)) => executionID :: leased
  | Done _ => leased
  | Crashed => []
  end.

Definition survivors {A} (o : outcome A) (leased : list string) : list string :=
  match o with Done _ => leased | Crashed => [] end.

Inductive step (j : Journal) : state -> state -> Prop :=
| step_claim id fp d leased script rand o w :
    Claim j id fp (World d script rand) = (o, w) ->
    step j {| s_disk := d; s_leased := leased |}
           {| s_disk := w_disk w; s_leased := lease_of id o leased |}
| step_exec id l1 l2 d :
    step j {| s_disk := d; s_leased := l1 ++ id :: l2 |}
           {| s_disk := d_emit ("exec", id) d; s_leased := l1 ++ l2 |}
| step_put store ctxErr ctxGet mt reader d leased script rand o w :
    Put store ctxErr ctxGet mt reader (World d script rand) = (o, w) ->
    step j {| s_disk := d; s_leased := leased |}
           {| s_disk := w_disk w; s_leased := survivors o leased |}
| step_complete id fp out d leased script rand o w :
    Complete j id fp out (World d script rand) = (o, w) ->
    step j {| s_disk := d; s_leased := leased |}
           {| s_disk := w_disk w; s_leased := survivors o leased |}
| step_restart d leased :
    step j {| s_disk := d; s_leased := leased |} {| s_disk := d; s_leased := [] |}
| step_power_loss d d' leased :
    power_loss d d' ->
    step j {| s_disk := d; s_leased := leased |} {| s_disk := d'; s_leased := [] |}.

Definition execs (id : string) (d : disk) : nat :=
  length (filter (fun e => e = ("exec", id)) (d_log d)).

(** ** Lemmas *)

Definition leases (id : string) (leased : list string) : nat := length (filter (fun x => x = id) leased).

Lemma leases_app id l1 l2 : leases id (l1 ++ l2) = (leases id l1 + leases id l2)%nat.
Proof. unfold leases. by rewrite filter_app, length_app. Qed.

Lemma leases_cons id x l : leases id (x :: l) = ((if decide (x = id) then 1 else 0) + leases id l)%nat.
Proof. unfold leases. rewrite filter_cons. by case_decide. Qed.

Lemma execs_emit id id' d :
  execs id (d_emit ("exec", id') d) = ((if decide (id' = id) then 1 else 0) + execs id d)%nat.
Proof.
  unfold execs; simpl. rewrite filter_cons.
  case_decide; case_decide; simpl; try done; congruence.
Qed.

Lemma execs_log id d d' : d_log d = d_log d' -> execs id d = execs id d'.
Proof. unfold execs. by intros ->. Qed.

(** Every execution that was called or holds a lease occupies its name. *)
Definition once (j : Journal) (s : state) : Prop :=
  forall id, (execs id (s_disk s) + leases id (s_leased s) <= 1)%nat /\
    ((0 < execs id (s_disk s) + leases id (s_leased s))%nat -> occupied (journal_path j id) (s_disk s)).

(** An operation that keeps the log and every occupied name keeps the invariant
    for the leases that survive it. *)
Lemma once_file_op j d leased d' leased' :
  once j {| s_disk := d; s_leased := leased |} ->
  d_log d' = d_log d -> (forall p, occupied p d -> occupied p d') ->
  (forall id, (leases id leased' <= leases id leased)%nat) ->
  once j {| s_disk := d'; s_leased := leased' |}.
Proof.
  intros Honce Hlog Hocc Hl id. destruct (Honce id) as [Hle Hpos]. simpl in *.
  rewrite (execs_log id d' d Hlog). specialize (Hl id).
  split; [lia|]. intros. apply Hocc, Hpos. lia.
Qed.

Lemma survivors_le {A} (o : outcome A) id leased : (leases id (survivors o leased) <= leases id leased)%nat.
Proof. destruct o; simpl; [done|]. unfold leases at 1. simpl. lia. Qed.

Lemma lease_free j id d leased :
  once j {| s_disk := d; s_leased := leased |} -> d_live d !! journal_path j id = None ->
  execs id d = 0%nat /\ leases id leased = 0%nat.
Proof.
  intros Honce Hnone. destruct (Honce id) as [Hle Hpos]. simpl in *.
  destruct (decide (0 < execs id d + leases id leased)%nat) as [Hp|]; [|lia].
  destruct (occupied_live _ _ (Hpos Hp)). congruence.
Qed.

Lemma once_claim j id fp d leased script rand o w :
  once j {| s_disk := d; s_leased := leased |} -> Claim j id fp (World d script rand) = (o, w) ->
  once j {| s_disk := w_disk w; s_leased := lease_of id o leased |}.
Proof.
  intros Honce Hc.
  assert (Hlog : d_log (w_disk w) = d_log d).
  { pose proof (keeps_run _ _ (World d script rand) (Claim_log j id fp (d_log d)) eq_refl) as Hk.
    by rewrite Hc in Hk. }
  assert (Hocc : forall p, occupied p d -> occupied p (w_disk w)).
  { intros p Hp. pose proof (keeps_run _ _ (World d script rand) (Claim_occupied j id fp p) Hp) as Hk.
    by rewrite Hc in Hk. }
  pose proof (wp_run _ _ _ (World d script rand) (Claim_wp j id fp d)) as Hw. rewrite Hc in Hw.
  destruct o as [[[[] record]|e]|]; simpl lease_of;
    try (eapply once_file_op; [exact Honce|done|done|]; intros; unfold leases; simpl; lia).
  destruct Hw as [Hw _]. destruct (Hw record eq_refl) as (_ & Hnone & Hst).
  destruct (lease_free _ _ _ _ Honce Hnone) as [He Hl].
  intros id'. simpl. rewrite (execs_log id' _ d Hlog), leases_cons.
  case_decide as Hid; [subst id'|].
  - split; [lia|]. intros _. eapply always_mono; [exact Hst|]. apply stored_present.
  - destruct (Honce id') as [Hle Hpos]. simpl in *. split; [lia|]. intros. apply Hocc, Hpos. lia.
Qed.

Lemma once_step j s s' : once j s -> step j s s' -> once j s'.
Proof.
  intros Honce Hstep. inversion Hstep as
    [id fp d leased script rand o w Hc|id l1 l2 d|store ce cg mt reader d leased script rand o w Hc
    |id fp out d leased script rand o w Hc|d leased|d d' leased Hp]; subst.
  - by eapply once_claim.
  - intros id'. specialize (Honce id'). simpl in *.
    rewrite execs_emit. rewrite leases_app, leases_cons in Honce. rewrite leases_app.
    destruct Honce as [Hle Hpos]. split; [lia|]. intros. apply always_emit, Hpos. lia.
  - pose proof (keeps_run _ _ (World d script rand) (Put_log store ce cg mt reader (d_log d)) eq_refl) as Hk.
    rewrite Hc in Hk. eapply once_file_op; [exact Honce|exact Hk| |intros; apply survivors_le].
    intros p Hp. pose proof (keeps_run _ _ (World d script rand) (Put_occupied store ce cg mt reader p) Hp) as Ho.
    by rewrite Hc in Ho.
  - pose proof (keeps_run _ _ (World d script rand) (Complete_log j id fp out (d_log d)) eq_refl) as Hk.
    rewrite Hc in Hk. eapply once_file_op; [exact Honce|exact Hk| |intros; apply survivors_le].
    intros p Hp. pose proof (keeps_run _ _ (World d script rand) (Complete_occupied j id fp out p) Hp) as Ho.
    by rewrite Hc in Ho.
  - eapply once_file_op; [exact Honce|done|done|]. intros; unfold leases; simpl; lia.
  - destruct Hp as (Hold & Hlog & Hcand).
    eapply once_file_op; [exact Honce|done| |]; [|intros; unfold leases; simpl; lia].
    intros p Hp. by eapply occupied_power_loss.
Qed.

(** ** Properties *)

(** C2. At most once: in every history of claims, executor calls, artifact
    writes and completions, with any faults, process deaths, restarts and power
    losses, the executor is called at most once for an execution identity. *)
Theorem executor_called_at_most_once j d s id
    (Hstart : d_log d = []) (Hrun : rtc (step j) {| s_disk := d; s_leased := [] |} s) :
  (execs id (s_disk s) <= 1)%nat.
Proof.
  assert (Honce : once j {| s_disk := d; s_leased := [] |}).
  { intros id'. unfold execs; simpl. rewrite Hstart.
    split; [|intros Hpos; exfalso; revert Hpos]; unfold leases; simpl; lia. }
  clear Hstart. revert Honce.
  induction Hrun as [s|s s' s'' Hs Hr IH]; intros Honce.
  - destruct (Honce id). lia.
  - apply IH. by eapply once_step.
Qed.

(** The run of [Execute] that was granted the lease and succeeded. *)
Lemma Execute_leased_wp r ctxs t req fp d0 :
  wp any (Execute_leased r ctxs t req fp)
    (fun res d1 => forall out, res = Ok out ->
       always d1 (journal_path (ru_journal r) (rq_ExecutionID req))
         (stored (fun i => i = record_file (complete_record (running_record fp) fp out))))
    (fun _ => True) d0.
Proof.
  unfold Execute_leased. wp_step. wp_step. wp_step; [|apply wp_ret; intros ? [=]].
  wp_step; [apply wp_ret; intros ? [=]|]. wp_step.
  eapply wp_mono; [apply (Put_log _ _ _ _ _ _ _ eq_refl)| |done]. intros report d1 _.
  wp_step; [|apply wp_ret; intros ? [=]]. wp_step; [|apply wp_ret; intros ? [=]]. wp_step.
  eapply wp_mono; [apply (Put_log _ _ _ _ _ _ _ eq_refl)| |done]. intros artifact d2 _.
  wp_step; [|apply wp_ret; intros ? [=]]. wp_step.
  eapply wp_mono; [apply Complete_wp| |done]. intros c d3 Hc.
  apply wp_ret. intros out [Hok [= <-]]%then_ok. by apply Hc.
Qed.

Lemma Execute_wp r ctxs t req d0 :
  d_live d0 !! journal_path (ru_journal r) (rq_ExecutionID req) = None ->
  wp any (Execute r ctxs t req)
    (fun res d1 => forall out, res = Ok out ->
       validateRequest (ru_contract r) req = Ok tt /\
       let fp := requestFingerprint (ru_contract r) req in
       always d1 (journal_path (ru_journal r) (rq_ExecutionID req))
         (stored (fun i => i = record_file (complete_record (running_record fp) fp out))))
    (fun _ => True) d0.
Proof.
  intros Hnone. unfold Execute. wp_step; [|apply wp_ret; intros ? [=]].
  wp_step.
  assert (Hc : wp any (Claim (ru_journal r) (rq_ExecutionID req) (requestFingerprint (ru_contract r) req))
    (fun c _ => forall rec, c <> Ok (false, rec)) (fun _ => True) d0).
  { unfold Claim, syncDirectory. wp_step; [apply wp_ret; intros ? [=]|].
    wp_step. wp_step; [done|apply wp_ret; intros ? [=]|]. rewrite Hnone. cbn [fst snd].
    wp_steps; try done; intros ? [=]. }
  eapply wp_mono; [exact Hc| |done]. intros c d1 Hne.
  destruct c as [[[] rec]|e].
  - eapply wp_mono; [apply Execute_leased_wp| |done]. intros res d2 Hres out Hout.
    destruct a. split; [done|]. by apply Hres.
  - by destruct (Hne rec).
  - apply wp_ret; intros ? [=].
Qed.

Lemma validateRequest_id c req :
  validateRequest c req = Ok tt -> executionIDPattern (rq_ExecutionID req) = true.
Proof. unfold validateRequest. intros Hv%fail_if_ok. bool_props. done. Qed.

Context {laws : JsonLaws journalRecord}.

(** Durable replay: once [Execute] has run a fresh job to success, the same
    request answered later without faults, after any restart or power loss,
    returns the same outcome and leaves the disk and the log of executor calls
    unchanged. *)
Theorem Execute_replays r ctxs t req w out w' d'' ctxs' t' rand
    (Hfresh : d_live (w_disk w) !! journal_path (ru_journal r) (rq_ExecutionID req) = None)
    (Hrun : Execute r ctxs t req w = (Done (Ok out), w'))
    (Hlater : d'' = w_disk w' \/ power_loss (w_disk w') d'')
    (Hfits : let fp := requestFingerprint (ru_contract r) req in
             let record := complete_record (running_record fp) fp out in
             json_representable record /\ len (json_marshal record +:+ newline) <= 32768) :
  exists w'', Execute r ctxs' t' req (World d'' [] rand) = (Done (Ok out), w'') /\ w_disk w'' = d''.
Proof.
  pose proof (wp_run _ _ _ w (Execute_wp r ctxs t req (w_disk w) Hfresh)) as Hw. rewrite Hrun in Hw.
  destruct (Hw out eq_refl) as [Hv Hal]. cbv zeta in Hal, Hfits.
  set (fp := requestFingerprint (ru_contract r) req) in *.
  set (record := complete_record (running_record fp) fp out) in *.
  assert (Hlive : d_live d'' !! journal_path (ru_journal r) (rq_ExecutionID req) = Some (record_file record)).
  { destruct Hlater as [->|Hp].
    - apply always_live in Hal as (i & -> & _ & ->). done.
    - apply (always_power_loss _ d'') in Hal; [|apply stored_settles|done].
      apply always_live in Hal as (i & -> & _ & ->). done. }
  assert (Hread : readable record).
  { split; [|exact Hfits]. unfold valid_journal_record, record, complete_record; simpl.
    unfold executionIDPattern, fp, requestFingerprint. by rewrite digest_matches. }
  pose proof (Claim_stored (ru_journal r) (rq_ExecutionID req) fp record d''
    (validateRequest_id _ _ Hv) (digest_matches _) Hread eq_refl Hlive [] rand (proj2 (Forall_nil _) I)) as Hc.
  unfold Execute. rewrite Hv. unfold mbind, io_bind. fold fp.
  destruct (Claim (ru_journal r) (rq_ExecutionID req) fp (World d'' [] rand)) as [[c|] w'']; [|done].
  destruct Hc as (_ & -> & Hd). exists w''. done.
Qed.

(** An identity that is already in the journal never runs again: [Execute]
    leaves the whole disk and the log of executor calls unchanged, whatever the
    record holds and whatever faults occur. *)
Theorem Execute_taken_identity r ctxs t req w i
    (Htaken : d_live (w_disk w) !! journal_path (ru_journal r) (rq_ExecutionID req) = Some i) :
  w_disk (Execute r ctxs t req w).2 = w_disk w.
Proof.
  assert (Hw : wp any (Execute r ctxs t req) (fun _ d1 => d1 = w_disk w) (fun d1 => d1 = w_disk w) (w_disk w)).
  { unfold Execute. wp_step; [|by apply wp_ret]. wp_step. unfold Claim.
    wp_step; [by apply wp_ret, wp_ret|]. wp_step. wp_step; [done|by apply wp_ret, wp_ret|].
    rewrite Htaken. cbn [fst snd]. wp_step.
    eapply wp_mono; [apply readJournalRecord_wp| |auto]. intros existing d1 [-> _].
    apply wp_ret. destruct existing as [record|]; [|by apply wp_ret].
    destruct (jr_Fingerprint record <>s? requestFingerprint (ru_contract r) req); by apply wp_ret. }
  pose proof (wp_run _ _ _ w Hw) as H'. by destruct (Execute r ctxs t req w) as [[o|] w'].
Qed.

End Runner.

(** The frozen V1 preset is consistent: its contract is accepted by the
    runner, and the specification the runner builds from it is accepted by the
    frozen policy. *)
Theorem FrozenV1_accepted :
  validateContract FrozenV1Contract = Ok tt /\ Validate FrozenV1Policy (job_spec FrozenV1Contract) = Ok tt.
Proof. split; vm_compute; reflexivity. Qed.

(** ** Witnesses *)

Module Samples.

#[refine, export] Instance journalRecord_fields : Fields journalRecord := {|
  to_fields r :=
    let o := jr_Outcome r in
    [jr_Schema r; jr_Fingerprint r; jr_State r; oc_QuoteCommitment o; oc_ExecutionID o; oc_InputDigest o;
     oc_ResultDigest o; de_Digest (oc_Artifact o); de_MediaType (oc_Artifact o);
     put_Z (de_SizeBytes (oc_Artifact o)); de_Digest (oc_Report o); de_MediaType (oc_Report o);
     put_Z (de_SizeBytes (oc_Report o)); oc_SourceDigest o; oc_ToolchainDigest o; oc_SandboxDigest o;
     put_Z (oc_ExitCode o); put_Z (oc_CompletedAtUnix o)];
  of_fields l :=
    match l with
    | [a; b; c; q; e; i; rd; ad; am; az; pd; pm; pz; sd; td; bd; x; t] =>
        Some {| jr_Schema := a; jr_Fingerprint := b; jr_State := c; jr_Outcome :=
          {| oc_QuoteCommitment := q; oc_ExecutionID := e; oc_InputDigest := i; oc_ResultDigest := rd;
             oc_Artifact := {| de_Digest := ad; de_MediaType := am; de_SizeBytes := get_Z az |};
             oc_Report := {| de_Digest := pd; de_MediaType := pm; de_SizeBytes := get_Z pz |};
             oc_SourceDigest := sd; oc_ToolchainDigest := td; oc_SandboxDigest := bd;
             oc_ExitCode := get_Z x; oc_CompletedAtUnix := get_Z t |} |}
    | _ => None
    end;
  of_to_fields := _;
|}.
Proof. intros [? ? ? [? ? ? ? [] [] ? ? ? ? ?]]. simpl. by rewrite !get_put_Z. Defined.

#[refine, export] Instance fingerprint_fields : Fields fingerprintFields := {|
  to_fields f := [ff_Manifest f; ff_Quote f; ff_Execution f; ff_Input f; ff_Source f];
  of_fields l := match l with
    | [a; b; c; d; e] =>
        Some {| ff_Manifest := a; ff_Quote := b; ff_Execution := c; ff_Input := d; ff_Source := e |}
    | _ => None
    end;
  of_to_fields := _;
|}.
Proof. by intros []. Defined.

#[refine, export] Instance report_fields : Fields reportFields := {|
  to_fields f := [rf_Schema f; rf_ExecutionID f; rf_ResultDigest f; put_Z (rf_ExitCode f);
    put_Z (us_CPUMillis (rf_Usage f)); put_Z (us_PeakMemory (rf_Usage f));
    put_Z (us_DiskWritten (rf_Usage f)); put_Z (us_Duration (rf_Usage f)); put_Z (rf_CompletedAtUnix f)];
  of_fields l := match l with
    | [a; b; c; x; u1; u2; u3; u4; t] =>
        Some {| rf_Schema := a; rf_ExecutionID := b; rf_ResultDigest := c; rf_ExitCode := get_Z x;
                rf_Usage := {| us_CPUMillis := get_Z u1; us_PeakMemory := get_Z u2;
                               us_DiskWritten := get_Z u3; us_Duration := get_Z u4 |};
                rf_CompletedAtUnix := get_Z t |}
    | _ => None
    end;
  of_to_fields := _;
|}.
Proof. intros [? ? ? ? [] ?]. simpl. by rewrite !get_put_Z. Defined.

Definition tar (l : list (string * bytes)) : option bytes := Some (put_strings (fst <$> l) +:+ put_strings (snd <$> l)).

Definition journal : Journal := {| j_root := "/journal" |}.

Definition runner : Runner :=
  {| ru_executor := fun _ _ _ => Ok Executor.Samples.good_result;
     ru_store := {| st_objects := "/store/objects"; st_maximum := 65536 |};
     ru_journal := journal; ru_contract := FrozenV1Contract |}.

Definition id : string := digest "execution".
Definition request : Request :=
  {| rq_QuoteCommitment := "tvm-cell-" +:+ digest "quote"; rq_ExecutionID := id;
     rq_InputDigest := digest "input"; rq_SourceDigest := digest "source"; rq_SourceArchive := "source" |}.

Definition start : world := World (Disk ∅ ∅ []) [] [].
Definition first_run : outcome (result Outcome) * world :=
  Execute tar runner [] 1700000000 request start.
Definition outcome_or_zero (o : outcome (result Outcome)) : Outcome :=
  match o with Done (Ok o) => o | _ => ZeroOutcome end.
Definition outcome_got : Outcome := outcome_or_zero first_run.1.

Definition claimed : world := (Claim journal id id start).2.

End Samples.

#[local] Existing Instances Samples.journalRecord_fields Samples.fingerprint_fields Samples.report_fields.

Lemma executor_called_at_most_once_witness :
  rtc (step Samples.journal) {| s_disk := w_disk Samples.start; s_leased := [] |}
    {| s_disk := d_emit ("exec", Samples.id) (w_disk Samples.claimed); s_leased := [] |} /\
  execs Samples.id (d_emit ("exec", Samples.id) (w_disk Samples.claimed)) = 1%nat /\
  (execs Samples.id (d_emit ("exec", Samples.id) (w_disk Samples.claimed)) <= 1)%nat.
Proof.
  assert (Hrun : rtc (step Samples.journal) {| s_disk := w_disk Samples.start; s_leased := [] |}
    {| s_disk := d_emit ("exec", Samples.id) (w_disk Samples.claimed); s_leased := [] |}).
  { eapply rtc_l.
    - apply (step_claim Samples.journal Samples.id Samples.id _ _ [] []
               (Done (Ok (true, running_record Samples.id))) Samples.claimed).
      apply pair_fst. vm_compute. reflexivity.
    - apply rtc_once. apply (step_exec Samples.journal Samples.id [] []). }
  split; [exact Hrun|]. split; [vm_compute; reflexivity|].
  apply (executor_called_at_most_once Samples.journal (w_disk Samples.start)
    {| s_disk := d_emit ("exec", Samples.id) (w_disk Samples.claimed); s_leased := [] |} Samples.id
    eq_refl Hrun).
Defined.

Lemma Execute_replays_witness :
  exists w'', Execute Samples.tar Samples.runner [] 1800000000 Samples.request
    (World (w_disk Samples.first_run.2) [] []) = (Done (Ok Samples.outcome_got), w'') /\
    w_disk w'' = w_disk Samples.first_run.2.
Proof.
  apply (Execute_replays Samples.tar Samples.runner [] 1700000000 Samples.request Samples.start
    Samples.outcome_got Samples.first_run.2).
  - vm_compute. reflexivity.
  - apply pair_fst. vm_compute. reflexivity.
  - left. reflexivity.
  - split; [exact I | vm_compute; discriminate].
Defined.

Lemma Execute_taken_identity_witness :
  w_disk (Execute Samples.tar Samples.runner [] 0 Samples.request Samples.claimed).2 = w_disk Samples.claimed.
Proof.
  apply (Execute_taken_identity Samples.tar Samples.runner [] 0 Samples.request Samples.claimed
    (record_file (running_record Samples.id))).
  vm_compute. reflexivity.
Defined.
