(* ===== verification/Supervisor.v ===== *)
(** * pkg/executor/supervisor.go: the bounded workload supervisor

    [SupervisedBackend] is used by many goroutines at once.  Its state is the
    capacity channel, the set of active identities, the closed flag and the two
    wait groups; the critical sections under its mutex are functions, and the
    goroutines inside [RunIsolated], [CheckReady] and [Close] interleave as the
    steps of a transition system. *)

From S2P Require Import Prelude GoStd Sha256 Executor.

Definition MaxSupervisedActiveHard : Z := 256.

(** How far a goroutine admitted by [RunIsolated] is: inside the driver, after
    [delete(b.active, ...)], after [<-b.slots]. *)
Inductive phase := InDriver | Unlisted | Freed.
#[export] Instance phase_eq_dec : EqDecision phase.
Proof. solve_decision. Defined.

(** How far [Close] is: not called, waiting for the probes, driver closed and
    waiting for the workloads, returned. *)
Inductive close_phase := NotClosed | DrainProbes | DrainWork | ClosedDone.
#[export] Instance close_phase_eq_dec : EqDecision close_phase.
Proof. solve_decision. Defined.

Record SupervisedBackend := {
  sb_capacity : nat;              (* cap(b.slots) *)
  sb_slots : nat;                 (* len(b.slots) *)
  sb_active : gset string;
  sb_isClosed : bool;
  sb_probes : nat;
  sb_wait : nat;
  sb_close : close_phase;
  sb_threads : list (string * phase);  (* goroutines admitted by RunIsolated *)
}.

Definition NewSupervisedBackend (driver_nil : bool) (maxActive : Z) : result SupervisedBackend :=
  fail_if (driver_nil || (maxActive <=? 0) || (MaxSupervisedActiveHard <? maxActive))
    "invalid isolated backend supervisor configuration" ;;;
  Ok {| sb_capacity := Z.to_nat maxActive; sb_slots := 0; sb_active := ∅; sb_isClosed := false;
        sb_probes := 0; sb_wait := 0; sb_close := NotClosed; sb_threads := [] |}.

(** The critical section of [RunIsolated]: admission. *)
Definition begin_run (b : SupervisedBackend) (d : string) : result SupervisedBackend :=
  fail_if (sb_isClosed b) "isolated backend supervisor is closed" ;;;
  fail_if (bool_decide (d ∈ sb_active b)) "isolated execution is already active" ;;;
  fail_if (sb_capacity b <=? sb_slots b)%nat "isolated backend capacity is exhausted" ;;;
  Ok {| sb_capacity := sb_capacity b; sb_slots := S (sb_slots b); sb_active := {[d]} ∪ sb_active b;
        sb_isClosed := sb_isClosed b; sb_probes := sb_probes b; sb_wait := S (sb_wait b);
        sb_close := sb_close b; sb_threads := (d, InDriver) :: sb_threads b |}.

(** The checks of [RunIsolated] before admission: a nil context is [None]. *)
Definition run_precheck (ctx : option (option string)) (request : ContainerRequest) : result unit :=
  match ctx with
  | None => Err "nil isolated backend context"
  | Some (Some err) => Err err
  | Some None => ValidateExecutionDigest (cr_ExecutionDigest request)
  end.

(** [callBackendDriver] and what [RunIsolated] makes of its result; [ctxErr] is
    the error of the context after the driver returned. *)
Definition callBackendDriver (o : ClientOutcome) : Result * option string :=
  match o with
  | Returned r err => (r, err)
  | Panicked => (ZeroResult, Some "isolated backend driver panicked")
  end.

Definition run_result (ctxErr : option string) (o : ClientOutcome) : result Result :=
  let '(r, err) := callBackendDriver o in
  match ctxErr with
  | Some e => Err e
  | None => match err with Some _ => Err "isolated backend driver failed" | None => Ok r end
  end.

(** The critical section of [CheckReady]. *)
Definition probe_begin (b : SupervisedBackend) : result SupervisedBackend :=
  fail_if (sb_isClosed b) "isolated backend supervisor is closed" ;;;
  Ok {| sb_capacity := sb_capacity b; sb_slots := sb_slots b; sb_active := sb_active b;
        sb_isClosed := sb_isClosed b; sb_probes := S (sb_probes b); sb_wait := sb_wait b;
        sb_close := sb_close b; sb_threads := sb_threads b |}.

(** The checks of [CheckReady] before that section. *)
Definition ready_precheck (ctx : option (option string)) : result unit :=
  match ctx with
  | None => Err "nil isolated backend readiness context"
  | Some (Some err) => Err err
  | Some None => Ok tt
  end.

(** A driver call that returns only an error: [None] is a panic. *)
Definition callDriverReady (o : option (option string)) : option string :=
  match o with
  | Some err => err
  | None => Some "isolated backend readiness panicked"
  end.

Definition callDriverClose (driver_nil : bool) (o : option (option string)) : option string :=
  if driver_nil then Some "invalid isolated backend driver"
  else match o with
       | None => Some "isolated backend close panicked"
       | Some (Some _) => Some "close isolated backend driver"
       | Some None => None
       end.

(** What [CheckReady] returns after [callDriverReady]. *)
Definition ready_result (ctxErr : option string) (driver : option (option string)) : result unit :=
  match ctxErr with
  | Some e => Err e
  | None => match callDriverReady driver with
            | None => Ok tt
            | Some _ => Err "isolated backend driver is unavailable"
            end
  end.

Definition set_threads (b : SupervisedBackend) (slots : nat) (active : gset string) (wait : nat)
    (threads : list (string * phase)) : SupervisedBackend :=
  {| sb_capacity := sb_capacity b; sb_slots := slots; sb_active := active; sb_isClosed := sb_isClosed b;
     sb_probes := sb_probes b; sb_wait := wait; sb_close := sb_close b; sb_threads := threads |}.

Definition set_close (b : SupervisedBackend) (closed : bool) (probes : nat) (c : close_phase)
    : SupervisedBackend :=
  {| sb_capacity := sb_capacity b; sb_slots := sb_slots b; sb_active := sb_active b; sb_isClosed := closed;
     sb_probes := probes; sb_wait := sb_wait b; sb_close := c; sb_threads := sb_threads b |}.

(** The atomic steps of the goroutines.  [st_delete], [st_free] and [st_done]
    are the three parts of the deferred function of [RunIsolated];
    [st_close_begin], [st_close_driver] and [st_close_end] those of [Close]. *)
Inductive sstep : SupervisedBackend -> SupervisedBackend -> Prop :=
| st_begin_run b d b' : digest_pattern d = true -> begin_run b d = Ok b' -> sstep b b'
| st_delete b d l1 l2 : sb_threads b = l1 ++ (d, InDriver) :: l2 ->
    sstep b (set_threads b (sb_slots b) (sb_active b ∖ {[d]}) (sb_wait b) (l1 ++ (d, Unlisted) :: l2))
| st_free b d l1 l2 : sb_threads b = l1 ++ (d, Unlisted) :: l2 ->
    sstep b (set_threads b (sb_slots b - 1) (sb_active b) (sb_wait b) (l1 ++ (d, Freed) :: l2))
| st_done b d l1 l2 : sb_threads b = l1 ++ (d, Freed) :: l2 ->
    sstep b (set_threads b (sb_slots b) (sb_active b) (sb_wait b - 1) (l1 ++ l2))
| st_probe_begin b b' : probe_begin b = Ok b' -> sstep b b'
| st_probe_end b n : sb_probes b = S n -> sstep b (set_close b (sb_isClosed b) n (sb_close b))
| st_close_begin b : sb_close b = NotClosed -> sstep b (set_close b true (sb_probes b) DrainProbes)
| st_close_driver b : sb_close b = DrainProbes -> sb_probes b = 0%nat ->
    sstep b (set_close b (sb_isClosed b) (sb_probes b) DrainWork)
| st_close_end b : sb_close b = DrainWork -> sb_wait b = 0%nat ->
    sstep b (set_close b (sb_isClosed b) (sb_probes b) ClosedDone).

(** ** Invariant *)

Definition running (b : SupervisedBackend) : list string :=
  fst <$> filter (fun t => t.2 = InDriver) (sb_threads b).

Definition holding (l : list (string * phase)) : nat :=
  length (filter (fun t => t.2 <> Freed) l).

Record sup_inv (b : SupervisedBackend) : Prop := {
  si_active : forall d, d ∈ sb_active b <-> d ∈ running b;
  si_nodup : NoDup (running b);
  si_slots : sb_slots b = holding (sb_threads b);
  si_capacity : (sb_slots b <= sb_capacity b)%nat;
  si_wait : sb_wait b = length (sb_threads b);
  si_closed : sb_isClosed b = true <-> sb_close b <> NotClosed;
  si_probes : sb_close b = DrainWork \/ sb_close b = ClosedDone -> sb_probes b = 0%nat;
  si_drained : sb_close b = ClosedDone -> sb_threads b = [];
}.

Lemma running_app l1 l2 b :
  running (set_threads b (sb_slots b) (sb_active b) (sb_wait b) (l1 ++ l2)) =
  (fst <$> filter (fun t => t.2 = InDriver) l1) ++ (fst <$> filter (fun t => t.2 = InDriver) l2).
Proof. unfold running; simpl. by rewrite filter_app, fmap_app. Qed.

Lemma running_mid l1 l2 (d : string) (ph : phase) :
  (fst <$> filter (fun t => t.2 = InDriver) (l1 ++ (d, ph) :: l2)) =
  (fst <$> filter (fun t : string * phase => t.2 = InDriver) l1) ++
  (if decide (ph = InDriver) then [d] else []) ++
  (fst <$> filter (fun t : string * phase => t.2 = InDriver) l2).
Proof. rewrite filter_app, fmap_app, filter_cons. simpl. by case_decide. Qed.

Lemma holding_mid l1 l2 d ph :
  holding (l1 ++ (d, ph) :: l2) =
  (holding l1 + (if decide (ph = Freed) then 0 else 1) + holding l2)%nat.
Proof.
  unfold holding. rewrite filter_app, length_app, filter_cons. simpl.
  destruct ph; simpl; rewrite ?decide_True, ?decide_False by done; simpl; lia.
Qed.

Lemma holding_app l1 l2 : holding (l1 ++ l2) = (holding l1 + holding l2)%nat.
Proof. unfold holding. by rewrite filter_app, length_app. Qed.

Lemma begin_run_inv b d b' : sup_inv b -> begin_run b d = Ok b' -> sup_inv b'.
Proof.
  intros [Ha Hn Hs Hc Hw Hcl Hp Hd] H. unfold begin_run in H.
  rewrite !then_ok, !fail_if_ok in H. destruct H as (Ho & Hin & Hcap & [= <-]).
  apply bool_decide_eq_false in Hin. apply Nat.leb_gt in Hcap.
  assert (Hnc : sb_close b = NotClosed).
  { destruct (sb_close b) eqn:E; [done|..]; exfalso;
      (assert (sb_isClosed b = true) by (by apply Hcl)); congruence. }
  constructor; simpl; try done; try lia; try congruence.
  - intros x. unfold running; simpl. rewrite elem_of_union, elem_of_singleton, elem_of_cons, Ha. done.
  - unfold running; simpl. apply NoDup_cons. rewrite <- Ha. done.
  - unfold holding in *; simpl. lia.
Qed.

Lemma sup_inv_step b b' : sup_inv b -> sstep b b' -> sup_inv b'.
Proof.
  intros Hinv Hstep.
  inversion Hstep as [b0 d b0' Hd Hadm|b0 d l1 l2 Ht|b0 d l1 l2 Ht|b0 d l1 l2 Ht|b0 b0' Hpr|b0 n Hpr
    |b0 Hcl|b0 Hcl Hpr|b0 Hcl Hw]; subst.
  { by eapply begin_run_inv. }
  all: destruct Hinv as [Ia In Is Ic Iw Icl Ip Id].
  - unfold running in *. rewrite Ht, running_mid, decide_True in * by done.
    rewrite holding_mid in Is. rewrite length_app in Iw. simpl in Is, Iw.
    constructor; unfold running; simpl; rewrite ?running_mid, ?holding_mid, ?length_app; simpl; try done; try lia.
    + apply NoDup_app in In as (N1 & N12 & [N2 N3]%NoDup_cons). set_solver.
    + apply NoDup_app in In as (N1 & N12 & [N2 N3]%NoDup_cons). apply NoDup_app. set_solver.
    + intros Hdone. specialize (Id Hdone). by destruct l1.
  - unfold running in *. rewrite Ht, running_mid, decide_False in * by done.
    rewrite holding_mid in Is. rewrite length_app in Iw. simpl in Is, Iw.
    constructor; unfold running; simpl; rewrite ?running_mid, ?holding_mid, ?length_app; simpl; try done; try lia.
    intros Hdone. specialize (Id Hdone). by destruct l1.
  - unfold running in *. rewrite Ht, running_mid, decide_False in * by done.
    rewrite holding_mid in Is. rewrite length_app in Iw. simpl in Is, Iw.
    constructor; unfold running; simpl; rewrite ?filter_app, ?fmap_app, ?holding_app, ?length_app; try done; try lia.
    intros Hdone. specialize (Id Hdone). by destruct l1.
  - unfold probe_begin in Hpr. apply then_ok in Hpr as [Ho%fail_if_ok [= <-]].
    constructor; simpl; try done. intros Hc. exfalso.
    assert (sb_isClosed b = true) by (apply Icl; naive_solver congruence). congruence.
  - constructor; simpl; try done. intros Hc. specialize (Ip Hc). lia.
  - constructor; simpl; try done. naive_solver.
  - constructor; simpl; try done. rewrite Icl, Hcl. done.
  - constructor; simpl; try done.
    + rewrite Icl, Hcl. done.
    + intros _. apply Ip. by left.
    + intros _. apply length_zero_iff_nil. lia.
Qed.

Lemma sup_inv_init driver_nil maxActive b : NewSupervisedBackend driver_nil maxActive = Ok b -> sup_inv b.
Proof.
  unfold NewSupervisedBackend. intros [_ [= <-]]%then_ok.
  constructor; simpl; try done; try lia; try (unfold running; simpl; set_solver); try constructor; naive_solver.
Qed.

Lemma sup_inv_reachable b b' : sup_inv b -> rtc sstep b b' -> sup_inv b'.
Proof. intros Hb Hr. induction Hr; [done|]. apply IHHr. by eapply sup_inv_step. Qed.

Lemma capacity_constant b b' : sstep b b' -> sb_capacity b' = sb_capacity b.
Proof.
  intros H. inversion H; subst; try done.
  - unfold begin_run in *. repeat match goal with E : _ = Ok _ |- _ => apply then_ok in E as [_ E] end.
    by simplify_eq.
  - unfold probe_begin in *. repeat match goal with E : _ = Ok _ |- _ => apply then_ok in E as [_ E] end.
    by simplify_eq.
Qed.

Lemma running_le_holding l :
  (length (filter (fun t : string * phase => t.2 = InDriver) l) <= holding l)%nat.
Proof.
  unfold holding. induction l as [|[d []] l IH]; simpl; rewrite ?filter_cons; simpl;
    rewrite ?decide_True, ?decide_False by done; simpl; lia.
Qed.

(** Remaining work of a closing supervisor. *)
Definition phase_weight (t : string * phase) : nat :=
  match t.2 with InDriver => 3 | Unlisted => 2 | Freed => 1 end.

Definition close_weight (c : close_phase) : nat :=
  match c with NotClosed => 3 | DrainProbes => 2 | DrainWork => 1 | ClosedDone => 0 end.

Definition work_left (b : SupervisedBackend) : nat :=
  (sum_list_with phase_weight (sb_threads b) + sb_probes b + close_weight (sb_close b))%nat.

(** ** Properties *)

(** C16. Supervision: in every reachable state at most the configured number of
    workloads is inside the driver, no two of them have the same execution
    digest, and the active set is exactly theirs. *)
Theorem supervised_bounded driver_nil maxActive b b'
    (Hnew : NewSupervisedBackend driver_nil maxActive = Ok b) (Hrun : rtc sstep b b') :
  Z.of_nat (length (running b')) <= maxActive /\ NoDup (running b') /\
  (forall d, d ∈ sb_active b' <-> d ∈ running b').
Proof.
  assert (Hcap : sb_capacity b' = sb_capacity b).
  { clear Hnew. induction Hrun as [|b1 b2 b3 Hs _ IH]; [done|]. rewrite IH. by apply capacity_constant. }
  pose proof (sup_inv_reachable _ _ (sup_inv_init _ _ _ Hnew) Hrun) as [Ha Hn Hs Hc _ _ _ _].
  unfold NewSupervisedBackend in Hnew. apply then_ok in Hnew as [Hm%fail_if_ok [= <-]].
  simpl in Hcap. bool_props.
  split; [|done]. unfold running. rewrite length_fmap.
  pose proof (running_le_holding (sb_threads b')). lia.
Qed.

(** Synchronous drain: when [Close] has returned, no workload and no probe is
    running, and none can start any more; the driver is closed only after the
    last probe ended. *)
Theorem close_drains driver_nil maxActive b b' b''
    (Hnew : NewSupervisedBackend driver_nil maxActive = Ok b) (Hrun : rtc sstep b b')
    (Hclosed : sb_close b' = ClosedDone) (Hmore : rtc sstep b' b'') :
  sb_threads b'' = [] /\ sb_probes b'' = 0%nat /\ sb_close b'' = ClosedDone /\
  (forall d, begin_run b'' d = Err "isolated backend supervisor is closed").
Proof.
  assert (Hinv : sup_inv b') by (eapply sup_inv_reachable; [by eapply sup_inv_init|done]).
  assert (Hstill : sb_close b'' = ClosedDone).
  { clear Hrun Hnew. induction Hmore as [b1|b1 b2 b3 Hs _ IH]; [done|]. apply IH; [|by eapply sup_inv_step].
    destruct Hinv as [_ _ _ _ _ Icl _ Id]. specialize (Id Hclosed).
    assert (Hc : sb_isClosed b1 = true) by (apply Icl; congruence).
    inversion Hs; subst; simpl; try done; try congruence.
    - unfold begin_run in *. rewrite Hc in *. done.
    - unfold probe_begin in *. rewrite Hc in *. done. }
  assert (Hinv' : sup_inv b'') by (by eapply sup_inv_reachable).
  destruct Hinv' as [_ _ _ _ _ Icl Ip Id]. split_and!; auto.
  intros d. unfold begin_run. assert (Hc : sb_isClosed b'' = true) by (apply Icl; congruence). by rewrite Hc.
Qed.

(** [Close] terminates: once it was called every step of any goroutine
    strictly reduces the remaining work, and while it has not returned some step
    is possible (a driver call that returns, a probe that ends, or its own). *)
Theorem close_terminates driver_nil maxActive b b'
    (Hnew : NewSupervisedBackend driver_nil maxActive = Ok b) (Hrun : rtc sstep b b')
    (Hclosing : sb_close b' <> NotClosed) :
  (forall b'', sstep b' b'' -> (work_left b'' < work_left b')%nat /\ sb_close b'' <> NotClosed) /\
  (sb_close b' <> ClosedDone -> exists b'', sstep b' b'').
Proof.
  assert (Hinv : sup_inv b') by (eapply sup_inv_reachable; [by eapply sup_inv_init|done]).
  destruct Hinv as [_ _ _ _ Iw Icl _ _].
  assert (Hc : sb_isClosed b' = true) by (by apply Icl).
  split.
  - intros b'' Hs. unfold work_left.
    inversion Hs; subst; simpl;
      try (match goal with E : sb_threads _ = _ |- _ => rewrite E, !sum_list_with_app; simpl end);
      try (match goal with E : sb_close _ = _ |- _ => rewrite E; simpl end); try (split; [lia|done]).
    + unfold begin_run in *. rewrite Hc in *. done.
    + unfold probe_begin in *. rewrite Hc in *. done.
  - intros Hnd. destruct (sb_threads b') as [|[d ph] l] eqn:Ht.
    + destruct (sb_probes b') as [|n] eqn:Hp; [|eexists; by eapply st_probe_end].
      destruct (sb_close b') eqn:E; try done.
      * eexists. by apply st_close_driver.
      * eexists. by apply st_close_end.
    + destruct ph; eexists; [by eapply (st_delete _ _ [])|by eapply (st_free _ _ [])|by eapply (st_done _ _ [])].
Qed.

(** ** Witnesses *)

Module Samples.
Definition d1 : string := digest "one".
Definition b0 : SupervisedBackend :=
  {| sb_capacity := 2; sb_slots := 0; sb_active := ∅; sb_isClosed := false; sb_probes := 0; sb_wait := 0;
     sb_close := NotClosed; sb_threads := [] |}.
Definition b1 : SupervisedBackend :=
  {| sb_capacity := 2; sb_slots := 1; sb_active := {[d1]} ∪ ∅; sb_isClosed := false; sb_probes := 0;
     sb_wait := 1; sb_close := NotClosed; sb_threads := [(d1, InDriver)] |}.

Lemma run1 : rtc sstep b0 b1.
Proof. apply rtc_once, (st_begin_run b0 d1); [apply digest_matches | reflexivity]. Qed.

Definition c1 : SupervisedBackend := set_close b0 true 0 DrainProbes.
Definition c3 : SupervisedBackend := set_close b0 true 0 ClosedDone.

Lemma run_c1 : rtc sstep b0 c1.
Proof. apply rtc_once, (st_close_begin b0). reflexivity. Qed.

Lemma run_c3 : rtc sstep b0 c3.
Proof.
  eapply rtc_l; [by apply (st_close_begin b0)|].
  eapply rtc_l; [by apply (st_close_driver c1)|]. apply rtc_once.
  by apply (st_close_end (set_close b0 true 0 DrainWork)).
Qed.
End Samples.

Lemma supervised_bounded_witness : Z.of_nat (length (running Samples.b1)) <= 2.
Proof. apply (supervised_bounded false 2 Samples.b0 Samples.b1 eq_refl Samples.run1). Defined.

Lemma close_drains_witness :
  begin_run Samples.c3 Samples.d1 = Err "isolated backend supervisor is closed".
Proof.
  apply (close_drains false 2 Samples.b0 Samples.c3 Samples.c3 eq_refl Samples.run_c3 eq_refl (rtc_refl _ _)).
Defined.

Lemma close_terminates_witness : exists b'', sstep Samples.c1 b''.
Proof.
  apply (close_terminates false 2 Samples.b0 Samples.c1 eq_refl Samples.run_c1);
    intros H; discriminate H.
Defined.
