(* ===== verification/Gpu.v ===== *)
(** * executor/gpuisolation/client.go: exclusive GPU-device leases

    [Client] hands out the operator's device aliases to executions: [acquire]
    and [release] are the critical sections under its mutex, [RunIsolated] is
    the call that holds a lease around one backend call.  Concurrent calls of
    [RunIsolated] interleave as the steps of a transition system. *)

From S2P Require Import Prelude GoStd Sha256 Executor.

Definition MaxDevices : Z := 64.

Record Client := {
  cl_devices : list string;
  cl_leased : gmap string string;   (* alias -> owner *)
}.

Definition alias_char (c : ascii) : bool := is_lower c || is_digit c || Ascii.eqb c "-".

Definition validAlias (value : string) : bool :=
  if (len value <? 3) || (64 <? len value) || contains_str value ".." then false
  else str_forallb alias_char value.

(** The loop of [New]: every alias valid and different from its predecessor. *)
Definition valid_devices (devices : list string) : bool :=
  each_distinct (fun alias => alias) validAlias None devices.

Definition New (aliases : list string) (backend_nil : bool) : result Client :=
  fail_if ((llen aliases =? 0) || (MaxDevices <? llen aliases) || backend_nil)
    "invalid GPU isolation configuration" ;;;
  let devices := sort_Strings aliases in
  fail_if (negb (valid_devices devices)) "invalid GPU device alias" ;;;
  Ok {| cl_devices := devices; cl_leased := ∅ |}.

(** The size of the lease table and [Available]. *)
Definition Available (c : Client) : Z :=
  llen (cl_devices c) - Z.of_nat (size (cl_leased c)).

(** The allocation loop of [acquire]; [n] devices are still to be found. *)
Fixpoint take_free (owner : string) (n : nat) (devices : list string) (leased : gmap string string)
    : list string * gmap string string :=
  match devices with
  | [] => ([], leased)
  | alias :: rest =>
      match leased !! alias with
      | Some _ => take_free owner n rest leased
      | None =>
          let leased := <[alias := owner]> leased in
          match n with
          | O | S O => ([alias], leased)
          | S n => let '(ds, leased) := take_free owner n rest leased in (alias :: ds, leased)
          end
      end
  end.

Definition owns (c : Client) (owner : string) : bool :=
  existsb (fun kv => kv.2 =s? owner) (map_to_list (cl_leased c)).

Definition acquire (c : Client) (owner : string) (count : Z) : result (list string * Client) :=
  if (count <? 0) || (llen (cl_devices c) - Z.of_nat (size (cl_leased c)) <? count)
  then Err "GPU device capacity exhausted"
  else if count =? 0 then Ok ([], c)
  else if owns c owner then Err "execution already owns GPU devices"
  else let '(ds, leased) := take_free owner (Z.to_nat count) (cl_devices c) (cl_leased c) in
       Ok (ds, {| cl_devices := cl_devices c; cl_leased := leased |}).

Definition release_one (owner : string) (leased : gmap string string) (alias : string) : gmap string string :=
  if default "" (leased !! alias) =s? owner then delete alias leased else leased.

Definition release (c : Client) (owner : string) (devices : list string) : Client :=
  {| cl_devices := cl_devices c; cl_leased := foldl (release_one owner) (cl_leased c) devices |}.

(** What [RunIsolated] checks before it asks for a lease.  A nil context is
    [None]; [Some e] carries the error of the context. *)
Definition run_admissible (ctx : option (option string)) (backend_nil : bool) (request : ContainerRequest)
    : result unit :=
  match ctx with
  | None => Err "invalid GPU isolation request"
  | Some ctxErr =>
      fail_if (backend_nil || negb (is_ok (ValidateExecutionDigest (cr_ExecutionDigest request))))
        "invalid GPU isolation request" ;;;
      match ctxErr with Some e => Err e | None => Ok tt end ;;;
      fail_if (negb (Bool.eqb (cr_AllowGPU request) (0 <? lim_GPUDeviceCount (cr_Limits request))))
        "GPU isolation request is inconsistent"
  end.

(** What [RunIsolated] returns once the backend call ended. *)
Definition run_outcome (o : ClientOutcome) (ctxErr : option string) : result Result :=
  match o with
  | Panicked => Err "GPU isolation backend failed"
  | Returned _ (Some _) => Err "GPU isolation backend failed"
  | Returned r None => match ctxErr with Some e => Err e | None => Ok r end
  end.

(** One call of [RunIsolated] that runs alone: the backend gets the request, the
    input and the leased aliases; [late] is the error of the context after the
    backend returned. *)
Definition Backend : Type := ContainerRequest -> bytes -> list string -> ClientOutcome.

Definition RunIsolated (c : Client) (ctx : option (option string)) (backend : Backend)
    (request : ContainerRequest) (input : bytes) (late : option string) : result Result * Client :=
  match run_admissible ctx false request with
  | Err e => (Err e, c)
  | Ok _ =>
      match acquire c (cr_ExecutionDigest request) (lim_GPUDeviceCount (cr_Limits request)) with
      | Err e => (Err e, c)
      | Ok (devices, c1) =>
          (run_outcome (backend request input devices) late,
           release c1 (cr_ExecutionDigest request) devices)
      end
  end.

(** ** Concurrent calls

    A state is the client and the leases of the calls that are inside the
    backend: owner and devices, in the order they were acquired (latest first). *)
Record gstate := { gs_client : Client; gs_calls : list (string * list string) }.

Inductive gstep : gstate -> gstate -> Prop :=
| gs_acquire g owner count ds c' :
    acquire (gs_client g) owner count = Ok (ds, c') ->
    gstep g {| gs_client := c'; gs_calls := (owner, ds) :: gs_calls g |}
| gs_release g owner ds l1 l2 :
    gs_calls g = l1 ++ (owner, ds) :: l2 ->
    gstep g {| gs_client := release (gs_client g) owner ds; gs_calls := l1 ++ l2 |}.

(** ** Lemmas *)

Definition free (c : Client) : list string :=
  filter (fun a => cl_leased c !! a = None) (cl_devices c).

Lemma owns_spec c owner : owns c owner = true <-> exists a, cl_leased c !! a = Some owner.
Proof.
  unfold owns. rewrite existsb_exists. split.
  - intros ([a o] & Hin & He). simpl in He. apply String.eqb_eq in He as ->.
    apply list_elem_of_In, elem_of_map_to_list in Hin. eauto.
  - intros [a Ha]. exists (a, owner). split; [by apply list_elem_of_In, elem_of_map_to_list|].
    simpl. apply String.eqb_refl.
Qed.

Lemma filter_busy_insert (l : list string) (m : gmap string string) a o :
  a ∉ l ->
  filter (fun x => <[a := o]> m !! x = None) l = filter (fun x => m !! x = None) l.
Proof.
  induction l as [|x l IH]; intros Ha; [done|]. apply not_elem_of_cons in Ha as [Hx Ha].
  rewrite !filter_cons, IH by done. rewrite lookup_insert_ne by done. done.
Qed.

Lemma take_filter_not_elem (P : string -> Prop) `{!forall x, Decision (P x)} n l a :
  a ∉ l -> a ∉ take n (filter P l).
Proof.
  intros Ha Hin. apply Ha. eapply (elem_of_sublist _ (filter P l)) in Hin; [|apply sublist_take].
  by apply list_elem_of_filter in Hin as [_ ?].
Qed.

Definition lease_pairs (owner : string) (ds : list string) : list (string * string) :=
  (fun a => (a, owner)) <$> ds.

Lemma lease_pairs_keys owner ds : (lease_pairs owner ds).*1 = ds.
Proof. unfold lease_pairs. rewrite <- list_fmap_compose. apply list_fmap_id. Qed.

(** The loop takes the first free devices and writes exactly them. *)
Lemma take_free_spec owner n devices leased :
  NoDup devices -> (0 < n)%nat ->
  take_free owner n devices leased =
  (take n (filter (fun a => leased !! a = None) devices),
   list_to_map (lease_pairs owner (take n (filter (fun a => leased !! a = None) devices))) ∪ leased).
Proof.
  revert n leased. induction devices as [|a rest IH]; intros n leased Hnd Hn; simpl.
  { rewrite filter_nil, take_nil. cbn. by rewrite (left_id_L ∅ _). }
  apply NoDup_cons in Hnd as [Ha Hnd]. rewrite filter_cons.
  destruct (leased !! a) as [o|] eqn:E.
  { rewrite decide_False by done. by apply IH. }
  rewrite decide_True by done. destruct n as [|[|n]]; [lia| |].
  - simpl. f_equal. by rewrite <- insert_union_l, (left_id_L ∅ _).
  - rewrite IH by (done || lia). rewrite filter_busy_insert by done.
    cbn [take lease_pairs fmap list_fmap list_to_map foldr]. f_equal.
    rewrite <- insert_union_r; [by rewrite insert_union_l|].
    apply not_elem_of_list_to_map_1. fold (lease_pairs owner (take (S n) (filter (fun a => leased !! a = None) rest))).
    rewrite lease_pairs_keys. by apply take_filter_not_elem.
Qed.

(** Releasing what was leased last restores the table. *)
Lemma release_pairs owner ds (l : list (string * string)) :
  NoDup (ds ++ l.*1) ->
  foldl (release_one owner) (list_to_map (lease_pairs owner ds ++ l)) ds = list_to_map l.
Proof.
  induction ds as [|a ds IH]; intros Hnd; [done|]. apply NoDup_cons in Hnd as [Ha Hnd].
  cbn [foldl]. rewrite <- IH by done. f_equal. unfold release_one. simpl.
  rewrite lookup_insert_eq. simpl. rewrite String.eqb_refl. apply delete_insert_id.
  apply not_elem_of_list_to_map_1. by rewrite fmap_app, lease_pairs_keys.
Qed.

(** ** Invariant *)

Definition leases (calls : list (string * list string)) : list (string * string) :=
  calls ≫= (fun c => lease_pairs c.1 c.2).

Definition holders (calls : list (string * list string)) : list string :=
  fst <$> filter (fun c => c.2 <> []) calls.

Record gpu_inv (g : gstate) : Prop := {
  gi_devices : NoDup (cl_devices (gs_client g));
  gi_leased : cl_leased (gs_client g) = list_to_map (leases (gs_calls g));
  gi_nodup : NoDup (leases (gs_calls g)).*1;
  gi_known : (leases (gs_calls g)).*1 ⊆ cl_devices (gs_client g);
  gi_owners : NoDup (holders (gs_calls g));
}.

Lemma holders_cons o ds l : leases ((o, ds) :: l) = lease_pairs o ds ++ leases l.
Proof. done. Qed.

Lemma holders_app l1 l2 : leases (l1 ++ l2) = leases l1 ++ leases l2.
Proof. apply bind_app. Qed.

Lemma leases_keys calls : (leases calls).*1 = concat calls.*2.
Proof.
  induction calls as [|[o ds] l IH]; [done|]. rewrite holders_cons, fmap_app, lease_pairs_keys, IH. done.
Qed.

Lemma leases_mid l1 o ds l2 : leases (l1 ++ (o, ds) :: l2) ≡ₚ lease_pairs o ds ++ leases (l1 ++ l2).
Proof. rewrite !holders_app, holders_cons, !app_assoc. by rewrite (Permutation_app_comm (leases l1)). Qed.

Lemma holder_owns g owner :
  gpu_inv g -> owner ∈ holders (gs_calls g) <-> exists a, cl_leased (gs_client g) !! a = Some owner.
Proof.
  intros [_ Hl Hn _ _]. rewrite Hl. unfold holders. rewrite list_elem_of_fmap.
  setoid_rewrite <- (elem_of_list_to_map _ _ _ Hn). unfold leases.
  setoid_rewrite list_elem_of_bind. split.
  - intros ([o [|a ds]] & Ho & [Hne Hin]%list_elem_of_filter); [done|]. simpl in Ho. subst o.
    exists a, (owner, a :: ds). split; [|done]. apply list_elem_of_fmap. exists a. split; [done|by left].
  - intros (a & [o ds] & [x [[= -> ->] Hx]]%list_elem_of_fmap & Hin). exists (o, ds).
    split; [done|]. apply list_elem_of_filter. split; [|done]. cbn in Hx |- *. intros ->. by apply elem_of_nil in Hx.
Qed.

Lemma length_free_busy c :
  NoDup (cl_devices c) -> (forall a, a ∈ dom (cl_leased c) -> a ∈ cl_devices c) ->
  length (free c) = (length (cl_devices c) - size (cl_leased c))%nat.
Proof.
  intros Hnd Hsub.
  assert (Hd : free c ≡ₚ elements (list_to_set (cl_devices c) ∖ dom (cl_leased c) : gset string)).
  { apply NoDup_Permutation; [by apply NoDup_filter|apply NoDup_elements|]. intros a. unfold free.
    rewrite list_elem_of_filter, elem_of_elements, elem_of_difference, elem_of_list_to_set, not_elem_of_dom. tauto. }
  rewrite Hd. change (length (elements ?X)) with (size X).
  rewrite size_difference, size_list_to_set, size_dom; try done. intros a Ha. apply elem_of_list_to_set. auto.
Qed.

Lemma gpu_inv_free g : gpu_inv g -> Z.of_nat (length (free (gs_client g))) = Available (gs_client g).
Proof.
  intros [Hd Hl Hn Hk _]. unfold Available, llen.
  assert (Hs : size (cl_leased (gs_client g)) = length (leases (gs_calls g)).*1).
  { by rewrite Hl, map_size_list_to_map, length_fmap. }
  assert ((size (cl_leased (gs_client g)) <= length (cl_devices (gs_client g)))%nat).
  { rewrite Hs. by apply submseteq_length, NoDup_submseteq. }
  rewrite length_free_busy; [lia|done|]. intros a Ha. apply Hk. rewrite Hl, dom_list_to_map in Ha.
  by apply elem_of_list_to_set in Ha.
Qed.

Lemma acquire_inv g owner count ds c' :
  gpu_inv g -> acquire (gs_client g) owner count = Ok (ds, c') ->
  gpu_inv {| gs_client := c'; gs_calls := (owner, ds) :: gs_calls g |} /\
  cl_devices c' = cl_devices (gs_client g) /\ ds = take (Z.to_nat count) (free (gs_client g)) /\ llen ds = count.
Proof.
  intros Hg H. unfold acquire in H.
  destruct ((count <? 0) || _) eqn:Hcap; [done|]. bool_props.
  destruct (count =? 0) eqn:Hz.
  { simplify_eq. assert (count = 0) as -> by lia. split; [|split_and!; try done].
    destruct Hg. by constructor. }
  assert (Hlen : Z.of_nat (length (free (gs_client g))) = Available (gs_client g)) by (by apply gpu_inv_free).
  destruct (owns (gs_client g) owner) eqn:Hown; [done|].
  rewrite take_free_spec in H by (apply Hg || lia). fold (free (gs_client g)) in H.
  injection H as <- <-. unfold Available in Hlen.
  split; [|split_and!; try done; unfold llen; rewrite length_take; lia].
  pose proof Hg as [Hd Hl Hn Hk Ho].
  assert (Hfree : forall a, a ∈ take (Z.to_nat count) (free (gs_client g)) ->
    a ∈ cl_devices (gs_client g) /\ cl_leased (gs_client g) !! a = None).
  { intros a Ha. eapply elem_of_sublist in Ha; [|apply sublist_take].
    by apply list_elem_of_filter in Ha as [? ?]. }
  constructor; cbn [gs_client gs_calls cl_devices cl_leased]; rewrite ?holders_cons.
  - done.
  - by rewrite list_to_map_app, Hl.
  - rewrite fmap_app, lease_pairs_keys. apply NoDup_app. split_and!; [|intros a [_ Ha]%Hfree|done].
    + apply (sublist_NoDup _ (free (gs_client g))); [by apply NoDup_filter|apply sublist_take].
    + rewrite Hl in Ha. by apply not_elem_of_list_to_map_2.
  - rewrite fmap_app, lease_pairs_keys. intros a [Ha|Ha]%elem_of_app; [by apply Hfree|by apply Hk].
  - unfold holders. rewrite filter_cons. case_decide; [|done]. simpl. apply NoDup_cons. split; [|done].
    intros Hin%(holder_owns _ _ Hg). apply owns_spec in Hin. congruence.
Qed.

Lemma release_inv g owner ds l1 l2 :
  gpu_inv g -> gs_calls g = l1 ++ (owner, ds) :: l2 ->
  gpu_inv {| gs_client := release (gs_client g) owner ds; gs_calls := l1 ++ l2 |}.
Proof.
  intros [Hd Hl Hn Hk Ho] Hc. rewrite Hc in *.
  pose proof (leases_mid l1 owner ds l2) as Hp.
  assert (Hn' : NoDup (ds ++ (leases (l1 ++ l2)).*1)).
  { rewrite Hp, fmap_app, lease_pairs_keys in Hn. done. }
  constructor; cbn [gs_client gs_calls release cl_devices cl_leased].
  - done.
  - rewrite Hl, (list_to_map_proper _ _ Hn Hp). by apply release_pairs.
  - by apply NoDup_app in Hn' as (_ & _ & ?).
  - intros a Ha. apply Hk. rewrite Hp, fmap_app. apply elem_of_app. by right.
  - unfold holders in *. rewrite filter_app, fmap_app in *. rewrite filter_cons in Ho.
    case_decide; [|done]. simpl in Ho. apply NoDup_app in Ho as (N1 & N2 & [N3 N4]%NoDup_cons).
    apply NoDup_app. split_and!; [done| |done]. intros x Hx Hy. apply (N2 x Hx). by apply list_elem_of_further.
Qed.

(** A lease that was just acquired is released without a trace. *)
Lemma release_acquired g owner ds c' :
  gpu_inv g -> gpu_inv {| gs_client := c'; gs_calls := (owner, ds) :: gs_calls g |} ->
  cl_devices c' = cl_devices (gs_client g) -> release c' owner ds = gs_client g.
Proof.
  intros Hg Hg' Hd. pose proof (release_inv _ owner ds [] (gs_calls g) Hg' eq_refl) as [_ Hl _ _ _].
  destruct Hg as [_ Hl0 _ _ _]. cbn [gs_client gs_calls release cl_leased app] in Hl.
  unfold release. rewrite Hl, <- Hl0, Hd. by destruct (gs_client g).
Qed.

Lemma New_inv aliases backend_nil c :
  New aliases backend_nil = Ok c ->
  gpu_inv {| gs_client := c; gs_calls := [] |} /\ cl_devices c ≡ₚ aliases /\
  Forall (fun a => validAlias a = true) aliases.
Proof.
  unfold New. intros [_ [Hv%fail_if_ok [= <-]]%then_ok]%then_ok.
  assert (Hp : sort_Strings aliases ≡ₚ aliases) by apply sort_by_perm. bool_props.
  destruct (each_distinct_sorted (fun s => s) validAlias aliases Hv) as [Hnd Hva].
  rewrite list_fmap_id in Hnd. fold (sort_Strings aliases) in *.
  split; [|by rewrite Hp in Hva]. constructor; simpl; try done; try constructor. set_solver.
Qed.

Lemma gpu_inv_reachable g g' :
  gpu_inv g -> rtc gstep g g' -> gpu_inv g' /\ cl_devices (gs_client g') = cl_devices (gs_client g).
Proof.
  intros Hg Hr. induction Hr as [|g1 g2 g3 Hs _ IH]; [done|].
  inversion Hs; subst.
  - destruct (acquire_inv _ _ _ _ _ Hg H) as (Hg' & Hd & _). destruct (IH Hg') as [? ->]. done.
  - destruct (IH (release_inv _ _ _ _ _ Hg H)) as [? ->]. done.
Qed.

(** ** Properties *)

(** C30. Exclusive leases: in every state reached by concurrent calls no device is
    held by two calls, every held device is one the operator configured, no
    execution holds two leases, and [Available] counts exactly the devices that
    are not held. *)
Theorem gpu_leases_exclusive aliases backend_nil c g
    (Hnew : New aliases backend_nil = Ok c)
    (Hrun : rtc gstep {| gs_client := c; gs_calls := [] |} g) :
  NoDup (concat (gs_calls g).*2) /\ concat (gs_calls g).*2 ⊆ aliases /\ NoDup (holders (gs_calls g)) /\
  Available (gs_client g) = llen aliases - llen (concat (gs_calls g).*2).
Proof.
  destruct (New_inv _ _ _ Hnew) as (H0 & Hp & _).
  destruct (gpu_inv_reachable _ _ H0 Hrun) as [[Hd Hl Hn Hk Ho] Hsame]. simpl in Hsame.
  rewrite leases_keys in Hn, Hk. split_and!; [done| |done|].
  - intros a Ha. rewrite <- Hp, <- Hsame. by apply Hk.
  - unfold Available, llen. rewrite Hsame, Hp, Hl, map_size_list_to_map by (by rewrite leases_keys).
    by rewrite <- leases_keys, length_fmap.
Qed.

(** Exact allocation: in every reachable state [acquire] succeeds exactly when
    enough devices are free and the execution holds none (or asks for none); it
    then leases the first free devices in alias order, as many as asked for, and
    [release] gives back exactly the table it started from. *)
Theorem acquire_exact aliases backend_nil c g owner count
    (Hnew : New aliases backend_nil = Ok c)
    (Hrun : rtc gstep {| gs_client := c; gs_calls := [] |} g) :
  (is_ok (acquire (gs_client g) owner count) = true <->
     0 <= count <= Available (gs_client g) /\ (count = 0 \/ owner ∉ holders (gs_calls g))) /\
  (forall ds c', acquire (gs_client g) owner count = Ok (ds, c') ->
     llen ds = count /\ ds = take (Z.to_nat count) (free (gs_client g)) /\
     (forall x, x ∈ ds -> cl_leased (gs_client g) !! x = None) /\
     release c' owner ds = gs_client g).
Proof.
  destruct (New_inv _ _ _ Hnew) as (H0 & _ & _).
  destruct (gpu_inv_reachable _ _ H0 Hrun) as [Hg _]. split.
  - rewrite (holder_owns g owner Hg), <- owns_spec. unfold acquire. fold (Available (gs_client g)).
    destruct (count <? 0) eqn:E1; simpl; [split; [done|lia]|].
    destruct (Available (gs_client g) <? count) eqn:E2; simpl; [split; [done|lia]|].
    destruct (count =? 0) eqn:E3; simpl; [split; [lia|done]|].
    destruct (owns (gs_client g) owner) eqn:E4; [split; [done|naive_solver lia]|].
    destruct (take_free _ _ _ _). simpl. split; [|done]. intros _. split; [lia|by right].
  - intros ds c' H. destruct (acquire_inv _ _ _ _ _ Hg H) as (Hg' & Hd & Hds & Hlen).
    split_and!; [done|done| |].
    + intros x Hx. subst ds. eapply elem_of_sublist in Hx; [|apply sublist_take].
      by apply list_elem_of_filter in Hx as [? ?].
    + exact (release_acquired _ _ _ _ Hg Hg' Hd).
Qed.

(** A call gives its lease back: whatever the backend does (success, error,
    panic, or a late success after cancellation), [RunIsolated] leaves the lease
    table as it found it, never calls the backend without the exact number of
    devices asked for, and reports a success only for a backend that returned
    normally under a live context. *)
Theorem RunIsolated_balanced aliases c g ctx backend request input late r c'
    (Hnew : New aliases false = Ok c)
    (Hrun : rtc gstep {| gs_client := c; gs_calls := [] |} g)
    (Hcall : RunIsolated (gs_client g) ctx backend request input late = (r, c')) :
  c' = gs_client g /\
  (forall res, r = Ok res -> late = None /\ ctx = Some None /\ exists ds,
     llen ds = lim_GPUDeviceCount (cr_Limits request) /\ (forall x, x ∈ ds -> x ∈ free (gs_client g)) /\
     backend request input ds = Returned res None).
Proof.
  unfold RunIsolated in Hcall.
  destruct (run_admissible ctx false request) as [[]|e] eqn:Ha; [|by simplify_eq].
  destruct (acquire (gs_client g) _ _) as [[ds c1]|e] eqn:Hq; [|by simplify_eq].
  destruct (New_inv _ _ _ Hnew) as (H0 & _ & _).
  destruct (gpu_inv_reachable _ _ H0 Hrun) as [Hg _].
  destruct (acquire_inv _ _ _ _ _ Hg Hq) as (Hg' & Hd & Hds & Hlen).
  injection Hcall as <- <-. split.
  - exact (release_acquired _ _ _ _ Hg Hg' Hd).
  - intros res Hr. unfold run_outcome in Hr. destruct (backend _ _ _) as [r' [e|]|] eqn:Hb; try done.
    destruct late; [done|]. simplify_eq. split; [done|]. split.
    + unfold run_admissible in Ha. destruct ctx as [[e|]|]; try done. by result_inv.
    + eexists. split_and!; [done| |done]. intros x Hx. by eapply elem_of_sublist in Hx; [|apply sublist_take].
Qed.

(** ** Witnesses *)

Module Samples.
Definition c0 : Client := {| cl_devices := ["gpu-0"; "gpu-1"]; cl_leased := ∅ |}.
Lemma new0 : New ["gpu-1"; "gpu-0"] false = Ok c0.
Proof. vm_compute. reflexivity. Qed.

Definition c1 : Client := {| cl_devices := ["gpu-0"; "gpu-1"]; cl_leased := {["gpu-0" := "job"]} |}.
Definition g1 : gstate := {| gs_client := c1; gs_calls := [("job", ["gpu-0"])] |}.
Lemma gpu_run1 : rtc gstep {| gs_client := c0; gs_calls := [] |} g1.
Proof. apply rtc_once, (gs_acquire {| gs_client := c0; gs_calls := [] |} "job" 1 ["gpu-0"] c1). vm_compute. reflexivity. Qed.

Definition request : ContainerRequest :=
  {| cr_ExecutionDigest := digest "job"; cr_ImageDigest := ""; cr_Entrypoint := [];
     cr_WorkingDirectory := ""; cr_Environment := ∅; cr_WorkspaceArchive := false; cr_UserID := 1;
     cr_GroupID := 1; cr_ReadOnlyRoot := true; cr_NoNewPrivileges := true; cr_Network := "none";
     cr_AllowedHosts := []; cr_AllowGPU := true;
     cr_Limits := {| lim_CPUMillis := 1; lim_MemoryBytes := 1; lim_DiskBytes := 1; lim_PIDs := 1;
       lim_ExecutionTime := 1; lim_OutputBytes := 1; lim_GPUDeviceCount := 2 |} |}.
Definition backend : Backend := fun _ _ ds => if (llen ds =? 2) then Returned ZeroResult None else Panicked.
Lemma call0 : RunIsolated c0 (Some None) backend request "in" None = (Ok ZeroResult, c0).
Proof. vm_compute. reflexivity. Qed.
End Samples.

Lemma gpu_leases_exclusive_witness : Available Samples.c1 = 1.
Proof. apply (gpu_leases_exclusive _ _ _ Samples.g1 Samples.new0 Samples.gpu_run1). Defined.

Lemma acquire_exact_witness : is_ok (acquire Samples.c1 "other" 1) = true.
Proof.
  apply (acquire_exact _ _ _ Samples.g1 "other" 1 Samples.new0 Samples.gpu_run1).
  split; [vm_compute; split; discriminate|]. right. apply not_elem_of_cons. split; [discriminate|]. intros H. inversion H.
Defined.

Lemma RunIsolated_balanced_witness :
  exists ds, llen ds = 2 /\ Samples.backend Samples.request "in" ds = Returned ZeroResult None.
Proof.
  destruct (RunIsolated_balanced _ _ {| gs_client := Samples.c0; gs_calls := [] |} _ _ _ _ _ _ _
    Samples.new0 (rtc_refl _ _) Samples.call0) as [_ H].
  destruct (H ZeroResult eq_refl) as (_ & _ & ds & Hl & _ & Hb). exact (ex_intro _ ds (conj Hl Hb)).
Defined.
