(* ===== verification/Cgroup.v ===== *)
(** * pkg/probe/cgroup_linux.go: the effective memory and processors

    The probe reads /proc/self/cgroup and /proc/self/mountinfo, finds the control
    groups of the process, walks from each to the mount point and takes the
    smallest memory limit, processor quota and processor set it finds.

    [read] is the snapshot of the file system the probe sees: the contents of a
    file, or the error of opening it.  No file is read twice. *)

From S2P Require Import Prelude GoStd GoText FS.

Definition maxCgroupMembershipBytes : Z := Z.shiftl 64 10.
Definition maxMountInfoBytes : Z := Z.shiftl 1 20.
Definition maxCgroupScalarBytes : Z := Z.shiftl 4 10.
Definition maxCgroupLines : Z := 4096.
Definition maxCgroupMounts : Z := 64.
Definition maxControllersPerLine : Z := 32.
Definition maxCgroupDepth : nat := 128.
Definition maxResourcePathBytes : Z := 4096.
Definition MaxLogicalCPUs : Z := 4096.

Definition errLinuxResourceObservation : string := "invalid Linux resource observation".
Definition invalid {A} : result A := Err errLinuxResourceObservation.

(** [resourceReadFunc]. *)
Definition resourceRead : Type := string -> Z -> sys bytes.

(** A path with its [...Set] flag is an option. *)
Record cgroupMemberships := {
  cm_unified : option string;
  cm_memory : option string;
  cm_cpu : option string;
  cm_cpuset : option string;
}.

Record cgroupMount := {
  mt_version : Z;
  mt_root : string;
  mt_point : string;
  mt_memory : bool;
  mt_cpu : bool;
  mt_cpuset : bool;
}.

(** [readLimitedResourceFile] over the contents of a file. *)
Definition readLimitedResourceFile (open : string -> sys bytes) : resourceRead := fun path maximum =>
  if maximum <=? 0 then SErr EIO else
  match open path with
  | SErr e => SErr e
  | SOk data => if maximum <? len (str_take (Z.to_nat (maximum + 1)) data) then SErr EIO
                else SOk (str_take (Z.to_nat (maximum + 1)) data)
  end.

(** ** Text and paths *)

Definition decimalString (value : string) : bool :=
  if (value =s? "") || (20 <? len value) then false else str_forallb is_digit value.

Definition pathWithin (root candidate : string) : bool :=
  match filepath_Rel root candidate with
  | None => false
  | Some relative => (relative =s? ".") || ((relative <>s? "..") && negb (has_prefix relative "../"))
  end.

Definition cleanResourcePath (value : string) : result string :=
  if (value =s? "") || (maxResourcePathBytes <? len value) || negb (filepath_IsAbs value) || has_control value
  then invalid else
  let cleaned := path_Clean value in
  if cleaned <>s? value then invalid else Ok cleaned.

(** The loop of [decodeMountPath]. *)
Fixpoint decode_octal (value : string) : result string :=
  match value with
  | EmptyString => Ok ""
  | String c rest =>
      if negb (Ascii.eqb c "\") then let* decoded := decode_octal rest in Ok (String c decoded) else
      match rest with
      | String a (String b (String d rest')) =>
          let escape := String a (String b (String d "")) in
          let* byte := (if escape =s? "011" then Ok (ascii_of_nat 9)
                        else if escape =s? "012" then Ok (ascii_of_nat 10)
                        else if escape =s? "040" then Ok (ascii_of_nat 32)
                        else if escape =s? "134" then Ok "\"%char
                        else invalid) in
          let* decoded := decode_octal rest' in Ok (String byte decoded)
      | _ => invalid
      end
  end.

Definition decodeMountPath (value : string) : result string :=
  if (value =s? "") || (maxResourcePathBytes * 2 <? len value) then invalid else
  let* decoded := decode_octal value in cleanResourcePath decoded.

Definition boundedLines (data : bytes) (maximum : Z) : result (list string) :=
  if len data =? 0 then Ok [] else
  if contains_byte data "000" then invalid else
  let lines := str_split (ascii_of_nat 10) (trim_suffix data (String (ascii_of_nat 10) "")) in
  if maximum <? llen lines then invalid else
  if existsb (fun line => (line =s? "") || (maxResourcePathBytes * 2 <? len line)) lines then invalid else Ok lines.

(** ** /proc/self/cgroup *)

(** [if set && value != path { return error }; value, set = path, true]. *)
Definition set_once (old : option string) (path : string) : result (option string) :=
  match old with
  | Some value => if value <>s? path then invalid else Ok (Some path)
  | None => Ok (Some path)
  end.

Definition add_controller (path : string) (result : cgroupMemberships) (controller : string) : Prelude.result cgroupMemberships :=
  if controller =s? "memory" then
    let* memory := set_once (cm_memory result) path in
    Ok {| cm_unified := cm_unified result; cm_memory := memory; cm_cpu := cm_cpu result; cm_cpuset := cm_cpuset result |}
  else if controller =s? "cpu" then
    let* cpu := set_once (cm_cpu result) path in
    Ok {| cm_unified := cm_unified result; cm_memory := cm_memory result; cm_cpu := cpu; cm_cpuset := cm_cpuset result |}
  else if controller =s? "cpuset" then
    let* cpuset := set_once (cm_cpuset result) path in
    Ok {| cm_unified := cm_unified result; cm_memory := cm_memory result; cm_cpu := cm_cpu result; cm_cpuset := cpuset |}
  else if controller =s? "cpuacct" then Ok result
  else if (controller =s? "") || (64 <? len controller) then invalid else Ok result.

Fixpoint add_controllers (path : string) (result : cgroupMemberships) (controllers : list string)
    : Prelude.result cgroupMemberships :=
  match controllers with
  | [] => Ok result
  | c :: rest => let* result := add_controller path result c in add_controllers path result rest
  end.

Definition parse_membership (result : cgroupMemberships) (line : string) : Prelude.result cgroupMemberships :=
  match str_splitN 2 ":" line with
  | [id; names; p] =>
      if negb (decimalString id) then invalid else
      let* path := cleanResourcePath p in
      if names =s? "" then
        match cm_unified result with
        | Some _ => invalid
        | None => if id <>s? "0" then invalid else
            Ok {| cm_unified := Some path; cm_memory := cm_memory result; cm_cpu := cm_cpu result; cm_cpuset := cm_cpuset result |}
        end
      else
        let controllers := str_split "," names in
        if maxControllersPerLine <? llen controllers then invalid else add_controllers path result controllers
  | _ => invalid
  end.

Fixpoint parse_memberships (result : cgroupMemberships) (lines : list string) : Prelude.result cgroupMemberships :=
  match lines with
  | [] => Ok result
  | line :: rest => let* result := parse_membership result line in parse_memberships result rest
  end.

Definition no_memberships : cgroupMemberships :=
  {| cm_unified := None; cm_memory := None; cm_cpu := None; cm_cpuset := None |}.

Definition parseCgroupMemberships (data : bytes) : result cgroupMemberships :=
  let* lines := boundedLines data maxCgroupLines in parse_memberships no_memberships lines.

(** ** /proc/self/mountinfo *)

Definition setMountControllers (mount : cgroupMount) (options : string) : cgroupMount :=
  let options := str_split "," options in
  {| mt_version := mt_version mount; mt_root := mt_root mount; mt_point := mt_point mount;
     mt_memory := mt_memory mount || existsb (String.eqb "memory") options;
     mt_cpu := mt_cpu mount || existsb (String.eqb "cpu") options;
     mt_cpuset := mt_cpuset mount || existsb (String.eqb "cpuset") options |}.

Definition field (l : list string) (n : nat) : string := default "" (l !! n).

(** The mount of a line, if it is one of a control group. *)
Definition parse_mount (mounts : list cgroupMount) (line : string) : result (list cgroupMount) :=
  match str_cut line " - " with
  | None => invalid
  | Some (before, after) =>
      let left := strings_Fields before in
      let right := strings_Fields after in
      if (llen left <? 6) || (llen right <? 3) then invalid else
      let version := if field right 0 =s? "cgroup2" then 2 else if field right 0 =s? "cgroup" then 1 else 0 in
      if version =? 0 then Ok mounts else
      if maxCgroupMounts <=? llen mounts then invalid else
      let* root := decodeMountPath (field left 3) in
      let* point := decodeMountPath (field left 4) in
      let mount := {| mt_version := version; mt_root := root; mt_point := point;
                      mt_memory := false; mt_cpu := false; mt_cpuset := false |} in
      let mount := if version =? 1 then setMountControllers (setMountControllers mount (field left 5)) (field right 2)
                   else mount in
      Ok (mounts ++ [mount])
  end.

Fixpoint parse_mounts (mounts : list cgroupMount) (lines : list string) : result (list cgroupMount) :=
  match lines with
  | [] => Ok mounts
  | line :: rest => let* mounts := parse_mount mounts line in parse_mounts mounts rest
  end.

Definition parseCgroupMounts (data : bytes) : result (list cgroupMount) :=
  let* lines := boundedLines data maxCgroupLines in parse_mounts [] lines.

(** ** The group's directory *)

Definition mountHasController (mount : cgroupMount) (controller : string) : bool :=
  if mt_version mount =? 2 then controller =s? "" else
  if controller =s? "memory" then mt_memory mount else
  if controller =s? "cpu" then mt_cpu mount else
  if controller =s? "cpuset" then mt_cpuset mount else false.

Definition resolveCgroupPath (mount : cgroupMount) (membership : string) : option string :=
  match cleanResourcePath (mt_root mount), cleanResourcePath (mt_point mount), cleanResourcePath membership with
  | Ok root, Ok point, Ok member =>
      let relative :=
        if member =s? root then Some "."
        else if root =s? "/" then Some (trim_prefix member "/")
        else if has_prefix member (root +:+ "/") then Some (trim_prefix (trim_prefix member root) "/")
        else if member =s? "/" then Some "."
        else None in
      match relative with
      | None => None
      | Some relative =>
          let current := path_Clean (filepath_Join point relative) in
          if negb (pathWithin point current) || (maxResourcePathBytes <? len current) then None else Some current
      end
  | _, _, _ => None
  end.

(** The loop of [selectCgroupMount]: the selected mount with its directory. *)
Fixpoint select_loop (version : Z) (controller membership : string) (selected : option (cgroupMount * string))
    (mounts : list cgroupMount) : result (option (cgroupMount * string)) :=
  match mounts with
  | [] => Ok selected
  | mount :: rest =>
      if negb (mt_version mount =? version) || negb (mountHasController mount controller)
      then select_loop version controller membership selected rest else
      match resolveCgroupPath mount membership with
      | None => select_loop version controller membership selected rest
      | Some current =>
          match selected with
          | None => select_loop version controller membership (Some (mount, current)) rest
          | Some (best, selectedPath) =>
              if len (mt_root best) <? len (mt_root mount)
              then select_loop version controller membership (Some (mount, current)) rest
              else if (len (mt_root mount) =? len (mt_root best)) &&
                      ((mt_point mount <>s? mt_point best) || (current <>s? selectedPath))
              then invalid
              else select_loop version controller membership selected rest
          end
      end
  end.

Definition selectCgroupMount (mounts : list cgroupMount) (version : Z) (controller membership : string)
    : result (cgroupMount * string) :=
  let* selected := select_loop version controller membership None mounts in
  match selected with Some s => Ok s | None => invalid end.

(** ** The walk to the mount point *)

(** The loop of [walkCgroupAncestors] over the state the visitor keeps; [depth]
    iterations are left. *)
Fixpoint walk_loop {S : Type} (visit : S -> string -> result S) (root : string) (depth : nat) (s : S) (current : string)
    : result S :=
  match depth with
  | O => invalid
  | Datatypes.S depth' =>
      let* s := visit s current in
      if current =s? root then Ok s else
      let parent := filepath_Dir current in
      if (parent =s? current) || negb (pathWithin root parent) then invalid
      else walk_loop visit root depth' s parent
  end.

Definition walkCgroupAncestors {S : Type} (visit : S -> string -> result S) (s : S) (current root : string) : result S :=
  let current := path_Clean current in
  let root := path_Clean root in
  if negb (pathWithin root current) then invalid
  else walk_loop visit root (Datatypes.S maxCgroupDepth) s current.

(** [if minimum == 0 || value < minimum { minimum = value }]. *)
Definition take_minimum (minimum value : Z) : Z := if (minimum =? 0) || (value <? minimum) then value else minimum.

(** ** Limits *)

(** A limit, [None] for none. *)
Definition parseMemoryLimit (data : bytes) (allowMax : bool) : result (option Z) :=
  match strings_Fields data with
  | [f] =>
      if allowMax && (f =s? "max") then Ok None else
      match ParseUint f 64 with
      | Some value => if value =? 0 then invalid else Ok (Some value)
      | None => invalid
      end
  | _ => invalid
  end.

(** The visitor of [cgroupMemoryLimit]: the minimum and [foundFile]. *)
Definition visit_memory (filename : string) (allowMax requireFile : bool) (read : resourceRead)
    (s : Z * bool) (directory : string) : result (Z * bool) :=
  match read (filepath_Join directory filename) maxCgroupScalarBytes with
  | SErr ENOENT => if requireFile then invalid else Ok s
  | SErr _ => invalid
  | SOk data =>
      let* limit := parseMemoryLimit data allowMax in
      Ok (match limit with Some limit => take_minimum s.1 limit | None => s.1 end, true)
  end.

(** [(minimum, minimum != 0)] as an option. *)
Definition nonzero (minimum : Z) : option Z := if minimum =? 0 then None else Some minimum.

Definition cgroupMemoryLimit (mount : cgroupMount) (current filename : string) (allowMax requireFile : bool)
    (read : resourceRead) : result (option Z) :=
  let* s := walkCgroupAncestors (visit_memory filename allowMax requireFile read) (0, false) current (mt_point mount) in
  if requireFile && negb s.2 then invalid else Ok (nonzero s.1).

Definition quotaCPUCount (quota period : Z) : Z :=
  let count := quota / period in
  let count := if negb (quota mod period =? 0) then wrap64 (count + 1) else count in
  let count := if count =? 0 then 1 else count in
  if MaxLogicalCPUs <? count then MaxLogicalCPUs else count.

(** The processors a quota file grants in one directory. *)
Definition quota_v2 (read : resourceRead) (directory : string) : result (option Z) :=
  match read (filepath_Join directory "cpu.max") maxCgroupScalarBytes with
  | SErr ENOENT => Ok None
  | SErr _ => invalid
  | SOk data =>
      match strings_Fields data with
      | [q; p] =>
          match ParseUint p 64 with
          | None => invalid
          | Some period =>
              if period =? 0 then invalid else
              if q =s? "max" then Ok None else
              match ParseUint q 64 with
              | Some quota => if quota =? 0 then invalid else Ok (Some (quotaCPUCount quota period))
              | None => invalid
              end
          end
      | _ => invalid
      end
  end.

Definition quota_v1 (read : resourceRead) (directory : string) : result (option Z) :=
  match read (filepath_Join directory "cpu.cfs_quota_us") maxCgroupScalarBytes,
        read (filepath_Join directory "cpu.cfs_period_us") maxCgroupScalarBytes with
  | SOk quotaData, SOk periodData =>
      match strings_Fields quotaData, strings_Fields periodData with
      | [q], [p] =>
          match ParseInt q with
          | None => invalid
          | Some quota =>
              if (quota =? 0) || (quota <? -1) then invalid else
              match ParseUint p 64 with
              | None => invalid
              | Some period =>
                  if period =? 0 then invalid else
                  if quota =? -1 then Ok None else Ok (Some (quotaCPUCount (wrap64 quota) period))
              end
          end
      | _, _ => invalid
      end
  | _, _ => invalid
  end.

(** The visitor of [cgroupV1CPUQuota] and [cgroupV2CPUQuota]. *)
Definition visit_quota (quota : string -> result (option Z)) (minimum : Z) (directory : string) : result Z :=
  let* cpus := quota directory in
  Ok (match cpus with Some cpus => take_minimum minimum cpus | None => minimum end).

Definition cgroupV2CPUQuota (mount : cgroupMount) (current : string) (read : resourceRead) : result (option Z) :=
  let* minimum := walkCgroupAncestors (visit_quota (quota_v2 read)) 0 current (mt_point mount) in Ok (nonzero minimum).

Definition cgroupV1CPUQuota (mount : cgroupMount) (current : string) (read : resourceRead) : result (option Z) :=
  let* minimum := walkCgroupAncestors (visit_quota (quota_v1 read)) 0 current (mt_point mount) in Ok (nonzero minimum).

(** ** Processor sets *)

(** [for cpu := start; cpu <= end; cpu++]: the observed processors. *)
Fixpoint observe (n : nat) (cpu : Z) (observed : gset Z) : result (gset Z) :=
  match n with
  | O => Ok observed
  | S n' => if bool_decide (cpu ∈ observed) then invalid else observe n' (cpu + 1) ({[cpu]} ∪ observed)
  end.

(** The bounds of an item. *)
Definition cpu_bound (lo : Z) (s : string) : result Z :=
  match ParseInt s with
  | Some v => if (v <? lo) || (MaxLogicalCPUs <=? v) then invalid else Ok v
  | None => invalid
  end.

Definition cpu_range (item : string) : result (Z * Z) :=
  match str_split "-" item with
  | [a] => if a =s? "" then invalid else let* start := cpu_bound 0 a in Ok (start, start)
  | [a; b] =>
      if a =s? "" then invalid else
      let* start := cpu_bound 0 a in
      if b =s? "" then invalid else
      let* stop := cpu_bound start b in Ok (start, stop)
  | _ => invalid
  end.

Fixpoint parse_cpus (observed : gset Z) (items : list string) : result (gset Z) :=
  match items with
  | [] => Ok observed
  | item :: rest =>
      let* r := cpu_range item in
      let* observed := observe (Z.to_nat (r.2 - r.1 + 1)) r.1 observed in
      parse_cpus observed rest
  end.

(** [count] is the number of processors marked so far. *)
Definition parseCPUSet (data : bytes) : result Z :=
  let value := strings_TrimSpace data in
  if (value =s? "") || (maxCgroupScalarBytes <? len value) then invalid else
  let items := str_split "," value in
  if MaxLogicalCPUs <? llen items then invalid else
  let* observed := parse_cpus ∅ items in
  if Z.of_nat (size observed) =? 0 then invalid else Ok (Z.of_nat (size observed)).

(** The visitor of [cgroupV1CPUSet]: the count, once found. *)
Definition visit_cpuset (read : resourceRead) (found : option Z) (directory : string) : result (option Z) :=
  match found with
  | Some count => Ok (Some count)
  | None =>
      match read (filepath_Join directory "cpuset.cpus") maxCgroupScalarBytes with
      | SErr _ => invalid
      | SOk data => if strings_TrimSpace data =s? "" then Ok None else
                    let* parsed := parseCPUSet data in Ok (Some parsed)
      end
  end.

Definition cgroupV1CPUSet (mount : cgroupMount) (current : string) (read : resourceRead) : result (option Z) :=
  walkCgroupAncestors (visit_cpuset read) None current (mt_point mount).

(** ** The effective resources *)

(** [if limited && limit < current { current = limit }]. *)
Definition lower (current : Z) (limit : option Z) : Z :=
  match limit with Some l => if l <? current then l else current | None => current end.

Definition effective_memory (memberships : cgroupMemberships) (mounts : list cgroupMount) (systemMemory : Z)
    (read : resourceRead) : result Z :=
  match cm_memory memberships, cm_unified memberships with
  | Some path, _ =>
      let* (mount, current) := selectCgroupMount mounts 1 "memory" path in
      let* limit := cgroupMemoryLimit mount current "memory.limit_in_bytes" false true read in
      Ok (lower systemMemory limit)
  | None, Some path =>
      let* (mount, current) := selectCgroupMount mounts 2 "" path in
      let* limit := cgroupMemoryLimit mount current "memory.max" true false read in
      Ok (lower systemMemory limit)
  | None, None => Ok systemMemory
  end.

Definition effective_quota (memberships : cgroupMemberships) (mounts : list cgroupMount) (cpus : Z)
    (read : resourceRead) : result Z :=
  match cm_cpu memberships, cm_unified memberships with
  | Some path, _ =>
      let* (mount, current) := selectCgroupMount mounts 1 "cpu" path in
      let* quota := cgroupV1CPUQuota mount current read in Ok (lower cpus quota)
  | None, Some path =>
      let* (mount, current) := selectCgroupMount mounts 2 "" path in
      let* quota := cgroupV2CPUQuota mount current read in Ok (lower cpus quota)
  | None, None => Ok cpus
  end.

Definition effective_cpuset (memberships : cgroupMemberships) (mounts : list cgroupMount) (cpus : Z)
    (read : resourceRead) : result Z :=
  match cm_cpuset memberships, cm_unified memberships with
  | Some path, _ =>
      let* (mount, current) := selectCgroupMount mounts 1 "cpuset" path in
      let* count := cgroupV1CPUSet mount current read in Ok (lower cpus count)
  | None, Some path =>
      let* (mount, current) := selectCgroupMount mounts 2 "" path in
      match read (filepath_Join current "cpuset.cpus.effective") maxCgroupScalarBytes with
      | SOk data =>
          if strings_TrimSpace data =s? "" then invalid else
          let* count := parseCPUSet data in Ok (lower cpus (Some count))
      | SErr ENOENT => Ok cpus
      | SErr _ => invalid
      end
  | None, None => Ok cpus
  end.

(** Every error is [errLinuxResourceObservation]. *)
Definition observed {A} (r : sys A) : result A := match r with SOk a => Ok a | SErr _ => invalid end.

Definition effectiveLinuxResources (systemMemory systemCPUs : Z) (read : resourceRead) : result (Z * Z) :=
  if (systemMemory =? 0) || (systemCPUs <=? 0) then invalid else
  let* membershipData := observed (read "/proc/self/cgroup" maxCgroupMembershipBytes) in
  let* mountData := observed (read "/proc/self/mountinfo" maxMountInfoBytes) in
  let* memberships := parseCgroupMemberships membershipData in
  let* mounts := parseCgroupMounts mountData in
  let* memory := effective_memory memberships mounts systemMemory read in
  let cpus := if MaxLogicalCPUs <? systemCPUs then MaxLogicalCPUs else systemCPUs in
  let* cpus := effective_quota memberships mounts cpus read in
  let* cpus := effective_cpuset memberships mounts cpus read in
  if (memory =? 0) || (cpus <=? 0) then invalid else Ok (memory, cpus).

(** ** Lemmas on paths *)

Lemma cleanResourcePath_spec value p :
  cleanResourcePath value = Ok p -> p = value /\ filepath_IsAbs p = true /\ path_Clean p = p /\ len p <= maxResourcePathBytes.
Proof.
  unfold cleanResourcePath. destruct (_ || _ || _ || _) eqn:E; [done|]. cbn zeta.
  destruct (String.eqb_spec (path_Clean value) value) as [Hc|]; [|done]. cbn [negb]. intros [= <-]. bool_props.
  rewrite Hc. split_and!; [done|done|done|lia].
Qed.

Lemma join_parent x rest : proper (x :: rest) -> (str_join "/" (x :: rest) =s? "..") = false /\ has_prefix (str_join "/" (x :: rest)) "../" = false.
Proof.
  intros Hp. pose proof (str_split_join "/" (x :: rest) ltac:(done) (proper_no_slash _ Hp)) as Hs.
  apply Forall_cons in Hp as [(_ & _ & Hx & _) _]. split.
  - apply String.eqb_neq. intros E. rewrite E in Hs. injection Hs as <- _. done.
  - apply not_true_is_false. intros [t E]%has_prefix_spec. rewrite E in Hs. change ("../" +:+ t) with (".." +:+ String "/" t) in Hs.
    rewrite str_split_app in Hs by done. injection Hs as <- _. done.
Qed.

(** A path lies within another exactly if its components extend the other's. *)
Lemma pathWithin_render b t :
  proper b -> proper t -> pathWithin (render b) (render t) = true <-> exists rest, t = b ++ rest.
Proof.
  intros Hb Ht. unfold pathWithin, filepath_Rel. rewrite !clean_render, !render_abs by done. cbn [andb negb].
  destruct (String.eqb_spec (render b) (render t)) as [E|Hne].
  { apply render_inj in E as ->; [|done..]. split; [exists []; by rewrite app_nil_r|done]. }
  rewrite !components_render by done. destruct (strip_common b t) as [up down] eqn:E.
  destruct (strip_common_spec _ _ _ _ E) as (c & -> & ->).
  destruct up as [|u up]; [|rewrite fmap_cons]; cbn [app fmap list_fmap].
  - rewrite app_nil_r in *. split; [by eauto|]. intros _. destruct down as [|x rest]; [by rewrite app_nil_r in Hne|].
    apply Forall_app in Ht as [_ Ht]. destruct (join_parent x rest Ht) as [H1 H2]. by rewrite H1, H2, orb_true_r.
  - split.
    + intros H. exfalso. revert H. generalize (((fun _ : string => "..") <$> up) ++ down). intros [|y l] H; [vm_compute in H; discriminate H|].
      change (str_join "/" (".." :: y :: l)) with ("../" +:+ str_join "/" (y :: l)) in H. rewrite has_prefix_app in H.
      simpl in H. by rewrite ?andb_false_r in H.
    + intros [rest Hr]. exfalso. rewrite <- app_assoc in Hr. apply app_inv_head in Hr.
      assert (Hd : c ++ down = (c ++ u :: up) ++ rest) by (rewrite <- app_assoc; by f_equal).
      rewrite Hd, strip_common_prefix in E. discriminate E.
Qed.

(** ** The walk visits every directory up to the mount point *)

(** From [base] followed by the reversed [r], the directories upwards. *)
Fixpoint up (base r : list string) : list string :=
  match r with
  | [] => [render base]
  | _ :: r' => render (base ++ rev r) :: up base r'
  end.

Fixpoint visit_all {S : Type} (visit : S -> string -> result S) (s : S) (l : list string) : result S :=
  match l with
  | [] => Ok s
  | d :: l' => let* s := visit s d in visit_all visit s l'
  end.

Lemma walk_up {S : Type} (visit : S -> string -> result S) base r depth s :
  proper (base ++ rev r) -> (length r < depth)%nat ->
  walk_loop visit (render base) depth s (render (base ++ rev r)) = visit_all visit s (up base r).
Proof.
  revert depth s. induction r as [|c r IH]; intros depth s Hp Hd; (destruct depth as [|depth]; [simpl in Hd; lia|]).
  - simpl rev. rewrite app_nil_r. cbn [walk_loop up visit_all]. rewrite String.eqb_refl. by destruct (visit s (render base)).
  - assert (Hp' : proper (base ++ rev r)). { simpl in Hp. rewrite app_assoc in Hp. by apply Forall_app in Hp as [? _]. }
    assert (Hb : proper base) by (by apply Forall_app in Hp as [? _]).
    cbn [walk_loop up visit_all]. destruct (visit s (render (base ++ rev (c :: r)))) as [s'|e]; [|done]. cbn [rbind].
    assert (Hdir : filepath_Dir (render (base ++ rev (c :: r))) = render (base ++ rev r)).
    { simpl. rewrite app_assoc. apply dir_render. simpl in Hp. by rewrite app_assoc in Hp. }
    rewrite Hdir. destruct (String.eqb_spec (render (base ++ rev (c :: r))) (render base)) as [E|_].
    { apply render_inj in E; [|done..]. apply (f_equal length) in E. rewrite length_app, length_rev in E. simpl in E. lia. }
    destruct (String.eqb_spec (render (base ++ rev r)) (render (base ++ rev (c :: r)))) as [E|_].
    { apply render_inj in E; [|done..]. apply (f_equal length) in E. simpl in E. rewrite !length_app in E. simpl in E. lia. }
    cbn [orb]. rewrite (proj2 (pathWithin_render base (base ++ rev r) Hb Hp')) by eauto. cbn [negb].
    apply IH; [done|]. simpl in Hd. lia.
Qed.

(** A walk that succeeds was not too deep. *)
Lemma walk_depth {S : Type} (visit : S -> string -> result S) base r depth s s' :
  proper (base ++ rev r) ->
  walk_loop visit (render base) depth s (render (base ++ rev r)) = Ok s' -> (length r < depth)%nat.
Proof.
  revert depth s. induction r as [|c r IH]; intros depth s Hp H; (destruct depth as [|depth]; [done|]); simpl length; [lia|].
  assert (Hp' : proper (base ++ rev r)). { simpl in Hp. rewrite app_assoc in Hp. by apply Forall_app in Hp as [? _]. }
  assert (Hdir : filepath_Dir (render (base ++ rev (c :: r))) = render (base ++ rev r)).
  { simpl. rewrite app_assoc. apply dir_render. simpl in Hp. by rewrite app_assoc in Hp. }
  cbn [walk_loop] in H. apply rbind_ok in H as (s1 & _ & H). rewrite Hdir in H.
  destruct (String.eqb_spec (render (base ++ rev (c :: r))) (render base)) as [E|_].
  { apply render_inj in E; [|done|by apply Forall_app in Hp as [? _]].
    apply (f_equal length) in E. rewrite length_app, length_rev in E. simpl in E. lia. }
  case_match; [done|]. apply IH in H; [lia|done].
Qed.

(** [current] is a directory of the mount: the directories from it to the mount
    point, in the order of the walk. *)
Definition walk_of (current root : string) (dirs : list string) : Prop :=
  exists base r, proper (base ++ rev r) /\ path_Clean root = render base /\ path_Clean current = render (base ++ rev r) /\
    dirs = up base r.

Lemma walk_ok {S : Type} (visit : S -> string -> result S) s current root s' :
  filepath_IsAbs root = true -> filepath_IsAbs current = true ->
  walkCgroupAncestors visit s current root = Ok s' ->
  exists dirs, walk_of current root dirs /\ visit_all visit s dirs = Ok s'.
Proof.
  intros Hr Hc. unfold walkCgroupAncestors.
  destruct (clean_is_render root Hr) as (base & Hb & Eb), (clean_is_render current Hc) as (cs & Hcs & Ec). rewrite Eb, Ec.
  destruct (pathWithin (render base) (render cs)) eqn:Hw; [|done]. cbn [negb]. intros H.
  apply pathWithin_render in Hw as [rest ->]; [|done..]. rewrite <- (rev_involutive rest) in *.
  pose proof (walk_depth _ _ _ _ _ _ Hcs H) as Hd. rewrite walk_up in H by done. exists (up base (rev rest)).
  split; [|done]. by exists base, (rev rest).
Qed.

(** ** The minimum along a walk *)

(** What one directory contributes, and the minimum of the contributions. *)
Definition is_minimum (limit : string -> result (option Z)) (dirs : list string) (m : Z) : Prop :=
  (forall d l, d ∈ dirs -> limit d = Ok (Some l) -> m <= l) /\
  exists d, d ∈ dirs /\ limit d = Ok (Some m).

Lemma visit_quota_min limit dirs m m' :
  (forall d l, limit d = Ok (Some l) -> 0 < l) -> 0 <= m ->
  visit_all (visit_quota limit) m dirs = Ok m' ->
  (forall d, d ∈ dirs -> is_ok (limit d) = true) /\ 0 <= m' /\
  (m <> 0 -> 0 < m' <= m) /\
  (forall d l, d ∈ dirs -> limit d = Ok (Some l) -> 0 < m' <= l) /\
  (m' = m \/ exists d, d ∈ dirs /\ limit d = Ok (Some m')).
Proof.
  intros Hpos. revert m. induction dirs as [|d dirs IH]; intros m Hm H; simpl in H.
  { injection H as <-. split_and!; [by intros d ?%elem_of_nil|lia|lia|by intros d l ?%elem_of_nil|by left]. }
  apply rbind_ok in H as (m1 & Hv & H). unfold visit_quota in Hv. apply rbind_ok in Hv as (o & Ho & [= <-]).
  set (m1 := match o with Some cpus => take_minimum m cpus | None => m end) in *.
  assert (Hm1 : 0 <= m1 /\ (m <> 0 -> 0 < m1 <= m) /\ (forall l, o = Some l -> 0 < m1 <= l) /\ (m1 = m \/ o = Some m1)).
  { subst m1. destruct o as [l|]; [|split_and!; auto; try lia; done]. specialize (Hpos d l Ho). unfold take_minimum.
    destruct (Z.eqb_spec m 0), (Z.ltb_spec l m); cbn [orb]; split_and!; auto; try lia; intros ? [= <-]; lia. }
  destruct Hm1 as (H1 & H2 & H3 & H4). destruct (IH m1 H1 H) as (I1 & I2 & I3 & I4 & I5). split_and!.
  - intros d' [->|Hd']%elem_of_cons; [by rewrite Ho|auto].
  - done.
  - intros Hne. specialize (H2 Hne). specialize (I3 ltac:(lia)). lia.
  - intros d' l [->|Hd']%elem_of_cons Hl; [|by eapply I4]. rewrite Ho in Hl. injection Hl as ->. specialize (H3 l eq_refl).
    specialize (I3 ltac:(lia)). lia.
  - destruct I5 as [->|(d' & Hd' & Hl)]; [|right; exists d'; split; [by right|done]].
    destruct H4 as [->|Ho1]; [by left|right]. exists d. split; [by left|]. by rewrite Ho, Ho1.
Qed.

(** No directory sets a limit, or [m] is the smallest that one of them sets. *)
Definition tightest (limit : string -> result (option Z)) (dirs : list string) (o : option Z) : Prop :=
  match o with
  | None => forall d, d ∈ dirs -> limit d = Ok None
  | Some m => 0 < m /\ is_minimum limit dirs m
  end.

Lemma visit_quota_tightest limit dirs m :
  (forall d l, limit d = Ok (Some l) -> 0 < l) -> visit_all (visit_quota limit) 0 dirs = Ok m ->
  tightest limit dirs (nonzero m).
Proof.
  intros Hpos H. destruct (visit_quota_min limit dirs 0 m Hpos ltac:(lia) H) as (Hok & Hm & _ & Hall & Hex).
  unfold nonzero. destruct (Z.eqb_spec m 0) as [->|Hne]; simpl.
  - intros d Hd. destruct (limit d) as [[l|]|e] eqn:E; [|done|specialize (Hok d Hd); by rewrite E in Hok].
    specialize (Hall d l Hd E). lia.
  - split; [lia|]. destruct Hex as [->|Hex]; [done|]. split; [|done]. intros d l Hd Hl. by destruct (Hall d l Hd Hl).
Qed.

(** What [cgroupMemoryLimit] takes from one directory. *)
Definition memory_at (filename : string) (allowMax requireFile : bool) (read : resourceRead) (directory : string)
    : result (option Z) :=
  match read (filepath_Join directory filename) maxCgroupScalarBytes with
  | SErr ENOENT => if requireFile then invalid else Ok None
  | SErr _ => invalid
  | SOk data => parseMemoryLimit data allowMax
  end.

Lemma visit_memory_quota f a r read dirs s s' :
  visit_all (visit_memory f a r read) s dirs = Ok s' -> visit_all (visit_quota (memory_at f a r read)) s.1 dirs = Ok s'.1.
Proof.
  revert s. induction dirs as [|d dirs IH]; intros s H; simpl in *; [by injection H as <-|].
  apply rbind_ok in H as (s1 & Hv & H). apply IH in H. unfold visit_memory in Hv. unfold visit_quota at 1, memory_at.
  destruct (read (filepath_Join d f) maxCgroupScalarBytes) as [data|[]]; simpl in *.
  - apply rbind_ok in Hv as (o & -> & [= <-]). exact H.
  - destruct r; [done|]. injection Hv as <-. exact H.
  - done.
  - done.
Qed.

Lemma decimal_value_nonneg acc s : 0 <= acc -> str_forallb is_digit s = true -> 0 <= decimal_value acc s.
Proof.
  revert acc. induction s as [|c s IH]; intros acc Ha H; [done|]. simpl in H. apply andb_true_iff in H as [Hc Hs].
  cbn [decimal_value]. apply IH; [|done]. unfold is_digit, in_range in Hc. bool_props. unfold digit_value.
  change (code "0") with 48 in *. lia.
Qed.

Lemma ParseUint_bound s v : ParseUint s 64 = Some v -> u64 v.
Proof.
  unfold ParseUint. destruct (_ || _) eqn:E; [done|]. cbn zeta. destruct (Z.ltb_spec (decimal_value 0 s) (2 ^ 64)) as [Hlt|]; [|done].
  intros [= <-]. bool_props. split; [by apply decimal_value_nonneg|]. unfold two64. change (2 ^ 64) with 18446744073709551616 in Hlt. lia.
Qed.

Lemma memory_at_pos f a r read d l : memory_at f a r read d = Ok (Some l) -> 0 < l.
Proof.
  unfold memory_at, parseMemoryLimit. destruct (read _ _) as [data|[]]; try done; [|by destruct r].
  destruct (strings_Fields data) as [|x [|]]; try done. destruct (a && (x =s? "max")); [done|].
  destruct (ParseUint x 64) as [v|] eqn:Hv; [|done]. apply ParseUint_bound in Hv as [? _].
  destruct (Z.eqb_spec v 0); [done|]. intros [= <-]. lia.
Qed.

(** A quota is rounded up to whole processors, at least one and at most
    [MaxLogicalCPUs]. *)
Lemma quotaCPUCount_exact quota period :
  0 < quota < two64 -> 0 < period ->
  quotaCPUCount quota period = Z.min MaxLogicalCPUs ((quota + period - 1) / period) /\
  1 <= quotaCPUCount quota period <= MaxLogicalCPUs.
Proof.
  intros Hq Hp. unfold quotaCPUCount, MaxLogicalCPUs.
  assert (Hdiv : 0 <= quota / period < two64).
  { split; [apply Z.div_pos; lia|]. apply Z.div_lt_upper_bound; [lia|]. unfold two64 in *. nia. }
  pose proof (Z.div_mod quota period ltac:(lia)) as Hdm. pose proof (Z.mod_pos_bound quota period Hp) as Hmb.
  assert (Hceil : (quota + period - 1) / period = quota / period + (if quota mod period =? 0 then 0 else 1)).
  { symmetry. destruct (Z.eqb_spec (quota mod period) 0) as [E|E].
    - apply Z.div_unique_pos with (r := period - 1); lia.
    - apply Z.div_unique_pos with (r := quota mod period - 1); lia. }
  rewrite Hceil. destruct (Z.eqb_spec (quota mod period) 0) as [E|E]; cbn [negb].
  - assert (0 < quota / period) by nia. destruct (Z.eqb_spec (quota / period) 0); [lia|].
    destruct (Z.ltb_spec 4096 (quota / period)); lia.
  - assert (quota / period + 1 < two64).
    { destruct (Z.eq_dec period 1) as [->|]; [rewrite Z.mod_1_r in E; lia|].
      assert (quota / period < quota) by (apply Z.div_lt; lia). lia. }
    rewrite wrap64_small by (unfold u64; lia).
    destruct (Z.eqb_spec (quota / period + 1) 0); [lia|]. destruct (Z.ltb_spec 4096 (quota / period + 1)); lia.
Qed.

Lemma quota_v2_pos read d l : quota_v2 read d = Ok (Some l) -> 0 < l.
Proof.
  unfold quota_v2. destruct (read _ _) as [data|[]]; try done. destruct (strings_Fields data) as [|q [|p [|]]]; try done.
  destruct (ParseUint p 64) as [period|] eqn:Hp; [|done]. apply ParseUint_bound in Hp as [? _].
  destruct (Z.eqb_spec period 0); [done|]. destruct (q =s? "max"); [done|].
  destruct (ParseUint q 64) as [quota|] eqn:Hq; [|done]. apply ParseUint_bound in Hq.
  destruct (Z.eqb_spec quota 0); [done|]. intros [= <-]. destruct (quotaCPUCount_exact quota period) as [_ ?]; unfold u64 in *; lia.
Qed.

Lemma ParseInt_bound s v : ParseInt s = Some v -> i64 v.
Proof.
  unfold ParseInt. destruct (match s with EmptyString => _ | String _ _ => _ end) as [neg digits].
  destruct (ParseUint digits 64) as [u|] eqn:Hu; [|done]. apply ParseUint_bound in Hu as [? _]. unfold i64.
  destruct neg; [destruct (Z.ltb_spec two63 u)|destruct (Z.leb_spec two63 u)]; try done; unfold two63 in *; intros Hv; simplify_eq; lia.
Qed.

Lemma quota_v1_pos read d l : quota_v1 read d = Ok (Some l) -> 0 < l.
Proof.
  unfold quota_v1. destruct (read _ _) as [qd|]; [|done]. destruct (read _ _) as [pd|]; [|done].
  destruct (strings_Fields qd) as [|q [|]]; try done. destruct (strings_Fields pd) as [|p [|]]; try done.
  destruct (ParseInt q) as [quota|] eqn:Hq; [|done]. apply ParseInt_bound in Hq. destruct (_ || _) eqn:E; [done|]. bool_props.
  destruct (ParseUint p 64) as [period|] eqn:Hp; [|done]. apply ParseUint_bound in Hp as [? _].
  destruct (Z.eqb_spec period 0); [done|]. destruct (Z.eqb_spec quota (-1)); [done|]. intros [= <-].
  unfold i64, two63 in Hq. rewrite wrap64_small by (unfold u64, two64; lia).
  destruct (quotaCPUCount_exact quota period) as [_ ?]; unfold two64; lia.
Qed.

(** ** Processor sets *)

Lemma observe_spec n cpu l obs :
  NoDup l -> observe n cpu (list_to_set l) = Ok obs ->
  NoDup (l ++ seqZ cpu (Z.of_nat n)) /\ obs = list_to_set (l ++ seqZ cpu (Z.of_nat n)).
Proof.
  revert cpu l. induction n as [|n IH]; intros cpu l Hl H; cbn [observe] in H.
  { injection H as <-. rewrite app_nil_r. done. }
  destruct (bool_decide _) eqn:E; [done|]. bool_props. rewrite elem_of_list_to_set in E.
  assert (Hset : {[cpu]} ∪ list_to_set l = list_to_set (l ++ [cpu]) :> gset Z).
  { apply set_eq. intros x. rewrite elem_of_union, elem_of_singleton, !elem_of_list_to_set, elem_of_app, list_elem_of_singleton. tauto. }
  rewrite Hset in H. apply IH in H as [Hn ->].
  2: { apply NoDup_app. split_and!; [done| |apply NoDup_singleton]. intros x Hx ->%list_elem_of_singleton. done. }
  rewrite <- app_assoc in *. rewrite (seqZ_cons cpu (Z.of_nat (S n))) by lia. replace (Z.pred (Z.of_nat (S n))) with (Z.of_nat n) by lia.
  rewrite <- Z.add_1_r. split; [exact Hn|reflexivity].
Qed.

(** The processors an accepted list of items names, in order. *)
Definition cpus_of (ranges : list (Z * Z)) : list Z := ranges ≫= (fun r => seqZ r.1 (r.2 - r.1 + 1)).

Lemma cpu_bound_spec lo s v : cpu_bound lo s = Ok v -> lo <= v < MaxLogicalCPUs.
Proof. unfold cpu_bound. destruct (ParseInt s); [|done]. intros H. destruct (_ || _) eqn:E; [done|]. injection H as <-. bool_props. lia. Qed.

Lemma cpu_range_spec item r : cpu_range item = Ok r -> 0 <= r.1 <= r.2 /\ r.2 < MaxLogicalCPUs.
Proof.
  unfold cpu_range. destruct (str_split "-" item) as [|a [|b [|]]]; try done; intros H; (destruct (a =s? ""); [done|]);
    apply rbind_ok in H as (x & Hx%cpu_bound_spec & H).
  - injection H as <-. simpl. lia.
  - destruct (b =s? ""); [done|]. apply rbind_ok in H as (y & Hy%cpu_bound_spec & H). injection H as <-. simpl. lia.
Qed.

Lemma parse_cpus_spec items l obs :
  NoDup l -> parse_cpus (list_to_set l) items = Ok obs ->
  exists ranges, Forall2 (fun item r => cpu_range item = Ok r) items ranges /\
    NoDup (l ++ cpus_of ranges) /\ obs = list_to_set (l ++ cpus_of ranges).
Proof.
  revert l. induction items as [|item items IH]; intros l Hl H; cbn [parse_cpus] in H.
  { injection H as <-. exists []. simpl. rewrite app_nil_r. split_and!; [constructor|done|done]. }
  apply rbind_ok in H as (r & Hr & H). apply rbind_ok in H as (obs1 & Ho & H).
  pose proof (cpu_range_spec _ _ Hr) as Hb.
  apply observe_spec in Ho as [Hn ->]; [|done]. rewrite Z2Nat.id in * by lia.
  destruct (IH _ Hn H) as (ranges & HF & Hn' & ->). exists (r :: ranges). rewrite <- app_assoc in *.
  split_and!; [by constructor|done|done].
Qed.

Lemma cpus_of_bound items ranges :
  Forall2 (fun item r => cpu_range item = Ok r) items ranges -> Forall (fun c => 0 <= c < MaxLogicalCPUs) (cpus_of ranges).
Proof.
  induction 1 as [|item r items ranges Hr _ IH]; [constructor|]. apply Forall_app. split; [|exact IH].
  apply cpu_range_spec in Hr. apply Forall_forall. intros c Hc%elem_of_seqZ. lia.
Qed.

Lemma NoDup_range_length l n : NoDup l -> Forall (fun c => 0 <= c < n) l -> Z.of_nat (length l) <= n \/ n < 0.
Proof.
  intros Hn Hl. destruct (Z.ltb_spec n 0); [by right|left].
  assert (Hsub : l ⊆+ seqZ 0 n). { apply NoDup_submseteq; [done|]. intros c Hc. rewrite Forall_forall in Hl. apply elem_of_seqZ. specialize (Hl c Hc). lia. }
  apply submseteq_length in Hsub. rewrite length_seqZ in Hsub. lia.
Qed.

Lemma parseCPUSet_spec data n :
  parseCPUSet data = Ok n ->
  exists ranges, Forall2 (fun item r => cpu_range item = Ok r) (str_split "," (strings_TrimSpace data)) ranges /\
    NoDup (cpus_of ranges) /\ Forall (fun c => 0 <= c < MaxLogicalCPUs) (cpus_of ranges) /\
    n = llen (cpus_of ranges) /\ 1 <= n <= MaxLogicalCPUs.
Proof.
  unfold parseCPUSet. intros H. cbn zeta in H. destruct (_ || _); [done|]. destruct (MaxLogicalCPUs <? _); [done|].
  apply rbind_ok in H as (obs & Hp & H). destruct (Z.eqb_spec (Z.of_nat (size obs)) 0) as [|Hne]; [done|]. injection H as <-.
  change (∅ : gset Z) with (list_to_set [] : gset Z) in Hp. apply parse_cpus_spec in Hp as (ranges & HF & Hn & ->); [|apply NoDup_nil_2].
  rewrite app_nil_l in *. rewrite size_list_to_set in * by done. exists ranges. pose proof (cpus_of_bound _ _ HF) as Hb.
  destruct (NoDup_range_length _ _ Hn Hb) as [|]; unfold MaxLogicalCPUs, llen in *; [|lia]. split_and!; [done|done|done|done|lia|lia].
Qed.

(** ** Selection *)

Lemma select_loop_spec version controller membership sel mounts mount current :
  select_loop version controller membership sel mounts = Ok (Some (mount, current)) ->
  (mount ∈ mounts /\ resolveCgroupPath mount membership = Some current /\ mt_version mount = version /\
   mountHasController mount controller = true) \/ sel = Some (mount, current).
Proof.
  revert sel. induction mounts as [|m mounts IH]; intros sel H; cbn [select_loop] in H; [right; by injection H|].
  assert (Hin : forall s, select_loop version controller membership s mounts = Ok (Some (mount, current)) ->
    (mount ∈ m :: mounts /\ resolveCgroupPath mount membership = Some current /\ mt_version mount = version /\
     mountHasController mount controller = true) \/ s = Some (mount, current)).
  { intros s Hs. destruct (IH s Hs) as [(? & ?)|?]; [left; split; [by right|done]|by right]. }
  destruct (negb (mt_version m =? version) || negb (mountHasController m controller)) eqn:E; [auto|]. bool_props.
  destruct (resolveCgroupPath m membership) as [cur|] eqn:Hr; [|auto].
  assert (Hnew : select_loop version controller membership (Some (m, cur)) mounts = Ok (Some (mount, current)) ->
    (mount ∈ m :: mounts /\ resolveCgroupPath mount membership = Some current /\ mt_version mount = version /\
     mountHasController mount controller = true) \/ sel = Some (mount, current)).
  { intros Hs. destruct (Hin _ Hs) as [?|[= -> ->]]; left; [done|]. split_and!; [by left|done|done|done]. }
  destruct sel as [[best path]|]; [|auto]. destruct (len (mt_root best) <? len (mt_root m)); [auto|].
  case_match; [done|auto].
Qed.

(** The selected directory is a clean absolute path within the mount point. *)
Lemma select_spec mounts version controller membership mount current :
  selectCgroupMount mounts version controller membership = Ok (mount, current) ->
  mount ∈ mounts /\ filepath_IsAbs (mt_point mount) = true /\ filepath_IsAbs current = true /\ pathWithin (mt_point mount) current = true.
Proof.
  unfold selectCgroupMount. intros H. apply rbind_ok in H as (o & Ho & H). destruct o as [[m c]|]; [|done]. injection H as -> ->.
  apply select_loop_spec in Ho as [(Hin & Hr & _)|?]; [|done]. split; [done|]. unfold resolveCgroupPath in Hr.
  destruct (cleanResourcePath (mt_root mount)) as [root|]; [|done].
  destruct (cleanResourcePath (mt_point mount)) as [point|] eqn:Hp; [|done].
  destruct (cleanResourcePath membership) as [member|]; [|done]. apply cleanResourcePath_spec in Hp as (-> & Habs & _).
  cbn zeta in Hr. destruct (if member =s? root then _ else _) as [relative|]; [|done].
  destruct (negb (pathWithin _ _) || _) eqn:E; [done|]. injection Hr as <-. bool_props. split_and!; [done| |done].
  unfold filepath_Join. destruct (mt_point mount =s? "") eqn:Ee; bool_props; [by rewrite Ee in Habs|].
  assert (Hc : forall p, filepath_IsAbs p = true -> filepath_IsAbs (path_Clean p) = true).
  { intros p Hpa. rewrite path_Clean_abs by done. apply render_abs. }
  destruct (relative =s? ""); apply Hc, Hc; [done|]. apply has_prefix_spec in Habs as [t ->]. rewrite <- str_app_assoc. apply has_prefix_app.
Qed.

Lemma up_inj base r base' r' :
  proper (base ++ rev r) -> proper (base' ++ rev r') -> render base = render base' -> render (base ++ rev r) = render (base' ++ rev r') ->
  up base r = up base' r'.
Proof.
  intros H H' E1 E2. apply render_inj in E2; [|done..]. apply Forall_app in H as [H _], H' as [H' _].
  apply render_inj in E1 as ->; [|done..]. apply app_inv_head, (f_equal (@rev string)) in E2. rewrite !rev_involutive in E2. by subst.
Qed.

Lemma walk_of_unique current root dirs dirs' : walk_of current root dirs -> walk_of current root dirs' -> dirs = dirs'.
Proof. intros (b & r & Hp & E1 & E2 & ->) (b' & r' & Hp' & E1' & E2' & ->). apply up_inj; congruence. Qed.

(** ** The limits that apply to a process *)

Section Limits.
Context (memberships : cgroupMemberships) (mounts : list cgroupMount) (read : resourceRead).

(** Where the memory limits are: the group's mount and directory, and what one
    directory contributes. *)
Definition memory_source : option (result (cgroupMount * string) * (string -> result (option Z))) :=
  match cm_memory memberships, cm_unified memberships with
  | Some path, _ => Some (selectCgroupMount mounts 1 "memory" path, memory_at "memory.limit_in_bytes" false true read)
  | None, Some path => Some (selectCgroupMount mounts 2 "" path, memory_at "memory.max" true false read)
  | None, None => None
  end.

Definition quota_source : option (result (cgroupMount * string) * (string -> result (option Z))) :=
  match cm_cpu memberships, cm_unified memberships with
  | Some path, _ => Some (selectCgroupMount mounts 1 "cpu" path, quota_v1 read)
  | None, Some path => Some (selectCgroupMount mounts 2 "" path, quota_v2 read)
  | None, None => None
  end.

(** Some directory from the group's own up to the mount point sets the limit [l]. *)
Definition limits (source : option (result (cgroupMount * string) * (string -> result (option Z)))) (l : Z) : Prop :=
  exists mount current limit dirs d,
    source = Some (Ok (mount, current), limit) /\ walk_of current (mt_point mount) dirs /\ d ∈ dirs /\ limit d = Ok (Some l).

(** The number of processors of the set that applies: of the effective set in
    the unified hierarchy, else of the nearest directory that has one. *)
Definition cpuset_limits (n : Z) : Prop :=
  match cm_cpuset memberships, cm_unified memberships with
  | Some path, _ => exists mount current before d after data,
      selectCgroupMount mounts 1 "cpuset" path = Ok (mount, current) /\
      walk_of current (mt_point mount) (before ++ d :: after) /\
      Forall (fun b => exists t, read (filepath_Join b "cpuset.cpus") maxCgroupScalarBytes = SOk t /\ strings_TrimSpace t = "") before /\
      read (filepath_Join d "cpuset.cpus") maxCgroupScalarBytes = SOk data /\ parseCPUSet data = Ok n
  | None, Some path => exists mount current data,
      selectCgroupMount mounts 2 "" path = Ok (mount, current) /\
      read (filepath_Join current "cpuset.cpus.effective") maxCgroupScalarBytes = SOk data /\ parseCPUSet data = Ok n
  | None, None => False
  end.

Lemma lower_spec current o : lower current o <= current /\ (forall l, o = Some l -> lower current o <= l) /\
  (lower current o = current \/ o = Some (lower current o)).
Proof. unfold lower. destruct o as [l|]; [|split_and!; auto; [lia|done]]. destruct (Z.ltb_spec l current); split_and!; auto; try lia; intros ? [= <-]; lia. Qed.

(** A walk under a limit function lowers the value to its tightest limit. *)
Lemma lower_tightest source mount current limit dirs value o :
  source = Some (Ok (mount, current), limit) -> walk_of current (mt_point mount) dirs -> tightest limit dirs o ->
  lower value o <= value /\ (forall l, limits source l -> lower value o <= l) /\
  (lower value o = value \/ limits source (lower value o)) /\ (0 < value -> 0 < lower value o).
Proof.
  intros -> Hw Ht. destruct (lower_spec value o) as (H1 & H2 & H3). revert H1 H2 H3. generalize (lower value o).
  intros v H1 H2 H3. split_and!; [done| | |].
  - intros l (mount' & current' & limit' & dirs' & d & [= <- <- <-] & Hw' & Hd & Hl).
    rewrite (walk_of_unique _ _ _ _ Hw' Hw) in Hd. destruct o as [m|]; simpl in Ht.
    + destruct Ht as (_ & Hmin & _). specialize (Hmin d l Hd Hl). specialize (H2 m eq_refl). lia.
    + specialize (Ht d Hd). congruence.
  - destruct H3 as [?| ->]; [by left|right].
    destruct Ht as (_ & _ & d & Hd & Hl). by exists mount, current, limit, dirs, d.
  - intros Hv. destruct H3 as [->| ->]; [done|]. by destruct Ht.
Qed.

Lemma effective_memory_spec system m :
  effective_memory memberships mounts system read = Ok m ->
  m <= system /\ (forall l, limits memory_source l -> m <= l) /\ (m = system \/ limits memory_source m) /\ (0 < system -> 0 < m).
Proof.
  unfold effective_memory, memory_source.
  assert (Hgen : forall mount current f a r o,
    filepath_IsAbs (mt_point mount) = true -> filepath_IsAbs current = true ->
    cgroupMemoryLimit mount current f a r read = Ok o ->
    exists dirs, walk_of current (mt_point mount) dirs /\ tightest (memory_at f a r read) dirs o).
  { intros mount current f a r o Hp Hc H. unfold cgroupMemoryLimit in H. apply rbind_ok in H as (s & Hs & H).
    destruct (r && negb s.2); [done|]. injection H as <-. apply walk_ok in Hs as (dirs & Hw & Hv); [|done..]. exists dirs.
    split; [done|]. apply visit_quota_tightest; [apply memory_at_pos|]. by apply (visit_memory_quota f a r read dirs (0, false)). }
  destruct (cm_memory memberships) as [p|]; [|destruct (cm_unified memberships) as [p|]].
  3: { intros [= <-]. split_and!; [lia| |by left|done]. intros l (? & ? & ? & ? & ? & ? & _). done. }
  all: intros H; apply rbind_ok in H as ([mount current] & Hs & H); apply rbind_ok in H as (o & Ho & H); injection H as <-;
    destruct (select_spec _ _ _ _ _ _ Hs) as (_ & Hp & Hc & _); destruct (Hgen _ _ _ _ _ _ Hp Hc Ho) as (dirs & Hw & Ht);
    rewrite Hs; by eapply lower_tightest.
Qed.

Lemma effective_quota_spec cpus c :
  effective_quota memberships mounts cpus read = Ok c ->
  c <= cpus /\ (forall l, limits quota_source l -> c <= l) /\ (c = cpus \/ limits quota_source c) /\ (0 < cpus -> 0 < c).
Proof.
  unfold effective_quota, quota_source.
  assert (Hgen : forall mount current limit m,
    (forall d l, limit d = Ok (Some l) -> 0 < l) -> filepath_IsAbs (mt_point mount) = true -> filepath_IsAbs current = true ->
    walkCgroupAncestors (visit_quota limit) 0 current (mt_point mount) = Ok m ->
    exists dirs, walk_of current (mt_point mount) dirs /\ tightest limit dirs (nonzero m)).
  { intros mount current limit m Hpos Hp Hc H. apply walk_ok in H as (dirs & Hw & Hv); [|done..]. exists dirs.
    split; [done|]. by apply visit_quota_tightest. }
  destruct (cm_cpu memberships) as [p|]; [|destruct (cm_unified memberships) as [p|]].
  3: { intros [= <-]. split_and!; [lia| |by left|done]. intros l (? & ? & ? & ? & ? & ? & _). done. }
  all: intros H; apply rbind_ok in H as ([mount current] & Hs & H); apply rbind_ok in H as (o & Ho & H); injection H as <-;
    destruct (select_spec _ _ _ _ _ _ Hs) as (_ & Hp & Hc & _); apply rbind_ok in Ho as (m & Hm & Ho); injection Ho as <-.
  - destruct (Hgen _ _ _ _ (quota_v1_pos read) Hp Hc Hm) as (dirs & Hw & Ht). rewrite Hs. by eapply lower_tightest.
  - destruct (Hgen _ _ _ _ (quota_v2_pos read) Hp Hc Hm) as (dirs & Hw & Ht). rewrite Hs. by eapply lower_tightest.
Qed.

Lemma visit_cpuset_spec dirs o :
  visit_all (visit_cpuset read) None dirs = Ok o ->
  match o with
  | None => Forall (fun b => exists t, read (filepath_Join b "cpuset.cpus") maxCgroupScalarBytes = SOk t /\ strings_TrimSpace t = "") dirs
  | Some n => exists before d after data, dirs = before ++ d :: after /\
      Forall (fun b => exists t, read (filepath_Join b "cpuset.cpus") maxCgroupScalarBytes = SOk t /\ strings_TrimSpace t = "") before /\
      read (filepath_Join d "cpuset.cpus") maxCgroupScalarBytes = SOk data /\ parseCPUSet data = Ok n
  end.
Proof.
  induction dirs as [|d dirs IH]; cbn [visit_all]; [by intros [= <-]|]. unfold visit_cpuset at 1.
  destruct (read (filepath_Join d "cpuset.cpus") maxCgroupScalarBytes) as [data|] eqn:Hr; [|done].
  destruct (strings_TrimSpace data =s? "") eqn:He; bool_props; cbn [rbind].
  - intros H. specialize (IH H). destruct o as [n|]; [|constructor; eauto].
    destruct IH as (before & d' & after & data' & -> & Hb & Hr' & Hp). exists (d :: before), d', after, data'.
    split_and!; [done|constructor; eauto|done|done].
  - intros H. apply rbind_ok in H as (o1 & H1 & H). apply rbind_ok in H1 as (n & Hn & [= <-]).
    assert (Hfix : forall l, visit_all (visit_cpuset read) (Some n) l = Ok (Some n)) by (intros l; induction l; done).
    rewrite Hfix in H. injection H as <-. exists [], d, dirs, data. split_and!; [done|constructor|done|done].
Qed.

Lemma visit_cpuset_first before d after data n :
  Forall (fun b => exists t, read (filepath_Join b "cpuset.cpus") maxCgroupScalarBytes = SOk t /\ strings_TrimSpace t = "") before ->
  read (filepath_Join d "cpuset.cpus") maxCgroupScalarBytes = SOk data -> parseCPUSet data = Ok n ->
  visit_all (visit_cpuset read) None (before ++ d :: after) = Ok (Some n).
Proof.
  intros Hb Hr Hp. induction Hb as [|b before (t & Ht & Hblank) _ IH]; cbn [app visit_all].
  - unfold visit_cpuset at 1. rewrite Hr. destruct (strings_TrimSpace data =s? "") eqn:E.
    { unfold parseCPUSet in Hp. by rewrite E in Hp. }
    rewrite Hp. cbn [rbind]. induction after; done.
  - unfold visit_cpuset at 1. rewrite Ht, Hblank. exact IH.
Qed.

Lemma effective_cpuset_spec cpus c :
  effective_cpuset memberships mounts cpus read = Ok c ->
  c <= cpus /\ (forall l, cpuset_limits l -> c <= l) /\ (c = cpus \/ cpuset_limits c) /\ (0 < cpus -> 0 < c).
Proof.
  unfold effective_cpuset, cpuset_limits.
  destruct (cm_cpuset memberships) as [p|]; [|destruct (cm_unified memberships) as [p|]].
  3: { intros [= <-]. split_and!; [lia|done|by left|done]. }
  - intros H. apply rbind_ok in H as ([mount current] & Hs & H). apply rbind_ok in H as (o & Ho & [= <-]).
    destruct (select_spec _ _ _ _ _ _ Hs) as (_ & Hp & Hc & _). apply walk_ok in Ho as (dirs & Hw & Hv); [|done..].
    destruct (lower_spec cpus o) as (H1 & H2 & H3). revert H1 H2 H3. generalize (lower cpus o). intros v H1 H2 H3.
    pose proof (visit_cpuset_spec dirs o Hv) as Hspec. split_and!; [done| | |].
    + intros l (m' & c' & before & d & after & data & Hs' & Hw' & Hb & Hr & Hl). rewrite Hs in Hs'. injection Hs' as <- <-.
      rewrite (walk_of_unique _ _ _ _ Hw Hw'), (visit_cpuset_first before d after data l Hb Hr Hl) in Hv. injection Hv as <-. auto.
    + destruct H3 as [?| ->]; [by left|right]. destruct Hspec as (before & d & after & data & -> & Hb & Hr & Hl).
      by exists mount, current, before, d, after, data.
    + intros Hpos. destruct H3 as [->| ->]; [done|]. destruct Hspec as (_ & _ & _ & data & _ & _ & _ & Hl).
      apply parseCPUSet_spec in Hl as (_ & _ & _ & _ & _ & ?). lia.
  - intros H. apply rbind_ok in H as ([mount current] & Hs & H).
    destruct (read (filepath_Join current "cpuset.cpus.effective") maxCgroupScalarBytes) as [data|[]] eqn:Hr; [|injection H as <-|done|done].
    2: { split_and!; [lia| |by left|done]. intros l (m' & c' & data & Hs' & Hr' & _). rewrite Hs in Hs'. injection Hs' as <- <-. congruence. }
    destruct (strings_TrimSpace data =s? ""); [done|]. apply rbind_ok in H as (n & Hn & H).
    destruct (lower_spec cpus (Some n)) as (H1 & H2 & H3). injection H as <-.
    change (if n <? cpus then n else cpus) with (lower cpus (Some n)). revert H1 H2 H3. generalize (lower cpus (Some n)). intros v H1 H2 H3.
    split_and!; [done| | |].
    + intros l (m' & c' & data' & Hs' & Hr' & Hl). rewrite Hs in Hs'. injection Hs' as <- <-. rewrite Hr in Hr'. injection Hr' as <-.
      rewrite Hn in Hl. injection Hl as <-. auto.
    + destruct H3 as [?|[= <-]]; [by left|right]. by exists mount, current, data.
    + intros Hpos. destruct H3 as [->|[= <-]]; [done|]. apply parseCPUSet_spec in Hn as (_ & _ & _ & _ & _ & ?). lia.
Qed.
End Limits.

(** ** Mount paths *)

(** The escapes of /proc/self/mountinfo. *)
Fixpoint mangle (p : string) : string :=
  match p with
  | EmptyString => ""
  | String c p' =>
      if Ascii.eqb c (ascii_of_nat 9) then "\011" +:+ mangle p'
      else if Ascii.eqb c (ascii_of_nat 10) then "\012" +:+ mangle p'
      else if Ascii.eqb c " " then "\040" +:+ mangle p'
      else if Ascii.eqb c "\" then "\134" +:+ mangle p'
      else String c (mangle p')
  end.

Lemma decode_mangle p : decode_octal (mangle p) = Ok p.
Proof.
  induction p as [|c p IH]; [done|]. cbn [mangle].
  destruct (Ascii.eqb_spec c (ascii_of_nat 9)) as [->|_]; [simpl; by rewrite IH|].
  destruct (Ascii.eqb_spec c (ascii_of_nat 10)) as [->|_]; [simpl; by rewrite IH|].
  destruct (Ascii.eqb_spec c " ") as [->|_]; [simpl; by rewrite IH|].
  destruct (Ascii.eqb c "\") eqn:E; [apply Ascii.eqb_eq in E as ->; simpl; by rewrite IH|].
  cbn [decode_octal]. rewrite E. cbn [negb]. by rewrite IH.
Qed.

(** ** The whole observation *)

Lemma effective_resources_spec systemMemory systemCPUs read m c
    (Hmemory : 0 <= systemMemory)
    (Hobs : effectiveLinuxResources systemMemory systemCPUs read = Ok (m, c)) :
  0 < m <= systemMemory /\ 0 < c <= Z.min systemCPUs MaxLogicalCPUs /\
  exists memberships mounts,
    (exists data, read "/proc/self/cgroup" maxCgroupMembershipBytes = SOk data /\ parseCgroupMemberships data = Ok memberships) /\
    (exists data, read "/proc/self/mountinfo" maxMountInfoBytes = SOk data /\ parseCgroupMounts data = Ok mounts) /\
    (forall l, limits (memory_source memberships mounts read) l -> m <= l) /\
    (m = systemMemory \/ limits (memory_source memberships mounts read) m) /\
    (forall l, limits (quota_source memberships mounts read) l \/ cpuset_limits memberships mounts read l -> c <= l) /\
    (c = Z.min systemCPUs MaxLogicalCPUs \/ limits (quota_source memberships mounts read) c \/
     cpuset_limits memberships mounts read c).
Proof.
  unfold effectiveLinuxResources in Hobs. destruct (_ || _) eqn:E; [done|]. bool_props.
  apply rbind_ok in Hobs as (md & Hmd & K). apply rbind_ok in K as (td & Htd & K).
  apply rbind_ok in K as (memberships & Hms & K). apply rbind_ok in K as (mounts & Hmt & K).
  apply rbind_ok in K as (memory & Hm & K). cbn zeta in K. apply rbind_ok in K as (c1 & Hq & K).
  apply rbind_ok in K as (c2 & Hs & K). destruct (_ || _) eqn:E2; [done|]. injection K as <- <-.
  apply effective_memory_spec in Hm as (M1 & M2 & M3 & M4). apply effective_quota_spec in Hq as (Q1 & Q2 & Q3 & Q4).
  apply effective_cpuset_spec in Hs as (S1 & S2 & S3 & S4).
  assert (Hmin : (if MaxLogicalCPUs <? systemCPUs then MaxLogicalCPUs else systemCPUs) = Z.min systemCPUs MaxLogicalCPUs).
  { destruct (Z.ltb_spec MaxLogicalCPUs systemCPUs); lia. }
  rewrite Hmin in *. unfold MaxLogicalCPUs in *. split_and!; [lia|lia|lia|lia|]. exists memberships, mounts. unfold observed in Hmd, Htd.
  destruct (read "/proc/self/cgroup" _) as [x|]; [|done]. destruct (read "/proc/self/mountinfo" _) as [y|]; [|done].
  injection Hmd as ->. injection Htd as ->. split_and!; [by eauto|by eauto|done|done| |].
  - intros l [Hl|Hl]; [specialize (Q2 l Hl); lia|auto].
  - destruct S3 as [->|?]; [|by auto]. destruct Q3 as [->|?]; auto.
Qed.

(** ** Properties *)

(** C21. The probe reports the tightest limit: a successful observation lies
    within the host's memory and processors; the memory equals the host's or the
    smallest limit that any directory from the process's group up to the mount
    point sets, and the processors equal the host's count (at most 4096), the
    smallest quota rounded up, or the size of the processor set, whichever is
    least. *)
Theorem effective_resources_tight systemMemory systemCPUs read m c
    (Hmemory : 0 <= systemMemory)
    (Hobs : effectiveLinuxResources systemMemory systemCPUs read = Ok (m, c)) :
  0 < m <= systemMemory /\ 0 < c <= Z.min systemCPUs MaxLogicalCPUs /\
  exists memberships mounts,
    (exists data, read "/proc/self/cgroup" maxCgroupMembershipBytes = SOk data /\ parseCgroupMemberships data = Ok memberships) /\
    (exists data, read "/proc/self/mountinfo" maxMountInfoBytes = SOk data /\ parseCgroupMounts data = Ok mounts) /\
    (forall l, limits (memory_source memberships mounts read) l -> m <= l) /\
    (m = systemMemory \/ limits (memory_source memberships mounts read) m) /\
    (forall l, limits (quota_source memberships mounts read) l \/ cpuset_limits memberships mounts read l -> c <= l) /\
    (c = Z.min systemCPUs MaxLogicalCPUs \/ limits (quota_source memberships mounts read) c \/
     cpuset_limits memberships mounts read c).
Proof. by apply effective_resources_spec. Qed.

(** A processor set is counted exactly: the items name the ranges of the
    count's processors, no processor twice, and every one below 4096. *)
Theorem cpuset_counted data n
    (Hparse : parseCPUSet data = Ok n) :
  exists ranges, Forall2 (fun item r => cpu_range item = Ok r) (str_split "," (strings_TrimSpace data)) ranges /\
    NoDup (cpus_of ranges) /\ Forall (fun c => 0 <= c < MaxLogicalCPUs) (cpus_of ranges) /\
    n = llen (cpus_of ranges) /\ 1 <= n <= MaxLogicalCPUs.
Proof. by apply parseCPUSet_spec. Qed.

(** Mount paths round trip: what the kernel escapes in mountinfo is decoded to
    the path itself, for every path the probe accepts. *)
Theorem mount_path_roundtrip p
    (Hclean : cleanResourcePath p = Ok p) (Hlen : len (mangle p) <= maxResourcePathBytes * 2) :
  decodeMountPath (mangle p) = Ok p.
Proof.
  unfold decodeMountPath. rewrite decode_mangle. cbn [rbind].
  destruct (mangle p =s? "") eqn:E; bool_props.
  { destruct p as [|c p]; [by vm_compute in Hclean|]. simpl in E. repeat case_match; done. }
  destruct (Z.ltb_spec (maxResourcePathBytes * 2) (len (mangle p))); [lia|]. done.
Qed.

(** ** A run and the witnesses *)

Module CgroupSamples.
Definition nl : string := String (ascii_of_nat 10) "".
Definition files : list (string * string) := [
  ("/proc/self/cgroup", "0::/tenant/job" +:+ nl);
  ("/proc/self/mountinfo", "35 25 0:30 / /sys/fs/cgroup rw,nosuid,nodev,noexec,relatime - cgroup2 cgroup2 rw" +:+ nl);
  ("/sys/fs/cgroup/tenant/job/memory.max", "34359738368" +:+ nl);
  ("/sys/fs/cgroup/tenant/memory.max", "8589934592" +:+ nl);
  ("/sys/fs/cgroup/memory.max", "max" +:+ nl);
  ("/sys/fs/cgroup/tenant/job/cpu.max", "350000 100000" +:+ nl);
  ("/sys/fs/cgroup/tenant/cpu.max", "200000 100000" +:+ nl);
  ("/sys/fs/cgroup/cpu.max", "max 100000" +:+ nl);
  ("/sys/fs/cgroup/tenant/job/cpuset.cpus.effective", "0-7" +:+ nl)].
Fixpoint find (l : list (string * string)) (p : string) : sys bytes :=
  match l with
  | [] => SErr ENOENT
  | (q, data) :: l' => if p =s? q then SOk data else find l' p
  end.
Definition read : resourceRead := readLimitedResourceFile (find files).
End CgroupSamples.

Lemma effective_resources_tight_witness :
  0 < 8589934592 <= 68719476736 /\ 0 < 2 <= Z.min 32 MaxLogicalCPUs.
Proof.
  destruct (effective_resources_tight 68719476736 32 CgroupSamples.read 8589934592 2) as (H1 & H2 & _);
    [lia|vm_compute; reflexivity|]. split; [exact H1|exact H2].
Defined.

Lemma cpuset_counted_witness : exists ranges, NoDup (cpus_of ranges) /\ 7 = llen (cpus_of ranges).
Proof.
  destruct (cpuset_counted ("0-3,8,10-11" +:+ CgroupSamples.nl) 7) as (ranges & _ & H1 & _ & H2 & _); [vm_compute; reflexivity|].
  exists ranges. split; [exact H1|exact H2].
Defined.

Lemma mount_path_roundtrip_witness : decodeMountPath (mangle "/sys/fs/my cgroup\x") = Ok "/sys/fs/my cgroup\x".
Proof. apply mount_path_roundtrip; [vm_compute; reflexivity|]. vm_compute. discriminate. Defined.

(** A cgroup mounted below a directory with a tab in its name cannot be
    observed: the escape is decoded, then refused as a control character. *)
Example tab_refused : decodeMountPath ("/sys/fs/a" +:+ "\011" +:+ "b") = invalid.
Proof. vm_compute. reflexivity. Qed.
