(* ===== verification/Probe.v ===== *)
(** * pkg/probe: host.go, nvidia.go, nvml.go and memory_linux.go

    The report of the host and its NVIDIA devices, collected from an untrusted
    hardware library, and the validation the report passes before admission
    relies on it.

    A call of the library returns, fails or panics; the clock is an argument. *)

From S2P Require Import Prelude GoStd Sha256 GoText Utf8 FS Cgroup.

Definition maxHostOSBytes : Z := 32.
Definition maxArchitectureBytes : Z := 32.
Definition DefaultMaxGPUDevices : Z := 16.
Definition maxDeviceNameBytes : Z := 96.
Definition maxDriverBytes : Z := 64.
Definition maxTemperatureC : Z := 150.

Definition EvidenceLocallyObserved : string := "locally-observed".

(** Times are nanoseconds since the epoch; [time.Time{}] is the year one. *)
Definition IsZero (t : Z) : bool := t =? - 62135596800 * time_Second.

Record Host := {
  ho_OS : string;
  ho_Architecture : string;
  ho_LogicalCPUs : Z;
  ho_MemoryBytes : Z;
  ho_CollectedAt : Z;
  ho_Evidence : string;
}.

Record NVIDIADevice := {
  nd_Index : Z;
  nd_Class : string;
  nd_VRAMBytes : Z;
  nd_VRAMUsedBytes : Z;
  nd_CUDAComputeMajor : Z;
  nd_CUDAComputeMinor : Z;
  nd_TemperatureC : option Z;
  nd_PowerMilliwatts : option Z;
  nd_PowerLimitMilliwatts : option Z;
  nd_PowerState : string;
}.

Record NVIDIAReport := {
  nr_Status : string;
  nr_DriverVersion : string;
  nr_Devices : list NVIDIADevice;
  nr_CollectedAt : Z;
  nr_Evidence : string;
}.

Record Report := { re_Host : Host; re_NVIDIA : NVIDIAReport }.

(** ** The hardware library *)

Inductive call (A : Type) := Value (a : A) | Failed | Panicked.
Arguments Value {A} a.
Arguments Failed {A}.
Arguments Panicked {A}.

Record NVIDIADeviceBackend := {
  db_Name : call string;
  db_Memory : call (Z * Z);              (* total, used *)
  db_ComputeCapability : call (Z * Z);   (* major, minor *)
  db_TemperatureC : call Z;
  db_PowerMilliwatts : call (Z * Z);     (* used, limit *)
}.

Record NVIDIABackend := {
  nb_Init : call unit;
  nb_Shutdown : call unit;
  nb_DriverVersion : call string;
  nb_DeviceCount : call Z;
  nb_Device : Z -> call NVIDIADeviceBackend;
}.

(** ** nvml.go

    A call of the NVML library gives a value and whether its return code is
    [nvml.SUCCESS], or it panics ([None]). *)
Definition nvml_call (A : Type) : Type := option (A * bool).

Record nvmlInterface (D : Type) := {
  lib_Init : nvml_call unit;
  lib_Shutdown : nvml_call unit;
  lib_SystemGetDriverVersion : nvml_call string;
  lib_DeviceGetCount : nvml_call Z;
  lib_DeviceGetHandleByIndex : Z -> nvml_call D;
  lib_DeviceGetName : D -> nvml_call string;
  lib_DeviceGetMemoryInfo : D -> nvml_call (Z * Z);
  lib_DeviceGetCudaComputeCapability : D -> nvml_call (Z * Z);
  lib_DeviceGetTemperature : D -> nvml_call Z;
  lib_DeviceGetPowerUsage : D -> nvml_call Z;
  lib_DeviceGetPowerManagementLimit : D -> nvml_call Z;
}.

(** The value of a call with [nvmlError] of its code. *)
Definition nvmlError {A} (r : nvml_call A) : call A :=
  match r with
  | Some (a, true) => Value a
  | Some (_, false) => Failed
  | None => Panicked
  end.

(** [nvmlDevice.PowerMilliwatts]: both values are read before the first code is
    looked at. *)
Definition nvml_power (used limit : nvml_call Z) : call (Z * Z) :=
  match nvmlError used, nvmlError limit with
  | Panicked, _ | _, Panicked => Panicked
  | Value u, Value l => Value (u, l)
  | _, _ => Failed
  end.

Section NVML.
Context {D : Type} (library : nvmlInterface D).

Definition nvmlDevice (device : D) : NVIDIADeviceBackend :=
  {| db_Name := nvmlError (lib_DeviceGetName D library device);
     db_Memory := nvmlError (lib_DeviceGetMemoryInfo D library device);
     db_ComputeCapability := nvmlError (lib_DeviceGetCudaComputeCapability D library device);
     db_TemperatureC := nvmlError (lib_DeviceGetTemperature D library device);
     db_PowerMilliwatts := nvml_power (lib_DeviceGetPowerUsage D library device)
                             (lib_DeviceGetPowerManagementLimit D library device) |}.

Definition NVMLBackend : NVIDIABackend :=
  {| nb_Init := nvmlError (lib_Init D library);
     nb_Shutdown := nvmlError (lib_Shutdown D library);
     nb_DriverVersion := nvmlError (lib_SystemGetDriverVersion D library);
     nb_DeviceCount := nvmlError (lib_DeviceGetCount D library);
     nb_Device index := match nvmlError (lib_DeviceGetHandleByIndex D library index) with
                        | Value device => Value (nvmlDevice device)
                        | Failed => Failed
                        | Panicked => Panicked
                        end |}.
End NVML.

(** ** Text *)

Definition replacement : rune := Rune RuneError (string_of_bytes [239; 191; 189]).

(** The mapping of [strings.Map]: control characters are dropped, invalid bytes
    become the replacement character. *)
Definition map_printable (l : list rune) : list rune :=
  l ≫= (fun r => if IsControl (r_value r) then [] else if invalid_byte r then [replacement] else [r]).

(** [for len(value) > maximum] drop the last rune; the list is reversed. *)
Fixpoint drop_last_runes (maximum : Z) (l : list rune) : list rune :=
  match l with
  | [] => []
  | _ :: l' => if len (rune_text (rev l)) <=? maximum then l else drop_last_runes maximum l'
  end.

Definition boundedPrintable (value : string) (maximum : Z) : string :=
  rune_text (rev (drop_last_runes maximum (rev (map_printable (runes value))))).

(** ** Collecting the devices *)

(** What one call contributes to a device, and whether the report is degraded. *)
Definition class_of (name : call string) : string * bool :=
  match name with Value name => (boundedPrintable name maxDeviceNameBytes, false) | _ => ("", true) end.

Definition memory_of (memory : call (Z * Z)) : Z * Z * bool :=
  match memory with
  | Value (total, used) => if (0 <? total) && (used <=? total) then (total, used, false) else (0, 0, true)
  | _ => (0, 0, true)
  end.

Definition capability_of (capability : call (Z * Z)) : Z * Z * bool :=
  match capability with
  | Value (major, minor) =>
      if (1 <=? major) && (major <=? 99) && (0 <=? minor) && (minor <=? 99) then (major, minor, false) else (0, 0, true)
  | _ => (0, 0, true)
  end.

Definition temperature_of (temperature : call Z) : option Z * bool :=
  match temperature with
  | Value t => if t <=? maxTemperatureC then (Some t, false) else (None, true)
  | _ => (None, false)
  end.

Definition power_of (power : call (Z * Z)) : option Z * option Z * string * bool :=
  match power with
  | Value (used, limit) =>
      if 0 <? limit then (Some used, Some limit, if limit <? used then "above-limit" else "normal", limit <? used)
      else (None, None, "unavailable", false)
  | _ => (None, None, "unavailable", false)
  end.

Definition panicked {A} (c : call A) : bool := match c with Panicked => true | _ => false end.

(** One iteration of the loop; [None] for a panic. *)
Definition collect_device (index : Z) (device : NVIDIADeviceBackend) : option (NVIDIADevice * bool) :=
  if panicked (db_Name device) || panicked (db_Memory device) || panicked (db_ComputeCapability device) ||
     panicked (db_TemperatureC device) || panicked (db_PowerMilliwatts device) then None else
  let '(class, bad_name) := class_of (db_Name device) in
  let '(vram, vram_used, bad_memory) := memory_of (db_Memory device) in
  let '(major, minor, bad_capability) := capability_of (db_ComputeCapability device) in
  let '(celsius, bad_temperature) := temperature_of (db_TemperatureC device) in
  let '(used, limit, state, bad_power) := power_of (db_PowerMilliwatts device) in
  Some ({| nd_Index := index; nd_Class := class; nd_VRAMBytes := vram; nd_VRAMUsedBytes := vram_used;
           nd_CUDAComputeMajor := major; nd_CUDAComputeMinor := minor; nd_TemperatureC := celsius;
           nd_PowerMilliwatts := used; nd_PowerLimitMilliwatts := limit; nd_PowerState := state |},
        bad_name || bad_memory || bad_capability || bad_temperature || bad_power).

(** The loop over the device indices; [None] for a panic. *)
Fixpoint collect_devices (backend : NVIDIABackend) (n : nat) (index : Z) : option (list NVIDIADevice * bool) :=
  match n with
  | O => Some ([], false)
  | S n' =>
      match nb_Device backend index with
      | Panicked => None
      | Failed =>
          match collect_devices backend n' (index + 1) with
          | Some (devices, _) => Some (devices, true)
          | None => None
          end
      | Value device =>
          match collect_device index device with
          | None => None
          | Some (value, bad) =>
              match collect_devices backend n' (index + 1) with
              | Some (devices, bad') => Some (value :: devices, bad || bad')
              | None => None
              end
          end
      end
  end.

Definition nvidia_report (status driver : string) (devices : list NVIDIADevice) (now : Z) : NVIDIAReport :=
  {| nr_Status := status; nr_DriverVersion := driver; nr_Devices := devices; nr_CollectedAt := now;
     nr_Evidence := EvidenceLocallyObserved |}.

(** The body of [CollectNVIDIA] between [Init] and the deferred [Shutdown]. *)
Definition collect_body (backend : NVIDIABackend) (now : Z) : option NVIDIAReport :=
  match nb_DriverVersion backend with
  | Panicked => None
  | Failed => Some (nvidia_report "degraded" "" [] now)
  | Value driver =>
      let driver := boundedPrintable driver maxDriverBytes in
      match nb_DeviceCount backend with
      | Panicked => None
      | Failed => Some (nvidia_report "degraded" driver [] now)
      | Value count =>
          if count <? 0 then Some (nvidia_report "degraded" driver [] now) else
          if count =? 0 then Some (nvidia_report "no-devices" driver [] now) else
          let over := DefaultMaxGPUDevices <? count in
          match collect_devices backend (Z.to_nat (if over then DefaultMaxGPUDevices else count)) 0 with
          | None => None
          | Some (devices, bad) => Some (nvidia_report (if over || bad then "degraded" else "available") driver devices now)
          end
      end
  end.

(** [None] for a nil backend. *)
Definition CollectNVIDIA (backend : option NVIDIABackend) (now : Z) : NVIDIAReport :=
  let unavailable := nvidia_report "unavailable" "" [] now in
  let recovered := nvidia_report "degraded" "" [] now in
  match backend with
  | None => unavailable
  | Some backend =>
      match nb_Init backend with
      | Panicked => recovered
      | Failed => unavailable
      | Value _ =>
          match collect_body backend now with
          | None => recovered
          | Some report =>
              match nb_Shutdown backend with
              | Panicked => recovered
              | Failed => nvidia_report "degraded" (nr_DriverVersion report) (nr_Devices report) now
              | Value _ => report
              end
          end
      end
  end.

(** ** The host *)

(** memory_linux.go: [sysinfo] gives the number and the size of memory units. *)
Definition effectiveResources (sysinfo : option (Z * Z)) (numCPU : Z) (open : string -> sys bytes) : result (Z * Z) :=
  match sysinfo with
  | None => Err "sysinfo"
  | Some (totalram, unit) =>
      effectiveLinuxResources (wrap64 (totalram * unit)) numCPU (readLimitedResourceFile open)
  end.

Definition CollectHost (GOOS GOARCH : string) (sysinfo : option (Z * Z)) (numCPU : Z) (open : string -> sys bytes) (now : Z)
    : result Host :=
  let* (memory, cpus) := effectiveResources sysinfo numCPU open in
  Ok {| ho_OS := GOOS; ho_Architecture := GOARCH;
        ho_LogicalCPUs := if MaxLogicalCPUs <? cpus then MaxLogicalCPUs else cpus;
        ho_MemoryBytes := memory; ho_CollectedAt := now; ho_Evidence := EvidenceLocallyObserved |}.

Definition Collect (GOOS GOARCH : string) (sysinfo : option (Z * Z)) (numCPU : Z) (open : string -> sys bytes)
    (backend : option NVIDIABackend) (now : Z) : result Report :=
  let* host := CollectHost GOOS GOARCH sysinfo numCPU open now in
  Ok {| re_Host := host; re_NVIDIA := CollectNVIDIA backend now |}.

(** ** Validation *)

Definition validOptionalObservedString (value : string) (maximum : Z) : bool :=
  (len value <=? maximum) && utf8_ValidString value && negb (has_control value).

Definition validObservedString (value : string) (maximum : Z) : bool :=
  (value <>s? "") && validOptionalObservedString value maximum.

Definition validPowerObservation (device : NVIDIADevice) : bool :=
  if nd_PowerState device =s? "unavailable" then
    match nd_PowerMilliwatts device, nd_PowerLimitMilliwatts device with None, None => true | _, _ => false end
  else if (nd_PowerState device =s? "normal") || (nd_PowerState device =s? "above-limit") then
    match nd_PowerMilliwatts device, nd_PowerLimitMilliwatts device with
    | Some used, Some limit =>
        if limit =? 0 then false else Bool.eqb (limit <? used) (nd_PowerState device =s? "above-limit")
    | _, _ => false
    end
  else false.

Definition valid_device (previousIndex : Z) (device : NVIDIADevice) : bool :=
  negb ((nd_Index device <=? previousIndex) || (nd_Index device <? 0) || (DefaultMaxGPUDevices <=? nd_Index device) ||
        negb (validOptionalObservedString (nd_Class device) maxDeviceNameBytes) ||
        (nd_VRAMBytes device <? nd_VRAMUsedBytes device) ||
        (nd_CUDAComputeMajor device <? 0) || (99 <? nd_CUDAComputeMajor device) ||
        (nd_CUDAComputeMinor device <? 0) || (99 <? nd_CUDAComputeMinor device) ||
        match nd_TemperatureC device with Some t => maxTemperatureC <? t | None => false end ||
        negb (validPowerObservation device)).

Fixpoint valid_devices (previousIndex : Z) (devices : list NVIDIADevice) : bool :=
  match devices with
  | [] => true
  | device :: rest => valid_device previousIndex device && valid_devices (nd_Index device) rest
  end.

(** The switch on the status. *)
Definition valid_status (r : NVIDIAReport) : bool :=
  if nr_Status r =s? "available" then (nr_DriverVersion r <>s? "") && negb (llen (nr_Devices r) =? 0)
  else if nr_Status r =s? "no-devices" then (nr_DriverVersion r <>s? "") && (llen (nr_Devices r) =? 0)
  else if nr_Status r =s? "unavailable" then (nr_DriverVersion r =s? "") && (llen (nr_Devices r) =? 0)
  else nr_Status r =s? "degraded".

Definition ValidateReport (report : Report) : result unit :=
  let host := re_Host report in
  let nvidia := re_NVIDIA report in
  fail_if (negb (validObservedString (ho_OS host) maxHostOSBytes) ||
           negb (validObservedString (ho_Architecture host) maxArchitectureBytes) ||
           (ho_LogicalCPUs host <=? 0) || (MaxLogicalCPUs <? ho_LogicalCPUs host) ||
           (ho_MemoryBytes host =? 0) || IsZero (ho_CollectedAt host) ||
           (ho_Evidence host <>s? EvidenceLocallyObserved) ||
           IsZero (nr_CollectedAt nvidia) || (nr_Evidence nvidia <>s? EvidenceLocallyObserved) ||
           (DefaultMaxGPUDevices <? llen (nr_Devices nvidia)) ||
           negb (validOptionalObservedString (nr_DriverVersion nvidia) maxDriverBytes))
    "invalid resource observation" ;;;
  fail_if (negb (valid_status nvidia)) "invalid resource observation" ;;;
  fail_if (negb (valid_devices (-1) (nr_Devices nvidia))) "invalid resource observation".

(** ** Bounded printable text *)

Definition printable (r : rune) : Prop := well_formed r /\ invalid_byte r = false /\ IsControl (r_value r) = false.

Lemma map_printable_spec s : Forall printable (map_printable (runes s)).
Proof.
  unfold map_printable, runes. pose proof (runes_from_forall 0 s) as H. induction H as [|r l Hr _ IH]; [constructor|].
  rewrite bind_cons. apply Forall_app. split; [|exact IH]. destruct (IsControl (r_value r)) eqn:Hc; [constructor|].
  destruct (invalid_byte r) eqn:Hi; (constructor; [|constructor]).
  - split_and!; [|done|done]. eexists _, _. split; [reflexivity|]. intros more. reflexivity.
  - destruct Hr as [?|?]; [congruence|done].
Qed.

Lemma drop_last_runes_spec maximum l :
  0 <= maximum -> len (rune_text (rev (drop_last_runes maximum l))) <= maximum /\ forall P, Forall P l -> Forall P (drop_last_runes maximum l).
Proof.
  intros Hm. induction l as [|r l [IH1 IH2]]; [done|]. cbn [drop_last_runes].
  destruct (Z.leb_spec (len (rune_text (rev (r :: l)))) maximum) as [Hle|Hgt]; [by split|].
  split; [done|]. intros P [_ HP]%Forall_cons. auto.
Qed.

(** The text is bounded, valid UTF-8 and free of control characters, whatever
    the library returned. *)
Lemma boundedPrintable_valid value maximum :
  0 <= maximum -> validOptionalObservedString (boundedPrintable value maximum) maximum = true.
Proof.
  intros Hm. unfold validOptionalObservedString, boundedPrintable, utf8_ValidString, has_control.
  destruct (drop_last_runes_spec maximum (rev (map_printable (runes value))) Hm) as [Hlen HF].
  assert (Hp : Forall printable (rev (drop_last_runes maximum (rev (map_printable (runes value)))))).
  { apply Forall_rev, HF, Forall_rev, map_printable_spec. }
  rewrite runes_text by (eapply Forall_impl; [exact Hp|]; by intros r (? & _)).
  rewrite (proj2 (Z.leb_le _ _) Hlen), (proj2 (existsb_false _ _)), (proj2 (existsb_false _ _)); [done| |].
  - eapply Forall_impl; [exact Hp|]. by intros r (_ & _ & ?).
  - eapply Forall_impl; [exact Hp|]. by intros r (_ & ? & _).
Qed.

(** ** Collected reports are valid *)

Lemma class_of_valid c : validOptionalObservedString (class_of c).1 maxDeviceNameBytes = true.
Proof. destruct c; [by apply boundedPrintable_valid|done|done]. Qed.

Lemma memory_of_valid c : (memory_of c).1.2 <= (memory_of c).1.1.
Proof. destruct c as [[total used]| |]; simpl; [|lia|lia]. destruct (_ && _) eqn:E; simpl; bool_props; lia. Qed.

Lemma capability_of_valid c : 0 <= (capability_of c).1.1 <= 99 /\ 0 <= (capability_of c).1.2 <= 99.
Proof. destruct c as [[major minor]| |]; simpl; [|lia|lia]. destruct (_ && _) eqn:E; simpl; bool_props; lia. Qed.

Lemma temperature_of_valid c : match (temperature_of c).1 with Some t => maxTemperatureC <? t | None => false end = false.
Proof. destruct c as [t| |]; [|done|done]. simpl. destruct (Z.leb_spec t maxTemperatureC); [|done]. simpl. apply Z.ltb_ge. lia. Qed.

Lemma power_of_valid index class vram vram_used major minor celsius c :
  let p := power_of c in
  validPowerObservation
    {| nd_Index := index; nd_Class := class; nd_VRAMBytes := vram; nd_VRAMUsedBytes := vram_used;
       nd_CUDAComputeMajor := major; nd_CUDAComputeMinor := minor; nd_TemperatureC := celsius;
       nd_PowerMilliwatts := p.1.1.1; nd_PowerLimitMilliwatts := p.1.1.2; nd_PowerState := p.1.2 |} = true.
Proof.
  destruct c as [[used limit]| |]; [|done|done]. cbn [power_of]. destruct (Z.ltb_spec 0 limit); [|done].
  unfold validPowerObservation. cbn [fst snd nd_PowerMilliwatts nd_PowerLimitMilliwatts nd_PowerState].
  destruct (Z.ltb_spec limit used); cbn; destruct (Z.eqb_spec limit 0); [lia|done|lia|done].
Qed.

Lemma collect_device_spec index device value bad previous :
  collect_device index device = Some (value, bad) -> previous < index -> 0 <= index < DefaultMaxGPUDevices ->
  valid_device previous value = true /\ nd_Index value = index.
Proof.
  unfold collect_device. destruct (_ || _); [done|].
  pose proof (class_of_valid (db_Name device)) as Hc. destruct (class_of _) as [class bad1].
  pose proof (memory_of_valid (db_Memory device)) as Hm. destruct (memory_of _) as [[vram vram_used] bad2].
  pose proof (capability_of_valid (db_ComputeCapability device)) as [Hma Hmi]. destruct (capability_of _) as [[major minor] bad3].
  pose proof (temperature_of_valid (db_TemperatureC device)) as Ht. destruct (temperature_of _) as [celsius bad4].
  pose proof (power_of_valid index class vram vram_used major minor celsius (db_PowerMilliwatts device)) as Hp.
  destruct (power_of _) as [[[used limit] state] bad5]. cbn [fst snd] in *. intros [= <- <-] Hprev Hindex. split; [|done].
  unfold valid_device. rewrite Hp. cbn [nd_Index nd_Class nd_VRAMBytes nd_VRAMUsedBytes nd_CUDAComputeMajor nd_CUDAComputeMinor nd_TemperatureC].
  rewrite Hc, Ht. apply negb_true_iff. rewrite !orb_false_iff. unfold DefaultMaxGPUDevices in *.
  rewrite !Z.ltb_ge, !Z.leb_gt. cbn [negb]. split_and!; lia || done.
Qed.

Lemma collect_devices_spec backend n index devices bad previous :
  collect_devices backend n index = Some (devices, bad) -> previous < index -> 0 <= index -> index + Z.of_nat n <= DefaultMaxGPUDevices ->
  valid_devices previous devices = true /\ (length devices <= n)%nat /\ (devices = [] -> bad = true \/ n = 0%nat).
Proof.
  revert index devices bad previous. induction n as [|n IH]; intros index devices bad previous H Hp Hi Hn; cbn [collect_devices] in H.
  { injection H as <- <-. split_and!; auto. }
  destruct (nb_Device backend index) as [device| |]; [|destruct (collect_devices backend n (index + 1)) as [[ds b]|] eqn:E; [|done]|done].
  - destruct (collect_device index device) as [[value b1]|] eqn:Hd; [|done].
    destruct (collect_devices backend n (index + 1)) as [[ds b]|] eqn:E; [|done]. injection H as <- <-.
    destruct (collect_device_spec _ _ _ _ previous Hd Hp ltac:(lia)) as [Hv Hix]. cbn [valid_devices]. rewrite Hv, Hix.
    destruct (IH _ _ _ index E) as (H1 & H2 & _); [lia|lia|lia|]. split_and!; [done|simpl; lia|done].
  - injection H as <- <-. destruct (IH _ _ _ previous E) as (H1 & H2 & _); [lia|lia|lia|]. split_and!; [done|lia|by auto].
Qed.

(** The library reports a driver version without a printable character. *)
Definition empty_driver (b : NVIDIABackend) : Prop :=
  exists v, nb_DriverVersion b = Value v /\ boundedPrintable v maxDriverBytes = "".

Definition valid_nvidia (r : NVIDIAReport) : Prop :=
  nr_Evidence r = EvidenceLocallyObserved /\ llen (nr_Devices r) <= DefaultMaxGPUDevices /\
  validOptionalObservedString (nr_DriverVersion r) maxDriverBytes = true /\ valid_devices (-1) (nr_Devices r) = true.

Lemma collect_body_spec b now r :
  collect_body b now = Some r ->
  nr_CollectedAt r = now /\ valid_nvidia r /\ (valid_status r = true \/ empty_driver b).
Proof.
  unfold collect_body, empty_driver. destruct (nb_DriverVersion b) as [v| |]; [|by intros [= <-]; split_and!; auto|done]. cbn zeta.
  assert (Hv : validOptionalObservedString (boundedPrintable v maxDriverBytes) maxDriverBytes = true) by (by apply boundedPrintable_valid).
  assert (Hright : boundedPrintable v maxDriverBytes = "" -> exists v', Value v = Value v' /\ boundedPrintable v' maxDriverBytes = "") by eauto.
  set (driver := boundedPrintable v maxDriverBytes) in *. clearbody driver.
  assert (Hempty : forall status, valid_nvidia (nvidia_report status driver [] now)) by (intros status; by split_and!).
  destruct (nb_DeviceCount b) as [count| |]; [|by intros [= <-]; split_and!; auto|done].
  destruct (Z.ltb_spec count 0); [by intros [= <-]; split_and!; auto|].
  destruct (Z.eqb_spec count 0) as [->|Hne].
  { intros [= <-]. split; [done|]. split; [by auto|]. destruct (String.eqb_spec driver "") as [Hd|Hd]; [by right; auto|left].
    unfold valid_status. cbn. by apply String.eqb_neq in Hd as ->. }
  set (n := Z.to_nat _). destruct (collect_devices b n 0) as [[devices bad]|] eqn:Hc; [|done]. intros [= <-].
  assert (Hn : (0 < n)%nat /\ Z.of_nat n <= 16).
  { subst n. unfold DefaultMaxGPUDevices. destruct (Z.ltb_spec 16 count); lia. }
  destruct (collect_devices_spec _ _ _ _ _ (-1) Hc) as (H1 & H2 & H3); [lia|lia|unfold DefaultMaxGPUDevices; lia|].
  split; [done|]. split; [split_and!; [done| |done|done]; unfold llen, DefaultMaxGPUDevices; simpl; lia|].
  destruct (String.eqb_spec driver "") as [Hd|Hd]; [by right; auto|left]. unfold valid_status. cbn [nvidia_report nr_Status nr_DriverVersion nr_Devices].
  destruct ((DefaultMaxGPUDevices <? count) || bad) eqn:Eb; [done|]. apply orb_false_iff in Eb as [_ ->].
  apply String.eqb_neq in Hd. rewrite Hd. destruct devices; [|done]. destruct (H3 eq_refl); [done|lia].
Qed.

Lemma CollectNVIDIA_spec backend now :
  let r := CollectNVIDIA backend now in
  nr_CollectedAt r = now /\ valid_nvidia r /\ (valid_status r = true \/ exists b, backend = Some b /\ empty_driver b).
Proof.
  unfold CollectNVIDIA. destruct backend as [b|]; [|by split_and!; auto]. destruct (nb_Init b); [|by split_and!; auto|by split_and!; auto].
  destruct (collect_body b now) as [r|] eqn:Hc; [|by split_and!; auto]. destruct (collect_body_spec _ _ _ Hc) as (H1 & (H2 & H3 & H4 & H5) & H6).
  destruct (nb_Shutdown b); [|by split_and!; auto|by split_and!; auto]. cbn zeta. split; [done|]. split; [done|].
  destruct H6; eauto.
Qed.

Lemma ValidateReport_ok r :
  ValidateReport r = Ok tt <->
  (validObservedString (ho_OS (re_Host r)) maxHostOSBytes = true /\
   validObservedString (ho_Architecture (re_Host r)) maxArchitectureBytes = true /\
   0 < ho_LogicalCPUs (re_Host r) <= MaxLogicalCPUs /\ ho_MemoryBytes (re_Host r) <> 0 /\ IsZero (ho_CollectedAt (re_Host r)) = false /\
   ho_Evidence (re_Host r) = EvidenceLocallyObserved) /\
  IsZero (nr_CollectedAt (re_NVIDIA r)) = false /\ valid_nvidia (re_NVIDIA r) /\ valid_status (re_NVIDIA r) = true.
Proof.
  unfold ValidateReport, valid_nvidia. cbn zeta. rewrite !then_ok, !fail_if_ok, !orb_false_iff, !negb_false_iff.
  rewrite !Z.leb_gt, !Z.ltb_ge, Z.eqb_neq, !String.eqb_eq. tauto.
Qed.

(** ** Properties *)

(** What the probe collects passes the validation: whatever the hardware
    library returns, fails at or panics in, the collected report is accepted by
    [ValidateReport], provided the driver's version has a printable character
    where the library reports one. *)
Theorem collected_report_valid GOOS GOARCH sysinfo numCPU open backend now report
    (Hos : validObservedString GOOS maxHostOSBytes = true)
    (Harch : validObservedString GOARCH maxArchitectureBytes = true)
    (Hnow : IsZero now = false)
    (Hdriver : forall b, backend = Some b -> ~ empty_driver b)
    (Hcollect : Collect GOOS GOARCH sysinfo numCPU open backend now = Ok report) :
  ValidateReport report = Ok tt.
Proof.
  unfold Collect, CollectHost, effectiveResources in Hcollect. apply rbind_ok in Hcollect as (host & Hh & [= <-]).
  apply rbind_ok in Hh as ([m c] & He & [= <-]). destruct sysinfo as [[ram unit]|]; [|done].
  apply effective_resources_spec in He as (Hm & Hc & _); [|apply wrap64_bound].
  destruct (CollectNVIDIA_spec backend now) as (Hat & Hv & Hst). apply ValidateReport_ok. cbn [re_Host re_NVIDIA ho_OS ho_Architecture
    ho_LogicalCPUs ho_MemoryBytes ho_CollectedAt ho_Evidence]. rewrite Hat.
  split_and!; try done; try (destruct (Z.ltb_spec MaxLogicalCPUs c); lia).
  destruct Hst as [?|(b & -> & Hb)]; [done|]. by destruct (Hdriver b eq_refl).
Qed.

(** ** Witnesses *)

Module ProbeSamples.
Definition device : NVIDIADeviceBackend :=
  {| db_Name := Value "NVIDIA L4"; db_Memory := Value (24, 3); db_ComputeCapability := Value (8, 9);
     db_TemperatureC := Value 41; db_PowerMilliwatts := Value (31000, 72000) |}.
Definition backend (version : string) : NVIDIABackend :=
  {| nb_Init := Value tt; nb_Shutdown := Value tt; nb_DriverVersion := Value version; nb_DeviceCount := Value 2;
     nb_Device i := if i =? 0 then Value device else Panicked |}.
Definition healthy (version : string) : NVIDIABackend :=
  {| nb_Init := Value tt; nb_Shutdown := Value tt; nb_DriverVersion := Value version; nb_DeviceCount := Value 1;
     nb_Device i := Value device |}.
Definition open : string -> sys bytes := CgroupSamples.find CgroupSamples.files.
Definition report (b : NVIDIABackend) : Report :=
  {| re_Host := {| ho_OS := "linux"; ho_Architecture := "amd64"; ho_LogicalCPUs := 2; ho_MemoryBytes := 8589934592;
       ho_CollectedAt := 1700000000000000000; ho_Evidence := EvidenceLocallyObserved |};
     re_NVIDIA := CollectNVIDIA (Some b) 1700000000000000000 |}.
End ProbeSamples.

Lemma collected_report_valid_witness : ValidateReport (ProbeSamples.report (ProbeSamples.backend "550.54")) = Ok tt.
Proof.
  apply (collected_report_valid "linux" "amd64" (Some (68719476736, 1)) 32 ProbeSamples.open (Some (ProbeSamples.backend "550.54"))
    1700000000000000000); [vm_compute; reflexivity|vm_compute; reflexivity|vm_compute; reflexivity| |vm_compute; reflexivity].
  intros b [= <-] (v & [= <-] & Hv). vm_compute in Hv. discriminate Hv.
Defined.

(** A healthy device whose driver reports an empty version is collected as
    available and then refused by the validation. *)
Example empty_driver_refused :
  nr_Status (CollectNVIDIA (Some (ProbeSamples.healthy "")) 1700000000000000000) = "available" /\
  ValidateReport (ProbeSamples.report (ProbeSamples.healthy "")) = Err "invalid resource observation" /\
  ValidateReport (ProbeSamples.report (ProbeSamples.healthy "550.54")) = Ok tt.
Proof. split_and!; vm_compute; reflexivity. Qed.
