(* ===== verification/ResourceGuard.v ===== *)
(** * internal/resourceguard/guard.go: the host-resource monitor

    [Guard] samples the host periodically and gates new work.  [evaluate] is
    the check of one sample, [record] the update of the gate; the monitor's
    life is the sequence of the samples it records. *)

From S2P Require Import Prelude GoStd Probe.

Definition MinInterval : Z := time_Second.
Definition MaxIntervalHard : Z := 5 * time_Minute.
Definition MinTimeout : Z := 100 * time_Millisecond.
Definition MaxTimeoutHard : Z := 30 * time_Second.
Definition MaxThresholdHard : Z := 10.
Definition MinimumObservedRAM : Z := Z.shiftl 64 20.
Definition StatusReady : string := "ready".
Definition StatusDegraded : string := "degraded".
Definition defaultUnknownGPU : string := "unknown".

(** [probe.Report{}]. *)
Definition ZeroReport : Report :=
  {| re_Host := {| ho_OS := ""; ho_Architecture := ""; ho_LogicalCPUs := 0; ho_MemoryBytes := 0;
                   ho_CollectedAt := - 62135596800 * time_Second; ho_Evidence := "" |};
     re_NVIDIA := {| nr_Status := ""; nr_DriverVersion := ""; nr_Devices := [];
                     nr_CollectedAt := - 62135596800 * time_Second; nr_Evidence := "" |} |}.

(** The range of the fields' Go type [uint64]. *)
Definition Report_wf (r : Report) : Prop :=
  u64 (ho_MemoryBytes (re_Host r)) /\
  Forall (fun d => u64 (nd_VRAMBytes d) /\ u64 (nd_VRAMUsedBytes d)) (nr_Devices (re_NVIDIA r)).

Record ResourceHealth := { rh_Ready : bool; rh_Status : string; rh_GPU : string }.

Record Config := {
  cf_Interval : Z;
  cf_Timeout : Z;
  cf_FailureThreshold : Z;
  cf_RecoveryThreshold : Z;
  cf_RequiredRAMBytes : Z;
  cf_RequiredVRAMBytes : Z;
  cf_Initial : Report;
}.

Record Guard := { gd_config : Config; gd_health : ResourceHealth; gd_failures : Z; gd_recoveries : Z }.

Definition validGPUStatus (status : string) : bool :=
  (status =s? "available") || (status =s? "degraded") || (status =s? "unavailable") ||
  (status =s? "no-devices") || (status =s? "unknown").

(** The loop over the devices, with the 64-bit running total. *)
Fixpoint total_vram (devices : list NVIDIADevice) (total : Z) : result Z :=
  match devices with
  | [] => Ok total
  | d :: rest =>
      if (nd_VRAMBytes d =? 0) || (nd_VRAMBytes d <? nd_VRAMUsedBytes d) ||
         (wrap64 (max_u64 - total) <? nd_VRAMBytes d)
      then Err "observed NVIDIA memory is invalid"
      else total_vram rest (wrap64 (total + nd_VRAMBytes d))
  end.

(** [evaluate] returns the health beside the error. *)
Definition evaluate (report : Report) (requiredRAM requiredVRAM : Z) : ResourceHealth * result unit :=
  let health := {| rh_Ready := true; rh_Status := StatusReady;
                   rh_GPU := if validGPUStatus (nr_Status (re_NVIDIA report))
                             then nr_Status (re_NVIDIA report) else defaultUnknownGPU |} in
  (health,
   fail_if (ho_MemoryBytes (re_Host report) <? MinimumObservedRAM) "observed host memory is unavailable" ;;;
   let maximumRAM := wrap64 (ho_MemoryBytes (re_Host report) - ho_MemoryBytes (re_Host report) / 4) in
   fail_if (maximumRAM <? requiredRAM) "observed host memory is below policy" ;;;
   if requiredVRAM =? 0 then Ok tt
   else
     fail_if ((nr_Status (re_NVIDIA report) <>s? "available") ||
              (nr_DriverVersion (re_NVIDIA report) =s? "") || (llen (nr_Devices (re_NVIDIA report)) =? 0))
       "required NVIDIA resources are unavailable" ;;;
     let* totalVRAM := total_vram (nr_Devices (re_NVIDIA report)) 0 in
     fail_if (totalVRAM <? requiredVRAM) "observed NVIDIA memory is below policy").

Definition New (config : Config) (sample_nil : bool) : result Guard :=
  fail_if ((cf_Interval config <? MinInterval) || (MaxIntervalHard <? cf_Interval config) ||
           (cf_Timeout config <? MinTimeout) || (MaxTimeoutHard <? cf_Timeout config) ||
           (cf_Interval config <? cf_Timeout config) || (cf_FailureThreshold config <=? 0) ||
           (MaxThresholdHard <? cf_FailureThreshold config) || (cf_RecoveryThreshold config <=? 0) ||
           (MaxThresholdHard <? cf_RecoveryThreshold config) ||
           (cf_RequiredRAMBytes config =? 0) || sample_nil)
    "invalid resource monitor configuration" ;;;
  let '(initialHealth, err) :=
    evaluate (cf_Initial config) (cf_RequiredRAMBytes config) (cf_RequiredVRAMBytes config) in
  match err with
  | Err _ => Err "initial resource observation is unsafe"
  | Ok _ => Ok {| gd_config := config; gd_health := initialHealth; gd_failures := 0; gd_recoveries := 0 |}
  end.

Definition Health (g : option Guard) : ResourceHealth :=
  match g with
  | None => {| rh_Ready := false; rh_Status := StatusDegraded; rh_GPU := defaultUnknownGPU |}
  | Some g => gd_health g
  end.

(** A sampler call: the report and the error, or a panic. *)
Inductive sample_outcome := Sampled (r : Report) (err : option string) | SamplePanicked.

Definition safeSample (o : sample_outcome) : Report * option string :=
  match o with
  | Sampled r err => (r, err)
  | SamplePanicked => (ZeroReport, Some "resource sampler failed")
  end.

Definition set_GPU (h : ResourceHealth) (gpu : string) : ResourceHealth :=
  {| rh_Ready := rh_Ready h; rh_Status := rh_Status h; rh_GPU := gpu |}.

Definition record (g : Guard) (report : Report) (sampleErr : option string) : Guard :=
  let c := gd_config g in
  let '(next, evaluationErr) := evaluate report (cf_RequiredRAMBytes c) (cf_RequiredVRAMBytes c) in
  let good := bool_decide (sampleErr = None) && is_ok evaluationErr in
  if good then
    let health := set_GPU (gd_health g) (rh_GPU next) in
    if rh_Ready health then
      {| gd_config := c; gd_health := health; gd_failures := 0; gd_recoveries := 0 |}
    else
      let recoveries := gd_recoveries g + 1 in
      if cf_RecoveryThreshold c <=? recoveries
      then {| gd_config := c; gd_health := next; gd_failures := 0; gd_recoveries := 0 |}
      else {| gd_config := c; gd_health := health; gd_failures := 0; gd_recoveries := recoveries |}
  else
    let failures := gd_failures g + 1 in
    let health := if validGPUStatus (nr_Status (re_NVIDIA report))
                  then set_GPU (gd_health g) (nr_Status (re_NVIDIA report)) else gd_health g in
    if cf_FailureThreshold c <=? failures
    then {| gd_config := c;
            gd_health := {| rh_Ready := false; rh_Status := StatusDegraded; rh_GPU := rh_GPU health |};
            gd_failures := cf_FailureThreshold c; gd_recoveries := 0 |}
    else {| gd_config := c; gd_health := health; gd_failures := failures; gd_recoveries := 0 |}.

(** The loop of [run], for the samples taken until shutdown. *)
Definition run (g : Guard) (samples : list sample_outcome) : Guard :=
  foldl (fun g o => let '(report, err) := safeSample o in record g report err) g samples.

(** ** Lemmas *)

Lemma total_vram_ok devices total t :
  Forall (fun d => u64 (nd_VRAMBytes d) /\ u64 (nd_VRAMUsedBytes d)) devices -> u64 total ->
  total_vram devices total = Ok t <->
  Forall (fun d => 0 < nd_VRAMBytes d /\ nd_VRAMUsedBytes d <= nd_VRAMBytes d) devices /\
  t = total + foldr Z.add 0 (nd_VRAMBytes <$> devices) /\ t < two64.
Proof.
  revert total. induction devices as [|d rest IH]; intros total Hwf Ht.
  { cbn. unfold u64 in Ht. rewrite Z.add_0_r. split; [intros [= <-]|intros (_ & -> & _)]; [|done].
    split_and!; [constructor|lia|lia]. }
  apply Forall_cons in Hwf as [[Hd Hu] Hwf]. csimpl.
  rewrite (wrap64_small (max_u64 - total)) by (unfold u64, max_u64 in *; lia).
  destruct ((nd_VRAMBytes d =? 0) || _ || _) eqn:E; bool_props.
  - split; [done|]. intros (Hf & -> & Hlt). apply Forall_cons in Hf as [Hd0 Hf].
    assert (0 <= foldr Z.add 0 (nd_VRAMBytes <$> rest)).
    { clear -Hwf. induction Hwf as [|x l [Hx _] _ IH]; csimpl; [lia|]. unfold u64 in Hx. lia. }
    unfold max_u64 in *. rewrite !orb_true_iff in E. destruct E as [[?|?]|?]; bool_props; lia.
  - rewrite (wrap64_small (total + _)) by (unfold u64, max_u64 in *; lia).
    rewrite IH by (done || (unfold u64, max_u64 in *; lia)). rewrite Forall_cons.
    unfold u64 in *. split; intros (? & ? & ?); split_and!; try done; naive_solver lia.
Qed.

(** A sample the gate counts as good. *)
Definition good_sample (c : Config) (o : sample_outcome) : bool :=
  let '(report, err) := safeSample o in
  bool_decide (err = None) && is_ok (evaluate report (cf_RequiredRAMBytes c) (cf_RequiredVRAMBytes c)).2.

Definition guard_wf (g : Guard) : Prop :=
  0 < cf_FailureThreshold (gd_config g) <= MaxThresholdHard /\
  0 < cf_RecoveryThreshold (gd_config g) <= MaxThresholdHard.

(** The last [n] outcomes of a history, latest first. *)
Definition streak (c : Config) (b : bool) (history : list sample_outcome) (n : Z) : Prop :=
  exists recent older, history = recent ++ older /\ llen recent = n /\ Forall (fun o => good_sample c o = b) recent.

(** What the counters mean, for the history of samples (latest first). *)
Record gate_inv (c : Config) (history : list sample_outcome) (g : Guard) : Prop := {
  ga_config : gd_config g = c;
  ga_failures : streak c false history (gd_failures g);
  ga_recoveries : streak c true history (gd_recoveries g);
  ga_bounds : 0 <= gd_failures g <= cf_FailureThreshold c /\ 0 <= gd_recoveries g < cf_RecoveryThreshold c;
  ga_ready : rh_Ready (gd_health g) = true -> gd_failures g < cf_FailureThreshold c /\ gd_recoveries g = 0;
  ga_status : rh_Status (gd_health g) = if rh_Ready (gd_health g) then StatusReady else StatusDegraded;
  ga_gpu : validGPUStatus (rh_GPU (gd_health g)) = true;
}.

Lemma streak_zero c b h : streak c b h 0.
Proof. exists [], h. split_and!; [done|done|constructor]. Qed.

Lemma streak_cons c b h n o : streak c b h n -> good_sample c o = b -> streak c b (o :: h) (n + 1).
Proof.
  intros (r & old & -> & Hl & Hf) Ho. exists (o :: r), old. split_and!; [done| |by constructor].
  unfold llen in *. simpl. lia.
Qed.

Lemma streak_shrink c b h n m : streak c b h n -> 0 <= m <= n -> streak c b h m.
Proof.
  intros (r & old & -> & Hl & Hf) Hm. exists (take (Z.to_nat m) r), (drop (Z.to_nat m) r ++ old).
  unfold llen in *. split_and!; [by rewrite app_assoc, take_drop|rewrite length_take; lia|by apply Forall_take].
Qed.

Lemma evaluate_health report ram vram :
  rh_Ready (evaluate report ram vram).1 = true /\ rh_Status (evaluate report ram vram).1 = StatusReady /\
  validGPUStatus (rh_GPU (evaluate report ram vram).1) = true.
Proof.
  unfold evaluate. cbn [fst rh_Ready rh_Status rh_GPU]. split_and!; [done|done|].
  by destruct (validGPUStatus (nr_Status (re_NVIDIA report))) eqn:E.
Qed.

Definition observe (g : Guard) (o : sample_outcome) : Guard :=
  let '(report, err) := safeSample o in record g report err.

Lemma observe_inv c h g o :
  gate_inv c h g -> guard_wf g ->
  gate_inv c (o :: h) (observe g o) /\
  (rh_Ready (gd_health (observe g o)) <> rh_Ready (gd_health g) ->
   streak c (rh_Ready (gd_health (observe g o))) (o :: h)
     (if rh_Ready (gd_health g) then cf_FailureThreshold c else cf_RecoveryThreshold c)).
Proof.
  intros [<- Hf Hr Hb Hrd Hst Hgpu] [Hw1 Hw2]. pose proof (streak_cons _ _ _ _ o Hf) as Hf'.
  pose proof (streak_cons _ _ _ _ o Hr) as Hr'. unfold observe, good_sample in *.
  destruct (safeSample o) as [report err]. unfold record.
  pose proof (evaluate_health report (cf_RequiredRAMBytes (gd_config g)) (cf_RequiredVRAMBytes (gd_config g)))
    as (He1 & He2 & He3).
  destruct (evaluate report _ _) as [next everr] eqn:Hev. cbn [fst snd] in *.
  destruct (bool_decide (err = None) && is_ok everr) eqn:Hgood.
  - specialize (Hr' eq_refl). cbn [rh_Ready set_GPU].
    destruct (rh_Ready (gd_health g)) eqn:Hready; cbn [gd_health rh_Ready set_GPU].
    { rewrite Hready. split; [|done]. constructor; cbn [gd_config gd_failures gd_recoveries gd_health set_GPU rh_Ready rh_GPU rh_Status];
        rewrite ?Hready; auto using streak_zero; lia. }
    destruct (cf_RecoveryThreshold (gd_config g) <=? gd_recoveries g + 1) eqn:Ht; cbn [gd_health rh_Ready set_GPU].
    { rewrite He1. split.
      - constructor; cbn [gd_config gd_failures gd_recoveries gd_health]; rewrite ?He1; auto using streak_zero; lia.
      - intros _. apply streak_shrink with (gd_recoveries g + 1); [done|lia]. }
    rewrite Hready. split; [|done]. constructor; cbn [gd_config gd_failures gd_recoveries gd_health set_GPU rh_Ready rh_GPU rh_Status];
      rewrite ?Hready; auto using streak_zero; try lia; done.
  - specialize (Hf' eq_refl).
    set (health := if validGPUStatus (nr_Status (re_NVIDIA report)) then _ else gd_health g).
    assert (Hh : rh_Ready health = rh_Ready (gd_health g) /\ rh_Status health = rh_Status (gd_health g) /\
                 validGPUStatus (rh_GPU health) = true).
    { subst health. by destruct (validGPUStatus (nr_Status (re_NVIDIA report))) eqn:Hv. }
    destruct Hh as (Hh1 & Hh2 & Hh3).
    destruct (cf_FailureThreshold (gd_config g) <=? gd_failures g + 1) eqn:Ht; cbn [gd_health rh_Ready].
    { assert (Hs : gd_failures g + 1 >= cf_FailureThreshold (gd_config g)) by lia.
      assert (Hstreak := streak_shrink _ _ _ _ (cf_FailureThreshold (gd_config g)) Hf' ltac:(lia)).
      split; [constructor; cbn [gd_config gd_failures gd_recoveries gd_health rh_Ready rh_GPU rh_Status]; auto using streak_zero; lia || done|].
      intros Hne. destruct (rh_Ready (gd_health g)); done. }
    rewrite Hh1. split; [|done].
    constructor; cbn [gd_config gd_failures gd_recoveries gd_health]; rewrite ?Hh1, ?Hh2; auto using streak_zero; lia.
Qed.

Lemma observe_config g o : gd_config (observe g o) = gd_config g.
Proof.
  unfold observe. destruct (safeSample o). unfold record. destruct (evaluate _ _ _).
  by repeat case_match.
Qed.

Lemma run_app g l1 l2 : run g (l1 ++ l2) = run (run g l1) l2.
Proof. apply foldl_app. Qed.

Lemma run_snoc g l o : run g (l ++ [o]) = observe (run g l) o.
Proof. by rewrite run_app. Qed.

Lemma New_gate c nil g : New c nil = Ok g -> gate_inv c [] g /\ guard_wf g.
Proof.
  unfold New. intros [Hc%fail_if_ok H]%then_ok.
  pose proof (evaluate_health (cf_Initial c) (cf_RequiredRAMBytes c) (cf_RequiredVRAMBytes c)) as (H1 & H2 & H3).
  destruct (evaluate _ _ _) as [h [u|e]]; [|done]. injection H as <-. cbn [fst] in *.
  bool_props. split; [|by split; simpl; lia].
  constructor; cbn [gd_config gd_failures gd_recoveries gd_health]; rewrite ?H1; auto using streak_zero; lia.
Qed.

Lemma run_gate c nil g l : New c nil = Ok g -> gate_inv c (rev l) (run g l) /\ guard_wf (run g l).
Proof.
  intros Hn. induction l as [|o l [IH IHw]] using rev_ind; [by apply (New_gate c nil)|].
  rewrite run_snoc, rev_app_distr. cbn [rev app]. split; [by apply observe_inv|].
  unfold guard_wf in *. by rewrite observe_config.
Qed.

Lemma run_bad c g l : gd_config g = c -> guard_wf g -> Forall (fun o => good_sample c o = false) l -> 0 <= gd_failures g ->
  (rh_Ready (gd_health g) = false \/ cf_FailureThreshold c <= gd_failures g + llen l) ->
  0 < llen l \/ rh_Ready (gd_health g) = false ->
  rh_Ready (gd_health (run g l)) = false.
Proof.
  intros Hc Hw Hb. revert g Hc Hw. induction Hb as [|o l Ho _ IH]; intros g Hc Hw H0 Hr Hl.
  { unfold llen in *. simpl in *. destruct Hl; [lia|done]. }
  change (run g (o :: l)) with (run (observe g o) l). destruct Hw as [Hw1 Hw2].
  assert (Hstep : 0 <= gd_failures (observe g o) /\
    (rh_Ready (gd_health (observe g o)) = false \/
     gd_failures (observe g o) = gd_failures g + 1 /\ gd_failures (observe g o) < cf_FailureThreshold c /\
     rh_Ready (gd_health (observe g o)) = rh_Ready (gd_health g))).
  { unfold observe, good_sample in *. destruct (safeSample o) as [report err]. unfold record. rewrite Hc.
    destruct (evaluate report _ _) as [next everr]. cbn [snd] in Ho. rewrite Ho.
    destruct (cf_FailureThreshold c <=? gd_failures g + 1) eqn:Ht; cbn [gd_failures gd_health]; [rewrite Hc in Hw1; split; [lia|by left]|].
    split; [lia|right]. split_and!; [done|lia|by case_match]. }
  destruct Hstep as [Hf Hcase].
  apply IH; [by rewrite observe_config|unfold guard_wf; by rewrite observe_config|done| |].
  - unfold llen in *. simpl in Hr. destruct Hcase as [?|(-> & _ & ->)]; [by left|]. destruct Hr; [by left|right; lia].
  - unfold llen in *. simpl in Hr. destruct Hcase as [?|(E & E' & ->)]; [by right|]. destruct Hr; [by right|left; lia].
Qed.

Lemma run_good c g l : gd_config g = c -> guard_wf g -> Forall (fun o => good_sample c o = true) l ->
  (rh_Ready (gd_health g) = true \/ cf_RecoveryThreshold c <= gd_recoveries g + llen l) ->
  0 < llen l \/ rh_Ready (gd_health g) = true -> rh_Ready (gd_health (run g l)) = true.
Proof.
  intros Hc Hw Hb. revert g Hc Hw. induction Hb as [|o l Ho _ IH]; intros g Hc Hw Hr Hl.
  { unfold llen in *. simpl in *. destruct Hl; [lia|done]. }
  change (run g (o :: l)) with (run (observe g o) l).
  assert (Hstep : rh_Ready (gd_health (observe g o)) = true \/
    rh_Ready (gd_health g) = false /\ gd_recoveries (observe g o) = gd_recoveries g + 1 /\
    gd_recoveries (observe g o) < cf_RecoveryThreshold c).
  { unfold observe, good_sample in *. destruct (safeSample o) as [report err]. unfold record. rewrite Hc.
    pose proof (evaluate_health report (cf_RequiredRAMBytes c) (cf_RequiredVRAMBytes c)) as (He & _ & _).
    destruct (evaluate report _ _) as [next everr]. cbn [fst snd] in *. rewrite Ho. cbn [rh_Ready set_GPU].
    destruct (rh_Ready (gd_health g)) eqn:E; [by left|].
    destruct (cf_RecoveryThreshold c <=? gd_recoveries g + 1) eqn:Ht; [by left|]. right. cbn [gd_recoveries]. split_and!; [done|done|lia]. }
  apply IH; [by rewrite observe_config|unfold guard_wf; by rewrite observe_config| |].
  - unfold llen in *. simpl in Hr. destruct Hstep as [?|(E & -> & _)]; [by left|]. destruct Hr; [congruence|right; lia].
  - unfold llen in *. simpl in Hr. destruct Hstep as [?|(E & E' & E'')]; [by right|]. destruct Hr; [congruence|left; lia].
Qed.

(** ** Properties *)

(** A sample is accepted exactly when, in unbounded arithmetic, a quarter of
    the observed memory stays free beside the required memory, and, where GPU
    memory is required, an available driver reports devices whose memory is
    consistent and whose exact sum fits in 64 bits and covers the requirement:
    the running total never wraps. *)
Theorem evaluate_exact report requiredRAM requiredVRAM
    (Hwf : Report_wf report) (Hram : u64 requiredRAM) (Hvram : u64 requiredVRAM) :
  let devices := nr_Devices (re_NVIDIA report) in
  let total := foldr Z.add 0 (nd_VRAMBytes <$> devices) in
  is_ok (evaluate report requiredRAM requiredVRAM).2 = true <->
  MinimumObservedRAM <= ho_MemoryBytes (re_Host report) /\
  requiredRAM + ho_MemoryBytes (re_Host report) / 4 <= ho_MemoryBytes (re_Host report) /\
  (requiredVRAM = 0 \/
   nr_Status (re_NVIDIA report) = "available" /\ nr_DriverVersion (re_NVIDIA report) <> "" /\ devices <> [] /\
   Forall (fun d => 0 < nd_VRAMBytes d /\ nd_VRAMUsedBytes d <= nd_VRAMBytes d) devices /\
   requiredVRAM <= total < two64).
Proof.
  intros devices total. destruct Hwf as [Hm Hd]. unfold evaluate. cbn [snd]. rewrite is_ok_true.
  assert (Hwrap : wrap64 (ho_MemoryBytes (re_Host report) - ho_MemoryBytes (re_Host report) / 4) =
                  ho_MemoryBytes (re_Host report) - ho_MemoryBytes (re_Host report) / 4).
  { apply wrap64_small. unfold u64 in *. split; [|pose proof (Z.div_pos (ho_MemoryBytes (re_Host report)) 4); lia].
    pose proof (Z.div_le_upper_bound (ho_MemoryBytes (re_Host report)) 4 (ho_MemoryBytes (re_Host report))). lia. }
  rewrite Hwrap. fold devices.
  assert (Hcore : (exists a, (let* t := total_vram devices 0 in
      fail_if (t <? requiredVRAM) "observed NVIDIA memory is below policy") = Ok a) <->
    Forall (fun d => 0 < nd_VRAMBytes d /\ nd_VRAMUsedBytes d <= nd_VRAMBytes d) devices /\
    requiredVRAM <= total < two64).
  { setoid_rewrite rbind_ok. setoid_rewrite fail_if_ok. split.
    - intros (_ & t & Ht & Hlt). apply total_vram_ok in Ht as (Hf & -> & Hb); [|done|done]. bool_props.
      split; [done|]. unfold total. lia.
    - intros (Hf & Hb). exists tt, total. split; [|apply Z.ltb_ge; lia].
      apply total_vram_ok; [done|done|]. split_and!; [done|unfold total; lia|lia]. }
  split.
  - intros [a H]. result_inv. bool_props. split; [lia|]. split; [lia|].
    destruct (requiredVRAM =? 0) eqn:Ez; [left; lia|right].
    apply then_ok in H as [Hg%fail_if_ok H]. destruct (proj1 Hcore (ex_intro _ _ H)) as [Hf Ht].
    bool_props. split; [done|]. split; [done|]. split; [|done].
    intros E. unfold llen in *. by rewrite E in *.
  - intros (H1 & H2 & H3).
    assert (E1 : (ho_MemoryBytes (re_Host report) <? MinimumObservedRAM) = false) by lia.
    assert (E2 : (ho_MemoryBytes (re_Host report) - ho_MemoryBytes (re_Host report) / 4 <? requiredRAM) = false) by lia.
    rewrite E1, E2. cbn [fail_if rbind].
    destruct (requiredVRAM =? 0) eqn:Ez; [by exists tt|]. destruct H3 as [H3|(Ha & Hb & Hc & H3)]; [lia|].
    rewrite Ha. rewrite (proj2 (String.eqb_neq _ _) Hb).
    assert (E3 : (llen devices =? 0) = false) by (unfold llen; destruct devices; [done|simpl; lia]).
    rewrite E3. cbn. by apply Hcore.
Qed.

(** Hysteresis: the gate closes after [FailureThreshold] consecutive bad
    samples and opens after [RecoveryThreshold] consecutive good ones, whatever
    came before; it closes only when the last [FailureThreshold] samples were all
    bad and opens only when the last [RecoveryThreshold] were all good. *)
Theorem gate_hysteresis c sample_nil g history recent o
    (Hnew : New c sample_nil = Ok g) :
  (llen recent = cf_FailureThreshold c -> Forall (fun o => good_sample c o = false) recent ->
     rh_Ready (gd_health (run g (history ++ recent))) = false) /\
  (llen recent = cf_RecoveryThreshold c -> Forall (fun o => good_sample c o = true) recent ->
     rh_Ready (gd_health (run g (history ++ recent))) = true) /\
  (let before := gd_health (run g history) in let after := gd_health (run g (history ++ [o])) in
   rh_Ready before <> rh_Ready after ->
   streak c (rh_Ready after) (o :: rev history)
     (if rh_Ready before then cf_FailureThreshold c else cf_RecoveryThreshold c)).
Proof.
  destruct (run_gate c sample_nil g history Hnew) as [Hi Hw].
  pose proof Hi as [Hc _ _ Hb _ _ _]. pose proof Hw as [Hw1 Hw2]. rewrite Hc in Hw1, Hw2.
  split_and!.
  - intros Hl Hf. rewrite run_app. apply (run_bad c); auto; lia.
  - intros Hl Hf. rewrite run_app. apply (run_good c); auto; lia.
  - intros before after Hne. subst before after. rewrite run_snoc in *.
    apply (observe_inv c (rev history) (run g history) o); auto.
Qed.

(** ** Witnesses *)

Module Samples.
Definition device (index used : Z) : NVIDIADevice :=
  {| nd_Index := index; nd_Class := "RTX"; nd_VRAMBytes := 17179869184; nd_VRAMUsedBytes := used;
     nd_CUDAComputeMajor := 8; nd_CUDAComputeMinor := 6; nd_TemperatureC := Some 40;
     nd_PowerMilliwatts := None; nd_PowerLimitMilliwatts := None; nd_PowerState := "unavailable" |}.
Definition good : Report :=
  {| re_Host := {| ho_OS := "linux"; ho_Architecture := "amd64"; ho_LogicalCPUs := 8;
                   ho_MemoryBytes := 8589934592; ho_CollectedAt := 1; ho_Evidence := EvidenceLocallyObserved |};
     re_NVIDIA := {| nr_Status := "available"; nr_DriverVersion := "550.54";
                     nr_Devices := [device 0 1024; device 1 0];
                     nr_CollectedAt := 1; nr_Evidence := EvidenceLocallyObserved |} |}.
Definition config : Config :=
  {| cf_Interval := 10 * time_Second; cf_Timeout := time_Second; cf_FailureThreshold := 2;
     cf_RecoveryThreshold := 3; cf_RequiredRAMBytes := 4294967296; cf_RequiredVRAMBytes := 34359738368;
     cf_Initial := good |}.
Definition guard : Guard :=
  {| gd_config := config; gd_health := {| rh_Ready := true; rh_Status := "ready"; rh_GPU := "available" |};
     gd_failures := 0; gd_recoveries := 0 |}.
Lemma new : New config false = Ok guard.
Proof. reflexivity. Qed.
Lemma good_wf : Report_wf good.
Proof. split; [split; [discriminate|reflexivity]|]. repeat constructor; discriminate. Qed.
End Samples.

Lemma evaluate_exact_witness : is_ok (evaluate Samples.good 4294967296 34359738368).2 = true.
Proof.
  apply (evaluate_exact Samples.good 4294967296 34359738368 Samples.good_wf); [by_compute|by_compute|].
  split; [discriminate|]. split; [discriminate|]. right. split; [reflexivity|]. split; [discriminate|]. split; [discriminate|].
  split; [|split; [discriminate|reflexivity]]. repeat constructor; discriminate.
Defined.

Lemma gate_hysteresis_witness :
  rh_Ready (gd_health (run Samples.guard ([Sampled Samples.good None] ++ [SamplePanicked; SamplePanicked]))) = false.
Proof.
  apply (gate_hysteresis Samples.config false Samples.guard _ _ SamplePanicked Samples.new); [reflexivity|].
  repeat constructor.
Defined.
