(* ===== verification/Base64.v ===== *)
(** * encoding/base64 and encoding/binary

    [base64.RawURLEncoding]: the URL-safe alphabet without padding, whose
    decoder skips carriage returns and newlines, as Go's does; and the
    big-endian integers of [binary.Write]. *)

From S2P Require Import Prelude GoStd Sha256.

Definition b64_char (v : Z) : ascii :=
  ascii_of_nat (Z.to_nat
    (if v <? 26 then 65 + v else if v <? 52 then 97 + (v - 26) else if v <? 62 then 48 + (v - 52)
     else if v =? 62 then 45 else 95)).

Definition b64_value (c : ascii) : option Z :=
  if is_upper c then Some (code c - 65)
  else if is_lower c then Some (code c - 97 + 26)
  else if is_digit c then Some (code c - 48 + 52)
  else if Ascii.eqb c "-" then Some 62
  else if Ascii.eqb c "_" then Some 63
  else None.

(** [base64.RawURLEncoding.EncodeToString]. *)
Fixpoint b64_encode (s : bytes) : string :=
  match s with
  | EmptyString => ""
  | String a EmptyString =>
      String (b64_char (code a / 4)) (String (b64_char (code a mod 4 * 16)) "")
  | String a (String b EmptyString) =>
      String (b64_char (code a / 4)) (String (b64_char (code a mod 4 * 16 + code b / 16))
        (String (b64_char (code b mod 16 * 4)) ""))
  | String a (String b (String c s')) =>
      String (b64_char (code a / 4)) (String (b64_char (code a mod 4 * 16 + code b / 16))
        (String (b64_char (code b mod 16 * 4 + code c / 64)) (String (b64_char (code c mod 64)) (b64_encode s'))))
  end.

(** The bytes of a sequence of 6-bit values; a single trailing value is an
    error, unused trailing bits are ignored. *)
Fixpoint b64_bytes (l : list Z) : option (list Z) :=
  match l with
  | [] => Some []
  | [_] => None
  | [x; y] => Some [x * 4 + y / 16]
  | [x; y; z] => Some [x * 4 + y / 16; y mod 16 * 16 + z / 4]
  | x :: y :: z :: w :: l' =>
      match b64_bytes l' with
      | Some r => Some (x * 4 + y / 16 :: y mod 16 * 16 + z / 4 :: z mod 4 * 64 + w :: r)
      | None => None
      end
  end.

Definition not_newline (c : ascii) : bool := negb (Ascii.eqb c (ascii_of_nat 10) || Ascii.eqb c (ascii_of_nat 13)).

Fixpoint b64_values (s : string) : option (list Z) :=
  match s with
  | EmptyString => Some []
  | String c s' =>
      match b64_value c, b64_values s' with
      | Some v, Some l => Some (v :: l)
      | _, _ => None
      end
  end.

(** [base64.RawURLEncoding.DecodeString]. *)
Definition b64_decode (s : string) : option bytes :=
  match b64_values (str_filter not_newline s) with
  | None => None
  | Some l => string_of_bytes <$> b64_bytes l
  end.

Lemma b64_value_char v : 0 <= v < 64 -> b64_value (b64_char v) = Some v /\ not_newline (b64_char v) = true.
Proof.
  intros Hv.
  assert (H : forallb (fun v => bool_decide (b64_value (b64_char v) = Some v) && not_newline (b64_char v)) (seqZ 0 64) = true)
    by (vm_compute; reflexivity).
  apply forallb_true in H. rewrite Forall_forall in H. specialize (H v). rewrite elem_of_seqZ in H.
  specialize (H ltac:(lia)). bool_props. done.
Qed.

Lemma ascii_code c : ascii_of_nat (Z.to_nat (code c)) = c.
Proof. unfold code. rewrite Nat2Z.id. apply ascii_nat_embedding. Qed.

Lemma b64_values_char v s :
  0 <= v < 64 ->
  b64_values (str_filter not_newline (String (b64_char v) s)) =
  match b64_values (str_filter not_newline s) with Some l => Some (v :: l) | None => None end.
Proof.
  intros Hv. destruct (b64_value_char v Hv) as [H1 H2]. cbn [str_filter]. rewrite H2. cbn [b64_values].
  by rewrite H1.
Qed.

(** Halves of a byte; [k * m = 256]. *)
Lemma byte_split c k m : 0 < m -> k * m = 256 -> 0 <= code c / m < k /\ 0 <= code c mod m < m.
Proof.
  intros Hm Hk. pose proof (code_bound c). split; [|by apply Z.mod_pos_bound].
  split; [apply Z.div_pos; lia|apply Z.div_lt_upper_bound; lia].
Qed.

Lemma mul_div_small x y m : 0 < m -> 0 <= y < m -> (x * m + y) / m = x.
Proof. intros. rewrite Z.div_add_l by lia. rewrite Z.div_small; lia. Qed.

Lemma mul_mod_small x y m : 0 < m -> 0 <= y < m -> (x * m + y) mod m = y.
Proof. intros. rewrite Z.add_comm, Z.mod_add by lia. by apply Z.mod_small. Qed.

(** Decoding undoes encoding. *)
Lemma b64_roundtrip s : b64_decode (b64_encode s) = Some s.
Proof.
  assert (H : exists l, b64_values (str_filter not_newline (b64_encode s)) = Some l /\
                        string_of_bytes <$> b64_bytes l = Some s).
  2: { destruct H as (l & Hl & Hb). unfold b64_decode. by rewrite Hl. }
  remember (String.length s) as n eqn:Hn. assert (Hle : (String.length s <= n)%nat) by lia. clear Hn.
  revert s Hle. induction n as [|n IH]; intros s Hle.
  { destruct s; [|simpl in Hle; lia]. by exists []. }
  destruct s as [|a [|b [|c s]]].
  - by exists [].
  - pose proof (byte_split a 64 4 ltac:(lia) eq_refl) as [Ha1 Ha2].
    cbn [b64_encode]. rewrite !b64_values_char by lia. cbn [str_filter b64_values].
    eexists. split; [reflexivity|]. cbn [b64_bytes fmap option_fmap option_map string_of_bytes].
    do 2 f_equal. rewrite Z.div_mul by lia. rewrite Z.mul_comm, <- Z.div_mod by lia. apply ascii_code.
  - pose proof (byte_split a 64 4 ltac:(lia) eq_refl) as [Ha1 Ha2].
    pose proof (byte_split b 16 16 ltac:(lia) eq_refl) as [Hb1 Hb2].
    cbn [b64_encode]. rewrite !b64_values_char by lia. cbn [str_filter b64_values].
    eexists. split; [reflexivity|]. cbn [b64_bytes fmap option_fmap option_map string_of_bytes].
    rewrite mul_div_small, mul_mod_small, Z.div_mul by lia.
    rewrite (Z.mul_comm (code a / 4)), <- Z.div_mod by lia.
    rewrite (Z.mul_comm (code b / 16)), <- Z.div_mod by lia. by rewrite !ascii_code.
  - pose proof (byte_split a 64 4 ltac:(lia) eq_refl) as [Ha1 Ha2].
    pose proof (byte_split b 16 16 ltac:(lia) eq_refl) as [Hb1 Hb2].
    pose proof (byte_split c 4 64 ltac:(lia) eq_refl) as [Hc1 Hc2].
    destruct (IH s) as (l & Hl & Hb); [simpl in Hle; lia|].
    cbn [b64_encode]. rewrite !b64_values_char by lia. rewrite Hl.
    eexists. split; [reflexivity|]. cbn [b64_bytes].
    destruct (b64_bytes l) as [r|]; [|done]. cbn [fmap option_fmap option_map string_of_bytes] in *.
    injection Hb as ->.
    rewrite !mul_div_small, !mul_mod_small by lia.
    rewrite (Z.mul_comm (code a / 4)), <- Z.div_mod by lia.
    rewrite (Z.mul_comm (code b / 16)), <- Z.div_mod by lia.
    rewrite (Z.mul_comm (code c / 64)), <- Z.div_mod by lia. by rewrite !ascii_code.
Qed.

(** Newlines in the text are skipped. *)
Lemma str_filter_app p s t : str_filter p (s +:+ t) = str_filter p s +:+ str_filter p t.
Proof. induction s as [|c s IH]; simpl; [done|]. destruct (p c); simpl; by rewrite IH. Qed.

Lemma b64_decode_newlines s pad t :
  str_forallb (fun c => negb (not_newline c)) pad = true -> b64_decode (s +:+ pad +:+ t) = b64_decode (s +:+ t).
Proof.
  intros Hp. unfold b64_decode. rewrite !str_filter_app.
  assert (E : str_filter not_newline pad = ""); [|by rewrite E].
  revert Hp. induction pad as [|c p IH]; simpl; [done|]. intros H. bool_props.
  destruct (not_newline c); [done|]. auto.
Qed.

(** ** Big-endian integers *)

(** [binary.Write(_, binary.BigEndian, x)] for an [n]-byte [x]. *)
Definition be_string (n : nat) (x : Z) : bytes := string_of_bytes (be_bytes n x).

Lemma be_string_length n x : String.length (be_string n x) = n.
Proof. unfold be_string. by rewrite string_of_bytes_length, be_bytes_length. Qed.

Lemma be_bytes_S n x : be_bytes (S n) x = be_bytes n (Z.shiftr x 8) ++ [Z.land x 255].
Proof.
  unfold be_bytes. rewrite seq_S, fmap_app. f_equal.
  - apply list_fmap_ext. intros i j Hj. apply lookup_seq in Hj as [-> Hi].
    rewrite Z.shiftr_shiftr by lia. do 2 f_equal. lia.
  - cbn. do 2 f_equal. f_equal. rewrite <- (Z.shiftr_0_r x) at 2. f_equal. lia.
Qed.

Lemma string_of_bytes_app l k : string_of_bytes (l ++ k) = string_of_bytes l +:+ string_of_bytes k.
Proof. induction l as [|x l IH]; simpl; [done|]. by rewrite IH. Qed.

Lemma be_string_inj n x y :
  be_string n x = be_string n y -> x mod 2 ^ (8 * Z.of_nat n) = y mod 2 ^ (8 * Z.of_nat n).
Proof.
  revert x y. induction n as [|n IH]; intros x y H; [by rewrite !Z.mod_1_r|].
  unfold be_string in H. rewrite !be_bytes_S, !string_of_bytes_app in H.
  apply str_app_inj in H as [H1 H2]; [|by rewrite !string_of_bytes_length, !be_bytes_length].
  apply IH in H1. cbn in H2. injection H2 as H2. apply (f_equal nat_of_ascii) in H2.
  change 255 with (Z.ones 8) in H2. rewrite !Z.land_ones in H2 by lia.
  pose proof (Z.mod_pos_bound x (2 ^ 8) ltac:(lia)). pose proof (Z.mod_pos_bound y (2 ^ 8) ltac:(lia)).
  rewrite !nat_ascii_embedding in H2 by (change (2 ^ 8) with 256 in *; lia).
  rewrite !Z.shiftr_div_pow2 in H1 by lia.
  replace (8 * Z.of_nat (S n)) with (8 + 8 * Z.of_nat n) by lia.
  rewrite Z.pow_add_r by lia. rewrite !Z.rem_mul_r by lia. lia.
Qed.

Lemma be_string_u64 x y : u64 x -> u64 y -> be_string 8 x = be_string 8 y -> x = y.
Proof.
  intros Hx Hy H%be_string_inj. change (2 ^ (8 * Z.of_nat 8)) with two64 in H.
  by rewrite !Z.mod_small in H by (unfold u64 in *; lia).
Qed.

Lemma be_string_i64 x y : i64 x -> i64 y -> be_string 8 x = be_string 8 y -> x = y.
Proof.
  intros Hx Hy H%be_string_inj. change (2 ^ (8 * Z.of_nat 8)) with two64 in H.
  unfold i64, two63, two64 in *.
  pose proof (Z.div_mod x 18446744073709551616). pose proof (Z.div_mod y 18446744073709551616). nia.
Qed.

Lemma be_string_u32 x y : u32 x -> u32 y -> be_string 4 x = be_string 4 y -> x = y.
Proof.
  intros Hx Hy H%be_string_inj. change (2 ^ (8 * Z.of_nat 4)) with 4294967296 in H.
  by rewrite !Z.mod_small in H by (unfold u32 in *; lia).
Qed.
