(* ===== verification/Manifest.v ===== *)
(** * pkg/update/manifest.go: signed release manifests

    The structural check of a manifest, the byte string that is signed, and the
    checks of a manifest and of an artifact.  Ed25519 is a parameter. *)

From S2P Require Import Prelude GoStd Sha256 Base64.

Definition ManifestVersion : Z := 1.
Definition MaxArtifactBytes : Z := Z.shiftl 64 30.

Record Manifest := {
  mf_Version : Z;            (* uint8 *)
  mf_Artifact : string;
  mf_Digest : string;
  mf_SizeBytes : Z;          (* uint64 *)
  mf_Target : string;
  mf_SecurityRevision : Z;   (* uint64 *)
  mf_IssuedAt : Z;           (* int64, Unix milliseconds *)
  mf_ExpiresAt : Z;          (* int64 *)
  mf_KeyID : string;
  mf_Signature : string;
}.
#[export] Instance Manifest_eq_dec : EqDecision Manifest.
Proof. solve_decision. Defined.

(** The range of each field's Go type. *)
Definition Manifest_wf (m : Manifest) : Prop :=
  0 <= mf_Version m < 256 /\ u64 (mf_SizeBytes m) /\ u64 (mf_SecurityRevision m) /\
  i64 (mf_IssuedAt m) /\ i64 (mf_ExpiresAt m).

Definition set_Signature (m : Manifest) (s : string) : Manifest :=
  {| mf_Version := mf_Version m; mf_Artifact := mf_Artifact m; mf_Digest := mf_Digest m;
     mf_SizeBytes := mf_SizeBytes m; mf_Target := mf_Target m;
     mf_SecurityRevision := mf_SecurityRevision m; mf_IssuedAt := mf_IssuedAt m;
     mf_ExpiresAt := mf_ExpiresAt m; mf_KeyID := mf_KeyID m; mf_Signature := s |}.

Definition validateStructure (m : Manifest) : result unit :=
  fail_if (negb (mf_Version m =? ManifestVersion)) "unsupported manifest version" ;;;
  fail_if ((len (mf_Artifact m) =? 0) || (512 <? len (mf_Artifact m)) || (len (mf_Target m) =? 0) ||
           (256 <? len (mf_Target m)) || (len (mf_KeyID m) =? 0) || (512 <? len (mf_KeyID m)))
    "invalid manifest identity fields" ;;;
  fail_if (negb (has_prefix (mf_Digest m) "sha256:") || negb (len (mf_Digest m) =? 71))
    "invalid artifact digest" ;;;
  fail_if (negb (hex_decodable (trim_prefix (mf_Digest m) "sha256:"))) "invalid artifact digest" ;;;
  fail_if ((mf_SizeBytes m =? 0) || (MaxArtifactBytes <? mf_SizeBytes m) ||
           (mf_ExpiresAt m <=? mf_IssuedAt m))
    "invalid artifact size or validity interval".

(** [writeString(output, value)]: a 32-bit length and the bytes. *)
Definition writeString (value : string) : bytes := be_string 4 (len value mod 2 ^ 32) +:+ value.

Definition signingMessage (m : Manifest) : bytes :=
  "TOS-AI-UPDATE-MANIFEST" +:+ be_string 1 0 +:+ be_string 1 (mf_Version m) +:+
  writeString (mf_Artifact m) +:+ writeString (mf_Digest m) +:+ be_string 8 (mf_SizeBytes m) +:+
  writeString (mf_Target m) +:+ be_string 8 (mf_SecurityRevision m) +:+
  be_string 8 (mf_IssuedAt m) +:+ be_string 8 (mf_ExpiresAt m) +:+ writeString (mf_KeyID m).

(** A stream: its bytes, then the end of file or an error. *)
Record reader := { rd_data : bytes; rd_err : option string }.

(** [io.Copy(w, io.LimitReader(r, n))]: the bytes copied and the error. *)
Definition copy_limited (r : reader) (n : Z) : bytes * option string :=
  (str_take (Z.to_nat n) (rd_data r), if n <=? len (rd_data r) then None else rd_err r).

Definition VerifyArtifact (m : Manifest) (r : reader) : result unit :=
  validateStructure m ;;;
  fail_if (MaxArtifactBytes <? mf_SizeBytes m) "artifact exceeds hard size limit" ;;;
  let '(copied, err) := copy_limited r (mf_SizeBytes m + 1) in
  match err with
  | Some e => Err e
  | None =>
      fail_if (negb (len copied =? mf_SizeBytes m)) "artifact size mismatch" ;;;
      fail_if (digest copied <>s? mf_Digest m) "artifact digest mismatch"
  end.

(** crypto/ed25519. *)
Class Ed25519 := {
  ed_sign : bytes -> bytes -> bytes;            (* private key, message *)
  ed_verify : bytes -> bytes -> bytes -> bool;  (* public key, message, signature *)
  ed_public : bytes -> bytes;                   (* private key *)
}.

(** What the package documents: a signature is 64 bytes and verifies under the
    public key of the private key that made it; no other length verifies. *)
Class Ed25519Laws `{Ed25519} := {
  ed_sign_verify : forall sk msg, len sk = 64 -> ed_verify (ed_public sk) msg (ed_sign sk msg) = true;
  ed_verify_length : forall pk msg s, ed_verify pk msg s = true -> len s = 64;
}.

Section Verify.
Context `{Ed25519}.

Definition Sign (manifest : Manifest) (privateKey : bytes) : result Manifest :=
  fail_if (negb (len privateKey =? 64)) "invalid Ed25519 private key" ;;;
  validateStructure manifest ;;;
  Ok (set_Signature manifest (b64_encode (ed_sign privateKey (signingMessage manifest)))).

Definition VerifyInstalled (m : Manifest) (publicKey : bytes) (target : string)
    (currentSecurityRevision : Z) : result unit :=
  fail_if (negb (len publicKey =? 32)) "invalid Ed25519 public key" ;;;
  validateStructure m ;;;
  fail_if (mf_Target m <>s? target) "artifact target mismatch" ;;;
  fail_if (mf_SecurityRevision m <? currentSecurityRevision) "security revision rollback rejected" ;;;
  match b64_decode (mf_Signature m) with
  | Some signature =>
      fail_if (negb (ed_verify publicKey (signingMessage m) signature)) "manifest signature verification failed"
  | None => Err "manifest signature verification failed"
  end.

(** [now] is in nanoseconds since the epoch. *)
Definition Verify (m : Manifest) (publicKey : bytes) (target : string) (currentSecurityRevision : Z)
    (now : Z) : result unit :=
  VerifyInstalled m publicKey target currentSecurityRevision ;;;
  fail_if ((now + 2 * time_Minute <? mf_IssuedAt m * time_Millisecond) ||
           negb (now <? mf_ExpiresAt m * time_Millisecond))
    "manifest is outside its validity window".

End Verify.

(** ** Lemmas *)

Record structured (m : Manifest) : Prop := {
  ms_version : mf_Version m = 1;
  ms_artifact : 0 < len (mf_Artifact m) <= 512;
  ms_target : 0 < len (mf_Target m) <= 256;
  ms_key : 0 < len (mf_KeyID m) <= 512;
  ms_prefix : has_prefix (mf_Digest m) "sha256:" = true;
  ms_digest : len (mf_Digest m) = 71;
  ms_hex : hex_decodable (trim_prefix (mf_Digest m) "sha256:") = true;
  ms_size : 0 < mf_SizeBytes m <= MaxArtifactBytes;
  ms_window : mf_IssuedAt m < mf_ExpiresAt m;
}.

Lemma validateStructure_ok m u : u64 (mf_SizeBytes m) -> validateStructure m = Ok u -> structured m.
Proof.
  intros Hs H. unfold validateStructure in H. result_inv. bool_props.
  pose proof (len_nonneg (mf_Artifact m)). pose proof (len_nonneg (mf_Target m)).
  pose proof (len_nonneg (mf_KeyID m)). unfold u64 in Hs. constructor; auto; lia.
Qed.

Lemma writeString_app_inj s t u v :
  len s < 2 ^ 32 -> len t < 2 ^ 32 -> writeString s +:+ u = writeString t +:+ v -> s = t /\ u = v.
Proof.
  intros Hs Ht H. pose proof (len_nonneg s) as Ns. pose proof (len_nonneg t) as Nt. unfold writeString in H.
  rewrite <- !str_app_assoc in H. apply str_app_inj in H as [H1 H2]; [|by rewrite !be_string_length].
  rewrite !Z.mod_small in H1 by lia. apply be_string_u32 in H1; [|unfold u32; lia..].
  apply str_app_inj in H2; [done|]. unfold len in H1. lia.
Qed.

Lemma be_app_inj n x y u v : be_string n x +:+ u = be_string n y +:+ v -> be_string n x = be_string n y /\ u = v.
Proof. intros H. apply str_app_inj in H; [done|]. by rewrite !be_string_length. Qed.

(** The signed bytes determine every signed field. *)
Lemma signed_fields m1 m2 :
  Manifest_wf m1 -> Manifest_wf m2 -> structured m1 -> structured m2 ->
  signingMessage m1 = signingMessage m2 -> set_Signature m1 "" = set_Signature m2 "".
Proof.
  intros (_ & S1 & R1 & I1 & E1) (_ & S2 & R2 & I2 & E2) W1 W2 H. unfold signingMessage in H.
  apply str_app_inj in H as [_ H]; [|done]. apply be_app_inj in H as [_ H]. apply be_app_inj in H as [_ H].
  destruct W1, W2.
  apply writeString_app_inj in H as [HA H]; [|lia..]. apply writeString_app_inj in H as [HD H]; [|lia..].
  apply be_app_inj in H as [HS H]. apply writeString_app_inj in H as [HT H]; [|lia..].
  apply be_app_inj in H as [HR H]. apply be_app_inj in H as [HI H]. apply be_app_inj in H as [HE H].
  rewrite <- (str_app_nil (writeString (mf_KeyID m1))), <- (str_app_nil (writeString (mf_KeyID m2))) in H.
  apply writeString_app_inj in H as [HK _]; [|lia..].
  apply be_string_u64 in HS; [|done..]. apply be_string_u64 in HR; [|done..].
  apply be_string_i64 in HI; [|done..]. apply be_string_i64 in HE; [|done..].
  unfold set_Signature. congruence.
Qed.

Lemma VerifyInstalled_parts `{Ed25519} m pk target rev u :
  VerifyInstalled m pk target rev = Ok u ->
  validateStructure m = Ok tt /\ len pk = 32 /\ mf_Target m = target /\ rev <= mf_SecurityRevision m /\
  exists signature, b64_decode (mf_Signature m) = Some signature /\
    ed_verify pk (signingMessage m) signature = true.
Proof.
  unfold VerifyInstalled. intros Hv. result_inv. destruct (b64_decode (mf_Signature m)) as [s|]; [|done].
  result_inv. bool_props. split_and!; try done. by exists s.
Qed.

Lemma str_take_len n s : 0 <= n -> len (str_take (Z.to_nat n) s) = Z.min n (len s).
Proof. intros. unfold len. rewrite str_take_length. lia. Qed.

(** What an accepted artifact is. *)
Lemma VerifyArtifact_ok m r :
  u64 (mf_SizeBytes m) ->
  VerifyArtifact m r = Ok tt <->
  validateStructure m = Ok tt /\ rd_err r = None /\ len (rd_data r) = mf_SizeBytes m /\
  digest (rd_data r) = mf_Digest m.
Proof.
  intros Hu. unfold VerifyArtifact, copy_limited. split.
  - intros Hv. apply then_ok in Hv as [Hs Hv]. pose proof (validateStructure_ok _ _ Hu Hs) as W.
    apply then_ok in Hv as [_ Hv]. split; [done|].
    destruct (if _ <=? _ then None else rd_err r) as [e|] eqn:Ee; [done|]. result_inv. bool_props.
    pose proof (ms_size _ W). rewrite str_take_len in * by lia.
    assert (Hlen : len (rd_data r) = mf_SizeBytes m) by lia.
    rewrite str_take_all in * by (unfold len in *; lia).
    rewrite Hlen in Ee. destruct (mf_SizeBytes m + 1 <=? mf_SizeBytes m) eqn:E; [lia|]. done.
  - intros (Hs & He & Hl & Hd). pose proof (validateStructure_ok _ _ Hu Hs) as W. pose proof (ms_size _ W).
    rewrite Hs. cbn [rbind]. rewrite (proj2 (Z.ltb_ge _ _)) by lia. cbn [fail_if rbind].
    rewrite Hl, (proj2 (Z.leb_gt _ _)), He by lia.
    rewrite str_take_all by (unfold len in *; lia). rewrite Hl, Z.eqb_refl, Hd, String.eqb_refl. done.
Qed.

(** ** Properties *)

(** The signature binds the whole manifest: two well-formed manifests whose
    signed byte strings agree are equal in every field but the signature. *)
Theorem signingMessage_injective m1 m2
    (Hwf1 : Manifest_wf m1) (Hwf2 : Manifest_wf m2)
    (Hs1 : validateStructure m1 = Ok tt) (Hs2 : validateStructure m2 = Ok tt)
    (Heq : signingMessage m1 = signingMessage m2) :
  set_Signature m1 "" = set_Signature m2 "".
Proof.
  apply signed_fields; [done|done| | |done]; (eapply validateStructure_ok; [|done]).
  - by destruct Hwf1 as (_ & ? & _).
  - by destruct Hwf2 as (_ & ? & _).
Qed.

(** Sign and verify: a manifest signed with a private key is accepted under
    its public key for its target, for every security revision up to its own, at
    every time from two minutes before its issue until its expiry; at any other
    time, for any other target and for a higher revision it is refused. *)
Theorem Sign_Verify_roundtrip `{Ed25519Laws} m sk signed pk target rev now
    (Hsign : Sign m sk = Ok signed) (Hpk : pk = ed_public sk) (Hlen : len pk = 32) :
  Verify signed pk target rev now = Ok tt <->
  mf_Target m = target /\ rev <= mf_SecurityRevision m /\
  mf_IssuedAt m * time_Millisecond <= now + 2 * time_Minute /\ now < mf_ExpiresAt m * time_Millisecond.
Proof.
  subst pk. unfold Sign in Hsign. apply then_ok in Hsign as [Hk%fail_if_ok [Hm [= <-]]%then_ok]. bool_props.
  set (signed := set_Signature m _). assert (Hst : validateStructure signed = Ok tt) by exact Hm.
  assert (Hdec : b64_decode (mf_Signature signed) = Some (ed_sign sk (signingMessage m))) by apply b64_roundtrip.
  assert (Hver : ed_verify (ed_public sk) (signingMessage signed) (ed_sign sk (signingMessage m)) = true)
    by (by apply ed_sign_verify).
  unfold Verify. rewrite then_ok, fail_if_ok. unfold VerifyInstalled.
  rewrite Hst, Hdec, Hver, Hlen. cbn [negb fail_if rbind Z.eqb Pos.eqb].
  autorewrite with go_prop.
  change (mf_Target signed) with (mf_Target m). change (mf_SecurityRevision signed) with (mf_SecurityRevision m).
  change (mf_IssuedAt signed) with (mf_IssuedAt m). change (mf_ExpiresAt signed) with (mf_ExpiresAt m).
  tauto.
Qed.

(** An artifact is accepted exactly when the stream ends without an error
    after [SizeBytes] bytes whose SHA-256 digest is the manifest's. *)
Theorem VerifyArtifact_exact m r (Hwf : Manifest_wf m) (Hs : validateStructure m = Ok tt) :
  VerifyArtifact m r = Ok tt <->
  rd_err r = None /\ len (rd_data r) = mf_SizeBytes m /\ digest (rd_data r) = mf_Digest m.
Proof. rewrite VerifyArtifact_ok by (by destruct Hwf as (_ & ? & _)). tauto. Qed.

(** The signature text is malleable: carriage returns and newlines inserted
    into the signature of an accepted manifest leave it accepted, so the encoded
    manifest has no bound on its size. *)
Theorem Verify_ignores_newlines `{Ed25519} m s1 s2 pad pk target rev now
    (Hsig : mf_Signature m = s1 +:+ s2)
    (Hpad : str_forallb (fun c => negb (not_newline c)) pad = true)
    (Hv : Verify m pk target rev now = Ok tt) :
  Verify (set_Signature m (s1 +:+ pad +:+ s2)) pk target rev now = Ok tt.
Proof.
  unfold Verify, VerifyInstalled in *.
  change (mf_Signature (set_Signature m (s1 +:+ pad +:+ s2))) with (s1 +:+ pad +:+ s2).
  rewrite b64_decode_newlines by done. rewrite <- Hsig. exact Hv.
Qed.

(** ** Witnesses *)

Module Samples.
(** A toy signature scheme with 64-byte signatures: the key and the digest of
    the message. *)
Definition toy_sign (sk msg : bytes) : bytes := str_take 32 sk +:+ sha256_Sum256 msg.
#[export] Instance toy : Ed25519 :=
  {| ed_sign := toy_sign; ed_public sk := str_take 32 sk;
     ed_verify pk msg s := (len s =? 64) && (s =s? (pk +:+ sha256_Sum256 msg)) |}.
#[export] Instance toy_laws : Ed25519Laws.
Proof.
  split; cbn [ed_sign ed_verify ed_public toy].
  - intros sk msg Hsk. unfold toy_sign. rewrite String.eqb_refl, len_app, andb_true_r. apply Z.eqb_eq.
    unfold len in *. rewrite str_take_length, sha256_length. lia.
  - intros pk msg s Hv. bool_props. done.
Defined.

Definition sk : bytes := "0123456789abcdef0123456789abcdef0123456789abcdef0123456789abcdef".
Definition m : Manifest :=
  {| mf_Version := 1; mf_Artifact := "worker"; mf_Digest := digest "binary"; mf_SizeBytes := 6;
     mf_Target := "linux/amd64"; mf_SecurityRevision := 3; mf_IssuedAt := 1000; mf_ExpiresAt := 2000000;
     mf_KeyID := "release"; mf_Signature := "" |}.
Definition signed : Manifest := set_Signature m (b64_encode (ed_sign sk (signingMessage m))).
Lemma sign_ok : Sign m sk = Ok signed.
Proof. vm_compute. reflexivity. Qed.
Lemma m_wf : Manifest_wf m.
Proof. repeat split; vm_compute; congruence. Qed.
Lemma m_structured : validateStructure m = Ok tt.
Proof. vm_compute. reflexivity. Qed.
Lemma signed_wf : Manifest_wf signed.
Proof. repeat split; vm_compute; congruence. Qed.
Definition pk : bytes := ed_public sk.
Lemma verify_ok : Verify signed pk "linux/amd64" 3 5000000000 = Ok tt.
Proof. vm_compute. reflexivity. Qed.
End Samples.
#[local] Existing Instances Samples.toy Samples.toy_laws.

Lemma signingMessage_injective_witness : set_Signature Samples.m "" = set_Signature Samples.signed "".
Proof.
  apply (signingMessage_injective Samples.m Samples.signed Samples.m_wf Samples.signed_wf Samples.m_structured);
    vm_compute; reflexivity.
Defined.

Lemma Sign_Verify_roundtrip_witness : Verify Samples.signed Samples.pk "linux/amd64" 2 1000000000 = Ok tt.
Proof.
  apply (Sign_Verify_roundtrip Samples.m Samples.sk Samples.signed Samples.pk "linux/amd64" 2 1000000000
    Samples.sign_ok eq_refl eq_refl).
  repeat split; vm_compute; congruence.
Defined.

Lemma VerifyArtifact_exact_witness : VerifyArtifact Samples.m {| rd_data := "binary"; rd_err := None |} = Ok tt.
Proof. apply (VerifyArtifact_exact Samples.m _ Samples.m_wf Samples.m_structured). repeat split. Defined.

Lemma Verify_ignores_newlines_witness :
  Verify (set_Signature Samples.signed (mf_Signature Samples.signed +:+ String (ascii_of_nat 10) "" +:+ ""))
    Samples.pk "linux/amd64" 3 5000000000 = Ok tt.
Proof.
  apply (Verify_ignores_newlines Samples.signed (mf_Signature Samples.signed) "" (String (ascii_of_nat 10) "")
    _ _ _ _ (eq_sym (str_app_nil _)) eq_refl Samples.verify_ok).
Defined.
