(* ===== verification/SoftwareUpdate.v ===== *)
(** * pkg/softwareupdate/manager.go: the two-slot software update manager

    The manager keeps a persistent state in [state.json] and two release slots
    [a] and [b], each with an artifact and its manifest.  Its operations run in
    the file monad of [FS], so every theorem below covers failing and short
    writes, failing synchronisations, crashes and power loss. *)

From S2P Require Import Prelude GoStd Sha256 Base64 FS Json Manifest.

Definition stateVersion : Z := 1.
Definition stateName : string := "state.json".
Definition lockName : string := ".software-update.lock".
Definition artifactName : string := "artifact.bin".
Definition manifestName : string := "manifest.json".
Definition maxStateBytes : Z := Z.shiftl 4 10.
Definition maxManifestBytes : Z := Z.shiftl 16 10.

Definition validSlots (slot : string) : bool := (slot =s? "a") || (slot =s? "b").

Record Config := { cfg_Root : string; cfg_Target : string; cfg_PublicKeys : gmap string bytes }.

Record Status := {
  st_ActiveSlot : string;
  st_KnownGoodSlot : string;
  st_PendingSlot : string;
  st_AwaitingHealth : bool;
  st_BootAttempted : bool;
  st_SecurityRevision : Z;
}.

Record persistentState := {
  ps_Version : Z;
  ps_Active : string;
  ps_KnownGood : string;
  ps_Pending : string;
  ps_Previous : string;
  ps_AwaitingHealth : bool;
  ps_BootAttempted : bool;
  ps_SecurityRevision : Z;   (* uint64 *)
}.

Record Manager := {
  mg_root : string;
  mg_target : string;
  mg_publicKeys : gmap string bytes;
  mg_state : persistentState;
  mg_closed : bool;
}.

Definition set_state (m : Manager) (s : persistentState) : Manager :=
  {| mg_root := mg_root m; mg_target := mg_target m; mg_publicKeys := mg_publicKeys m; mg_state := s;
     mg_closed := mg_closed m |}.

(** The error of an operating-system call, whose text is not fixed. *)
Definition os_error : string := "operating system error".

(** [filepath.Join(root, name)] for a clean absolute root. *)
Definition join (root name : string) : string := if root =s? "/" then "/" +:+ name else root +:+ "/" +:+ name.

(** ** State checks *)

Definition validateState (s : persistentState) : result unit :=
  fail_if (negb (ps_Version s =? stateVersion)) "invalid software update state version" ;;;
  fail_if (existsb (fun slot => (slot <>s? "") && negb (validSlots slot))
             [ps_Active s; ps_KnownGood s; ps_Pending s; ps_Previous s])
    "invalid software update slot state" ;;;
  fail_if (((ps_Pending s <>s? "") && (ps_Pending s =s? ps_Active s)) ||
           ((ps_KnownGood s <>s? "") && (ps_Active s =s? "")) ||
           (ps_AwaitingHealth s && (ps_Active s =s? "")) ||
           (negb (ps_AwaitingHealth s) && ((ps_Previous s <>s? "") || ps_BootAttempted s)))
    "inconsistent software update transition".

(** The loop of [uniqueReferencedSlots]; [seen] is the list of the result. *)
Fixpoint referenced (slots seen : list string) : list string :=
  match slots with
  | [] => seen
  | slot :: rest =>
      referenced rest (if validSlots slot && negb (existsb (String.eqb slot) seen) then seen ++ [slot] else seen)
  end.

Definition uniqueReferencedSlots (s : persistentState) : list string :=
  referenced [ps_Active s; ps_KnownGood s; ps_Pending s; ps_Previous s] [].

(** ** File helpers *)

Definition requirePrivateDirectory (dir : string) : IO (result unit) :=
  info ← lstat ("", dir);
  mret (match info with
        | SErr _ => Err "software update directory is not private"
        | SOk i => fail_if (negb (bool_decide (i_kind i = Directory)) || negb (i_perm i =? o700) || negb (i_owned i))
                     "software update directory is not private"
        end).

(** [errors.Is(err, os.ErrNotExist)] is the error [ENOENT]. *)
Definition readPrivateFile (p : path) (maximum mode : Z) : IO (sys bytes) :=
  info ← lstat p;
  match info with
  | SErr e => mret (SErr e)
  | SOk i =>
      if negb (bool_decide (i_kind i = Regular)) || negb (i_perm i =? mode) || negb (i_owned i) ||
         (maximum <? len (i_data i))
      then mret (SErr EIO) else
      data ← read_file p;
      mret (match data with
            | SErr e => SErr e
            | SOk data => if maximum <? len data then SErr EIO else SOk data
            end)
  end.

Definition cleanInterruptedFiles (dir : string) : IO unit :=
  _ ← remove (dir, artifactName +:+ ".tmp");
  _ ← remove (dir, manifestName +:+ ".tmp");
  mret tt.

Definition writeAtomic (p : path) (data : bytes) (mode : Z) : IO (result unit) :=
  let temporary := (p.1, p.2 +:+ ".tmp") in
  r ← create_excl temporary mode;
  if negb (sys_ok r) then mret (Err "create atomic software update file") else
  writeErr ← write_file temporary data;
  syncErr ← fsync temporary;
  closeErr ← close_file temporary;
  if negb (sys_ok writeErr) || negb (sys_ok syncErr) || negb (sys_ok closeErr)
  then _ ← remove temporary; mret (Err os_error) else
  r ← rename temporary p;
  if negb (sys_ok r) then _ ← remove temporary; mret (Err "commit atomic software update file") else
  r ← chmod p mode;
  mret (fail_if (negb (sys_ok r)) "protect software update file").

Definition syncDirectory (dir : string) : IO (result unit) :=
  r ← open_dir dir;
  if negb (sys_ok r) then mret (Err "open software update directory") else
  r ← sync_dir dir;
  mret (fail_if (negb (sys_ok r)) "sync software update directory").

Section Manager.
Context `{Ed25519} `{Json persistentState} `{Json Manifest}.

Definition storeState (m : Manager) (s : persistentState) : IO (result unit) :=
  match validateState s with
  | Err e => mret (Err e)
  | Ok _ =>
      r ← writeAtomic (mg_root m, stateName) (json_marshal s) o600;
      match r with
      | Err e => mret (Err e)
      | Ok _ => syncDirectory (mg_root m)
      end
  end.

(** [next := m.state; ...; if err := m.storeState(next) ...; m.state = next]. *)
Definition commit (m : Manager) (next : persistentState) : IO (result unit * Manager) :=
  r ← storeState m next;
  mret (match r with
        | Err e => (Err e, m)
        | Ok _ => (Ok tt, set_state m next)
        end).

Definition readManifest (m : Manager) (slot : string) : IO (result Manifest) :=
  if negb (validSlots slot) then mret (Err "invalid software update slot") else
  data ← readPrivateFile (join (mg_root m) slot, manifestName) maxManifestBytes o600;
  mret (match data with
        | SErr _ => Err "read installed software manifest"
        | SOk data => match json_unmarshal data with
                      | Some manifest => Ok manifest
                      | None => Err "decode installed software manifest"
                      end
        end).

(** A missing key is the empty key. *)
Definition key_of (m : Manager) (keyID : string) : bytes := default "" (mg_publicKeys m !! keyID).

Definition verifyInstalledSlot (m : Manager) (slot : string) (revision : Z) : IO (result unit) :=
  manifest ← readManifest m slot;
  match manifest with
  | Err e => mret (Err e)
  | Ok manifest =>
      match VerifyInstalled manifest (key_of m (mf_KeyID manifest)) (mg_target m) revision with
      | Err _ => mret (Err "installed software manifest failed verification")
      | Ok _ =>
          let p := (join (mg_root m) slot, artifactName) in
          info ← lstat p;
          match info with
          | SErr _ => mret (Err "invalid installed software artifact")
          | SOk i =>
              if negb (bool_decide (i_kind i = Regular))
              then mret (Err "invalid installed software artifact") else
              data ← read_file p;
              match data with
              | SErr _ => mret (Err "open installed software artifact")
              | SOk data =>
                  if negb (i_perm i =? o500) || negb (i_owned i) || negb (len data =? mf_SizeBytes manifest)
                  then mret (Err "invalid installed software artifact") else
                  mret (if is_ok (VerifyArtifact manifest {| rd_data := data; rd_err := None |})
                        then Ok tt else Err "installed software artifact failed verification")
              end
          end
      end
  end.

Fixpoint verifySlots (m : Manager) (slots : list string) (revision : Z) : IO (result unit) :=
  match slots with
  | [] => mret (Ok tt)
  | slot :: rest =>
      r ← verifyInstalledSlot m slot revision;
      match r with Err e => mret (Err e) | Ok _ => verifySlots m rest revision end
  end.

(** What the first and the second opener after an activation make of the state. *)
Definition boot_state (s : persistentState) : persistentState :=
  {| ps_Version := ps_Version s; ps_Active := ps_Active s; ps_KnownGood := ps_KnownGood s;
     ps_Pending := ps_Pending s; ps_Previous := ps_Previous s; ps_AwaitingHealth := ps_AwaitingHealth s;
     ps_BootAttempted := true; ps_SecurityRevision := ps_SecurityRevision s |}.

Definition fallback_state (s : persistentState) : persistentState :=
  {| ps_Version := ps_Version s; ps_Active := if validSlots (ps_KnownGood s) then ps_KnownGood s else "";
     ps_KnownGood := ps_KnownGood s; ps_Pending := ps_Pending s; ps_Previous := "";
     ps_AwaitingHealth := false; ps_BootAttempted := false; ps_SecurityRevision := ps_SecurityRevision s |}.

Definition loadAndRecover (m : Manager) : IO (result Manager) :=
  data ← readPrivateFile (mg_root m, stateName) maxStateBytes o600;
  match data with
  | SErr ENOENT =>
      r ← storeState m (mg_state m);
      mret (let* _ := r in Ok m)
  | SErr _ => mret (Err "read software update state")
  | SOk data =>
      match json_unmarshal data with
      | None => mret (Err "invalid software update state")
      | Some state =>
          if negb (is_ok (validateState state)) then mret (Err "invalid software update state") else
          let m := set_state m state in
          r ← verifySlots m (uniqueReferencedSlots state) (ps_SecurityRevision state);
          match r with
          | Err e => mret (Err e)
          | Ok _ =>
              if ps_AwaitingHealth state && negb (ps_BootAttempted state) then
                r ← storeState m (boot_state state);
                mret (let* _ := r in Ok (set_state m (boot_state state)))
              else if ps_AwaitingHealth state then
                r ← storeState m (fallback_state state);
                mret (let* _ := r in Ok (set_state m (fallback_state state)))
              else mret (Ok m)
          end
      end
  end.

(** The loop of [Open] over the two slots. *)
Fixpoint openSlots (root : string) (slots : list string) : IO (result unit) :=
  match slots with
  | [] => mret (Ok tt)
  | slot :: rest =>
      r ← mkdir_all (join root slot);
      if negb (sys_ok r) then mret (Err "create software update slot") else
      r ← requirePrivateDirectory (join root slot);
      match r with
      | Err e => mret (Err e)
      | Ok _ => _ ← cleanInterruptedFiles (join root slot); openSlots root rest
      end
  end.

Definition valid_key (kv : string * bytes) : bool :=
  negb ((kv.1 =s? "") || (512 <? len kv.1) || negb (len kv.2 =? 32)).

Definition initial_state : persistentState :=
  {| ps_Version := stateVersion; ps_Active := ""; ps_KnownGood := ""; ps_Pending := ""; ps_Previous := "";
     ps_AwaitingHealth := false; ps_BootAttempted := false; ps_SecurityRevision := 0 |}.

Definition Open (config : Config) : IO (result Manager) :=
  if negb (filepath_IsAbs (cfg_Root config)) || (path_Clean (cfg_Root config) <>s? cfg_Root config) ||
     (cfg_Target config =s? "") || (256 <? len (cfg_Target config)) || bool_decide (cfg_PublicKeys config = ∅)
  then mret (Err "invalid software update configuration") else
  if negb (forallb valid_key (map_to_list (cfg_PublicKeys config)))
  then mret (Err "invalid software update trust root") else
  r ← mkdir_all (cfg_Root config);
  if negb (sys_ok r) then mret (Err "create software update root") else
  r ← requirePrivateDirectory (cfg_Root config);
  match r with
  | Err e => mret (Err e)
  | Ok _ =>
      r ← acquire_lock (cfg_Root config) lockName;
      if negb (sys_ok r) then mret (Err "software update root is already owned") else
      _ ← remove (cfg_Root config, stateName +:+ ".tmp");
      r ← openSlots (cfg_Root config) ["a"; "b"];
      match r with
      | Err e => mret (Err e)
      | Ok _ =>
          loadAndRecover {| mg_root := cfg_Root config; mg_target := cfg_Target config;
            mg_publicKeys := cfg_PublicKeys config; mg_state := initial_state; mg_closed := false |}
      end
  end.

(** [manifest.VerifyArtifact(io.TeeReader(artifact, file))]: what is read is
    written to the file on the way. *)
Definition VerifyArtifact_tee (manifest : Manifest) (artifact : reader) (p : path) : IO (result unit) :=
  match validateStructure manifest with
  | Err e => mret (Err e)
  | Ok _ =>
      let '(copied, _) := copy_limited artifact (mf_SizeBytes manifest + 1) in
      w ← write_file p copied;
      mret (if negb (sys_ok w) then Err os_error else VerifyArtifact manifest artifact)
  end.

Definition pending_state (s : persistentState) (slot : string) : persistentState :=
  {| ps_Version := ps_Version s; ps_Active := ps_Active s; ps_KnownGood := ps_KnownGood s;
     ps_Pending := slot; ps_Previous := ps_Previous s; ps_AwaitingHealth := ps_AwaitingHealth s;
     ps_BootAttempted := ps_BootAttempted s; ps_SecurityRevision := ps_SecurityRevision s |}.

Definition stage_slot (s : persistentState) : string := if ps_Active s =s? "a" then "b" else "a".

(** The part of [Stage] that fills the slot; [ctxErr] is the error of the
    context after the artifact was read. *)
Definition stage_files (dir : string) (manifest : Manifest) (artifact : reader) (ctxErr : option string)
    : IO (result unit) :=
  let temporaryArtifact := (dir, artifactName +:+ ".tmp") in
  _ ← cleanInterruptedFiles dir;
  r ← create_excl temporaryArtifact o600;
  if negb (sys_ok r) then mret (Err "create staged software artifact") else
  verifyErr ← VerifyArtifact_tee manifest artifact temporaryArtifact;
  syncErr ← fsync temporaryArtifact;
  closeErr ← close_file temporaryArtifact;
  if negb (is_ok verifyErr) || negb (sys_ok syncErr) || negb (sys_ok closeErr)
  then _ ← remove temporaryArtifact; mret (Err (match verifyErr with Err e => e | Ok _ => os_error end)) else
  match ctxErr with
  | Some e => _ ← remove temporaryArtifact; mret (Err e)
  | None =>
      r ← rename temporaryArtifact (dir, artifactName);
      if negb (sys_ok r) then _ ← remove temporaryArtifact; mret (Err "commit staged software artifact") else
      r ← chmod (dir, artifactName) o500;
      if negb (sys_ok r) then mret (Err "protect staged software artifact") else
      r ← writeAtomic (dir, manifestName) (json_marshal manifest) o600;
      match r with
      | Err e => mret (Err e)
      | Ok _ => syncDirectory dir
      end
  end.

Definition Stage (m : Manager) (nil_arguments : bool) (manifest : Manifest) (artifact : reader)
    (ctxErr : option string) (now : Z) : IO (result string * Manager) :=
  if nil_arguments then mret (Err "invalid software update stage request", m) else
  if mg_closed m then mret (Err "software update manager is closed", m) else
  if (ps_Pending (mg_state m) <>s? "") || ps_AwaitingHealth (mg_state m)
  then mret (Err "software update transition already pending", m) else
  let key := key_of m (mf_KeyID manifest) in
  if negb (len key =? 32) then mret (Err "software update signing key is not trusted", m) else
  match Verify manifest key (mg_target m) (ps_SecurityRevision (mg_state m)) now with
  | Err e => mret (Err ("verify software update manifest: " +:+ e), m)
  | Ok _ =>
      let slot := stage_slot (mg_state m) in
      r ← stage_files (join (mg_root m) slot) manifest artifact ctxErr;
      match r with
      | Err e => mret (Err e, m)
      | Ok _ =>
          '(r, m') ← commit m (pending_state (mg_state m) slot);
          mret (match r with Err e => (Err e, m') | Ok _ => (Ok slot, m') end)
      end
  end.

Definition activated_state (s : persistentState) : persistentState :=
  {| ps_Version := ps_Version s; ps_Active := ps_Pending s; ps_KnownGood := ps_KnownGood s;
     ps_Pending := ""; ps_Previous := ps_Active s; ps_AwaitingHealth := true; ps_BootAttempted := false;
     ps_SecurityRevision := ps_SecurityRevision s |}.

Definition ActivatePending (m : Manager) : IO (result unit * Manager) :=
  if mg_closed m || negb (validSlots (ps_Pending (mg_state m))) || ps_AwaitingHealth (mg_state m)
  then mret (Err "no software update is ready for activation", m)
  else commit m (activated_state (mg_state m)).

Definition confirmed_state (s : persistentState) (revision : Z) : persistentState :=
  {| ps_Version := ps_Version s; ps_Active := ps_Active s; ps_KnownGood := ps_Active s;
     ps_Pending := ps_Pending s; ps_Previous := ""; ps_AwaitingHealth := false; ps_BootAttempted := false;
     ps_SecurityRevision := if ps_SecurityRevision s <? revision then revision else ps_SecurityRevision s |}.

Definition ConfirmHealthy (m : Manager) : IO (result unit * Manager) :=
  let s := mg_state m in
  if mg_closed m || negb (ps_AwaitingHealth s) || negb (ps_BootAttempted s) || negb (validSlots (ps_Active s))
  then mret (Err "no activated software update awaits health confirmation", m) else
  manifest ← readManifest m (ps_Active s);
  match manifest with
  | Err e => mret (Err e, m)
  | Ok manifest => commit m (confirmed_state s (mf_SecurityRevision manifest))
  end.

Definition rollback_state (s : persistentState) : persistentState :=
  {| ps_Version := ps_Version s; ps_Active := ps_KnownGood s; ps_KnownGood := ps_KnownGood s;
     ps_Pending := ""; ps_Previous := ""; ps_AwaitingHealth := false; ps_BootAttempted := false;
     ps_SecurityRevision := ps_SecurityRevision s |}.

Definition Rollback (m : Manager) : IO (result unit * Manager) :=
  let s := mg_state m in
  if mg_closed m || negb (validSlots (ps_KnownGood s)) ||
     (negb (ps_AwaitingHealth s) && (ps_Active s =s? ps_KnownGood s))
  then mret (Err "no known-good software rollback is available", m)
  else commit m (rollback_state s).

Definition Status_ (m : Manager) : result Status :=
  if mg_closed m then Err "software update manager is closed"
  else Ok {| st_ActiveSlot := ps_Active (mg_state m); st_KnownGoodSlot := ps_KnownGood (mg_state m);
             st_PendingSlot := ps_Pending (mg_state m); st_AwaitingHealth := ps_AwaitingHealth (mg_state m);
             st_BootAttempted := ps_BootAttempted (mg_state m);
             st_SecurityRevision := ps_SecurityRevision (mg_state m) |}.

Definition Close (m : Manager) : Manager :=
  {| mg_root := mg_root m; mg_target := mg_target m; mg_publicKeys := mg_publicKeys m; mg_state := mg_state m;
     mg_closed := true |}.

End Manager.

(** ** Names *)

Lemma str_app_ne s t : t <> "" -> s +:+ t <> s.
Proof.
  intros Ht H. apply Ht. rewrite <- (str_app_nil s) in H at 2. by apply str_app_inj in H as [_ ?].
Qed.

Lemma join_ne root a b : a <> b -> join root a <> join root b.
Proof.
  intros Hab H. apply Hab. unfold join in H.
  destruct (root =s? "/"); apply str_app_inj in H as [_ H]; try done. by apply str_app_inj in H as [_ H].
Qed.

Lemma join_root root a : a <> "" -> join root a <> root.
Proof.
  intros Ha H. unfold join in H. destruct (root =s? "/") eqn:E.
  - apply String.eqb_eq in E as ->. by apply (str_app_ne "/" a).
  - apply (str_app_ne root ("/" +:+ a)); done.
Qed.

(** ** Writing a file atomically *)

(** Whatever happens, the name holds what it held before or the complete new
    file; after a success it holds the new file. *)
Lemma writeAtomic_wp p data mode Φ d :
  always d p Φ -> Φ (Some (plain_file mode data)) ->
  wp any (writeAtomic p data mode)
    (fun r d' => always d' p Φ /\ (r = Ok tt -> d_live d' !! p = Some (plain_file mode data)))
    (fun d' => always d' p Φ) d.
Proof.
  intros Hp Hnew. unfold writeAtomic.
  assert (Hne : (p.1, p.2 +:+ ".tmp") <> p).
  { destruct p as [dir base]. intros [= E]. by apply (str_app_ne base ".tmp"). }
  cbn zeta. remember (p.1, p.2 +:+ ".tmp") as t eqn:Ht. clear Ht.
  assert (Hu : forall v d, always d p Φ -> always (d_upd t v d) p Φ)
    by (intros v d0 H0; by apply always_upd).
  assert (Hm : forall f d, always d p Φ -> always (d_mod t f d) p Φ)
    by (intros f d0 H0; by apply always_mod).
  wp_step. wp_step; [done|by apply wp_ret|].
  destruct (d_live d !! t) eqn:Hfree; cbn [fst snd]; [by apply wp_ret|]. cbn [sys_ok negb].
  wp_steps; cbn [snd]; repeat case_match; cbn [snd fst] in *; try (split; [|intros [=]]); auto 10 with fs; try discriminate.
  all: match goal with Hl : d_live (d_mod _ mark_synced _) !! _ = Some ?i |- _ =>
         rewrite !live_mod, live_upd, !decide_True in Hl by done; cbn in Hl; injection Hl as <- end.
  all: assert (Hw : forall d, always d p Φ -> always (d_upd t None (d_upd p (Some (plain_file mode data)) d)) p Φ)
    by (intros d0 H0; apply Hu, always_upd; done).
  1-2: apply Hw; auto.
  all: assert (Hl : forall d, d_live (d_upd t None (d_upd p (Some (plain_file mode data)) d)) !! p =
         Some (plain_file mode data)) by (intros d0; by rewrite live_upd, decide_False, live_upd, decide_True).
  - apply always_mod; [apply Hw; auto|]. intros _. change (Inode _ _ _ _ _ _) with (plain_file mode data).
    by rewrite Hl.
  - rewrite live_mod, decide_True by done. change (Inode _ _ _ _ _ _) with (plain_file mode data). by rewrite Hl.
Qed.

(** A directory no operation of a program touches keeps its files. *)
Definition untouched (dir : string) (d0 d : disk) : Prop :=
  forall base, d_live d !! (dir, base) = d_live d0 !! (dir, base) /\ old_values d (dir, base) = old_values d0 (dir, base).

Lemma untouched_upd dir d0 d p v : untouched dir d0 d -> p.1 <> dir -> untouched dir d0 (d_upd p v d).
Proof.
  intros Hd Hp base. destruct (Hd base) as [H1 H2].
  rewrite live_upd, old_upd, !decide_False by (intros ->; done). done.
Qed.

Lemma untouched_mod dir d0 d p f : untouched dir d0 d -> p.1 <> dir -> untouched dir d0 (d_mod p f d).
Proof.
  intros Hd Hp base. destruct (Hd base) as [H1 H2].
  rewrite live_mod, old_mod, decide_False by (intros ->; done). done.
Qed.

Lemma untouched_sync dir d0 d dir' : untouched dir d0 d -> dir' <> dir -> untouched dir d0 (d_sync dir' d).
Proof.
  intros Hd Hp base. destruct (Hd base) as [H1 H2].
  rewrite live_sync, old_sync, decide_False by (intros E; apply Hp; symmetry; exact E). done.
Qed.

#[local] Hint Resolve untouched_upd untouched_mod untouched_sync : fs.

Lemma writeAtomic_untouched dir d0 p data mode :
  p.1 <> dir -> keeps (untouched dir d0) (writeAtomic p data mode).
Proof. intros Hp. unfold writeAtomic. keeps_steps; keeps_file. Qed.

Lemma syncDirectory_untouched dir d0 dir' : dir' <> dir -> keeps (untouched dir d0) (syncDirectory dir').
Proof. intros Hp. unfold syncDirectory. keeps_steps; keeps_file. Qed.

Lemma cleanInterruptedFiles_untouched dir d0 dir' :
  dir' <> dir -> keeps (untouched dir d0) (cleanInterruptedFiles dir').
Proof. intros Hp. unfold cleanInterruptedFiles. keeps_steps; keeps_file. Qed.

(** ** The state invariant *)

Definition slot_name (s : string) : Prop := s = "" \/ validSlots s = true.

Record valid_state (s : persistentState) : Prop := {
  vs_version : ps_Version s = stateVersion;
  vs_active : slot_name (ps_Active s);
  vs_good : slot_name (ps_KnownGood s);
  vs_pending : slot_name (ps_Pending s);
  vs_previous : slot_name (ps_Previous s);
  vs_pending_active : ps_Pending s <> "" -> ps_Pending s <> ps_Active s;
  vs_good_active : ps_KnownGood s <> "" -> ps_Active s <> "";
  vs_awaiting : ps_AwaitingHealth s = true -> ps_Active s <> "";
  vs_settled : ps_AwaitingHealth s = false -> ps_Previous s = "" /\ ps_BootAttempted s = false;
}.

Lemma slot_name_spec s : (s <>s? "") && negb (validSlots s) = false <-> slot_name s.
Proof.
  unfold slot_name. destruct (String.eqb_spec s "") as [->|Hs]; simpl; [by split; auto|].
  destruct (validSlots s); simpl; naive_solver.
Qed.

Lemma validateState_spec s : validateState s = Ok tt <-> valid_state s.
Proof.
  unfold validateState. rewrite !then_ok, !fail_if_ok, existsb_false, !Forall_cons, Forall_nil, !slot_name_spec.
  rewrite !orb_false_iff, negb_false_iff, Z.eqb_eq. split.
  - intros (Hv & (Ha & Hg & Hp & Hq & _) & [[H1 H2] H3] & H4). constructor; auto.
    + intros E F. rewrite <- F, String.eqb_refl, (proj2 (String.eqb_neq _ _) E) in H1. done.
    + intros E F. rewrite F in H2. rewrite (proj2 (String.eqb_neq _ _) E) in H2. done.
    + intros E F. rewrite E, F in H3. done.
    + intros E. rewrite E in H4. simpl in H4. bool_props. done.
  - intros []. split_and!; auto.
    + destruct (String.eqb_spec (ps_Pending s) ""); [done|]. simpl. apply String.eqb_neq. auto.
    + destruct (String.eqb_spec (ps_KnownGood s) ""); [done|]. simpl. apply String.eqb_neq. auto.
    + destruct (ps_AwaitingHealth s); [|done]. simpl. apply String.eqb_neq. auto.
    + destruct (ps_AwaitingHealth s); [done|]. destruct vs_settled0 as [-> ->]; done.
Qed.

(** The invariant: the checks of [validateState], and that outside of a health
    window the active slot is the known-good one, inside of it a different one. *)
Record state_ok (s : persistentState) : Prop := {
  so_valid : valid_state s;
  so_revision : u64 (ps_SecurityRevision s);
  so_settled : ps_AwaitingHealth s = false -> ps_Active s = ps_KnownGood s;
  so_awaiting : ps_AwaitingHealth s = true -> ps_Pending s = "" /\ ps_Active s <> ps_KnownGood s;
}.

Lemma initial_state_ok : state_ok initial_state.
Proof. constructor; try done. by apply validateState_spec. Qed.

Lemma stage_slot_valid s : validSlots (stage_slot s) = true /\ stage_slot s <> ps_Active s.
Proof. unfold stage_slot. destruct (String.eqb_spec (ps_Active s) "a") as [->|]; by split. Qed.

Lemma pending_state_ok s :
  state_ok s -> ps_Pending s = "" -> ps_AwaitingHealth s = false -> state_ok (pending_state s (stage_slot s)).
Proof.
  intros [[] Hr Hs Ha] Hp Hw. destruct (stage_slot_valid s). constructor; simpl; auto; [|congruence].
  constructor; simpl; auto. by right.
Qed.

Lemma activated_state_ok s :
  state_ok s -> validSlots (ps_Pending s) = true -> ps_AwaitingHealth s = false -> state_ok (activated_state s).
Proof.
  intros [[] Hr Hs Ha] Hp Hw.
  assert (Hne : ps_Pending s <> "") by (intros E; by rewrite E in Hp).
  constructor; simpl; auto; try done.
  - constructor; simpl; auto; try done; solve [by left|by right].
  - intros _. split; [done|]. rewrite <- Hs by done. auto.
Qed.

Lemma confirmed_state_ok s rev :
  state_ok s -> validSlots (ps_Active s) = true -> ps_AwaitingHealth s = true -> u64 rev ->
  state_ok (confirmed_state s rev).
Proof.
  intros [[] Hr Hs Ha] Hv Hw Hu. destruct (Ha Hw) as [Hp _].
  assert (Hne : ps_Active s <> "") by (intros E; by rewrite E in Hv).
  constructor; simpl; auto; try done; [|by case_match].
  constructor; simpl; auto; try done; by left.
Qed.

Lemma rollback_state_ok s : state_ok s -> validSlots (ps_KnownGood s) = true -> state_ok (rollback_state s).
Proof.
  intros [[] Hr Hs Ha] Hv. constructor; simpl; auto; try done.
  constructor; simpl; auto; try done; by left.
Qed.

Lemma boot_state_ok s : state_ok s -> ps_AwaitingHealth s = true -> state_ok (boot_state s).
Proof.
  intros [[] Hr Hs Ha] Hw. constructor; simpl; auto. constructor; simpl; auto. congruence.
Qed.

Lemma fallback_known_good s : state_ok s -> ps_Active (fallback_state s) = ps_KnownGood s.
Proof. intros [[] _ _ _]. simpl. destruct vs_good0 as [-> | ->]; done. Qed.

Lemma fallback_state_ok s : state_ok s -> ps_AwaitingHealth s = true -> state_ok (fallback_state s).
Proof.
  intros Hok Hw. pose proof (fallback_known_good s Hok) as Hg. destruct Hok as [[] Hr Hs Ha].
  destruct (Ha Hw) as [Hp _]. constructor; cbn [fallback_state ps_AwaitingHealth ps_SecurityRevision] in *; auto; try done.
  constructor; cbn [fallback_state ps_Version ps_KnownGood ps_Pending ps_Previous ps_AwaitingHealth ps_BootAttempted]; auto;
    change (if validSlots (ps_KnownGood s) then ps_KnownGood s else "") with (ps_Active (fallback_state s)); rewrite ?Hg; auto; try done. by left.
Qed.

(** ** The state file *)

Section Proofs.
Context `{Ed25519} `{Json persistentState} `{Json Manifest} {state_laws : JsonLaws persistentState}.

(** What the state and manifest encodings promise: a valid state is encoded
    within the bound of the reader, and a decoded manifest has the ranges of its
    Go types. *)
Class UpdateJson : Prop := {
  uj_state : forall s, valid_state s -> u64 (ps_SecurityRevision s) ->
    json_representable s /\ len (json_marshal s) <= maxStateBytes;
  uj_typed : forall b (m : Manifest), json_unmarshal b = Some m -> Manifest_wf m;
}.
Context {uj : UpdateJson}.

Definition state_file (s : persistentState) : inode := plain_file o600 (json_marshal s).

(** On disk, and after any power loss, the state file is absent (where [N]
    allows it) or the complete encoding of a state in [Ψ]. *)
Definition on_file (N : Prop) (Ψ : persistentState -> Prop) (v : option inode) : Prop :=
  (N /\ v = None) \/ exists s, Ψ s /\ v = Some (state_file s).

Definition file_inv (N : Prop) (Ψ : persistentState -> Prop) (root : string) (d : disk) : Prop :=
  always d (root, stateName) (on_file N Ψ).

Lemma on_file_settles N Ψ v v' : on_file N Ψ v -> settles v v' -> on_file N Ψ v'.
Proof.
  intros [[HN ->]|(s & Hs & ->)] Hst; inversion Hst; subst; [by left|right; eauto|done].
Qed.

Lemma file_inv_power_loss N Ψ root d d' : file_inv N Ψ root d -> power_loss d d' -> file_inv N Ψ root d'.
Proof. intros Hf Hp. eapply always_power_loss; [|exact Hf|exact Hp]. apply on_file_settles. Qed.

Lemma file_inv_mono N Ψ Ψ' root d :
  file_inv N Ψ root d -> (forall s, Ψ s -> Ψ' s) -> file_inv N Ψ' root d.
Proof. intros Hf Himp. eapply always_mono; [exact Hf|]. intros v [?|(s & ? & ->)]; [by left|right; eauto]. Qed.

Lemma syncDirectory_keeps_always dir p Φ : keeps (fun d => always d p Φ) (syncDirectory dir).
Proof. unfold syncDirectory. keeps_steps; auto with fs. Qed.

Lemma storeState_wp N Ψ m s d :
  file_inv N Ψ (mg_root m) d -> (valid_state s -> Ψ s) ->
  wp any (storeState m s)
    (fun r d' => file_inv N Ψ (mg_root m) d' /\
       (r = Ok tt -> valid_state s /\ file_inv False (eq s) (mg_root m) d'))
    (file_inv N Ψ (mg_root m)) d.
Proof.
  intros Hf Hs. unfold storeState. destruct (validateState s) as [[]|e] eqn:Hv; [|apply wp_ret; split; [done|intros [=]]].
  apply validateState_spec in Hv. wp_step.
  eapply wp_mono; [apply (writeAtomic_wp _ _ _ (on_file N Ψ)); [done|]| |done].
  { right. exists s. split; [auto|done]. }
  intros r d1 [Hf1 Hlive]. destruct r as [[]|e]; [|apply wp_ret; split; [done|intros [=]]].
  specialize (Hlive eq_refl). unfold syncDirectory.
  wp_steps; try done; (split; [auto with fs; by apply always_sync|]); try (intros [=]; fail).
  intros _. split; [done|]. apply always_synced. rewrite Hlive. right. by exists s.
Qed.

Lemma commit_wp N Ψ m s d :
  file_inv N Ψ (mg_root m) d -> (valid_state s -> Ψ s) ->
  wp any (commit m s)
    (fun r d' => file_inv N Ψ (mg_root m) d' /\
       ((exists e, r = (Err e, m)) \/
        r = (Ok tt, set_state m s) /\ valid_state s /\ file_inv False (eq s) (mg_root m) d'))
    (file_inv N Ψ (mg_root m)) d.
Proof.
  intros Hf Hs. unfold commit. wp_step. eapply wp_mono; [by apply storeState_wp| |done].
  intros r d1 [Hf1 Hok]. apply wp_ret. split; [done|]. destruct r as [[]|e]; [right|left; eauto].
  destruct (Hok eq_refl). done.
Qed.

(** Programs that only read. *)
Definition only_reads {A} (m : IO A) : Prop := forall d, wp any m (fun _ d' => d' = d) (fun d' => d' = d) d.

Lemma only_reads_bind {A B} (m : IO A) (k : A -> IO B) :
  only_reads m -> (forall a, only_reads (k a)) -> only_reads (m ≫= k).
Proof.
  intros Hm Hk d. apply wp_bind. eapply wp_mono; [apply Hm| |done]. intros a d' ->. apply Hk.
Qed.

Lemma only_reads_ret {A} (a : A) : only_reads (mret a).
Proof. intros d. by apply wp_ret. Qed.

Lemma readPrivateFile_reads p n mode : only_reads (readPrivateFile p n mode).
Proof. intros d. unfold readPrivateFile. wp_steps; done. Qed.

Lemma readManifest_reads m slot : only_reads (readManifest m slot).
Proof.
  unfold readManifest. case_match; [apply only_reads_ret|].
  apply only_reads_bind; [apply readPrivateFile_reads|]. intros. apply only_reads_ret.
Qed.

Lemma verifyInstalledSlot_reads m slot rev : only_reads (verifyInstalledSlot m slot rev).
Proof.
  unfold verifyInstalledSlot. apply only_reads_bind; [apply readManifest_reads|]. intros r d. wp_steps; done.
Qed.

Lemma verifySlots_reads m slots rev : only_reads (verifySlots m slots rev).
Proof.
  induction slots as [|slot rest IH]; simpl; [apply only_reads_ret|].
  apply only_reads_bind; [apply verifyInstalledSlot_reads|]. intros [u|e]; [done|apply only_reads_ret].
Qed.

(** Reading the state file yields the state it encodes. *)
Lemma readPrivateFile_wp p n mode d :
  wp any (readPrivateFile p n mode)
    (fun r d' => d' = d /\ (r = SErr ENOENT -> d_live d !! p = None) /\
       forall data, r = SOk data -> exists i, d_live d !! p = Some i /\ i_data i = data)
    (fun d' => d' = d) d.
Proof.
  unfold readPrivateFile.
  wp_steps; try done; (split; [done|]); (split; [intros [=]|intros ? [=]]); subst; unfold lookup_sys in *;
    repeat case_match; simplify_eq; eauto.
Qed.

Lemma file_inv_read N Ψ root d data :
  file_inv N Ψ root d -> (forall s, Ψ s -> state_ok s) ->
  (exists i, d_live d !! (root, stateName) = Some i /\ i_data i = data) ->
  exists s, Ψ s /\ json_unmarshal data = Some s.
Proof.
  intros Hf Hok (i & Hi & Hd). apply always_live in Hf. rewrite Hi in Hf.
  destruct Hf as [[_ ?]|(s & Hs & [= ->])]; [done|]. exists s. split; [done|]. subst data.
  destruct (Hok s Hs) as [Hv Hr _ _]. apply json_roundtrip, (uj_state s Hv Hr).
Qed.

(** Recovery: the manager's state is that of the file, after the boot attempt
    was recorded or the known-good slot restored. *)
Definition recovers (s s' : persistentState) : Prop :=
  s' = if ps_AwaitingHealth s then (if ps_BootAttempted s then fallback_state s else boot_state s) else s.

Lemma recovers_ok s s' : state_ok s -> recovers s s' -> state_ok s'.
Proof.
  intros Hs ->. destruct (ps_AwaitingHealth s) eqn:Ha; [|done].
  destruct (ps_BootAttempted s); auto using fallback_state_ok, boot_state_ok.
Qed.

Lemma recovers_revision s s' : recovers s s' -> ps_SecurityRevision s' = ps_SecurityRevision s.
Proof. intros ->. by destruct (ps_AwaitingHealth s), (ps_BootAttempted s). Qed.

Lemma loadAndRecover_wp N (Ψ : persistentState -> Prop) m d :
  file_inv N Ψ (mg_root m) d -> (forall s, Ψ s -> state_ok s) ->
  (forall s s', Ψ s -> recovers s s' -> Ψ s') -> (N -> Ψ (mg_state m)) ->
  wp any (loadAndRecover m)
    (fun r d' => file_inv N Ψ (mg_root m) d' /\
       forall m', r = Ok m' -> mg_root m' = mg_root m /\ mg_closed m' = mg_closed m /\ Ψ (mg_state m'))
    (file_inv N Ψ (mg_root m)) d.
Proof.
  intros Hf Hok Hrec Hinit. unfold loadAndRecover. wp_step.
  eapply wp_mono; [apply readPrivateFile_wp| |by intros d' ->].
  intros r d1 (-> & Hnone & Hdata).
  assert (Hfail : forall e, file_inv N Ψ (mg_root m) d /\
    forall m', Err e = Ok m' -> mg_root m' = mg_root m /\ mg_closed m' = mg_closed m /\ Ψ (mg_state m')) by (by split).
  destruct r as [data|[]]; [|..]; try (by apply wp_ret).
  - destruct (file_inv_read _ _ _ _ data Hf Hok (Hdata data eq_refl)) as (s & Hs & Hdec).
    rewrite Hdec. destruct (is_ok (validateState s)) eqn:Hv; cbn [negb]; [|by apply wp_ret].
    wp_step. eapply wp_mono; [apply verifySlots_reads| |by intros d' ->].
    intros [u|e] d' ->; [|by apply wp_ret]. pose proof (Hrec s _ Hs eq_refl) as Hnext.
    destruct (ps_AwaitingHealth s) eqn:Haw; cbn [andb].
    + destruct (ps_BootAttempted s) eqn:Hb; cbn [negb andb]; wp_step;
        (eapply wp_mono; [by apply (storeState_wp N Ψ)| |done]);
        intros r d2 [Hf2 _]; apply wp_ret; (split; [done|]); intros m' Hm'; destruct r as [[]|e]; cbn [rbind] in Hm'; by simplify_eq.
    + apply wp_ret. split; [done|]. by intros m' [= <-].
  - specialize (Hnone eq_refl). pose proof (always_live _ _ _ Hf) as Hl. rewrite Hnone in Hl.
    destruct Hl as [[HN _]|(s & _ & ?)]; [|done]. specialize (Hinit HN).
    wp_step. eapply wp_mono; [by apply (storeState_wp N Ψ)| |done].
    intros r d2 [Hf2 _]. apply wp_ret. split; [done|]. intros m' Hm'. destruct r as [[]|e]; cbn [rbind] in Hm'; by simplify_eq.
Qed.

Lemma untouched_file_inv N Ψ root d d' : untouched root d d' -> file_inv N Ψ root d -> file_inv N Ψ root d'.
Proof.
  intros Hu Hf v Hv. destruct (Hu stateName) as [E1 E2]. apply Hf. unfold candidate in *. by rewrite E1, E2 in Hv.
Qed.

Lemma untouched_refl dir d : untouched dir d d.
Proof. done. Qed.

Lemma keeps_always_other {A} (m : IO A) N Ψ root :
  (forall d0, keeps (untouched root d0) m) -> keeps (file_inv N Ψ root) m.
Proof.
  intros Hm d Hf. eapply wp_mono; [apply (Hm d), untouched_refl| |]; cbn beta.
  - intros a d' Hd'. by apply (untouched_file_inv N Ψ root d).
  - intros d' Hd'. by apply (untouched_file_inv N Ψ root d).
Qed.

Lemma requirePrivateDirectory_reads dir : only_reads (requirePrivateDirectory dir).
Proof. intros d. unfold requirePrivateDirectory. wp_steps; done. Qed.

Lemma only_reads_keeps {A} (m : IO A) I : only_reads m -> keeps I m.
Proof. intros Hm d Hd. eapply wp_mono; [apply Hm| |]; [by intros a d' ->|by intros d' ->]. Qed.

Lemma openSlots_untouched root d0 slots :
  root <> "" -> Forall (fun s => s <> "") slots -> keeps (untouched root d0) (openSlots root slots).
Proof.
  intros Hr. induction 1 as [|slot rest Hs _ IH]; simpl; [apply keeps_ret|].
  assert (Hj : join root slot <> root) by (by apply join_root).
  keeps_steps; auto; try (apply only_reads_keeps, requirePrivateDirectory_reads);
    try (by apply cleanInterruptedFiles_untouched); keeps_file.
Qed.

Lemma stage_files_untouched dir d0 dir' manifest artifact ctxErr :
  dir' <> dir -> keeps (untouched dir d0) (stage_files dir' manifest artifact ctxErr).
Proof.
  intros Hne. unfold stage_files, VerifyArtifact_tee. keeps_steps;
    try (by apply cleanInterruptedFiles_untouched); try (by apply writeAtomic_untouched);
    try (by apply syncDirectory_untouched); keeps_file.
Qed.

(** ** The abstract update machine *)

Inductive transition : persistentState -> persistentState -> Prop :=
| t_stage s : ps_Pending s = "" -> ps_AwaitingHealth s = false ->
    transition s (pending_state s (stage_slot s))
| t_activate s : validSlots (ps_Pending s) = true -> ps_AwaitingHealth s = false ->
    transition s (activated_state s)
| t_confirm s rev : ps_AwaitingHealth s = true -> ps_BootAttempted s = true -> validSlots (ps_Active s) = true ->
    u64 rev -> transition s (confirmed_state s rev)
| t_rollback s : validSlots (ps_KnownGood s) = true -> transition s (rollback_state s)
| t_boot s : ps_AwaitingHealth s = true -> ps_BootAttempted s = false -> transition s (boot_state s)
| t_fallback s : ps_AwaitingHealth s = true -> ps_BootAttempted s = true -> transition s (fallback_state s).

Lemma transition_ok s s' : state_ok s -> transition s s' -> state_ok s'.
Proof.
  intros Hs Ht. destruct Ht; auto using pending_state_ok, activated_state_ok, confirmed_state_ok,
    rollback_state_ok, boot_state_ok, fallback_state_ok.
Qed.

Lemma transition_revision s s' : transition s s' -> ps_SecurityRevision s <= ps_SecurityRevision s'.
Proof. intros Ht. destruct Ht; simpl; try lia. destruct (Z.ltb_spec (ps_SecurityRevision s) rev); lia. Qed.

Lemma recovers_transition s s' : recovers s s' -> s' = s \/ transition s s'.
Proof.
  intros ->. destruct (ps_AwaitingHealth s) eqn:Ha; [|by left].
  destruct (ps_BootAttempted s) eqn:Hb; right; by constructor.
Qed.

(** The operations of an open manager. *)
Inductive uop :=
| UStage (nil_arguments : bool) (manifest : Manifest) (artifact : reader) (ctxErr : option string) (now : Z)
| UActivate
| UConfirm
| URollback.

Definition run_op (o : uop) (m : Manager) : IO (bool * Manager) :=
  match o with
  | UStage n mf a c now => '(r, m') ← Stage m n mf a c now; mret (is_ok r, m')
  | UActivate => '(r, m') ← ActivatePending m; mret (is_ok r, m')
  | UConfirm => '(r, m') ← ConfirmHealthy m; mret (is_ok r, m')
  | URollback => '(r, m') ← Rollback m; mret (is_ok r, m')
  end.

Lemma run_op_confirm m w r m' w' :
  ConfirmHealthy m w = (Done (r, m'), w') -> run_op UConfirm m w = (Done (is_ok r, m'), w').
Proof. intros Hc. simpl. unfold mbind, io_bind. by rewrite Hc. Qed.

(** What an operation may do: fail and leave the manager as it is, or take one
    abstract transition, which is then durable. *)
Definition op_post (N : Prop) (Ψ : persistentState -> Prop) (m : Manager) (r : bool * Manager) (d' : disk) : Prop :=
  file_inv N Ψ (mg_root m) d' /\
  (r = (false, m) \/
   exists s', r = (true, set_state m s') /\ transition (mg_state m) s' /\ file_inv False (eq s') (mg_root m) d').

Lemma op_post_fail N Ψ m d : file_inv N Ψ (mg_root m) d -> op_post N Ψ m (false, m) d.
Proof. intros Hf. split; [done|by left]. Qed.

Definition closed_under (Ψ : persistentState -> Prop) : Prop := forall s s', Ψ s -> transition s s' -> Ψ s'.

Lemma commit_op N Ψ m s' d :
  file_inv N Ψ (mg_root m) d -> Ψ (mg_state m) -> closed_under Ψ -> transition (mg_state m) s' ->
  wp any (commit m s') (fun r d' => op_post N Ψ m (is_ok r.1, r.2) d') (file_inv N Ψ (mg_root m)) d.
Proof.
  intros Hf Hm Hcl Ht.
  eapply wp_mono; [apply (commit_wp N Ψ)| |done]; [done|intros _; by eapply Hcl|].
  intros r d' [Hf' Hr]. destruct Hr as [[e ->]|(-> & _ & Hd)]; [by apply op_post_fail|].
  split; [done|]. right. by exists s'.
Qed.

Lemma readManifest_wp m slot d :
  wp any (readManifest m slot)
    (fun r d' => d' = d /\ forall mf, r = Ok mf -> Manifest_wf mf) (fun d' => d' = d) d.
Proof.
  unfold readManifest. wp_step; [apply wp_ret; by split|].
  wp_step. eapply wp_mono; [apply readPrivateFile_reads| |done]. intros r d' ->. apply wp_ret. split; [done|].
  intros mf Hmf. destruct r as [data|]; [|done]. destruct (json_unmarshal data) eqn:Hd; [|done].
  injection Hmf as ->. by apply uj_typed in Hd.
Qed.

(** Close a branch that returns an error and the unchanged manager. *)
Ltac op_fails := wp_step; wp_step; by apply op_post_fail.

Lemma run_op_wp N Ψ o m d :
  file_inv N Ψ (mg_root m) d -> Ψ (mg_state m) -> closed_under Ψ -> mg_root m <> "" ->
  wp any (run_op o m) (op_post N Ψ m) (file_inv N Ψ (mg_root m)) d.
Proof.
  intros Hf Hm Hcl Hroot. destruct o; simpl; wp_step.
  - unfold Stage. repeat (wp_step; [op_fails|]). cbn zeta. wp_step; [|op_fails]. wp_step.
    apply (keeps_mono (file_inv N Ψ (mg_root m))); [|done| |done].
    { apply keeps_always_other. intros d0. apply stage_files_untouched, join_root.
      destruct (stage_slot_valid (mg_state m)) as [Hv _]. intros E'. by rewrite E' in Hv. }
    intros r d1 Hf1. destruct r as [u|e]; [|op_fails]. bool_props. wp_step.
    eapply wp_mono; [apply (commit_op N Ψ); [done|done|done|by apply t_stage]| |done].
    intros [[] m'] d2 Hr; apply wp_ret; by wp_step.
  - unfold ActivatePending. wp_step; [op_fails|]. bool_props.
    eapply wp_mono; [apply (commit_op N Ψ); [done|done|done|by apply t_activate]| |done].
    intros [r m'] d2 Hr. by wp_step.
  - unfold ConfirmHealthy. cbn zeta. wp_step; [op_fails|]. bool_props. wp_step.
    eapply wp_mono; [apply readManifest_wp| |by intros d' ->]. intros r d' [-> Hwf].
    destruct r as [mf|e]; [|op_fails]. destruct (Hwf mf eq_refl) as (_ & _ & Hrev & _).
    eapply wp_mono; [apply (commit_op N Ψ); [done|done|done|by apply t_confirm]| |done].
    intros [r m'] d2 Hr. by wp_step.
  - unfold Rollback. cbn zeta. wp_step; [op_fails|]. bool_props.
    eapply wp_mono; [apply (commit_op N Ψ); [done|done|done|by apply t_rollback]| |done].
    intros [r m'] d2 Hr. by wp_step.
Qed.

Lemma Open_wp N Ψ config d :
  file_inv N Ψ (cfg_Root config) d -> (forall s, Ψ s -> state_ok s) -> closed_under Ψ -> (N -> Ψ initial_state) ->
  wp any (Open config)
    (fun r d' => file_inv N Ψ (cfg_Root config) d' /\
       forall m, r = Ok m -> mg_root m = cfg_Root config /\ mg_root m <> "" /\ Ψ (mg_state m))
    (file_inv N Ψ (cfg_Root config)) d.
Proof.
  intros Hf Hok Hcl Hinit. unfold Open. wp_step; [apply wp_ret; by split|]. bool_props.
  assert (Hroot : cfg_Root config <> "") by (intros E'; by rewrite E' in *).
  wp_step; [apply wp_ret; by split|].
  assert (Hfile : forall d', untouched (cfg_Root config) d d' -> file_inv N Ψ (cfg_Root config) d')
    by (intros d' Hd'; by apply (untouched_file_inv N Ψ _ d)).
  assert (Hmk : forall d, untouched (cfg_Root config) d d) by apply untouched_refl.
  wp_step. apply (keeps_mono (untouched (cfg_Root config) d)); [| |cbn beta|done]; [|done|].
  { apply keeps_op. intros d1 Hd1. repeat case_match; cbn [snd]; auto. apply untouched_upd; [done|]. simpl. by apply not_eq_sym. }
  intros r d1 Hd1. wp_step; [apply wp_ret; by split; [apply Hfile|]|].
  wp_step. apply (keeps_mono (untouched (cfg_Root config) d)); [|done|cbn beta|done].
  { apply only_reads_keeps, requirePrivateDirectory_reads. }
  intros r2 d2 Hd2. destruct r2 as [u|e]; [|apply wp_ret; by split; [apply Hfile|]].
  wp_step. apply (keeps_mono (untouched (cfg_Root config) d)); [|done|cbn beta|done].
  { by apply keeps_op. }
  intros r3 d3 Hd3. wp_step; [apply wp_ret; by split; [apply Hfile|]|].
  (* the leftover temporary state file is in the root directory *)
  wp_step. eapply (keeps_mono (file_inv N Ψ (cfg_Root config))); [|by apply Hfile| |done].
  { apply keeps_op. intros d4 Hd4. case_match; cbn [snd]; [|done]. apply always_upd; [done|].
    intros [= E']. }
  cbn beta. intros r4 d4 Hd4.
  wp_step. apply (keeps_mono (file_inv N Ψ (cfg_Root config))); [|done|cbn beta|done].
  { apply keeps_always_other. intros d0. apply openSlots_untouched; [done|]. repeat constructor; done. }
  intros r5 d5 Hd5. destruct r5 as [u5|e]; [|apply wp_ret; by split].
  eapply wp_mono; [apply (loadAndRecover_wp N Ψ); simpl; [done|done| |done]| |done].
  { intros s s' Hs [->|Ht]%recovers_transition; [done|by eapply Hcl]. }
  intros r6 d6 [Hf6 Hm6]. split; [done|]. intros m Hm. destruct (Hm6 m Hm) as (-> & _ & ?). done.
Qed.

(** ** Histories

    A process opens the manager, runs operations on it, dies at any point, or
    the machine loses power; the next process opens the same root. *)
Inductive ustep (config : Config) : disk * option Manager -> disk * option Manager -> Prop :=
| us_open w m w' : Open config w = (Done (Ok m), w') -> ustep config (w_disk w, None) (w_disk w', Some m)
| us_open_fail w e w' : Open config w = (Done (Err e), w') -> ustep config (w_disk w, None) (w_disk w', None)
| us_open_crash w w' : Open config w = (Crashed, w') -> ustep config (w_disk w, None) (w_disk w', None)
| us_op o m w b m' w' : run_op o m w = (Done (b, m'), w') ->
    ustep config (w_disk w, Some m) (w_disk w', Some m')
| us_op_crash o m w w' : run_op o m w = (Crashed, w') -> ustep config (w_disk w, Some m) (w_disk w', None)
| us_close d m : ustep config (d, Some m) (d, Some (Close m))
| us_exit d m : ustep config (d, Some m) (d, None)
| us_power d d' om : power_loss d d' -> ustep config (d, om) (d', None).

Definition uinv (N : Prop) (Ψ : persistentState -> Prop) (config : Config) (x : disk * option Manager) : Prop :=
  file_inv N Ψ (cfg_Root config) x.1 /\
  forall m, x.2 = Some m -> mg_root m = cfg_Root config /\ mg_root m <> "" /\ Ψ (mg_state m).

Lemma uinv_step N Ψ config x y :
  (forall s, Ψ s -> state_ok s) -> closed_under Ψ -> (N -> Ψ initial_state) ->
  uinv N Ψ config x -> ustep config x y -> uinv N Ψ config y.
Proof.
  intros Hok Hcl Hinit [Hf Hm] Hs.
  destruct Hs as [w m w' Ho|w e w' Ho|w w' Ho|o m w b m' w' Ho|o m w w' Ho|d m|d m|d d' om Hp]; cbn [fst snd] in *.
  - pose proof (wp_run _ _ _ w (Open_wp N Ψ config _ Hf Hok Hcl Hinit)) as Hw. rewrite Ho in Hw.
    destruct Hw as [Hf' Hm']. split; [done|]. intros m0 [= <-]. auto.
  - pose proof (wp_run _ _ _ w (Open_wp N Ψ config _ Hf Hok Hcl Hinit)) as Hw. rewrite Ho in Hw.
    destruct Hw as [Hf' _]. by split.
  - pose proof (wp_run _ _ _ w (Open_wp N Ψ config _ Hf Hok Hcl Hinit)) as Hw. rewrite Ho in Hw. by split.
  - destruct (Hm m eq_refl) as (Hr & Hne & HΨ). rewrite <- Hr in Hf.
    pose proof (wp_run _ _ _ w (run_op_wp N Ψ o m _ Hf HΨ Hcl Hne)) as Hw. rewrite Ho in Hw.
    destruct Hw as [Hf' [[= -> ->]|(s' & [= -> ->] & Ht & _)]]; (split; [by rewrite <- Hr|]); intros m0 [= <-]; auto.
    cbn [set_state mg_root mg_state]. split_and!; [done|done|by eapply Hcl].
  - destruct (Hm m eq_refl) as (Hr & Hne & HΨ). rewrite <- Hr in Hf.
    pose proof (wp_run _ _ _ w (run_op_wp N Ψ o m _ Hf HΨ Hcl Hne)) as Hw. rewrite Ho in Hw.
    split; [by rewrite <- Hr|done].
  - split; [done|]. intros m0 [= <-]. by apply (Hm m).
  - by split.
  - split; [|done]. by eapply file_inv_power_loss.
Qed.

Lemma uinv_steps N Ψ config x y :
  (forall s, Ψ s -> state_ok s) -> closed_under Ψ -> (N -> Ψ initial_state) ->
  uinv N Ψ config x -> rtc (ustep config) x y -> uinv N Ψ config y.
Proof. intros Hok Hcl Hinit Hx Hr. induction Hr; [done|]. apply IHHr. by eapply uinv_step. Qed.

Lemma state_ok_closed : closed_under state_ok.
Proof. intros s s'. apply transition_ok. Qed.

(** A root in which no manager ever ran. *)
Definition fresh_root (config : Config) (d : disk) : Prop :=
  always d (cfg_Root config, stateName) (fun v => v = None).

Lemma fresh_uinv config d : fresh_root config d -> uinv True state_ok config (d, None).
Proof. intros Hd. split; [|done]. eapply always_mono; [exact Hd|]. intros v ->. by left. Qed.

Lemma reachable_uinv config d0 x :
  fresh_root config d0 -> rtc (ustep config) (d0, None) x -> uinv True state_ok config x.
Proof.
  intros Hd Hr. eapply uinv_steps; [| | |by apply fresh_uinv|exact Hr]; auto using state_ok_closed.
  intros _. apply initial_state_ok.
Qed.

(** Operations write only in the root and in the slot they stage. *)
Lemma storeState_untouched dir d0 m s : mg_root m <> dir -> keeps (untouched dir d0) (storeState m s).
Proof.
  intros Hne. unfold storeState. keeps_steps; try (by apply writeAtomic_untouched); by apply syncDirectory_untouched.
Qed.

Lemma commit_untouched dir d0 m s : mg_root m <> dir -> keeps (untouched dir d0) (commit m s).
Proof. intros Hne. unfold commit. keeps_steps. by apply storeState_untouched. Qed.

Lemma run_op_untouched dir d0 o m :
  mg_root m <> dir ->
  (ps_AwaitingHealth (mg_state m) = false -> join (mg_root m) (stage_slot (mg_state m)) <> dir) ->
  keeps (untouched dir d0) (run_op o m).
Proof.
  intros Hr Hs. destruct o; simpl; (apply keeps_bind; [|intros [? ?]; apply keeps_ret]).
  - unfold Stage. do 4 (keeps_step; [apply keeps_ret|]). cbn zeta. keeps_step; [|apply keeps_ret].
    bool_props. apply keeps_bind; [apply stage_files_untouched; auto|]. intros [u'|e]; [|apply keeps_ret].
    apply keeps_bind; [by apply commit_untouched|]. intros [[] ?]; apply keeps_ret.
  - unfold ActivatePending. keeps_step; [apply keeps_ret|by apply commit_untouched].
  - unfold ConfirmHealthy. keeps_step; [apply keeps_ret|].
    apply keeps_bind; [apply only_reads_keeps, readManifest_reads|]. intros [mf|e]; [by apply commit_untouched|apply keeps_ret].
  - unfold Rollback. keeps_step; [apply keeps_ret|by apply commit_untouched].
Qed.

(** ** Staging installs *)

Definition live_is (q : path) (v : option inode) (d : disk) : Prop := d_live d !! q = v.

Lemma live_is_upd q v p u d : live_is q v d -> p <> q -> live_is q v (d_upd p u d).
Proof. unfold live_is. intros <- Hne. by apply live_upd_ne. Qed.

Lemma live_is_mod q v p f d : live_is q v d -> p <> q -> live_is q v (d_mod p f d).
Proof. unfold live_is. intros <- Hne. by apply live_mod_ne. Qed.

Lemma live_is_sync q v dir d : live_is q v d -> live_is q v (d_sync dir d).
Proof. done. Qed.

#[local] Hint Resolve live_is_upd live_is_mod live_is_sync : fs.

Lemma writeAtomic_live p data mode q v :
  p <> q -> (p.1, p.2 +:+ ".tmp") <> q -> keeps (live_is q v) (writeAtomic p data mode).
Proof. intros Hp Ht. unfold writeAtomic. keeps_steps; keeps_file. Qed.

(** The two files of a slot that holds an installed release. *)
Definition installed_files (dir : string) (mf : Manifest) (data : bytes) (d : disk) : Prop :=
  always d (dir, manifestName) (fun v => v = Some (plain_file o600 (json_marshal mf))) /\
  always d (dir, artifactName) (fun v => v = Some (plain_file o500 data)).

Lemma sync_installs dir mf data d :
  live_is (dir, manifestName) (Some (plain_file o600 (json_marshal mf))) d ->
  live_is (dir, artifactName) (Some (plain_file o500 data)) d ->
  wp any (syncDirectory dir) (fun r d' => r = Ok tt -> installed_files dir mf data d') (fun _ => True) d.
Proof.
  intros Hm Ha. unfold syncDirectory. wp_steps; try done; try (intros [=]; fail).
  intros _. split; apply always_synced; done.
Qed.

Lemma write_manifest_installs dir mf data d :
  live_is (dir, artifactName) (Some (plain_file o500 data)) d ->
  wp any (r ← writeAtomic (dir, manifestName) (json_marshal mf) o600;
          match r with Err e => mret (Err e) | Ok _ => syncDirectory dir end)
    (fun r d' => r = Ok tt -> installed_files dir mf data d') (fun _ => True) d.
Proof.
  intros Ha. wp_step.
  eapply wp_mono; [apply wp_and; [apply (writeAtomic_wp _ _ _ (fun _ => True)); done|
    apply (writeAtomic_live _ _ _ (dir, artifactName)); [done|done|exact Ha]]| |done].
  intros r d' [[_ Hl] Ha']. destruct r as [[]|e]; [|apply wp_ret; intros [=]].
  by apply sync_installs; [apply Hl|].
Qed.

(** The verified copy: when it succeeds the file holds exactly the artifact. *)
Lemma VerifyArtifact_tee_wp mf art p d :
  u64 (mf_SizeBytes mf) -> live_is p (Some (new_inode o600)) d ->
  wp any (VerifyArtifact_tee mf art p)
    (fun r d' => r = Ok tt -> VerifyArtifact mf art = Ok tt /\
       live_is p (Some (Inode Regular o600 true true (rd_data art) false)) d') (fun _ => True) d.
Proof.
  intros Hu Hp. unfold VerifyArtifact_tee. destruct (validateStructure mf); [|apply wp_ret; intros [=]].
  cbn [copy_limited]. wp_step.
  wp_step; [done|by apply wp_ret|by apply wp_ret|]. apply wp_ret. cbn [sys_ok negb]. intros Hv. split; [done|].
  apply VerifyArtifact_ok in Hv as (_ & _ & Hlen & _); [|done].
  unfold live_is in *. rewrite live_mod, decide_True, Hp by done. cbn [fmap option_fmap option_map append_data new_inode i_kind i_perm i_owned i_single i_data].
  rewrite str_take_all by (unfold len in *; lia). done.
Qed.

Lemma stage_files_wp dir mf art ctxErr d :
  u64 (mf_SizeBytes mf) ->
  wp any (stage_files dir mf art ctxErr)
    (fun r d' => r = Ok tt -> VerifyArtifact mf art = Ok tt /\ installed_files dir mf (rd_data art) d')
    (fun _ => True) d.
Proof.
  intros Hu. unfold stage_files. cbn zeta. wp_step.
  apply (keeps_mono (fun _ => True)); [unfold cleanInterruptedFiles; keeps_steps; done|done| |done]. intros _ d1 _.
  set (t := (dir, artifactName +:+ ".tmp")). wp_step. wp_step; [done|apply wp_ret; intros [=]|].
  destruct (d_live d1 !! t) eqn:Hfree; cbn [fst snd sys_ok negb]; [apply wp_ret; intros [=]|].
  wp_step. eapply wp_mono; [apply VerifyArtifact_tee_wp; [done|]| |done].
  { unfold live_is. by rewrite live_upd, decide_True. }
  intros verifyErr d2 Hver. wp_step. wp_step; [done| |].
  { wp_step. wp_step; [done| |]; rewrite orb_true_r; wp_steps; try done; repeat case_match; intros [=]. }
  wp_step. wp_step; [done| |].
  { rewrite orb_true_r. wp_steps; try done; repeat case_match; intros [=]. }
  destruct verifyErr as [[]|e]; cbn [is_ok negb orb]; [|wp_steps; try done; intros [=]].
  destruct (Hver eq_refl) as [Hv Hlive]. unfold live_is in Hlive. destruct ctxErr; [wp_steps; try done; intros [=]|].
  wp_step. wp_step; [done|wp_steps; try done; intros [=]|].
  rewrite live_mod, decide_True, Hlive by done. cbn [fmap option_fmap option_map fst snd sys_ok negb].
  wp_step. wp_step; [done|wp_steps; try done; intros [=]|].
  eapply wp_mono; [apply (write_manifest_installs dir mf (rd_data art))| |done].
  { unfold live_is. rewrite live_mod, decide_True, live_upd, decide_False, live_upd, decide_True by done. done. }
  intros r d' Hr Hok. auto.
Qed.

Lemma installed_files_untouched dir mf data d d' :
  installed_files dir mf data d -> untouched dir d d' -> installed_files dir mf data d'.
Proof.
  intros [Hm Ha] Hu. split; intros v Hv; [apply Hm|apply Ha]; unfold candidate in *.
  - destruct (Hu manifestName) as [E1 E2]. by rewrite E1, E2 in Hv.
  - destruct (Hu artifactName) as [E1 E2]. by rewrite E1, E2 in Hv.
Qed.

Lemma commit_shape m s d :
  wp any (commit m s) (fun r _ => (exists e, r = (Err e, m)) \/ r = (Ok tt, set_state m s)) (fun _ => True) d.
Proof.
  unfold commit. wp_step.
  apply (keeps_mono (fun _ => True)); [unfold storeState, writeAtomic, syncDirectory; keeps_steps; done|done| |done].
  intros [[]|e] d' _; apply wp_ret; eauto.
Qed.

Lemma Stage_wp m n mf art ctxErr now d :
  u64 (mf_SizeBytes mf) -> mg_root m <> "" ->
  wp any (Stage m n mf art ctxErr now)
    (fun r d' => forall slot, r.1 = Ok slot ->
       slot = stage_slot (mg_state m) /\ r.2 = set_state m (pending_state (mg_state m) slot) /\
       Verify mf (key_of m (mf_KeyID mf)) (mg_target m) (ps_SecurityRevision (mg_state m)) now = Ok tt /\
       VerifyArtifact mf art = Ok tt /\ installed_files (join (mg_root m) slot) mf (rd_data art) d')
    (fun _ => True) d.
Proof.
  intros Hu Hroot. unfold Stage. repeat (wp_step; [apply wp_ret; by intros|]). cbn zeta.
  destruct (Verify _ _ _ _ _) as [[]|e] eqn:Hv; [|apply wp_ret; by intros]. wp_step.
  eapply wp_mono; [by apply stage_files_wp| |done]. intros r d1 Hr.
  destruct r as [[]|e]; [|apply wp_ret; by intros]. destruct (Hr eq_refl) as [Hva Hinst]. wp_step.
  assert (Hne : mg_root m <> join (mg_root m) (stage_slot (mg_state m))).
  { apply not_eq_sym, join_root. destruct (stage_slot_valid (mg_state m)) as [Hsv _]. intros E'. by rewrite E' in Hsv. }
  eapply wp_mono; [apply wp_and; [apply commit_shape|
    apply (commit_untouched (join (mg_root m) (stage_slot (mg_state m))) d1); [exact Hne|apply untouched_refl]]| |done].
  intros [r m'] d2 [Hr2 Hun]. apply wp_ret. intros slot Hslot.
  destruct Hr2 as [[e [= -> ->]]|[= -> ->]]; [done|]. simpl in Hslot. injection Hslot as <-.
  split_and!; try done. by eapply installed_files_untouched.
Qed.

(** ** Opening after a clean stop *)

Context {manifest_laws : JsonLaws Manifest}.

(** A slot that passes the checks of [verifyInstalledSlot]. *)
Definition installed (m : Manager) (rev : Z) (d : disk) (slot : string) : Prop :=
  validSlots slot = true /\
  exists mf data,
    live_is (join (mg_root m) slot, manifestName) (Some (plain_file o600 (json_marshal mf))) d /\
    live_is (join (mg_root m) slot, artifactName) (Some (plain_file o500 data)) d /\
    json_representable mf /\ len (json_marshal mf) <= maxManifestBytes /\
    VerifyInstalled mf (key_of m (mf_KeyID mf)) (mg_target m) rev = Ok tt /\
    VerifyArtifact mf {| rd_data := data; rd_err := None |} = Ok tt /\ len data = mf_SizeBytes mf.

Lemma readPrivateFile_plain p n mode data d :
  live_is p (Some (plain_file mode data)) d -> len data <= n ->
  wp no_fault (readPrivateFile p n mode) (fun r d' => r = SOk data /\ d' = d) (fun _ => False) d.
Proof.
  intros Hp Hn. unfold readPrivateFile, live_is in *. wp_ok. wp_ok. unfold lookup_sys. rewrite Hp.
  cbn [plain_file i_kind i_perm i_owned i_data]. rewrite Z.eqb_refl, (proj2 (Z.ltb_ge _ _) Hn). cbn [negb orb bool_decide decide].
  rewrite bool_decide_true by done. cbn [negb orb]. wp_ok. wp_ok. rewrite Hp. cbn [plain_file i_data].
  wp_ok. by rewrite (proj2 (Z.ltb_ge _ _) Hn).
Qed.

Lemma verifyInstalledSlot_installed m slot rev d :
  installed m rev d slot ->
  wp no_fault (verifyInstalledSlot m slot rev) (fun r d' => r = Ok tt /\ d' = d) (fun _ => False) d.
Proof.
  intros (Hs & mf & data & Hm & Ha & Hrep & Hlen & Hv & Hva & Hsize).
  unfold verifyInstalledSlot, readManifest. rewrite Hs. cbn [negb]. wp_step. wp_step.
  eapply wp_mono; [by apply readPrivateFile_plain| |done]. intros r d' [-> ->]. apply wp_ret.
  rewrite json_roundtrip, Hv by done. wp_ok. wp_ok. unfold lookup_sys, live_is in *. rewrite Ha.
  cbn [plain_file i_kind i_perm i_owned]. rewrite bool_decide_true by done. cbn [negb]. wp_ok. wp_ok. rewrite Ha.
  cbn [plain_file i_data]. rewrite Hsize, !Z.eqb_refl, Hva. cbn [negb orb is_ok]. by apply wp_ret.
Qed.

Lemma verifySlots_installed m slots rev d :
  Forall (installed m rev d) slots ->
  wp no_fault (verifySlots m slots rev) (fun r d' => r = Ok tt /\ d' = d) (fun _ => False) d.
Proof.
  induction 1 as [|slot rest Hs _ IH]; simpl; [by apply wp_ret|].
  wp_step. eapply wp_mono; [by apply verifyInstalledSlot_installed| |done]. by intros r d' [-> ->].
Qed.

(** Names that are directories or not temporary files. *)
Definition lasting (q : path) : Prop := q.1 = "" \/ has_suffix q.2 ".tmp" = false.

(** Two disks that agree on every lasting name. *)
Definition agree (d d' : disk) : Prop := forall q, lasting q -> d_live d' !! q = d_live d !! q.

Lemma agree_refl d : agree d d.
Proof. done. Qed.

Lemma agree_trans d1 d2 d3 : agree d1 d2 -> agree d2 d3 -> agree d1 d3.
Proof. intros E1 E2 q Hq. by rewrite E2, E1. Qed.

Lemma agree_upd_tmp d d' p v :
  agree d d' -> p.1 <> "" -> has_suffix p.2 ".tmp" = true -> agree d (d_upd p v d').
Proof.
  intros Ha Hd Hp q Hq. rewrite live_upd_ne; [by apply Ha|]. intros ->. destruct Hq; congruence.
Qed.

Lemma join_nonempty root a : join root a <> "".
Proof. unfold join. destruct (root =s? "/"); [done|]. by destruct root. Qed.

Lemma remove_ok p d Q :
  (forall r d', agree d d' -> d_live d' !! p = None -> (forall q, q <> p -> d_live d' !! q = d_live d !! q) -> Q r d') ->
  p.1 <> "" -> has_suffix p.2 ".tmp" = true -> wp no_fault (remove p) Q (fun _ => False) d.
Proof.
  intros HQ Hd Hp. unfold remove. wp_ok. destruct (d_live d !! p) eqn:E; cbn [fst snd].
  - apply HQ; [by apply agree_upd_tmp|by rewrite live_upd, decide_True|]. intros q Hq. by rewrite live_upd_ne.
  - by apply HQ.
Qed.

Lemma requirePrivateDirectory_ok dir d :
  d_live d !! ("", dir) = Some dir_inode ->
  wp no_fault (requirePrivateDirectory dir) (fun r d' => r = Ok tt /\ d' = d) (fun _ => False) d.
Proof. intros Hd. unfold requirePrivateDirectory. wp_ok. wp_ok. unfold lookup_sys. rewrite Hd. by wp_ok. Qed.

Lemma mkdir_all_ok dir d :
  d_live d !! ("", dir) = Some dir_inode ->
  wp no_fault (mkdir_all dir) (fun r d' => sys_ok r = true /\ d' = d) (fun _ => False) d.
Proof. intros Hd. unfold mkdir_all. wp_ok. by rewrite Hd. Qed.

Lemma openSlots_ok root slots d :
  Forall (fun s => s <> "" /\ d_live d !! ("", join root s) = Some dir_inode) slots ->
  wp no_fault (openSlots root slots)
    (fun r d' => r = Ok tt /\ agree d d' /\ forall base, d_live d' !! (root, base) = d_live d !! (root, base))
    (fun _ => False) d.
Proof.
  revert d. induction slots as [|slot rest IH]; intros d Hs; simpl; [by apply wp_ret|].
  apply Forall_cons in Hs as [[Hne Hd] Hs]. pose proof (join_root root slot Hne) as Hj.
  wp_step. eapply wp_mono; [by apply mkdir_all_ok| |done]. intros r d' [Hr ->]. rewrite Hr. cbn [negb].
  wp_step. eapply wp_mono; [by apply requirePrivateDirectory_ok| |done]. intros r' d' [-> ->].
  unfold cleanInterruptedFiles. wp_step. wp_step. apply remove_ok; [|apply join_nonempty|done]. intros r1 d1 Ha1 _ Ho1.
  wp_step. apply remove_ok; [|apply join_nonempty|done]. intros r2 d2 Ha2 _ Ho2. wp_step.
  assert (Ha : agree d d2) by (by eapply agree_trans).
  eapply wp_mono; [apply IH| |done].
  - eapply Forall_impl; [exact Hs|]. intros s [Hs1 Hs2]. split; [done|]. rewrite Ha by (by left). done.
  - intros r3 d3 (-> & Ha3 & Hr3). split; [done|]. split; [by eapply agree_trans|].
    intros base. rewrite Hr3, Ho2, Ho1; [done|..]; intros [= E']; done.
Qed.

Lemma writeAtomic_ok p data mode d :
  d_live d !! (p.1, p.2 +:+ ".tmp") = None ->
  wp no_fault (writeAtomic p data mode)
    (fun r d' => r = Ok tt /\ live_is p (Some (plain_file mode data)) d' /\
       forall q, q <> p -> q <> (p.1, p.2 +:+ ".tmp") -> d_live d' !! q = d_live d !! q) (fun _ => False) d.
Proof.
  intros Hfree. assert (Hne : (p.1, p.2 +:+ ".tmp") <> p).
  { destruct p as [dir base]. intros [= E]. by apply (str_app_ne base ".tmp"). }
  unfold writeAtomic. cbn zeta. remember (p.1, p.2 +:+ ".tmp") as t eqn:Ht. clear Ht.
  wp_ok. wp_ok. rewrite Hfree. cbn [fst snd sys_ok negb]. wp_ok. wp_ok. wp_ok. wp_ok. wp_ok. wp_ok.
  cbn [orb]. wp_ok. wp_ok. rewrite !live_mod, live_upd, !decide_True by done. cbn [fmap option_fmap option_map fst snd sys_ok negb].
  wp_ok. wp_ok. wp_ok. split; [done|]. split.
  - unfold live_is. rewrite live_mod, decide_True, live_upd, decide_False, live_upd, decide_True by done. done.
  - intros q Hq Hqt. by rewrite live_mod_ne, !live_upd_ne, !live_mod_ne, live_upd_ne by congruence.
Qed.

Lemma storeState_ok m s d :
  valid_state s -> d_live d !! (mg_root m, stateName +:+ ".tmp") = None ->
  wp no_fault (storeState m s)
    (fun r d' => r = Ok tt /\ live_is (mg_root m, stateName) (Some (state_file s)) d' /\
       forall q, q.1 <> mg_root m -> d_live d' !! q = d_live d !! q) (fun _ => False) d.
Proof.
  intros Hv Hfree. unfold storeState. apply validateState_spec in Hv. rewrite Hv.
  wp_step. eapply wp_mono; [by apply writeAtomic_ok| |done]. intros r d' (-> & Hl & Ho).
  unfold syncDirectory. wp_ok. wp_ok. wp_ok. wp_ok. wp_ok. split; [done|]. split; [done|].
  intros q Hq. cbn [d_sync d_live]. apply Ho; intros ->; done.
Qed.

Lemma referenced_spec slots seen x :
  x ∈ referenced slots seen <-> x ∈ seen \/ (x ∈ slots /\ validSlots x = true).
Proof.
  revert seen. induction slots as [|s rest IH]; intros seen; simpl; [set_solver|].
  rewrite IH, elem_of_cons. destruct (validSlots s) eqn:Hv; cbn [andb]; [|naive_solver congruence].
  destruct (existsb (String.eqb s) seen) eqn:He; cbn [negb].
  - apply existsb_exists in He as (y & Hy & ->%String.eqb_eq). apply list_elem_of_In in Hy. naive_solver.
  - rewrite elem_of_app, list_elem_of_singleton. naive_solver congruence.
Qed.

Lemma referenced_recovers s s' x :
  state_ok s -> recovers s s' -> x ∈ uniqueReferencedSlots s' -> x ∈ uniqueReferencedSlots s.
Proof.
  intros Hok Hr. unfold uniqueReferencedSlots. rewrite !referenced_spec.
  intros [Hx|[Hx Hv]]; [by left|right]. split; [|done]. rewrite Hr in Hx.
  destruct (ps_AwaitingHealth s); [|done]. destruct (ps_BootAttempted s); [|done].
  rewrite (fallback_known_good s Hok) in Hx. cbn [fallback_state ps_KnownGood ps_Pending ps_Previous] in Hx.
  assert (x <> "") by (intros ->; discriminate Hv). set_solver.
Qed.

Definition manager_of (config : Config) (s : persistentState) : Manager :=
  {| mg_root := cfg_Root config; mg_target := cfg_Target config; mg_publicKeys := cfg_PublicKeys config;
     mg_state := s; mg_closed := false |}.

(** A configuration [Open] accepts. *)
Definition config_ok (config : Config) : Prop :=
  negb (filepath_IsAbs (cfg_Root config)) || (path_Clean (cfg_Root config) <>s? cfg_Root config) ||
  (cfg_Target config =s? "") || (256 <? len (cfg_Target config)) || bool_decide (cfg_PublicKeys config = ∅) = false /\
  forallb valid_key (map_to_list (cfg_PublicKeys config)) = true.

(** A root whose state file is [s] and whose referenced slots are intact. *)
Record ready (config : Config) (s : persistentState) (d : disk) : Prop := {
  rd_root : d_live d !! ("", cfg_Root config) = Some dir_inode;
  rd_slots : Forall (fun x => x <> "" /\ d_live d !! ("", join (cfg_Root config) x) = Some dir_inode) ["a"; "b"];
  rd_state : live_is (cfg_Root config, stateName) (Some (state_file s)) d;
  rd_installed : Forall (installed (manager_of config s) (ps_SecurityRevision s) d) (uniqueReferencedSlots s);
}.

Lemma installed_same m rev d d' slot :
  installed m rev d slot ->
  (forall base, base = manifestName \/ base = artifactName ->
     d_live d' !! (join (mg_root m) slot, base) = d_live d !! (join (mg_root m) slot, base)) ->
  installed m rev d' slot.
Proof.
  intros (Hs & mf & data & Hm & Ha & Hrest) Hsame. split; [done|]. exists mf, data.
  unfold live_is in *. rewrite !Hsame by auto. done.
Qed.

Lemma ready_agree config s d d' : ready config s d -> agree d d' -> ready config s d'.
Proof.
  intros [Hr Hs Hst Hi] Ha. constructor.
  - rewrite Ha by (by left). done.
  - eapply Forall_impl; [exact Hs|]. intros x [Hx Hd]. split; [done|]. rewrite Ha by (by left). done.
  - unfold live_is in *. rewrite Ha by (by right). done.
  - eapply Forall_impl; [exact Hi|]. intros x Hx. eapply installed_same; [exact Hx|].
    intros base [-> | ->]; apply Ha; by right.
Qed.

Lemma valid_slot_ne x : validSlots x = true -> x <> "".
Proof. by intros Hx ->. Qed.

Lemma ready_recovered config s s' d d' :
  ready config s d -> state_ok s -> recovers s s' -> cfg_Root config <> "" ->
  live_is (cfg_Root config, stateName) (Some (state_file s')) d' ->
  (forall q, q.1 <> cfg_Root config -> d_live d' !! q = d_live d !! q) -> ready config s' d'.
Proof.
  intros [Hr Hs Hst Hi] Hok Hrec Hroot Hl Ho. constructor.
  - rewrite Ho by (by apply not_eq_sym). done.
  - eapply Forall_impl; [exact Hs|]. intros x [Hx Hd]. split; [done|]. rewrite Ho by (by apply not_eq_sym). done.
  - done.
  - rewrite (recovers_revision _ _ Hrec). rewrite Forall_forall in Hi |- *. intros x Hx.
    apply (referenced_recovers _ _ _ Hok Hrec) in Hx. specialize (Hi x Hx).
    apply (installed_same (manager_of config s') _ d); [exact Hi|]. intros base _. apply Ho. apply join_root, valid_slot_ne.
    by destruct Hi.
Qed.

Lemma loadAndRecover_ok config s d :
  cfg_Root config <> "" -> ready config s d -> state_ok s ->
  d_live d !! (cfg_Root config, stateName +:+ ".tmp") = None ->
  wp no_fault (loadAndRecover (manager_of config initial_state))
    (fun r d' => exists s', r = Ok (manager_of config s') /\ recovers s s' /\ ready config s' d') (fun _ => False) d.
Proof.
  intros Hroot Hready Hok Hfree. destruct (uj_state s (so_valid _ Hok) (so_revision _ Hok)) as [Hrep Hlen].
  unfold loadAndRecover. wp_step.
  eapply wp_mono; [apply (readPrivateFile_plain _ _ _ (json_marshal s)); [apply Hready|done]| |done].
  intros r d' [-> ->]. rewrite json_roundtrip by done.
  rewrite (proj2 (validateState_spec s) (so_valid _ Hok)). cbn [is_ok negb]. wp_step.
  eapply wp_mono; [apply verifySlots_installed, Hready| |done]. intros r d' [-> ->].
  assert (Hstore : forall s', recovers s s' -> wp no_fault (r ← storeState (manager_of config s) s';
      mret (let* _ := r in Ok (set_state (manager_of config s) s')))
    (fun r d' => exists s', r = Ok (manager_of config s') /\ recovers s s' /\ ready config s' d') (fun _ => False) d).
  { intros s' Hrec. wp_step. eapply wp_mono; [apply (storeState_ok (manager_of config s) s' d); [|done]| |done].
    - by apply so_valid, (recovers_ok s).
    - intros r d1 (-> & Hl & Ho). apply wp_ret. exists s'. split_and!; [done|done|]. by eapply ready_recovered. }
  unfold recovers in Hstore |- *. destruct (ps_AwaitingHealth s); cbn [andb]; [destruct (ps_BootAttempted s); cbn [negb]; by apply Hstore|].
  apply wp_ret. by exists s.
Qed.

Lemma Open_ok config s d :
  config_ok config -> ready config s d -> state_ok s ->
  wp no_fault (Open config)
    (fun r d' => exists s', r = Ok (manager_of config s') /\ recovers s s' /\ ready config s' d') (fun _ => False) d.
Proof.
  intros [Hc1 Hc2] Hready Hok. unfold Open. rewrite Hc1, Hc2. cbn [negb].
  assert (Hroot : cfg_Root config <> "") by (intros E'; rewrite E' in Hc1; done).
  wp_step. eapply wp_mono; [apply mkdir_all_ok, Hready| |done]. intros r d' [-> ->]. cbn [negb].
  wp_step. eapply wp_mono; [apply requirePrivateDirectory_ok, Hready| |done]. intros r' d' [-> ->].
  wp_ok. wp_ok. wp_step. apply remove_ok; [|done|done]. intros r1 d1 Ha1 Hnone _.
  wp_step. eapply wp_mono; [apply openSlots_ok; apply (ready_agree _ _ _ _ Hready Ha1)| |done].
  intros r2 d2 (-> & Ha2 & Hr2). apply loadAndRecover_ok; [done| |done|].
  - apply (ready_agree config s d1); [|done]. by apply (ready_agree config s d).
  - by rewrite Hr2.
Qed.

(** ** Properties *)

(** C4. Crash safety of the state: in every history of openings, operations with
    failing or short writes, crashes and power losses that starts from a fresh
    root, the state file is at every moment absent or the complete encoding of a
    consistent state, and a manager in memory has a consistent state: outside of
    a health window its active slot is the known-good one. *)
Theorem update_state_crash_safe config d0 d om
    (Hfresh : fresh_root config d0) (Hrun : rtc (ustep config) (d0, None) (d, om)) :
  always d (cfg_Root config, stateName) (fun v => v = None \/ exists s, state_ok s /\ v = Some (state_file s)) /\
  (forall m, om = Some m -> state_ok (mg_state m) /\
     (ps_AwaitingHealth (mg_state m) = false -> ps_Active (mg_state m) = ps_KnownGood (mg_state m))).
Proof.
  destruct (reachable_uinv _ _ _ Hfresh Hrun) as [Hf Hm]. split.
  - eapply always_mono; [exact Hf|]. intros v [[_ ->]|Hv]; [by left|by right].
  - intros m Hom. destruct (Hm m Hom) as (_ & _ & Hok). split; [done|]. apply Hok.
Qed.

(** C7. Refinement: an operation of a reachable manager either fails and leaves
    the manager's state unchanged, or takes exactly one transition of the abstract
    update machine, and then the new state is what any later power loss leaves in
    the state file. *)
Theorem operations_refine_machine config d0 w m o b m' w'
    (Hfresh : fresh_root config d0) (Hrun : rtc (ustep config) (d0, None) (w_disk w, Some m))
    (Hop : run_op o m w = (Done (b, m'), w')) :
  (b = false /\ m' = m) \/
  (b = true /\ transition (mg_state m) (mg_state m') /\
   always (w_disk w') (cfg_Root config, stateName) (fun v => v = Some (state_file (mg_state m')))).
Proof.
  destruct (reachable_uinv _ _ _ Hfresh Hrun) as [Hf Hm]. destruct (Hm m eq_refl) as (Hr & Hne & Hok).
  cbn [fst] in Hf. rewrite <- Hr in *.
  pose proof (wp_run _ _ _ w (run_op_wp True state_ok o m _ Hf Hok state_ok_closed Hne)) as Hw.
  rewrite Hop in Hw. destruct Hw as [_ [[= -> ->]|(s' & [= -> ->] & Ht & Hd)]]; [by left|right].
  split; [done|]. split; [done|]. eapply always_mono; [exact Hd|]. by intros v [[[] _]|(s & <- & ->)].
Qed.

(** C26. Staging never harms the running release: no operation, whatever faults
    or crash it meets, changes a file of the known-good slot of a reachable
    manager. *)
Theorem known_good_slot_untouched config d0 w m o
    (Hfresh : fresh_root config d0) (Hrun : rtc (ustep config) (d0, None) (w_disk w, Some m))
    (Hgood : ps_KnownGood (mg_state m) <> "") :
  untouched (join (mg_root m) (ps_KnownGood (mg_state m))) (w_disk w) (w_disk (run_op o m w).2).
Proof.
  destruct (reachable_uinv _ _ _ Hfresh Hrun) as [_ Hm]. destruct (Hm m eq_refl) as (_ & _ & Hok).
  apply (keeps_run (untouched _ (w_disk w))); [|done]. apply run_op_untouched.
  - by apply not_eq_sym, join_root.
  - intros Haw. apply join_ne. rewrite <- (so_settled _ Hok Haw). apply stage_slot_valid.
Qed.

(** A confirmation takes the revision of the manifest in the active slot. *)
Lemma ConfirmHealthy_revision m d :
  wp any (ConfirmHealthy m)
    (fun r _ => r.1 = Ok tt -> exists i mf,
       d_live d !! (join (mg_root m) (ps_Active (mg_state m)), manifestName) = Some i /\ json_unmarshal (i_data i) = Some mf /\
       ps_SecurityRevision (mg_state r.2) = Z.max (ps_SecurityRevision (mg_state m)) (mf_SecurityRevision mf) /\
       ps_KnownGood (mg_state r.2) = ps_Active (mg_state m))
    (fun _ => True) d.
Proof.
  unfold ConfirmHealthy, readManifest. cbn zeta. wp_step; [by apply wp_ret|]. bool_props.
  match goal with Hv : validSlots _ = true |- _ => rewrite Hv end. cbn [negb]. wp_step. wp_step.
  eapply wp_mono; [apply readPrivateFile_wp| |done].
  intros [data|e] d1 (-> & _ & Hdata); apply wp_ret; [|by apply wp_ret]. destruct (Hdata data eq_refl) as (i & Hi & <-).
  destruct (json_unmarshal (i_data i)) as [mf|] eqn:Hj; [|by apply wp_ret]. unfold commit. wp_step.
  eapply wp_mono; [apply (wp_true (storeState m _))| |done]. intros [u|e] d2 _; apply wp_ret; [|done]. intros _.
  exists i, mf. split_and!; [done|done| |done]. cbn [snd set_state mg_state confirmed_state ps_SecurityRevision].
  destruct (Z.ltb_spec (ps_SecurityRevision (mg_state m)) (mf_SecurityRevision mf)); lia.
Qed.

(** C27. Rollback protection: when the active release is confirmed healthy, the
    revision becomes the larger of the previous one and that of the manifest
    installed in the active slot; in every later history the security revision
    of any manager is at least that of the confirmed manifest, and a manifest of
    a lower revision cannot be staged. *)
Theorem confirmed_revision_is_a_floor config d0 w m m' w' d2 m2
    (Hfresh : fresh_root config d0) (Hrun : rtc (ustep config) (d0, None) (w_disk w, Some m))
    (Hconfirm : ConfirmHealthy m w = (Done (Ok tt, m'), w'))
    (Hlater : rtc (ustep config) (w_disk w', Some m') (d2, Some m2)) :
  exists i confirmed,
    d_live (w_disk w) !! (join (mg_root m) (ps_Active (mg_state m)), manifestName) = Some i /\
    json_unmarshal (i_data i) = Some confirmed /\
    ps_SecurityRevision (mg_state m') = Z.max (ps_SecurityRevision (mg_state m)) (mf_SecurityRevision confirmed) /\
    ps_SecurityRevision (mg_state m') <= ps_SecurityRevision (mg_state m2) /\
    mf_SecurityRevision confirmed <= ps_SecurityRevision (mg_state m2) /\
    (forall mf art ctxErr now w2, mf_SecurityRevision mf < mf_SecurityRevision confirmed ->
       (run_op (UStage false mf art ctxErr now) m2 w2).1 = Done (false, m2)).
Proof.
  pose proof (wp_run _ _ _ w (ConfirmHealthy_revision m (w_disk w))) as Hc. rewrite Hconfirm in Hc.
  destruct (Hc eq_refl) as (i & confirmed & Hi & Hj & Hmax & _). cbn [snd] in Hmax. exists i, confirmed. split; [done|]. split; [done|]. split; [done|].
  set (r := ps_SecurityRevision (mg_state m')).
  set (Ψ := fun s => state_ok s /\ r <= ps_SecurityRevision s).
  destruct (reachable_uinv _ _ _ Hfresh Hrun) as [Hf Hm]. destruct (Hm m eq_refl) as (Hr & Hne & Hok).
  assert (Hop := run_op_confirm _ _ _ _ _ Hconfirm). cbn [is_ok] in Hop.
  cbn [fst] in Hf. rewrite <- Hr in Hf.
  pose proof (wp_run _ _ _ w (run_op_wp True state_ok UConfirm m _ Hf Hok state_ok_closed Hne)) as Hw.
  rewrite Hop in Hw. destruct Hw as [_ [Hw|(s' & [= Hs'] & Ht & Hd)]]; [discriminate Hw|].
  assert (Hs : mg_state m' = s') by (by rewrite Hs').
  assert (Hstart : uinv False Ψ config (w_disk w', Some m')).
  { split; cbn [fst snd].
    - rewrite <- Hr. eapply file_inv_mono; [exact Hd|]. intros s <-. rewrite <- Hs. split; [|lia].
      rewrite Hs. by eapply transition_ok.
    - intros m0 [= <-]. rewrite Hs' at 1 2. cbn [set_state mg_root]. split_and!; [done|done|].
      split; [rewrite Hs; by eapply transition_ok|lia]. }
  assert (Hend : uinv False Ψ config (d2, Some m2)).
  { eapply uinv_steps; [| | |exact Hstart|exact Hlater]; [by intros s []| |done].
    intros s s2 [H1' H2'] Htr. split; [by eapply transition_ok|]. pose proof (transition_revision _ _ Htr). lia. }
  destruct Hend as [_ Hm2]. destruct (Hm2 m2 eq_refl) as (_ & _ & _ & Hrev). split; [done|]. split; [lia|].
  intros mf art ctxErr now w2 Hlt. cbn [run_op]. unfold mbind at 1, io_bind, Stage.
  destruct (mg_closed m2); [done|]. destruct (_ || _); [done|]. destruct (negb _); [done|].
  assert (Hrej : is_ok (Verify mf (key_of m2 (mf_KeyID mf)) (mg_target m2) (ps_SecurityRevision (mg_state m2)) now) = false).
  { destruct (Verify _ _ _ _ _) eqn:Hv; [|done]. apply then_ok in Hv as [Hv _].
    apply VerifyInstalled_parts in Hv as (_ & _ & _ & Hle & _). lia. }
  destruct (Verify _ _ _ _ _); done.
Qed.

(** C33. An update that is not confirmed is undone: on an intact root whose state
    awaits its first boot, the first opening records the boot attempt and keeps
    the candidate active, and the second opening (the candidate died unconfirmed)
    makes the known-good slot active again and ends the health window. *)
Theorem unconfirmed_update_falls_back config s d rand
    (Hcfg : config_ok config) (Hready : ready config s d) (Hok : state_ok s)
    (Hwait : ps_AwaitingHealth s = true) (Hfirst : ps_BootAttempted s = false) :
  exists m1 w1 m2 w2,
    Open config (World d [] rand) = (Done (Ok m1), w1) /\ mg_state m1 = boot_state s /\
    Open config (World (w_disk w1) [] rand) = (Done (Ok m2), w2) /\
    ps_Active (mg_state m2) = ps_KnownGood s /\ ps_AwaitingHealth (mg_state m2) = false /\
    d_live (w_disk w2) !! (cfg_Root config, stateName) = Some (state_file (mg_state m2)).
Proof.
  pose proof (Open_ok config s d Hcfg Hready Hok [] rand (Forall_nil_2 _)) as H1'.
  destruct (Open config (World d [] rand)) as [[r1|] w1]; [|done].
  destruct H1' as [_ (s1 & -> & Hs1 & Hr1)]. unfold recovers in Hs1. rewrite Hwait, Hfirst in Hs1.
  assert (Hok1 : state_ok s1) by (subst s1; by apply boot_state_ok).
  pose proof (Open_ok config s1 (w_disk w1) Hcfg Hr1 Hok1 [] rand (Forall_nil_2 _)) as H2'.
  destruct (Open config (World (w_disk w1) [] rand)) as [[r2|] w2] eqn:HO2; [|done].
  destruct H2' as [_ (s2 & -> & Hs2 & Hr2)]. unfold recovers in Hs2.
  rewrite Hs1 in Hs2. cbn [boot_state ps_AwaitingHealth ps_BootAttempted] in Hs2. rewrite Hwait in Hs2.
  exists (manager_of config s1), w1, (manager_of config s2), w2. split_and!; try done.
  - cbn [manager_of mg_state]. rewrite Hs2. apply (fallback_known_good (boot_state s)). by rewrite <- Hs1.
  - cbn [manager_of mg_state]. by rewrite Hs2.
  - apply Hr2.
Qed.

(** A staged release is installed: when [Stage] reports success, whatever
    faults were met on the way, the slot is not the active one, and both now and
    after any power loss it holds a manifest and an artifact that pass the
    verification of the next opening, provided the encoded manifest is within the
    bound of its reader. *)
Theorem Stage_installs m mf art ctxErr now w slot m' w' d'
    (Hroot : mg_root m <> "") (Hwf : Manifest_wf mf) (Hrep : json_representable mf)
    (Hsize : len (json_marshal mf) <= maxManifestBytes)
    (Hstage : Stage m false mf art ctxErr now w = (Done (Ok slot, m'), w'))
    (Hlater : d' = w_disk w' \/ power_loss (w_disk w') d') :
  slot <> ps_Active (mg_state m) /\ ps_Pending (mg_state m') = slot /\
  installed m' (ps_SecurityRevision (mg_state m')) d' slot.
Proof.
  pose proof (wp_run _ _ _ w (Stage_wp m false mf art ctxErr now _ (proj1 (proj2 Hwf)) Hroot)) as Hw.
  rewrite Hstage in Hw. destruct (Hw slot eq_refl) as (-> & Hm' & Hver & Hart & Hinst). cbn [snd] in Hm'.
  destruct (stage_slot_valid (mg_state m)) as [Hv Hne]. rewrite Hm'. split_and!; [done|done|].
  apply then_ok in Hver as [Hver _].
  apply VerifyArtifact_ok in Hart as (Hst & _ & Hlen & Hdig); [|by destruct Hwf as (_ & ? & _)].
  assert (Hfiles : installed_files (join (mg_root m) (stage_slot (mg_state m))) mf (rd_data art) d').
  { destruct Hlater as [->|Hp]; [done|]. destruct Hinst as [Hi1 Hi2].
    split; (eapply always_power_loss; [|eassumption|exact Hp]); intros v v' -> Hse; inversion Hse; done. }
  destruct Hfiles as [Hf1%always_live Hf2%always_live]. split; [done|]. exists mf, (rd_data art).
  split_and!; try done. apply VerifyArtifact_ok; [by destruct Hwf as (_ & ? & _)|done].
Qed.

(** A staged manifest whose encoding exceeds the reader's bound blocks the
    slot: [Stage] accepts it, but from then on no verification of the slot
    succeeds, so the manager does not open again. *)
Theorem Stage_oversized_manifest_blocks m mf art ctxErr now w slot m' w' rev w2
    (Hroot : mg_root m <> "") (Hwf : Manifest_wf mf)
    (Hsize : maxManifestBytes < len (json_marshal mf))
    (Hstage : Stage m false mf art ctxErr now w = (Done (Ok slot, m'), w'))
    (Hsame : w_disk w2 = w_disk w') :
  (verifyInstalledSlot m' slot rev w2).1 <> Done (Ok tt).
Proof.
  pose proof (wp_run _ _ _ w (Stage_wp m false mf art ctxErr now _ (proj1 (proj2 Hwf)) Hroot)) as Hw.
  rewrite Hstage in Hw. destruct (Hw slot eq_refl) as (_ & Hm' & _ & _ & Hfile & _). cbn [snd] in Hm'.
  apply always_live in Hfile.
  assert (Hbad : wp any (verifyInstalledSlot m' slot rev) (fun r _ => r <> Ok tt) (fun _ => True) (w_disk w2)).
  { unfold verifyInstalledSlot, readManifest, readPrivateFile. rewrite Hm', Hsame. cbn [set_state mg_root].
    wp_step. wp_step; [by apply wp_ret; wp_step|]. wp_step. wp_step. wp_step; [done|by repeat wp_step|].
    unfold lookup_sys. rewrite Hfile. cbn [plain_file i_kind i_perm i_owned i_data].
    rewrite (proj2 (Z.ltb_lt _ _) Hsize), orb_true_r. by repeat wp_step. }
  pose proof (wp_run _ _ _ w2 Hbad) as Hw2. destruct (verifyInstalledSlot m' slot rev w2) as [[r|] ?]; [|done].
  intros [= ->]. by apply Hw2.
Qed.

End Proofs.
