(* ===== verification/UpdateRuns.v ===== *)
(** * Runs of the software update manager

    A concrete encoding of states and manifests, a toy signature scheme, and
    the histories at which the theorems of [SoftwareUpdate] are instantiated. *)

From S2P Require Import Prelude GoStd Sha256 Base64 FS Json Manifest SoftwareUpdate.
#[local] Existing Instances Manifest.Samples.toy Manifest.Samples.toy_laws.

Definition put_bool (b : bool) : string := if b then "t" else "".
Definition get_bool (s : string) : bool := s =s? "t".

#[refine, export] Instance state_fields : Fields persistentState := {|
  to_fields s := [put_Z (ps_Version s); ps_Active s; ps_KnownGood s; ps_Pending s; ps_Previous s;
    put_bool (ps_AwaitingHealth s); put_bool (ps_BootAttempted s); put_Z (ps_SecurityRevision s)];
  of_fields l := match l with
    | [v; a; k; p; q; w; b; r] =>
        Some {| ps_Version := get_Z v; ps_Active := a; ps_KnownGood := k; ps_Pending := p; ps_Previous := q;
                ps_AwaitingHealth := get_bool w; ps_BootAttempted := get_bool b; ps_SecurityRevision := get_Z r |}
    | _ => None
    end;
  of_to_fields := _;
|}.
Proof. intros [? ? ? ? ? [] [] ?]; simpl; by rewrite !get_put_Z. Defined.

Definition manifest_strings (m : Manifest) : list string :=
  [put_Z (mf_Version m); mf_Artifact m; mf_Digest m; put_Z (mf_SizeBytes m); mf_Target m;
   put_Z (mf_SecurityRevision m); put_Z (mf_IssuedAt m); put_Z (mf_ExpiresAt m); mf_KeyID m; mf_Signature m].

Definition manifest_of (l : list string) : option Manifest :=
  match l with
  | [v; a; d; z; t; r; i; e; k; s] =>
      Some {| mf_Version := get_Z v; mf_Artifact := a; mf_Digest := d; mf_SizeBytes := get_Z z; mf_Target := t;
              mf_SecurityRevision := get_Z r; mf_IssuedAt := get_Z i; mf_ExpiresAt := get_Z e; mf_KeyID := k;
              mf_Signature := s |}
  | _ => None
  end.

#[export] Instance manifest_wf_dec m : Decision (Manifest_wf m).
Proof. unfold Manifest_wf, u64, i64. apply _. Defined.

#[export] Instance manifest_json : Json Manifest := {|
  json_marshal m := put_strings (manifest_strings m);
  json_unmarshal b := m ← get_strings b ≫= manifest_of; if decide (Manifest_wf m) then Some m else None;
|}.

Lemma manifest_of_strings m : manifest_of (manifest_strings m) = Some m.
Proof. destruct m. simpl. by rewrite !get_put_Z. Qed.

#[export] Instance manifest_json_laws : JsonLaws Manifest.
Proof.
  refine {| json_representable := Manifest_wf |}; cbn [json_marshal json_unmarshal manifest_json].
  - intros m Hm. rewrite <- (str_app_nil (put_strings _)), get_put_strings by auto.
    cbn [mbind option_bind]. rewrite manifest_of_strings. cbn [mbind option_bind]. by rewrite decide_True.
  - intros m Hm. rewrite get_put_strings by auto. cbn [mbind option_bind]. rewrite manifest_of_strings.
    cbn [mbind option_bind]. by rewrite decide_True.
  - intros m. unfold manifest_strings, put_strings, put_string.
    by destruct (put_Z (Z.of_nat (String.length (put_Z (mf_Version m))))).
Defined.

(** ** The encoding is within the bounds *)

Lemma put_pos_length n p : Zpos p < 2 ^ Z.of_nat n -> (String.length (put_pos p) < n)%nat.
Proof.
  revert p. induction n as [|n IH]; intros p Hp; [simpl in Hp; lia|].
  rewrite Nat2Z.inj_succ, Z.pow_succ_r in Hp by lia.
  destruct p as [q|q|]; simpl; [| |lia].
  - assert (Zpos q < 2 ^ Z.of_nat n) by lia. specialize (IH q). lia.
  - assert (Zpos q < 2 ^ Z.of_nat n) by lia. specialize (IH q). lia.
Qed.

Lemma put_Z_length z : u64 z -> (String.length (put_Z z) <= 65)%nat.
Proof.
  intros Hz. destruct z as [|p|p]; simpl; [lia| |unfold u64 in Hz; lia].
  pose proof (put_pos_length 64 p). unfold u64, two64 in Hz. lia.
Qed.

Lemma put_string_length s : (String.length s < 128)%nat -> (String.length (put_string s) <= String.length s + 8)%nat.
Proof.
  intros Hs. unfold put_string. rewrite !str_length_app. change (String.length ":") with 1%nat.
  destruct (Z.of_nat (String.length s)) as [|p|p] eqn:E; simpl; [lia| |lia].
  pose proof (put_pos_length 7 p). lia.
Qed.

Lemma slot_length s : slot_name s -> (String.length s <= 1)%nat.
Proof.
  intros [->|Hs]; [simpl; lia|]. unfold validSlots in Hs.
  apply orb_true_iff in Hs as [Hs|Hs]; apply String.eqb_eq in Hs as ->; simpl; lia.
Qed.

#[export] Instance update_json : UpdateJson.
Proof.
  split.
  - intros s [Hv Ha Hk Hp Hq _ _ _ _] Hr. split; [done|]. unfold len.
    cbn [json_marshal FieldsJson to_fields state_fields put_strings]. rewrite !str_length_app.
    apply slot_length in Ha, Hk, Hp, Hq. pose proof (put_Z_length _ Hr). rewrite Hv.
    assert (Hb : forall b, (String.length (put_bool b) <= 1)%nat) by (intros []; simpl; lia).
    pose proof (Hb (ps_AwaitingHealth s)). pose proof (Hb (ps_BootAttempted s)).
    pose proof (put_string_length (put_Z stateVersion) ltac:(simpl; lia)) as Hsv.
    change (String.length (put_Z stateVersion)) with 1%nat in Hsv.
    repeat match goal with |- context [String.length (put_string ?x)] =>
      lazymatch goal with Hx : (String.length (put_string x) <= _)%nat |- _ => fail | _ => pose proof (put_string_length x ltac:(lia)) end end.
    change (String.length "]") with 1%nat. change maxStateBytes with 4096. lia.
  - intros b m Hm. cbn [json_unmarshal manifest_json] in Hm.
    destruct (get_strings b) as [l|]; [|done]. simpl in Hm. destruct (manifest_of l) as [m0|]; [|done].
    simpl in Hm. destruct (decide (Manifest_wf m0)); [|done]. by injection Hm as <-.
Qed.

(** ** A history: open, stage, activate, reboot, confirm *)

Module Samples.
Definition config : Config :=
  {| cfg_Root := "/update"; cfg_Target := "linux/amd64";
     cfg_PublicKeys := {["release" := Manifest.Samples.pk]} |}.
Definition mf : Manifest := Manifest.Samples.signed.
Definition art : reader := {| rd_data := "binary"; rd_err := None |}.
Definition now : Z := 5000000000.

Definition m0 : Manager := manager_of config initial_state.
Definition m1 : Manager := set_state m0 (pending_state initial_state "a").
Definition m2 : Manager := set_state m0 (activated_state (mg_state m1)).
Definition m3 : Manager := set_state m0 (boot_state (mg_state m2)).
Definition m4 : Manager := set_state m0 (confirmed_state (mg_state m3) 3).

Definition disk0 : disk := Disk ∅ ∅ [].
Definition open0 : outcome (result Manager) * world := Open config (World disk0 [] []).
Definition stage1 : outcome (bool * Manager) * world := run_op (UStage false mf art None now) m0 open0.2.
Definition activate2 : outcome (bool * Manager) * world := run_op UActivate m1 stage1.2.
Definition open3 : outcome (result Manager) * world := Open config activate2.2.
Definition confirm4 : outcome (result unit * Manager) * world := ConfirmHealthy m3 open3.2.

Lemma open0_ok : open0 = (Done (Ok m0), open0.2).
Proof. apply pair_fst. vm_compute. reflexivity. Qed.
Lemma stage1_ok : stage1 = (Done (true, m1), stage1.2).
Proof. apply pair_fst. vm_compute. reflexivity. Qed.
Lemma activate2_ok : activate2 = (Done (true, m2), activate2.2).
Proof. apply pair_fst. vm_compute. reflexivity. Qed.
Lemma open3_ok : open3 = (Done (Ok m3), open3.2).
Proof. apply pair_fst. vm_compute. reflexivity. Qed.
Lemma confirm4_ok : confirm4 = (Done (Ok tt, m4), confirm4.2).
Proof. apply pair_fst. vm_compute. reflexivity. Qed.

Lemma fresh : fresh_root config disk0.
Proof. intros v [->|Hv]; [reflexivity|]. inversion Hv. Qed.

Lemma run0 : rtc (ustep config) (disk0, None) (w_disk open0.2, Some m0).
Proof. apply rtc_once, (us_open config (World disk0 [] [])), open0_ok. Qed.

Lemma run3 : rtc (ustep config) (disk0, None) (w_disk open3.2, Some m3).
Proof.
  eapply rtc_r; [|apply (us_open config activate2.2), open3_ok].
  eapply rtc_r; [|apply (us_exit config _ m2)].
  eapply rtc_r; [|apply (us_op config UActivate m1 stage1.2 true), activate2_ok].
  eapply rtc_r; [exact run0|]. apply (us_op config (UStage false mf art None now) m0 open0.2 true), stage1_ok.
Qed.

Lemma confirm4_step : ustep config (w_disk open3.2, Some m3) (w_disk confirm4.2, Some m4).
Proof. apply (us_op config UConfirm m3 open3.2 true), (run_op_confirm m3 open3.2 (Ok tt)), confirm4_ok. Qed.

Lemma run4 : rtc (ustep config) (disk0, None) (w_disk confirm4.2, Some m4).
Proof. eapply rtc_r; [exact run3|exact confirm4_step]. Qed.

Definition stage5 : uop := UStage false mf art None now.

(** The state after the activation, on an intact root. *)
Lemma ready2 : ready config (mg_state m2) (w_disk activate2.2).
Proof.
  constructor.
  - vm_compute. reflexivity.
  - apply Forall_cons. split; [split; [discriminate|vm_compute; reflexivity]|].
    apply Forall_cons. split; [split; [discriminate|vm_compute; reflexivity]|]. apply Forall_nil. exact I.
  - vm_compute. reflexivity.
  - change (uniqueReferencedSlots (mg_state m2)) with ["a"]. apply Forall_cons. split; [|apply Forall_nil; exact I].
    split; [reflexivity|]. exists mf, "binary". split; [vm_compute; reflexivity|]. split; [vm_compute; reflexivity|].
    split; [exact Manifest.Samples.signed_wf|]. split; [vm_compute; discriminate|].
    split; [vm_compute; reflexivity|]. split; vm_compute; reflexivity.
Qed.

(** A signature with 16384 newlines in front of it. *)
Fixpoint newlines (n : nat) : string := match n with O => "" | S n => String (ascii_of_nat 10) (newlines n) end.
Definition big : Manifest := set_Signature mf (newlines (Z.to_nat 16384) +:+ mf_Signature mf).
Definition stage_big : outcome (result string * Manager) * world := Stage m0 false big art None now open0.2.
Lemma stage_big_ok : stage_big = (Done (Ok "a", m1), stage_big.2).
Proof. apply pair_fst. vm_compute. reflexivity. Qed.
Definition stage_a : outcome (result string * Manager) * world := Stage m0 false mf art None now open0.2.
Lemma stage_a_ok : stage_a = (Done (Ok "a", m1), stage_a.2).
Proof. apply pair_fst. vm_compute. reflexivity. Qed.

(** A retry after a failed directory synchronisation: the state file already
    names the slot as pending, the manager in memory does not know it. *)
Definition art2 : reader := {| rd_data := "BINARY"; rd_err := None |}.
Definition mf2 : Manifest :=
  let m := {| mf_Version := 1; mf_Artifact := "worker"; mf_Digest := digest "BINARY"; mf_SizeBytes := 6;
     mf_Target := "linux/amd64"; mf_SecurityRevision := 3; mf_IssuedAt := 1000; mf_ExpiresAt := 2000000;
     mf_KeyID := "release"; mf_Signature := "" |} in
  set_Signature m (b64_encode (ed_sign Manifest.Samples.sk (signingMessage m))).
Definition oks (n : nat) : list decision := replicate n DOk.
Definition failed_sync : outcome (result string * Manager) * world :=
  Stage m0 false mf art None now (World (w_disk open0.2) (oks 23 ++ [DFail]) []).
Definition retry : outcome (result string * Manager) * world :=
  Stage m0 false mf2 art2 None now (World (w_disk failed_sync.2) (oks 8 ++ [DCrash]) []).
Definition reopened : outcome (result Manager) * world := Open config (World (w_disk retry.2) [] []).
End Samples.

(** The retry in a new release, killed after the artifact was renamed, leaves a
    root that does not open any more: the pending slot of the state file holds
    the new artifact beside the old manifest. *)
Example retry_after_failed_sync_blocks_open :
  Samples.failed_sync.1 = Done (Err "sync software update directory", Samples.m0) /\
  Samples.retry.1 = Crashed /\
  Samples.reopened.1 = Done (Err "installed software artifact failed verification").
Proof. repeat split; vm_compute; reflexivity. Qed.

(** ** Witnesses *)

Lemma update_state_crash_safe_witness : ps_Active (mg_state Samples.m4) = ps_KnownGood (mg_state Samples.m4).
Proof.
  destruct (update_state_crash_safe Samples.config Samples.disk0 _ _ Samples.fresh Samples.run4) as [_ H].
  apply (H Samples.m4 eq_refl). reflexivity.
Defined.

Lemma operations_refine_machine_witness : transition (mg_state Samples.m0) (mg_state Samples.m1).
Proof.
  destruct (operations_refine_machine Samples.config Samples.disk0 _ _ _ _ _ _ Samples.fresh Samples.run0 Samples.stage1_ok)
    as [[H _]|(_ & H & _)]; [discriminate H|exact H].
Defined.

Lemma known_good_slot_untouched_witness :
  untouched "/update/a" (w_disk Samples.confirm4.2) (w_disk (run_op Samples.stage5 Samples.m4 Samples.confirm4.2).2).
Proof.
  apply (known_good_slot_untouched Samples.config Samples.disk0 Samples.confirm4.2 Samples.m4 Samples.stage5
    Samples.fresh Samples.run4). discriminate.
Defined.

Lemma confirmed_revision_is_a_floor_witness :
  exists confirmed : Manifest, ps_SecurityRevision (mg_state Samples.m4) = Z.max 0 (mf_SecurityRevision confirmed) /\
    mf_SecurityRevision confirmed <= ps_SecurityRevision (mg_state Samples.m4).
Proof.
  destruct (confirmed_revision_is_a_floor Samples.config Samples.disk0 _ _ _ _ _ Samples.m4 Samples.fresh Samples.run3
    Samples.confirm4_ok (rtc_refl _ _)) as (i & confirmed & _ & _ & H1 & _ & H2 & _). exists confirmed. exact (conj H1 H2).
Defined.

Lemma unconfirmed_update_falls_back_witness : exists m1 w1 m2 w2,
  Open Samples.config (World (w_disk Samples.activate2.2) [] []) = (Done (Ok m1), w1) /\
  Open Samples.config (World (w_disk w1) [] []) = (Done (Ok m2), w2) /\ ps_Active (mg_state m2) = "".
Proof.
  destruct (unconfirmed_update_falls_back Samples.config (mg_state Samples.m2) (w_disk Samples.activate2.2) [])
    as (a & b & c & d & H1 & _ & H2 & H3 & _); [by_compute|exact Samples.ready2| |reflexivity|reflexivity|].
  - apply (transition_ok (mg_state Samples.m1)); [|by constructor].
    apply (transition_ok initial_state); [apply initial_state_ok|]. by apply (t_stage initial_state).
  - exists a, b, c, d. exact (conj H1 (conj H2 H3)).
Defined.

Lemma Stage_installs_witness : installed Samples.m1 0 (w_disk Samples.stage_a.2) "a".
Proof.
  apply (Stage_installs Samples.m0 Samples.mf Samples.art None Samples.now Samples.open0.2 "a" Samples.m1 Samples.stage_a.2);
    [discriminate|exact Manifest.Samples.signed_wf|exact Manifest.Samples.signed_wf|vm_compute; discriminate|exact Samples.stage_a_ok|left; reflexivity].
Defined.

Lemma Stage_oversized_manifest_blocks_witness :
  (verifyInstalledSlot Samples.m1 "a" 0 Samples.stage_big.2).1 <> Done (Ok tt).
Proof.
  apply (Stage_oversized_manifest_blocks Samples.m0 Samples.big Samples.art None Samples.now Samples.open0.2 "a" Samples.m1
    Samples.stage_big.2 0 Samples.stage_big.2);
    [discriminate|by_compute|vm_compute; reflexivity|exact Samples.stage_big_ok|reflexivity].
Defined.
