(* ===== verification/Outbox.v ===== *)
(** * pkg/messengereventbridge/outbox.go and publisher.go

    The durable result outbox: [enqueue] commits one result per source event
    before the handler acknowledges it, [Complete] marks it published, and the
    publisher hands every pending result to the local Messenger. *)

From S2P Require Import Prelude GoStd Sha256 FS Json.

Definition resultRecordSchema : string := "tos.service.messenger-result-outbox.v2".
Definition resultStatePending : string := "pending".
Definition resultStateDone : string := "complete".

Definition eventIDPattern : string -> bool := hex_pattern "evt_" 64.
Definition digestPattern : string -> bool := digest_pattern.

(** The fields of [envelope.Event] the bridge reads. *)
Record NetworkDomain := { nd_NetworkId : string; nd_GenesisRootHash : string; nd_GenesisFileHash : string }.

Record Event := {
  ev_EventID : string;
  ev_ConversationID : string;
  ev_SenderAgentID : string;
  ev_CreatedAtUnix : Z;     (* uint64 *)
  ev_Kind : string;
  ev_Content : bytes;
  ev_Network : option NetworkDomain;
}.

Record resultRecord := {
  rr_Schema : string;
  rr_SourceEventID : string;
  rr_ConversationID : string;
  rr_SenderAgentID : string;
  rr_SourceCreatedAtUnix : Z;
  rr_ResultKind : string;
  rr_ResultJSON : bytes;
  rr_ResultDigest : string;
  rr_State : string;
}.

Record PendingResult := {
  pr_SourceEventID : string;
  pr_ConversationID : string;
  pr_SenderAgentID : string;
  pr_SourceCreatedAtUnix : Z;
  pr_ResultKind : string;
  pr_ResultJSON : bytes;
  pr_ResultDigest : string;
}.

(** [ob_open]: the lock is held ([o.lock != nil]). *)
Record ResultOutbox := { ob_root : string; ob_open : bool }.

Definition resultDigest (raw : bytes) : string := digest raw.

(** [ResultOutbox.path]. *)
Definition outbox_path (o : ResultOutbox) (eventID : string) : path :=
  (ob_root o, str_drop 4 eventID +:+ ".json").

Definition OpenResultOutbox (root : string) : IO (result ResultOutbox) :=
  if negb (filepath_IsAbs root) || (path_Clean root <>s? root)
  then mret (Err "invalid Messenger result outbox root") else
  r ← mkdir_all root;
  if negb (sys_ok r) then mret (Err "create Messenger result outbox root") else
  info ← lstat ("", root);
  match info with
  | SErr _ => mret (Err "Messenger result outbox root must be private and owned")
  | SOk i =>
      if negb (bool_decide (i_kind i = Directory)) || negb (i_perm i =? o700) || negb (i_owned i)
      then mret (Err "Messenger result outbox root must be private and owned") else
      r ← acquire_lock root ".messenger-result-outbox.lock";
      mret (if negb (sys_ok r) then Err "Messenger result outbox is already owned"
            else Ok {| ob_root := root; ob_open := true |})
  end.

Definition Close (o : ResultOutbox) : ResultOutbox := {| ob_root := ob_root o; ob_open := false |}.

Definition writeSyncClose (p : path) (raw : bytes) : IO (result unit) :=
  r ← write_file p raw;
  if negb (sys_ok r) then _ ← close_file p; mret (Err "write Messenger result record") else
  r ← fsync p;
  if negb (sys_ok r) then _ ← close_file p; mret (Err "sync Messenger result record") else
  r ← close_file p;
  mret (fail_if (negb (sys_ok r)) "close Messenger result record").

Definition syncResultDirectory (dir : string) : IO (result unit) :=
  r ← open_dir dir;
  if negb (sys_ok r) then mret (Err "open Messenger result directory") else
  r ← sync_dir dir;
  mret (fail_if (negb (sys_ok r)) "sync Messenger result directory").

Definition sameResult (left right : resultRecord) : bool :=
  (rr_SourceEventID left =s? rr_SourceEventID right) && (rr_ConversationID left =s? rr_ConversationID right) &&
  (rr_SenderAgentID left =s? rr_SenderAgentID right) &&
  (rr_SourceCreatedAtUnix left =? rr_SourceCreatedAtUnix right) && (rr_ResultKind left =s? rr_ResultKind right) &&
  (rr_ResultDigest left =s? rr_ResultDigest right) && (rr_ResultJSON left =s? rr_ResultJSON right).

Definition pendingResult (r : resultRecord) : PendingResult :=
  {| pr_SourceEventID := rr_SourceEventID r; pr_ConversationID := rr_ConversationID r;
     pr_SenderAgentID := rr_SenderAgentID r; pr_SourceCreatedAtUnix := rr_SourceCreatedAtUnix r;
     pr_ResultKind := rr_ResultKind r; pr_ResultJSON := rr_ResultJSON r; pr_ResultDigest := rr_ResultDigest r |}.

Definition valid_kind (kind : string) : bool := (kind =s? "a2a.message") || (kind =s? "mcp.result").

(** [record.State = resultStateDone]. *)
Definition completed (r : resultRecord) : resultRecord :=
  {| rr_Schema := rr_Schema r; rr_SourceEventID := rr_SourceEventID r; rr_ConversationID := rr_ConversationID r;
     rr_SenderAgentID := rr_SenderAgentID r; rr_SourceCreatedAtUnix := rr_SourceCreatedAtUnix r;
     rr_ResultKind := rr_ResultKind r; rr_ResultJSON := rr_ResultJSON r; rr_ResultDigest := rr_ResultDigest r;
     rr_State := resultStateDone |}.

(** The record [enqueue] writes. *)
Definition new_record (event : Event) (kind : string) (raw : bytes) : resultRecord :=
  {| rr_Schema := resultRecordSchema; rr_SourceEventID := ev_EventID event;
     rr_ConversationID := ev_ConversationID event; rr_SenderAgentID := ev_SenderAgentID event;
     rr_SourceCreatedAtUnix := ev_CreatedAtUnix event; rr_ResultKind := kind; rr_ResultJSON := raw;
     rr_ResultDigest := resultDigest raw; rr_State := resultStatePending |}.

Section Outbox.
(** [envelope.MaxContentBytes] of the Messenger module. *)
Context (MaxContentBytes : Z) `{Json resultRecord}.

Definition maxResultBytes : Z := MaxContentBytes.
Definition maxRecordBytes : Z := maxResultBytes + Z.shiftl 32 10.

Definition validResultRecord (r : resultRecord) : bool :=
  (rr_Schema r =s? resultRecordSchema) && eventIDPattern (rr_SourceEventID r) &&
  (rr_ConversationID r <>s? "") && (rr_SenderAgentID r <>s? "") && (0 <? rr_SourceCreatedAtUnix r) &&
  valid_kind (rr_ResultKind r) && (0 <? len (rr_ResultJSON r)) && (len (rr_ResultJSON r) <=? maxResultBytes) &&
  digestPattern (rr_ResultDigest r) && (rr_ResultDigest r =s? resultDigest (rr_ResultJSON r)) &&
  ((rr_State r =s? resultStatePending) || (rr_State r =s? resultStateDone)).

Definition readResultRecord (p : path) : IO (result resultRecord) :=
  info ← lstat p;
  match info with
  | SErr _ => mret (Err "invalid Messenger result outbox record")
  | SOk i =>
      if negb (bool_decide (i_kind i = Regular)) || negb (i_perm i =? o600) || (len (i_data i) <=? 0) ||
         (maxRecordBytes <? len (i_data i)) || negb (i_owned i && i_single i)
      then mret (Err "invalid Messenger result outbox record") else
      raw ← read_file p;
      mret (match raw with
            | SErr _ => Err "read Messenger result outbox record"
            | SOk raw =>
                match json_unmarshal raw with
                | None => Err "decode Messenger result outbox record"
                | Some record => if validResultRecord record then Ok record
                                 else Err "invalid Messenger result outbox record"
                end
            end)
  end.

Definition enqueue (o : ResultOutbox) (event : Event) (kind : string) (raw : bytes) : IO (result unit) :=
  if negb (eventIDPattern (ev_EventID event)) || (ev_ConversationID event =s? "") ||
     (ev_SenderAgentID event =s? "") || (ev_CreatedAtUnix event =? 0) || negb (valid_kind kind) ||
     (len raw =? 0) || (maxResultBytes <? len raw)
  then mret (Err "invalid Messenger result outbox entry") else
  let record := new_record event kind raw in
  let encoded := json_marshal record in
  if maxRecordBytes <? len encoded then mret (Err "encode Messenger result outbox entry") else
  if negb (ob_open o) then mret (Err "Messenger result outbox is closed") else
  let p := outbox_path o (ev_EventID event) in
  file ← create_excl p o600;
  match file with
  | SOk _ =>
      r ← writeSyncClose p (encoded +:+ newline);
      match r with
      | Err e => _ ← remove p; mret (Err e)
      | Ok _ =>
          r ← syncResultDirectory (ob_root o);
          match r with
          | Err e => _ ← remove p; mret (Err e)
          | Ok _ => mret (Ok tt)
          end
      end
  | SErr EEXIST =>
      existing ← readResultRecord p;
      mret (match existing with
            | Err e => Err e
            | Ok existing =>
                if negb (sameResult existing record)
                then Err "source Messenger Event conflicts with another result" else Ok tt
            end)
  | SErr _ => mret (Err "create Messenger result outbox entry")
  end.

(** The loop of [Pending] over the directory's entries; [filepath.Ext] is
    [".json"] exactly for the names with that suffix. *)
Fixpoint pending_loop (o : ResultOutbox) (entries : list (string * kind)) : IO (result (list PendingResult)) :=
  match entries with
  | [] => mret (Ok [])
  | (name, type) :: rest =>
      if bool_decide (type = Directory) || negb (has_suffix name ".json") then pending_loop o rest else
      record ← readResultRecord (ob_root o, name);
      match record with
      | Err e => mret (Err e)
      | Ok record =>
          r ← pending_loop o rest;
          mret (let* results := r in
                Ok (if rr_State record <>s? resultStatePending then results else pendingResult record :: results))
      end
  end.

Definition pr_le (a b : PendingResult) : Prop := str_le (pr_SourceEventID a) (pr_SourceEventID b).
#[export] Instance pr_le_dec : RelDecision pr_le := fun a b => str_le_dec _ _.

Definition Pending (o : ResultOutbox) : IO (result (list PendingResult)) :=
  if negb (ob_open o) then mret (Err "Messenger result outbox is closed") else
  entries ← read_entries (ob_root o);
  match entries with
  | SErr _ => mret (Err "list Messenger result outbox")
  | SOk entries =>
      r ← pending_loop o entries;
      mret (let* results := r in Ok (merge_sort pr_le results))
  end.

(** The part of [Complete] that writes the temporary file [name]. *)
Definition Complete_body (o : ResultOutbox) (p name : path) (record : resultRecord) : IO (result unit) :=
  r ← chmod name o600;
  if negb (sys_ok r) then _ ← close_file name; mret (Err "protect Messenger result completion") else
  r ← writeSyncClose name (json_marshal record +:+ newline);
  match r with
  | Err e => mret (Err e)
  | Ok _ =>
      r ← rename name p;
      if negb (sys_ok r) then mret (Err "commit Messenger result completion") else
      syncResultDirectory (ob_root o)
  end.

Definition Complete (o : ResultOutbox) (sourceEventID resultDigestValue : string) : IO (result unit) :=
  if negb (eventIDPattern sourceEventID) || negb (digestPattern resultDigestValue)
  then mret (Err "invalid Messenger result completion") else
  if negb (ob_open o) then mret (Err "Messenger result outbox is closed") else
  let p := outbox_path o sourceEventID in
  record ← readResultRecord p;
  match record with
  | Err _ => mret (Err "Messenger result completion does not match pending output")
  | Ok record =>
      if rr_ResultDigest record <>s? resultDigestValue
      then mret (Err "Messenger result completion does not match pending output") else
      if rr_State record =s? resultStateDone then mret (Ok tt) else
      name ← create_temp (ob_root o) ".complete-";
      match name with
      | SErr _ => mret (Err "create Messenger result completion")
      | SOk name =>
          r ← Complete_body o p name (completed record);
          _ ← remove name; (* deferred *)
          mret r
      end
  end.

(** [MCPResultJournal.ReceiveMCPResult]: commit and mark at once; the encoded
    output is the argument. *)
Definition journal_ReceiveMCPResult (o : ResultOutbox) (event : Event) (raw : bytes) : IO (result unit) :=
  r ← enqueue o event "mcp.result" raw;
  match r with
  | Err e => mret (Err e)
  | Ok _ => Complete o (ev_EventID event) (resultDigest raw)
  end.

Definition ReceiveA2AResult (o : ResultOutbox) (event : Event) (raw : bytes) : IO (result unit) :=
  enqueue o event "a2a.message" raw.
Definition ReceiveMCPResult (o : ResultOutbox) (event : Event) (raw : bytes) : IO (result unit) :=
  enqueue o event "mcp.result" raw.

(** ** publisher.go *)

Definition agentPattern : string -> bool := hex_pattern "agent_" 64.
Definition endpointPattern : string -> bool := hex_pattern "mep_" 64.
Definition sessionPattern : string -> bool := hex_pattern "ses_" 64.

Record ResultRoute := { rt_SenderAgentID : string; rt_SessionID : string; rt_RecipientEndpointID : string }.

(** The request to the local Messenger. *)
Record LocalRequest := {
  lr_ConversationID : string;
  lr_ReplyToEventID : string;
  lr_ProtocolKind : string;
  lr_Protocol : string;
  lr_ProtocolBody : bytes;
  lr_IdempotencyKey : string;
  lr_SessionID : string;
  lr_RecipientEndpointID : string;
  lr_ExpiresAtUnix : Z;
}.

(** What a call returns: the event identifier of the response or an error.  The
    number of earlier calls is an argument, so that a client may answer the same
    request differently each time. *)
Definition LocalAPICaller : Type := nat -> LocalRequest -> result string.

Record ResultPublisher := {
  rp_outbox : ResultOutbox;
  rp_client : LocalAPICaller;
  rp_routes : gmap string ResultRoute;
  rp_lifetime : Z;
}.

Record PublishSummary := { su_Queued : Z; su_Retained : Z }.

Fixpoint collect_routes (previous : string) (routes : list ResultRoute) (acc : gmap string ResultRoute)
    : result (gmap string ResultRoute) :=
  match routes with
  | [] => Ok acc
  | r :: rest =>
      if negb (agentPattern (rt_SenderAgentID r)) || negb (sessionPattern (rt_SessionID r)) ||
         negb (endpointPattern (rt_RecipientEndpointID r)) || str_leb (rt_SenderAgentID r) previous
      then Err "invalid or unsorted Messenger result route"
      else collect_routes (rt_SenderAgentID r) rest (<[rt_SenderAgentID r := r]> acc)
  end.

Definition NewResultPublisher (outbox : ResultOutbox) (client : LocalAPICaller) (routes : list ResultRoute)
    (lifetime : Z) : result ResultPublisher :=
  fail_if ((lifetime <? time_Minute) || (7 * 24 * time_Hour <? lifetime) || (llen routes =? 0))
    "invalid Messenger result publisher configuration" ;;;
  let* table := collect_routes "" routes ∅ in
  Ok {| rp_outbox := outbox; rp_client := client; rp_routes := table; rp_lifetime := lifetime |}.

Definition resultIdempotency (sourceEventID dig : string) : string :=
  "idem_" +:+ hex_EncodeToString (sha256_Sum256
    ("tos.service.messenger-result-publish.v1" +:+ String "000" sourceEventID +:+ String "000" dig)).

Definition compose_request (p : ResultPublisher) (route : ResultRoute) (r : PendingResult) : LocalRequest :=
  {| lr_ConversationID := pr_ConversationID r; lr_ReplyToEventID := pr_SourceEventID r;
     lr_ProtocolKind := pr_ResultKind r;
     lr_Protocol := if pr_ResultKind r =s? "a2a.message" then "a2a" else "mcp";
     lr_ProtocolBody := pr_ResultJSON r;
     lr_IdempotencyKey := resultIdempotency (pr_SourceEventID r) (pr_ResultDigest r);
     lr_SessionID := rt_SessionID route; lr_RecipientEndpointID := rt_RecipientEndpointID route;
     lr_ExpiresAtUnix := wrap64 (pr_SourceCreatedAtUnix r + rp_lifetime p / time_Second) |}.

(** [p.client.Call]: the effect is recorded in the log with the event identifier
    it returned, empty for an error. *)
Definition call_client (p : ResultPublisher) (req : LocalRequest) : IO (result string) :=
  d ← get_disk;
  let response := rp_client p (length (d_log d)) req in
  _ ← emit (lr_IdempotencyKey req, match response with Ok id => id | Err _ => "" end);
  mret response.

(** One iteration of [PublishPending]: [None] for a queued result, the error of
    a retained one otherwise. *)
Definition publish_one (p : ResultPublisher) (r : PendingResult) : IO (option string) :=
  match rp_routes p !! pr_SenderAgentID r with
  | None => mret (Some "no Messenger result route for sender")
  | Some route =>
      response ← call_client p (compose_request p route r);
      match response with
      | Err e => mret (Some e)
      | Ok id =>
          if id =s? "" then mret (Some "Messenger did not return a queued result Event ID") else
          c ← Complete (rp_outbox p) (pr_SourceEventID r) (pr_ResultDigest r);
          mret (match c with Err e => Some e | Ok _ => None end)
      end
  end.

(** [cancelled] says for each iteration whether the context is done before it. *)
Fixpoint publish_loop (p : ResultPublisher) (cancelled : list bool) (results : list PendingResult)
    (s : PublishSummary) (errs : list string) : IO (PublishSummary * list string) :=
  match results with
  | [] => mret (s, errs)
  | r :: rest =>
      if hd false cancelled then mret (s, ["context canceled"]) else
      e ← publish_one p r;
      match e with
      | None => publish_loop p (tl cancelled) rest {| su_Queued := su_Queued s + 1; su_Retained := su_Retained s |} errs
      | Some e => publish_loop p (tl cancelled) rest
                    {| su_Queued := su_Queued s; su_Retained := su_Retained s + 1 |} (errs ++ [e])
      end
  end.

Definition PublishPending (p : ResultPublisher) (cancelled : list bool) : IO (PublishSummary * list string) :=
  r ← Pending (rp_outbox p);
  match r with
  | Err e => mret ({| su_Queued := 0; su_Retained := 0 |}, [e])
  | Ok pending => publish_loop p cancelled pending {| su_Queued := 0; su_Retained := 0 |} []
  end.

(** ** Lemmas *)

Context {laws : JsonLaws resultRecord}.

Definition record_file (r : resultRecord) : inode :=
  Inode Regular o600 true true (json_marshal r +:+ newline) true.

(** The record [r] is at its name, on disk and after any power loss, pending or,
    where [A] holds, complete. *)
Definition committed (A : Prop) (o : ResultOutbox) (r : resultRecord) (d : disk) : Prop :=
  always d (outbox_path o (rr_SourceEventID r))
    (fun v => v = Some (record_file r) \/ (A /\ v = Some (record_file (completed r)))).

Definition encodable (r : resultRecord) : Prop := json_representable r /\ json_representable (completed r).

Lemma committed_mono (A B : Prop) o r d : committed A o r d -> (A -> B) -> committed B o r d.
Proof. intros Hc HAB. eapply always_mono; [exact Hc|]. intros v [->|[HA ->]]; auto. Qed.

Lemma committed_power_loss A o r d d' : committed A o r d -> power_loss d d' -> committed A o r d'.
Proof.
  intros Hc Hp. eapply always_power_loss; [|exact Hc|exact Hp].
  intros v v' [->|[HA ->]] Hs; inversion Hs; subst; try done; auto.
Qed.

Lemma committed_live A o r d :
  committed A o r d ->
  d_live d !! outbox_path o (rr_SourceEventID r) = Some (record_file r) \/
  (A /\ d_live d !! outbox_path o (rr_SourceEventID r) = Some (record_file (completed r))).
Proof. apply always_live. Qed.

Lemma readResultRecord_keeps I p : keeps I (readResultRecord p).
Proof. unfold readResultRecord. keeps_steps; done. Qed.

Lemma readResultRecord_wp p d :
  wp any (readResultRecord p)
    (fun r d' => d' = d /\ forall record, r = Ok record ->
       validResultRecord record = true /\ exists i, d_live d !! p = Some i /\ json_unmarshal (i_data i) = Some record)
    (fun d' => d' = d) d.
Proof.
  unfold readResultRecord. wp_steps; try done; (split; [done|]); try (intros ? [=]; fail).
  intros record Hr. destruct (d_live d !! p) as [i|] eqn:Hi; [|done].
  destruct (json_unmarshal (i_data i)) as [rec|] eqn:Hj; [|done].
  destruct (validResultRecord rec) eqn:Hv; [|done]. injection Hr as <-. eauto.
Qed.

(** Reading a committed name yields the record, pending or complete. *)
Lemma committed_read A o r d i rec :
  encodable r -> committed A o r d ->
  d_live d !! outbox_path o (rr_SourceEventID r) = Some i -> json_unmarshal (i_data i) = Some rec ->
  rec = r \/ (A /\ rec = completed r).
Proof.
  intros [Hr1 Hr2] Hc Hi Hj. destruct (committed_live _ _ _ _ Hc) as [E|[HA E]]; rewrite E in Hi; injection Hi as <-;
    cbn [record_file i_data] in Hj; rewrite json_roundtrip_nl in Hj by done; injection Hj as <-; auto.
Qed.

Lemma outbox_path_inj o a b :
  eventIDPattern a = true -> eventIDPattern b = true -> outbox_path o a = outbox_path o b -> a = b.
Proof.
  intros (x & -> & Hx & _)%hex_pattern_spec (y & -> & Hy & _)%hex_pattern_spec Heq.
  unfold outbox_path in Heq. injection Heq as Heq.
  change (str_drop 4 ("evt_" +:+ x)) with x in Heq. change (str_drop 4 ("evt_" +:+ y)) with y in Heq.
  apply str_app_inj in Heq as [-> _]; [done|congruence].
Qed.

Lemma committed_upd_other A o r d p v :
  committed A o r d -> p <> outbox_path o (rr_SourceEventID r) -> committed A o r (d_upd p v d).
Proof. intros Hc Hne. by apply always_upd. Qed.

Lemma committed_mod_other A o r d p f :
  committed A o r d -> p <> outbox_path o (rr_SourceEventID r) -> committed A o r (d_mod p f d).
Proof. intros Hc Hne. by apply always_mod. Qed.

Lemma committed_sync A o r d dir : committed A o r d -> committed A o r (d_sync dir d).
Proof. apply always_sync. Qed.

#[local] Hint Resolve committed_upd_other committed_mod_other committed_sync : fs.

Lemma enqueue_committed A o r o' event kind raw :
  ob_root o' = ob_root o -> keeps (committed A o r) (enqueue o' event kind raw).
Proof.
  intros Hroot d Hc. unfold enqueue. wp_step; [by apply wp_ret|]. cbn zeta. wp_step; [by apply wp_ret|].
  wp_step; [by apply wp_ret|].
  destruct (decide (outbox_path o' (ev_EventID event) = outbox_path o (rr_SourceEventID r))) as [Heq|Hne].
  - wp_step. wp_step; [done|by apply wp_ret|]. rewrite Heq.
    assert (exists i, d_live d !! outbox_path o (rr_SourceEventID r) = Some i) as [i ->].
    { destruct (committed_live _ _ _ _ Hc) as [->|[_ ->]]; eauto. }
    cbn [fst snd]. wp_step. eapply keeps_mono; [apply (readResultRecord_keeps (committed A o r))|done| |done].
    intros x d' Hd'. by apply wp_ret.
  - apply (keeps_mono (committed A o r)); [|done|done|done]. unfold writeSyncClose, syncResultDirectory.
    keeps_steps; try apply readResultRecord_keeps; keeps_file.
Qed.

Lemma committed_occupied A o r d : committed A o r d -> occupied (outbox_path o (rr_SourceEventID r)) d.
Proof. intros Hc. eapply always_mono; [exact Hc|]. intros v [->|[_ ->]]; by eexists. Qed.

(** The temporary file is renamed only when it holds the complete record. *)
Lemma Complete_body_wp o p name rec d Φ :
  always d p Φ -> p.1 = ob_root o -> name <> p -> d_live d !! name = Some (new_inode o600) ->
  Φ (Some (record_file rec)) ->
  wp any (Complete_body o p name rec)
    (fun r d' => always d' p Φ /\ (r = Ok tt -> always d' p (fun v => v = Some (record_file rec))))
    (fun d' => always d' p Φ) d.
Proof.
  intros Hp Hdir Hne Hnew HΦ. unfold Complete_body, writeSyncClose, syncResultDirectory.
  assert (Hu : forall v d, always d p Φ -> always (d_upd name v d) p Φ) by (intros v d0 H0; by apply always_upd).
  assert (Hm : forall f d, always d p Φ -> always (d_mod name f d) p Φ) by (intros f d0 H0; by apply always_mod).
  wp_steps; cbn [snd]; repeat case_match; cbn [snd fst] in *; try (split; [|intros [=]]); auto 10 with fs; try discriminate.
  all: repeat match goal with Hf : fail_if true _ = Ok _ |- _ => discriminate Hf | Hf : fail_if false _ = Err _ |- _ => discriminate Hf end.
  all: match goal with Hl : d_live (d_mod _ mark_synced _) !! _ = Some ?i |- _ =>
         rewrite !live_mod, !decide_True, Hnew in Hl by done; cbn in Hl; injection Hl as <- end.
  all: change (mark_synced _) with (record_file rec).
  1-4: by apply Hu, always_upd; auto.
  - by apply always_sync, Hu, always_upd; auto.
  - destruct p as [dir base]. simpl in Hdir. subst dir. apply always_synced.
    by rewrite live_upd, decide_False, live_upd, decide_True by done.
Qed.

Lemma completed_idem r : completed (completed r) = completed r.
Proof. done. Qed.

Lemma Complete_body_other A o r o' p name rec :
  p <> outbox_path o (rr_SourceEventID r) -> name <> outbox_path o (rr_SourceEventID r) ->
  keeps (committed A o r) (Complete_body o' p name rec).
Proof. intros Hp Hn. unfold Complete_body, writeSyncClose, syncResultDirectory. keeps_steps; keeps_file. Qed.

(** Completing is the only change a committed record sees, and only under its
    own event identifier and digest. *)
Lemma Complete_committed A o r o' id dg :
  ob_root o' = ob_root o -> encodable r -> eventIDPattern (rr_SourceEventID r) = true ->
  (id = rr_SourceEventID r -> dg = rr_ResultDigest r -> A) ->
  keeps (committed A o r) (Complete o' id dg).
Proof.
  intros Hroot Henc Hpat HA d Hc. unfold Complete. wp_step; [by apply wp_ret|]. bool_props.
  wp_step; [by apply wp_ret|]. cbn zeta. wp_step.
  eapply wp_mono; [apply readResultRecord_wp| |by intros d' ->]. intros rec d1 [-> Hread].
  destruct rec as [rec|e]; [|by apply wp_ret]. destruct (Hread rec eq_refl) as (_ & i & Hi & Hj).
  wp_step; [by apply wp_ret|]. wp_step; [by apply wp_ret|]. bool_props.
  assert (Hp : outbox_path o' id = outbox_path o id) by (unfold outbox_path; by rewrite Hroot). rewrite Hp in *.
  wp_step. wp_step; [done|by apply wp_ret|]. rewrite Hroot in Htemp.
  assert (Hne : t <> outbox_path o (rr_SourceEventID r)).
  { eapply occupied_not_temp; [|by eapply committed_occupied|exact Htemp]. done. }
  assert (Hc1 : committed A o r (d_upd t (Some (new_inode o600)) d)) by (by apply committed_upd_other).
  assert (Hend : forall (x : result unit), keeps (committed A o r) (_ ← remove t; mret x)).
  { intros x. keeps_steps. keeps_file. }
  wp_step. destruct (decide (outbox_path o id = outbox_path o (rr_SourceEventID r))) as [Heq|Hother].
  - assert (id = rr_SourceEventID r) as -> by (by eapply outbox_path_inj).
    assert (Hrec : completed rec = completed r /\ rr_ResultDigest rec = rr_ResultDigest r).
    { by destruct (committed_read _ _ _ _ _ _ Henc Hc Hi Hj) as [->|[_ ->]]. }
    destruct Hrec as [Hrec Hdg]. rewrite Hrec.
    eapply wp_mono; [apply (Complete_body_wp o' _ t _ _ _ Hc1)| |done]; [done|done|by rewrite live_upd, decide_True| |].
    + right. split; [apply HA; congruence|done].
    + intros x d2 [Hd2 _]. by apply Hend.
  - apply (keeps_mono (committed A o r)); [by apply Complete_body_other|done| |done]. intros x d2 Hd2. by apply Hend.
Qed.

Lemma outbox_Complete_log o id dg l : keeps (log_is l) (Complete o id dg).
Proof.
  unfold Complete, Complete_body, writeSyncClose, syncResultDirectory.
  keeps_steps; try apply readResultRecord_keeps; keeps_log.
Qed.

(** ** Publishing *)

Definition result_key (r : resultRecord) : string := resultIdempotency (rr_SourceEventID r) (rr_ResultDigest r).

(** The Messenger acknowledged the result's idempotency key. *)
Definition acknowledged (r : resultRecord) (d : disk) : Prop :=
  exists id, id <> "" /\ (result_key r, id) ∈ d_log d.

Definition published_or_pending (o : ResultOutbox) (r : resultRecord) (d : disk) : Prop :=
  committed (acknowledged r d) o r d.

Lemma pending_loop_keeps I o entries : keeps I (pending_loop o entries).
Proof.
  induction entries as [|[name isDir] rest IH]; simpl; [apply keeps_ret|].
  keeps_step; [done|]. apply keeps_bind; [apply readResultRecord_keeps|]. intros [rec|e]; [|apply keeps_ret].
  apply keeps_bind; [done|]. intros. apply keeps_ret.
Qed.

Lemma Pending_keeps I o : keeps I (Pending o).
Proof.
  unfold Pending. keeps_step; [apply keeps_ret|]. apply keeps_bind; [by apply keeps_op|].
  intros [entries|e]; [|apply keeps_ret]. apply keeps_bind; [apply pending_loop_keeps|]. intros. apply keeps_ret.
Qed.

Lemma publish_one_keeps p r x :
  encodable r -> eventIDPattern (rr_SourceEventID r) = true ->
  keeps (published_or_pending (rp_outbox p) r) (publish_one p x).
Proof.
  intros Henc Hpat d Hd. unfold publish_one. destruct (rp_routes p !! pr_SenderAgentID x) as [route|]; [|by apply wp_ret].
  set (req := compose_request p route x). set (response := rp_client p (length (d_log d)) req).
  set (e := (lr_IdempotencyKey req, match response with Ok id => id | Err _ => "" end)).
  assert (Hcall : forall Q C, wp any (match response with
      | Err e => mret (Some e)
      | Ok id => if id =s? "" then mret (Some "Messenger did not return a queued result Event ID") else
          c ← Complete (rp_outbox p) (pr_SourceEventID x) (pr_ResultDigest x);
          mret (match c with Err e => Some e | Ok _ => None end) end) Q C (d_emit e d) ->
    wp any (response ← call_client p req; match response with
      | Err e => mret (Some e)
      | Ok id => if id =s? "" then mret (Some "Messenger did not return a queued result Event ID") else
          c ← Complete (rp_outbox p) (pr_SourceEventID x) (pr_ResultDigest x);
          mret (match c with Err e => Some e | Ok _ => None end) end) Q C d).
  { intros Q C HQ script rand HS. specialize (HQ script rand HS). exact HQ. }
  apply Hcall. clear Hcall.
  assert (Hd1 : published_or_pending (rp_outbox p) r (d_emit e d)).
  { eapply committed_mono; [exact Hd|]. intros (id & Hid & Hin). exists id. split; [done|]. by right. }
  destruct response as [id|err] eqn:Hresp; [|by apply wp_ret]. wp_step; [by apply wp_ret|]. bool_props.
  wp_step. eapply wp_mono; [apply wp_and; [apply (Complete_committed (acknowledged r (d_emit e d)) (rp_outbox p) r);
    [done|done|done| |exact Hd1]|apply (outbox_Complete_log _ _ _ (d_log (d_emit e d))); done]| |].
  - intros E1 E2. exists id. split; [done|]. assert (result_key r = lr_IdempotencyKey req) as ->.
    { unfold result_key. by rewrite <- E1, <- E2. }
    by left.
  - intros c d2 [Hc2 Hl2]. apply wp_ret. unfold published_or_pending, acknowledged in *. by rewrite Hl2.
  - intros d2 [Hc2 Hl2]. unfold published_or_pending, acknowledged in *. by rewrite Hl2.
Qed.

Lemma PublishPending_keeps p cancelled r :
  encodable r -> eventIDPattern (rr_SourceEventID r) = true ->
  keeps (published_or_pending (rp_outbox p) r) (PublishPending p cancelled).
Proof.
  intros Henc Hpat. unfold PublishPending. apply keeps_bind; [apply Pending_keeps|]. intros [results|e]; [|apply keeps_ret].
  generalize {| su_Queued := 0; su_Retained := 0 |}, (@nil string). revert cancelled.
  induction results as [|x rest IH]; intros cancelled s errs; simpl; [apply keeps_ret|].
  keeps_step; [apply keeps_ret|]. apply keeps_bind; [by apply publish_one_keeps|]. intros [err|]; apply IH.
Qed.

(** ** Histories of an outbox directory *)

Inductive ostep (root : string) : disk -> disk -> Prop :=
| os_enqueue open event kind raw w :
    ostep root (w_disk w) (w_disk (enqueue {| ob_root := root; ob_open := open |} event kind raw w).2)
| os_complete open id dg w :
    ostep root (w_disk w) (w_disk (Complete {| ob_root := root; ob_open := open |} id dg w).2)
| os_publish p cancelled w : ob_root (rp_outbox p) = root ->
    ostep root (w_disk w) (w_disk (PublishPending p cancelled w).2)
| os_power d d' : power_loss d d' -> ostep root d d'.

Lemma ostep_committed o r d d' :
  encodable r -> eventIDPattern (rr_SourceEventID r) = true ->
  committed True o r d -> ostep (ob_root o) d d' -> committed True o r d'.
Proof.
  intros Henc Hpat Hc Hs. destruct Hs as [op ev k raw w|op id dg w|p cancelled w Hroot|d d' Hp].
  - by apply (keeps_run (committed True o r)); [apply enqueue_committed|].
  - by apply (keeps_run (committed True o r)); [apply Complete_committed|].
  - apply (keeps_run (committed True o r)); [|done]. unfold PublishPending.
    apply keeps_bind; [apply Pending_keeps|]. intros [results|e]; [|apply keeps_ret].
    generalize {| su_Queued := 0; su_Retained := 0 |}, (@nil string). revert cancelled.
    induction results as [|x rest IH]; intros cancelled s errs; simpl; [apply keeps_ret|].
    keeps_step; [apply keeps_ret|]. apply keeps_bind; [|intros [err|]; apply IH].
    unfold publish_one. keeps_step; [|apply keeps_ret]. apply keeps_bind.
    { intros d Hd script rand HS. unfold call_client. simpl. split; [done|]. exact Hd. }
    intros [id|err]; [|apply keeps_ret]. keeps_step; [apply keeps_ret|].
    apply keeps_bind; [by apply Complete_committed|]. intros. apply keeps_ret.
  - by eapply committed_power_loss.
Qed.

Lemma enqueue_wp o event kind raw d :
  wp any (enqueue o event kind raw)
    (fun r d' => r = Ok tt ->
       let rec := new_record event kind raw in
       (d_live d !! outbox_path o (ev_EventID event) = None /\
        always d' (outbox_path o (ev_EventID event)) (fun v => v = Some (record_file rec))) \/
       (d' = d /\ exists i old, d_live d !! outbox_path o (ev_EventID event) = Some i /\
          json_unmarshal (i_data i) = Some old /\ sameResult old rec = true))
    (fun _ => True) d.
Proof.
  unfold enqueue, writeSyncClose, syncResultDirectory. cbn zeta.
  repeat (wp_step; [apply wp_ret; intros [=]|]).
  wp_step. wp_step; [done|apply wp_ret; intros [=]|].
  destruct (d_live d !! outbox_path o (ev_EventID event)) as [i|] eqn:Hlive; cbn [fst snd].
  - wp_step. eapply wp_mono; [apply readResultRecord_wp| |done]. intros [old|e] d' [-> Hr]; apply wp_ret; [|intros [=]].
    destruct (sameResult old _) eqn:Hsame; cbn [negb]; [|intros [=]]. intros _. right. split; [done|].
    destruct (Hr old eq_refl) as (_ & i' & Hi' & Hj). rewrite Hlive in Hi'. injection Hi' as <-. eauto.
  - wp_steps; try done; try (intros [=]; fail).
    all: try (match goal with E : fail_if false _ = Err _ |- _ => discriminate E | E : fail_if true _ = Ok _ |- _ => discriminate E end).
    intros _. left. split; [done|]. apply always_synced.
    by rewrite !live_mod, live_upd, !decide_True by done.
Qed.

Lemma sameResult_spec a b :
  sameResult a b = true ->
  rr_SourceEventID a = rr_SourceEventID b /\ rr_ResultKind a = rr_ResultKind b /\ rr_ResultJSON a = rr_ResultJSON b.
Proof. unfold sameResult. intros Hs. bool_props. done. Qed.

(** ** Properties *)

(** C11. One result per event, for its lifetime: once a result record is durable
    (and its text valid UTF-8), after any history of enqueues, completions,
    publications, crashes and power losses its name still holds that result, now
    and after any power loss, pending or complete; and whenever an enqueue for
    the event then succeeds, it carries the same kind and the same bytes. *)
Theorem one_result_per_event o r d d'
    (Hdurable : always d (outbox_path o (rr_SourceEventID r)) (fun v => v = Some (record_file r)))
    (Henc : encodable r) (Hid : eventIDPattern (rr_SourceEventID r) = true)
    (Hhist : rtc (ostep (ob_root o)) d d') :
  always d' (outbox_path o (rr_SourceEventID r)) (fun v => exists r', v = Some (record_file r') /\
    rr_SourceEventID r' = rr_SourceEventID r /\ rr_ResultKind r' = rr_ResultKind r /\ rr_ResultJSON r' = rr_ResultJSON r /\
    rr_ResultDigest r' = rr_ResultDigest r /\ (rr_State r' = rr_State r \/ rr_State r' = "complete")) /\
  (forall event kind raw w w', w_disk w = d' -> ev_EventID event = rr_SourceEventID r ->
     enqueue o event kind raw w = (Done (Ok tt), w') -> kind = rr_ResultKind r /\ raw = rr_ResultJSON r).
Proof.
  assert (Hc : committed True o r d') .
  { assert (Hc0 : committed True o r d) by (eapply always_mono; [exact Hdurable|]; intros v ->; by left).
    clear Hdurable. induction Hhist as [|d1 d2 d3 Hs _ IH]; [done|]. apply IH. by eapply ostep_committed. }
  split.
  { eapply always_mono; [exact Hc|]. intros v [->|[_ ->]]; eexists; (split; [done|]); cbn; auto 10. }
  intros event kind raw w w' <- Hevent Henq.
  pose proof (wp_run _ _ _ w (enqueue_wp o event kind raw (w_disk w))) as Hcase.
  rewrite Henq in Hcase. specialize (Hcase eq_refl). cbn zeta in Hcase. rewrite Hevent in Hcase.
  destruct Hcase as [[Hnone _]|(_ & i & old & Hi & Hj & Hs)].
  - destruct (committed_live _ _ _ _ Hc) as [E|[_ E]]; congruence.
  - apply sameResult_spec in Hs as (_ & Hk & Hraw).
    destruct (committed_read _ _ _ _ _ _ Henc Hc Hi Hj) as [->|[_ ->]]; simpl in *; split_and!; congruence || done.
Qed.

(** Durable before acknowledged: when [enqueue] reports success on a name that
    was free, the complete record is found under it now and after any power loss;
    on a taken name success means the stored result is the same and nothing was
    written. *)
Theorem enqueue_durable o event kind raw w w'
    (Henq : enqueue o event kind raw w = (Done (Ok tt), w')) :
  (d_live (w_disk w) !! outbox_path o (ev_EventID event) = None /\
   always (w_disk w') (outbox_path o (ev_EventID event))
     (fun v => v = Some (record_file (new_record event kind raw)))) \/
  (w_disk w' = w_disk w /\ exists i old, d_live (w_disk w) !! outbox_path o (ev_EventID event) = Some i /\
     json_unmarshal (i_data i) = Some old /\ rr_SourceEventID old = ev_EventID event /\
     rr_ResultKind old = kind /\ rr_ResultJSON old = raw).
Proof.
  pose proof (wp_run _ _ _ w (enqueue_wp o event kind raw (w_disk w))) as Hrun. rewrite Henq in Hrun.
  destruct (Hrun eq_refl) as [Hnew|(Hd & i & old & Hi & Hj & Hs)]; [by left|right].
  split; [done|]. exists i, old. apply sameResult_spec in Hs as (? & ? & ?). done.
Qed.

(** C9. No result is lost by publishing: whatever the Messenger answers and
    whatever faults, crash or cancellation the publisher meets, a durable pending
    result stays durably pending, or the Messenger has acknowledged exactly its
    idempotency key. *)
Theorem publish_never_loses p cancelled r w
    (Hdurable : always (w_disk w) (outbox_path (rp_outbox p) (rr_SourceEventID r)) (fun v => v = Some (record_file r)))
    (Henc : encodable r) (Hid : eventIDPattern (rr_SourceEventID r) = true) :
  let d' := w_disk (PublishPending p cancelled w).2 in
  always d' (outbox_path (rp_outbox p) (rr_SourceEventID r)) (fun v => v = Some (record_file r)) \/
  exists id, id <> "" /\ (resultIdempotency (rr_SourceEventID r) (rr_ResultDigest r), id) ∈ d_log d'.
Proof.
  intros d'.
  assert (Hk : published_or_pending (rp_outbox p) r d').
  { apply (keeps_run (published_or_pending (rp_outbox p) r)); [by apply PublishPending_keeps|].
    eapply always_mono; [exact Hdurable|]. intros v ->. by left. }
  assert (Hdec : acknowledged r d' \/ ~ acknowledged r d').
  { unfold acknowledged. destruct (decide (Exists (fun e => e.1 = result_key r /\ e.2 <> "") (d_log d'))) as [Hex|Hex].
    - left. apply Exists_exists in Hex as ([k id] & Hin & Hk1 & Hid1). simpl in *. subst k. eauto.
    - right. intros (id & Hne & Hin). apply Hex, Exists_exists. exists (result_key r, id). done. }
  destruct Hdec as [Hack|Hno]; [by right|left]. eapply always_mono; [exact Hk|]. intros v [->|[? _]]; done.
Qed.

(** A record one byte too long is committed but never read back: [enqueue]
    bounds the encoding without the newline it appends, so a record of exactly
    the bound is stored and every later reading of it, by [Pending] too, fails. *)
Theorem enqueue_boundary_unreadable o event kind raw w w' w2
    (Hfree : d_live (w_disk w) !! outbox_path o (ev_EventID event) = None)
    (Hlen : len (json_marshal (new_record event kind raw)) = maxRecordBytes)
    (Henq : enqueue o event kind raw w = (Done (Ok tt), w'))
    (Hsame : w_disk w2 = w_disk w') :
  forall rec, (readResultRecord (outbox_path o (ev_EventID event)) w2).1 <> Done (Ok rec).
Proof.
  intros rec. pose proof (wp_run _ _ _ w (enqueue_wp o event kind raw (w_disk w))) as Hrun. rewrite Henq in Hrun.
  destruct (Hrun eq_refl) as [[_ Hal%always_live]|(_ & i & old & Hi & _)]; [|congruence].
  assert (Hbad : wp any (readResultRecord (outbox_path o (ev_EventID event))) (fun r _ => r <> Ok rec) (fun _ => True) (w_disk w2)).
  { rewrite Hsame. unfold readResultRecord. wp_step. wp_step; [done|by apply wp_ret|]. unfold lookup_sys. rewrite Hal.
    cbn [record_file i_kind i_perm i_data i_owned i_single].
    assert (Hlong : (maxRecordBytes <? len (json_marshal (new_record event kind raw) +:+ newline)) = true).
    { apply Z.ltb_lt. rewrite len_app, Hlen. unfold len. simpl. lia. }
    rewrite Hlong, orb_true_r. by apply wp_ret. }
  pose proof (wp_run _ _ _ w2 Hbad) as Hw2. destruct (readResultRecord _ w2) as [[x|] ?]; [|done].
  intros [= ->]. by apply Hw2.
Qed.

End Outbox.

(** ** Runs and witnesses *)

Module Samples.
#[refine, export] Instance record_fields : Fields resultRecord := {|
  to_fields r := [rr_Schema r; rr_SourceEventID r; rr_ConversationID r; rr_SenderAgentID r;
    put_Z (rr_SourceCreatedAtUnix r); rr_ResultKind r; rr_ResultJSON r; rr_ResultDigest r; rr_State r];
  of_fields l := match l with
    | [a; b; c; d; e; f; g; h; i] =>
        Some {| rr_Schema := a; rr_SourceEventID := b; rr_ConversationID := c; rr_SenderAgentID := d;
                rr_SourceCreatedAtUnix := get_Z e; rr_ResultKind := f; rr_ResultJSON := g; rr_ResultDigest := h;
                rr_State := i |}
    | _ => None
    end;
  of_to_fields := _;
|}.
Proof. intros []. simpl. by rewrite !get_put_Z. Defined.

Definition outbox : ResultOutbox := {| ob_root := "/outbox"; ob_open := true |}.
Definition hash (s : string) : string := hex_EncodeToString (sha256_Sum256 s).
Definition sender : string := "agent_" +:+ hash "sender".
Definition event : Event :=
  {| ev_EventID := "evt_" +:+ hash "event"; ev_ConversationID := "conversation"; ev_SenderAgentID := sender;
     ev_CreatedAtUnix := 1700000000; ev_Kind := "mcp.call"; ev_Content := ""; ev_Network := None |}.
Definition maximum : Z := 1024.
Definition start : world := World (Disk ∅ ∅ []) [] [].
Definition first : outcome (result unit) * world := enqueue maximum outbox event "mcp.result" "{}" start.
Lemma first_ok : enqueue maximum outbox event "mcp.result" "{}" start = (Done (Ok tt), first.2).
Proof. apply (pair_fst first). vm_compute. reflexivity. Qed.
Definition record : resultRecord := new_record event "mcp.result" "{}".
Lemma sample_encodable : encodable record.
Proof. split; exact I. Qed.
Definition again : outcome (result unit) * world := enqueue maximum outbox event "mcp.result" "{}" first.2.
Lemma again_ok : enqueue maximum outbox event "mcp.result" "{}" first.2 = (Done (Ok tt), again.2).
Proof. apply (pair_fst again). vm_compute. reflexivity. Qed.
Lemma durable : always (w_disk first.2) (outbox_path outbox (rr_SourceEventID record)) (fun v => v = Some (record_file record)).
Proof. intros v [->|Hv]; [vm_compute; reflexivity|]. vm_compute in Hv. inversion Hv. Qed.

Definition route : ResultRoute :=
  {| rt_SenderAgentID := sender; rt_SessionID := "ses_" +:+ hash "session"; rt_RecipientEndpointID := "mep_" +:+ hash "endpoint" |}.
Definition publisher : ResultPublisher :=
  {| rp_outbox := outbox; rp_client := fun _ _ => Ok "evt_queued"; rp_routes := {[sender := route]};
     rp_lifetime := time_Hour |}.
Definition published : outcome (PublishSummary * list string) * world := PublishPending maximum publisher [] first.2.

(** A record whose encoding has exactly the maximal length. *)
Definition big_event : Event :=
  {| ev_EventID := ev_EventID event; ev_ConversationID := zeros (Z.to_nat 32768); ev_SenderAgentID := sender;
     ev_CreatedAtUnix := 1700000000; ev_Kind := "mcp.call"; ev_Content := ""; ev_Network := None |}.
Definition maximum2 : Z := len (json_marshal (new_record big_event "mcp.result" "{}")) - 32768.
Definition boundary : outcome (result unit) * world := enqueue maximum2 outbox big_event "mcp.result" "{}" start.
Lemma boundary_ok : enqueue maximum2 outbox big_event "mcp.result" "{}" start = (Done (Ok tt), boundary.2).
Proof. apply (pair_fst boundary). vm_compute. reflexivity. Qed.

(** A crash between the creation and the write of a record. *)
Definition torn : outcome (result unit) * world :=
  enqueue maximum outbox event "mcp.result" "{}" (World (Disk ∅ ∅ []) [DOk; DCrash] []).
(** A failed directory synchronisation whose clean-up fails too. *)
Definition unsynced : outcome (result unit) * world :=
  enqueue maximum outbox event "mcp.result" "{}" (World (Disk ∅ ∅ []) [DOk; DOk; DOk; DOk; DOk; DFail; DFail] []).
Definition retried : outcome (result unit) * world :=
  enqueue maximum outbox event "mcp.result" "{}" (World (w_disk unsynced.2) [] []).
End Samples.
#[local] Existing Instance Samples.record_fields.

(** A publication of one pending result queues it and leaves none pending. *)
Example publish_once :
  Samples.published.1 = Done ({| su_Queued := 1; su_Retained := 0 |}, []) /\
  (Pending Samples.maximum Samples.outbox Samples.published.2).1 = Done (Ok []).
Proof. split; vm_compute; reflexivity. Qed.

(** One torn record stops the publication of every other result. *)
Example torn_record_blocks_pending :
  Samples.torn.1 = Crashed /\
  (Pending Samples.maximum Samples.outbox (World (w_disk Samples.torn.2) [] [])).1 =
    Done (Err "invalid Messenger result outbox record").
Proof. split; vm_compute; reflexivity. Qed.

(** A retry that finds the record reports success although a power loss may
    still remove it. *)
Example enqueue_existing_not_durable :
  Samples.unsynced.1 = Done (Err "sync Messenger result directory") /\
  Samples.retried.1 = Done (Ok tt) /\
  candidate (w_disk Samples.retried.2) (outbox_path Samples.outbox (ev_EventID Samples.event)) None.
Proof. split; [vm_compute; reflexivity|]. split; [vm_compute; reflexivity|]. right. vm_compute. constructor. Qed.

Lemma one_result_per_event_witness : "{}" = rr_ResultJSON Samples.record.
Proof.
  destruct (one_result_per_event Samples.maximum Samples.outbox Samples.record (w_disk Samples.first.2) (w_disk Samples.first.2)
    Samples.durable Samples.sample_encodable ltac:(vm_compute; reflexivity) (rtc_refl _ _)) as [_ H].
  exact (proj2 (H Samples.event "mcp.result" "{}" Samples.first.2 Samples.again.2 eq_refl eq_refl Samples.again_ok)).
Defined.

Lemma enqueue_durable_witness :
  d_live (w_disk Samples.start) !! outbox_path Samples.outbox (ev_EventID Samples.event) = None.
Proof.
  destruct (enqueue_durable Samples.maximum Samples.outbox Samples.event "mcp.result" "{}" Samples.start Samples.first.2
    Samples.first_ok) as [[H _]|(_ & i & old & H & _)]; [exact H|discriminate H].
Defined.

Lemma publish_never_loses_witness :
  exists id, id <> "" /\ (resultIdempotency (rr_SourceEventID Samples.record) (rr_ResultDigest Samples.record), id)
    ∈ d_log (w_disk Samples.published.2).
Proof.
  destruct (publish_never_loses Samples.maximum Samples.publisher [] Samples.record Samples.first.2 Samples.durable Samples.sample_encodable
    ltac:(vm_compute; reflexivity)) as [H|H]; [|exact H].
  apply always_live in H. vm_compute in H. discriminate H.
Defined.

Lemma enqueue_boundary_unreadable_witness :
  (readResultRecord Samples.maximum2 (outbox_path Samples.outbox (ev_EventID Samples.big_event)) Samples.boundary.2).1
    <> Done (Ok Samples.record).
Proof.
  apply (enqueue_boundary_unreadable Samples.maximum2 Samples.outbox Samples.big_event "mcp.result" "{}" Samples.start
    Samples.boundary.2 Samples.boundary.2); [reflexivity| |exact Samples.boundary_ok|reflexivity].
  unfold maxRecordBytes, maxResultBytes, Samples.maximum2. change (Z.shiftl 32 10) with 32768. lia.
Defined.
