(* ===== verification/EventServer.v ===== *)
(** * pkg/messengereventbridge/server.go and execution_handlers.go

    The consumer of Messenger events: [decode] checks a request down to the
    canonical bytes of its event and asks the authorizer, the handlers execute
    the protocol body and commit its result to the outbox, and only then the
    server answers 202.  The event and payload codecs of the Messenger module
    and the execution adapters are parameters. *)

From S2P Require Import Prelude GoStd Sha256 FS Json Outbox.

Definition A2APath : string := "/v1/a2a-event".
Definition MCPPath : string := "/v1/mcp-event".
Definition EventContentType : string := "application/vnd.tos.messaging.event.v2+json".

Definition StatusAccepted : Z := 202.
Definition StatusForbidden : Z := 403.
Definition StatusRequestEntityTooLarge : Z := 413.
Definition StatusUnsupportedMediaType : Z := 415.
Definition StatusUnprocessableEntity : Z := 422.
Definition StatusServiceUnavailable : Z := 503.

(** ** The static policy *)

Record StaticPolicy := {
  sp_networkID : string;
  sp_genesisRoot : string;
  sp_genesisFile : string;
  sp_senders : list string;
  sp_conversations : list string;
}.

(** The loop of [strictSet]. *)
Fixpoint strict_from (previous : option string) (values : list string) : bool :=
  match values with
  | [] => true
  | v :: rest =>
      if (v =s? "") || match previous with Some p => str_leb v p | None => false end then false
      else strict_from (Some v) rest
  end.

Definition strictSet (values : list string) : bool :=
  if (llen values =? 0) then false
  else if strict_from None values then strings_are_sorted values else false.

(** [sort.SearchStrings]: the binary search of [sort.Search]. *)
Fixpoint search_strings (fuel : nat) (values : list string) (x : string) (i j : nat) : nat :=
  match fuel with
  | O => i
  | S f =>
      if (i <? j)%nat then
        let h := ((i + j) / 2)%nat in
        if str_leb x (default "" (values !! h)) then search_strings f values x i h
        else search_strings f values x (S h) j
      else i
  end.

(** The interval halves, so the number of values is enough fuel. *)
Definition sortedContains (values : list string) (value : string) : bool :=
  match values !! search_strings (length values) values value 0 (length values) with
  | Some v => v =s? value
  | None => false
  end.

Definition NewStaticPolicy (network : option NetworkDomain) (senders conversations : list string) : result StaticPolicy :=
  match network with
  | None => Err "invalid Messenger event static policy"
  | Some n =>
      fail_if ((nd_NetworkId n =s? "") || (nd_GenesisRootHash n =s? "") || (nd_GenesisFileHash n =s? "") ||
               negb (strictSet senders) || negb (strictSet conversations)) "invalid Messenger event static policy" ;;;
      Ok {| sp_networkID := nd_NetworkId n; sp_genesisRoot := nd_GenesisRootHash n;
            sp_genesisFile := nd_GenesisFileHash n; sp_senders := senders; sp_conversations := conversations |}
  end.

Definition AuthorizeMessengerEvent (p : StaticPolicy) (event : Event) : result unit :=
  match ev_Network event with
  | None => Err "Messenger Event is outside the static policy"
  | Some n =>
      fail_if ((nd_NetworkId n <>s? sp_networkID p) || (nd_GenesisRootHash n <>s? sp_genesisRoot p) ||
               (nd_GenesisFileHash n <>s? sp_genesisFile p) ||
               negb (sortedContains (sp_senders p) (ev_SenderAgentID event)) ||
               negb (sortedContains (sp_conversations p) (ev_ConversationID event)))
        "Messenger Event is outside the static policy"
  end.

(** ** Decoding *)

(** The typed payloads of the Messenger module the server distinguishes. *)
Record Body := { bd_Protocol : string; bd_Version : string; bd_Body : bytes }.
Inductive Payload := A2AMessage (b : Body) | MCPCall (b : Body) | MCPResult (b : Body) | OtherPayload.

Record HttpRequest := { hr_Method : string; hr_ContentType : string; hr_Body : bytes }.

Definition contains (values : list string) (value : string) : bool := existsb (fun c => c =s? value) values.

Section Server.
Context (MaxContentBytes : Z) `{Json resultRecord}.
Context (DecodeEventJSON : bytes -> option Event) (EncodeEventJSON : Event -> option bytes).
Context (payload_Decode : string -> bytes -> option Payload).

Definition MaxRequestBytes : Z := MaxContentBytes + Z.shiftl 32 10.

(** [Server.decode]: the status of the refusal, or the event and its body. *)
Definition decode (authorize : Event -> result unit) (request : HttpRequest) (kinds : list string)
    : Z + (Event * Payload) :=
  if (hr_Method request <>s? "POST") || (hr_ContentType request <>s? EventContentType)
  then inl StatusUnsupportedMediaType else
  if (MaxRequestBytes <? len (hr_Body request)) || (len (hr_Body request) =? 0)
  then inl StatusRequestEntityTooLarge else
  match DecodeEventJSON (hr_Body request) with
  | None => inl StatusUnprocessableEntity
  | Some event =>
      if negb (contains kinds (ev_Kind event)) then inl StatusUnprocessableEntity else
      match EncodeEventJSON event with
      | None => inl StatusUnprocessableEntity
      | Some canonical =>
          if hr_Body request <>s? canonical then inl StatusUnprocessableEntity else
          match payload_Decode (ev_Kind event) (ev_Content event) with
          | None => inl StatusUnprocessableEntity
          | Some body => if is_ok (authorize event) then inr (event, body) else inl StatusForbidden
          end
      end
  end.

(** [decodeStrictJSON]: the bound and the decoder of the destination type. *)
Definition decodeStrictJSON {T} (unmarshal : bytes -> option T) (raw : bytes) : option T :=
  if (len raw =? 0) || (MaxContentBytes <? len raw) then None else unmarshal raw.

(** The execution adapters: request and result types, their codecs, and the
    call, which may answer differently each time. *)
Record Adapter := {
  ad_Request : Type;
  ad_Result : Type;
  ad_request : bytes -> option ad_Request;
  ad_result : bytes -> option ad_Result;
  ad_marshal : ad_Result -> option bytes;
  ad_execute : nat -> ad_Request -> option ad_Result;
}.

(** [executor.Execute] or [executor.Call]; the effect is recorded in the log. *)
Definition execute (a : Adapter) (label : string) (event : Event) (request : ad_Request a) : IO (option (ad_Result a)) :=
  d ← get_disk;
  _ ← emit (label, ev_EventID event);
  mret (ad_execute a (length (d_log d)) request).

(** [json.Marshal] of the result and [enqueue]. *)
Definition commit_result (a : Adapter) (o : ResultOutbox) (event : Event) (kind : string) (task : ad_Result a)
    : IO (result unit) :=
  match ad_marshal a task with
  | None => mret (Err "encode result")
  | Some raw => enqueue MaxContentBytes o event kind raw
  end.

Definition HandleA2A (a : Adapter) (o : ResultOutbox) (event : Event) (body : Body) : IO (result unit) :=
  if (bd_Protocol body <>s? "a2a") || (bd_Version body <>s? "1")
  then mret (Err "invalid A2A Messenger execution event") else
  match decodeStrictJSON (ad_request a) (bd_Body body) with
  | None => mret (Err "invalid A2A Messenger request body")
  | Some request =>
      task ← execute a "a2a" event request;
      match task with
      | None => mret (Err "A2A Messenger execution failed")
      | Some task =>
          r ← commit_result a o event "a2a.message" task;
          mret (if is_ok r then Ok tt else Err "A2A Messenger result was not committed")
      end
  end.

Definition HandleMCPCall (a : Adapter) (o : ResultOutbox) (event : Event) (body : Body) : IO (result unit) :=
  if (bd_Protocol body <>s? "mcp") || (bd_Version body <>s? "1")
  then mret (Err "invalid MCP Messenger call event") else
  match decodeStrictJSON (ad_request a) (bd_Body body) with
  | None => mret (Err "invalid MCP Messenger call body")
  | Some input =>
      output ← execute a "mcp" event input;
      match output with
      | None => mret (Err "MCP Messenger execution failed")
      | Some output =>
          r ← commit_result a o event "mcp.result" output;
          mret (if is_ok r then Ok tt else Err "MCP Messenger result was not committed")
      end
  end.

(** The inbound journal: committed and completed at once. *)
Definition HandleMCPResult (a : Adapter) (journal : ResultOutbox) (event : Event) (body : Body) : IO (result unit) :=
  if (bd_Protocol body <>s? "mcp") || (bd_Version body <>s? "1")
  then mret (Err "invalid MCP Messenger result event") else
  match decodeStrictJSON (ad_result a) (bd_Body body) with
  | None => mret (Err "invalid MCP Messenger result body")
  | Some output =>
      match ad_marshal a output with
      | None => mret (Err "MCP Messenger result was not committed")
      | Some raw =>
          r ← journal_ReceiveMCPResult MaxContentBytes journal event raw;
          mret (if is_ok r then Ok tt else Err "MCP Messenger result was not committed")
      end
  end.

Record Server := {
  sv_authorize : Event -> result unit;
  sv_a2a : option Adapter;
  sv_mcp : option Adapter;
  sv_outbox : ResultOutbox;
  sv_journal : ResultOutbox;
}.

Definition receiveA2A (s : Server) (request : HttpRequest) : IO Z :=
  match sv_a2a s with
  | None => mret StatusServiceUnavailable
  | Some a =>
      match decode (sv_authorize s) request ["a2a.message"] with
      | inl status => mret status
      | inr (event, A2AMessage typed) =>
          r ← HandleA2A a (sv_outbox s) event typed;
          mret (if is_ok r then StatusAccepted else StatusServiceUnavailable)
      | inr _ => mret StatusUnprocessableEntity
      end
  end.

Definition receiveMCP (s : Server) (request : HttpRequest) : IO Z :=
  match sv_mcp s with
  | None => mret StatusServiceUnavailable
  | Some a =>
      match decode (sv_authorize s) request ["mcp.call"; "mcp.result"] with
      | inl status => mret status
      | inr (event, MCPCall typed) =>
          r ← HandleMCPCall a (sv_outbox s) event typed;
          mret (if is_ok r then StatusAccepted else StatusServiceUnavailable)
      | inr (event, MCPResult typed) =>
          r ← HandleMCPResult a (sv_journal s) event typed;
          mret (if is_ok r then StatusAccepted else StatusServiceUnavailable)
      | inr _ => mret StatusUnprocessableEntity
      end
  end.

End Server.

(** ** Lemmas: the binary search *)

Definition str_lt (s t : string) : Prop := str_ltb s t = true.

Lemma str_leb_false s t : str_leb s t = false <-> str_lt t s.
Proof. unfold str_leb, str_lt. destruct (str_ltb t s); simpl; naive_solver. Qed.

Lemma str_lt_le_false s t : str_lt s t -> str_leb t s = true -> False.
Proof. unfold str_lt, str_leb. intros ->. done. Qed.

Lemma strict_from_sorted values p :
  strict_from p values = true ->
  StronglySorted str_lt values /\ (forall x, p = Some x -> Forall (str_lt x) values).
Proof.
  revert p. induction values as [|v rest IH]; intros p Hs; [by repeat constructor|]. simpl in Hs.
  destruct ((v =s? "") || _) eqn:E; [done|]. bool_props. destruct (IH (Some v) Hs) as [Hss Hall].
  specialize (Hall v eq_refl). split; [by constructor|]. intros x ->.
  match goal with Hx : str_leb v x = false |- _ => apply str_leb_false in Hx; rename Hx into Hxv end.
  constructor; [done|]. eapply Forall_impl; [exact Hall|]. intros y Hy. unfold str_lt in *. by eapply str_ltb_trans.
Qed.

Lemma strict_lookup values a b s t :
  StronglySorted str_lt values -> (a < b)%nat -> values !! a = Some s -> values !! b = Some t -> str_lt s t.
Proof.
  intros Hs. revert a b. induction Hs as [|v rest Hs IH Hall]; intros a b Hab Ha Hb; [done|].
  destruct b as [|b]; [lia|]. destruct a as [|a]; simpl in *.
  - injection Ha as <-. rewrite Forall_forall in Hall. apply Hall. by apply list_elem_of_lookup_2 in Hb.
  - eapply IH; [|exact Ha|exact Hb]. lia.
Qed.

Lemma search_strings_spec fuel values x i j :
  StronglySorted str_lt values -> (i <= j)%nat -> (j <= length values)%nat -> (j - i <= fuel)%nat ->
  (forall k s, (k < i)%nat -> values !! k = Some s -> str_lt s x) ->
  (forall k s, (j <= k)%nat -> values !! k = Some s -> str_leb x s = true) ->
  let r := search_strings fuel values x i j in
  (forall k s, (k < r)%nat -> values !! k = Some s -> str_lt s x) /\
  (forall k s, (r <= k)%nat -> values !! k = Some s -> str_leb x s = true).
Proof.
  intros Hs. revert i j. induction fuel as [|f IH]; intros i j Hij Hj Hf Hlow Hhigh; cbn [search_strings].
  { assert (i = j) as -> by lia. done. }
  destruct (Nat.ltb_spec i j) as [Hlt|]; [|assert (i = j) as -> by lia; done].
  assert (Hh : (i <= (i + j) / 2 < j)%nat).
  { split; [apply Nat.div_le_lower_bound; lia|apply Nat.Div0.div_lt_upper_bound; lia]. }
  set (h := ((i + j) / 2)%nat) in *. clearbody h.
  destruct (lookup_lt_is_Some_2 values h ltac:(lia)) as [v Hv]. rewrite Hv. cbn [default from_option id].
  destruct (str_leb x v) eqn:E.
  - apply IH; try lia; [done|]. intros k s Hk Hks. destruct (decide (k = h)) as [->|]; [congruence|].
    destruct (decide (k < j)%nat); [|apply (Hhigh k); [lia|done]].
    pose proof (strict_lookup values h k v s Hs ltac:(lia) Hv Hks) as Hlt'.
    apply str_leb_spec. apply str_leb_spec in E. unfold str_lt in Hlt'. left.
    destruct E as [E| ->]; [by eapply str_ltb_trans|done].
  - apply IH; try lia; [|done]. apply str_leb_false in E. intros k s Hk Hks.
    destruct (decide (k = h)) as [->|]; [congruence|]. destruct (decide (k < i)%nat); [by apply (Hlow k)|].
    pose proof (strict_lookup values k h s v Hs ltac:(lia) Hks Hv) as Hlt'. unfold str_lt in *. by eapply str_ltb_trans.
Qed.

Lemma sortedContains_spec values value :
  strictSet values = true -> sortedContains values value = true <-> value ∈ values.
Proof.
  intros Hset. assert (Hs : StronglySorted str_lt values).
  { unfold strictSet in Hset. destruct (llen values =? 0); [done|]. destruct (strict_from None values) eqn:E; [|done].
    by apply (strict_from_sorted values None). }
  destruct (search_strings_spec (length values) values value 0 (length values) Hs) as [Hlow Hhigh]; try lia.
  { intros k s Hk Hks. apply lookup_lt_Some in Hks. lia. }
  unfold sortedContains. set (r := search_strings _ _ _ _ _) in *. clearbody r. split.
  - destruct (values !! r) as [v|] eqn:Hr; [|done]. intros ->%String.eqb_eq. by eapply list_elem_of_lookup_2.
  - intros [k Hk]%list_elem_of_lookup_1.
    assert (Hrk : (r <= k)%nat).
    { destruct (decide (r <= k)%nat); [done|]. pose proof (Hlow k value ltac:(lia) Hk) as Hc. unfold str_lt in Hc.
      by rewrite str_ltb_irrefl in Hc. }
    destruct (decide (r = k)) as [->|]; [rewrite Hk; apply String.eqb_refl|].
    destruct (lookup_lt_is_Some_2 values r) as [v Hv]; [apply lookup_lt_Some in Hk; lia|].
    pose proof (Hhigh r v ltac:(lia) Hv) as Hle. pose proof (strict_lookup values r k v value Hs ltac:(lia) Hv Hk) as Hlt.
    by destruct (str_lt_le_false _ _ Hlt Hle).
Qed.

(** ** Properties *)

(** The static policy is an exact allow list: an event is authorised exactly
    when it names the policy's network and both genesis hashes, and its sender
    and its conversation are members of the configured sets; the binary search
    finds every member. *)
Theorem AuthorizeMessengerEvent_exact network senders conversations p event
    (Hnew : NewStaticPolicy (Some network) senders conversations = Ok p) :
  is_ok (AuthorizeMessengerEvent p event) = true <->
  ev_Network event = Some network /\ ev_SenderAgentID event ∈ senders /\ ev_ConversationID event ∈ conversations.
Proof.
  unfold NewStaticPolicy in Hnew. apply then_ok in Hnew as [Hc%fail_if_ok [= <-]]. bool_props.
  unfold AuthorizeMessengerEvent. cbn [sp_networkID sp_genesisRoot sp_genesisFile sp_senders sp_conversations].
  rewrite <- (sortedContains_spec senders), <- (sortedContains_spec conversations) by done.
  destruct (ev_Network event) as [n|]; [|split; [done|by intros [? _]]].
  rewrite is_ok_true. setoid_rewrite fail_if_ok. split.
  - intros [_ Ha]. bool_props. split; [|done]. destruct n, network. simpl in *. congruence.
  - intros ([= ->] & Hs & Hv). exists tt. by rewrite !String.eqb_refl, Hs, Hv.
Qed.

Section Accepted.
Context (MaxContentBytes : Z) `{Json resultRecord}.
Context (DecodeEventJSON : bytes -> option Event) (EncodeEventJSON : Event -> option bytes).
Context (payload_Decode : string -> bytes -> option Payload).

(** What a decoded request satisfies. *)
Record admitted (authorize : Event -> result unit) (request : HttpRequest) (kinds : list string) (event : Event)
    (body : Payload) : Prop := {
  am_method : hr_Method request = "POST";
  am_type : hr_ContentType request = EventContentType;
  am_size : 0 < len (hr_Body request) <= MaxContentBytes + 32768;
  am_event : DecodeEventJSON (hr_Body request) = Some event;
  am_kind : ev_Kind event ∈ kinds;
  am_canonical : EncodeEventJSON event = Some (hr_Body request);
  am_payload : payload_Decode (ev_Kind event) (ev_Content event) = Some body;
  am_authorized : is_ok (authorize event) = true;
}.

Lemma decode_admitted authorize request kinds event body :
  decode MaxContentBytes DecodeEventJSON EncodeEventJSON payload_Decode authorize request kinds = inr (event, body) ->
  admitted authorize request kinds event body.
Proof.
  unfold decode. intros Hd. repeat case_match; simplify_eq; bool_props.
  unfold MaxRequestBytes in *. change (Z.shiftl 32 10) with 32768 in *.
  pose proof (len_nonneg (hr_Body request)). constructor; auto; [lia| |congruence].
  match goal with Hk : contains _ _ = true |- _ => apply existsb_exists in Hk as (k & Hin & <-%String.eqb_eq) end.
  by apply list_elem_of_In.
Qed.

Lemma decode_refuses authorize request kinds status :
  decode MaxContentBytes DecodeEventJSON EncodeEventJSON payload_Decode authorize request kinds = inl status ->
  status <> StatusAccepted.
Proof. unfold decode. intros Hd. repeat case_match; simplify_eq; done. Qed.

(** The event's name in the outbox holds the result. *)
Definition result_stored (o : ResultOutbox) (event : Event) (kind : string) (raw : bytes) (d : disk) : Prop :=
  always d (outbox_path o (ev_EventID event)) (fun v => v = Some (record_file (new_record event kind raw))) \/
  exists i old, d_live d !! outbox_path o (ev_EventID event) = Some i /\ json_unmarshal (i_data i) = Some old /\
    sameResult old (new_record event kind raw) = true.

Lemma enqueue_stored o event kind raw d :
  wp any (enqueue MaxContentBytes o event kind raw)
    (fun r d' => r = Ok tt -> result_stored o event kind raw d') (fun _ => True) d.
Proof.
  eapply wp_mono; [apply enqueue_wp| |done]. intros r d' Hr Hok.
  destruct (Hr Hok) as [[_ Hal]|(-> & i & old & Hi & Hj & Hs)]; [by left|right; eauto].
Qed.

Lemma handle_a2a_stored a o event body d :
  wp any (HandleA2A MaxContentBytes a o event body)
    (fun r d' => r = Ok tt -> exists n request task raw,
       decodeStrictJSON MaxContentBytes (ad_request a) (bd_Body body) = Some request /\
       ad_execute a n request = Some task /\ ad_marshal a task = Some raw /\
       result_stored o event "a2a.message" raw d') (fun _ => True) d.
Proof.
  unfold HandleA2A. wp_step; [apply wp_ret; intros [=]|].
  destruct (decodeStrictJSON _ _ _) as [request|] eqn:Hreq; [|apply wp_ret; intros [=]].
  apply wp_bind. intros script rand HS. unfold execute. simpl. split; [done|].
  destruct (ad_execute a (length (d_log d)) request) as [task|] eqn:Htask; [|apply wp_ret; intros [=]].
  unfold commit_result. destruct (ad_marshal a task) as [raw|] eqn:Hraw; [|wp_steps; intros [=]].
  wp_step. eapply wp_mono; [apply enqueue_stored| |done]. intros r d' Hr. apply wp_ret.
  destruct r as [[]|e]; [|intros [=]]. intros _. exists (length (d_log d)), request, task, raw. auto.
Qed.

(** 202 means committed: the server answers 202 to an A2A request only when
    the request is a POST of the event media type within the bound, its body is
    the canonical encoding of an event of that kind with a well-formed payload,
    the authorizer accepted the event, the executor returned a task, and the
    encoding of that task is stored in the outbox under the event's identifier. *)
Theorem accepted_means_committed (s : Server) request w w'
    (Hans : receiveA2A MaxContentBytes DecodeEventJSON EncodeEventJSON payload_Decode s request w =
      (Done StatusAccepted, w')) :
  exists a event body n req task raw,
    sv_a2a s = Some a /\ admitted (sv_authorize s) request ["a2a.message"] event (A2AMessage body) /\
    bd_Protocol body = "a2a" /\ bd_Version body = "1" /\
    ad_request a (bd_Body body) = Some req /\ ad_execute a n req = Some task /\ ad_marshal a task = Some raw /\
    result_stored (sv_outbox s) event "a2a.message" raw (w_disk w').
Proof.
  unfold receiveA2A in Hans. destruct (sv_a2a s) as [a|]; [|discriminate Hans].
  destruct (decode _ _ _ _ _ _ _) as [status|[event payload]] eqn:Hd.
  { apply decode_refuses in Hd. injection Hans as Hs _. done. }
  destruct payload as [body|body|body|]; try (discriminate Hans). apply decode_admitted in Hd.
  assert (Hproto : bd_Protocol body = "a2a" /\ bd_Version body = "1").
  { unfold HandleA2A in Hans. destruct (_ || _) eqn:E in Hans; [discriminate Hans|]. bool_props. done. }
  pose proof (wp_run _ _ _ w (handle_a2a_stored a (sv_outbox s) event body (w_disk w))) as Hrun.
  unfold mbind at 1, io_bind in Hans.
  destruct (HandleA2A _ _ _ _ _ w) as [[r|] w1]; [|discriminate Hans].
  destruct r as [[]|e]; [|discriminate Hans]. injection Hans as <-.
  destruct (Hrun eq_refl) as (n & req & task & raw & Hreq & Htask & Hraw & Hst).
  unfold decodeStrictJSON in Hreq. destruct (_ || _); [done|].
  exists a, event, body, n, req, task, raw. destruct Hproto. done.
Qed.

End Accepted.

(** ** Witnesses *)

Module Samples.
Definition network : NetworkDomain := {| nd_NetworkId := "tos"; nd_GenesisRootHash := "root"; nd_GenesisFileHash := "file" |}.
Definition policy : StaticPolicy :=
  {| sp_networkID := "tos"; sp_genesisRoot := "root"; sp_genesisFile := "file";
     sp_senders := ["agent_a"; "agent_b"; "agent_c"]; sp_conversations := ["conversation"] |}.
Definition event : Event :=
  {| ev_EventID := ev_EventID Outbox.Samples.event; ev_ConversationID := "conversation"; ev_SenderAgentID := "agent_b";
     ev_CreatedAtUnix := 1700000000; ev_Kind := "a2a.message"; ev_Content := "content"; ev_Network := Some network |}.
Definition decode_event (b : bytes) : option Event := if b =s? "event" then Some event else None.
Definition encode_event (e : Event) : option bytes := Some "event".
Definition decode_payload (k c : string) : option Payload :=
  Some (A2AMessage {| bd_Protocol := "a2a"; bd_Version := "1"; bd_Body := "request" |}).
Definition adapter : Adapter :=
  {| ad_Request := string; ad_Result := string; ad_request := Some; ad_result := Some; ad_marshal := Some;
     ad_execute := fun _ r => Some (r +:+ " done") |}.
Definition server : Server :=
  {| sv_authorize := AuthorizeMessengerEvent policy; sv_a2a := Some adapter; sv_mcp := None;
     sv_outbox := Outbox.Samples.outbox; sv_journal := Outbox.Samples.outbox |}.
Definition request : HttpRequest := {| hr_Method := "POST"; hr_ContentType := EventContentType; hr_Body := "event" |}.
#[local] Existing Instance Outbox.Samples.record_fields.
Definition answer : outcome Z * world :=
  receiveA2A 1024 decode_event encode_event decode_payload server request (World (Disk ∅ ∅ []) [] []).
Lemma answer_ok :
  receiveA2A 1024 decode_event encode_event decode_payload server request (World (Disk ∅ ∅ []) [] []) =
  (Done StatusAccepted, answer.2).
Proof. apply (pair_fst answer). vm_compute. reflexivity. Qed.
End Samples.
#[local] Existing Instance Outbox.Samples.record_fields.

Lemma AuthorizeMessengerEvent_exact_witness : is_ok (AuthorizeMessengerEvent Samples.policy Samples.event) = true.
Proof.
  apply (AuthorizeMessengerEvent_exact Samples.network ["agent_a"; "agent_b"; "agent_c"] ["conversation"]); [reflexivity|].
  split; [reflexivity|]. split; [right; left|left].
Defined.

Lemma accepted_means_committed_witness : exists a body n req task raw,
  sv_a2a Samples.server = Some a /\ ad_request a (bd_Body body) = Some req /\ ad_execute a n req = Some task /\
  ad_marshal a task = Some raw.
Proof.
  destruct (accepted_means_committed 1024 Samples.decode_event Samples.encode_event Samples.decode_payload Samples.server
    Samples.request _ _ Samples.answer_ok) as (a & event & body & n & req & task & raw & H1 & _ & _ & _ & H2 & H3 & H4 & _).
  exists a, body, n, req, task, raw. exact (conj H1 (conj H2 (conj H3 H4))).
Defined.
