(* ===== verification/GatePlan.v ===== *)
(** * pkg/commercegate/gate.go: plans and their validation

    The data of the local execution gate, the normalisation and validation of
    an execution plan, and the checks of one HTTPS effect against it.  The
    commerce protocol (canonical encodings, digests, semantic identities, fences
    and authorised actions) is another module and a parameter here. *)

From S2P Require Import Prelude GoStd Sha256.

Definition MaxPlanFiles : Z := 256.
Definition MaxInputFileBytes : Z := Z.shiftl 1 30.
Definition MaxStartTicketLifetime : Z := 5 * time_Minute.
Definition MaxPlanNetworkTargets : Z := 64.
Definition MaxPlanCredentials : Z := 64.
Definition MaxPlanEffects : Z := 256.

Definition LeaseLossContinue : string := "continue".
Definition LeaseLossDrain : string := "drain".
Definition LeaseLossKill : string := "kill".

Record FileBinding := { fb_Path : string; fb_Digest : string; fb_Size : Z }.

Record NetworkBinding := {
  nb_BindingID : string;
  nb_Scheme : string;
  nb_Host : string;
  nb_Port : Z;               (* uint16 *)
  nb_ResolvedIPs : list string;
  nb_TLSServerName : string;
  nb_AllowRedirects : bool;
  nb_MaxRequestBytes : Z;    (* uint64 *)
  nb_MaxResponseBytes : Z;   (* uint64 *)
}.

Record CredentialBinding := { cb_HandleID : string; cb_ScopeDigest : string; cb_ExpiresAtUnix : Z }.

Record EffectBinding := {
  eb_PlanEffectID : string;
  eb_EffectProfileDigest : string;
  eb_TargetDigest : string;
  eb_OperationKind : string;
  eb_EffectSemanticKeyDigest : string;
  eb_NetworkBindingID : string;
  eb_CredentialHandleID : string;
  eb_MaximumUses : Z;        (* uint32 *)
}.

Record Plan := {
  pl_OwnerID : string;
  pl_AgentID : string;
  pl_AgreementBodyDigest : string;
  pl_ExecutionObligationID : string;
  pl_CanonicalPlanDigest : string;
  pl_AcceptedInputManifestDigest : string;
  pl_AttemptIndex : Z;
  pl_PredecessorTerminalResolutionDigest : string;
  pl_ExecutionID : string;
  pl_ReservationID : string;
  pl_PolicyRevision : Z;
  pl_WriterGeneration : Z;
  pl_LeaseLossPolicy : string;
  pl_Files : list FileBinding;
  pl_NetworkBindings : list NetworkBinding;
  pl_CredentialBindings : list CredentialBinding;
  pl_EffectBindings : list EffectBinding;
}.

Record Ticket := { tk_ExecutionID : string; tk_Secret : string; tk_StartNotAfterUnix : Z; tk_PlanDigest : string }.

Record HTTPHeader := { hh_Name : string; hh_Value : string }.

Record HTTPSRequest := {
  hq_PlanEffectID : string;
  hq_Method : string;
  hq_PathAndQuery : string;
  hq_Headers : list HTTPHeader;
  hq_Body : bytes;
}.

Record HTTPSResponse := { hs_StatusCode : Z; hs_Body : bytes; hs_Digest : string }.

(** ** The commerce module *)

(** The fields of a writer fence and of an authorised action the program reads. *)
Record WriterFence := { wf_OwnerID : string; wf_AgentID : string; wf_WriterGeneration : Z; wf_ExpiresAtUnix : Z }.

Record AuthorizedAction := {
  aa_ActionKind : string;
  aa_StableActionID : string;
  aa_ExactRequestDigest : string;
  aa_OwnerID : string;
  aa_AgentID : string;
  aa_ExpiresAtUnix : Z;
}.

(** [commerce.ID], [commerce.Digest32], [commerce.Kind] and [commerce.U64]. *)
Inductive SemanticValue := SV_ID (s : string) | SV_Digest32 (s : string) | SV_Kind (s : string) | SV_U64 (z : Z).

(** The functions of the module, with the gate's resolver folded in; times are
    nanoseconds since the epoch. *)
Class Commerce := {
  VerifyWriterFence : WriterFence -> Z -> string -> result unit;
  ConfirmCurrentWriterFence : WriterFence -> Z -> result unit;
  VerifyAuthorizedAction : AuthorizedAction -> gmap string SemanticValue -> bytes -> WriterFence -> Z -> result unit;
  DeriveStableActionID : string -> gmap string SemanticValue -> result string;
  codec_Marshal_plan : Plan -> result bytes;
  codec_Marshal_ticket : Ticket -> result bytes;
  codec_Marshal_request : HTTPSRequest -> result bytes;
  codec_Digest_plan : string -> Plan -> result string;
  codec_Digest_network : string -> NetworkBinding -> result string;
  codec_Digest_response : string -> Z -> bytes -> result string;
}.

(** ** Digests, addresses and sorting *)

Definition validDigest (value : string) : bool :=
  (len value =? 71) && (str_take 7 value =s? "sha256:") && hex_decodable (str_drop 7 value).

(** The predicates of [net.IP] on the sixteen-byte form. *)
Definition to4 (ip : list Z) : option (list Z) :=
  if bool_decide (take 12 ip = replicate 10 0 ++ [255; 255]) then Some (drop 12 ip) else None.

Definition byte_at (l : list Z) (i : nat) : Z := default 0 (l !! i).

Definition IsUnspecified (ip : list Z) : bool :=
  bool_decide (ip = replicate 16 0) || bool_decide (to4 ip = Some [0; 0; 0; 0]).
Definition IsLoopback (ip : list Z) : bool :=
  match to4 ip with Some v => byte_at v 0 =? 127 | None => bool_decide (ip = replicate 15 0 ++ [1]) end.
Definition IsPrivate (ip : list Z) : bool :=
  match to4 ip with
  | Some v => (byte_at v 0 =? 10) || ((byte_at v 0 =? 172) && (Z.land (byte_at v 1) 240 =? 16)) ||
              ((byte_at v 0 =? 192) && (byte_at v 1 =? 168))
  | None => Z.land (byte_at ip 0) 254 =? 252
  end.
Definition IsMulticast (ip : list Z) : bool :=
  match to4 ip with Some v => Z.land (byte_at v 0) 240 =? 224 | None => byte_at ip 0 =? 255 end.
Definition IsLinkLocalMulticast (ip : list Z) : bool :=
  match to4 ip with
  | Some v => (byte_at v 0 =? 224) && (byte_at v 1 =? 0) && (byte_at v 2 =? 0)
  | None => (byte_at ip 0 =? 255) && (Z.land (byte_at ip 1) 15 =? 2)
  end.
Definition IsLinkLocalUnicast (ip : list Z) : bool :=
  match to4 ip with
  | Some v => (byte_at v 0 =? 169) && (byte_at v 1 =? 254)
  | None => (byte_at ip 0 =? 254) && (Z.land (byte_at ip 1) 192 =? 128)
  end.
Definition IsGlobalUnicast (ip : list Z) : bool :=
  negb (bool_decide (to4 ip = Some [255; 255; 255; 255])) && negb (IsUnspecified ip) && negb (IsLoopback ip) &&
  negb (IsMulticast ip) && negb (IsLinkLocalUnicast ip).

Definition publicIP (ip : option (list Z)) : bool :=
  match ip with
  | None => false
  | Some ip => IsGlobalUnicast ip && negb (IsPrivate ip) && negb (IsLoopback ip) && negb (IsLinkLocalUnicast ip) &&
               negb (IsLinkLocalMulticast ip)
  end.

(** ** preparePlan *)

Definition set_identity (p : Plan) (generation : Z) (canonical executionID : string)
    (files : list FileBinding) (networks : list NetworkBinding) (credentials : list CredentialBinding)
    (effects : list EffectBinding) : Plan :=
  {| pl_OwnerID := pl_OwnerID p; pl_AgentID := pl_AgentID p; pl_AgreementBodyDigest := pl_AgreementBodyDigest p;
     pl_ExecutionObligationID := pl_ExecutionObligationID p; pl_CanonicalPlanDigest := canonical;
     pl_AcceptedInputManifestDigest := pl_AcceptedInputManifestDigest p; pl_AttemptIndex := pl_AttemptIndex p;
     pl_PredecessorTerminalResolutionDigest := pl_PredecessorTerminalResolutionDigest p; pl_ExecutionID := executionID;
     pl_ReservationID := pl_ReservationID p; pl_PolicyRevision := pl_PolicyRevision p;
     pl_WriterGeneration := generation; pl_LeaseLossPolicy := pl_LeaseLossPolicy p; pl_Files := files;
     pl_NetworkBindings := networks; pl_CredentialBindings := credentials; pl_EffectBindings := effects |}.

Definition valid_file (f : FileBinding) : bool :=
  filepath_IsAbs (fb_Path f) && (path_Clean (fb_Path f) =s? fb_Path f) && validDigest (fb_Digest f) &&
  (fb_Size f <=? MaxInputFileBytes).

Definition valid_network (b : NetworkBinding) : bool :=
  (nb_BindingID b <>s? "") && (nb_Scheme b =s? "https") && (nb_Host b <>s? "") && negb (nb_Port b =? 0) &&
  (nb_TLSServerName b =s? nb_Host b) && negb (nb_AllowRedirects b) && negb (nb_MaxRequestBytes b =? 0) &&
  (nb_MaxRequestBytes b <=? Z.shiftl 16 20) && negb (nb_MaxResponseBytes b =? 0) &&
  (nb_MaxResponseBytes b <=? Z.shiftl 64 20) && negb (llen (nb_ResolvedIPs b) =? 0) &&
  (llen (nb_ResolvedIPs b) <=? 16) && strings_are_sorted (nb_ResolvedIPs b).

Definition valid_addresses (b : NetworkBinding) : bool :=
  each_distinct (fun s => s) (fun text => publicIP (net_ParseIP text)) None (nb_ResolvedIPs b).

Definition valid_credential (b : CredentialBinding) : bool :=
  (cb_HandleID b <>s? "") && validDigest (cb_ScopeDigest b) && negb (cb_ExpiresAtUnix b =? 0).

Definition https_kind (kind : string) : bool :=
  (kind =s? "https.get") || (kind =s? "https.post") || (kind =s? "https.put") || (kind =s? "https.delete").

Definition plan_complete (p : Plan) (f : WriterFence) : bool :=
  (pl_OwnerID p =s? wf_OwnerID f) && (pl_AgentID p =s? wf_AgentID f) && (pl_AgreementBodyDigest p <>s? "") &&
  (pl_ExecutionObligationID p <>s? "") && (pl_AcceptedInputManifestDigest p <>s? "") && (pl_ReservationID p <>s? "") &&
  negb (pl_PolicyRevision p =? 0) && (llen (pl_Files p) <=? MaxPlanFiles) &&
  (llen (pl_NetworkBindings p) <=? MaxPlanNetworkTargets) && (llen (pl_CredentialBindings p) <=? MaxPlanCredentials) &&
  (llen (pl_EffectBindings p) <=? MaxPlanEffects) &&
  ((pl_LeaseLossPolicy p =s? LeaseLossContinue) || (pl_LeaseLossPolicy p =s? LeaseLossDrain) ||
   (pl_LeaseLossPolicy p =s? LeaseLossKill)).

(** The loop over the network bindings. *)
Fixpoint check_networks (previous : option string) (l : list NetworkBinding) : result unit :=
  match l with
  | [] => Ok tt
  | b :: rest =>
      fail_if (negb (valid_network b) || bool_decide (previous = Some (nb_BindingID b)))
        "execution network binding is invalid or duplicated" ;;;
      fail_if (negb (valid_addresses b))
        "execution network binding contains a non-public or duplicate address" ;;;
      check_networks (Some (nb_BindingID b)) rest
  end.

Definition find_network (networks : list NetworkBinding) (id : string) : option NetworkBinding :=
  list_find (fun b => nb_BindingID b = id) networks ≫= (fun x => Some x.2).

Definition find_credential (credentials : list CredentialBinding) (id : string) : option CredentialBinding :=
  list_find (fun b => cb_HandleID b = id) credentials ≫= (fun x => Some x.2).

Definition find_effect (effects : list EffectBinding) (id : string) : option EffectBinding :=
  list_find (fun b => eb_PlanEffectID b = id) effects ≫= (fun x => Some x.2).

Section Plan.
Context `{Commerce}.

(** The identifiers of accepted network and credential bindings are distinct,
    so that the lookup in Go's maps is the lookup in the list. *)
Definition valid_effect (networks : list NetworkBinding) (credentials : list CredentialBinding) (e : EffectBinding) : bool :=
  match find_network networks (eb_NetworkBindingID e) with
  | None => false
  | Some network =>
      match codec_Digest_network "tos.executor-network-target.v1" network with
      | Err _ => false
      | Ok targetDigest =>
          (eb_PlanEffectID e <>s? "") && validDigest (eb_EffectProfileDigest e) && validDigest (eb_TargetDigest e) &&
          validDigest (eb_EffectSemanticKeyDigest e) && https_kind (eb_OperationKind e) &&
          (eb_TargetDigest e =s? targetDigest) && (eb_MaximumUses e =? 1) &&
          ((eb_CredentialHandleID e =s? "") || bool_decide (is_Some (find_credential credentials (eb_CredentialHandleID e))))
      end
  end.

Definition slot_fields (p : Plan) (canonicalPlanDigest : string) : gmap string SemanticValue :=
  list_to_map [("owner_id", SV_ID (pl_OwnerID p)); ("agent_id", SV_ID (pl_AgentID p));
    ("agreement_body_digest", SV_Digest32 (pl_AgreementBodyDigest p));
    ("execution_obligation_id", SV_ID (pl_ExecutionObligationID p));
    ("canonical_plan_digest", SV_Digest32 canonicalPlanDigest);
    ("accepted_input_manifest_digest", SV_Digest32 (pl_AcceptedInputManifestDigest p));
    ("attempt_index", SV_U64 (pl_AttemptIndex p));
    ("predecessor_terminal_resolution_digest", SV_Digest32 (pl_PredecessorTerminalResolutionDigest p))].

Definition preparePlan (plan : Plan) (fence : WriterFence) : result (Plan * string) :=
  fail_if (negb (plan_complete plan fence)) "execution plan is incomplete" ;;;
  let files := sort_by fb_Path (pl_Files plan) in
  fail_if (negb (each_distinct fb_Path valid_file None files)) "execution file binding is invalid or duplicated" ;;;
  let networks := sort_by nb_BindingID (pl_NetworkBindings plan) in
  check_networks None networks ;;;
  let credentials := sort_by cb_HandleID (pl_CredentialBindings plan) in
  fail_if (negb (each_distinct cb_HandleID valid_credential None credentials))
    "execution credential binding is invalid or duplicated" ;;;
  let effects := sort_by eb_PlanEffectID (pl_EffectBindings plan) in
  fail_if (negb (each_distinct eb_PlanEffectID (valid_effect networks credentials) None effects))
    "execution effect binding is invalid or duplicated" ;;;
  let* canonicalPlanDigest :=
    codec_Digest_plan "tos.local-execution-plan.v1" (set_identity plan 0 "" "" files networks credentials effects) in
  let* executionID := DeriveStableActionID "execution.slot" (slot_fields plan canonicalPlanDigest) in
  let prepared := set_identity plan (wf_WriterGeneration fence) canonicalPlanDigest executionID
                    files networks credentials effects in
  let* d := codec_Digest_plan "tos.local-execution-plan-bound.v1" prepared in
  Ok (prepared, d).

(** ** Authorisation material *)

Definition plan_fields (p : Plan) : gmap string SemanticValue :=
  list_to_map [("owner_id", SV_ID (pl_OwnerID p)); ("agent_id", SV_ID (pl_AgentID p));
    ("execution_id", SV_Digest32 (pl_ExecutionID p))].

Definition prepareAuthorizationMaterial (prepared : Plan) : result (bytes * gmap string SemanticValue) :=
  let* request := codec_Marshal_plan prepared in Ok (request, plan_fields prepared).

Definition PrepareAuthorizationMaterial (plan : Plan) (fence : WriterFence)
    : result (Plan * bytes * gmap string SemanticValue) :=
  let* pd := preparePlan plan fence in
  let* rf := prepareAuthorizationMaterial pd.1 in Ok (pd.1, rf.1, rf.2).

Definition startAuthorizationMaterial (plan : Plan) (ticket : Ticket) : result (bytes * gmap string SemanticValue) :=
  let* request := codec_Marshal_ticket ticket in Ok (request, plan_fields plan).

Definition EffectAuthorizationMaterial (plan : Plan) (request : HTTPSRequest)
    : result (bytes * gmap string SemanticValue) :=
  match find_effect (pl_EffectBindings plan) (hq_PlanEffectID request) with
  | None => Err "effect is not present in the approved plan"
  | Some effect =>
      let* canonical := codec_Marshal_request request in
      Ok (canonical,
        list_to_map [("owner_id", SV_ID (pl_OwnerID plan)); ("agent_id", SV_ID (pl_AgentID plan));
          ("agreement_body_digest", SV_Digest32 (pl_AgreementBodyDigest plan));
          ("obligation_id", SV_ID (pl_ExecutionObligationID plan));
          ("execution_id", SV_Digest32 (pl_ExecutionID plan)); ("plan_effect_id", SV_ID (eb_PlanEffectID effect));
          ("effect_profile_digest", SV_Digest32 (eb_EffectProfileDigest effect));
          ("target_digest", SV_Digest32 (eb_TargetDigest effect)); ("operation_kind", SV_Kind (eb_OperationKind effect));
          ("effect_semantic_key_digest", SV_Digest32 (eb_EffectSemanticKeyDigest effect))])
  end.

End Plan.

(** ** One HTTPS request *)

Definition to_upper_char (c : ascii) : ascii := if is_lower c then ascii_of_nat (Z.to_nat (code c - 32)) else c.
Definition to_lower_char (c : ascii) : ascii := if is_upper c then ascii_of_nat (Z.to_nat (code c + 32)) else c.

Fixpoint str_map (f : ascii -> ascii) (s : string) : string :=
  match s with EmptyString => "" | String c s' => String (f c) (str_map f s') end.

(** [strings.ToUpper] on ASCII text. *)
Definition ToUpper (s : string) : string := str_map to_upper_char s.

Definition has_newline (s : string) : bool :=
  contains_byte s (ascii_of_nat 13) || contains_byte s (ascii_of_nat 10).

(** [http.CanonicalHeaderKey]: a name with a byte that is not a token character
    is returned unchanged. *)
Definition token_char (c : ascii) : bool :=
  is_digit c || is_lower c || is_upper c || contains_byte "!#$%&'*+-.^_`|~" c.

Fixpoint canonical_from (upper : bool) (s : string) : string :=
  match s with
  | EmptyString => ""
  | String c s' =>
      let c' := if upper then to_upper_char c else to_lower_char c in
      String c' (canonical_from (Ascii.eqb c' "-") s')
  end.

Definition CanonicalHeaderKey (s : string) : string :=
  if str_forallb token_char s then canonical_from true s else s.

Definition reserved_header (name : string) : bool :=
  (name =s? "Authorization") || (name =s? "Proxy-Authorization") || (name =s? "Host") || (name =s? "Connection") ||
  (name =s? "Transfer-Encoding") || (name =s? "Idempotency-Key").

Fixpoint valid_headers (last : string) (headers : list HTTPHeader) : bool :=
  match headers with
  | [] => true
  | h :: rest =>
      let name := CanonicalHeaderKey (hh_Name h) in
      if (name =s? "") || (name <>s? hh_Name h) || str_leb name last || (hh_Value h =s? "") ||
         has_newline (hh_Value h) || reserved_header name
      then false else valid_headers name rest
  end.

Definition validHTTPSRequest (request : HTTPSRequest) (effect : EffectBinding) (binding : NetworkBinding) : bool :=
  if (hq_Method request <>s? ToUpper (trim_prefix (eb_OperationKind effect) "https.")) ||
     (hq_PathAndQuery request =s? "") || negb (has_prefix (hq_PathAndQuery request) "/") ||
     has_newline (hq_PathAndQuery request) || (nb_MaxRequestBytes binding <? len (hq_Body request))
  then false else valid_headers "" (hq_Headers request).

(** ** Lemmas *)

Lemma check_networks_ok l p :
  check_networks p l = Ok tt ->
  each_distinct nb_BindingID (fun b => valid_network b && valid_addresses b) p l = true.
Proof.
  revert p. induction l as [|b rest IH]; intros p Hc; [done|]. cbn [check_networks each_distinct] in *.
  apply then_ok in Hc as [H1%fail_if_ok [H2%fail_if_ok H3]%then_ok]. bool_props.
  rewrite (IH _ H3). rewrite bool_decide_eq_false_2 by done.
  match goal with Hv : valid_network b = true, Ha : valid_addresses b = true |- _ => by rewrite Hv, Ha end.
Qed.

Lemma find_network_spec networks id b :
  find_network networks id = Some b -> b ∈ networks /\ nb_BindingID b = id.
Proof.
  unfold find_network. destruct (list_find _ networks) as [[i x]|] eqn:E; [|done]. intros [= <-].
  apply list_find_Some in E as (Hx & Hid & _). split; [by eapply list_elem_of_lookup_2|done].
Qed.

Lemma each_distinct_forall {A} (key : A -> string) ok l p :
  each_distinct key ok p l = true -> Forall (fun a => ok a = true) l.
Proof.
  revert p. induction l as [|a rest IH]; intros p Hv; [constructor|]. simpl in Hv. bool_props.
  constructor; [done|]. eauto.
Qed.

(** The addresses a plan must not name, range by range: 0.0.0.0, 10.0.0.0/8,
    127.0.0.0/8, 169.254.0.0/16, 172.16.0.0/12, 192.168.0.0/16, 224.0.0.0/4 and
    255.255.255.255; ::, ::1, fc00::/7, fe80::/10 and ff00::/8. *)
Definition special_v4 (a b c d : Z) : Prop :=
  (a = 0 /\ b = 0 /\ c = 0 /\ d = 0) \/ a = 10 \/ a = 127 \/ (a = 169 /\ b = 254) \/ (a = 172 /\ 16 <= b <= 31) \/
  (a = 192 /\ b = 168) \/ 224 <= a <= 239 \/ (a = 255 /\ b = 255 /\ c = 255 /\ d = 255).

Definition special_v6 (ip : list Z) : Prop :=
  ip = [0; 0; 0; 0; 0; 0; 0; 0; 0; 0; 0; 0; 0; 0; 0; 0] \/ ip = [0; 0; 0; 0; 0; 0; 0; 0; 0; 0; 0; 0; 0; 0; 0; 1] \/
  (exists a rest, ip = a :: rest /\ 252 <= a <= 253) \/ (exists b rest, ip = 254 :: b :: rest /\ 128 <= b <= 191) \/
  (exists rest, ip = 255 :: rest).

(** An address, in its sixteen-byte form, outside all of them. *)
Definition unicast_outside (ip : list Z) : Prop :=
  ~ special_v6 ip /\
  forall a b c d, ip = [0; 0; 0; 0; 0; 0; 0; 0; 0; 0; 255; 255; a; b; c; d] -> ~ special_v4 a b c d.

(** A check of a range of bytes by its cases. *)
Lemma byte_range (P : Z -> bool) lo hi b :
  forallb (fun i => P (lo + Z.of_nat i)) (seq 0 (Z.to_nat (hi - lo + 1))) = true -> lo <= b <= hi -> P b = true.
Proof.
  intros Hall Hb. rewrite forallb_forall in Hall. specialize (Hall (Z.to_nat (b - lo))).
  rewrite in_seq, Z2Nat.id in Hall by lia. replace (lo + (b - lo)) with b in Hall by lia. apply Hall. lia.
Qed.

Lemma publicIP_outside ip : publicIP (Some ip) = true -> unicast_outside ip.
Proof.
  cbn [publicIP]. unfold IsGlobalUnicast. intros Hp. bool_props. split.
  - intros [->|[->|[(a & rest & -> & Ha)|[(b & rest & -> & Hb)|(rest & ->)]]]]; try done.
    + assert (Hn : to4 (a :: rest) = None) by (unfold to4; rewrite bool_decide_false; [done|intros [= -> _]; lia]).
      unfold IsPrivate in *. rewrite Hn in *. change (byte_at (a :: rest) 0) with a in *.
      pose proof (byte_range (fun a => Z.land a 254 =? 252) 252 253 a eq_refl Ha) as Hr. cbn beta in Hr. congruence.
    + unfold IsLinkLocalUnicast in *. change (to4 (254 :: b :: rest)) with (@None (list Z)) in *.
      change (byte_at (254 :: b :: rest) 0) with 254 in *. change (byte_at (254 :: b :: rest) 1) with b in *.
      pose proof (byte_range (fun b => Z.land b 192 =? 128) 128 191 b eq_refl Hb) as Hr. cbn beta in Hr.
      cbn [Z.eqb Pos.eqb andb] in *. congruence.
  - intros a b c d ->.
    unfold IsUnspecified, IsLoopback, IsPrivate, IsMulticast, IsLinkLocalUnicast in *.
    change (to4 [0; 0; 0; 0; 0; 0; 0; 0; 0; 0; 255; 255; a; b; c; d]) with (Some [a; b; c; d]) in *. cbv beta iota in *.
    change (byte_at [a; b; c; d] 0) with a in *. change (byte_at [a; b; c; d] 1) with b in *. bool_props.
    intros [(-> & -> & -> & ->)|[->|[->|[[-> ->]|[[-> Hb]|[[-> ->]|[Ha|(-> & -> & -> & ->)]]]]]]]; try done.
    + pose proof (byte_range (fun b => Z.land b 240 =? 16) 16 31 b eq_refl Hb) as Hr. cbn beta in Hr.
      cbn [Z.eqb Pos.eqb andb] in *. congruence.
    + pose proof (byte_range (fun a => Z.land a 240 =? 224) 224 239 a eq_refl Ha) as Hr. cbn beta in Hr.
      apply Z.eqb_eq in Hr. done.
Qed.

Lemma valid_addresses_public b text :
  valid_addresses b = true -> text ∈ nb_ResolvedIPs b -> exists ip, net_ParseIP text = Some ip /\ unicast_outside ip.
Proof.
  intros Hv%each_distinct_forall Ht. rewrite Forall_forall in Hv. specialize (Hv text Ht).
  destruct (net_ParseIP text) as [ip|]; [|done]. exists ip. split; [done|]. by apply publicIP_outside.
Qed.

(** What the validation of a plan establishes. *)
Record plan_bound `{Commerce} (p : Plan) : Prop := {
  pb_effects : NoDup (eb_PlanEffectID <$> pl_EffectBindings p);
  pb_files : NoDup (fb_Path <$> pl_Files p);
  pb_networks : NoDup (nb_BindingID <$> pl_NetworkBindings p);
  pb_target : forall e, e ∈ pl_EffectBindings p -> exists b,
    b ∈ pl_NetworkBindings p /\ nb_BindingID b = eb_NetworkBindingID e /\
    codec_Digest_network "tos.executor-network-target.v1" b = Ok (eb_TargetDigest e) /\
    nb_Scheme b = "https" /\ nb_TLSServerName b = nb_Host b /\ nb_AllowRedirects b = false /\
    nb_ResolvedIPs b <> [] /\ (forall text, text ∈ nb_ResolvedIPs b -> exists ip, net_ParseIP text = Some ip /\ unicast_outside ip) /\
    0 < nb_MaxRequestBytes b <= 16777216 /\ 0 < nb_MaxResponseBytes b <= 67108864;
  pb_once : forall e, e ∈ pl_EffectBindings p -> eb_MaximumUses e = 1 /\
    eb_OperationKind e ∈ ["https.get"; "https.post"; "https.put"; "https.delete"];
}.

(** The ranges of the unsigned fields. *)
Definition Plan_wf (p : Plan) : Prop :=
  Forall (fun b => u64 (nb_MaxRequestBytes b) /\ u64 (nb_MaxResponseBytes b)) (pl_NetworkBindings p).

Lemma preparePlan_parts `{Commerce} plan fence p d :
  preparePlan plan fence = Ok (p, d) ->
  let files := sort_by fb_Path (pl_Files plan) in
  let networks := sort_by nb_BindingID (pl_NetworkBindings plan) in
  let credentials := sort_by cb_HandleID (pl_CredentialBindings plan) in
  let effects := sort_by eb_PlanEffectID (pl_EffectBindings plan) in
  plan_complete plan fence = true /\ each_distinct fb_Path valid_file None files = true /\
  check_networks None networks = Ok tt /\
  each_distinct cb_HandleID valid_credential None credentials = true /\
  each_distinct eb_PlanEffectID (valid_effect networks credentials) None effects = true /\
  exists canonical id,
    codec_Digest_plan "tos.local-execution-plan.v1" (set_identity plan 0 "" "" files networks credentials effects) = Ok canonical /\
    DeriveStableActionID "execution.slot" (slot_fields plan canonical) = Ok id /\
    p = set_identity plan (wf_WriterGeneration fence) canonical id files networks credentials effects /\
    codec_Digest_plan "tos.local-execution-plan-bound.v1" p = Ok d.
Proof.
  unfold preparePlan. cbn zeta. intros Hp. result_inv. bool_props.
  repeat match goal with Hu : negb ?x = false |- _ => apply negb_false_iff in Hu end.
  split_and!; try done. eexists _, _. split_and!; done.
Qed.

Lemma valid_effect_bound `{Commerce} networks credentials e :
  valid_effect networks credentials e = true -> exists b,
    b ∈ networks /\ nb_BindingID b = eb_NetworkBindingID e /\
    codec_Digest_network "tos.executor-network-target.v1" b = Ok (eb_TargetDigest e) /\
    eb_MaximumUses e = 1 /\ https_kind (eb_OperationKind e) = true.
Proof.
  unfold valid_effect. intros Hv. destruct (find_network _ _) as [b|] eqn:Hf; [|done].
  destruct (codec_Digest_network _ b) as [t|] eqn:Hd; [|done]. apply find_network_spec in Hf as [Hin Hid].
  exists b. bool_props. match goal with Ht : eb_TargetDigest e = t |- _ => rewrite Ht end. done.
Qed.

Lemma prepared_plan_bound `{Commerce} plan fence p d
    (Hwf : Plan_wf plan) (Hprep : preparePlan plan fence = Ok (p, d)) : plan_bound p.
Proof.
  destruct (preparePlan_parts _ _ _ _ Hprep) as (_ & Hf & Hn & _ & He & canonical & id & _ & _ & -> & _).
  apply check_networks_ok in Hn. pose proof (proj1 (each_distinct_sorted _ _ _ Hn)) as Hnd.
  apply each_distinct_forall in Hn. rewrite Forall_forall in Hn.
  constructor; cbn [set_identity pl_EffectBindings pl_Files pl_NetworkBindings].
  - by apply (each_distinct_sorted _ _ _ He).
  - by apply (each_distinct_sorted _ _ _ Hf).
  - done.
  - intros e Hin. apply each_distinct_forall in He. rewrite Forall_forall in He.
    destruct (valid_effect_bound _ _ _ (He e Hin)) as (b & Hb & Hid & Hd & _). exists b.
    specialize (Hn b Hb). apply andb_true_iff in Hn as [Hv Ha].
    assert (Hu : u64 (nb_MaxRequestBytes b) /\ u64 (nb_MaxResponseBytes b)).
    { unfold Plan_wf in Hwf. rewrite Forall_forall in Hwf. apply Hwf. by rewrite sort_by_perm in Hb. }
    unfold valid_network in Hv. bool_props. change (Z.shiftl 16 20) with 16777216 in *. change (Z.shiftl 64 20) with 67108864 in *.
    unfold u64 in Hu. split_and!; try done; try lia.
    + intros E. by rewrite E in *.
    + intros text Ht. by eapply valid_addresses_public.
  - intros e Hin. apply each_distinct_forall in He. rewrite Forall_forall in He.
    destruct (valid_effect_bound _ _ _ (He e Hin)) as (b & _ & _ & _ & ? & Hk). split; [done|].
    unfold https_kind in Hk. rewrite !orb_true_iff, !String.eqb_eq in Hk. rewrite !elem_of_cons. tauto.
Qed.

(** ** Properties *)

(** C37. A prepared plan is fully bound: its effects, files and network targets
    have distinct identifiers; an effect has one use and one of four HTTPS
    methods; every effect targets a declared HTTPS binding whose digest is the
    effect's target, without redirects, with its own host as the TLS name,
    bounded bodies and only addresses outside the unspecified, loopback,
    private, link-local, multicast and broadcast ranges ([unicast_outside]; other
    special-purpose ranges are not excluded, see [publicIP_accepts_cgnat]). *)
Theorem preparePlan_bound `{Commerce} plan fence p d
    (Hwf : Plan_wf plan) (Hprep : preparePlan plan fence = Ok (p, d)) : plan_bound p.
Proof. exact (prepared_plan_bound plan fence p d Hwf Hprep). Qed.

(** The identity of a plan is canonical: the order in which its bindings are
    listed does not matter, and a takeover by another writer of the same owner
    and agent derives the same execution identity. *)
Theorem preparePlan_canonical `{Commerce} plan plan' fence fence' p d p' d'
    (Hprep : preparePlan plan fence = Ok (p, d)) (Hprep' : preparePlan plan' fence' = Ok (p', d'))
    (Hsame : set_identity plan' 0 "" "" [] [] [] [] = set_identity plan 0 "" "" [] [] [] [])
    (Hfiles : pl_Files plan ≡ₚ pl_Files plan') (Hnetworks : pl_NetworkBindings plan ≡ₚ pl_NetworkBindings plan')
    (Hcredentials : pl_CredentialBindings plan ≡ₚ pl_CredentialBindings plan')
    (Heffects : pl_EffectBindings plan ≡ₚ pl_EffectBindings plan') :
  pl_ExecutionID p' = pl_ExecutionID p /\ pl_CanonicalPlanDigest p' = pl_CanonicalPlanDigest p /\
  (wf_WriterGeneration fence' = wf_WriterGeneration fence -> p' = p /\ d' = d).
Proof.
  destruct (preparePlan_parts _ _ _ _ Hprep) as (_ & Hf & Hn & Hc & He & canonical & id & Hcan & Hid & Hp & Hd).
  destruct (preparePlan_parts _ _ _ _ Hprep') as (_ & _ & _ & _ & _ & canonical' & id' & Hcan' & Hid' & Hp' & Hd').
  assert (Hperm : forall A (key : A -> string) ok l l', each_distinct key ok None (sort_by key l) = true -> l ≡ₚ l' ->
    sort_by key l' = sort_by key l).
  { intros A key ok l l' Hok Hl. symmetry. apply sort_by_unique; [|done].
    apply each_distinct_sorted in Hok as [Hnd _]. by rewrite sort_by_perm in Hnd. }
  rewrite (Hperm _ _ _ _ _ Hf Hfiles), (Hperm _ _ _ _ _ (check_networks_ok _ _ Hn) Hnetworks),
    (Hperm _ _ _ _ _ Hc Hcredentials), (Hperm _ _ _ _ _ He Heffects) in *.
  assert (Hset : forall g c i f n k e, set_identity plan' g c i f n k e = set_identity plan g c i f n k e).
  { intros g c i f n k e. unfold set_identity in *. by injection Hsame as -> -> -> -> -> -> -> -> -> ->. }
  rewrite Hset in Hcan', Hp'. rewrite Hcan in Hcan'. injection Hcan' as <-.
  assert (Hfields : slot_fields plan' canonical = slot_fields plan canonical).
  { assert (Hone := Hset 0 "" "" [] [] [] []). unfold set_identity in Hone. unfold slot_fields.
    injection Hone as Ho Ha Hb Hob Hm Hx Hpred _ _ _. by rewrite Ho, Ha, Hb, Hob, Hm, Hx, Hpred. }
  rewrite Hfields, Hid in Hid'. injection Hid' as <-. subst p p'. split_and!; [done|done|].
  intros Hg. rewrite Hg in *. split; [done|]. congruence.
Qed.

(** The predicate does not exclude the shared address space of carrier-grade
    NAT (RFC 6598), which is not publicly routed. *)
Example publicIP_accepts_cgnat : publicIP (net_ParseIP "100.64.0.1") = true /\ publicIP (net_ParseIP "10.0.0.1") = false.
Proof. split; reflexivity. Qed.

(** ** Witnesses *)

(** A commerce module in which every fence and action is current; a digest is
    the text of the first bytes of what it names. *)
Module PlanSamples.
(** The text of a digest that names its argument. *)
Fixpoint zeros (n : nat) : string := match n with O => "" | S n' => String "0" (zeros n') end.
Definition label (s : string) : string := "sha256:" +:+ str_take 64 (hex_EncodeToString s +:+ zeros 64).
Definition plan_text (p : Plan) : string :=
  pl_OwnerID p +:+ "|" +:+ pl_AgentID p +:+ "|" +:+ pl_ExecutionID p +:+ "|" +:+ pl_CanonicalPlanDigest p +:+ "|" +:+
  str_join "," (fb_Path <$> pl_Files p) +:+ "|" +:+ str_join "," (eb_PlanEffectID <$> pl_EffectBindings p).
#[export] Instance commerce : Commerce := {|
  VerifyWriterFence _ _ _ := Ok tt;
  ConfirmCurrentWriterFence _ _ := Ok tt;
  VerifyAuthorizedAction action fields request fence now :=
    fail_if (aa_ExactRequestDigest action <>s? label request) "request differs";
  DeriveStableActionID kind fields :=
    match fields !! "owner_id" with Some (SV_ID owner) => Ok (label (kind +:+ "/" +:+ owner)) | _ => Err "no owner" end;
  codec_Marshal_plan p := Ok (plan_text p);
  codec_Marshal_ticket t := Ok (tk_ExecutionID t +:+ "|" +:+ tk_Secret t);
  codec_Marshal_request r := Ok (hq_PlanEffectID r +:+ "|" +:+ hq_Method r +:+ "|" +:+ hq_PathAndQuery r +:+ "|" +:+ hq_Body r);
  codec_Digest_plan domain p := Ok (label (domain +:+ plan_text p));
  codec_Digest_network domain b := Ok (label (domain +:+ nb_Host b));
  codec_Digest_response domain status body := Ok (label (domain +:+ body));
|}.

Definition fence : WriterFence :=
  {| wf_OwnerID := "owner"; wf_AgentID := "agent"; wf_WriterGeneration := 3; wf_ExpiresAtUnix := 1700000900 |}.
Definition input_a : FileBinding := {| fb_Path := "/inputs/a"; fb_Digest := digest "alpha"; fb_Size := 5 |}.
Definition input_b : FileBinding := {| fb_Path := "/inputs/b"; fb_Digest := digest "beta"; fb_Size := 4 |}.
Definition network : NetworkBinding :=
  {| nb_BindingID := "api"; nb_Scheme := "https"; nb_Host := "api.example.org"; nb_Port := 443;
     nb_ResolvedIPs := ["93.184.216.34"]; nb_TLSServerName := "api.example.org"; nb_AllowRedirects := false;
     nb_MaxRequestBytes := 1024; nb_MaxResponseBytes := 1024 |}.
Definition effect : EffectBinding :=
  {| eb_PlanEffectID := "order"; eb_EffectProfileDigest := label "profile";
     eb_TargetDigest := label ("tos.executor-network-target.v1" +:+ "api.example.org");
     eb_OperationKind := "https.post"; eb_EffectSemanticKeyDigest := label "semantic key";
     eb_NetworkBindingID := "api"; eb_CredentialHandleID := ""; eb_MaximumUses := 1 |}.
Definition plan_with (files : list FileBinding) : Plan :=
  {| pl_OwnerID := "owner"; pl_AgentID := "agent"; pl_AgreementBodyDigest := label "agreement";
     pl_ExecutionObligationID := "obligation"; pl_CanonicalPlanDigest := ""; pl_AcceptedInputManifestDigest := label "inputs";
     pl_AttemptIndex := 0; pl_PredecessorTerminalResolutionDigest := ""; pl_ExecutionID := ""; pl_ReservationID := "reservation";
     pl_PolicyRevision := 1; pl_WriterGeneration := 0; pl_LeaseLossPolicy := LeaseLossDrain;
     pl_Files := files; pl_NetworkBindings := [network]; pl_CredentialBindings := []; pl_EffectBindings := [effect] |}.
Definition plan : Plan := Eval vm_compute in plan_with [input_a; input_b].
Definition swapped : Plan := Eval vm_compute in plan_with [input_b; input_a].
Definition prepared : Plan * string := Eval vm_compute in match preparePlan plan fence with Ok x => x | Err _ => (plan, "") end.
Definition prepared' : Plan * string := Eval vm_compute in match preparePlan swapped fence with Ok x => x | Err _ => (plan, "") end.
Lemma prepared_ok : preparePlan plan fence = Ok (prepared.1, prepared.2).
Proof. vm_compute. reflexivity. Qed.
Lemma swapped_ok : preparePlan swapped fence = Ok (prepared'.1, prepared'.2).
Proof. vm_compute. reflexivity. Qed.
End PlanSamples.
#[local] Existing Instance PlanSamples.commerce.

Lemma preparePlan_bound_witness : NoDup (eb_PlanEffectID <$> pl_EffectBindings PlanSamples.prepared.1).
Proof.
  apply (pb_effects _ (preparePlan_bound PlanSamples.plan PlanSamples.fence _ _
    ltac:(repeat constructor; unfold two64; simpl; lia) PlanSamples.prepared_ok)).
Defined.

Lemma preparePlan_canonical_witness :
  pl_ExecutionID PlanSamples.prepared'.1 = pl_ExecutionID PlanSamples.prepared.1.
Proof.
  refine (proj1 (preparePlan_canonical PlanSamples.plan PlanSamples.swapped PlanSamples.fence PlanSamples.fence _ _ _ _
    PlanSamples.prepared_ok PlanSamples.swapped_ok eq_refl _ _ _ _)); try reflexivity. apply Permutation_swap.
Defined.
