(* ===== verification/CommerceGate.v ===== *)
(** * pkg/commercegate/gate.go: the local execution gate

    The durable one-shot protocol of an execution: [Prepare] writes a record and
    issues a start ticket, [Start] consumes it, [MarkRunning] and [Complete]
    follow the run, [PerformHTTPS] brokers one outbound effect, and [Open] turns
    what a dead process left in flight into an explicit ambiguity.

    A [*Gate] is a value with its directory and whether its lock is held; the
    clock and the answers of the network are arguments of the operations. *)

From S2P Require Import Prelude GoStd Sha256 FS Json RecordStore GatePlan.

(** ** Data *)

Definition StatePrepared : string := "PREPARED".
Definition StateStarting : string := "STARTING".
Definition StateRunning : string := "RUNNING".
Definition StateAmbiguousStart : string := "AMBIGUOUS_START".
Definition StateAmbiguousRun : string := "AMBIGUOUS_RUN".
Definition StateSucceeded : string := "SUCCEEDED".
Definition StateFailed : string := "FAILED".
Definition StateCancelled : string := "CANCELLED".
Definition StateKilled : string := "KILLED".

Record Resolution := { rs_State : string; rs_StateRevision : Z; rs_PlanDigest : string; rs_OutcomeDigest : string }.

Record EffectRecord := {
  er_StableActionID : string;
  er_ExactRequestDigest : string;
  er_State : string;
  er_ResponseDigest : string;
  er_HTTPStatus : Z;         (* uint16 *)
  er_StateRevision : Z;      (* uint64 *)
}.

Record gateRecord := {
  gr_Schema : string;
  gr_Plan : Plan;
  gr_PlanDigest : string;
  gr_TicketSecret : string;
  gr_StartNotAfterUnix : Z;
  gr_State : string;
  gr_StateRevision : Z;
  gr_OutcomeDigest : string;
  gr_PrepareActionID : string;
  gr_PrepareRequestDigest : string;
  gr_StartActionID : string;
  gr_StartRequestDigest : string;
  gr_Effects : gmap string EffectRecord;
}.

(** [g_open]: the process lock is held ([gate.lock != nil]). *)
Record Gate := { g_directory : string; g_open : bool }.

(** An opened input: the file the handle refers to. *)
Record File := { fl_name : string; fl_inode : inode }.

Record Launch := {
  la_ExecutionID : string;
  la_PlanDigest : string;
  la_TicketSecret : string;
  la_LeaseLossPolicy : string;
  la_Files : list File;
  la_NetworkBindings : list NetworkBinding;
  la_CredentialBindings : list CredentialBinding;
  la_EffectBindings : list EffectBinding;
}.

(** The assignments to a record between a read and the write that follows. *)
Definition advance (r : gateRecord) (state outcome startID startDigest : string) (effects : gmap string EffectRecord)
    : gateRecord :=
  {| gr_Schema := gr_Schema r; gr_Plan := gr_Plan r; gr_PlanDigest := gr_PlanDigest r;
     gr_TicketSecret := gr_TicketSecret r; gr_StartNotAfterUnix := gr_StartNotAfterUnix r;
     gr_State := state; gr_StateRevision := wrap64 (gr_StateRevision r + 1); gr_OutcomeDigest := outcome;
     gr_PrepareActionID := gr_PrepareActionID r; gr_PrepareRequestDigest := gr_PrepareRequestDigest r;
     gr_StartActionID := startID; gr_StartRequestDigest := startDigest; gr_Effects := effects |}.

Definition moved (r : gateRecord) (state outcome : string) : gateRecord :=
  advance r state outcome (gr_StartActionID r) (gr_StartRequestDigest r) (gr_Effects r).
Definition started (r : gateRecord) (actionID requestDigest : string) : gateRecord :=
  advance r StateStarting (gr_OutcomeDigest r) actionID requestDigest (gr_Effects r).
Definition with_effect (r : gateRecord) (id : string) (e : EffectRecord) : gateRecord :=
  advance r (gr_State r) (gr_OutcomeDigest r) (gr_StartActionID r) (gr_StartRequestDigest r) (<[id := e]> (gr_Effects r)).

Definition submitted_effect (actionID requestDigest : string) : EffectRecord :=
  {| er_StableActionID := actionID; er_ExactRequestDigest := requestDigest; er_State := "submitted";
     er_ResponseDigest := ""; er_HTTPStatus := 0; er_StateRevision := 1 |}.
Definition terminal_effect (e : EffectRecord) (responseDigest : string) (status : Z) : EffectRecord :=
  {| er_StableActionID := er_StableActionID e; er_ExactRequestDigest := er_ExactRequestDigest e; er_State := "terminal";
     er_ResponseDigest := responseDigest; er_HTTPStatus := status mod 65536;
     er_StateRevision := wrap64 (er_StateRevision e + 1) |}.

(** ** Paths, states and records *)

(** [Gate.path]. *)
Definition gate_path (g : Gate) (id : string) : path :=
  if negb (validDigest id) then (g_directory g, "invalid") else (g_directory g, str_drop 7 id +:+ ".json").

Definition effectResponsePath (g : Gate) (stableID : string) : path :=
  (g_directory g, "effect-" +:+ trim_prefix stableID "sha256:" +:+ ".response").

Definition ticketFrom (r : gateRecord) : Ticket :=
  {| tk_ExecutionID := pl_ExecutionID (gr_Plan r); tk_Secret := gr_TicketSecret r;
     tk_StartNotAfterUnix := gr_StartNotAfterUnix r; tk_PlanDigest := gr_PlanDigest r |}.

Definition knownState (s : string) : bool :=
  (s =s? StatePrepared) || (s =s? StateStarting) || (s =s? StateRunning) || (s =s? StateAmbiguousStart) ||
  (s =s? StateAmbiguousRun) || (s =s? StateSucceeded) || (s =s? StateFailed) || (s =s? StateCancelled) ||
  (s =s? StateKilled).

Definition terminalState (s : string) : bool :=
  (s =s? StateSucceeded) || (s =s? StateFailed) || (s =s? StateCancelled) || (s =s? StateKilled).

(** [now.Before(time.Unix(int64(sec), 0))]. *)
Definition before (now sec : Z) : bool := now <? sint64 sec * time_Second.

Definition gateSchema : string := "tos.ai.local-execution-gate.v1".

Definition valid_effect_entry (id : string) (e : EffectRecord) : bool :=
  (id <>s? "") && validDigest (er_StableActionID e) && validDigest (er_ExactRequestDigest e) &&
  negb (er_StateRevision e =? 0) && ((er_State e =s? "submitted") || (er_State e =s? "terminal")) &&
  negb ((er_State e =s? "terminal") && (negb (validDigest (er_ResponseDigest e)) || (er_HTTPStatus e =? 0))).

Definition valid_record (r : gateRecord) : bool :=
  (gr_Schema r =s? gateSchema) && negb (gr_StateRevision r =? 0) && validDigest (gr_PrepareActionID r) &&
  validDigest (gr_PrepareRequestDigest r) && knownState (gr_State r) &&
  Bool.eqb (gr_StartActionID r =s? "") (gr_StartRequestDigest r =s? "") &&
  negb ((gr_StartActionID r <>s? "") && (negb (validDigest (gr_StartActionID r)) || negb (validDigest (gr_StartRequestDigest r)))).

Definition valid_effects (m : gmap string EffectRecord) : bool :=
  bool_decide (map_Forall (fun id e => valid_effect_entry id e = true) m).

(** The directory and the base name of an absolute path. *)
Definition split_path (p : string) : path :=
  match last_index_byte p "/" with
  | Some i => (if (i =? 0)%nat then "/" else str_take i p, str_drop (S i) p)
  | None => (".", p)
  end.

(** ** Files *)

Definition syncParentDirectory (p : path) : IO (result unit) :=
  let! _ := lift_sys (open_dir p.1) "open parent directory" in
  lift_sys (sync_dir p.1) "sync parent directory".

(** [openReadOnlyNoFollow]: a symbolic link is refused. *)
Definition openReadOnlyNoFollow (p : path) : IO (sys inode) :=
  op (fun d => (match d_live d !! p with
                | None => SErr ENOENT
                | Some i => if bool_decide (i_kind i = Symlink) then SErr EIO else SOk i
                end, d)).

(** The loop of [openBoundFiles]; the handles an error closes are dropped. *)
Fixpoint openBoundFiles (bindings : list FileBinding) : IO (result (list File)) :=
  match bindings with
  | [] => mret (Ok [])
  | b :: rest =>
      let! i := lift_sys (openReadOnlyNoFollow (split_path (fb_Path b))) "open immutable execution input" in
      let! _ := lift_sys handle_call "execution input identity changed" in
      let! _ := require (fail_if (negb (bool_decide (i_kind i = Regular)) || negb (len (i_data i) =? fb_Size b))
                   "execution input identity changed") in
      let! _ := lift_sys handle_call "execution input digest changed" in
      let! _ := require (fail_if (digest (limit_read (MaxInputFileBytes + 1) (i_data i)) <>s? fb_Digest b)
                   "execution input digest changed") in
      let! _ := lift_sys handle_call "seek execution input" in
      let! files := openBoundFiles rest in
      mret (Ok ({| fl_name := fb_Path b; fl_inode := i |} :: files))
  end.

(** The body shared by [replaceRecord] and [writeEffectResponse]: a temporary
    file, synchronised, then renamed over [p]. *)
Definition replace_body (p name : path) (raw : bytes) : IO (result unit) :=
  r ← chmod name o600;
  r ← (if sys_ok r then write_file name raw else mret r);
  r ← (if sys_ok r then fsync name else mret r);
  c ← close_file name;
  if negb (sys_ok r) then mret (Err "write temporary file") else
  if negb (sys_ok c) then mret (Err "close temporary file") else
  let! _ := lift_sys (rename name p) "rename temporary file" in
  syncParentDirectory p.

Definition replace_file (pattern : string) (p : path) (raw : bytes) : IO (result unit) :=
  let! name := lift_sys (create_temp p.1 pattern) "create temporary file" in
  r ← replace_body p name raw;
  _ ← remove name; (* deferred *)
  mret r.

Definition writeEffectResponse (g : Gate) (stableID : string) (body : bytes) : IO (result unit) :=
  replace_file ".effect-response-" (effectResponsePath g stableID) body.

Definition randomSecret : IO (result string) :=
  raw ← pop_rand;
  let! _ := lift_sys handle_call "read random bytes" in
  mret (Ok (hex_EncodeToString raw)).

Section Gate.
Context `{Commerce} `{Json gateRecord}.

Definition createRecord (p : path) (entry : gateRecord) : IO (result unit) :=
  let! _ := lift_sys (create_excl p o600) "create record" in
  r ← write_file p (json_marshal entry);
  r ← (if sys_ok r then fsync p else mret r);
  c ← close_file p;
  if negb (sys_ok r) then mret (Err "write record") else
  if negb (sys_ok c) then mret (Err "close record") else
  syncParentDirectory p.

Definition replaceRecord (p : path) (entry : gateRecord) : IO (result unit) :=
  replace_file ".gate-" p (json_marshal entry).

Definition readRecord (p : path) : IO (result gateRecord) :=
  info ← lstat p;
  match info with
  | SErr e => mret (Err (read_error e))
  | SOk i =>
      if negb (bool_decide (i_kind i = Regular)) || negb (i_perm i =? o600) || (len (i_data i) <=? 0) ||
         (Z.shiftl 2 20 <? len (i_data i))
      then mret (Err "invalid local execution Gate record") else
      raw ← read_file p;
      mret (match raw with
            | SErr e => Err (read_error e)
            | SOk raw =>
                match json_unmarshal raw with
                | None => Err "invalid local execution Gate record"
                | Some entry =>
                    if negb (valid_record entry) then Err "invalid local execution Gate record" else
                    if negb (valid_effects (gr_Effects entry)) then Err "invalid execution effect record" else Ok entry
                end
            end)
  end.

(** ** Opening *)

Fixpoint recover_loop (g : Gate) (entries : list (string * kind)) : IO (result unit) :=
  match entries with
  | [] => mret (Ok tt)
  | (name, type) :: rest =>
      if negb (bool_decide (type = Regular)) || negb (has_suffix name ".json") || negb (len name =? 64 + 5)
      then recover_loop g rest else
      let! entry := readRecord (g_directory g, name) in
      let! _ := (if gr_State entry =s? StateStarting
                 then replaceRecord (g_directory g, name) (moved entry StateAmbiguousStart (gr_OutcomeDigest entry))
                 else if gr_State entry =s? StateRunning
                 then replaceRecord (g_directory g, name) (moved entry StateAmbiguousRun (gr_OutcomeDigest entry))
                 else mret (Ok tt)) in
      recover_loop g rest
  end.

Definition recoverInterruptedStates (g : Gate) : IO (result unit) :=
  let! entries := lift_sys (read_entries (g_directory g)) "list gate directory" in recover_loop g entries.

Definition Open (directory : string) : IO (result Gate) :=
  if negb (filepath_IsAbs directory) || (path_Clean directory <>s? directory)
  then mret (Err "local execution Gate configuration is invalid") else
  let! _ := lift_sys (mkdir_all directory) "create gate directory" in
  info ← lstat ("", directory);
  match info with
  | SErr _ => mret (Err "local execution Gate directory must be private")
  | SOk i =>
      if negb (bool_decide (i_kind i = Directory)) || negb (i_perm i =? o700)
      then mret (Err "local execution Gate directory must be private") else
      let! _ := lift_sys (acquire_lock directory ".commerce-gate.lock") "local execution Gate is already owned" in
      let g := {| g_directory := directory; g_open := true |} in
      let! _ := recoverInterruptedStates g in
      mret (Ok g)
  end.

Definition Close (g : Gate) : Gate := {| g_directory := g_directory g; g_open := false |}.

(** ** Preparing and starting *)

Definition new_entry (prepared : Plan) (d secret : string) (deadline : Z) (action : AuthorizedAction) : gateRecord :=
  {| gr_Schema := gateSchema; gr_Plan := prepared; gr_PlanDigest := d; gr_TicketSecret := secret;
     gr_StartNotAfterUnix := deadline; gr_State := StatePrepared; gr_StateRevision := 1; gr_OutcomeDigest := "";
     gr_PrepareActionID := aa_StableActionID action; gr_PrepareRequestDigest := aa_ExactRequestDigest action;
     gr_StartActionID := ""; gr_StartRequestDigest := ""; gr_Effects := ∅ |}.

(** The deadline of a start ticket. *)
Definition start_deadline (now lifetime : Z) (fence : WriterFence) (action : AuthorizedAction) : Z :=
  let deadline := wrap64 ((now + lifetime) / time_Second) in
  let deadline := if wf_ExpiresAtUnix fence <? deadline then wf_ExpiresAtUnix fence else deadline in
  if aa_ExpiresAtUnix action <? deadline then aa_ExpiresAtUnix action else deadline.

Definition Prepare (g : Gate) (plan : Plan) (fence : WriterFence) (lifetime : Z) (action : AuthorizedAction) (now : Z)
    : IO (result Ticket) :=
  if negb (g_open g) || (lifetime <? time_Second) || (MaxStartTicketLifetime <? lifetime)
  then mret (Err "local execution preparation is invalid") else
  let! _ := require (VerifyWriterFence fence now "execution.prepare") in
  let! _ := require (ConfirmCurrentWriterFence fence now) in
  let! pd := mret (preparePlan plan fence) in
  let prepared := pd.1 in
  let d := pd.2 in
  let! _ := require (match prepareAuthorizationMaterial prepared with
              | Err _ => Err "execution preparation is not an exact authorized action"
              | Ok (canonicalRequest, fields) =>
                  fail_if ((aa_ActionKind action <>s? "execution.prepare") ||
                           negb (is_ok (VerifyAuthorizedAction action fields canonicalRequest fence now)))
                    "execution preparation is not an exact authorized action"
              end) in
  let p := gate_path g (pl_ExecutionID prepared) in
  existing ← readRecord p;
  match existing with
  | Ok existing =>
      mret (if (gr_PlanDigest existing <>s? d) || (gr_PrepareActionID existing <>s? aa_StableActionID action) ||
               (gr_PrepareRequestDigest existing <>s? aa_ExactRequestDigest action)
            then Err "execution identity conflicts with another plan" else
            if gr_State existing <>s? StatePrepared then Err "execution has already started or is ambiguous" else
            if gr_StartNotAfterUnix existing <=? wrap64 (now / time_Second)
            then Err "execution start ticket expired" else Ok (ticketFrom existing))
  | Err e =>
      if e <>s? ErrNotExist then mret (Err e) else
      let! secret := randomSecret in
      let entry := new_entry prepared d secret (start_deadline now lifetime fence action) action in
      let! _ := createRecord p entry in
      mret (Ok (ticketFrom entry))
  end.

Definition launch_of (entry : gateRecord) (files : list File) : Launch :=
  {| la_ExecutionID := pl_ExecutionID (gr_Plan entry); la_PlanDigest := gr_PlanDigest entry;
     la_TicketSecret := gr_TicketSecret entry; la_LeaseLossPolicy := pl_LeaseLossPolicy (gr_Plan entry);
     la_Files := files; la_NetworkBindings := pl_NetworkBindings (gr_Plan entry);
     la_CredentialBindings := pl_CredentialBindings (gr_Plan entry);
     la_EffectBindings := pl_EffectBindings (gr_Plan entry) |}.

(** The checks of [Start] on the record it read. *)
Definition start_checks (entry : gateRecord) (ticket : Ticket) (fence : WriterFence) (action : AuthorizedAction) (now : Z)
    : result unit :=
  fail_if ((gr_PlanDigest entry <>s? tk_PlanDigest ticket) || (gr_TicketSecret entry <>s? tk_Secret ticket) ||
           negb (gr_StartNotAfterUnix entry =? tk_StartNotAfterUnix ticket) ||
           negb (pl_WriterGeneration (gr_Plan entry) =? wf_WriterGeneration fence))
    "start ticket, plan, or writer mismatch" ;;;
  match startAuthorizationMaterial (gr_Plan entry) ticket with
  | Err _ => Err "execution start is not an exact authorized action"
  | Ok (canonicalRequest, fields) =>
      fail_if ((aa_ActionKind action <>s? "execution.start") ||
               negb (is_ok (VerifyAuthorizedAction action fields canonicalRequest fence now)))
        "execution start is not an exact authorized action"
  end ;;;
  fail_if ((gr_State entry =s? StateStarting) || (gr_State entry =s? StateRunning))
    "execution start is ambiguous or already running" ;;;
  fail_if ((gr_State entry <>s? StatePrepared) || negb (before now (gr_StartNotAfterUnix entry)))
    "execution is not startable".

Definition Start (g : Gate) (ticket : Ticket) (fence : WriterFence) (action : AuthorizedAction) (now : Z)
    : IO (result Launch) :=
  if negb (g_open g) || (tk_ExecutionID ticket =s? "") || (tk_Secret ticket =s? "")
  then mret (Err "local execution start is invalid") else
  let! _ := require (VerifyWriterFence fence now "execution.start") in
  let! _ := require (ConfirmCurrentWriterFence fence now) in
  let p := gate_path g (tk_ExecutionID ticket) in
  let! entry := readRecord p in
  let! _ := require (start_checks entry ticket fence action now) in
  let! files := openBoundFiles (pl_Files (gr_Plan entry)) in
  let entry := started entry (aa_StableActionID action) (aa_ExactRequestDigest action) in
  let! _ := replaceRecord p entry in
  mret (Ok (launch_of entry files)).

(** ** Following the run *)

(** [Gate.transition]. *)
Definition transition (g : Gate) (launch : Launch) (expected next outcome : string) : IO (result unit) :=
  if negb (g_open g) then mret (Err "local execution Gate is unavailable") else
  let p := gate_path g (la_ExecutionID launch) in
  entry ← readRecord p;
  match entry with
  | Err _ => mret (Err "execution transition does not match its one-shot launch")
  | Ok entry =>
      if (gr_PlanDigest entry <>s? la_PlanDigest launch) || (gr_TicketSecret entry <>s? la_TicketSecret launch) ||
         (gr_State entry <>s? expected)
      then mret (Err "execution transition does not match its one-shot launch") else
      replaceRecord p (moved entry next outcome)
  end.

Definition MarkRunning (g : Gate) (launch : Launch) : IO (result unit) :=
  transition g launch StateStarting StateRunning "".

Definition Complete (g : Gate) (launch : Launch) (terminal outcomeDigest : string) : IO (result unit) :=
  if negb (terminalState terminal) then mret (Err "execution completion is not terminal") else
  if (terminal =s? StateSucceeded) && negb (validDigest outcomeDigest)
  then mret (Err "successful execution requires an outcome digest") else
  transition g launch StateRunning terminal outcomeDigest.

Definition Inspect (g : Gate) (executionID : string) : IO (result Resolution) :=
  if negb (validDigest executionID) then mret (Err "invalid execution identity") else
  let! entry := readRecord (gate_path g executionID) in
  mret (Ok {| rs_State := gr_State entry; rs_StateRevision := gr_StateRevision entry;
              rs_PlanDigest := gr_PlanDigest entry; rs_OutcomeDigest := gr_OutcomeDigest entry |}).

Definition Resolve (g : Gate) (executionID : string) : IO (result (string * Z)) :=
  let! r := Inspect g executionID in mret (Ok (rs_State r, rs_StateRevision r)).

(** ** The outbound broker *)

(** [fmt.Sprint] of a port. *)
Definition port_text (port : Z) : string := decimal 5 port.

Definition JoinHostPort (host port : string) : string :=
  if contains_byte host ":" then "[" +:+ host +:+ "]:" +:+ port else host +:+ ":" +:+ port.

(** One request as the pinned client sends it: the address it dials, the name
    TLS verifies, and the HTTP request. *)
Record Outgoing := {
  og_Dial : string;
  og_ServerName : string;
  og_Method : string;
  og_URL : string;
  og_Header : gmap string (list string);
  og_Body : bytes;
}.

(** What the environment answers: whether [http.NewRequestWithContext] accepts
    the method and the URL, and what [client.Do] returns, a status with the body
    or the error of reading it.  A response is not followed anywhere
    ([CheckRedirect] is [http.ErrUseLastResponse]). *)
Record HttpClient := {
  hc_NewRequest : string -> string -> result unit;
  hc_Do : Outgoing -> result (Z * result bytes);
}.

(** [Header.Add]. *)
Definition header_Add (m : gmap string (list string)) (name value : string) : gmap string (list string) :=
  <[name := default [] (m !! name) ++ [value]]> m.

Definition forbidden_header (name : string) : bool :=
  (name =s? "Host") || (name =s? "Connection") || (name =s? "Transfer-Encoding") || (name =s? "Idempotency-Key").

Fixpoint add_headers (headers : list HTTPHeader) (m : gmap string (list string)) : result (gmap string (list string)) :=
  match headers with
  | [] => Ok m
  | h :: rest =>
      let name := CanonicalHeaderKey (hh_Name h) in
      if (name =s? "") || has_newline (hh_Value h) || forbidden_header name
      then Err "credential supplied an unsafe HTTP header"
      else add_headers rest (header_Add m name (hh_Value h))
  end.

Definition outgoing (binding : NetworkBinding) (request : HTTPSRequest) (headers : gmap string (list string))
    (stableID : string) : Outgoing :=
  {| og_Dial := JoinHostPort (default "" (head (nb_ResolvedIPs binding))) (port_text (nb_Port binding));
     og_ServerName := nb_TLSServerName binding; og_Method := hq_Method request;
     og_URL := "https://" +:+ JoinHostPort (nb_Host binding) (port_text (nb_Port binding)) +:+ hq_PathAndQuery request;
     og_Header := <["Idempotency-Key" := [trim_prefix stableID "sha256:"]]> headers;
     og_Body := hq_Body request |}.

(** [tag] names the effect in the log of what reached the network. *)
Definition performPinnedHTTPS (client : HttpClient) (tag : string * string) (binding : NetworkBinding)
    (request : HTTPSRequest) (headers : list HTTPHeader) (stableID : string) : IO (result HTTPSResponse) :=
  let url := "https://" +:+ JoinHostPort (nb_Host binding) (port_text (nb_Port binding)) +:+ hq_PathAndQuery request in
  let! _ := require (hc_NewRequest client (hq_Method request) url) in
  let! hs := mret (add_headers headers ∅) in
  _ ← emit tag;
  let! answer := mret (hc_Do client (outgoing binding request hs stableID)) in
  mret (match answer.2 with
        | Err _ => Err "HTTPS effect response exceeded its exact bound"
        | Ok stream =>
            let body := limit_read (sint64 (nb_MaxResponseBytes binding) + 1) stream in
            if nb_MaxResponseBytes binding <? len body then Err "HTTPS effect response exceeded its exact bound"
            else Ok {| hs_StatusCode := answer.1; hs_Body := body; hs_Digest := "" |}
        end).

(** How the first critical section of [PerformHTTPS] ends without an error: the
    response of an effect that is already terminal, or a fresh submission with
    its target. *)
Inductive submission :=
| Replayed (response : HTTPSResponse)
| Submitted (network : NetworkBinding) (credential : option CredentialBinding).

(** The bindings of the request and its exact authorisation. *)
Definition effect_checks (entry : gateRecord) (request : HTTPSRequest) (action : AuthorizedAction) (fence : WriterFence)
    (now : Z) : option (NetworkBinding * option CredentialBinding) :=
  match find_effect (pl_EffectBindings (gr_Plan entry)) (hq_PlanEffectID request),
        EffectAuthorizationMaterial (gr_Plan entry) request with
  | Some effect, Ok (canonical, fields) =>
      match find_network (pl_NetworkBindings (gr_Plan entry)) (eb_NetworkBindingID effect) with
      | None => None
      | Some network =>
          if (aa_ActionKind action <>s? "executor.effect") ||
             negb (is_ok (VerifyAuthorizedAction action fields canonical fence now)) ||
             negb (is_ok (ConfirmCurrentWriterFence fence now)) || negb (validHTTPSRequest request effect network)
          then None
          else Some (network, if eb_CredentialHandleID effect =s? "" then None
                              else find_credential (pl_CredentialBindings (gr_Plan entry)) (eb_CredentialHandleID effect))
      end
  | _, _ => None
  end.

Definition submit (g : Gate) (launch : Launch) (request : HTTPSRequest) (action : AuthorizedAction)
    (fence : WriterFence) (now : Z) : IO (result submission) :=
  if negb (g_open g) then mret (Err "execution effect broker is unavailable") else
  let p := gate_path g (la_ExecutionID launch) in
  entry ← readRecord p;
  match entry with
  | Err _ => mret (Err "effect does not belong to the running one-shot launch")
  | Ok entry =>
      if (gr_State entry <>s? StateRunning) || (gr_PlanDigest entry <>s? la_PlanDigest launch) ||
         (gr_TicketSecret entry <>s? la_TicketSecret launch)
      then mret (Err "effect does not belong to the running one-shot launch") else
      match effect_checks entry request action fence now with
      | None => mret (Err "HTTPS effect is not an exact current authorized action")
      | Some (network, credential) =>
          match gr_Effects entry !! hq_PlanEffectID request with
          | Some prior =>
              if (er_StableActionID prior <>s? aa_StableActionID action) ||
                 (er_ExactRequestDigest prior <>s? aa_ExactRequestDigest action)
              then mret (Err "effect identity conflicts") else
              if er_State prior <>s? "terminal"
              then mret (Err "effect submission is ambiguous; resolve externally without retry") else
              let! body := lift_sys (read_file (effectResponsePath g (aa_StableActionID action)))
                             "terminal effect response is unavailable" in
              mret (Ok (Replayed {| hs_StatusCode := er_HTTPStatus prior; hs_Body := body; hs_Digest := er_ResponseDigest prior |}))
          | None =>
              let! _ := replaceRecord p (with_effect entry (hq_PlanEffectID request)
                          (submitted_effect (aa_StableActionID action) (aa_ExactRequestDigest action))) in
              mret (Ok (Submitted network credential))
          end
      end
  end.

(** [CredentialResolver.ResolveCredential]; [None] for a nil resolver. *)
Definition CredentialResolver : Type := option (string -> string -> string -> Z -> result (list HTTPHeader)).

Definition secret_headers (credential : option CredentialBinding) (resolver : CredentialResolver) (stableID : string) (now : Z)
    : result (list HTTPHeader) :=
  match credential with
  | None => Ok []
  | Some c =>
      match resolver with
      | None => Err "effect credential is unavailable or expired"
      | Some resolve =>
          if negb (before now (cb_ExpiresAtUnix c)) then Err "effect credential is unavailable or expired"
          else resolve (cb_HandleID c) (cb_ScopeDigest c) stableID now
      end
  end.

(** The part of [PerformHTTPS] outside the lock; [revalidate] is the answer of
    the callback, [Err] for a nil one. *)
Definition call_effect (client : HttpClient) (launch : Launch) (request : HTTPSRequest) (action : AuthorizedAction)
    (now : Z) (resolver : CredentialResolver) (revalidate : result unit)
    (network : NetworkBinding) (credential : option CredentialBinding) : IO (result HTTPSResponse) :=
  let! secrets := mret (secret_headers credential resolver (aa_StableActionID action) now) in
  let! _ := require (fail_if (negb (is_ok revalidate)) "trusted capability was revoked at HTTPS submission") in
  let! response := performPinnedHTTPS client (la_ExecutionID launch, hq_PlanEffectID request) network request
                     (hq_Headers request ++ secrets) (aa_StableActionID action) in
  let! d := mret (codec_Digest_response "tos.executor-effect-response.v1" (hs_StatusCode response) (hs_Body response)) in
  mret (Ok {| hs_StatusCode := hs_StatusCode response; hs_Body := hs_Body response; hs_Digest := d |}).

(** The second critical section. *)
Definition terminalize (g : Gate) (launch : Launch) (request : HTTPSRequest) (action : AuthorizedAction)
    (response : HTTPSResponse) : IO (result HTTPSResponse) :=
  let p := gate_path g (la_ExecutionID launch) in
  entry ← readRecord p;
  match entry with
  | Err _ => mret (Err "effect terminalization lost its submitted predecessor")
  | Ok entry =>
      match gr_Effects entry !! hq_PlanEffectID request with
      | None => mret (Err "effect terminalization lost its submitted predecessor")
      | Some prior =>
          if (er_State prior <>s? "submitted") || (er_StableActionID prior <>s? aa_StableActionID action)
          then mret (Err "effect terminalization lost its submitted predecessor") else
          let! _ := replaceRecord p (with_effect entry (hq_PlanEffectID request)
                      (terminal_effect prior (hs_Digest response) (hs_StatusCode response))) in
          mret (Ok response)
      end
  end.

Definition PerformHTTPS (g : Gate) (client : HttpClient) (launch : Launch) (request : HTTPSRequest)
    (action : AuthorizedAction) (fence : WriterFence) (resolver : CredentialResolver) (revalidate : result unit) (now : Z)
    : IO (result HTTPSResponse) :=
  let! s := submit g launch request action fence now in
  match s with
  | Replayed response => mret (Ok response)
  | Submitted network credential =>
      let! response := call_effect client launch request action now resolver revalidate network credential in
      let! _ := writeEffectResponse g (aa_StableActionID action) (hs_Body response) in
      terminalize g launch request action response
  end.

(** ** The protocol of one record

    What an operation may do to a stored record. *)
Inductive record_step : gateRecord -> gateRecord -> Prop :=
| step_start r action request : gr_State r = StatePrepared -> record_step r (started r action request)
| step_running r : gr_State r = StateStarting -> record_step r (moved r StateRunning "")
| step_complete r s o : gr_State r = StateRunning -> terminalState s = true ->
    (s = StateSucceeded -> validDigest o = true) -> record_step r (moved r s o)
| step_ambiguous_start r : gr_State r = StateStarting -> record_step r (moved r StateAmbiguousStart (gr_OutcomeDigest r))
| step_ambiguous_run r : gr_State r = StateRunning -> record_step r (moved r StateAmbiguousRun (gr_OutcomeDigest r))
| step_submit r id action request : gr_State r = StateRunning -> id ∈ eb_PlanEffectID <$> pl_EffectBindings (gr_Plan r) ->
    gr_Effects r !! id = None ->
    record_step r (with_effect r id (submitted_effect action request))
| step_terminal r id e d status : gr_Effects r !! id = Some e -> er_State e = "submitted" ->
    record_step r (with_effect r id (terminal_effect e d status)).

End Gate.
