(* ===== verification/GateText.v ===== *)
(** * The gate's records as JSON text

    Go strings are any bytes, and encoding/json writes U+FFFD for every byte that
    is not part of valid UTF-8: a record that was written is read back with its
    strings replaced that way ([json_text]).  A record that was read has valid
    strings only, so that a step of the protocol from it is, after the next read,
    a step of the protocol too ([record_step_text]). *)

From S2P Require Import Prelude GoStd GoText Utf8 FS Json RecordStore GatePlan CommerceGate.

Definition text_file (x : FileBinding) : FileBinding :=
  {| fb_Path := utf8_fix (fb_Path x); fb_Digest := utf8_fix (fb_Digest x); fb_Size := fb_Size x |}.

Definition text_network (x : NetworkBinding) : NetworkBinding :=
  {| nb_BindingID := utf8_fix (nb_BindingID x); nb_Scheme := utf8_fix (nb_Scheme x); nb_Host := utf8_fix (nb_Host x);
     nb_Port := nb_Port x; nb_ResolvedIPs := utf8_fix <$> nb_ResolvedIPs x; nb_TLSServerName := utf8_fix (nb_TLSServerName x);
     nb_AllowRedirects := nb_AllowRedirects x; nb_MaxRequestBytes := nb_MaxRequestBytes x;
     nb_MaxResponseBytes := nb_MaxResponseBytes x |}.

Definition text_credential (x : CredentialBinding) : CredentialBinding :=
  {| cb_HandleID := utf8_fix (cb_HandleID x); cb_ScopeDigest := utf8_fix (cb_ScopeDigest x);
     cb_ExpiresAtUnix := cb_ExpiresAtUnix x |}.

Definition text_effect_binding (x : EffectBinding) : EffectBinding :=
  {| eb_PlanEffectID := utf8_fix (eb_PlanEffectID x); eb_EffectProfileDigest := utf8_fix (eb_EffectProfileDigest x);
     eb_TargetDigest := utf8_fix (eb_TargetDigest x); eb_OperationKind := utf8_fix (eb_OperationKind x);
     eb_EffectSemanticKeyDigest := utf8_fix (eb_EffectSemanticKeyDigest x);
     eb_NetworkBindingID := utf8_fix (eb_NetworkBindingID x); eb_CredentialHandleID := utf8_fix (eb_CredentialHandleID x);
     eb_MaximumUses := eb_MaximumUses x |}.

Definition text_plan (x : Plan) : Plan :=
  {| pl_OwnerID := utf8_fix (pl_OwnerID x); pl_AgentID := utf8_fix (pl_AgentID x);
     pl_AgreementBodyDigest := utf8_fix (pl_AgreementBodyDigest x);
     pl_ExecutionObligationID := utf8_fix (pl_ExecutionObligationID x);
     pl_CanonicalPlanDigest := utf8_fix (pl_CanonicalPlanDigest x);
     pl_AcceptedInputManifestDigest := utf8_fix (pl_AcceptedInputManifestDigest x); pl_AttemptIndex := pl_AttemptIndex x;
     pl_PredecessorTerminalResolutionDigest := utf8_fix (pl_PredecessorTerminalResolutionDigest x);
     pl_ExecutionID := utf8_fix (pl_ExecutionID x); pl_ReservationID := utf8_fix (pl_ReservationID x);
     pl_PolicyRevision := pl_PolicyRevision x; pl_WriterGeneration := pl_WriterGeneration x;
     pl_LeaseLossPolicy := utf8_fix (pl_LeaseLossPolicy x); pl_Files := text_file <$> pl_Files x;
     pl_NetworkBindings := text_network <$> pl_NetworkBindings x;
     pl_CredentialBindings := text_credential <$> pl_CredentialBindings x;
     pl_EffectBindings := text_effect_binding <$> pl_EffectBindings x |}.

Definition text_effect (x : EffectRecord) : EffectRecord :=
  {| er_StableActionID := utf8_fix (er_StableActionID x); er_ExactRequestDigest := utf8_fix (er_ExactRequestDigest x);
     er_State := utf8_fix (er_State x); er_ResponseDigest := utf8_fix (er_ResponseDigest x);
     er_HTTPStatus := er_HTTPStatus x; er_StateRevision := er_StateRevision x |}.

Definition text_record (x : gateRecord) : gateRecord :=
  {| gr_Schema := utf8_fix (gr_Schema x); gr_Plan := text_plan (gr_Plan x); gr_PlanDigest := utf8_fix (gr_PlanDigest x);
     gr_TicketSecret := utf8_fix (gr_TicketSecret x); gr_StartNotAfterUnix := gr_StartNotAfterUnix x;
     gr_State := utf8_fix (gr_State x); gr_StateRevision := gr_StateRevision x;
     gr_OutcomeDigest := utf8_fix (gr_OutcomeDigest x); gr_PrepareActionID := utf8_fix (gr_PrepareActionID x);
     gr_PrepareRequestDigest := utf8_fix (gr_PrepareRequestDigest x); gr_StartActionID := utf8_fix (gr_StartActionID x);
     gr_StartRequestDigest := utf8_fix (gr_StartRequestDigest x); gr_Effects := text_effect <$> gr_Effects x |}.

Definition record_keys (x : gateRecord) : bool := bool_decide (Forall (fun k => utf8_fix k = k) (map_to_list (gr_Effects x)).*1).

Lemma record_keys_spec x : record_keys x = true <-> forall k, is_Some (gr_Effects x !! k) -> utf8_fix k = k.
Proof.
  unfold record_keys. rewrite bool_decide_eq_true, Forall_forall. split.
  - intros Hk k [e He]. apply Hk, list_elem_of_fmap. exists (k, e). split; [done|]. by apply elem_of_map_to_list.
  - intros Hk k ([k' e] & -> & He)%list_elem_of_fmap. apply elem_of_map_to_list in He. apply Hk. by exists e.
Qed.

(** A function that does nothing more the second time, on the elements of a
    list. *)
Lemma fmap_idem {A} (f : A -> A) (l : list A) : (forall x, f (f x) = f x) -> f <$> (f <$> l) = f <$> l.
Proof. intros Hf. rewrite <- list_fmap_compose. apply list_fmap_ext. intros i x _. apply Hf. Qed.

Lemma text_file_idem x : text_file (text_file x) = text_file x.
Proof. unfold text_file. cbn. by rewrite !utf8_fix_idem. Qed.
Lemma text_network_idem x : text_network (text_network x) = text_network x.
Proof. unfold text_network. cbn [nb_BindingID nb_Scheme nb_Host nb_ResolvedIPs nb_TLSServerName nb_Port nb_AllowRedirects nb_MaxRequestBytes nb_MaxResponseBytes]. by rewrite !utf8_fix_idem, (fmap_idem _ _ utf8_fix_idem). Qed.
Lemma text_credential_idem x : text_credential (text_credential x) = text_credential x.
Proof. unfold text_credential. cbn. by rewrite !utf8_fix_idem. Qed.
Lemma text_effect_binding_idem x : text_effect_binding (text_effect_binding x) = text_effect_binding x.
Proof. unfold text_effect_binding. cbn. by rewrite !utf8_fix_idem. Qed.
Lemma text_effect_idem x : text_effect (text_effect x) = text_effect x.
Proof. unfold text_effect. cbn. by rewrite !utf8_fix_idem. Qed.

Lemma text_plan_idem x : text_plan (text_plan x) = text_plan x.
Proof.
  unfold text_plan.
  cbn [pl_OwnerID pl_AgentID pl_AgreementBodyDigest pl_ExecutionObligationID pl_CanonicalPlanDigest pl_AcceptedInputManifestDigest
    pl_AttemptIndex pl_PredecessorTerminalResolutionDigest pl_ExecutionID pl_ReservationID pl_PolicyRevision pl_WriterGeneration
    pl_LeaseLossPolicy pl_Files pl_NetworkBindings pl_CredentialBindings pl_EffectBindings].
  rewrite !utf8_fix_idem, (fmap_idem _ _ text_file_idem), (fmap_idem _ _ text_network_idem),
    (fmap_idem _ _ text_credential_idem), (fmap_idem _ _ text_effect_binding_idem). done.
Qed.

#[refine, export] Instance text_gateRecord : JsonText gateRecord := {|
  json_text := text_record; json_keys := record_keys; json_text_idem := _; json_keys_text := _ |}.
Proof.
  - intros x. unfold text_record.
    cbn [gr_Schema gr_Plan gr_PlanDigest gr_TicketSecret gr_StartNotAfterUnix gr_State gr_StateRevision gr_OutcomeDigest
      gr_PrepareActionID gr_PrepareRequestDigest gr_StartActionID gr_StartRequestDigest gr_Effects].
    rewrite !utf8_fix_idem, text_plan_idem, <- map_fmap_compose.
    replace (text_effect ∘ text_effect <$> gr_Effects x) with (text_effect <$> gr_Effects x); [done|].
    apply map_fmap_ext. intros k e _. symmetry. apply text_effect_idem.
  - intros x. apply eq_bool_prop_intro. rewrite !Is_true_true, !record_keys_spec. cbn [text_record gr_Effects].
    split; intros Hk k Hs; apply Hk; revert Hs; rewrite lookup_fmap, fmap_is_Some; done.
Defined.

Lemma clean_fields (r : gateRecord) : clean r ->
  utf8_fix (gr_State r) = gr_State r /\ utf8_fix (gr_OutcomeDigest r) = gr_OutcomeDigest r /\
  utf8_fix (gr_PlanDigest r) = gr_PlanDigest r /\ text_plan (gr_Plan r) = gr_Plan r.
Proof.
  intros [Ht _]. split_and!.
  - exact (f_equal gr_State Ht).
  - exact (f_equal gr_OutcomeDigest Ht).
  - exact (f_equal gr_PlanDigest Ht).
  - exact (f_equal gr_Plan Ht).
Qed.

(** The effects a clean plan names have valid names. *)
Lemma clean_effect_id (r : gateRecord) id : clean r -> id ∈ eb_PlanEffectID <$> pl_EffectBindings (gr_Plan r) -> utf8_fix id = id.
Proof.
  intros (_ & _ & _ & Hp)%clean_fields (e & -> & He)%list_elem_of_fmap.
  apply (f_equal pl_EffectBindings) in Hp. cbn [text_plan pl_EffectBindings] in Hp.
  apply list_elem_of_lookup in He as [i Hi]. pose proof (f_equal (fun l => l !! i) Hp) as Hl. cbn beta in Hl.
  rewrite list_lookup_fmap, Hi in Hl. injection Hl as Hl. exact (f_equal eb_PlanEffectID Hl).
Qed.

Lemma validDigest_ascii d : validDigest d = true -> is_ascii d = true.
Proof.
  intros Hv. unfold validDigest, hex_decodable in Hv. bool_props. rewrite <- (str_take_drop 7 d).
  unfold is_ascii. rewrite str_forallb_app.
  match goal with Ht : str_take 7 d = _ |- _ => rewrite Ht end. apply andb_true_iff. split; [done|].
  eapply str_forallb_impl; [|eassumption]. intros c. by destruct c as [[] [] [] [] [] [] [] []].
Qed.

Lemma terminalState_ascii s : terminalState s = true -> is_ascii s = true.
Proof. unfold terminalState. rewrite !orb_true_iff. intros Hs. destruct_or?; bool_props; by subst. Qed.

Lemma text_moved r s o : json_text (moved r s o) = moved (json_text r) (utf8_fix s) (utf8_fix o).
Proof. done. Qed.
Lemma text_started r a b : json_text (started r a b) = started (json_text r) (utf8_fix a) (utf8_fix b).
Proof. done. Qed.
Lemma text_with_effect r id e : json_text (with_effect r id e) = with_effect (json_text r) id (text_effect e).
Proof.
  unfold with_effect, advance. cbn [json_text text_gateRecord]. unfold text_record at 1. cbn [gr_Effects]. rewrite fmap_insert. done.
Qed.

Lemma keys_with_effect r id e : json_keys r = true -> utf8_fix id = id -> json_keys (with_effect r id e) = true.
Proof.
  cbn [json_keys text_gateRecord]. rewrite !record_keys_spec. intros Hr Hid k. cbn [with_effect advance gr_Effects].
  destruct (decide (id = k)) as [->|Hne]; [done|]. rewrite lookup_insert_ne by done. apply Hr.
Qed.

(** A step from a record that was read can be written, and reads back as a step
    from that record. *)
Lemma record_step_text r r' :
  clean r -> record_step r r' -> json_keys r' = true /\ record_step r (json_text r').
Proof.
  intros Hc Hs. pose proof Hc as [Ht Hk]. destruct (clean_fields r Hc) as (Hst & Ho & _ & _). split.
  - destruct Hs; try done.
    + apply keys_with_effect; [done|]. by eapply clean_effect_id.
    + apply keys_with_effect; [done|]. cbn [json_keys text_gateRecord] in Hk. rewrite record_keys_spec in Hk. apply Hk. by eexists.
  - destruct Hs as [r a b Hs|r Hs|r s o Hs Hterm Hd|r Hs|r Hs|r id a b Hs Hin Hn|r id e d status He Hes].
    + rewrite text_started, Ht. by constructor.
    + rewrite text_moved, Ht. by constructor.
    + rewrite text_moved, Ht, (utf8_fix_ascii s) by (by apply terminalState_ascii). constructor; [done|done|].
      intros E. rewrite utf8_fix_ascii by (by apply validDigest_ascii, Hd). by apply Hd.
    + rewrite text_moved, Ht, Ho. by constructor.
    + rewrite text_moved, Ht, Ho. by apply step_ambiguous_run.
    + rewrite text_with_effect, Ht. change (text_effect (submitted_effect a b)) with (submitted_effect (utf8_fix a) (utf8_fix b)). by constructor.
    + rewrite text_with_effect, Ht. change (text_effect (terminal_effect e d status)) with (terminal_effect (text_effect e) (utf8_fix d) status).
      assert (Hte : text_effect e = e).
      { pose proof (f_equal (fun x => gr_Effects x !! id) Ht) as Hl. cbn [json_text text_gateRecord text_record gr_Effects] in Hl.
        rewrite lookup_fmap, He in Hl. by injection Hl. }
      rewrite Hte. by apply step_terminal.
Qed.
