(* ===== verification/GateProtocol.v ===== *)
(** * The one-shot protocol of the execution gate

    Theorems on [CommerceGate]: every operation moves a stored record only along
    [record_step], also when it fails or the process dies in it; hence an
    execution starts at most once and an effect is submitted at most once in any
    history of calls, restarts, crashes and power losses, and an outcome is
    final. *)

From S2P Require Import Prelude GoStd Sha256 GoText Utf8 FS Json RecordStore GatePlan CommerceGate GateText.

(** ** Writing *)

Lemma replace_body_wp p name raw d Φ :
  always d p Φ -> name <> p -> d_live d !! name = Some (new_inode o600) -> Φ (Some (plain_file o600 raw)) ->
  wp any (replace_body p name raw)
    (fun r d' => always d' p Φ /\ (r = Ok tt -> always d' p (fun v => v = Some (plain_file o600 raw))))
    (fun d' => always d' p Φ) d.
Proof.
  intros Hp Hne Hnew HΦ. unfold replace_body, syncParentDirectory, ebind, lift_sys.
  assert (Hu : forall v d, always d p Φ -> always (d_upd name v d) p Φ) by (intros v d0 H0; by apply always_upd).
  assert (Hm : forall f d, always d p Φ -> always (d_mod name f d) p Φ) by (intros f d0 H0; by apply always_mod).
  wp_steps; cbn [snd]; repeat case_match; cbn [snd fst] in *; try discriminate; try (split; [|intros [=]]); auto 10 with fs.
  all: try match goal with Hl : d_live (d_mod _ mark_synced _) !! _ = Some ?i |- _ =>
         rewrite !live_mod, !decide_True, Hnew in Hl by done; cbn in Hl; injection Hl as <-;
         change (mark_synced _) with (plain_file o600 raw) end.
  all: try (by apply Hu, always_upd; auto).
  - by apply always_sync, Hu, always_upd; auto.
  - destruct p as [dir base]. apply always_synced.
    by rewrite live_upd, decide_False, live_upd, decide_True by done.
Qed.

Lemma replace_body_other q p name raw Φ :
  q <> p -> name <> p -> keeps (fun d => always d p Φ) (replace_body q name raw).
Proof.
  intros Hq Hn. unfold replace_body, syncParentDirectory, ebind, lift_sys.
  assert (Hu : forall v d s, s <> p -> always d p Φ -> always (d_upd s v d) p Φ) by (intros v d0 s Hs H0; by apply always_upd).
  assert (Hm : forall f d, always d p Φ -> always (d_mod name f d) p Φ) by (intros f d0 H0; by apply always_mod).
  keeps_steps; repeat case_match; cbn [fst snd]; auto 10 with fs.
Qed.

(** An atomic replacement: the name has the old values or the new one, and only
    the new one once it reports success. *)
Lemma replace_file_wp pattern p raw d Φ :
  pattern <> "" -> always d p Φ -> is_Some (d_live d !! p) -> Φ (Some (plain_file o600 raw)) ->
  wp any (replace_file pattern p raw)
    (fun r d' => always d' p Φ /\ (r = Ok tt -> always d' p (fun v => v = Some (plain_file o600 raw))))
    (fun d' => always d' p Φ) d.
Proof.
  intros Hpat Hp [i Hi] HΦ. unfold replace_file. apply wp_ebind. unfold lift_sys. apply wp_bind.
  wp_step; [done|by apply wp_ret|]. apply wp_ret.
  assert (Hne : t <> p). { intros ->. rewrite Htemp, temp_name_fresh in Hi; done. }
  apply wp_bind. eapply wp_mono; [apply (replace_body_wp p t raw _ Φ)| |done].
  - by apply always_upd.
  - done.
  - by rewrite live_upd, decide_True.
  - done.
  - intros r d1 [H1 H2]. apply wp_bind.
    apply (keeps_mono (fun d' => always d' p Φ /\ (r = Ok tt -> always d' p (fun v => v = Some (plain_file o600 raw)))));
      [|done|intros; by apply wp_ret|by intros ? []].
    apply keeps_op. intros d2 [H3 H4]. case_match; cbn [fst snd]; [|done]. split; [by apply always_upd|].
    intros ->. by apply always_upd; auto.
Qed.

Lemma replace_file_other pattern q p raw Φ :
  pattern <> "" -> q <> p -> (forall v, Φ v -> is_Some v) ->
  keeps (fun d => always d p Φ) (replace_file pattern q raw).
Proof.
  intros Hpat Hq HΦ d Hp. unfold replace_file. apply wp_ebind. unfold lift_sys. apply wp_bind.
  wp_step; [done|by apply wp_ret|]. apply wp_ret.
  assert (Hne : t <> p).
  { intros ->. destruct (HΦ _ (always_live _ _ _ Hp)) as [i Hi]. rewrite Htemp, temp_name_fresh in Hi; done. }
  apply wp_bind.
  apply (keeps_mono (fun d => always d p Φ)); [by apply replace_body_other|by apply always_upd| |done].
  intros r d1 H1. apply wp_bind.
  apply (keeps_mono (fun d => always d p Φ)); [by apply remove_keeps_other|done| |done]. intros. by apply wp_ret.
Qed.

Lemma str_app_suffix_neq s t c c' : c <> c' -> s +:+ String c "" <> t +:+ String c' "".
Proof.
  revert t. induction s as [|a s IH]; intros [|b t] Hc Heq; simpl in Heq.
  - congruence.
  - injection Heq as _ Heq. by destruct t.
  - injection Heq as _ Heq. by destruct s.
  - injection Heq as _ Heq. by eapply IH.
Qed.

(** A response is never stored under the name of a record. *)
Lemma response_path_not_record g g' stableID id : effectResponsePath g stableID <> gate_path g' id.
Proof.
  unfold effectResponsePath, gate_path.
  assert (Hneq : forall s t, (("effect-" +:+ s) +:+ ".respons") +:+ "e" <> t +:+ "n" /\
                             (("effect-" +:+ s) +:+ ".respons") +:+ "e" <> "invali" +:+ "d").
  { intros s t. split; by apply str_app_suffix_neq. }
  destruct (Hneq (trim_prefix stableID "sha256:") (str_drop 7 id +:+ ".jso")) as [H1 H2].
  rewrite <- !str_app_assoc in H1. rewrite <- !str_app_assoc in H2.
  destruct (negb (validDigest id)); intros Heq; apply (f_equal snd) in Heq; cbn [snd] in Heq; [exact (H2 Heq)|exact (H1 Heq)].
Qed.

(** ** The operations follow the protocol *)

Section Protocol.
Context `{Commerce} `{Json gateRecord} {laws : JsonTextLaws gateRecord}.

Lemma readRecord_wp p d :
  wp any (readRecord p)
    (fun x d' => d' = d /\ forall r, x = Ok r -> valid_record r = true /\ valid_effects (gr_Effects r) = true /\
       exists i, d_live d !! p = Some i /\ i_kind i = Regular /\ json_unmarshal (i_data i) = Some r)
    (fun d' => d' = d) d.
Proof.
  unfold readRecord. wp_step. wp_step; [done|by apply wp_ret|]. unfold lookup_sys.
  destruct (d_live d !! p) as [i|] eqn:Hi; [|by apply wp_ret].
  wp_step; [by apply wp_ret|]. wp_step. wp_step; [done|by apply wp_ret|]. rewrite Hi. cbn [fst snd]. apply wp_ret.
  split; [done|]. intros r Hr. bool_props. destruct (json_unmarshal (i_data i)) as [x|] eqn:Hj; [|done].
  destruct (valid_record x) eqn:Hv; [|done]. destruct (valid_effects (gr_Effects x)) eqn:He; [|done].
  simpl in Hr. injection Hr as <-. split_and!; try done. by exists i.
Qed.

Lemma readRecord_keeps I p : keeps I (readRecord p).
Proof. unfold readRecord. keeps_steps; done. Qed.

Local Abbreviation stable := (stable record_step).
Local Abbreviation reads_stable := (reads_stable record_step record_step_text).
Definition closed (R : gateRecord -> Prop) : Prop := forall r r', R r -> record_step r r' -> R r'.

(** Reading the name gives a record with the property. *)
Lemma readRecord_inv P R p q d :
  stable P R -> at_path P p d ->
  wp any (readRecord q) (fun x d' => d' = d /\ forall r, x = Ok r -> is_Some (d_live d !! q) /\ clean r /\ (q = p -> R r))
    (fun d' => d' = d) d.
Proof.
  intros HPR Hp. eapply wp_mono; [apply readRecord_wp| |done]. intros x d' [-> Hx]. split; [done|]. intros r ->.
  destruct (Hx r eq_refl) as (_ & _ & i & Hi & _ & Hj). split_and!; [by exists i|by eapply decoded_clean|]. intros ->.
  by eapply at_path_read.
Qed.

Lemma replaceRecord_inv P p q entry d :
  at_path P p d -> is_Some (d_live d !! q) -> (q = p -> P entry) ->
  wp any (replaceRecord q entry)
    (fun r d' => at_path P p d' /\ (r = Ok tt -> always d' q (fun v => v = Some (json_file entry)))) (at_path P p) d.
Proof.
  intros Hp Hq HP. unfold replaceRecord. destruct (decide (q = p)) as [->|Hne].
  - apply replace_file_wp; [done|done|done|]. exists entry. auto.
  - eapply wp_mono; [apply (wp_and _ _ _ _ _ _ _ (replace_file_other ".gate-" q p (json_marshal entry) (holds P) ltac:(done) Hne
      (holds_some P) d Hp) (replace_file_wp ".gate-" q (json_marshal entry) d (fun _ => True) ltac:(done) ltac:(done) Hq I))| |].
    + intros r d' [H1 [_ H2]]. done.
    + by intros d' [H1 _].
Qed.

(** A read-modify-write that follows the protocol. *)
Lemma update_keeps P R p q entry entry' d :
  stable P R -> at_path P p d -> is_Some (d_live d !! q) -> clean entry -> (q = p -> R entry) -> record_step entry entry' ->
  wp any (replaceRecord q entry') (fun _ => at_path P p) (at_path P p) d.
Proof.
  intros HP Hp Hq Hc Hr Hs. eapply wp_mono; [apply (replaceRecord_inv P p q entry' d Hp Hq)| |done]; [|by intros r d' []].
  intros Heq. by eapply (st_step _ P R); [..|exact Hs]; auto.
Qed.

Lemma openBoundFiles_keeps I bindings : keeps I (openBoundFiles bindings).
Proof.
  induction bindings as [|b rest IH]; simpl; [apply keeps_ret|]. unfold require.
  do 6 (apply keeps_ebind; [unfold lift_sys, openReadOnlyNoFollow, handle_call; keeps_steps; done|intros ?]).
  apply keeps_ebind; [apply IH|intros; apply keeps_ret].
Qed.

(** Start a proof that an operation keeps the records of a name: the guards
    first, then the reading of the record. *)
Ltac op_read P p q :=
  apply wp_bind; eapply wp_mono; [eapply (readRecord_inv P _ p q); eassumption| |by intros ? ->];
  let r := fresh "r" in let d1 := fresh "d1" in let Hr := fresh "Hread" in
  intros r d1 [-> Hr]; destruct r as [r|?]; [specialize (Hr r eq_refl) as (? & ? & ?)|].

Lemma find_effect_spec effects id e : find_effect effects id = Some e -> e ∈ effects /\ eb_PlanEffectID e = id.
Proof.
  unfold find_effect. destruct (list_find _ effects) as [[i x]|] eqn:E; [|done]. intros [= <-].
  apply list_find_Some in E as (Hx & Hid & _). split; [by eapply list_elem_of_lookup_2|done].
Qed.

(** Only an effect of the plan passes the checks of the broker. *)
Lemma effect_checks_planned r request action fence now x :
  effect_checks r request action fence now = Some x -> hq_PlanEffectID request ∈ eb_PlanEffectID <$> pl_EffectBindings (gr_Plan r).
Proof.
  unfold effect_checks. destruct (find_effect _ _) as [e|] eqn:He; [|done]. intros _.
  apply find_effect_spec in He as [Hin <-]. by apply list_elem_of_fmap_2.
Qed.

Lemma transition_keeps P R p g launch expected next outcome :
  stable P R -> (forall r, gr_State r = expected -> record_step r (moved r next outcome)) ->
  keeps (at_path P p) (transition g launch expected next outcome).
Proof.
  intros HP Hs d Hp. unfold transition. wp_step; [by apply wp_ret|]. cbn zeta.
  op_read P p (gate_path g (la_ExecutionID launch)); [|by apply wp_ret]. wp_step; [by apply wp_ret|]. bool_props.
  eapply update_keeps; eauto.
Qed.

Lemma MarkRunning_keeps P R p g launch : stable P R -> keeps (at_path P p) (MarkRunning g launch).
Proof. intros HP. apply (transition_keeps P R); [done|]. by constructor. Qed.

Lemma Complete_keeps P R p g launch terminal outcome : stable P R -> keeps (at_path P p) (Complete g launch terminal outcome).
Proof.
  intros HP. unfold Complete. keeps_step; [apply keeps_ret|]. keeps_step; [apply keeps_ret|].
  apply (transition_keeps P R); [done|]. bool_props. intros r Hr. constructor; [done|done|]. intros ->.
  by destruct (validDigest outcome).
Qed.

Lemma Start_keeps P R p g ticket fence action now : stable P R -> keeps (at_path P p) (Start g ticket fence action now).
Proof.
  intros HP d Hp. unfold Start. wp_step; [by apply wp_ret|]. do 2 (apply wp_require; [done|intros _]). cbn zeta.
  unfold ebind at 1. op_read P p (gate_path g (tk_ExecutionID ticket)); [|by apply wp_ret].
  apply wp_require; [done|]. intros Hc. apply wp_ebind.
  apply (keeps_mono (fun d' => d' = d)); [apply openBoundFiles_keeps|done| |by intros ? ->].
  intros [files|e] d' ->; [|done]. apply wp_ebind. unfold start_checks in Hc. result_inv. bool_props.
  eapply wp_mono; [eapply (update_keeps P R); [exact HP|exact Hp|done|done|done|by constructor]| |done].
  intros [[]|e] d' Hd'; [by apply wp_ret|done].
Qed.

(** A record is created only under a free name. *)
Lemma createRecord_keeps P p q entry : keeps (at_path P p) (createRecord q entry).
Proof.
  intros d Hp. unfold createRecord. apply wp_ebind. unfold lift_sys. apply wp_bind. wp_step; [done|by apply wp_ret|].
  destruct (d_live d !! q) as [i|] eqn:Hq; cbn [fst snd]; [by apply wp_ret|]. apply wp_ret.
  assert (Hne : q <> p).
  { intros ->. destruct (holds_some _ _ (always_live _ _ _ Hp)) as [i Hi]. congruence. }
  apply (keeps_mono (at_path P p)); [|by apply always_upd|done|done].
  assert (Hm : forall f d, at_path P p d -> at_path P p (d_mod q f d)) by (intros f d0 H1; by apply always_mod).
  unfold syncParentDirectory, ebind, lift_sys. keeps_steps; auto with fs. by apply always_sync.
Qed.

Lemma randomSecret_keeps I : keeps I randomSecret.
Proof.
  unfold randomSecret. apply keeps_bind.
  - intros d Hd script rand HS. unfold pop_rand. by destruct rand.
  - intros raw. unfold ebind, lift_sys, handle_call. keeps_steps; done.
Qed.

Lemma Prepare_keeps P p g plan fence lifetime action now : keeps (at_path P p) (Prepare g plan fence lifetime action now).
Proof.
  unfold Prepare, require. keeps_step; [apply keeps_ret|].
  do 4 (apply keeps_ebind; [apply keeps_ret|intros ?]). cbn zeta.
  apply keeps_bind; [apply readRecord_keeps|]. intros [existing|e]; [apply keeps_ret|]. keeps_step; [apply keeps_ret|].
  apply keeps_ebind; [apply randomSecret_keeps|]. intros secret.
  apply keeps_ebind; [apply createRecord_keeps|intros; apply keeps_ret].
Qed.

Lemma submit_keeps P R p g launch request action fence now :
  stable P R -> keeps (at_path P p) (submit g launch request action fence now).
Proof.
  intros HP d Hp. unfold submit. wp_step; [by apply wp_ret|]. cbn zeta.
  op_read P p (gate_path g (la_ExecutionID launch)); [|by apply wp_ret]. wp_step; [by apply wp_ret|].
  destruct (effect_checks r request action fence now) as [[network credential]|] eqn:Hc; [|by apply wp_ret].
  destruct (gr_Effects r !! hq_PlanEffectID request) as [prior|] eqn:He.
  - apply (keeps_mono (at_path P p)); [|done|done|done]. unfold ebind, lift_sys. keeps_steps; done.
  - apply wp_ebind. bool_props.
    eapply wp_mono; [eapply (update_keeps P R); [exact HP|exact Hp|done|done|done|by constructor; [|eapply effect_checks_planned|]]| |done].
    intros [[]|e] d' Hd'; [by apply wp_ret|done].
Qed.

Lemma terminalize_keeps P R p g launch request action response :
  stable P R -> keeps (at_path P p) (terminalize g launch request action response).
Proof.
  intros HP d Hp. unfold terminalize. cbn zeta.
  op_read P p (gate_path g (la_ExecutionID launch)); [|by apply wp_ret].
  destruct (gr_Effects r !! hq_PlanEffectID request) as [prior|] eqn:He; [|by apply wp_ret].
  wp_step; [by apply wp_ret|]. apply wp_ebind. bool_props.
  eapply wp_mono; [eapply (update_keeps P R); [exact HP|exact Hp|done|done|done|by apply step_terminal]| |done].
  intros [[]|e] d' Hd'; [by apply wp_ret|done].
Qed.

Lemma call_effect_keeps I client launch request action now resolver revalidate network credential :
  (forall d e, I d -> I (d_emit e d)) ->
  keeps I (call_effect client launch request action now resolver revalidate network credential).
Proof.
  intros He. unfold call_effect, performPinnedHTTPS, require.
  do 2 (apply keeps_ebind; [apply keeps_ret|intros ?]). apply keeps_ebind.
  - cbn zeta. do 2 (apply keeps_ebind; [apply keeps_ret|intros ?]). apply keeps_bind; [apply keeps_emit; auto|]. intros ?.
    apply keeps_ebind; [apply keeps_ret|]. intros. apply keeps_ret.
  - intros response. apply keeps_ebind; [apply keeps_ret|]. intros. apply keeps_ret.
Qed.

Lemma writeEffectResponse_keeps P g id g' stableID body :
  keeps (at_path P (gate_path g id)) (writeEffectResponse g' stableID body).
Proof. apply replace_file_other; [done|apply response_path_not_record|apply holds_some]. Qed.

Lemma recover_loop_keeps P R p g entries : stable P R -> keeps (at_path P p) (recover_loop g entries).
Proof.
  intros HP. induction entries as [|[name type] rest IH]; simpl; [apply keeps_ret|].
  keeps_step; [apply IH|]. intros d Hp. unfold ebind at 1. op_read P p (g_directory g, name); [|by apply wp_ret].
  apply wp_ebind.
  apply (wp_mono _ _ (fun _ => at_path P p) _ (at_path P p)); [| |done].
  - wp_step; [bool_props; eapply (update_keeps P R); [exact HP|exact Hp|done|done|done|by constructor]|].
    wp_step; [bool_props; eapply (update_keeps P R); [exact HP|exact Hp|done|done|done|by apply step_ambiguous_run]|]. by apply wp_ret.
  - intros [a|e] d' Hd'; [by apply IH|done].
Qed.

Lemma Open_keeps P R p directory : stable P R -> keeps (at_path P p) (Open directory).
Proof.
  intros HP. unfold Open, recoverInterruptedStates. keeps_step; [apply keeps_ret|]. apply keeps_ebind.
  - intros d Hp. unfold lift_sys. wp_step. wp_step; [done|by apply wp_ret|]. apply wp_ret.
    destruct (d_live d !! ("", directory)) as [i|] eqn:Hi; cbn [fst snd]; [done|]. apply always_upd; [done|].
    intros Heq. rewrite Heq in Hi. destruct (holds_some _ _ (always_live _ _ _ Hp)) as [j Hj]. congruence.
  - intros _. keeps_step; [keeps_steps; done|]. keeps_step; [|apply keeps_ret]. keeps_step; [apply keeps_ret|].
    apply keeps_ebind; [unfold lift_sys; keeps_steps; done|]. intros _. cbn zeta.
    apply keeps_ebind; [|intros; apply keeps_ret].
    apply keeps_ebind; [unfold lift_sys; keeps_steps; done|]. intros entries. by apply (recover_loop_keeps P R).
Qed.

(** ** What success means *)

Lemma openBoundFiles_wp bindings d :
  wp any (openBoundFiles bindings)
    (fun r d' => d' = d /\ forall files, r = Ok files ->
       Forall2 (fun b f => fl_name f = fb_Path b /\ d_live d !! split_path (fb_Path b) = Some (fl_inode f) /\
         i_kind (fl_inode f) = Regular /\ len (i_data (fl_inode f)) = fb_Size b /\
         digest (limit_read (MaxInputFileBytes + 1) (i_data (fl_inode f))) = fb_Digest b) bindings files)
    (fun d' => d' = d) d.
Proof.
  induction bindings as [|b rest IH]; simpl.
  { apply wp_ret. split; [done|]. intros files [= <-]. constructor. }
  assert (Hcall : forall e (k : unit -> IO (result (list File))) Q,
    (forall x, Q (Err x) d) -> wp any (k tt) Q (fun d' => d' = d) d ->
    wp any (ebind (lift_sys handle_call e) k) Q (fun d' => d' = d) d).
  { intros e k Q HQ Hk. apply wp_ebind. unfold lift_sys. wp_step. wp_step; [done|by apply wp_ret|]. by apply wp_ret. }
  apply wp_ebind. unfold lift_sys at 1. wp_step. wp_step; [done|by apply wp_ret|]. apply wp_ret.
  destruct (d_live d !! split_path (fb_Path b)) as [i|] eqn:Hi; [|done]. destruct (bool_decide (i_kind i = Symlink)) eqn:Hl; [done|].
  apply Hcall; [done|]. apply wp_require; [done|]. intros Hsize%fail_if_ok. apply Hcall; [done|].
  apply wp_require; [done|]. intros Hdigest%fail_if_ok. apply Hcall; [done|].
  apply wp_ebind. eapply wp_mono; [exact IH| |done]. intros [files|e] d' [-> Hf]; [|done]. apply wp_ret.
  split; [done|]. intros files' [= <-]. bool_props. constructor; [|by apply Hf]. done.
Qed.

(** A record that [Start] may start: it is prepared and its deadline has not
    passed, the ticket is the one issued for it, the fence is its writer's, and
    the action authorises exactly this ticket for exactly its execution. *)
Record startable (r : gateRecord) (ticket : Ticket) (fence : WriterFence) (action : AuthorizedAction) (now : Z) : Prop := {
  sb_prepared : gr_State r = "PREPARED";
  sb_unexpired : now < sint64 (gr_StartNotAfterUnix r) * 1000000000;
  sb_plan : tk_PlanDigest ticket = gr_PlanDigest r;
  sb_secret : tk_Secret ticket = gr_TicketSecret r;
  sb_deadline : tk_StartNotAfterUnix ticket = gr_StartNotAfterUnix r;
  sb_writer : wf_WriterGeneration fence = pl_WriterGeneration (gr_Plan r);
  sb_kind : aa_ActionKind action = "execution.start";
  sb_authorised : exists canonical, codec_Marshal_ticket ticket = Ok canonical /\
    VerifyAuthorizedAction action
      {[ "owner_id" := SV_ID (pl_OwnerID (gr_Plan r)); "agent_id" := SV_ID (pl_AgentID (gr_Plan r));
         "execution_id" := SV_Digest32 (pl_ExecutionID (gr_Plan r)) ]} canonical fence now = Ok tt;
}.

(** A launch that is the record's plan with its inputs opened: every input is a
    regular file of the bound size and digest. *)
Record launched_from (r : gateRecord) (d : disk) (launch : Launch) : Prop := {
  lf_execution : la_ExecutionID launch = pl_ExecutionID (gr_Plan r);
  lf_plan : la_PlanDigest launch = gr_PlanDigest r;
  lf_secret : la_TicketSecret launch = gr_TicketSecret r;
  lf_policy : la_LeaseLossPolicy launch = pl_LeaseLossPolicy (gr_Plan r);
  lf_bindings : la_NetworkBindings launch = pl_NetworkBindings (gr_Plan r) /\
    la_CredentialBindings launch = pl_CredentialBindings (gr_Plan r) /\ la_EffectBindings launch = pl_EffectBindings (gr_Plan r);
  lf_files : Forall2 (fun b f => fl_name f = fb_Path b /\ d_live d !! split_path (fb_Path b) = Some (fl_inode f) /\
      i_kind (fl_inode f) = Regular /\ len (i_data (fl_inode f)) = fb_Size b /\
      digest (limit_read (MaxInputFileBytes + 1) (i_data (fl_inode f))) = fb_Digest b)
      (pl_Files (gr_Plan r)) (la_Files launch);
}.

(** What a successful start was given and what it leaves. *)
Definition start_facts (g : Gate) (ticket : Ticket) (fence : WriterFence) (action : AuthorizedAction) (now : Z)
    (d : disk) (launch : Launch) (d' : disk) : Prop :=
  VerifyWriterFence fence now "execution.start" = Ok tt /\ ConfirmCurrentWriterFence fence now = Ok tt /\
  exists r i, d_live d !! gate_path g (tk_ExecutionID ticket) = Some i /\ json_unmarshal (i_data i) = Some r /\
    valid_record r = true /\ startable r ticket fence action now /\ launched_from r d launch /\
    always d' (gate_path g (tk_ExecutionID ticket))
      (fun v => v = Some (json_file (started r (aa_StableActionID action) (aa_ExactRequestDigest action)))).

Lemma start_checks_startable r ticket fence action now :
  start_checks r ticket fence action now = Ok tt -> startable r ticket fence action now.
Proof.
  unfold start_checks, startAuthorizationMaterial. intros Hc. destruct (codec_Marshal_ticket ticket) as [canonical|] eqn:Hm; [|result_inv; done].
  cbn [rbind] in Hc. result_inv. bool_props. destruct (VerifyAuthorizedAction _ _ _ _ _) as [[]|] eqn:Hv; [|done].
  unfold before in *. bool_props. constructor; try done. exists canonical. split; [done|]. exact Hv.
Qed.

Lemma Start_wp g ticket fence action now d :
  wp any (Start g ticket fence action now)
    (fun x d' => forall launch, x = Ok launch -> start_facts g ticket fence action now d launch d') (fun _ => True) d.
Proof.
  unfold Start. wp_step; [by apply wp_ret|]. apply wp_require; [done|]. intros Hv. apply wp_require; [done|]. intros Hcf.
  cbn zeta. apply wp_ebind. eapply wp_mono; [apply readRecord_wp| |done]. intros [r|e] d1 [-> Hr]; [|done].
  destruct (Hr r eq_refl) as (Hvr & _ & i & Hi & _ & Hj). apply wp_require; [done|]. intros Hc.
  apply wp_ebind. eapply wp_mono; [apply openBoundFiles_wp| |done]. intros [files|e] d1 [-> Hf]; [|done].
  apply wp_ebind. eapply wp_mono; [apply (replace_file_wp ".gate-" _ _ d (fun _ => True)); try done; by exists i| |done].
  intros [[]|e] d' [_ Hd']; [|done]. apply wp_ret. intros launch [= <-]. split; [done|]. split; [done|].
  exists r, i. split_and!; try done; [by apply start_checks_startable|by constructor; [..|apply Hf]|by apply Hd'].
Qed.

Definition submit_facts (g : Gate) (launch : Launch) (request : HTTPSRequest) (action : AuthorizedAction)
    (fence : WriterFence) (now : Z) (d : disk) (network : NetworkBinding) (credential : option CredentialBinding)
    (d' : disk) : Prop :=
  exists r i, d_live d !! gate_path g (la_ExecutionID launch) = Some i /\ json_unmarshal (i_data i) = Some r /\
    gr_State r = StateRunning /\ gr_PlanDigest r = la_PlanDigest launch /\ gr_TicketSecret r = la_TicketSecret launch /\
    effect_checks r request action fence now = Some (network, credential) /\
    gr_Effects r !! hq_PlanEffectID request = None /\
    always d' (gate_path g (la_ExecutionID launch))
      (fun v => v = Some (json_file (with_effect r (hq_PlanEffectID request)
                 (submitted_effect (aa_StableActionID action) (aa_ExactRequestDigest action))))).

Lemma submit_wp g launch request action fence now d :
  wp any (submit g launch request action fence now)
    (fun x d' => forall network credential, x = Ok (Submitted network credential) ->
       submit_facts g launch request action fence now d network credential d') (fun _ => True) d.
Proof.
  unfold submit. wp_step; [by apply wp_ret|]. cbn zeta. wp_step. eapply wp_mono; [apply readRecord_wp| |done].
  intros [r|e] d1 [-> Hr]; [|by apply wp_ret]. destruct (Hr r eq_refl) as (_ & _ & i & Hi & _ & Hj).
  wp_step; [by apply wp_ret|]. bool_props.
  destruct (effect_checks r request action fence now) as [[nw cr]|] eqn:Hc; [|by apply wp_ret].
  destruct (gr_Effects r !! hq_PlanEffectID request) as [prior|] eqn:He.
  { unfold ebind, lift_sys. wp_steps; try done; intros nw' cr' [=]. }
  apply wp_ebind. eapply wp_mono; [apply (replace_file_wp ".gate-" _ _ d (fun _ => True)); try done; by exists i| |done].
  intros [[]|e] d' [_ Hd']; [|done]. apply wp_ret. intros nw' cr' [= <- <-]. exists r, i. split_and!; try done. by apply Hd'.
Qed.

(** ** Histories

    A call of the gate as one atomic step.  [PerformHTTPS] releases the lock
    around the network call, so that its sections are separate steps that
    interleave with every other call. *)
Inductive call :=
| C_Open (directory : string)
| C_Prepare (plan : Plan) (fence : WriterFence) (lifetime : Z) (action : AuthorizedAction) (now : Z)
| C_Start (ticket : Ticket) (fence : WriterFence) (action : AuthorizedAction) (now : Z)
| C_MarkRunning (launch : Launch)
| C_Complete (launch : Launch) (terminal outcomeDigest : string)
| C_Inspect (executionID : string)
| C_submit (launch : Launch) (request : HTTPSRequest) (action : AuthorizedAction) (fence : WriterFence) (now : Z)
| C_call (client : HttpClient) (launch : Launch) (request : HTTPSRequest) (action : AuthorizedAction) (now : Z)
    (resolver : CredentialResolver) (revalidate : result unit) (network : NetworkBinding) (credential : option CredentialBinding)
| C_writeEffectResponse (stableID : string) (body : bytes)
| C_terminalize (launch : Launch) (request : HTTPSRequest) (action : AuthorizedAction) (response : HTTPSResponse).

(** What a step that ended reports: the start of an execution, the submission of
    an effect, or nothing of the two. *)
Inductive reply := R_started (executionID : string) | R_submitted (key : string * string) | R_other.

Definition reports {A} (m : IO A) (f : A -> reply) : IO reply := a ← m; mret (f a).
Definition quiet {A} (m : IO A) : IO reply := reports m (fun _ => R_other).

Definition perform (g : Gate) (c : call) : IO reply :=
  match c with
  | C_Open directory => quiet (Open directory)
  | C_Prepare plan fence lifetime action now => quiet (Prepare g plan fence lifetime action now)
  | C_Start ticket fence action now =>
      reports (Start g ticket fence action now)
        (fun r => if is_ok r then R_started (tk_ExecutionID ticket) else R_other)
  | C_MarkRunning launch => quiet (MarkRunning g launch)
  | C_Complete launch terminal outcome => quiet (Complete g launch terminal outcome)
  | C_Inspect id => quiet (Inspect g id)
  | C_submit launch request action fence now =>
      reports (submit g launch request action fence now)
        (fun r => match r with
                  | Ok (Submitted _ _) => R_submitted (la_ExecutionID launch, hq_PlanEffectID request)
                  | _ => R_other
                  end)
  | C_call client launch request action now resolver revalidate network credential =>
      quiet (call_effect client launch request action now resolver revalidate network credential)
  | C_writeEffectResponse stableID body => quiet (writeEffectResponse g stableID body)
  | C_terminalize launch request action response => quiet (terminalize g launch request action response)
  end.

(** The disk, the executions that started, and the effects submitted by calls
    that have not gone to the network yet. *)
Record history := History { h_disk : disk; h_started : list string; h_inflight : list (string * string) }.

Definition enabled (h : history) (c : call) : Prop :=
  match c with C_call _ launch request _ _ _ _ _ _ => (la_ExecutionID launch, hq_PlanEffectID request) ∈ h_inflight h | _ => True end.

Definition leaves (h : history) (c : call) : list (string * string) :=
  match c with
  | C_call _ launch request _ _ _ _ _ _ =>
      filter (fun k => k <> (la_ExecutionID launch, hq_PlanEffectID request)) (h_inflight h)
  | _ => h_inflight h
  end.

(** The calls in progress die with the process. *)
Definition after (h : history) (c : call) (r : outcome reply * world) : history :=
  match r with
  | (Done (R_started id), w) => History (w_disk w) (id :: h_started h) (leaves h c)
  | (Done (R_submitted key), w) => History (w_disk w) (h_started h) (key :: leaves h c)
  | (Done R_other, w) => History (w_disk w) (h_started h) (leaves h c)
  | (Crashed, w) => History (w_disk w) (h_started h) []
  end.

Inductive gate_event (dir : string) (h : history) : history -> Prop :=
| event_call g c w : g_directory g = dir -> enabled h c -> w_disk w = h_disk h -> gate_event dir h (after h c (perform g c w))
| event_power_loss d' : power_loss (h_disk h) d' -> gate_event dir h (History d' (h_started h) []).

Lemma reports_keeps {A} I (m : IO A) f : keeps I m -> keeps I (reports m f).
Proof. intros Hm. apply keeps_bind; [done|]. intros. apply keeps_ret. Qed.

Lemma Inspect_keeps I g id : keeps I (Inspect g id).
Proof.
  unfold Inspect. keeps_step; [apply keeps_ret|]. apply keeps_ebind; [apply readRecord_keeps|]. intros. apply keeps_ret.
Qed.

(** Every call moves every stored record along the protocol only. *)
Lemma perform_keeps P R g0 id g c : stable P R -> keeps (at_path P (gate_path g0 id)) (perform g c).
Proof.
  intros HP. destruct c; cbn [perform]; apply reports_keeps;
    eauto using Open_keeps, Prepare_keeps, Start_keeps, MarkRunning_keeps, Complete_keeps, Inspect_keeps, submit_keeps,
      writeEffectResponse_keeps, terminalize_keeps.
  apply call_effect_keeps. by intros.
Qed.

Lemma event_keeps P R dir h h' g id :
  stable P R -> gate_event dir h h' -> at_path P (gate_path g id) (h_disk h) -> at_path P (gate_path g id) (h_disk h').
Proof.
  intros HP [g1 c w Hg Hen Hw|d' Hpl] Hp; [|by eapply at_path_power_loss].
  pose proof (keeps_run (at_path P (gate_path g id)) _ w (perform_keeps P R g id g1 c HP)) as Hk. rewrite Hw in Hk.
  specialize (Hk Hp). by destruct (perform g1 c w) as [[[|?|]|] w'].
Qed.

Lemma history_keeps P R dir h h' g id :
  stable P R -> rtc (gate_event dir) h h' -> at_path P (gate_path g id) (h_disk h) -> at_path P (gate_path g id) (h_disk h').
Proof. intros HP Hh. induction Hh as [|h1 h2 h3 Hs _ IH]; [done|]. intros Hp. by eapply IH, event_keeps. Qed.

(** ** Predicates the protocol preserves *)

Definition was_started (r : gateRecord) : Prop := gr_State r <> StatePrepared.
Definition has_effect (id : string) (r : gateRecord) : Prop := is_Some (gr_Effects r !! id).
Definition ended (s o d : string) (r : gateRecord) : Prop := gr_State r = s /\ gr_OutcomeDigest r = o /\ gr_PlanDigest r = d.

Lemma was_started_closed : closed was_started.
Proof.
  intros r r' Hr Hs. unfold was_started in *. destruct Hs; cbn; try done. intros ->. done.
Qed.

Lemma has_effect_closed id : closed (has_effect id).
Proof.
  intros r r' Hr Hs. unfold has_effect in *. destruct Hs; cbn; try done;
    (destruct (decide (id0 = id)) as [->|]; [rewrite lookup_insert_eq; by eexists|by rewrite lookup_insert_ne]).
Qed.

Lemma ended_closed s o d : terminalState s = true -> closed (ended s o d).
Proof.
  intros Ht r r' (<- & <- & <-) Hs. destruct Hs; try done;
    match goal with Hst : gr_State _ = _ |- _ => rewrite Hst in Ht; done end.
Qed.

(** ** The outside world *)

Lemma replace_file_log pattern p raw l : keeps (log_is l) (replace_file pattern p raw).
Proof.
  unfold replace_file, replace_body, syncParentDirectory, ebind, lift_sys. keeps_steps; keeps_log.
Qed.

Lemma openBoundFiles_log l bindings : keeps (log_is l) (openBoundFiles bindings).
Proof. apply openBoundFiles_keeps. Qed.

Lemma recover_loop_log l g entries : keeps (log_is l) (recover_loop g entries).
Proof.
  induction entries as [|[name type] rest IH]; simpl; [apply keeps_ret|]. keeps_step; [apply IH|].
  apply keeps_ebind; [apply readRecord_keeps|]. intros entry. apply keeps_ebind; [|intros; apply IH].
  keeps_step; [apply replace_file_log|]. keeps_step; [apply replace_file_log|apply keeps_ret].
Qed.

Lemma createRecord_log l p entry : keeps (log_is l) (createRecord p entry).
Proof. unfold createRecord, syncParentDirectory, ebind, lift_sys. keeps_steps; keeps_log. Qed.

Ltac log_steps :=
  repeat first
    [ apply keeps_ret | apply readRecord_keeps | apply replace_file_log | apply openBoundFiles_log | apply randomSecret_keeps
    | apply createRecord_log | apply recover_loop_log
    | apply keeps_ebind; [|intros ?] | keeps_step ]; cbn zeta; keeps_log.

(** Only a network call touches the log. *)
Lemma perform_log l g c : (forall a b e f i j k m n, c <> C_call a b e f i j k m n) -> keeps (log_is l) (perform g c).
Proof.
  intros Hc. destruct c; cbn [perform]; apply reports_keeps.
  - unfold Open, recoverInterruptedStates, lift_sys. log_steps.
  - unfold Prepare, require, replaceRecord. log_steps.
  - unfold Start, require, replaceRecord. log_steps.
  - unfold MarkRunning, transition, replaceRecord. log_steps.
  - unfold Complete, transition, replaceRecord. log_steps.
  - apply Inspect_keeps.
  - unfold submit, replaceRecord, lift_sys. log_steps.
  - by edestruct Hc.
  - apply replace_file_log.
  - unfold terminalize, replaceRecord. log_steps.
Qed.

(** A network call adds its own effect, at most once. *)
Lemma call_log client launch request action now resolver revalidate network credential d :
  wp any (call_effect client launch request action now resolver revalidate network credential)
    (fun _ d' => d_log d' = d_log d \/ d_log d' = (la_ExecutionID launch, hq_PlanEffectID request) :: d_log d)
    (fun _ => False) d.
Proof.
  unfold call_effect, performPinnedHTTPS, require, ebind. wp_steps; auto.
Qed.

(** ** The invariant of histories *)

Definition sent (h : history) : list (string * string) := h_inflight h ++ d_log (h_disk h).

Record once (g : Gate) (h : history) : Prop := {
  on_started : NoDup (h_started h);
  on_started_durable : forall id, id ∈ h_started h -> at_path (reads was_started) (gate_path g id) (h_disk h);
  on_sent : NoDup (sent h);
  on_sent_durable : forall id e, (id, e) ∈ sent h -> at_path (reads (has_effect e)) (gate_path g id) (h_disk h);
}.

Lemma gate_path_dir g g' id : g_directory g = g_directory g' -> gate_path g id = gate_path g' id.
Proof. intros Hd. unfold gate_path. by rewrite Hd. Qed.

(** The steps other than a start, a submission and a network call add nothing. *)
Lemma once_shrink g dir h h' :
  g_directory g = dir -> gate_event dir h h' -> h_started h' = h_started h -> sublist (sent h') (sent h) ->
  once g h -> once g h'.
Proof.
  intros Hg Hev Hs Hl [H1 H2 H3 H4]. constructor.
  - by rewrite Hs.
  - rewrite Hs. intros id Hin. eapply event_keeps; [apply reads_stable, was_started_closed|exact Hev|by apply H2].
  - by eapply sublist_NoDup.
  - intros id e Hin. eapply event_keeps; [apply reads_stable, has_effect_closed|exact Hev|]. apply H4. by eapply elem_of_sublist.
Qed.

Lemma once_start g dir h ticket fence action now w launch w' :
  g_directory g = dir -> w_disk w = h_disk h -> Start g ticket fence action now w = (Done (Ok launch), w') ->
  once g h -> once g (History (w_disk w') (tk_ExecutionID ticket :: h_started h) (h_inflight h)).
Proof.
  intros Hg Hw Hst [H1 H2 H3 H4].
  pose proof (wp_run _ _ _ w (Start_wp g ticket fence action now (w_disk w))) as Hf. rewrite Hst in Hf.
  destruct (Hf launch eq_refl) as (_ & _ & r & i & Hi & Hj & _ & Hc & _ & Hal). rewrite Hw in Hi.
  assert (Hev : gate_event dir h (History (w_disk w') (tk_ExecutionID ticket :: h_started h) (h_inflight h))).
  { pose proof (event_call dir h g (C_Start ticket fence action now) w Hg I Hw) as He.
    cbn [perform] in He. unfold reports, mbind, io_bind in He. rewrite Hst in He. exact He. }
  assert (Hlog : d_log (w_disk w') = d_log (h_disk h)).
  { pose proof (keeps_run (log_is (d_log (h_disk h))) _ w (perform_log _ g (C_Start ticket fence action now) ltac:(done))) as Hk.
    cbn [perform] in Hk. unfold reports, mbind, io_bind in Hk. rewrite Hst, Hw in Hk. by apply Hk. }
  constructor; cbn [h_started h_disk].
  - constructor; [|done]. intros Hin. apply sb_prepared in Hc.
    exact (at_path_read _ _ _ _ _ _ _ (reads_stable _ was_started_closed) (H2 _ Hin) Hi Hj Hc).
  - intros id [->|Hin]%elem_of_cons.
    + eapply always_mono; [exact Hal|]. intros v ->. eexists. split; [done|]. split; [exact (proj2 (decoded_clean _ _ Hj))|].
      rewrite text_started. unfold was_started. cbn [started advance gr_State]. done.
    + exact (event_keeps _ _ _ _ _ _ _ (reads_stable _ was_started_closed) Hev (H2 _ Hin)).
  - unfold sent in *. cbn [h_inflight h_disk]. by rewrite Hlog.
  - intros id e Hin. apply (event_keeps _ _ _ _ _ _ _ (reads_stable _ (has_effect_closed e)) Hev), H4.
    unfold sent in *. cbn [h_inflight h_disk] in Hin. by rewrite Hlog in Hin.
Qed.

Lemma perform_log_run g c w a w' l :
  (forall a b e f i j k m n, c <> C_call a b e f i j k m n) -> perform g c w = (a, w') -> d_log (w_disk w) = l ->
  d_log (w_disk w') = l.
Proof.
  intros Hc Hp Hl. pose proof (keeps_run (log_is l) _ w (perform_log l g c Hc) Hl) as Hk. by rewrite Hp in Hk.
Qed.

Lemma once_submit g dir h launch request action fence now w network credential w' :
  g_directory g = dir -> w_disk w = h_disk h ->
  submit g launch request action fence now w = (Done (Ok (Submitted network credential)), w') ->
  once g h ->
  once g (History (w_disk w') (h_started h) ((la_ExecutionID launch, hq_PlanEffectID request) :: h_inflight h)).
Proof.
  intros Hg Hw Hsub [H1 H2 H3 H4].
  pose proof (wp_run _ _ _ w (submit_wp g launch request action fence now (w_disk w))) as Hf. rewrite Hsub in Hf.
  destruct (Hf network credential eq_refl) as (r & i & Hi & Hj & _ & _ & _ & Hck & Hnone & Hal). rewrite Hw in Hi.
  set (c := C_submit launch request action fence now).
  assert (Hrun : perform g c w = (Done (R_submitted (la_ExecutionID launch, hq_PlanEffectID request)), w')).
  { unfold c. cbn [perform]. unfold reports, mbind, io_bind. by rewrite Hsub. }
  pose proof (event_call dir h g c w Hg I Hw) as Hev. rewrite Hrun in Hev. cbn [after leaves c] in Hev.
  assert (Hlog : d_log (w_disk w') = d_log (h_disk h)) by (eapply (perform_log_run g c); [done|exact Hrun|by rewrite Hw]).
  constructor; cbn [h_started h_disk].
  - done.
  - intros id Hin. exact (event_keeps _ _ _ _ _ _ _ (reads_stable _ was_started_closed) Hev (H2 _ Hin)).
  - unfold sent in *. cbn [h_inflight h_disk app]. rewrite Hlog. constructor; [|done]. intros Hin.
    destruct (at_path_read _ _ _ _ _ _ _ (reads_stable _ (has_effect_closed _)) (H4 _ _ Hin) Hi Hj) as [e He]. congruence.
  - intros id e Hin. unfold sent in *. cbn [h_inflight h_disk app] in Hin. rewrite Hlog in Hin.
    apply elem_of_cons in Hin as [[= -> ->]|Hin].
    + eapply always_mono; [exact Hal|]. intros v ->. eexists. split; [done|]. pose proof (decoded_clean _ _ Hj) as Hcl. split.
      * apply keys_with_effect; [apply Hcl|]. eapply clean_effect_id; [exact Hcl|by eapply effect_checks_planned].
      * rewrite text_with_effect. unfold has_effect. cbn. rewrite lookup_insert_eq. by eexists.
    + exact (event_keeps _ _ _ _ _ _ _ (reads_stable _ (has_effect_closed e)) Hev (H4 _ _ Hin)).
Qed.

Lemma once_call g dir h client launch request action now resolver revalidate network credential w :
  g_directory g = dir -> w_disk w = h_disk h ->
  (la_ExecutionID launch, hq_PlanEffectID request) ∈ h_inflight h -> once g h ->
  let c := C_call client launch request action now resolver revalidate network credential in
  once g (after h c (perform g c w)).
Proof.
  intros Hg Hw Hin Ho c. set (key := (la_ExecutionID launch, hq_PlanEffectID request)) in *.
  pose proof (event_call dir h g c w Hg Hin Hw) as Hev.
  pose proof (wp_run _ _ _ w (call_log client launch request action now resolver revalidate network credential (w_disk w))) as Hl.
  assert (Hrun : exists w', perform g c w = (Done R_other, w') /\
    (d_log (w_disk w') = d_log (h_disk h) \/ d_log (w_disk w') = key :: d_log (h_disk h))).
  { unfold c. cbn [perform]. unfold quiet, reports, mbind, io_bind. rewrite Hw in Hl.
    destruct (call_effect _ _ _ _ _ _ _ _ _ w) as [[a|] w']; [|done]. eauto. }
  destruct Hrun as (w' & Hrun & Hlog). rewrite Hrun in *. cbn [after leaves c] in *. destruct Ho as [H1 H2 H3 H4].
  unfold sent in H3. apply NoDup_app in H3 as (Hn1 & Hn2 & Hn3).
  assert (Hsent : forall x, x ∈ sent (History (w_disk w') (h_started h) (filter (fun k => k <> key) (h_inflight h))) -> x ∈ sent h).
  { intros x Hx. unfold sent in *. cbn [h_inflight h_disk] in Hx. apply elem_of_app in Hx as [Hx|Hx].
    - apply list_elem_of_filter in Hx as [_ Hx]. apply elem_of_app. by left.
    - apply elem_of_app. destruct Hlog as [E|E]; rewrite E in Hx; [by right|].
      apply elem_of_cons in Hx as [->|Hx]; [by left|by right]. }
  constructor; cbn [h_started h_disk].
  - done.
  - intros id Hi. exact (event_keeps _ _ _ _ _ _ _ (reads_stable _ was_started_closed) Hev (H2 _ Hi)).
  - unfold sent. cbn [h_inflight h_disk]. apply NoDup_app. split_and!.
    + by apply NoDup_filter.
    + intros x [Hx1 Hx2]%list_elem_of_filter. destruct Hlog as [E|E]; rewrite E; [by apply Hn2|].
      intros [->|Hx3]%elem_of_cons; [done|]. by apply (Hn2 x).
    + destruct Hlog as [E|E]; rewrite E; [done|]. constructor; [|done]. by apply Hn2.
  - intros id e Hi. exact (event_keeps _ _ _ _ _ _ _ (reads_stable _ (has_effect_closed e)) Hev (H4 _ _ (Hsent _ Hi))).
Qed.

(** Every event keeps the invariant. *)
Lemma once_event g dir h h' : g_directory g = dir -> gate_event dir h h' -> once g h -> once g h'.
Proof.
  intros Hg Hev Ho. pose proof Hev as Hev'. destruct Hev as [g1 c w Hg1 Hen Hw|d' Hpl].
  - assert (Hg' : forall id, gate_path g1 id = gate_path g id) by (intros; apply gate_path_dir; congruence).
    assert (Hsame : forall x, once g1 x <-> once g x).
    { intros x. split; intros [X1 X2 X3 X4]; constructor; try done; intros; first [rewrite <- Hg'|rewrite Hg']; auto. }
    apply Hsame. apply Hsame in Ho.
    destruct (perform g1 c w) as [o w'] eqn:Hrun.
    assert (Hcase : (exists a b e f i j k m n, c = C_call a b e f i j k m n) \/ (forall a b e f i j k m n, c <> C_call a b e f i j k m n))
      by (destruct c; first [right; done|left; by eexists _, _, _, _, _, _, _, _, _]).
    destruct Hcase as [(a & b & e & f & i & j & k & m & n & ->)|Hcase].
    { rewrite <- Hrun. by eapply once_call. }
    assert (Hlog : d_log (w_disk w') = d_log (h_disk h)) by (eapply (perform_log_run g1 c); [done|exact Hrun|by rewrite Hw]).
    assert (Hleave : leaves h c = h_inflight h) by (destruct c; try done; by edestruct Hcase).
    destruct o as [[id|key|]|].
    + destruct c; cbn [perform] in Hrun; unfold quiet, reports, mbind, io_bind, mret, io_ret in Hrun;
        try (repeat case_match; simplify_eq; fail).
      destruct (Start _ _ _ _ _ _) as [[[launch|e]|] w1] eqn:Hst; simplify_eq/=. by eapply once_start.
    + destruct c; cbn [perform] in Hrun; unfold quiet, reports, mbind, io_bind, mret, io_ret in Hrun;
        try (repeat case_match; simplify_eq; fail).
      destruct (submit _ _ _ _ _ _ _) as [[[[resp|nw cr]|e]|] w1] eqn:Hst; simplify_eq/=. by eapply once_submit.
    + apply (once_shrink g1 dir h); [done|done|done| |done]. unfold sent. cbn. by rewrite Hleave, Hlog.
    + apply (once_shrink g1 dir h); [done|done|done| |done]. unfold sent. cbn. rewrite Hlog. by apply sublist_inserts_l.
  - apply (once_shrink g dir h); [done|done|done| |done]. unfold sent. cbn. destruct Hpl as (_ & -> & _). by apply sublist_inserts_l.
Qed.

Lemma once_history g dir d h :
  g_directory g = dir -> d_log d = [] -> rtc (gate_event dir) (History d [] []) h -> once g h.
Proof.
  intros Hg Hlog Hh.
  assert (Hinit : once g (History d [] [])).
  { constructor; unfold sent; cbn; rewrite ?Hlog; try constructor;
      intros; by match goal with H1 : _ ∈ [] |- _ => apply elem_of_nil in H1 end. }
  remember (History d [] []) as h0 eqn:E. clear E Hlog. induction Hh as [|h1 h2 h3 Hs _ IH]; [done|].
  apply IH. by eapply once_event.
Qed.

(** ** Recovery *)

Definition state_in_flight (s : string) : Prop := s = StateStarting \/ s = StateRunning.
Definition in_flight (r : gateRecord) : Prop := state_in_flight (gr_State r).

(** The file under the name, if it is a record, is not in flight. *)
Definition settled_at (p : path) (d : disk) : Prop :=
  forall i r, d_live d !! p = Some i -> i_kind i = Regular -> json_unmarshal (i_data i) = Some r -> ~ in_flight r.

(** A name no temporary file has. *)
Definition plain_name (p : path) : Prop := has_prefix p.2 ".gate-" = false.

Lemma replaceRecord_live p q entry v :
  q <> p -> plain_name p -> keeps (fun d => d_live d !! p = v) (replaceRecord q entry).
Proof.
  intros Hq Hpl d Hp. unfold replaceRecord, replace_file. apply wp_ebind. unfold lift_sys. apply wp_bind.
  wp_step; [done|by apply wp_ret|]. apply wp_ret.
  assert (Hne : t <> p).
  { intros ->. unfold plain_name in Hpl. destruct (temp_name_pattern q.1 ".gate-" digits d) as (s & Hs & _).
    rewrite Htemp, Hs in Hpl. cbn [snd] in Hpl. by rewrite has_prefix_app in Hpl. }
  assert (Hu : forall s v' d, s <> p -> d_live d !! p = v -> d_live (d_upd s v' d) !! p = v) by (intros; by rewrite live_upd_ne).
  assert (Hm : forall f d, d_live d !! p = v -> d_live (d_mod t f d) !! p = v) by (intros; by rewrite live_mod_ne).
  apply (keeps_mono (fun d => d_live d !! p = v)); [|by rewrite live_upd_ne|done|done].
  unfold replace_body, syncParentDirectory, ebind, lift_sys. keeps_steps; repeat case_match; cbn [fst snd]; auto.
Qed.

Lemma settled_ambiguous d p entry s o :
  json_keys entry = true -> s <> StateStarting -> s <> StateRunning -> always d p (fun v => v = Some (json_file (moved entry s o))) -> settled_at p d.
Proof.
  intros Hk H1 H2 Hal i r Hi _ Hj. rewrite (always_live _ _ _ Hal) in Hi. injection Hi as <-.
  cbn [json_file plain_file i_data] in Hj. rewrite json_reads in Hj by exact Hk. injection Hj as <-. rewrite text_moved.
  unfold in_flight, state_in_flight. cbn [moved advance gr_State]. intros [Hs|Hs]; by apply utf8_fix_ascii_inv in Hs.
Qed.

(** The treatment of one record. *)
Definition recover_one (p : path) (entry : gateRecord) : IO (result unit) :=
  if gr_State entry =s? StateStarting then replaceRecord p (moved entry StateAmbiguousStart (gr_OutcomeDigest entry))
  else if gr_State entry =s? StateRunning then replaceRecord p (moved entry StateAmbiguousRun (gr_OutcomeDigest entry))
  else mret (Ok tt).

Lemma recover_one_wp p entry d i :
  d_live d !! p = Some i -> json_unmarshal (i_data i) = Some entry ->
  wp any (recover_one p entry) (fun r d' => r = Ok tt -> settled_at p d') (fun _ => True) d.
Proof.
  intros Hi Hj. unfold recover_one.
  assert (Hrep : forall s o, s <> StateStarting -> s <> StateRunning ->
    wp any (replaceRecord p (moved entry s o)) (fun r d' => r = Ok tt -> settled_at p d') (fun _ => True) d).
  { intros s o H1 H2. eapply wp_mono; [apply (replace_file_wp ".gate-" p _ d (fun _ => True)); try done; by exists i| |done].
    intros r d' [_ Hd'] Hr. eapply settled_ambiguous; [exact (proj2 (decoded_clean _ _ Hj))|done|done|by apply Hd']. }
  wp_step; [by apply Hrep|]. wp_step; [by apply Hrep|]. apply wp_ret. intros _ i' r Hi' _ Hj'. bool_props.
  rewrite Hi in Hi'. injection Hi' as <-. rewrite Hj in Hj'. injection Hj' as <-. by intros [Hs|Hs].
Qed.

Lemma recover_one_settled p q entry d i :
  plain_name p -> d_live d !! q = Some i -> i_kind i = Regular -> json_unmarshal (i_data i) = Some entry -> settled_at p d ->
  wp any (recover_one q entry) (fun _ => settled_at p) (fun _ => True) d.
Proof.
  intros Hpl Hi Hk Hj Hs. destruct (decide (q = p)) as [->|Hne].
  - assert (Hn : ~ in_flight entry) by eauto. unfold recover_one. unfold in_flight, state_in_flight in Hn.
    rewrite !(proj2 (String.eqb_neq _ _)) by tauto. by apply wp_ret.
  - assert (Hlive : forall v, keeps (fun d => d_live d !! p = v) (recover_one q entry)).
    { intros v. unfold recover_one. keeps_step; [by apply replaceRecord_live|].
      keeps_step; [by apply replaceRecord_live|apply keeps_ret]. }
    eapply wp_mono; [apply (Hlive (d_live d !! p) d eq_refl)| |done]. intros x d' Hd' i' r Hi'; cbn beta in Hd'. rewrite Hd' in Hi'. eauto.
Qed.

Lemma recover_loop_settled p g entries d :
  plain_name p -> settled_at p d -> wp any (recover_loop g entries) (fun _ => settled_at p) (fun _ => True) d.
Proof.
  intros Hpl. revert d. induction entries as [|[name type] rest IH]; intros d Hs; simpl; [by apply wp_ret|].
  wp_step; [by apply IH|]. apply wp_ebind. eapply wp_mono; [apply readRecord_wp| |done].
  intros [entry|e] d1 [-> Hr]; [|done]. destruct (Hr entry eq_refl) as (_ & _ & i & Hi & Hk & Hj).
  apply wp_ebind. fold (recover_one (g_directory g, name) entry).
  eapply wp_mono; [by eapply recover_one_settled|intros [a|e] d1 Hd1; [by apply IH|done]|done].
Qed.

Lemma recover_loop_wp name g entries d :
  plain_name (g_directory g, name) -> has_suffix name ".json" = true -> len name = 69 -> (name, Regular) ∈ entries ->
  wp any (recover_loop g entries) (fun r d' => r = Ok tt -> settled_at (g_directory g, name) d') (fun _ => True) d.
Proof.
  intros Hpl Hsuf Hlen. revert d. induction entries as [|[name' type] rest IH]; intros d Hin; [by apply elem_of_nil in Hin|].
  simpl. destruct (decide ((name', type) = (name, Regular))) as [[= -> ->]|Hne].
  - rewrite Hsuf, Hlen. change (negb (bool_decide (Regular = Regular)) || negb true || negb (69 =? 64 + 5)) with false.
    cbn iota. apply wp_ebind. eapply wp_mono; [apply readRecord_wp| |done].
    intros [entry|e] d1 [-> Hr]; [|done]. destruct (Hr entry eq_refl) as (_ & _ & i & Hi & _ & Hj).
    apply wp_ebind. fold (recover_one (g_directory g, name) entry).
    eapply wp_mono; [by eapply recover_one_wp| |done]. intros [[]|e] d1 Hd1; [|done].
    eapply wp_mono; [apply recover_loop_settled; [done|by apply Hd1]|done|done].
  - assert (Hrest : (name, Regular) ∈ rest) by (apply elem_of_cons in Hin as [Heq|?]; [congruence|done]).
    wp_step; [by apply IH|]. apply wp_ebind. eapply wp_mono; [apply readRecord_wp| |done].
    intros [entry|e] d1 [-> Hr]; [|done]. apply wp_ebind.
    eapply wp_mono; [apply wp_true| |done]. intros [[]|e] d1 _; [by apply IH|done].
Qed.

Lemma names_in_elem dir name d : name ∈ names_in dir d <-> is_Some (d_live d !! (dir, name)).
Proof.
  unfold names_in. rewrite merge_sort_Permutation. rewrite list_elem_of_fmap. split.
  - intros ([[dir' n] i] & -> & Hin). apply list_elem_of_filter in Hin as [Hd Hin]. simpl in *. subst dir'.
    apply elem_of_map_to_list in Hin. by eexists.
  - intros [i Hi]. exists ((dir, name), i). split; [done|]. apply list_elem_of_filter. split; [done|].
    by apply elem_of_map_to_list.
Qed.

(** After the recovery no record the gate would read is in flight. *)
Lemma recoverInterruptedStates_wp name g d :
  plain_name (g_directory g, name) -> has_suffix name ".json" = true -> len name = 69 ->
  wp any (recoverInterruptedStates g) (fun r d' => r = Ok tt -> settled_at (g_directory g, name) d') (fun _ => True) d.
Proof.
  intros Hpl Hsuf Hlen. unfold recoverInterruptedStates. apply wp_ebind. unfold lift_sys. wp_step. wp_step; [done|by apply wp_ret|].
  apply wp_ret. destruct (d_live d !! (g_directory g, name)) as [i|] eqn:Hi.
  - destruct (decide (i_kind i = Regular)) as [Hk|Hk].
    + apply recover_loop_wp; [done|done|done|]. apply list_elem_of_fmap. exists name. unfold kind_in. rewrite Hi, Hk.
      split; [done|]. apply names_in_elem. by eexists.
    + eapply wp_mono; [apply (recover_loop_settled (g_directory g, name)); [done|]|done|done].
      intros i' r Hi' Hk'. rewrite Hi in Hi'. congruence.
  - eapply wp_mono; [apply (recover_loop_settled (g_directory g, name)); [done|]|done|done].
    intros i' r Hi'. congruence.
Qed.

(** ** Properties *)

(** C1. An execution starts at most once: in every history of calls, restarts,
    crashes and power losses over a gate directory, no two calls of [Start]
    succeed for the same execution. *)
Theorem start_at_most_once dir d h (Hlog : d_log d = []) (Hhist : rtc (gate_event dir) (History d [] []) h) :
  NoDup (h_started h).
Proof. exact (on_started _ _ (once_history (Build_Gate dir true) dir d h eq_refl Hlog Hhist)). Qed.

(** C6. An effect goes out at most once: in every such history, with the sections
    of concurrent [PerformHTTPS] calls interleaved in any order, no effect of an
    execution is sent to the network twice. *)
Theorem effect_sent_at_most_once dir d h (Hlog : d_log d = []) (Hhist : rtc (gate_event dir) (History d [] []) h) :
  NoDup (d_log (h_disk h)).
Proof.
  pose proof (on_sent _ _ (once_history (Build_Gate dir true) dir d h eq_refl Hlog Hhist)) as Hn.
  unfold sent in Hn. by apply NoDup_app in Hn as (_ & _ & ?).
Qed.

(** C12. Refinement: whatever happens after a record is durable, its name holds,
    now and after any power loss, that record or a complete record reached by
    steps of the abstract protocol from what the record reads back as (itself,
    when its strings are valid UTF-8). *)
Theorem records_follow_protocol dir r id h h' (Hkeys : json_keys r = true)
    (Hdurable : at_path (eq r) (gate_path (Build_Gate dir true) id) (h_disk h)) (Hhist : rtc (gate_event dir) h h') :
  at_path (fun r' => r' = r \/ rtc record_step (json_text r) r') (gate_path (Build_Gate dir true) id) (h_disk h').
Proof.
  eapply at_path_mono; [eapply (history_keeps (from_read record_step r) _); [by apply (from_read_stable _ record_step_text)|exact Hhist|]|].
  - eapply at_path_mono; [exact Hdurable|]. intros r' <-. by left.
  - apply from_read_steps.
Qed.

(** C28. A launch is exactly what was authorised: when [Start] succeeds, the fence
    was verified and current; the record was prepared, its deadline had not
    passed, and it has the ticket's plan, secret and deadline and the fence's
    writer; the action was verified for exactly this ticket and execution
    ([startable]); the launch has the plan's bindings and every input is a
    regular file with the bound size and digest ([launched_from]); and the
    durable record says that the execution is starting. *)
Theorem Start_exact g ticket fence action now w launch w'
    (Hstart : Start g ticket fence action now w = (Done (Ok launch), w')) :
  start_facts g ticket fence action now (w_disk w) launch (w_disk w') /\
  at_path was_started (gate_path g (tk_ExecutionID ticket)) (w_disk w').
Proof.
  pose proof (wp_run _ _ _ w (Start_wp g ticket fence action now (w_disk w))) as Hf. rewrite Hstart in Hf.
  specialize (Hf launch eq_refl). split; [done|]. destruct Hf as (_ & _ & r & i & _ & _ & _ & _ & _ & Hal).
  eapply always_mono; [exact Hal|]. intros v ->. by eexists.
Qed.

Lemma transition_wp g launch expected next o d :
  wp any (transition g launch expected next o)
    (fun x d' => x = Ok tt ->
       at_path (reads (ended (utf8_fix next) (utf8_fix o) (la_PlanDigest launch))) (gate_path g (la_ExecutionID launch)) d')
    (fun _ => True) d.
Proof.
  unfold transition. wp_step; [by apply wp_ret|]. cbn zeta. wp_step. eapply wp_mono; [apply readRecord_wp| |done].
  intros [r|e] d1 [-> Hr]; [|by apply wp_ret]. destruct (Hr r eq_refl) as (_ & _ & i & Hi & _ & Hj).
  wp_step; [by apply wp_ret|]. bool_props.
  eapply wp_mono; [apply (replace_file_wp ".gate-" _ _ d (fun _ => True)); try done; by exists i| |done].
  intros x d' [_ Hd'] Hx. eapply always_mono; [exact (Hd' Hx)|]. intros v ->. eexists. split; [done|].
  destruct (decoded_clean _ _ Hj) as [Ht Hk]. split; [exact Hk|]. rewrite text_moved, Ht. done.
Qed.

(** C25. An outcome is final: once [Complete] reports success, every later
    inspection, after any history, that does not fail reports the same terminal
    state, the same plan and one outcome digest: the given one if it is valid
    UTF-8, and always when the execution succeeded; invalid bytes of another
    terminal state's digest are reported as U+FFFD. *)
Theorem outcome_final g launch terminal outcomeDigest w w' h h' w2 resolution w3
    (Hcomplete : Complete g launch terminal outcomeDigest w = (Done (Ok tt), w'))
    (Hid : validDigest (la_ExecutionID launch) = true)
    (Hh : h_disk h = w_disk w') (Hhist : rtc (gate_event (g_directory g)) h h') (Hw2 : w_disk w2 = h_disk h')
    (Hinspect : Inspect g (la_ExecutionID launch) w2 = (Done (Ok resolution), w3)) :
  rs_State resolution = terminal /\ rs_PlanDigest resolution = la_PlanDigest launch /\
  rs_OutcomeDigest resolution = utf8_fix outcomeDigest /\
  (utf8_ValidString outcomeDigest = true \/ terminal = StateSucceeded -> rs_OutcomeDigest resolution = outcomeDigest).
Proof.
  assert (Hdone : terminalState terminal = true /\ (terminal = StateSucceeded -> validDigest outcomeDigest = true) /\
    at_path (reads (ended (utf8_fix terminal) (utf8_fix outcomeDigest) (la_PlanDigest launch)))
      (gate_path g (la_ExecutionID launch)) (w_disk w')).
  { unfold Complete in Hcomplete. destruct (terminalState terminal) eqn:Ht; [|done].
    destruct ((terminal =s? StateSucceeded) && negb (validDigest outcomeDigest)) eqn:Hd; [done|]. cbn [negb] in Hcomplete.
    pose proof (wp_run _ _ _ w (transition_wp g launch StateRunning terminal outcomeDigest (w_disk w))) as Hf.
    rewrite Hcomplete in Hf. split_and!; auto. intros ->. by destruct (validDigest outcomeDigest). }
  destruct Hdone as (Ht & Hd & Hp). rewrite (utf8_fix_ascii terminal) in Hp by (by apply terminalState_ascii). rewrite <- Hh in Hp.
  pose proof (reads_stable _ (ended_closed terminal (utf8_fix outcomeDigest) (la_PlanDigest launch) Ht)) as Hst.
  apply (history_keeps _ _ _ _ _ _ _ Hst Hhist) in Hp. rewrite <- Hw2 in Hp.
  unfold Inspect in Hinspect. rewrite Hid in Hinspect. cbn [negb] in Hinspect.
  pose proof (wp_run _ _ _ w2 (readRecord_inv _ _ _ (gate_path g (la_ExecutionID launch)) _ Hst Hp)) as Hr.
  unfold ebind, mbind, io_bind, mret, io_ret in Hinspect. destruct (readRecord _ w2) as [[[r|e]|] w4]; simplify_eq/=.
  destruct Hr as [_ Hr]. destruct (Hr r eq_refl) as (_ & _ & Hr'). destruct (Hr' eq_refl) as (-> & -> & ->). split_and!; [done..|].
  intros [Hv|Hs]; [by apply utf8_fix_valid|]. by apply utf8_fix_ascii, validDigest_ascii, Hd.
Qed.

Lemma gate_path_name g id :
  validDigest id = true -> exists name, gate_path g id = (g_directory g, name) /\ plain_name (g_directory g, name) /\
    has_suffix name ".json" = true /\ len name = 69.
Proof.
  intros Hv. unfold gate_path. rewrite Hv. cbn [negb]. exists (str_drop 7 id +:+ ".json"). split; [done|].
  unfold validDigest, hex_decodable in Hv. bool_props.
  assert (Hl : String.length (str_drop 7 id) = 64%nat) by (rewrite str_drop_length; unfold len in *; lia).
  split_and!.
  - unfold plain_name. cbn [snd]. destruct (has_prefix _ ".gate-") eqn:Hp; [|done].
    apply has_prefix_spec in Hp as [t Ht]. destruct (str_drop 7 id) as [|c s]; [done|]. injection Ht as -> _.
    by match goal with Hx : str_forallb is_hex _ = true |- _ => vm_compute in Hx end.
  - unfold has_suffix. rewrite str_length_app, Hl. cbn [String.length]. replace (64 + 5 - 5)%nat with 64%nat by lia.
    apply andb_true_iff. split; [done|]. by rewrite <- Hl, str_drop_app.
  - rewrite len_app. unfold len. rewrite Hl. done.
Qed.

(** C32. Restart makes every uncertainty explicit: after a successful [Open] no
    inspection of any execution finds it starting or running. *)
Theorem Open_settles directory w g w' id w2 resolution w3
    (Hopen : Open directory w = (Done (Ok g), w')) (Hw2 : w_disk w2 = w_disk w')
    (Hinspect : Inspect g id w2 = (Done (Ok resolution), w3)) :
  ~ state_in_flight (rs_State resolution).
Proof.
  unfold Inspect in Hinspect. destruct (validDigest id) eqn:Hv; [|done]. cbn [negb] in Hinspect.
  assert (Hs : g_directory g = directory /\ settled_at (gate_path g id) (w_disk w')).
  { destruct (gate_path_name g id Hv) as (name & Hname & Hpl & Hsuf & Hlen). rewrite Hname.
    assert (Hwp : wp any (Open directory)
      (fun r d' => forall g', r = Ok g' -> g_directory g' = directory /\ settled_at (directory, name) d') (fun _ => True) (w_disk w)).
    { unfold Open. wp_step; [by apply wp_ret|]. apply wp_ebind. eapply wp_mono; [apply wp_true| |done].
      intros [[]|e] d1 _; [|done]. wp_step. eapply wp_mono; [apply wp_true| |done]. intros [i|e] d2 _; [|by apply wp_ret].
      wp_step; [by apply wp_ret|]. apply wp_ebind. eapply wp_mono; [apply wp_true| |done]. intros [[]|x] d3 _; [|done].
      apply wp_ebind. eapply wp_mono; [apply (recoverInterruptedStates_wp name); done| |done].
      intros [[]|x] d4 Hd4; [|done]. apply wp_ret. intros g' [= <-]. auto. }
    pose proof (wp_run _ _ _ w Hwp) as Hrun. rewrite Hopen in Hrun. destruct (Hrun g eq_refl) as [<- Hset]. done. }
  destruct Hs as [_ Hs].
  pose proof (wp_run _ _ _ w2 (readRecord_wp (gate_path g id) (w_disk w2))) as Hr.
  unfold ebind, mbind, io_bind, mret, io_ret in Hinspect. destruct (readRecord _ w2) as [[[r|e]|] w4]; simplify_eq/=.
  destruct Hr as [_ Hr]. destruct (Hr r eq_refl) as (_ & _ & i & Hi & Hk & Hj). rewrite Hw2 in Hi.
  exact (Hs i r Hi Hk Hj).
Qed.

(** The request [o] goes to the target of the effect, and only there. *)
Record pinned (plan : Plan) (network : NetworkBinding) (request : HTTPSRequest) (stableID : string) (o : Outgoing)
    (e : EffectBinding) (ip : string) : Prop := {
  pn_effect : e ∈ pl_EffectBindings plan /\ eb_PlanEffectID e = hq_PlanEffectID request;
  pn_target : codec_Digest_network "tos.executor-network-target.v1" network = Ok (eb_TargetDigest e);
  pn_public : head (nb_ResolvedIPs network) = Some ip /\ exists a, net_ParseIP ip = Some a /\ unicast_outside a;
  pn_dial : og_Dial o = JoinHostPort ip (port_text (nb_Port network)) /\ og_ServerName o = nb_Host network;
  pn_method : og_Method o = ToUpper (trim_prefix (eb_OperationKind e) "https.");
  pn_body : len (og_Body o) <= nb_MaxRequestBytes network <= 16777216;
  pn_key : og_Header o !! "Idempotency-Key" = Some [trim_prefix stableID "sha256:"];
}.

(** The broker is pinned: a request that passes the checks of a bound plan goes
    to the first address of the plan's own target, which is public, with the
    plan's host as the TLS name, the method the effect names, a body within the
    plan's bound, and the stable action identifier as the only idempotency key. *)
Theorem outgoing_pinned entry request action fence now network credential headers stableID
    (Hbound : plan_bound (gr_Plan entry))
    (Hchecks : effect_checks entry request action fence now = Some (network, credential)) :
  exists e ip, pinned (gr_Plan entry) network request stableID (outgoing network request headers stableID) e ip.
Proof.
  unfold effect_checks in Hchecks. destruct (find_effect _ _) as [e|] eqn:He; [|done].
  destruct (EffectAuthorizationMaterial _ _) as [[canonical fields]|] eqn:Hm; [|done].
  destruct (find_network _ _) as [b|] eqn:Hb; [|done].
  match goal with Hc : (if ?c then _ else _) = _ |- _ => destruct c eqn:Hif; [done|] end. injection Hchecks as <- _. bool_props.
  apply find_effect_spec in He as [Hin Hid]. apply find_network_spec in Hb as [Hbin Hbid].
  destruct (pb_target _ Hbound e Hin) as (b' & Hb' & Hid' & Hd & _ & Htls & _ & Hne & Hpub & Hreq & _).
  assert (b' = b) as ->.
  { apply list_elem_of_lookup in Hb' as [i Hi]. apply list_elem_of_lookup in Hbin as [j Hj].
    pose proof (pb_networks _ Hbound) as Hnd. rewrite NoDup_alt in Hnd.
    assert (i = j) as ->; [|congruence]. apply (Hnd i j (eb_NetworkBindingID e)); rewrite list_lookup_fmap, ?Hi, ?Hj; simpl; congruence. }
  destruct (nb_ResolvedIPs b) as [|ip ips] eqn:Hips; [done|]. exists e, ip.
  unfold validHTTPSRequest in *.
  match goal with Hv : (if ?c then false else _) = true |- _ => destruct c eqn:Hc; [done|] end. bool_props.
  constructor; unfold outgoing; cbn [og_Dial og_ServerName og_Method og_Body og_Header]; rewrite ?Hips;
    try done; [split; [done|apply Hpub; by left]|lia|by rewrite lookup_insert_eq].
Qed.

End Protocol.
