(* ===== verification/GateRuns.v ===== *)
(** * Runs of the execution gate

    A concrete encoding of the gate's records, a complete run of one execution,
    and the witnesses of the theorems of [GateProtocol]. *)

From S2P Require Import Prelude GoStd Sha256 GoText Utf8 FS Json RecordStore GatePlan CommerceGate GateText GateProtocol.

(** ** Nested values as text *)

Class Text (A : Type) := {
  to_text : A -> string;
  of_text : string -> option A;
  of_to_text : forall a, of_text (to_text a) = Some a;
}.

#[refine, export] Instance text_string : Text string := {| to_text s := s; of_text := Some; of_to_text := _ |}.
Proof. done. Defined.

#[refine, export] Instance text_Z : Text Z := {| to_text := put_Z; of_text s := Some (get_Z s); of_to_text := _ |}.
Proof. intros z. by rewrite get_put_Z. Defined.

#[refine, export] Instance text_bool : Text bool :=
  {| to_text b := if b : bool then "t" else ""; of_text s := Some (s =s? "t"); of_to_text := _ |}.
Proof. by intros []. Defined.

#[refine, export] Instance text_fields `{Fields A} : Text A :=
  {| to_text a := put_strings (to_fields a); of_text s := get_strings s ≫= of_fields; of_to_text := _ |}.
Proof. intros a. rewrite <- (str_app_nil (put_strings _)), get_put_strings by auto. apply of_to_fields. Defined.

Lemma mapM_of_text `{Text A} (l : list A) : mapM of_text (to_text <$> l) = Some l.
Proof. apply mapM_Some, Forall2_fmap_l, Forall_Forall2_diag, Forall_true. intros a. apply of_to_text. Qed.

#[refine, export] Instance text_list `{Text A} : Text (list A) :=
  {| to_text l := put_strings (to_text <$> l); of_text s := get_strings s ≫= mapM of_text; of_to_text := _ |}.
Proof. intros l. rewrite <- (str_app_nil (put_strings _)), get_put_strings by auto. apply mapM_of_text. Defined.

#[refine, export] Instance fields_pair `{Text A, Text B} : Fields (A * B) :=
  {| to_fields p := [to_text p.1; to_text p.2];
     of_fields l := match l with [a; b] => x ← of_text a; y ← of_text b; Some (x, y) | _ => None end;
     of_to_fields := _ |}.
Proof. intros [a b]. csimpl. by rewrite !of_to_text. Defined.

Definition text_entries {A} (t : Text A) : Text (list (string * A)) :=
  @text_list _ (@text_fields _ (@fields_pair string text_string A t)).

#[refine, export] Instance text_map {A} (t : Text A) : Text (gmap string A) :=
  {| to_text m := @to_text _ (text_entries t) (map_to_list m);
     of_text s := match @of_text _ (text_entries t) s with Some l => Some (list_to_map l) | None => None end;
     of_to_text := _ |}.
Proof. intros m. rewrite of_to_text. by rewrite list_to_map_to_list. Defined.

(** ** The records *)

#[refine, export] Instance fields_file : Fields FileBinding := {|
  to_fields x := [fb_Path x; fb_Digest x; put_Z (fb_Size x)];
  of_fields l := match l with [a; b; c] => Some {| fb_Path := a; fb_Digest := b; fb_Size := get_Z c |} | _ => None end;
  of_to_fields := _ |}.
Proof. intros []. csimpl. by rewrite get_put_Z. Defined.

#[refine, export] Instance fields_network : Fields NetworkBinding := {|
  to_fields x := [nb_BindingID x; nb_Scheme x; nb_Host x; put_Z (nb_Port x); to_text (nb_ResolvedIPs x); nb_TLSServerName x;
                  to_text (nb_AllowRedirects x); put_Z (nb_MaxRequestBytes x); put_Z (nb_MaxResponseBytes x)];
  of_fields l := match l with
    | [a; b; c; d; e; f; g; h; i] =>
        e' ← of_text e; g' ← of_text g;
        Some {| nb_BindingID := a; nb_Scheme := b; nb_Host := c; nb_Port := get_Z d; nb_ResolvedIPs := e'; nb_TLSServerName := f;
                nb_AllowRedirects := g'; nb_MaxRequestBytes := get_Z h; nb_MaxResponseBytes := get_Z i |}
    | _ => None end;
  of_to_fields := _ |}.
Proof.
  intros x. cbn iota. rewrite (of_to_text (nb_ResolvedIPs x)). cbn [mbind option_bind].
  rewrite (of_to_text (nb_AllowRedirects x)). cbn [mbind option_bind]. rewrite !get_put_Z. by destruct x.
Defined.

#[refine, export] Instance fields_credential : Fields CredentialBinding := {|
  to_fields x := [cb_HandleID x; cb_ScopeDigest x; put_Z (cb_ExpiresAtUnix x)];
  of_fields l := match l with
    | [a; b; c] => Some {| cb_HandleID := a; cb_ScopeDigest := b; cb_ExpiresAtUnix := get_Z c |} | _ => None end;
  of_to_fields := _ |}.
Proof. intros []. csimpl. by rewrite get_put_Z. Defined.

#[refine, export] Instance fields_effect : Fields EffectBinding := {|
  to_fields x := [eb_PlanEffectID x; eb_EffectProfileDigest x; eb_TargetDigest x; eb_OperationKind x; eb_EffectSemanticKeyDigest x;
                  eb_NetworkBindingID x; eb_CredentialHandleID x; put_Z (eb_MaximumUses x)];
  of_fields l := match l with
    | [a; b; c; d; e; f; g; h] =>
        Some {| eb_PlanEffectID := a; eb_EffectProfileDigest := b; eb_TargetDigest := c; eb_OperationKind := d;
                eb_EffectSemanticKeyDigest := e; eb_NetworkBindingID := f; eb_CredentialHandleID := g; eb_MaximumUses := get_Z h |}
    | _ => None end;
  of_to_fields := _ |}.
Proof. intros []. csimpl. by rewrite get_put_Z. Defined.

#[refine, export] Instance fields_plan : Fields Plan := {|
  to_fields x := [pl_OwnerID x; pl_AgentID x; pl_AgreementBodyDigest x; pl_ExecutionObligationID x; pl_CanonicalPlanDigest x;
    pl_AcceptedInputManifestDigest x; put_Z (pl_AttemptIndex x); pl_PredecessorTerminalResolutionDigest x; pl_ExecutionID x;
    pl_ReservationID x; put_Z (pl_PolicyRevision x); put_Z (pl_WriterGeneration x); pl_LeaseLossPolicy x; to_text (pl_Files x);
    to_text (pl_NetworkBindings x); to_text (pl_CredentialBindings x); to_text (pl_EffectBindings x)];
  of_fields l := match l with
    | [a; b; c; d; e; f; g; h; i; j; k; l; m; n; o; p; q] =>
        n' ← of_text n; o' ← of_text o; p' ← of_text p; q' ← of_text q;
        Some {| pl_OwnerID := a; pl_AgentID := b; pl_AgreementBodyDigest := c; pl_ExecutionObligationID := d;
          pl_CanonicalPlanDigest := e; pl_AcceptedInputManifestDigest := f; pl_AttemptIndex := get_Z g;
          pl_PredecessorTerminalResolutionDigest := h; pl_ExecutionID := i; pl_ReservationID := j; pl_PolicyRevision := get_Z k;
          pl_WriterGeneration := get_Z l; pl_LeaseLossPolicy := m; pl_Files := n'; pl_NetworkBindings := o';
          pl_CredentialBindings := p'; pl_EffectBindings := q' |}
    | _ => None end;
  of_to_fields := _ |}.
Proof.
  intros x. cbn iota. rewrite (of_to_text (pl_Files x)). cbn [mbind option_bind]. rewrite (of_to_text (pl_NetworkBindings x)).
  cbn [mbind option_bind]. rewrite (of_to_text (pl_CredentialBindings x)). cbn [mbind option_bind].
  rewrite (of_to_text (pl_EffectBindings x)). cbn [mbind option_bind]. rewrite !get_put_Z. by destruct x.
Defined.

#[refine, export] Instance fields_effect_record : Fields EffectRecord := {|
  to_fields x := [er_StableActionID x; er_ExactRequestDigest x; er_State x; er_ResponseDigest x; put_Z (er_HTTPStatus x);
    put_Z (er_StateRevision x)];
  of_fields l := match l with
    | [a; b; c; d; e; f] => Some {| er_StableActionID := a; er_ExactRequestDigest := b; er_State := c; er_ResponseDigest := d;
                                    er_HTTPStatus := get_Z e; er_StateRevision := get_Z f |}
    | _ => None end;
  of_to_fields := _ |}.
Proof. intros []. csimpl. by rewrite !get_put_Z. Defined.

#[refine, export] Instance fields_record : Fields gateRecord := {|
  to_fields x := [gr_Schema x; to_text (gr_Plan x); gr_PlanDigest x; gr_TicketSecret x; put_Z (gr_StartNotAfterUnix x); gr_State x;
    put_Z (gr_StateRevision x); gr_OutcomeDigest x; gr_PrepareActionID x; gr_PrepareRequestDigest x; gr_StartActionID x;
    gr_StartRequestDigest x; to_text (gr_Effects x)];
  of_fields l := match l with
    | [a; b; c; d; e; f; g; h; i; j; k; l; m] =>
        b' ← of_text b; m' ← of_text m;
        Some {| gr_Schema := a; gr_Plan := b'; gr_PlanDigest := c; gr_TicketSecret := d; gr_StartNotAfterUnix := get_Z e;
          gr_State := f; gr_StateRevision := get_Z g; gr_OutcomeDigest := h; gr_PrepareActionID := i; gr_PrepareRequestDigest := j;
          gr_StartActionID := k; gr_StartRequestDigest := l; gr_Effects := m' |}
    | _ => None end;
  of_to_fields := _ |}.
Proof.
  intros x. cbn iota. rewrite (of_to_text (gr_Plan x)). cbn [mbind option_bind]. rewrite (of_to_text (gr_Effects x)).
  cbn [mbind option_bind]. rewrite !get_put_Z. by destruct x.
Defined.

#[export] Instance gate_json : Json gateRecord := TextFieldsJson.
#[export] Instance gate_json_laws : JsonTextLaws gateRecord := TextFieldsJsonLaws.

(** ** One execution, from its preparation to its outcome *)

Module GateSamples.
#[export] Existing Instance PlanSamples.commerce.
Definition got {A} (o : outcome (result A)) (otherwise : A) : A :=
  match o with Done (Ok a) => a | _ => otherwise end.
Definition gate : Gate := {| g_directory := "/gate"; g_open := true |}.
Definition now : Z := 1700000000 * time_Second.
Definition files : gmap (string * string) inode :=
  {[("", "/gate") := dir_inode; ("/inputs", "a") := plain_file o400 "alpha"; ("/inputs", "b") := plain_file o400 "beta"]}.
Definition disk0 : disk := Disk files ∅ [].
Definition start : world := World disk0 [] ["secret bytes"; "1"; "2"; "3"; "4"; "5"].
Definition action (kind request : string) : AuthorizedAction :=
  {| aa_ActionKind := kind; aa_StableActionID := PlanSamples.label kind; aa_ExactRequestDigest := PlanSamples.label request; aa_OwnerID := "owner"; aa_AgentID := "agent";
     aa_ExpiresAtUnix := 1700001000 |}.
Definition prepare_action : AuthorizedAction := Eval vm_compute in action "execution.prepare" (PlanSamples.plan_text PlanSamples.prepared.1).
Definition prepared : outcome (result Ticket) * world :=
  Prepare gate PlanSamples.plan PlanSamples.fence time_Minute prepare_action now start.
Definition ticket : Ticket := Eval vm_compute in
  got prepared.1 {| tk_ExecutionID := ""; tk_Secret := ""; tk_StartNotAfterUnix := 0; tk_PlanDigest := "" |}.
(** The disks after each step, evaluated once. *)
Definition world1 : world := Eval vm_compute in prepared.2.
Definition start_action : AuthorizedAction := Eval vm_compute in
  action "execution.start" (tk_ExecutionID ticket +:+ "|" +:+ tk_Secret ticket).
Definition launched : outcome (result Launch) * world := Start gate ticket PlanSamples.fence start_action now world1.
Definition launch : Launch := Eval vm_compute in
  got launched.1 {| la_ExecutionID := ""; la_PlanDigest := ""; la_TicketSecret := ""; la_LeaseLossPolicy := ""; la_Files := [];
    la_NetworkBindings := []; la_CredentialBindings := []; la_EffectBindings := [] |}.
Lemma launched_ok : Start gate ticket PlanSamples.fence start_action now world1 = (Done (Ok launch), launched.2).
Proof. unfold launched. apply pair_fst. vm_compute. reflexivity. Qed.
Definition running : outcome (result unit) * world := MarkRunning gate launch launched.2.
Definition world2 : world := Eval vm_compute in running.2.
Definition request : HTTPSRequest :=
  {| hq_PlanEffectID := "order"; hq_Method := "POST"; hq_PathAndQuery := "/orders";
     hq_Headers := [{| hh_Name := "Accept"; hh_Value := "text/plain" |}]; hq_Body := "item" |}.
Definition effect_action : AuthorizedAction := Eval vm_compute in action "executor.effect" "order|POST|/orders|item".
Definition client : HttpClient := {| hc_NewRequest _ _ := Ok tt; hc_Do _ := Ok (201, Ok "created") |}.
Definition ordered : outcome (result HTTPSResponse) * world :=
  PerformHTTPS gate client launch request effect_action PlanSamples.fence None (Ok tt) now world2.
Definition world3 : world := Eval vm_compute in ordered.2.
Definition again : outcome (result HTTPSResponse) * world :=
  PerformHTTPS gate client launch request effect_action PlanSamples.fence None (Ok tt) now world3.
Definition finished : outcome (result unit) * world := Complete gate launch StateSucceeded (PlanSamples.label "outcome") world3.
Definition inspected : outcome (result Resolution) * world := Inspect gate (la_ExecutionID launch) finished.2.
Lemma finished_ok : Complete gate launch StateSucceeded (PlanSamples.label "outcome") world3 = (Done (Ok tt), finished.2).
Proof. unfold finished. apply pair_fst. vm_compute. reflexivity. Qed.
Definition resolution : Resolution :=
  {| rs_State := StateSucceeded; rs_StateRevision := 6; rs_PlanDigest := la_PlanDigest launch;
     rs_OutcomeDigest := PlanSamples.label "outcome" |}.
Lemma inspected_ok : Inspect gate (la_ExecutionID launch) finished.2 = (Done (Ok resolution), inspected.2).
Proof. unfold inspected. apply pair_fst. vm_compute. reflexivity. Qed.

(** The record [Prepare] wrote and the one of the running execution. *)
Definition read (d : disk) : gateRecord :=
  got (readRecord (gate_path gate (tk_ExecutionID ticket)) (World d [] [])).1
    (new_entry PlanSamples.plan "" "" 0 start_action).
Definition prepared_record : gateRecord := Eval vm_compute in read (w_disk world1).
Definition record_running : gateRecord := Eval vm_compute in read (w_disk world2).

(** A restart while the execution runs. *)
Definition reopened : outcome (result Gate) * world := Open "/gate" (World (w_disk world2) [] ["6"]).
Lemma reopened_ok : Open "/gate" (World (w_disk world2) [] ["6"]) = (Done (Ok gate), reopened.2).
Proof. unfold reopened. apply pair_fst. vm_compute. reflexivity. Qed.
Definition ambiguous : outcome (result Resolution) * world := Inspect gate (la_ExecutionID launch) reopened.2.
Definition ambiguous_resolution : Resolution :=
  {| rs_State := StateAmbiguousRun; rs_StateRevision := 4; rs_PlanDigest := la_PlanDigest launch; rs_OutcomeDigest := "" |}.
Lemma ambiguous_ok : Inspect gate (la_ExecutionID launch) reopened.2 = (Done (Ok ambiguous_resolution), ambiguous.2).
Proof. unfold ambiguous. apply pair_fst. vm_compute. reflexivity. Qed.

(** Histories. *)
Definition h0 : history := History (w_disk world1) [] [].
Definition start_call : call := C_Start ticket PlanSamples.fence start_action now.
Definition h1 : history := after h0 start_call (perform gate start_call world1).
Definition r0 : history := History (w_disk world2) [] [].
Definition submit_call : call := C_submit launch request effect_action PlanSamples.fence now.
Definition r1 : history := after r0 submit_call (perform gate submit_call world2).
Definition send_call : call := C_call client launch request effect_action now None (Ok tt) PlanSamples.network None.
Definition r2 : history := after r1 send_call (perform gate send_call (World (h_disk r1) [] [])).

Lemma h1_event : gate_event "/gate" h0 h1.
Proof. unfold h1. apply event_call; [reflexivity|exact I|]. unfold h0. cbn [h_disk]. reflexivity. Qed.
Lemma r1_event : gate_event "/gate" r0 r1.
Proof. unfold r1. apply event_call; [reflexivity|exact I|]. unfold r0. cbn [h_disk]. reflexivity. Qed.
Lemma r2_event : gate_event "/gate" r1 r2.
Proof.
  assert (E : h_inflight r1 = [(la_ExecutionID launch, hq_PlanEffectID request)]) by (vm_compute; reflexivity).
  unfold r2. apply event_call; [reflexivity| |cbn [w_disk]; reflexivity].
  unfold send_call. cbn [enabled]. rewrite E. left.
Qed.

(** A crash while the record is first written. *)
Definition torn : outcome (result Ticket) * world :=
  Prepare gate PlanSamples.plan PlanSamples.fence time_Minute prepare_action now
    (World disk0 [DOk; DOk; DOk; DCrash] ["secret bytes"]).
End GateSamples.
Import GateSamples.

(** The whole run: one launch with the bound inputs, one order, the recorded
    answer on a repeated request, and the outcome. *)
Example execution_run :
  prepared.1 = Done (Ok ticket) /\ la_ExecutionID launch = tk_ExecutionID ticket /\ running.1 = Done (Ok tt) /\
  ordered.1 = Done (Ok {| hs_StatusCode := 201; hs_Body := "created";
                          hs_Digest := PlanSamples.label ("tos.executor-effect-response.v1" +:+ "created") |}) /\
  again.1 = ordered.1 /\ d_log (w_disk again.2) = [(la_ExecutionID launch, "order")].
Proof. split_and!; vm_compute; reflexivity. Qed.

(** A crash while a record is first written leaves a file that every later [Open]
    refuses: one torn preparation closes the gate for all executions. *)
Example torn_record_closes_gate :
  torn.1 = Crashed /\ (Open "/gate" (World (w_disk torn.2) [] [])).1 = Done (Err "invalid local execution Gate record").
Proof. split; vm_compute; reflexivity. Qed.

(** A completion that is not a success accepts any bytes for the digest of its
    outcome; the next inspection reports U+FFFD for the byte that is not UTF-8. *)
Definition bad_outcome : string := String (ascii_of_nat 255) "".
Definition failed : outcome (result unit) * world := Eval vm_compute in Complete gate launch StateFailed bad_outcome world3.

Example outcome_bytes_change :
  failed.1 = Done (Ok tt) /\
  exists resolution w, Inspect gate (la_ExecutionID launch) failed.2 = (Done (Ok resolution), w) /\
    rs_State resolution = StateFailed /\ rs_OutcomeDigest resolution = replacement /\ replacement <> bad_outcome.
Proof.
  split; [reflexivity|]. eexists {| rs_State := StateFailed; rs_StateRevision := 6; rs_PlanDigest := la_PlanDigest launch;
    rs_OutcomeDigest := replacement |}, _. split; [apply pair_fst; vm_compute; reflexivity|]. done.
Qed.

Lemma start_at_most_once_witness : h_started h1 = [tk_ExecutionID ticket] /\ NoDup (h_started h1).
Proof.
  split; [vm_compute; reflexivity|]. apply (start_at_most_once "/gate" (w_disk world1)); [vm_compute; reflexivity|].
  exact (rtc_once _ _ h1_event).
Defined.

Lemma effect_sent_at_most_once_witness : d_log (h_disk r2) = [(la_ExecutionID launch, "order")] /\ NoDup (d_log (h_disk r2)).
Proof.
  split; [vm_compute; reflexivity|]. apply (effect_sent_at_most_once "/gate" (w_disk world2)); [vm_compute; reflexivity|].
  exact (rtc_l _ _ _ _ r1_event (rtc_once _ _ r2_event)).
Defined.

Lemma prepared_durable : at_path (eq prepared_record) (gate_path gate (tk_ExecutionID ticket)) (h_disk h0).
Proof.
  intros v [->|Hv]; [exists prepared_record; split; [vm_compute; reflexivity|reflexivity]|]. vm_compute in Hv. inversion Hv.
Qed.

Lemma records_follow_protocol_witness :
  json_text prepared_record = prepared_record /\
  at_path (fun r' => r' = prepared_record \/ rtc record_step (json_text prepared_record) r')
    (gate_path gate (tk_ExecutionID ticket)) (h_disk h1).
Proof.
  split; [vm_compute; reflexivity|].
  apply (records_follow_protocol "/gate" prepared_record (tk_ExecutionID ticket) h0 h1); [vm_compute; reflexivity|exact prepared_durable|].
  exact (rtc_once _ _ h1_event).
Defined.

Lemma Start_exact_witness : at_path was_started (gate_path gate (tk_ExecutionID ticket)) (w_disk launched.2).
Proof. exact (proj2 (Start_exact gate ticket PlanSamples.fence start_action now world1 launch launched.2 launched_ok)). Defined.

Lemma outcome_final_witness : rs_State resolution = StateSucceeded.
Proof.
  refine (proj1 (outcome_final gate launch StateSucceeded (PlanSamples.label "outcome") world3 finished.2
    (History (w_disk finished.2) [] []) (History (w_disk finished.2) [] []) finished.2 resolution inspected.2
    finished_ok _ eq_refl (rtc_refl _ _) eq_refl inspected_ok)). vm_compute. reflexivity.
Defined.

Lemma Open_settles_witness : ~ state_in_flight (rs_State ambiguous_resolution).
Proof.
  exact (Open_settles "/gate" (World (w_disk world2) [] ["6"]) gate reopened.2 (la_ExecutionID launch)
    reopened.2 ambiguous_resolution ambiguous.2 reopened_ok eq_refl ambiguous_ok).
Defined.

Lemma running_plan_bound : plan_bound (gr_Plan record_running).
Proof.
  assert (E : gr_Plan record_running = PlanSamples.prepared.1) by (vm_compute; reflexivity). rewrite E.
  apply (prepared_plan_bound PlanSamples.plan PlanSamples.fence _ _
    ltac:(repeat constructor; unfold two64; simpl; lia) PlanSamples.prepared_ok).
Qed.

Lemma outgoing_pinned_witness : exists e ip, pinned (gr_Plan record_running) PlanSamples.network request
  (aa_StableActionID effect_action) (outgoing PlanSamples.network request ∅ (aa_StableActionID effect_action)) e ip.
Proof.
  exact (outgoing_pinned record_running request effect_action PlanSamples.fence now PlanSamples.network None ∅
    (aa_StableActionID effect_action) running_plan_bound ltac:(vm_compute; reflexivity)).
Defined.
