(* ===== verification/PrivateIngress.v ===== *)
(** * pkg/privateingress/store.go: the private byte ingress

    The receiver's store for private content: [IssueChallenge] publishes a
    one-time encryption key, [Accept] decrypts the content that was authorised
    for it, stores it under its digest and erases the key, [OpenAccepted] and
    [Acknowledge] serve it, and [Delete] journals a deletion before it removes
    the bytes.

    The commerce module (signatures, digests, decryption) and the canonical
    codec are not part of the repository: they are the classes [Commerce] and
    [PrivateCommerce].  The clock is an argument of the operations. *)

From S2P Require Import Prelude GoStd Sha256 GoText Utf8 Base64 FS Json RecordStore GatePlan.

(** ** Data *)

(** The fields of the module's types the ingress reads; [_Rest] stands for those
    it only passes on. *)
Record PrivateHandoffChallengeBody := {
  hb_HandoffID : string;
  hb_AgreementBodyDigest : string;
  hb_ObligationID : string;
  hb_SenderAgentID : string;
  hb_ReceiverAgentID : string;
  hb_IngressInstanceID : string;
  hb_ReceiverEncryptionPublicKey : string;
  hb_RetentionPolicyDigest : string;
  hb_DeleteNotAfterUnix : Z;
  hb_Rest : string;
}.

Record SignedPrivateHandoffChallenge := { sc_Body : PrivateHandoffChallengeBody; sc_Signature : string }.

Record PrivateContentManifest := { cm_ContentDigest : string; cm_Rest : string }.

Record PrivateHandoffAuthorizationBody := {
  ab_ChallengeDigest : string;
  ab_Manifest : PrivateContentManifest;
  ab_CiphertextDigest : string;
  ab_CiphertextBytes : Z;
  ab_SenderDisclosureActionID : string;
  ab_Rest : string;
}.

Record SignedPrivateHandoffAuthorization := { sa_Body : PrivateHandoffAuthorizationBody; sa_Signature : string }.

Record AcceptedPrivateContentRecord := {
  ac_SchemaVersion : Z;
  ac_HandoffID : string;
  ac_ChallengeDigest : string;
  ac_AuthorizationDigest : string;
  ac_UploadActionID : string;
  ac_SenderDisclosureActionID : string;
  ac_ContentDigest : string;
  ac_ContentManifestDigest : string;
  ac_PlaintextBytes : Z;
  ac_ImmutableObjectDigest : string;
  ac_RetentionPolicyDigest : string;
  ac_AcceptedAtUnix : Z;
  ac_DeleteNotAfterUnix : Z;
}.

Record challengeRecord := {
  cr_Schema : string;
  cr_Challenge : SignedPrivateHandoffChallenge;
  cr_EncryptionPrivateKey : string;
  cr_Accepted : option AcceptedPrivateContentRecord;
  cr_AuthorizationDigest : string;
  cr_DeletionActionID : string;
  cr_DeletionRequestDigest : string;
  cr_DeletionState : string;
  cr_DeletedAtUnix : Z;
}.

Record UploadRequest := {
  ur_ChallengeDigest : string;
  ur_Authorization : SignedPrivateHandoffAuthorization;
  ur_CiphertextDigest : string;
  ur_CiphertextBytes : Z;
}.

Record DeleteRequest := {
  dr_HandoffID : string;
  dr_AgreementBodyDigest : string;
  dr_ObligationID : string;
  dr_ContentManifestDigest : string;
  dr_RetentionPolicyDigest : string;
}.

(** [commerce.ActionResolution]; the state is [commerce.ActionTerminal]
    wherever the ingress builds one. *)
Record ActionResolution := {
  re_StableActionID : string;
  re_ExactRequestDigest : string;
  re_Terminal : bool;
  re_SinkReference : string;
  re_EvidenceRefs : list string;
  re_StateRevision : Z;
}.

(** [st_open]: the lock is held ([store.lock != nil]). *)
Record Store := { st_directory : string; st_open : bool; st_receiverAgent : string; st_signingKey : bytes }.

(** The functions of the commerce module and of its codec, with the store's
    resolver folded in.  A function whose error the store ignores returns its
    value beside the error.  A key pair is drawn from random bytes. *)
Class PrivateCommerce := {
  SignedPrivateHandoffAcknowledgement : Type;
  GenerateHandoffEncryptionKey : bytes -> result (bytes * bytes);   (* public, private *)
  SignPrivateHandoffChallenge : PrivateHandoffChallengeBody -> bytes -> result SignedPrivateHandoffChallenge;
  PrivateHandoffChallengeDigest : PrivateHandoffChallengeBody -> string * option string;
  PrivateHandoffAuthorizationDigest : PrivateHandoffAuthorizationBody -> result string;
  OpenPrivateContent : SignedPrivateHandoffChallenge -> SignedPrivateHandoffAuthorization -> bytes -> bytes -> Z -> result bytes;
  SignPrivateHandoffAcknowledgement : AcceptedPrivateContentRecord -> string -> bytes -> result SignedPrivateHandoffAcknowledgement;
  ExactRequestDigest : bytes -> string * option string;
  codec_Digest_manifest : string -> PrivateContentManifest -> result string;
  codec_Marshal_upload : UploadRequest -> result bytes;
  codec_Marshal_delete : DeleteRequest -> result bytes;
}.

(** ** The assignments to a record *)

Definition accepted_record (r : challengeRecord) (a : AcceptedPrivateContentRecord) (authorizationDigest : string)
    : challengeRecord :=
  {| cr_Schema := cr_Schema r; cr_Challenge := cr_Challenge r; cr_EncryptionPrivateKey := "";
     cr_Accepted := Some a; cr_AuthorizationDigest := authorizationDigest;
     cr_DeletionActionID := cr_DeletionActionID r; cr_DeletionRequestDigest := cr_DeletionRequestDigest r;
     cr_DeletionState := cr_DeletionState r; cr_DeletedAtUnix := cr_DeletedAtUnix r |}.

Definition deleting_record (r : challengeRecord) (actionID requestDigest : string) : challengeRecord :=
  {| cr_Schema := cr_Schema r; cr_Challenge := cr_Challenge r; cr_EncryptionPrivateKey := cr_EncryptionPrivateKey r;
     cr_Accepted := cr_Accepted r; cr_AuthorizationDigest := cr_AuthorizationDigest r;
     cr_DeletionActionID := actionID; cr_DeletionRequestDigest := requestDigest;
     cr_DeletionState := "deleting"; cr_DeletedAtUnix := cr_DeletedAtUnix r |}.

Definition deleted_record (r : challengeRecord) (now : Z) : challengeRecord :=
  {| cr_Schema := cr_Schema r; cr_Challenge := cr_Challenge r; cr_EncryptionPrivateKey := cr_EncryptionPrivateKey r;
     cr_Accepted := cr_Accepted r; cr_AuthorizationDigest := cr_AuthorizationDigest r;
     cr_DeletionActionID := cr_DeletionActionID r; cr_DeletionRequestDigest := cr_DeletionRequestDigest r;
     cr_DeletionState := "deleted"; cr_DeletedAtUnix := wrap64 (now / time_Second) |}.

(** [body.ReceiverEncryptionPublicKey = key]. *)
Definition with_public_key (b : PrivateHandoffChallengeBody) (key : string) : PrivateHandoffChallengeBody :=
  {| hb_HandoffID := hb_HandoffID b; hb_AgreementBodyDigest := hb_AgreementBodyDigest b;
     hb_ObligationID := hb_ObligationID b; hb_SenderAgentID := hb_SenderAgentID b;
     hb_ReceiverAgentID := hb_ReceiverAgentID b; hb_IngressInstanceID := hb_IngressInstanceID b;
     hb_ReceiverEncryptionPublicKey := key; hb_RetentionPolicyDigest := hb_RetentionPolicyDigest b;
     hb_DeleteNotAfterUnix := hb_DeleteNotAfterUnix b; hb_Rest := hb_Rest b |}.

Definition challengeSchema : string := "tos.ai.private-ingress-challenge.v1".

Definition new_challenge (c : SignedPrivateHandoffChallenge) (privateKey : bytes) : challengeRecord :=
  {| cr_Schema := challengeSchema; cr_Challenge := c; cr_EncryptionPrivateKey := b64_encode privateKey;
     cr_Accepted := None; cr_AuthorizationDigest := ""; cr_DeletionActionID := ""; cr_DeletionRequestDigest := "";
     cr_DeletionState := ""; cr_DeletedAtUnix := 0 |}.

(** ** Records as JSON text *)

Definition text_body (b : PrivateHandoffChallengeBody) : PrivateHandoffChallengeBody :=
  {| hb_HandoffID := utf8_fix (hb_HandoffID b); hb_AgreementBodyDigest := utf8_fix (hb_AgreementBodyDigest b);
     hb_ObligationID := utf8_fix (hb_ObligationID b); hb_SenderAgentID := utf8_fix (hb_SenderAgentID b);
     hb_ReceiverAgentID := utf8_fix (hb_ReceiverAgentID b); hb_IngressInstanceID := utf8_fix (hb_IngressInstanceID b);
     hb_ReceiverEncryptionPublicKey := utf8_fix (hb_ReceiverEncryptionPublicKey b);
     hb_RetentionPolicyDigest := utf8_fix (hb_RetentionPolicyDigest b); hb_DeleteNotAfterUnix := hb_DeleteNotAfterUnix b;
     hb_Rest := utf8_fix (hb_Rest b) |}.

Definition text_accepted (a : AcceptedPrivateContentRecord) : AcceptedPrivateContentRecord :=
  {| ac_SchemaVersion := ac_SchemaVersion a; ac_HandoffID := utf8_fix (ac_HandoffID a);
     ac_ChallengeDigest := utf8_fix (ac_ChallengeDigest a); ac_AuthorizationDigest := utf8_fix (ac_AuthorizationDigest a);
     ac_UploadActionID := utf8_fix (ac_UploadActionID a);
     ac_SenderDisclosureActionID := utf8_fix (ac_SenderDisclosureActionID a);
     ac_ContentDigest := utf8_fix (ac_ContentDigest a); ac_ContentManifestDigest := utf8_fix (ac_ContentManifestDigest a);
     ac_PlaintextBytes := ac_PlaintextBytes a; ac_ImmutableObjectDigest := utf8_fix (ac_ImmutableObjectDigest a);
     ac_RetentionPolicyDigest := utf8_fix (ac_RetentionPolicyDigest a); ac_AcceptedAtUnix := ac_AcceptedAtUnix a;
     ac_DeleteNotAfterUnix := ac_DeleteNotAfterUnix a |}.

Definition text_challenge (r : challengeRecord) : challengeRecord :=
  {| cr_Schema := utf8_fix (cr_Schema r);
     cr_Challenge := {| sc_Body := text_body (sc_Body (cr_Challenge r)); sc_Signature := utf8_fix (sc_Signature (cr_Challenge r)) |};
     cr_EncryptionPrivateKey := utf8_fix (cr_EncryptionPrivateKey r); cr_Accepted := text_accepted <$> cr_Accepted r;
     cr_AuthorizationDigest := utf8_fix (cr_AuthorizationDigest r); cr_DeletionActionID := utf8_fix (cr_DeletionActionID r);
     cr_DeletionRequestDigest := utf8_fix (cr_DeletionRequestDigest r); cr_DeletionState := utf8_fix (cr_DeletionState r);
     cr_DeletedAtUnix := cr_DeletedAtUnix r |}.

Lemma text_body_idem b : text_body (text_body b) = text_body b.
Proof. unfold text_body. cbn. by rewrite !utf8_fix_idem. Qed.

Lemma text_accepted_idem a : text_accepted (text_accepted a) = text_accepted a.
Proof. unfold text_accepted. cbn. by rewrite !utf8_fix_idem. Qed.

#[refine, export] Instance text_challengeRecord : JsonText challengeRecord := {|
  json_text := text_challenge; json_keys _ := true; json_text_idem := _; json_keys_text := _ |}.
Proof.
  - intros r. unfold text_challenge. cbn [cr_Schema cr_Challenge sc_Body sc_Signature cr_EncryptionPrivateKey cr_Accepted
      cr_AuthorizationDigest cr_DeletionActionID cr_DeletionRequestDigest cr_DeletionState cr_DeletedAtUnix].
    rewrite !utf8_fix_idem, text_body_idem. destruct (cr_Accepted r) as [a|]; [|done]. cbn [fmap option_fmap option_map].
    by rewrite text_accepted_idem.
  - done.
Defined.

(** ** Names and files *)

Definition canonicalDigest (value : string) : bool :=
  if negb (len value =? len "sha256:" + 64) || (str_take 7 value <>s? "sha256:") then false
  else str_forallb is_lower_hex (str_drop 7 value).

Definition challengePath (st : Store) (handoffID : string) : path :=
  (st_directory st, "challenge-" +:+ hex_EncodeToString (sha256_Sum256 handoffID) +:+ ".json").

(** For the canonical digests the store keeps; the slice of a shorter one
    panics. *)
Definition objectPath (st : Store) (dig : string) : path :=
  (st_directory st, "object-" +:+ str_drop 7 dig +:+ ".bin").

Definition syncPrivateDirectory (directory : string) : IO (result unit) :=
  let! _ := lift_sys (open_dir directory) "open directory" in
  r ← sync_dir directory;
  c ← handle_call;
  mret (if negb (sys_ok r) then Err "sync directory" else fail_if (negb (sys_ok c)) "close directory").

(** Write, synchronise and close a new file: the errors of [file.Write] or
    [file.Sync], and of [file.Close]. *)
Definition write_and_close (p : path) (raw : bytes) : IO (sys unit * sys unit) :=
  r ← write_file p raw;
  r ← (if sys_ok r then fsync p else mret r);
  c ← close_file p;
  mret (r, c).

Definition createPrivate (p : path) (raw : bytes) : IO (result unit) :=
  let! _ := lift_sys (create_excl p o600) "create file" in
  rc ← write_and_close p raw;
  if negb (sys_ok rc.1) then mret (Err "write file") else
  if negb (sys_ok rc.2) then mret (Err "close file") else
  syncPrivateDirectory p.1.

(** The name of the temporary file of a replacement. *)
Definition temporary (p : path) (random : bytes) : path :=
  (p.1, p.2 +:+ "." +:+ hex_EncodeToString random +:+ ".tmp").

Section Ingress.
Context `{Commerce} `{PrivateCommerce} `{Json challengeRecord}.

Definition replacePrivate (p : path) (value : challengeRecord) : IO (result unit) :=
  random ← pop_rand;
  let! _ := lift_sys handle_call "read random bytes" in
  let temp := temporary p random in
  let! _ := lift_sys (create_excl temp o600) "create file" in
  rc ← write_and_close temp (json_marshal value);
  if negb (sys_ok rc.1) then _ ← remove temp; mret (Err "write file") else
  if negb (sys_ok rc.2) then _ ← remove temp; mret (Err "close file") else
  let! _ := lift_sys (rename temp p) "rename file" in
  syncPrivateDirectory p.1.

Definition readChallenge (p : path) : IO (result challengeRecord) :=
  info ← lstat p;
  match info with
  | SErr e => mret (Err (read_error e))
  | SOk i =>
      if negb (bool_decide (i_kind i = Regular)) || negb (i_perm i =? o600) || (len (i_data i) <=? 0) ||
         (Z.shiftl 1 20 <? len (i_data i))
      then mret (Err "private ingress challenge record is invalid") else
      raw ← read_file p;
      mret (match raw with
            | SErr e => Err (read_error e)
            | SOk raw =>
                match json_unmarshal raw with
                | None => Err "private ingress challenge record is malformed"
                | Some record =>
                    if cr_Schema record <>s? challengeSchema
                    then Err "private ingress challenge record is malformed" else Ok record
                end
            end)
  end.

(** The names [findChallenge] reads; [filepath.Ext] is [".json"] exactly for the
    names with that suffix. *)
Definition challenge_name (name : string) (type : kind) : bool :=
  bool_decide (type = Regular) && (len name =? len "challenge-" + 64 + len ".json") &&
  (str_take 10 name =s? "challenge-") && has_suffix name ".json".

Fixpoint find_loop (st : Store) (challengeDigest : string) (entries : list (string * kind))
    : IO (result (path * challengeRecord)) :=
  match entries with
  | [] => mret (Err ErrNotExist)
  | (name, type) :: rest =>
      if negb (challenge_name name type) then find_loop st challengeDigest rest else
      record ← readChallenge (st_directory st, name);
      match record with
      | Err _ => find_loop st challengeDigest rest
      | Ok record =>
          let (dig, digestErr) := PrivateHandoffChallengeDigest (sc_Body (cr_Challenge record)) in
          match digestErr with
          | None => if dig =s? challengeDigest then mret (Ok ((st_directory st, name), record))
                    else find_loop st challengeDigest rest
          | Some _ => find_loop st challengeDigest rest
          end
      end
  end.

Definition findChallenge (st : Store) (challengeDigest : string) : IO (result (path * challengeRecord)) :=
  let! entries := lift_sys (read_entries (st_directory st)) "list directory" in
  if 10000 <? llen entries then mret (Err "private ingress challenge index exceeds bound") else
  find_loop st challengeDigest entries.

(** ** Opening and closing *)

Definition Open (directory receiverAgentID : string) (signingKey : bytes) : IO (result Store) :=
  if negb (filepath_IsAbs directory) || (path_Clean directory <>s? directory) || (receiverAgentID =s? "") ||
     negb (len signingKey =? 64)
  then mret (Err "private ingress configuration is invalid") else
  let! _ := lift_sys (mkdir_all directory) "create directory" in
  info ← lstat ("", directory);
  match info with
  | SErr _ => mret (Err "private ingress directory must be owner-private")
  | SOk i =>
      if negb (bool_decide (i_kind i = Directory)) || negb (i_perm i =? o700)
      then mret (Err "private ingress directory must be owner-private") else
      let! _ := lift_sys (acquire_lock directory ".private-ingress.lock") "private ingress is already owned" in
      mret (Ok {| st_directory := directory; st_open := true; st_receiverAgent := receiverAgentID;
                  st_signingKey := signingKey |})
  end.

(** The signing key is overwritten with zeros. *)
Fixpoint zeroed (key : bytes) : bytes :=
  match key with EmptyString => "" | String _ key' => String "000" (zeroed key') end.

Definition Close (st : Store) : Store :=
  if negb (st_open st) then st else
  {| st_directory := st_directory st; st_open := false; st_receiverAgent := st_receiverAgent st;
     st_signingKey := zeroed (st_signingKey st) |}.

(** ** Challenges *)

Definition IssueChallenge (st : Store) (body : PrivateHandoffChallengeBody) : IO (result SignedPrivateHandoffChallenge) :=
  if negb (st_open st) || (hb_ReceiverAgentID body <>s? st_receiverAgent st) || (hb_IngressInstanceID body =s? "")
  then mret (Err "private ingress challenge is invalid") else
  let p := challengePath st (hb_HandoffID body) in
  existing ← readChallenge p;
  match existing with
  | Ok existing =>
      let body := with_public_key body (hb_ReceiverEncryptionPublicKey (sc_Body (cr_Challenge existing))) in
      let conflict := Err "handoff ID conflicts with an existing challenge" in
      mret (match SignPrivateHandoffChallenge body (st_signingKey st) with
            | Err _ => conflict
            | Ok candidate =>
                if (PrivateHandoffChallengeDigest (sc_Body candidate)).1 =s?
                   (PrivateHandoffChallengeDigest (sc_Body (cr_Challenge existing))).1
                then Ok (cr_Challenge existing) else conflict
            end)
  | Err e =>
      if e <>s? ErrNotExist then mret (Err e) else
      random ← pop_rand;
      match GenerateHandoffEncryptionKey random with
      | Err e => mret (Err e)
      | Ok (publicKey, privateKey) =>
          let body := with_public_key body (b64_encode publicKey) in
          let! challenge := mret (SignPrivateHandoffChallenge body (st_signingKey st)) in
          match PrivateHandoffChallengeDigest body with
          | (_, Some e) => mret (Err e)
          | (dig, None) =>
              let record := new_challenge challenge privateKey in
              created ← createPrivate p (json_marshal record);
              match created with
              | Ok _ => mret (Ok challenge)
              | Err e =>
                  existing ← readChallenge p;
                  mret (match existing with
                        | Ok existing =>
                            if (PrivateHandoffChallengeDigest (sc_Body (cr_Challenge existing))).1 =s? dig
                            then Ok (cr_Challenge existing) else Err e
                        | Err _ => Err e
                        end)
              end
          end
      end
  end.

(** ** Accepting content *)

Definition UploadAuthorizationMaterial (ownerID agentID : string) (challenge : SignedPrivateHandoffChallenge)
    (authorization : SignedPrivateHandoffAuthorization) : result (bytes * gmap string SemanticValue) :=
  let* challengeDigest := (match PrivateHandoffChallengeDigest (sc_Body challenge) with
                           | (d, None) => Ok d | (_, Some e) => Err e end) in
  let* manifestDigest := codec_Digest_manifest "tos.private-content-manifest.v1" (ab_Manifest (sa_Body authorization)) in
  let* canonical := codec_Marshal_upload
    {| ur_ChallengeDigest := challengeDigest; ur_Authorization := authorization;
       ur_CiphertextDigest := ab_CiphertextDigest (sa_Body authorization);
       ur_CiphertextBytes := ab_CiphertextBytes (sa_Body authorization) |} in
  Ok (canonical,
      {[ "owner_id" := SV_ID ownerID; "agent_id" := SV_ID agentID;
         "agreement_body_digest" := SV_Digest32 (hb_AgreementBodyDigest (sc_Body challenge));
         "obligation_id" := SV_ID (hb_ObligationID (sc_Body challenge));
         "handoff_id" := SV_ID (hb_HandoffID (sc_Body challenge));
         "sender_id" := SV_ID (hb_SenderAgentID (sc_Body challenge));
         "receiver_id" := SV_ID (hb_ReceiverAgentID (sc_Body challenge));
         "content_manifest_digest" := SV_Digest32 manifestDigest ]}).

(** [ecdh.X25519().NewPrivateKey] takes any 32 bytes. *)
Definition NewPrivateKey (raw : bytes) : result bytes :=
  if len raw =? 32 then Ok raw else Err "crypto/ecdh: invalid private key size".

Definition new_accepted (record : challengeRecord) (challengeDigest authorizationDigest manifestDigest : string)
    (authorization : SignedPrivateHandoffAuthorization) (action : AuthorizedAction) (plaintext : bytes) (now : Z)
    : AcceptedPrivateContentRecord :=
  let body := sc_Body (cr_Challenge record) in
  let content := cm_ContentDigest (ab_Manifest (sa_Body authorization)) in
  {| ac_SchemaVersion := 1; ac_HandoffID := hb_HandoffID body; ac_ChallengeDigest := challengeDigest;
     ac_AuthorizationDigest := authorizationDigest; ac_UploadActionID := aa_StableActionID action;
     ac_SenderDisclosureActionID := ab_SenderDisclosureActionID (sa_Body authorization);
     ac_ContentDigest := content; ac_ContentManifestDigest := manifestDigest; ac_PlaintextBytes := len plaintext;
     ac_ImmutableObjectDigest := content; ac_RetentionPolicyDigest := hb_RetentionPolicyDigest body;
     ac_AcceptedAtUnix := wrap64 (now / time_Second); ac_DeleteNotAfterUnix := hb_DeleteNotAfterUnix body |}.

(** The part of [Accept] that stores the bytes. *)
Definition store_object (p : path) (plaintext : bytes) : IO (result unit) :=
  created ← createPrivate p plaintext;
  match created with
  | Ok _ => mret (Ok tt)
  | Err _ =>
      existing ← read_file p;
      mret (match existing with
            | SOk existing => fail_if (existing <>s? plaintext) "immutable private object conflicts with accepted bytes"
            | SErr _ => Err "immutable private object conflicts with accepted bytes"
            end)
  end.

(** [OpenPrivateContent] under the key of the record. *)
Definition decrypt (record : challengeRecord) (authorization : SignedPrivateHandoffAuthorization) (ciphertext : bytes)
    (now : Z) : result bytes :=
  match b64_decode (cr_EncryptionPrivateKey record) with
  | None => Err "private ingress challenge key is invalid"
  | Some privateRaw =>
      fail_if (negb (len privateRaw =? 32)) "private ingress challenge key is invalid" ;;;
      let* privateKey := NewPrivateKey privateRaw in
      OpenPrivateContent (cr_Challenge record) authorization ciphertext privateKey now
  end.

(** [UploadAuthorizationMaterial] and the checks on it. *)
Definition upload_authorised (record : challengeRecord) (challengeDigest : string)
    (authorization : SignedPrivateHandoffAuthorization) (action : AuthorizedAction) (fence : WriterFence) (now : Z)
    : result unit :=
  match UploadAuthorizationMaterial (aa_OwnerID action) (aa_AgentID action) (cr_Challenge record) authorization with
  | Err _ => Err "private upload is not the exact authorized action"
  | Ok (canonical, fields) =>
      fail_if ((ab_ChallengeDigest (sa_Body authorization) <>s? challengeDigest) ||
               negb (is_ok (VerifyAuthorizedAction action fields canonical fence now)))
        "private upload is not the exact authorized action"
  end.

Definition Accept (st : Store) (challengeDigest : string) (authorization : SignedPrivateHandoffAuthorization)
    (ciphertext : bytes) (action : AuthorizedAction) (fence : WriterFence) (now : Z)
    : IO (result AcceptedPrivateContentRecord) :=
  if negb (st_open st) || (aa_ActionKind action <>s? "content.upload") || negb (canonicalDigest challengeDigest)
  then mret (Err "private ingress upload is invalid") else
  let! _ := require (VerifyWriterFence fence now "content.upload") in
  let! _ := require (ConfirmCurrentWriterFence fence now) in
  let! (challengeRecordPath, record) := findChallenge st challengeDigest in
  let! _ := require (upload_authorised record challengeDigest authorization action fence now) in
  let! authorizationDigest := mret (PrivateHandoffAuthorizationDigest (sa_Body authorization)) in
  match cr_Accepted record with
  | Some accepted =>
      mret (if (cr_AuthorizationDigest record =s? authorizationDigest) &&
               (ac_UploadActionID accepted =s? aa_StableActionID action) then Ok accepted
            else Err "private ingress challenge already accepted conflicting bytes")
  | None =>
      let! plaintext := mret (decrypt record authorization ciphertext now) in
      let manifest := ab_Manifest (sa_Body authorization) in
      let! _ := store_object (objectPath st (cm_ContentDigest manifest)) plaintext in
      let! manifestDigest := mret (codec_Digest_manifest "tos.private-content-manifest.v1" manifest) in
      let accepted := new_accepted record challengeDigest authorizationDigest manifestDigest authorization action
                        plaintext now in
      let! _ := replacePrivate challengeRecordPath (accepted_record record accepted authorizationDigest) in
      mret (Ok accepted)
  end.

(** ** Serving content *)

(** [openAccepted]: the file the returned handle refers to. *)
Definition openAccepted (st : Store) (record : AcceptedPrivateContentRecord) : IO (result inode) :=
  if negb (canonicalDigest (ac_ContentDigest record)) || (ac_ImmutableObjectDigest record <>s? ac_ContentDigest record)
  then mret (Err "accepted private content record is invalid") else
  let p := objectPath st (ac_ContentDigest record) in
  let! info := lift_sys (lstat p) "accepted private content object is unavailable" in
  if negb (bool_decide (i_kind info = Regular)) || negb (len (i_data info) =? ac_PlaintextBytes record)
  then mret (Err "accepted private content object is unavailable") else
  let! opened := lift_sys (op (fun d => (lookup_sys p d, d))) "open accepted private content object" in
  let! _ := lift_sys handle_call "accepted private content object changed during open" in
  if negb (bool_decide (info = opened)) then mret (Err "accepted private content object changed during open") else
  let! _ := lift_sys handle_call "read accepted private content object" in
  if digest (limit_read (sint64 (sint64 (ac_PlaintextBytes record) + 1)) (i_data opened)) <>s? ac_ContentDigest record
  then mret (Err "accepted private content digest changed") else
  let! _ := lift_sys handle_call "seek accepted private content object" in
  mret (Ok opened).

Definition OpenAccepted (st : Store) (record : AcceptedPrivateContentRecord) : IO (result inode) := openAccepted st record.

Definition Acknowledge (st : Store) (record : AcceptedPrivateContentRecord)
    : IO (result SignedPrivateHandoffAcknowledgement) :=
  if negb (st_open st) then mret (Err "private ingress is unavailable") else
  let! _ := openAccepted st record in
  mret (SignPrivateHandoffAcknowledgement record (st_receiverAgent st) (st_signingKey st)).

(** ** Deletion *)

Definition DeleteAuthorizationMaterial (ownerID agentID : string) (challenge : SignedPrivateHandoffChallenge)
    (accepted : AcceptedPrivateContentRecord) : result (bytes * gmap string SemanticValue) :=
  let body := sc_Body challenge in
  let* canonical := codec_Marshal_delete
    {| dr_HandoffID := hb_HandoffID body; dr_AgreementBodyDigest := hb_AgreementBodyDigest body;
       dr_ObligationID := hb_ObligationID body; dr_ContentManifestDigest := ac_ContentManifestDigest accepted;
       dr_RetentionPolicyDigest := ac_RetentionPolicyDigest accepted |} in
  Ok (canonical,
      {[ "owner_id" := SV_ID ownerID; "agent_id" := SV_ID agentID;
         "agreement_body_digest" := SV_Digest32 (hb_AgreementBodyDigest body);
         "obligation_id" := SV_ID (hb_ObligationID body); "handoff_id" := SV_ID (hb_HandoffID body);
         "content_manifest_digest" := SV_Digest32 (ac_ContentManifestDigest accepted);
         "retention_policy_digest" := SV_Digest32 (ac_RetentionPolicyDigest accepted) ]}).

Definition deletion_resolution (action : AuthorizedAction) (requestDigest challengeDigest : string)
    (accepted : AcceptedPrivateContentRecord) : ActionResolution :=
  {| re_StableActionID := aa_StableActionID action; re_ExactRequestDigest := requestDigest; re_Terminal := true;
     re_SinkReference := "private-ingress:" +:+ challengeDigest; re_EvidenceRefs := [ac_ContentDigest accepted];
     re_StateRevision := 2 |}.

(** [os.Remove], where a missing file is no error. *)
Definition remove_object (p : path) : IO (result unit) :=
  r ← remove p;
  mret (match r with SOk _ | SErr ENOENT => Ok tt | SErr e => Err (read_error e) end).

(** Opening, synchronising and closing the directory; the error of the last is
    ignored. *)
Definition sync_store (st : Store) : IO (result unit) :=
  let! _ := lift_sys (open_dir (st_directory st)) "open directory" in
  r ← sync_dir (st_directory st);
  _ ← handle_call;
  mret (fail_if (negb (sys_ok r)) "sync directory").

(** The part of [Delete] after the journal entry. *)
Definition finish_deletion (st : Store) (p : path) (record : challengeRecord) (accepted : AcceptedPrivateContentRecord)
    (now : Z) : IO (result unit) :=
  let! _ := remove_object (objectPath st (ac_ContentDigest accepted)) in
  let! _ := sync_store st in
  replacePrivate p (deleted_record record now).

(** What follows the checks of [Delete]. *)
Definition delete_object (st : Store) (p : path) (record : challengeRecord) (accepted : AcceptedPrivateContentRecord)
    (action : AuthorizedAction) (requestDigest : string) (now : Z) : IO (result unit) :=
  let! record := (if cr_DeletionState record =s? "" then
                    let record := deleting_record record (aa_StableActionID action) requestDigest in
                    let! _ := replacePrivate p record in mret (Ok record)
                  else mret (Ok record)) in
  finish_deletion st p record accepted now.

Definition Delete (st : Store) (challengeDigest : string) (action : AuthorizedAction) (fence : WriterFence) (now : Z)
    : IO (result ActionResolution) :=
  if negb (st_open st) || (aa_ActionKind action <>s? "content.delete") || negb (canonicalDigest challengeDigest)
  then mret (Err "private content deletion is invalid") else
  let! _ := require (VerifyWriterFence fence now "content.delete") in
  let! _ := require (ConfirmCurrentWriterFence fence now) in
  found ← findChallenge st challengeDigest;
  match found with
  | Err _ => mret (Err "accepted private content was not found")
  | Ok (p, record) =>
      match cr_Accepted record with
      | None => mret (Err "accepted private content was not found")
      | Some accepted =>
          match DeleteAuthorizationMaterial (aa_OwnerID action) (aa_AgentID action) (cr_Challenge record) accepted with
          | Err _ => mret (Err "private deletion is not the exact authorized action")
          | Ok (canonical, fields) =>
              if negb (is_ok (VerifyAuthorizedAction action fields canonical fence now))
              then mret (Err "private deletion is not the exact authorized action") else
              let requestDigest := (ExactRequestDigest canonical).1 in
              if (cr_DeletionActionID record <>s? "") &&
                 ((cr_DeletionActionID record <>s? aa_StableActionID action) ||
                  (cr_DeletionRequestDigest record <>s? requestDigest))
              then mret (Err "private content has a conflicting deletion action") else
              if cr_DeletionState record =s? "deleted"
              then mret (Ok (deletion_resolution action requestDigest challengeDigest accepted)) else
              let! _ := delete_object st p record accepted action requestDigest now in
              mret (Ok (deletion_resolution action requestDigest challengeDigest accepted))
          end
      end
  end.

(** ** The protocol of a record *)

Inductive handoff_step : challengeRecord -> challengeRecord -> Prop :=
| hs_accepted r a authorizationDigest : cr_Accepted r = None -> handoff_step r (accepted_record r a authorizationDigest)
| hs_deleting r actionID requestDigest :
    is_Some (cr_Accepted r) -> cr_DeletionState r = "" ->
    (cr_DeletionActionID r = "" \/ (cr_DeletionActionID r = actionID /\ cr_DeletionRequestDigest r = requestDigest)) ->
    handoff_step r (deleting_record r actionID requestDigest)
| hs_deleted r now :
    is_Some (cr_Accepted r) -> cr_DeletionState r <> "" -> cr_DeletionState r <> "deleted" ->
    handoff_step r (deleted_record r now).

(** What an operation writes from the record it read: a step, or the two of a
    whole deletion. *)
Inductive handoff_move : challengeRecord -> challengeRecord -> Prop :=
| hm_step r r' : handoff_step r r' -> handoff_move r r'
| hm_delete r actionID requestDigest now : is_Some (cr_Accepted r) -> handoff_step r (deleting_record r actionID requestDigest) ->
    handoff_move r (deleted_record (deleting_record r actionID requestDigest) now).

Lemma handoff_step_text r r' : clean r -> handoff_step r r' -> handoff_step r (json_text r').
Proof.
  intros [Ht _] Hs. destruct Hs as [r a ad Hn|r id rd Ha Hd Hid|r now Ha Hd Hne].
  - replace (json_text (accepted_record r a ad)) with (accepted_record (json_text r) (text_accepted a) (utf8_fix ad)) by done.
    rewrite Ht. by constructor.
  - replace (json_text (deleting_record r id rd)) with (deleting_record (json_text r) (utf8_fix id) (utf8_fix rd)) by done.
    rewrite Ht. constructor; [done|done|]. destruct Hid as [He|[Hi Hr]]; [by left|right]. rewrite <- Hi, <- Hr.
    split; [exact (eq_sym (f_equal cr_DeletionActionID Ht))|exact (eq_sym (f_equal cr_DeletionRequestDigest Ht))].
  - replace (json_text (deleted_record r now)) with (deleted_record (json_text r) now) by done. rewrite Ht. by constructor.
Qed.

(** A move from a record that was read reads back as a move from it. *)
Lemma handoff_move_text r r' : clean r -> handoff_move r r' -> json_keys r' = true /\ handoff_move r (json_text r').
Proof.
  intros Hc Hs. split; [done|]. destruct Hs as [r r' Hs|r id rd now Ha Hs]; [apply hm_step; by apply handoff_step_text|].
  pose proof (handoff_step_text r _ Hc Hs) as Hs'.
  replace (json_text (deleted_record (deleting_record r id rd) now))
    with (deleted_record (deleting_record (json_text r) (utf8_fix id) (utf8_fix rd)) now) by done.
  replace (json_text (deleting_record r id rd)) with (deleting_record (json_text r) (utf8_fix id) (utf8_fix rd)) in Hs' by done.
  rewrite (proj1 Hc) in *. by apply hm_delete.
Qed.

Lemma handoff_moves r r' : rtc handoff_move r r' -> rtc handoff_step r r'.
Proof.
  induction 1 as [|r1 r2 r3 Hm _ IH]; [done|]. destruct Hm as [r1 r2 Hs|r1 id rd now Ha Hs]; [by eapply rtc_l|].
  eapply rtc_l; [exact Hs|]. eapply rtc_l; [|exact IH]. by constructor.
Qed.

(** What every later record keeps: the challenge, once accepted the accepted
    content and the erased key, once it is named the deletion action. *)
Definition keeps_promises (r r' : challengeRecord) : Prop :=
  cr_Challenge r' = cr_Challenge r /\
  (forall a, cr_Accepted r = Some a ->
     cr_Accepted r' = Some a /\ cr_AuthorizationDigest r' = cr_AuthorizationDigest r /\
     cr_EncryptionPrivateKey r' = cr_EncryptionPrivateKey r) /\
  (cr_DeletionState r <> "" -> cr_DeletionState r' <> "" /\ cr_DeletionActionID r' = cr_DeletionActionID r /\
     cr_DeletionRequestDigest r' = cr_DeletionRequestDigest r) /\
  (cr_DeletionState r = "deleted" -> is_Some (cr_Accepted r) -> r' = r).

Lemma handoff_steps_keep r r' : rtc handoff_step r r' -> keeps_promises r r'.
Proof.
  intros Hs. induction Hs as [r|r1 r2 r3 Hstep _ (IH1 & IH2 & IH3 & IH4)].
  { split_and!; auto. }
  destruct Hstep as [r a ad Hn|r x y [a Ha] Hd Hid|r now [a Ha] Hd Hne]; simpl in *; split_and!; auto; try congruence.
  - intros Hdel [b Hb]. congruence.
Qed.

(** ** Writing *)

Lemma syncPrivateDirectory_keeps I dir : (forall d, I d -> I (d_sync dir d)) -> keeps I (syncPrivateDirectory dir).
Proof. intros HI. unfold syncPrivateDirectory, ebind, lift_sys, handle_call. keeps_steps; auto. Qed.

Lemma syncPrivateDirectory_wp dir base d Φ :
  always d (dir, base) Φ ->
  wp any (syncPrivateDirectory dir)
    (fun r d' => d_live d' = d_live d /\ always d' (dir, base) Φ /\
       (r = Ok tt -> always d' (dir, base) (fun v => v = d_live d !! (dir, base))))
    (fun d' => always d' (dir, base) Φ) d.
Proof.
  intros Ha. unfold syncPrivateDirectory, ebind, lift_sys, handle_call.
  wp_steps; split_and?; auto with fs; try (intros [=]; fail); intros _; by apply always_synced.
Qed.

Lemma wp_pop_rand S Q C d : (forall s, Q s d) -> wp S pop_rand Q C d.
Proof. intros HQ script rand HS. unfold pop_rand. by destruct rand; split. Qed.

(** A successful creation found the name free, and the file is complete now and
    after any power loss; a creation never changes an existing file. *)
Lemma createPrivate_wp q raw d :
  wp any (createPrivate q raw)
    (fun r d' => (r = Ok tt -> d_live d !! q = None /\ always d' q (fun v => v = Some (plain_file o600 raw))) /\
       (forall i, d_live d' !! q = Some i -> d_live d !! q = Some i \/ i_kind i = Regular))
    (fun _ => True) d.
Proof.
  unfold createPrivate, write_and_close, ebind, lift_sys. destruct q as [dir base]. wp_step. wp_step.
  wp_step; [done|apply wp_ret; apply wp_ret; split; [intros [=]|auto]|].
  destruct (d_live d !! (dir, base)) as [i|] eqn:Hi; cbn [fst snd].
  { apply wp_ret, wp_ret. split; [intros [=]|]. intros j Hj. rewrite Hi in Hj. auto. }
  apply wp_ret. wp_steps; try done.
  1-7: split; [intros [=]|]; intros i; rewrite ?live_mod, ?live_upd, ?decide_True by done; intros [= <-]; auto.
  cbn [fst snd]. eapply wp_mono; [apply (syncPrivateDirectory_wp dir base _ (fun _ => True)); done| |done].
  rewrite !live_mod, live_upd, !decide_True by done. intros r d' (Hl & _ & Hr). split; [auto|].
  rewrite Hl, !live_mod, live_upd, !decide_True by done. intros i [= <-]; auto.
Qed.

Lemma createPrivate_keeps p q raw I :
  about p I -> (forall d, I d -> is_Some (d_live d !! p)) -> keeps I (createPrivate q raw).
Proof.
  intros [Hu Hm Hsync] Hlive d Ha. destruct (decide (q = p)) as [->|Hne].
  - unfold createPrivate, ebind, lift_sys. destruct (Hlive d Ha) as [i Hi].
    wp_step. wp_step. wp_step; [done|by apply wp_ret, wp_ret|]. rewrite Hi. by apply wp_ret, wp_ret.
  - apply (keeps_mono I); [|done|done|done]. unfold createPrivate, write_and_close, ebind, lift_sys.
    keeps_steps; try (apply syncPrivateDirectory_keeps; intros); repeat case_match; cbn [fst snd]; eauto with fs.
Qed.

(** An atomic replacement, whatever the name of its temporary file. *)
Lemma replacePrivate_wp p value d Φ :
  always d p Φ -> is_Some (d_live d !! p) -> Φ (Some (json_file value)) ->
  wp any (replacePrivate p value)
    (fun r d' => always d' p Φ /\ (r = Ok tt -> always d' p (fun v => v = Some (json_file value))))
    (fun d' => always d' p Φ) d.
Proof.
  intros Ha [i Hi] HΦ. unfold replacePrivate, write_and_close, ebind, lift_sys, handle_call. wp_step. apply wp_pop_rand. intros random.
  generalize (temporary p random) as temp. intros temp. cbn zeta.
  do 3 wp_step; [done|by apply wp_ret, wp_ret|]. apply wp_ret. wp_step. wp_step.
  wp_step; [done|by apply wp_ret, wp_ret|]. destruct (d_live d !! temp) as [j|] eqn:Ht; [by apply wp_ret, wp_ret|].
  assert (Hne : temp <> p) by congruence. cbn [fst snd]. apply wp_ret.
  assert (Hu : forall v d, always d p Φ -> always (d_upd temp v d) p Φ) by (intros v d0 H0'; by apply always_upd).
  assert (Hm : forall f d, always d p Φ -> always (d_mod temp f d) p Φ) by (intros f d0 H0'; by apply always_mod).
  wp_steps; repeat case_match; cbn [fst snd]; try (split; [|intros [=]]); auto 10 with fs.
  all: try match goal with Hl : d_live (d_mod _ mark_synced _) !! _ = Some ?i |- _ =>
         rewrite !live_mod, !live_upd, !decide_True in Hl by done; cbn in Hl; injection Hl as <-;
         change (mark_synced _) with (json_file value) end.
  all: cbn [fst snd] in *; try discriminate; try (by apply Hu, always_upd; auto).
  destruct p as [dir base]. eapply wp_mono; [apply (syncPrivateDirectory_wp dir base _ Φ); by apply Hu, always_upd; auto| |done].
  rewrite live_upd, decide_False, live_upd, decide_True by done. intros r d' (_ & ? & ?). done.
Qed.

Lemma replacePrivate_other q p value I :
  about p I -> (forall d random, I d -> d_live d !! temporary q random = None -> temporary q random <> p) -> q <> p ->
  keeps I (replacePrivate q value).
Proof.
  intros [Hu Hm Hsync] Hfresh Hq d Ha. unfold replacePrivate, write_and_close, ebind, lift_sys, handle_call. wp_step.
  apply wp_pop_rand. intros random. specialize (Hfresh d random Ha). revert Hfresh.
  generalize (temporary q random) as temp. intros temp Hfresh. cbn zeta.
  do 3 wp_step; [done|by apply wp_ret, wp_ret|]. apply wp_ret. wp_step. wp_step.
  wp_step; [done|by apply wp_ret, wp_ret|]. destruct (d_live d !! temp) as [j|] eqn:Ht; [by apply wp_ret, wp_ret|].
  specialize (Hfresh eq_refl). cbn [fst snd]. apply wp_ret.
  apply (keeps_mono I); [|by apply Hu|done|done].
  keeps_steps; try (apply syncPrivateDirectory_keeps; intros); repeat case_match; cbn [fst snd]; eauto 10 with fs.
Qed.

(** A name in use is not chosen for a temporary file. *)
Lemma temporary_unused p q (I : disk -> Prop) :
  (forall d, I d -> is_Some (d_live d !! p)) ->
  forall d random, I d -> d_live d !! temporary q random = None -> temporary q random <> p.
Proof. intros Hlive d random Hd Hn Heq. rewrite Heq in Hn. destruct (Hlive d Hd). congruence. Qed.

Lemma at_path_live (P : challengeRecord -> Prop) p d : at_path P p d -> is_Some (d_live d !! p).
Proof. intros Hp. exact (holds_some _ _ (always_live _ _ _ Hp)). Qed.

Lemma replacePrivate_inv P p q entry d :
  at_path P p d -> is_Some (d_live d !! q) -> (q = p -> P entry) ->
  wp any (replacePrivate q entry)
    (fun r d' => at_path P p d' /\ (r = Ok tt -> always d' q (fun v => v = Some (json_file entry)))) (at_path P p) d.
Proof.
  intros Hp Hq HP. destruct (decide (q = p)) as [->|Hne].
  - apply replacePrivate_wp; [done|done|]. exists entry. auto.
  - eapply wp_mono; [apply (wp_and _ _ _ _ _ _ _ (replacePrivate_other q p entry (at_path P p) (about_always _ _) (temporary_unused p q _ (at_path_live P p)) Hne d Hp)
      (replacePrivate_wp q entry d (fun _ => True) ltac:(done) Hq I))| |].
    + intros r d' [H1' [_ H2']]. done.
    + by intros d' [H1' _].
Qed.

(** ** Reading *)

Lemma readChallenge_wp p d :
  wp any (readChallenge p)
    (fun x d' => d' = d /\ forall r, x = Ok r -> exists i, d_live d !! p = Some i /\ json_unmarshal (i_data i) = Some r)
    (fun d' => d' = d) d.
Proof.
  unfold readChallenge. wp_step. wp_step; [done|by apply wp_ret|]. unfold lookup_sys.
  destruct (d_live d !! p) as [i|] eqn:Hi; [|by apply wp_ret].
  wp_step; [by apply wp_ret|]. wp_step. wp_step; [done|by apply wp_ret|]. rewrite Hi. cbn [fst snd]. apply wp_ret.
  split; [done|]. intros r Hr. bool_props. destruct (json_unmarshal (i_data i)) as [x|] eqn:Hj; [|done].
  destruct (cr_Schema x <>s? challengeSchema); [done|]. injection Hr as <-. eauto.
Qed.

Lemma str_take_prefix n s t : str_take n s = t -> s = t +:+ str_drop n s.
Proof. intros <-. symmetry. apply str_take_drop. Qed.

(** The names of challenge records. *)
Definition challenge_named (p : path) : Prop := exists s, p.2 = "challenge-" +:+ s.

(** A record in the directory, as it is read. *)
Definition readable (d : disk) (p : path) (r : challengeRecord) : Prop :=
  exists i, d_live d !! p = Some i /\ json_unmarshal (i_data i) = Some r.

(** A name [os.ReadDir] returns for the store's directory. *)
Definition listed (st : Store) (d : disk) (q : path) : Prop :=
  q.1 = st_directory st /\ q.2 ∈ names_in (st_directory st) d.

Lemma findChallenge_wp st cd d :
  wp any (findChallenge st cd)
    (fun x d' => d' = d /\ forall q r, x = Ok (q, r) ->
       listed st d q /\ (exists s, q.2 = "challenge-" +:+ s) /\ readable d q r /\
       PrivateHandoffChallengeDigest (sc_Body (cr_Challenge r)) = (cd, None))
    (fun d' => d' = d) d.
Proof.
  unfold findChallenge. apply wp_ebind. unfold lift_sys. apply wp_bind. wp_step; [done|by apply wp_ret|].
  apply wp_ret. wp_step; [by apply wp_ret|]. clear E.
  assert (Hin : forall n, n ∈ names_in (st_directory st) d -> n ∈ names_in (st_directory st) d) by done. revert Hin.
  generalize (names_in (st_directory st) d) at 1 3. intros l Hin. induction l as [|name rest IH]; simpl; [by apply wp_ret|].
  assert (Hrest : forall n, n ∈ rest -> n ∈ names_in (st_directory st) d) by (intros n Hn; apply Hin; by right).
  specialize (IH Hrest). assert (Hname : name ∈ names_in (st_directory st) d) by (apply Hin; left).
  set (type := kind_in _ _ _). wp_step; [done|].
  wp_step. eapply wp_mono; [apply readChallenge_wp| |done]. intros x d' [-> Hx]. destruct x as [r|e]; [|done].
  destruct (PrivateHandoffChallengeDigest (sc_Body (cr_Challenge r))) as [dig [e|]] eqn:Hd; [done|].
  wp_step; [|done]. apply wp_ret. split; [done|]. intros q r' [= <- <-]. bool_props. subst dig. split_and!; [by split| |by apply Hx|done].
  unfold challenge_name in E. bool_props. exists (str_drop 10 name).
  by apply (str_take_prefix 10 name "challenge-").
Qed.

(** ** The operations follow the protocol *)

Context {laws : JsonTextLaws challengeRecord}.
Local Abbreviation stable := (stable handoff_move).

Lemma readable_inv P Q p q r d : stable P Q -> at_path P p d -> readable d q r -> q = p -> Q r.
Proof. intros HPQ Hp (i & Hi & Hj) ->. by eapply at_path_read. Qed.

Lemma readable_clean q r d : readable d q r -> clean r.
Proof. intros (i & _ & Hj). by eapply decoded_clean. Qed.

Lemma readable_live q r d : readable d q r -> is_Some (d_live d !! q).
Proof. intros (i & Hi & _). by exists i. Qed.

Lemma IssueChallenge_inv P p st body : keeps (at_path P p) (IssueChallenge st body).
Proof.
  assert (Hread : forall q, keeps (at_path P p) (readChallenge q)).
  { intros q d Hd. eapply wp_mono; [apply readChallenge_wp|by intros x d' [-> _]|by intros d' ->]. }
  unfold IssueChallenge. keeps_step; [apply keeps_ret|]. cbn zeta. apply keeps_bind; [apply Hread|].
  intros [existing|e]; [apply keeps_ret|]. keeps_step; [apply keeps_ret|].
  apply keeps_bind; [intros d Hd; by apply wp_pop_rand|]. intros random.
  destruct (GenerateHandoffEncryptionKey random) as [[pub priv]|e']; [|apply keeps_ret].
  apply keeps_ebind; [apply keeps_ret|]. intros c. destruct (PrivateHandoffChallengeDigest _) as [dig [e'|]]; [apply keeps_ret|].
  apply keeps_bind; [apply (createPrivate_keeps p); [apply about_always|apply at_path_live]|]. intros [u|e']; [apply keeps_ret|].
  apply keeps_bind; [apply Hread|]. intros x. apply keeps_ret.
Qed.

Lemma store_object_keeps p q pt I :
  about p I -> (forall d, I d -> is_Some (d_live d !! p)) -> keeps I (store_object q pt).
Proof.
  intros Hab Hlive. unfold store_object. apply keeps_bind; [by eapply createPrivate_keeps|].
  intros [u|e]; keeps_steps; done.
Qed.

(** After a success the object has the bytes; it was there before, or it is a
    new regular file. *)
Lemma store_object_wp q pt d :
  wp any (store_object q pt)
    (fun r d' => r = Ok tt -> exists i, d_live d' !! q = Some i /\ i_data i = pt /\ (d_live d !! q = Some i \/ i_kind i = Regular))
    (fun _ => True) d.
Proof.
  unfold store_object. wp_step. eapply wp_mono; [apply createPrivate_wp| |done].
  intros [u|e] d1 [H1' H2']; [|wp_steps; try done].
  - apply wp_ret. intros _. destruct u. destruct (H1' eq_refl) as [_ Hal%always_live]. rewrite Hal in *. eauto.
  - destruct (d_live d1 !! q) as [i|] eqn:Hi; [|done]. unfold fail_if. case_match; [done|]. bool_props. eauto.
Qed.

(** What [Accept] found and did when it returned [a]. *)
Definition accept_post (st : Store) (challengeDigest : string) (authorization : SignedPrivateHandoffAuthorization)
    (ciphertext : bytes) (action : AuthorizedAction) (fence : WriterFence) (now : Z) (d d' : disk)
    (a : AcceptedPrivateContentRecord) : Prop :=
  VerifyWriterFence fence now "content.upload" = Ok tt /\ ConfirmCurrentWriterFence fence now = Ok tt /\
  aa_ActionKind action = "content.upload" /\
  exists q r ad,
    challenge_named q /\ readable d q r /\ PrivateHandoffChallengeDigest (sc_Body (cr_Challenge r)) = (challengeDigest, None) /\
    upload_authorised r challengeDigest authorization action fence now = Ok tt /\
    PrivateHandoffAuthorizationDigest (sa_Body authorization) = Ok ad /\
    ((cr_Accepted r = Some a /\ cr_AuthorizationDigest r = ad /\ ac_UploadActionID a = aa_StableActionID action /\ d' = d) \/
     (cr_Accepted r = None /\
      always d' q (fun v => v = Some (json_file (accepted_record r a ad))) /\
      exists pt md i, decrypt r authorization ciphertext now = Ok pt /\
        a = new_accepted r challengeDigest ad md authorization action pt now /\
        d_live d' !! objectPath st (cm_ContentDigest (ab_Manifest (sa_Body authorization))) = Some i /\ i_data i = pt /\
        (d_live d !! objectPath st (cm_ContentDigest (ab_Manifest (sa_Body authorization))) = Some i \/ i_kind i = Regular))).

Lemma object_not_challenge st dig q : (exists s, q.2 = "challenge-" +:+ s) -> q <> objectPath st dig.
Proof. intros [s Hs] ->. discriminate Hs. Qed.

Lemma Accept_wp st cd auth ct action fence now d :
  wp any (Accept st cd auth ct action fence now)
    (fun x d' => forall a, x = Ok a -> accept_post st cd auth ct action fence now d d' a) (fun _ => True) d.
Proof.
  unfold Accept. wp_step; [by apply wp_ret|]. assert (Hkind : aa_ActionKind action = "content.upload") by (by bool_props).
  apply wp_require; [done|]. intros Hf. apply wp_require; [done|]. intros Hc.
  apply wp_ebind. eapply wp_mono; [apply findChallenge_wp| |done]. intros [[q r]|e] d' [-> Hfind]; [|done].
  destruct (Hfind q r eq_refl) as (_ & Hname & Hread & Hdig). clear Hfind.
  apply wp_require; [done|]. intros Hau. apply wp_ebind, wp_ret.
  destruct (PrivateHandoffAuthorizationDigest (sa_Body auth)) as [ad|] eqn:Had; [|done].
  destruct (cr_Accepted r) as [a|] eqn:Hacc.
  { apply wp_ret. intros b. destruct (cr_AuthorizationDigest r =s? ad) eqn:E1; [|done].
    destruct (ac_UploadActionID a =s? aa_StableActionID action) eqn:E2; [|done]. intros [= <-]. bool_props.
    split_and!; [done..|]. exists q, r, ad. split_and!; auto. }
  apply wp_ebind, wp_ret. destruct (decrypt r auth ct now) as [pt|] eqn:Hpt; [|done].
  set (obj := objectPath st (cm_ContentDigest (ab_Manifest (sa_Body auth)))).
  assert (Hne : q <> obj) by (by apply object_not_challenge).
  apply wp_ebind. eapply wp_mono; [apply wp_and; [apply (store_object_wp obj pt)|
    apply (store_object_keeps q obj pt (fun d' => is_Some (d_live d' !! q)) (about_live _ _)); [done|exact (readable_live _ _ _ Hread)]]| |done].
  intros [[]|e] d1 [Hobj Hq]; [|done]. destruct (Hobj eq_refl) as (i & Hi & Hdata & Horig).
  apply wp_ebind, wp_ret. destruct (codec_Digest_manifest _ _) as [md|] eqn:Hmd; [|done].
  apply wp_ebind. eapply wp_mono; [apply wp_and; [apply (replacePrivate_wp q _ d1 (fun _ => True)); done|
    apply (replacePrivate_other q obj _ (fun d' => d_live d' !! obj = Some i) (about_live _ (fun v => v = Some i)) (temporary_unused _ _ _ (fun _ => mk_is_Some _ _))); done]| |done].
  intros [[]|e] d2 [[_ Hr] Ho]; [|done]. apply wp_ret. intros b [= <-]. split_and!; [done..|].
  exists q, r, ad. split_and!; [done..|]. right. split_and!; [done|auto|]. by exists pt, md, i.
Qed.

Lemma Accept_inv P Q p st cd auth ct action fence now :
  stable P Q -> keeps (at_path P p) (Accept st cd auth ct action fence now).
Proof.
  intros HP d Hp. unfold Accept. wp_step; [by apply wp_ret|]. apply wp_require; [done|]. intros _. apply wp_require; [done|]. intros _.
  apply wp_ebind. eapply wp_mono; [apply findChallenge_wp| |by intros d' ->]. intros [[q r]|e] d' [-> Hfind]; [|done].
  destruct (Hfind q r eq_refl) as (_ & Hname & Hread & _). clear Hfind.
  apply wp_require; [done|]. intros _. apply wp_ebind, wp_ret.
  destruct (PrivateHandoffAuthorizationDigest (sa_Body auth)) as [ad|]; [|done].
  destruct (cr_Accepted r) as [a|] eqn:Hacc; [by apply wp_ret|].
  apply wp_ebind, wp_ret. destruct (decrypt r auth ct now) as [pt|]; [|done].
  set (obj := objectPath st _).
  apply wp_ebind. eapply wp_mono; [apply wp_and; [apply (store_object_keeps p obj pt (at_path P p) (about_always _ _) (at_path_live P p)); done|
    apply (store_object_keeps q obj pt (fun d' => is_Some (d_live d' !! q)) (about_live _ _)); [done|exact (readable_live _ _ _ Hread)]]| |by intros ? []].
  intros [[]|e] d1 [Hp1 Hq1]; [|done]. apply wp_ebind, wp_ret. destruct (codec_Digest_manifest _ _) as [md|]; [|done].
  apply wp_ebind. eapply wp_mono; [apply (replacePrivate_inv P p q); [done|done|]| |done].
  - intros ->. eapply (st_step _ P Q); [done|by eapply readable_clean|exact (readable_inv _ _ _ _ _ _ HP Hp Hread eq_refl)|].
    by apply hm_step, hs_accepted.
  - intros [[]|e] d2 [Hd2 _]; [by apply wp_ret|done].
Qed.





Lemma remove_object_keeps p q I : about p I -> q <> p -> keeps I (remove_object q).
Proof. intros [Hu Hm Hs] Hne. unfold remove_object. keeps_steps; case_match; cbn [fst snd]; auto. Qed.

Lemma sync_store_keeps st (I : disk -> Prop) : (forall d, I d -> I (d_sync (st_directory st) d)) -> keeps I (sync_store st).
Proof. intros HI. unfold sync_store, ebind, lift_sys, handle_call. keeps_steps; auto. Qed.




Lemma finish_deletion_inv P p st q r a now d :
  challenge_named p -> challenge_named q -> at_path P p d -> is_Some (d_live d !! q) -> (q = p -> P (deleted_record r now)) ->
  wp any (finish_deletion st q r a now) (fun _ => at_path P p) (at_path P p) d.
Proof.
  intros Hnp Hnq Hp Hq HP. unfold finish_deletion. set (o := objectPath st _).
  assert (Hnep : o <> p) by (intros E; by apply (object_not_challenge st (ac_ContentDigest a) p Hnp)).
  assert (Hneq : o <> q) by (intros E; by apply (object_not_challenge st (ac_ContentDigest a) q Hnq)).
  set (I := fun d => at_path P p d /\ is_Some (d_live d !! q)).
  apply wp_ebind. eapply (wp_mono any _ (fun _ => I) _ I).
  { apply wp_and; [apply (remove_object_keeps p); [apply about_always|done|done]|].
    apply (remove_object_keeps q _ (fun d => is_Some (d_live d !! q))); [apply about_live|done|done]. }
  2: by intros ? []. intros [u|e] d1 [Hp1 Hq1]; [|done].
  apply wp_ebind. eapply (wp_mono any _ (fun _ => I) _ I).
  { apply sync_store_keeps; [|done]. intros d2 [H1' H2']. split; [by apply always_sync|done]. }
  2: by intros ? []. intros [u'|e] d2 [Hp2 Hq2]; [|done].
  eapply wp_mono; [by apply (replacePrivate_inv P p q)|by intros x d3 []|done].
Qed.

(** The checks before a deletion. *)
Definition delete_checked (st : Store) (challengeDigest : string) (action : AuthorizedAction) (fence : WriterFence) (now : Z)
    (r : challengeRecord) (a : AcceptedPrivateContentRecord) (requestDigest : string) : Prop :=
  VerifyWriterFence fence now "content.delete" = Ok tt /\ ConfirmCurrentWriterFence fence now = Ok tt /\
  PrivateHandoffChallengeDigest (sc_Body (cr_Challenge r)) = (challengeDigest, None) /\ cr_Accepted r = Some a /\
  (exists canonical fields,
     DeleteAuthorizationMaterial (aa_OwnerID action) (aa_AgentID action) (cr_Challenge r) a = Ok (canonical, fields) /\
     VerifyAuthorizedAction action fields canonical fence now = Ok tt /\ requestDigest = (ExactRequestDigest canonical).1) /\
  (cr_DeletionActionID r = "" \/
   (cr_DeletionActionID r = aa_StableActionID action /\ cr_DeletionRequestDigest r = requestDigest)).

(** [Delete] stops at a check, answers a replay, or runs the deletion. *)
Lemma Delete_wp st cd action fence now d (Q : result ActionResolution -> disk -> Prop) (C : disk -> Prop) :
  (forall e, Q (Err e) d) -> C d ->
  (forall q r a rd, listed st d q -> challenge_named q -> readable d q r -> delete_checked st cd action fence now r a rd ->
     cr_DeletionState r = "deleted" -> Q (Ok (deletion_resolution action rd cd a)) d) ->
  (forall q r a rd, listed st d q -> challenge_named q -> readable d q r -> delete_checked st cd action fence now r a rd ->
     cr_DeletionState r <> "deleted" ->
     wp any (delete_object st q r a action rd now)
       (fun x d' => match x with Ok _ => Q (Ok (deletion_resolution action rd cd a)) d' | Err e => Q (Err e) d' end) C d) ->
  wp any (Delete st cd action fence now) Q C d.
Proof.
  intros HE HC Hdone Hrun. unfold Delete. wp_step; [by apply wp_ret|]. apply wp_require; [done|]. intros Hf.
  apply wp_require; [done|]. intros Hc. wp_step. eapply wp_mono; [apply findChallenge_wp| |by intros d' ->].
  intros [[q r]|e] d' [-> Hfind]; [|by apply wp_ret]. destruct (Hfind q r eq_refl) as (Hlisted & Hname & Hread & Hdig).
  destruct (cr_Accepted r) as [a|] eqn:Ha; [|by apply wp_ret].
  destruct (DeleteAuthorizationMaterial _ _ _ _) as [[canonical fields]|e] eqn:Hm; [|by apply wp_ret].
  destruct (VerifyAuthorizedAction action fields canonical fence now) as [[]|e] eqn:Hv; [|by apply wp_ret]. cbn [is_ok negb].
  wp_step; [by apply wp_ret|]. rename E0 into Hconf.
  assert (Hck : delete_checked st cd action fence now r a (ExactRequestDigest canonical).1).
  { split_and!; eauto 10. destruct (cr_DeletionActionID r =s? "") eqn:E1; bool_props; [by left|right].
    cbn [negb andb] in Hconf. bool_props. done. }
  wp_step; bool_props; [apply wp_ret; by eapply Hdone|].
  apply wp_ebind. eapply wp_mono; [by eapply Hrun| |done]. intros [u|e] d' Hd'; [by apply wp_ret|done].
Qed.

Lemma Delete_inv P Q p st cd action fence now :
  stable P Q -> challenge_named p -> keeps (at_path P p) (Delete st cd action fence now).
Proof.
  intros HP Hnp d Hp. apply Delete_wp; [done|done|done|]. intros q r a rd _ Hnq Hread (_ & _ & _ & Ha & _ & Hid) Hst.
  eapply (wp_mono any _ (fun _ => at_path P p) _ (at_path P p)); [|by intros []|done]. unfold delete_object.
  assert (Hr : q = p -> Q r) by (by apply (readable_inv P Q p q r d)). assert (Hcl : clean r) by (by eapply readable_clean).
  assert (Hsome : is_Some (cr_Accepted r)) by (rewrite Ha; eauto). apply readable_live in Hread.
  destruct (cr_DeletionState r =s? "") eqn:E; bool_props.
  - assert (Hdel : q = p -> P (deleting_record r (aa_StableActionID action) rd)) by (intros E'; eapply (st_step _ P Q); [done|done|auto|]; by apply hm_step, hs_deleting).
    apply wp_ebind, wp_ebind. eapply wp_mono; [apply (wp_and _ _ _ _ _ _ _ (replacePrivate_inv P p q (deleting_record r (aa_StableActionID action) rd) d Hp Hread Hdel)
      (replacePrivate_wp q (deleting_record r (aa_StableActionID action) rd) d (fun v => True) ltac:(done) Hread I))| |by intros ? []].
    intros [[]|e] d1 [[Hp1 Hq1] _]; [|done]. apply wp_ret. apply finish_deletion_inv; [done|done|done| |].
    + rewrite (always_live _ _ _ (Hq1 eq_refl)). eauto.
    + intros E'. eapply (st_step _ P Q); [done|done|by apply Hr|]. apply hm_delete; [done|]. by constructor.
  - apply wp_ebind, wp_ret. apply finish_deletion_inv; [done..|]. intros E'. eapply (st_step _ P Q); [done|done|by apply Hr|]. by apply hm_step, hs_deleted.
Qed.


Section DeleteObject.
Context (st : Store) (q : path) (r : challengeRecord) (a : AcceptedPrivateContentRecord) (action : AuthorizedAction)
  (rd : string) (now : Z) (i : inode) (d : disk).
Context (Hn : challenge_named q) (Hsync : i_synced i = true) (Hj : json_unmarshal (i_data i) = Some r)
  (Hal : always d q (fun v => v = Some i)) (Hnamed : cr_DeletionState r <> "" -> cr_DeletionActionID r <> "")
  (Hid : cr_DeletionActionID r = "" \/ (cr_DeletionActionID r = aa_StableActionID action /\ cr_DeletionRequestDigest r = rd)).




End DeleteObject.



(** ** Reading accepted content *)

Lemma decrypt_opens r auth ct now pt :
  decrypt r auth ct now = Ok pt -> exists k, OpenPrivateContent (cr_Challenge r) auth ct k now = Ok pt.
Proof. unfold decrypt. destruct (b64_decode _) as [k|]; [|done]. intros Hd. result_inv. eauto. Qed.

Lemma digest_canonical b : canonicalDigest (digest b) = true.
Proof.
  unfold canonicalDigest. rewrite digest_len. change (len "sha256:" + 64) with 71. cbn [Z.eqb negb orb].
  change (str_take 7 (digest b)) with "sha256:". change (str_drop 7 (digest b)) with (hex_EncodeToString (sha256_Sum256 b)).
  apply hex_encode_lower_hex.
Qed.

Lemma wp_no_fault {A} (m : IO A) a d :
  wp no_fault m (fun x _ => x = a) (fun _ => False) d -> (m (World d [] [])).1 = Done a.
Proof. intros Hm. specialize (Hm [] [] (Forall_nil_2 _)). destruct (m _) as [[x|] w]; [|done]. destruct Hm as [_ ->]. done. Qed.

Lemma limit_read_all n s : len s = n -> n < two63 - 1 -> limit_read (sint64 (sint64 n + 1)) s = s.
Proof.
  intros Hn Hb. pose proof (len_nonneg s). unfold two63 in Hb.
  assert (Hs : forall x, 0 <= x < 9223372036854775808 -> sint64 x = x).
  { intros x Hx. unfold sint64, wrap64, two64, two63. rewrite Z.mod_small by lia. destruct (Z.ltb_spec x 9223372036854775808); lia. }
  rewrite (Hs n), Hs by lia. unfold limit_read. destruct (Z.leb_spec (len s) (n + 1)); [done|lia].
Qed.

Lemma openAccepted_no_fault st a d i :
  ac_ContentDigest a = digest (i_data i) -> ac_ImmutableObjectDigest a = ac_ContentDigest a ->
  ac_PlaintextBytes a = len (i_data i) -> len (i_data i) < two63 - 1 -> i_kind i = Regular ->
  d_live d !! objectPath st (ac_ContentDigest a) = Some i ->
  wp no_fault (OpenAccepted st a) (fun x _ => x = Ok i) (fun _ => False) d.
Proof.
  intros Hc Ho Hb Hlen Hk Hi. unfold OpenAccepted, openAccepted, ebind, lift_sys, handle_call.
  rewrite Ho, Hc, digest_canonical, String.eqb_refl. cbn [negb orb]. rewrite Hc in Hi.
  repeat wp_ok. all: unfold lookup_sys in *; rewrite ?Hi in *; simplify_eq; try done.
  - rewrite bool_decide_true, Hb, Z.eqb_refl in E0 by done. discriminate E0.
  - rewrite bool_decide_true in E2 by done. discriminate E2.
  - rewrite limit_read_all, String.eqb_refl in E3 by (done || congruence). discriminate E3.
Qed.

Lemma openAccepted_found st a d i :
  (OpenAccepted st a (World d [] [])).1 = Done (Ok i) ->
  exists i', d_live d !! objectPath st (ac_ContentDigest a) = Some i' /\ i = i' /\ i_kind i' = Regular /\
    len (i_data i') = ac_PlaintextBytes a /\
    digest (limit_read (sint64 (sint64 (ac_PlaintextBytes a) + 1)) (i_data i')) = ac_ContentDigest a.
Proof.
  intros Hopen.
  assert (Hwp : wp any (OpenAccepted st a) (fun x _ => forall i, x = Ok i ->
    exists i', d_live d !! objectPath st (ac_ContentDigest a) = Some i' /\ i = i' /\ i_kind i' = Regular /\
      len (i_data i') = ac_PlaintextBytes a /\
      digest (limit_read (sint64 (sint64 (ac_PlaintextBytes a) + 1)) (i_data i')) = ac_ContentDigest a) (fun _ => True) d).
  { unfold OpenAccepted, openAccepted, ebind, lift_sys, handle_call. wp_steps; try done. intros j [= <-].
    unfold lookup_sys in *. destruct (d_live d !! objectPath st (ac_ContentDigest a)) as [k|] eqn:Hk; [|done].
    simplify_eq. bool_props. eexists. split_and!; done. }
  specialize (Hwp [] []). specialize (Hwp ltac:(by apply Forall_true)).
  destruct (OpenAccepted st a (World d [] [])) as [[x|] w']; [|done]. cbn [fst] in Hopen. injection Hopen as ->. by apply Hwp.
Qed.

(** ** Histories of an ingress directory *)

Inductive istep (directory : string) : disk -> disk -> Prop :=
| is_issue st body w : st_directory st = directory -> istep directory (w_disk w) (w_disk (IssueChallenge st body w).2)
| is_accept st cd auth ct action fence now w : st_directory st = directory ->
    istep directory (w_disk w) (w_disk (Accept st cd auth ct action fence now w).2)
| is_open st record w : st_directory st = directory -> istep directory (w_disk w) (w_disk (OpenAccepted st record w).2)
| is_delete st cd action fence now w : st_directory st = directory ->
    istep directory (w_disk w) (w_disk (Delete st cd action fence now w).2)
| is_restart agent key w : istep directory (w_disk w) (w_disk (Open directory agent key w).2)
| is_power d d' : power_loss d d' -> istep directory d d'.

Lemma OpenAccepted_keeps I st record : keeps I (OpenAccepted st record).
Proof. unfold OpenAccepted, openAccepted, ebind, lift_sys, handle_call. keeps_steps; done. Qed.

Lemma Open_inv P p directory agent key :
  challenge_named p -> keeps (at_path P p) (Open directory agent key).
Proof.
  intros Hn. unfold Open, ebind, lift_sys. keeps_steps; try done; repeat case_match; cbn [fst snd]; try done.
  destruct (decide (("", directory) = p)) as [<-|Hne]; [|by apply always_upd].
  match goal with Hp : at_path P _ ?d |- _ => destruct (at_path_live _ _ _ Hp) as [i Hi] end. congruence.
Qed.

Lemma history_inv P Q p directory d d' :
  stable P Q -> challenge_named p -> rtc (istep directory) d d' -> at_path P p d -> at_path P p d'.
Proof.
  intros HP Hn Hs. induction Hs as [|d1 d2 d3 Hstep _ IH]; [done|]. intros Hp. apply IH. clear IH.
  destruct Hstep as [st body w _|st cd auth ct action fence now w _|st record w _|st cd action fence now w _|agent key w|d1 d2 Hpl].
  - by apply (keeps_run (at_path P p)); [apply IssueChallenge_inv|].
  - by apply (keeps_run (at_path P p)); [eapply Accept_inv|].
  - by apply (keeps_run (at_path P p)); [apply OpenAccepted_keeps|].
  - by apply (keeps_run (at_path P p)); [eapply Delete_inv|].
  - by apply (keeps_run (at_path P p)); [apply Open_inv|].
  - by eapply at_path_power_loss.
Qed.

(** A durable record is found, after any history, as itself or as a record the
    protocol reaches from what it reads back as. *)
Lemma history_protocol p r directory d d' v :
  challenge_named p -> always d p (fun v => v = Some (json_file r)) -> rtc (istep directory) d d' -> candidate d' p v ->
  exists r', v = Some (json_file r') /\ (r' = r \/ rtc handoff_step (json_text r) r').
Proof.
  intros Hn Hd Hs Hv.
  assert (Hp : at_path (from_read handoff_move r) p d').
  { eapply history_inv; [by apply (from_read_stable _ handoff_move_text)|done|exact Hs|].
    eapply always_mono; [exact Hd|]. intros ? ->. exists r. split; [done|by left]. }
  destruct (Hp v Hv) as (r' & -> & Hr'). exists r'. split; [done|].
  destruct (from_read_steps _ _ _ Hr') as [?|?]; [by left|right]. by apply handoff_moves.
Qed.

Lemma challengePath_named st id : challenge_named (challengePath st id).
Proof. by eexists. Qed.

(** ** Properties *)

(** C8. The record of a handoff follows its protocol: whatever operations,
    restarts, faults, crashes and power losses follow, a durable record is found
    again as itself or as a record the abstract protocol (accepted, deleting,
    deleted) reaches from what it reads back as (itself, when its strings are
    valid UTF-8); in particular accepted content, the erased key and a named
    deletion action never change, and a deleted record is final. *)
Theorem handoff_protocol st handoffID r d d' v
    (Hdurable : always d (challengePath st handoffID) (fun v => v = Some (json_file r)))
    (Hhist : rtc (istep (st_directory st)) d d') (Hv : candidate d' (challengePath st handoffID) v) :
  exists r', v = Some (json_file r') /\
    (r' = r \/ (rtc handoff_step (json_text r) r' /\ keeps_promises (json_text r) r')).
Proof.
  destruct (history_protocol _ _ _ _ _ _ (challengePath_named st handoffID) Hdurable Hhist Hv) as (r' & -> & Hs).
  exists r'. split; [done|]. destruct Hs as [?|Hs]; [by left|right]. eauto using handoff_steps_keep.
Qed.





(** C39. What was accepted can be read: after an acceptance that was not a mere
    replay the object holds exactly the decrypted bytes, and a fault-free
    [OpenAccepted] returns them exactly when the object is a regular file and
    the bytes have the digest the manifest names.  ([Accept] does not compare
    the two; it stores what the module's decryption returned.) *)
Theorem accepted_content_opens st cd auth ct action fence now w w' a
    (Hfirst : w_disk w' <> w_disk w)
    (Hacc : Accept st cd auth ct action fence now w = (Done (Ok a), w')) :
  exists q r pt i, readable (w_disk w) q r /\ decrypt r auth ct now = Ok pt /\ i_data i = pt /\
    d_live (w_disk w') !! objectPath st (ac_ContentDigest a) = Some i /\
    (len pt < two63 - 1 ->
     ((OpenAccepted st a (World (w_disk w') [] [])).1 = Done (Ok i) <->
      i_kind i = Regular /\ digest pt = cm_ContentDigest (ab_Manifest (sa_Body auth)))).
Proof.
  pose proof (wp_run _ _ _ w (Accept_wp st cd auth ct action fence now (w_disk w))) as Hrun. rewrite Hacc in Hrun.
  destruct (Hrun a eq_refl) as (_ & _ & _ & q & r & ad & _ & Hread & Hd & _ & _ & Hcase).
  destruct Hcase as [(_ & _ & _ & ?)|(_ & _ & pt & md & i & Hpt & -> & Hi & Hdata & Horig)]; [done|].
  exists q, r, pt, i. split_and!; [done..|]. intros Hlen. split.
  - intros Hopen. destruct (openAccepted_found _ _ _ _ Hopen) as (i' & Hi' & -> & Hk & Hb & Hdig).
    cbn [new_accepted ac_ContentDigest ac_PlaintextBytes] in *. split; [done|].
    rewrite limit_read_all in Hdig by congruence. congruence.
  - intros [Hreg Hdig]. pose proof (openAccepted_no_fault st (new_accepted r cd ad md auth action pt now) (w_disk w') i) as Hwp.
    apply wp_no_fault, Hwp; cbn [new_accepted ac_ContentDigest ac_ImmutableObjectDigest ac_PlaintextBytes]; try done; congruence.
Qed.



(** A handoff has one challenge: where its record is durable, a later
    [IssueChallenge] returns the recorded challenge, as it reads back, or fails,
    in any history. *)
Theorem one_challenge_per_handoff st r d body w w' c
    (Hdurable : always d (challengePath st (hb_HandoffID body)) (fun v => v = Some (json_file r)))
    (Hhist : rtc (istep (st_directory st)) d (w_disk w))
    (Hissue : IssueChallenge st body w = (Done (Ok c), w')) :
  c = cr_Challenge (json_text r).
Proof.
  set (p := challengePath st (hb_HandoffID body)).
  pose proof (from_read_stable handoff_move handoff_move_text r eq_refl) as Hst.
  assert (Hp : at_path (from_read handoff_move r) p (w_disk w)).
  { eapply history_inv; [exact Hst|apply challengePath_named|exact Hhist|].
    eapply always_mono; [exact Hdurable|]. intros ? ->. exists r. split; [done|by left]. }
  assert (Hr : forall d2 x, at_path (from_read handoff_move r) p d2 -> readable d2 p x -> cr_Challenge x = cr_Challenge (json_text r)).
  { intros d2 x Hp2 Hx. by destruct (handoff_steps_keep _ _ (handoff_moves _ _ (readable_inv _ _ _ _ _ _ Hst Hp2 Hx eq_refl))) as [? _]. }
  assert (Hwp : wp any (IssueChallenge st body) (fun x _ => forall c, x = Ok c -> c = cr_Challenge (json_text r)) (fun _ => True) (w_disk w)).
  2: { pose proof (wp_run _ _ _ w Hwp) as Hrun. rewrite Hissue in Hrun. by apply Hrun. }
  unfold IssueChallenge. wp_step; [by apply wp_ret|]. cbn zeta. fold p.
  wp_step. eapply wp_mono; [apply readChallenge_wp| |done]. intros [x|e] d' [-> Hx].
  { apply wp_ret. intros c'. repeat case_match; try done. intros [= <-]. by eapply Hr, Hx. }
  wp_step; [by apply wp_ret|]. wp_step. apply wp_pop_rand. intros random.
  destruct (GenerateHandoffEncryptionKey random) as [[pub priv]|]; [|by apply wp_ret].
  apply wp_ebind, wp_ret. destruct (SignPrivateHandoffChallenge _ _) as [c'|]; [|done].
  destruct (PrivateHandoffChallengeDigest _) as [dig [e'|]]; [by apply wp_ret|]. wp_step.
  eapply wp_mono; [apply (wp_and _ _ _ _ _ _ _ (createPrivate_wp p _ (w_disk w)) (createPrivate_keeps p p _ (at_path _ p)
    (about_always _ _) (at_path_live _ p) (w_disk w) Hp))| |done].
  intros [[]|e'] d1 [[H1' _] Hp1].
  { destruct (H1' eq_refl) as [Hnone _]. destruct (at_path_live _ _ _ Hp) as [? ?]. congruence. }
  wp_step. eapply wp_mono; [apply readChallenge_wp| |done]. intros [x|e''] d2 [-> Hx2]; apply wp_ret; [|done].
  intros c''. case_match; [|done]. intros [= <-]. by eapply Hr, Hx2.
Qed.

End Ingress.

(** ** Runs and witnesses *)

Module IngressSamples.
#[refine, export] Instance challenge_fields : Fields challengeRecord := {|
  to_fields r :=
    let b := sc_Body (cr_Challenge r) in
    [cr_Schema r; hb_HandoffID b; hb_AgreementBodyDigest b; hb_ObligationID b; hb_SenderAgentID b; hb_ReceiverAgentID b;
     hb_IngressInstanceID b; hb_ReceiverEncryptionPublicKey b; hb_RetentionPolicyDigest b; put_Z (hb_DeleteNotAfterUnix b);
     hb_Rest b; sc_Signature (cr_Challenge r); cr_EncryptionPrivateKey r; cr_AuthorizationDigest r; cr_DeletionActionID r;
     cr_DeletionRequestDigest r; cr_DeletionState r; put_Z (cr_DeletedAtUnix r)] ++
    match cr_Accepted r with
    | None => []
    | Some a => [put_Z (ac_SchemaVersion a); ac_HandoffID a; ac_ChallengeDigest a; ac_AuthorizationDigest a; ac_UploadActionID a;
        ac_SenderDisclosureActionID a; ac_ContentDigest a; ac_ContentManifestDigest a; put_Z (ac_PlaintextBytes a);
        ac_ImmutableObjectDigest a; ac_RetentionPolicyDigest a; put_Z (ac_AcceptedAtUnix a); put_Z (ac_DeleteNotAfterUnix a)]
    end;
  of_fields l :=
    let make s b1 b2 b3 b4 b5 b6 b7 b8 b9 b10 sg k ad da dr ds dt acc := Some
      {| cr_Schema := s;
         cr_Challenge := {| sc_Body := {| hb_HandoffID := b1; hb_AgreementBodyDigest := b2; hb_ObligationID := b3;
           hb_SenderAgentID := b4; hb_ReceiverAgentID := b5; hb_IngressInstanceID := b6; hb_ReceiverEncryptionPublicKey := b7;
           hb_RetentionPolicyDigest := b8; hb_DeleteNotAfterUnix := get_Z b9; hb_Rest := b10 |}; sc_Signature := sg |};
         cr_EncryptionPrivateKey := k; cr_Accepted := acc; cr_AuthorizationDigest := ad; cr_DeletionActionID := da;
         cr_DeletionRequestDigest := dr; cr_DeletionState := ds; cr_DeletedAtUnix := get_Z dt |} in
    match l with
    | [s; b1; b2; b3; b4; b5; b6; b7; b8; b9; b10; sg; k; ad; da; dr; ds; dt] =>
        make s b1 b2 b3 b4 b5 b6 b7 b8 b9 b10 sg k ad da dr ds dt None
    | [s; b1; b2; b3; b4; b5; b6; b7; b8; b9; b10; sg; k; ad; da; dr; ds; dt;
       a1; a2; a3; a4; a5; a6; a7; a8; a9; a10; a11; a12; a13] =>
        make s b1 b2 b3 b4 b5 b6 b7 b8 b9 b10 sg k ad da dr ds dt
          (Some {| ac_SchemaVersion := get_Z a1; ac_HandoffID := a2; ac_ChallengeDigest := a3; ac_AuthorizationDigest := a4;
                   ac_UploadActionID := a5; ac_SenderDisclosureActionID := a6; ac_ContentDigest := a7;
                   ac_ContentManifestDigest := a8; ac_PlaintextBytes := get_Z a9; ac_ImmutableObjectDigest := a10;
                   ac_RetentionPolicyDigest := a11; ac_AcceptedAtUnix := get_Z a12; ac_DeleteNotAfterUnix := get_Z a13 |})
    | _ => None
    end;
  of_to_fields := _;
|}.
Proof. intros [? [[] ?] ? [[]|] ? ? ? ? ?]; simpl; by rewrite !get_put_Z. Defined.

#[export] Instance challenge_json : Json challengeRecord := TextFieldsJson.
#[export] Instance challenge_json_laws : JsonTextLaws challengeRecord := TextFieldsJsonLaws.

Definition label : string -> string := PlanSamples.label.

(** A commerce module whose cipher is the identity and whose signatures are
    empty. *)
#[export] Instance private_commerce : PrivateCommerce := {|
  SignedPrivateHandoffAcknowledgement := string;
  GenerateHandoffEncryptionKey random := Ok ("public " +:+ random, str_take 32 (random +:+ zeros 32));
  SignPrivateHandoffChallenge body key := Ok {| sc_Body := body; sc_Signature := "" |};
  PrivateHandoffChallengeDigest body :=
    (label (hb_HandoffID body +:+ "/" +:+ hb_ReceiverEncryptionPublicKey body), None);
  PrivateHandoffAuthorizationDigest body := Ok (label (ab_ChallengeDigest body +:+ "/" +:+ ab_CiphertextDigest body));
  OpenPrivateContent c auth ciphertext key now :=
    if (cm_ContentDigest (ab_Manifest (sa_Body auth)) =s? digest ciphertext) && (len ciphertext <? 1000)
    then Ok ciphertext else Err "cipher: message authentication failed";
  SignPrivateHandoffAcknowledgement record agent key := Ok (agent +:+ "/" +:+ ac_HandoffID record);
  ExactRequestDigest request := (label request, None);
  codec_Digest_manifest domain m := Ok (label (domain +:+ cm_ContentDigest m));
  codec_Marshal_upload r := Ok (ur_ChallengeDigest r +:+ ur_CiphertextDigest r);
  codec_Marshal_delete r := Ok (dr_HandoffID r +:+ dr_ContentManifestDigest r);
|}.
#[local] Existing Instance PlanSamples.commerce.

Definition store : Store :=
  {| st_directory := "/ingress"; st_open := true; st_receiverAgent := "receiver"; st_signingKey := zeros 64 |}.
Definition body_of (handoff : string) : PrivateHandoffChallengeBody :=
  {| hb_HandoffID := handoff; hb_AgreementBodyDigest := label "agreement"; hb_ObligationID := "obligation";
     hb_SenderAgentID := "sender"; hb_ReceiverAgentID := "receiver"; hb_IngressInstanceID := "ingress";
     hb_ReceiverEncryptionPublicKey := ""; hb_RetentionPolicyDigest := label "retention";
     hb_DeleteNotAfterUnix := 1800000000; hb_Rest := "" |}.
Definition now : Z := 1700000000 * time_Second.
Definition start : world := World (Disk ∅ ∅ []) [] ["k1"; "t1"; "t2"; "t3"; "t4"; "t5"; "t6"; "t7"].
Definition content : bytes := "private bytes".

Definition challenge_digest (handoff key : string) : string := label (handoff +:+ "/" +:+ b64_encode ("public " +:+ key)).
Definition authorization_of (handoff key : string) : SignedPrivateHandoffAuthorization :=
  {| sa_Body := {| ab_ChallengeDigest := challenge_digest handoff key;
       ab_Manifest := {| cm_ContentDigest := digest content; cm_Rest := "" |};
       ab_CiphertextDigest := digest content; ab_CiphertextBytes := 13; ab_SenderDisclosureActionID := "disclosure"; ab_Rest := "" |};
     sa_Signature := "" |}.
Definition action_of (kind request : string) : AuthorizedAction :=
  {| aa_ActionKind := kind; aa_StableActionID := label kind; aa_ExactRequestDigest := label request; aa_OwnerID := "owner";
     aa_AgentID := "agent"; aa_ExpiresAtUnix := 1800000000 |}.
Definition upload (handoff key : string) : AuthorizedAction :=
  action_of "content.upload" (challenge_digest handoff key +:+ digest content).
Definition deletion (handoff : string) : AuthorizedAction :=
  action_of "content.delete" (handoff +:+ label ("tos.private-content-manifest.v1" +:+ digest content)).

Definition accept (handoff key : string) : IO (result AcceptedPrivateContentRecord) :=
  Accept store (challenge_digest handoff key) (authorization_of handoff key) content (upload handoff key) PlanSamples.fence now.
Definition delete (handoff key : string) : IO (result ActionResolution) :=
  Delete store (challenge_digest handoff key) (deletion handoff) PlanSamples.fence now.

(** The value of a run that succeeded, and the runs one after the other. *)
Definition value {A} (x : outcome (result A)) (default : A) : A := match x with Done (Ok a) => a | _ => default end.
Definition empty_record : AcceptedPrivateContentRecord :=
  {| ac_SchemaVersion := 0; ac_HandoffID := ""; ac_ChallengeDigest := ""; ac_AuthorizationDigest := ""; ac_UploadActionID := "";
     ac_SenderDisclosureActionID := ""; ac_ContentDigest := ""; ac_ContentManifestDigest := ""; ac_PlaintextBytes := 0;
     ac_ImmutableObjectDigest := ""; ac_RetentionPolicyDigest := ""; ac_AcceptedAtUnix := 0; ac_DeleteNotAfterUnix := 0 |}.
Definition empty_resolution : ActionResolution :=
  {| re_StableActionID := ""; re_ExactRequestDigest := ""; re_Terminal := false; re_SinkReference := ""; re_EvidenceRefs := [];
     re_StateRevision := 0 |}.
(** The same disk under the decisions [script]. *)
Definition under (script : list decision) (random : list string) (w : world) : world := World (w_disk w) script random.

Definition issued : outcome (result SignedPrivateHandoffChallenge) * world := Eval vm_compute in IssueChallenge store (body_of "h1") start.
Definition accepted : outcome (result AcceptedPrivateContentRecord) * world := Eval vm_compute in accept "h1" "k1" issued.2.
Definition deleted : outcome (result ActionResolution) * world := Eval vm_compute in delete "h1" "k1" accepted.2.
Definition record : AcceptedPrivateContentRecord := Eval vm_compute in value accepted.1 empty_record.
Definition resolution : ActionResolution := Eval vm_compute in value deleted.1 empty_resolution.
Definition issued_record : challengeRecord :=
  new_challenge {| sc_Body := with_public_key (body_of "h1") (b64_encode "public k1"); sc_Signature := "" |} (str_take 32 ("k1" +:+ zeros 32)).

Lemma issued_ok : IssueChallenge store (body_of "h1") start = (Done (Ok (cr_Challenge issued_record)), issued.2).
Proof. apply pair_fst. vm_compute. reflexivity. Qed.
Lemma accepted_ok : accept "h1" "k1" issued.2 = (Done (Ok record), accepted.2).
Proof. apply (pair_fst (accept "h1" "k1" issued.2)). vm_compute. reflexivity. Qed.
End IngressSamples.
#[local] Existing Instance IngressSamples.challenge_fields.
#[local] Existing Instance IngressSamples.challenge_json.
#[local] Existing Instance IngressSamples.challenge_json_laws.
#[local] Existing Instance IngressSamples.private_commerce.
#[local] Existing Instance PlanSamples.commerce.

Lemma issued_durable :
  always (w_disk IngressSamples.issued.2) (challengePath IngressSamples.store "h1")
    (fun v => v = Some (json_file IngressSamples.issued_record)).
Proof. intros v [->|Hv]; [vm_compute; reflexivity|]. vm_compute in Hv. inversion Hv. Qed.

(** Two handoffs with the same content share one object: the deletion of the
    first takes the bytes of the second. *)
Module Shared.
Import IngressSamples.
Definition second : world := Eval vm_compute in
  (IssueChallenge store (body_of "h2") (under [] ["k2"; "t1"; "t2"; "t3"; "t4"; "t5"] accepted.2)).2.
Definition accepted2 : outcome (result AcceptedPrivateContentRecord) * world := Eval vm_compute in accept "h2" "k2" second.
Definition record2 : AcceptedPrivateContentRecord := Eval vm_compute in value accepted2.1 empty_record.
Definition deleted1 : outcome (result ActionResolution) * world := Eval vm_compute in delete "h1" "k1" accepted2.2.
End Shared.

Example deletion_takes_shared_content :
  Shared.accepted2.1 = Done (Ok Shared.record2) /\
  (exists i, (OpenAccepted IngressSamples.store Shared.record2 Shared.accepted2.2).1 = Done (Ok i)) /\
  Shared.deleted1.1 = Done (Ok IngressSamples.resolution) /\
  (OpenAccepted IngressSamples.store Shared.record2 Shared.deleted1.2).1 =
    Done (Err "accepted private content object is unavailable").
Proof. split_and!; [reflexivity|eexists; vm_compute; reflexivity|vm_compute; reflexivity|vm_compute; reflexivity]. Qed.

(** An object whose synchronisation failed is accepted and the key erased; a
    power loss may leave any bytes in its place. *)
Definition unsynced_accept : outcome (result AcceptedPrivateContentRecord) * world := Eval vm_compute in
  IngressSamples.accept "h1" "k1" (IngressSamples.under [DOk; DOk; DOk; DOk; DOk; DFail] ["t1"] IngressSamples.issued.2).

Example accepted_object_not_durable b :
  unsynced_accept.1 = Done (Ok IngressSamples.record) /\
  (exists r, d_live (w_disk unsynced_accept.2) !! challengePath IngressSamples.store "h1" = Some (json_file r) /\
     cr_EncryptionPrivateKey r = "" /\ cr_Accepted r = Some IngressSamples.record) /\
  exists v, candidate (w_disk unsynced_accept.2) (objectPath IngressSamples.store (digest IngressSamples.content)) v /\
    settles v (Some (Inode Regular o600 true true b true)).
Proof.
  split_and!; [vm_compute; reflexivity| |].
  - exists (accepted_record IngressSamples.issued_record IngressSamples.record (PlanSamples.label
      (IngressSamples.challenge_digest "h1" "k1" +:+ "/" +:+ digest IngressSamples.content))).
    split; [vm_compute; reflexivity|done].
  - eexists (Some (Inode Regular o600 true true IngressSamples.content false)). split; [left; vm_compute; reflexivity|by apply settles_torn].
Qed.

(** A crash between the creation and the write of a challenge record leaves an
    empty file under the final name: the handoff can never be issued again. *)
Example torn_challenge_blocks_handoff :
  let torn := IssueChallenge IngressSamples.store (IngressSamples.body_of "h1")
                (World (Disk ∅ ∅ []) [DOk; DOk; DCrash] ["k1"]) in
  torn.1 = Crashed /\
  (IssueChallenge IngressSamples.store (IngressSamples.body_of "h1") (IngressSamples.under [] ["k2"] torn.2)).1 =
    Done (Err "private ingress challenge record is invalid").
Proof. split; vm_compute; reflexivity. Qed.

(** A challenge whose directory entry was not synchronised is returned as
    issued. *)
Example challenge_not_durable :
  let run := IssueChallenge IngressSamples.store (IngressSamples.body_of "h1")
               (World (Disk ∅ ∅ []) [DOk; DOk; DOk; DOk; DOk; DOk; DFail] ["k1"]) in
  run.1 = Done (Ok (cr_Challenge IngressSamples.issued_record)) /\
  candidate (w_disk run.2) (challengePath IngressSamples.store "h1") None.
Proof. split; [vm_compute; reflexivity|]. right. vm_compute. constructor. Qed.

(** The accepted record is durable and the only one of its directory. *)
Definition sample_record : challengeRecord := Eval vm_compute in
  accepted_record IngressSamples.issued_record IngressSamples.record (PlanSamples.label
    (IngressSamples.challenge_digest "h1" "k1" +:+ "/" +:+ digest IngressSamples.content)).

Lemma accepted_step : istep "/ingress" (w_disk IngressSamples.issued.2) (w_disk IngressSamples.accepted.2).
Proof.
  pose proof (is_accept "/ingress" IngressSamples.store (IngressSamples.challenge_digest "h1" "k1")
    (IngressSamples.authorization_of "h1" "k1") IngressSamples.content (IngressSamples.upload "h1" "k1") PlanSamples.fence
    IngressSamples.now IngressSamples.issued.2 eq_refl) as Hs.
  change (Accept IngressSamples.store (IngressSamples.challenge_digest "h1" "k1") (IngressSamples.authorization_of "h1" "k1")
    IngressSamples.content (IngressSamples.upload "h1" "k1") PlanSamples.fence IngressSamples.now)
    with (IngressSamples.accept "h1" "k1") in Hs. rewrite IngressSamples.accepted_ok in Hs. exact Hs.
Qed.

(** The issued record is found accepted, under the same challenge and without its
    key. *)
Lemma handoff_protocol_witness :
  sample_record <> IngressSamples.issued_record /\
  exists r', Some (json_file sample_record) = Some (json_file r') /\
    (r' = IngressSamples.issued_record \/
     (rtc handoff_step (json_text IngressSamples.issued_record) r' /\ keeps_promises (json_text IngressSamples.issued_record) r')).
Proof.
  split; [intros Heq; apply (f_equal cr_EncryptionPrivateKey) in Heq; vm_compute in Heq; discriminate Heq|].
  apply (handoff_protocol IngressSamples.store "h1" IngressSamples.issued_record
    (w_disk IngressSamples.issued.2) (w_disk IngressSamples.accepted.2) _ issued_durable); [exact (rtc_once _ _ accepted_step)|].
  left. vm_compute. reflexivity.
Defined.


Lemma accepted_content_opens_witness :
  exists q r pt i, readable (w_disk IngressSamples.issued.2) q r /\
    decrypt r (IngressSamples.authorization_of "h1" "k1") IngressSamples.content IngressSamples.now = Ok pt /\ i_data i = pt /\
    d_live (w_disk IngressSamples.accepted.2) !! objectPath IngressSamples.store (ac_ContentDigest IngressSamples.record) = Some i /\
    (len pt < two63 - 1 ->
     ((OpenAccepted IngressSamples.store IngressSamples.record (World (w_disk IngressSamples.accepted.2) [] [])).1 = Done (Ok i) <->
      i_kind i = Regular /\ digest pt = digest IngressSamples.content)).
Proof.
  apply (accepted_content_opens IngressSamples.store (IngressSamples.challenge_digest "h1" "k1")
    (IngressSamples.authorization_of "h1" "k1") IngressSamples.content (IngressSamples.upload "h1" "k1") PlanSamples.fence
    IngressSamples.now IngressSamples.issued.2 IngressSamples.accepted.2 IngressSamples.record).
  - intros Heq. apply (f_equal (fun d => is_Some (d_live d !! objectPath IngressSamples.store (digest IngressSamples.content)))) in Heq.
    assert (Hsome : d_live (w_disk IngressSamples.accepted.2) !! objectPath IngressSamples.store (digest IngressSamples.content) =
      Some (plain_file o600 IngressSamples.content)) by (vm_compute; reflexivity).
    assert (Hnone : d_live (w_disk IngressSamples.issued.2) !! objectPath IngressSamples.store (digest IngressSamples.content) = None)
      by (vm_compute; reflexivity).
    rewrite Hsome, Hnone in Heq. assert (Hs : is_Some (@None inode)) by (rewrite <- Heq; by eexists). by destruct Hs.
  - exact IngressSamples.accepted_ok.
Defined.

(** A deletion whose journal entry was renamed into place but whose directory
    synchronisation failed is begun but not durable; the second attempt finds
    the entry and removes the object at once.  A power loss after the removal
    may keep the removal and lose the entry. *)
Definition unsynced_delete : outcome (result ActionResolution) * world := Eval vm_compute in
  IngressSamples.delete "h1" "k1" (IngressSamples.under [DOk; DOk; DOk; DOk; DOk; DOk; DOk; DOk; DOk; DOk; DFail] ["u1"] IngressSamples.accepted.2).
Definition crashed_delete : outcome (result ActionResolution) * world := Eval vm_compute in
  IngressSamples.delete "h1" "k1" (IngressSamples.under [DOk; DOk; DOk; DOk; DCrash] ["u2"] unsynced_delete.2).

Example deletion_entry_lost :
  unsynced_delete.1 = Done (Err "sync directory") /\ crashed_delete.1 = Crashed /\
  candidate (w_disk crashed_delete.2) (objectPath IngressSamples.store (digest IngressSamples.content)) None /\
  candidate (w_disk crashed_delete.2) (challengePath IngressSamples.store "h1") (Some (json_file sample_record)) /\
  cr_Accepted sample_record = Some IngressSamples.record /\ cr_DeletionState sample_record = "".
Proof.
  split_and!; [reflexivity|reflexivity|left; vm_compute; reflexivity| |reflexivity|reflexivity].
  right. assert (Hold : old_values (w_disk crashed_delete.2) (challengePath IngressSamples.store "h1") = [Some (json_file sample_record)])
    by (vm_compute; reflexivity). rewrite Hold. left.
Qed.






