(* ===== verification/ContainerdSpec.v ===== *)
(** * pkg/executor/containerdbackend: requests, configuration and the fixed isolation

    The driver's own validation of a request and of its configuration
    (spec.go, backend.go), the fixed isolation written into the OCI
    specification of every container (spec.go), the resource usage read from
    a task's metrics (metrics.go) and the bounded output buffer (sdk.go).

    The OCI specification is the part of specs-go's [Spec] that the program
    reads or writes; its other fields pass through the code untouched.  The
    default seccomp profile and the parser of CDI names are code of other
    packages and are parameters. *)

From S2P Require Import Prelude GoStd Sha256 Executor Supervisor.

(** ** Constants of backend.go *)

Definition DefaultOperationTimeout : Z := 10 * time_Second.
Definition DefaultCleanupTimeout : Z := 30 * time_Second.
Definition MaxOperationTimeout : Z := time_Minute.
Definition MaxCleanupTimeout : Z := 5 * time_Minute.
Definition MaxInputBytesHard : Z := Z.shiftl 16 20.
Definition MaxOutputBytesHard : Z := Z.shiftl 16 20.
Definition MaxArgumentsHard : Z := 64.
Definition MaxEnvironmentHard : Z := 64.
Definition MaxStringBytesHard : Z := 4096.
Definition MaxMemoryBytesHard : Z := Z.shiftl 1 40.
Definition MaxDiskBytesHard : Z := Z.shiftl 16 40.
Definition MaxPIDsHard : Z := Z.shiftl 1 20.
Definition MaxExecutionTimeHard : Z := time_Hour.
Definition MaxCPUMillisHard : Z := Z.quot (24 * time_Hour) time_Millisecond.
Definition minimumTmpfsBytes : Z := 3 * 4096.
Definition defaultCDISpecDirs : list string := ["/etc/cdi"; "/var/run/cdi"].

(** ** Requests *)

(** [period, quota]. *)
Definition cpuQuota (limits : Limits) : result (Z * Z) :=
  let period := 100000 in
  let wallMillis := wrap64 (Z.quot (lim_ExecutionTime limits) time_Millisecond) in
  fail_if ((wallMillis =? 0) || (max_u64 / period <? lim_CPUMillis limits)) "invalid containerd CPU limit" ;;;
  let quota := wrap64 (wrap64 (wrap64 (lim_CPUMillis limits * period) + wallMillis) - 1) / wallMillis in
  fail_if ((quota <? 1000) || (Z.shiftr max_u64 1 <? quota)) "containerd CPU limit cannot be represented safely" ;;;
  Ok (period, sint64 quota).

Definition validateDriverLimits (limits : Limits) (permitGPU : bool) : result unit :=
  fail_if ((lim_CPUMillis limits =? 0) || (lim_MemoryBytes limits =? 0) ||
           (lim_DiskBytes limits <? minimumTmpfsBytes) || (lim_PIDs limits =? 0) ||
           (lim_ExecutionTime limits <=? 0) || (lim_OutputBytes limits =? 0) ||
           (MaxCPUMillisHard <? lim_CPUMillis limits) ||
           (MaxMemoryBytesHard <? lim_MemoryBytes limits) ||
           (MaxDiskBytesHard <? lim_DiskBytes limits) || (MaxPIDsHard <? lim_PIDs limits) ||
           (MaxExecutionTimeHard <? lim_ExecutionTime limits) ||
           (MaxOutputBytesHard <? lim_OutputBytes limits))
    "containerd resource limits are unsupported or invalid" ;;;
  fail_if (negb (Bool.eqb permitGPU (0 <? lim_GPUDeviceCount limits)))
    "containerd GPU limits are inconsistent" ;;;
  let* _ := cpuQuota limits in Ok tt.

Definition invalidRuntimeString (value : string) (allowEmpty : bool) : bool :=
  (negb allowEmpty && (value =s? "")) || (MaxStringBytesHard <? len value) || contains_byte value nul.

Definition validWorkspaceWorkingDirectory (value : string) : bool :=
  ((value =s? "/workspace/source") || has_prefix value "/workspace/source/") &&
  (path_Clean value =s? value) && (len value <=? MaxStringBytesHard).

Definition invalid_runtime_env (kv : string * string) : bool :=
  invalidRuntimeString kv.1 false || contains_str kv.1 "=" || invalidRuntimeString kv.2 true.

Definition validateRequest (request : ContainerRequest) (input : bytes) (assignedDevices : Z) : result unit :=
  fail_if (negb (is_ok (ValidateExecutionDigest (cr_ExecutionDigest request))) ||
           negb (is_ok (ValidateExecutionDigest (cr_ImageDigest request))) ||
           (MaxInputBytesHard <? len input) ||
           (llen (cr_Entrypoint request) =? 0) || (MaxArgumentsHard <? llen (cr_Entrypoint request)) ||
           (MaxEnvironmentHard <? Z.of_nat (size (cr_Environment request))) ||
           (cr_UserID request =? 0) || (cr_GroupID request =? 0) ||
           negb (cr_ReadOnlyRoot request) || negb (cr_NoNewPrivileges request) ||
           (cr_WorkspaceArchive request && negb (validWorkspaceWorkingDirectory (cr_WorkingDirectory request))) ||
           (negb (cr_WorkspaceArchive request) && (cr_WorkingDirectory request <>s? "") &&
            (cr_WorkingDirectory request <>s? "/")) ||
           (cr_Network request <>s? NetworkNone) || negb (llen (cr_AllowedHosts request) =? 0) ||
           negb (is_ok (validateDriverLimits (cr_Limits request) (cr_AllowGPU request))))
    "unsupported or invalid containerd execution request" ;;;
  fail_if (negb (Bool.eqb (cr_AllowGPU request) (0 <? assignedDevices)) ||
           negb (assignedDevices =? lim_GPUDeviceCount (cr_Limits request)))
    "invalid containerd GPU assignment" ;;;
  fail_if (existsb (fun argument => invalidRuntimeString argument false) (cr_Entrypoint request))
    "invalid containerd process argument" ;;;
  fail_if (existsb invalid_runtime_env (map_to_list (cr_Environment request)))
    "invalid containerd process environment".

(** ** The OCI specification *)

Record LinuxNamespace := { ns_Type : string; ns_Path : string }.

Record OciMount := {
  om_Destination : string;
  om_Type : string;
  om_Source : string;
  om_Options : list string;
}.

Record LinuxCapabilities := {
  cap_Bounding : list string;
  cap_Effective : list string;
  cap_Inheritable : list string;
  cap_Permitted : list string;
  cap_Ambient : list string;
}.

Record POSIXRlimit := { rl_Type : string; rl_Hard : Z; rl_Soft : Z }.

Record OciProcess := {
  pr_Terminal : bool;
  pr_UID : Z;
  pr_GID : Z;
  pr_AdditionalGids : list Z;
  pr_Args : list string;
  pr_Env : list string;
  pr_Cwd : string;
  pr_Capabilities : option LinuxCapabilities;
  pr_Rlimits : list POSIXRlimit;
  pr_NoNewPrivileges : bool;
}.

Record LinuxDeviceCgroup := { dc_Allow : bool; dc_Type : string; dc_Major : option Z; dc_Minor : option Z; dc_Access : string }.

(** [LinuxMemory{Limit}], [LinuxPids{Limit}] and [LinuxCPU{Period, Quota}]. *)
Record LinuxResources := {
  lr_Memory : option (option Z);
  lr_Pids : option Z;
  lr_CPU : option (option Z * option Z);
  lr_Devices : list LinuxDeviceCgroup;
}.

Record Seccomp := { sc_DefaultAction : string; sc_Syscalls : list string }.

Definition ActErrno : string := "SCMP_ACT_ERRNO".
Definition NetworkNamespace : string := "network".

Record OciLinux := {
  lx_Resources : option LinuxResources;
  lx_Namespaces : list LinuxNamespace;
  lx_Seccomp : option Seccomp;
}.

Record OciSpec := {
  oci_Process : option OciProcess;
  oci_Readonly : option bool;     (* Root, of which Readonly is written *)
  oci_Mounts : list OciMount;
  oci_Linux : option OciLinux;
}.

(** ** The fixed isolation *)

Definition contains (values : list string) (target : string) : bool :=
  existsb (fun value => value =s? target) values.

Definition hasPrivateNetworkNamespace (namespaces : list LinuxNamespace) : bool :=
  existsb (fun n => (ns_Type n =s? NetworkNamespace) && (ns_Path n =s? "")) namespaces.

(** [sort.Strings] of the keys, each with its value. *)
Definition environment (values : gmap string string) : list string :=
  let keys := sort_Strings (map_to_list values).*1 in
  (fun key => key +:+ "=" +:+ default "" (values !! key)) <$> keys.

(** The mounts the loop of [boundTmpfsMounts] does not skip. *)
Definition bounded_mount (workspace : bool) (mount : OciMount) : bool :=
  (om_Type mount =s? "tmpfs") &&
  ((om_Destination mount =s? "/dev") || (om_Destination mount =s? "/dev/shm") ||
   (om_Destination mount =s? "/run") || (workspace && (om_Destination mount =s? "/workspace"))).

(** The body of the loop for one of them. *)
Definition bound_mount (perMount : Z) (mount : OciMount) : OciMount :=
  let options := filter (fun option => has_prefix option "size=" = false) (om_Options mount) in
  let options :=
    if (om_Destination mount <>s? "/workspace") && negb (contains options "noexec")
    then options ++ ["noexec"] else options in
  {| om_Destination := om_Destination mount; om_Type := om_Type mount; om_Source := om_Source mount;
     om_Options := options ++ ["size=" +:+ FormatUint perMount] |}.

(** The loop: the mounts after it and [found]. *)
Fixpoint bound_mounts (workspace : bool) (perMount : Z) (mounts : list OciMount) : list OciMount * Z :=
  match mounts with
  | [] => ([], 0)
  | mount :: rest =>
      let '(rest', found) := bound_mounts workspace perMount rest in
      if bounded_mount workspace mount then (bound_mount perMount mount :: rest', found + 1)
      else (mount :: rest', found)
  end.

Definition set_Mounts (spec : OciSpec) (mounts : list OciMount) : OciSpec :=
  {| oci_Process := oci_Process spec; oci_Readonly := oci_Readonly spec; oci_Mounts := mounts;
     oci_Linux := oci_Linux spec |}.

Definition boundTmpfsMounts (spec : OciSpec) (total : Z) (workspace : bool) : result OciSpec :=
  let expected := if workspace then 4 else 3 in
  let perMount := total / expected in
  fail_if (perMount <? 4096) "containerd disk limit is too small" ;;;
  let '(mounts, found) := bound_mounts workspace perMount (oci_Mounts spec) in
  fail_if (negb (found =? expected)) "containerd OCI specification has unexpected tmpfs mounts" ;;;
  Ok (set_Mounts spec mounts).

Definition set_process (request : ContainerRequest) (p : OciProcess) : OciProcess :=
  {| pr_Terminal := false; pr_UID := cr_UserID request; pr_GID := cr_GroupID request; pr_AdditionalGids := [];
     pr_Args := cr_Entrypoint request; pr_Env := environment (cr_Environment request);
     pr_Cwd := if cr_WorkingDirectory request =s? "" then "/" else cr_WorkingDirectory request;
     pr_Capabilities := Some {| cap_Bounding := []; cap_Effective := []; cap_Inheritable := [];
                                cap_Permitted := []; cap_Ambient := [] |};
     pr_Rlimits := [{| rl_Type := "RLIMIT_NOFILE"; rl_Hard := 1024; rl_Soft := 1024 |}];
     pr_NoNewPrivileges := true |}.

Definition set_resources (request : ContainerRequest) (period quota : Z) (l : OciLinux) : OciLinux :=
  {| lx_Resources := Some
       {| lr_Memory := Some (Some (sint64 (lim_MemoryBytes (cr_Limits request))));
          lr_Pids := Some (lim_PIDs (cr_Limits request));
          lr_CPU := Some (Some period, Some quota);
          lr_Devices := [{| dc_Allow := false; dc_Type := ""; dc_Major := None; dc_Minor := None;
                            dc_Access := "rwm" |}] |};
     lx_Namespaces := lx_Namespaces l; lx_Seccomp := lx_Seccomp l |}.

Definition set_seccomp (profile : Seccomp) (l : OciLinux) : OciLinux :=
  {| lx_Resources := lx_Resources l; lx_Namespaces := lx_Namespaces l; lx_Seccomp := Some profile |}.

Definition workspace_mounts (request : ContainerRequest) (source : string) : list OciMount :=
  [ {| om_Destination := "/workspace"; om_Type := "tmpfs"; om_Source := "tmpfs";
       om_Options := ["nosuid"; "nodev"; "mode=0700"; "uid=" +:+ FormatUint (cr_UserID request);
                      "gid=" +:+ FormatUint (cr_GroupID request)] |};
    {| om_Destination := "/workspace/source"; om_Type := "bind"; om_Source := source;
       om_Options := ["rbind"; "ro"; "nosuid"; "nodev"; "noexec"] |} ].

Section Isolation.
(** [seccomp.DefaultProfile]: [None] is a nil profile. *)
Variable DefaultProfile : OciSpec -> option Seccomp.

Definition fixedIsolationSpec (request : ContainerRequest) (workspaceSource : list string)
    (spec : option OciSpec) : result OciSpec :=
  match spec with
  | Some {| oci_Process := Some p; oci_Readonly := Some _; oci_Mounts := mounts; oci_Linux := Some l |} =>
      let* (period, quota) := cpuQuota (cr_Limits request) in
      let spec := {| oci_Process := Some (set_process request p); oci_Readonly := Some true;
                     oci_Mounts := mounts; oci_Linux := Some (set_resources request period quota l) |} in
      match DefaultProfile spec with
      | None => Err "containerd default seccomp profile is unavailable"
      | Some profile =>
          fail_if ((sc_DefaultAction profile <>s? ActErrno) || (llen (sc_Syscalls profile) =? 0))
            "containerd default seccomp profile is unavailable" ;;;
          let spec := {| oci_Process := oci_Process spec; oci_Readonly := oci_Readonly spec; oci_Mounts := mounts;
                         oci_Linux := Some (set_seccomp profile (set_resources request period quota l)) |} in
          fail_if (negb (hasPrivateNetworkNamespace (lx_Namespaces l)))
            "containerd OCI specification lacks a private network namespace" ;;;
          let* spec :=
            (if cr_WorkspaceArchive request then
               match workspaceSource with
               | [source] =>
                   fail_if (source =s? "") "containerd workspace source is unavailable" ;;;
                   Ok (set_Mounts spec (mounts ++ workspace_mounts request source))
               | _ => Err "containerd workspace source is unavailable"
               end
             else
               fail_if (negb (llen workspaceSource =? 0)) "unexpected containerd workspace source" ;;;
               Ok spec) in
          boundTmpfsMounts spec (lim_DiskBytes (cr_Limits request)) (cr_WorkspaceArchive request)
      end
  | _ => Err "containerd generated an incomplete OCI specification"
  end.
End Isolation.

(** ** Configuration *)

Definition validGPUAlias (value : string) : bool :=
  if (len value <? 3) || (64 <? len value) || contains_str value ".." then false
  else str_forallb (fun c => is_lower c || is_digit c || Ascii.eqb c "-") value.

(** [strings.EqualFold(s, t)] for a [t] of ASCII letters without other
    Unicode foldings, such as "all". *)
Definition to_lower (c : ascii) : ascii :=
  if is_upper c then ascii_of_nat (Z.to_nat (code c + 32)) else c.

Fixpoint EqualFold (s t : string) : bool :=
  match s, t with
  | EmptyString, EmptyString => true
  | String a s', String b t' => Ascii.eqb (to_lower a) (to_lower b) && EqualFold s' t'
  | _, _ => false
  end.

Definition identifier_char (c : ascii) : bool := is_upper c || is_lower c || is_digit c.

(** ^[A-Za-z0-9][A-Za-z0-9_.-]{0,75}$ *)
Definition runtimeIdentifier (s : string) : bool :=
  match s with
  | EmptyString => false
  | String c rest =>
      identifier_char c && (len rest <=? 75) &&
      str_forallb (fun c => identifier_char c || Ascii.eqb c "_" || Ascii.eqb c "." || Ascii.eqb c "-") rest
  end.

Record Config := {
  cfg_SocketPath : string;
  cfg_Namespace : string;
  cfg_Snapshotter : string;
  cfg_Runtime : string;
  cfg_FIFODir : string;
  cfg_MaxActive : Z;
  cfg_OperationTimeout : Z;
  cfg_CleanupTimeout : Z;
  cfg_PermitGPU : bool;
  cfg_PermitNetwork : bool;
  cfg_GPUDevices : gmap string string;
  cfg_CDISpecDirs : list string;
  cfg_PolicyLimits : Limits;
  cfg_ImageReference : string;
  cfg_ImageDigest : string;
  cfg_ImagePlatform : string;
}.

Definition withConfigDefaults (c : Config) : Config :=
  {| cfg_SocketPath := cfg_SocketPath c; cfg_Namespace := cfg_Namespace c; cfg_Snapshotter := cfg_Snapshotter c;
     cfg_Runtime := cfg_Runtime c; cfg_FIFODir := cfg_FIFODir c; cfg_MaxActive := cfg_MaxActive c;
     cfg_OperationTimeout :=
       if cfg_OperationTimeout c =? 0 then DefaultOperationTimeout else cfg_OperationTimeout c;
     cfg_CleanupTimeout := if cfg_CleanupTimeout c =? 0 then DefaultCleanupTimeout else cfg_CleanupTimeout c;
     cfg_PermitGPU := cfg_PermitGPU c; cfg_PermitNetwork := cfg_PermitNetwork c;
     cfg_GPUDevices := cfg_GPUDevices c;
     cfg_CDISpecDirs := if llen (cfg_CDISpecDirs c) =? 0 then defaultCDISpecDirs else cfg_CDISpecDirs c;
     cfg_PolicyLimits := cfg_PolicyLimits c; cfg_ImageReference := cfg_ImageReference c;
     cfg_ImageDigest := cfg_ImageDigest c; cfg_ImagePlatform := cfg_ImagePlatform c |}.

Definition clean_absolute (p : string) : bool := filepath_IsAbs p && (path_Clean p =s? p).

(** The loop over the CDI directories with its set of directories seen. *)
Fixpoint check_directories (seen : gset string) (directories : list string) : result unit :=
  match directories with
  | [] => Ok tt
  | directory :: rest =>
      fail_if (negb (filepath_IsAbs directory) || (path_Clean directory <>s? directory)) "invalid CDI spec directory" ;;;
      fail_if (bool_decide (directory ∈ seen)) "duplicate CDI spec directory" ;;;
      check_directories ({[directory]} ∪ seen) rest
  end.

Section Configuration.
(** [parser.ParseQualifiedName]: vendor, class and device name. *)
Variable ParseQualifiedName : string -> option (string * string * string).

(** The loop over the device map, in the order of the enumeration [l]. *)
Fixpoint check_devices (seen : gset string) (l : list (string * string)) : result unit :=
  match l with
  | [] => Ok tt
  | (alias, device) :: rest =>
      fail_if (negb (validGPUAlias alias)) "invalid GPU device alias" ;;;
      match ParseQualifiedName device with
      | Some (_, _, deviceName) => fail_if (EqualFold deviceName "all") "invalid CDI device identifier"
      | None => Err "invalid CDI device identifier"
      end ;;;
      fail_if (bool_decide (device ∈ seen)) "duplicate CDI device identifier" ;;;
      check_devices ({[device]} ∪ seen) rest
  end.

Definition validateGPUDeviceMap (devices : gmap string string) (permitGPU : bool) (maximum : Z) : result unit :=
  let count := Z.of_nat (size devices) in
  if negb permitGPU then
    fail_if (negb (count =? 0) || negb (maximum =? 0)) "GPU devices require GPU permission"
  else
    fail_if ((maximum =? 0) || (count mod 4294967296 <? maximum) || (64 <? count)) "invalid GPU device capacity" ;;;
    check_devices ∅ (map_to_list devices).

Definition validateConfig (c : Config) : result unit :=
  fail_if (negb (filepath_IsAbs (cfg_SocketPath c)) || (path_Clean (cfg_SocketPath c) <>s? cfg_SocketPath c) ||
           negb (filepath_IsAbs (cfg_FIFODir c)) || (path_Clean (cfg_FIFODir c) <>s? cfg_FIFODir c) ||
           negb (runtimeIdentifier (cfg_Namespace c)) || negb (runtimeIdentifier (cfg_Snapshotter c)) ||
           negb (runtimeIdentifier (cfg_Runtime c)) ||
           (cfg_MaxActive c <=? 0) || (MaxSupervisedActiveHard <? cfg_MaxActive c) ||
           (cfg_OperationTimeout c <=? 0) || (MaxOperationTimeout <? cfg_OperationTimeout c) ||
           (cfg_CleanupTimeout c <=? 0) || (MaxCleanupTimeout <? cfg_CleanupTimeout c))
    "invalid containerd backend configuration" ;;;
  fail_if ((llen (cfg_CDISpecDirs c) =? 0) || (8 <? llen (cfg_CDISpecDirs c))) "invalid CDI spec directories" ;;;
  check_directories ∅ (cfg_CDISpecDirs c) ;;;
  fail_if ((cfg_Snapshotter c <>s? "overlayfs") || (cfg_Runtime c <>s? "io.containerd.runc.v2"))
    "unsupported containerd isolation backend" ;;;
  fail_if (cfg_PermitNetwork c ||
           negb (is_ok (validateDriverLimits (cfg_PolicyLimits c) (cfg_PermitGPU c))) ||
           negb (is_ok (ValidateExecutionDigest (cfg_ImageDigest c))) ||
           (cfg_ImagePlatform c <>s? "linux/amd64") ||
           (len (cfg_ImageReference c) =? 0) || (MaxStringBytesHard <? len (cfg_ImageReference c)) ||
           contains_byte (cfg_ImageReference c) nul ||
           negb (has_suffix (cfg_ImageReference c) ("@" +:+ cfg_ImageDigest c)))
    "unsupported containerd isolation policy" ;;;
  validateGPUDeviceMap (cfg_GPUDevices c) (cfg_PermitGPU c) (lim_GPUDeviceCount (cfg_PolicyLimits c)).
End Configuration.

(** ** Task metrics *)

Definition maxMetricIODevices : Z := 4096.

(** cgroup2's [Metrics]: the counters the code reads. *)
Record Metrics := {
  mt_UsageUsec : option Z;               (* CPU *)
  mt_Memory : option (Z * Z);            (* Usage, MaxUsage *)
  mt_Io : list (option Z);               (* Wbytes per device; nil entries *)
}.

(** The loop over the devices. *)
Fixpoint disk_written (acc : Z) (entries : list (option Z)) : option Z :=
  match entries with
  | [] => Some acc
  | None :: _ => None
  | Some wbytes :: rest => if max_u64 - acc <? wbytes then None else disk_written (wrap64 (acc + wbytes)) rest
  end.

(** [metric]: [None] where the metric or its data is nil or of another type,
    [Some None] where decoding fails. *)
Definition usageFromMetric (metric : option (option Metrics)) (duration : Z) : result Usage :=
  match metric with
  | None => Err "unsupported containerd task metrics"
  | Some decoded =>
      fail_if (duration <=? 0) "unsupported containerd task metrics" ;;;
      match decoded with
      | Some {| mt_UsageUsec := Some usec; mt_Memory := Some (usage, maxUsage); mt_Io := io |} =>
          fail_if (maxMetricIODevices <? llen io) "invalid containerd task metrics" ;;;
          let cpuMillis := if negb (usec mod 1000 =? 0) then usec / 1000 + 1 else usec / 1000 in
          let peakMemory := if maxUsage <? usage then usage else maxUsage in
          match disk_written 0 io with
          | None => Err "invalid containerd task metrics"
          | Some diskWritten =>
              Ok {| us_CPUMillis := cpuMillis; us_PeakMemory := peakMemory; us_DiskWritten := diskWritten;
                    us_Duration := duration |}
          end
      | _ => Err "invalid containerd task metrics"
      end
  end.

(** ** Bounded output *)

Record boundedOutput := {
  bo_maximum : Z;
  bo_buffer : bytes;
  bo_exceeded : bool;
}.

Definition newBoundedOutput (maximum : Z) : boundedOutput :=
  {| bo_maximum := maximum; bo_buffer := ""; bo_exceeded := false |}.

(** [boundedOutput.Write]: the writer's state after it; it always reports the
    whole value as written. *)
Definition bo_Write (w : boundedOutput) (value : bytes) : boundedOutput * Z :=
  let available := wrap64 (bo_maximum w - len (bo_buffer w)) in
  let stored := len value in
  let over := available <? stored in
  let stored := if over then available else stored in
  ({| bo_maximum := bo_maximum w;
      bo_buffer := if 0 <? stored then bo_buffer w +:+ str_take (Z.to_nat stored) value else bo_buffer w;
      bo_exceeded := if over then true else bo_exceeded w |}, len value).

Definition bo_Bytes (w : boundedOutput) : bytes := bo_buffer w.
Definition bo_Exceeded (w : boundedOutput) : bool := bo_exceeded w.

Definition write_all (w : boundedOutput) (values : list bytes) : boundedOutput :=
  fold_left (fun w value => (bo_Write w value).1) values w.

(** ** Limits *)

(** The wall-clock budget in milliseconds, and the rounded-up CPU time per
    period of 100 ms it gives. *)
Definition wall_millis (l : Limits) : Z := lim_ExecutionTime l / time_Millisecond.

Definition quota_ceiling (l : Limits) : Z :=
  (lim_CPUMillis l * 100000 + wall_millis l - 1) / wall_millis l.

Lemma quota_ceiling_spec l : 0 < wall_millis l ->
  (quota_ceiling l - 1) * wall_millis l < lim_CPUMillis l * 100000 <= quota_ceiling l * wall_millis l.
Proof.
  intros Hw. unfold quota_ceiling. set (a := lim_CPUMillis l * 100000). set (w := wall_millis l) in *.
  pose proof (Z.div_mod (a + w - 1) w). pose proof (Z.mod_pos_bound (a + w - 1) w). nia.
Qed.

(** Within the hard limits no operation of [cpuQuota] wraps around. *)
Lemma cpuQuota_spec l :
  0 < lim_CPUMillis l <= MaxCPUMillisHard -> 0 < lim_ExecutionTime l <= MaxExecutionTimeHard ->
  cpuQuota l =
    if wall_millis l =? 0 then Err "invalid containerd CPU limit"
    else if quota_ceiling l <? 1000 then Err "containerd CPU limit cannot be represented safely"
    else Ok (100000, quota_ceiling l).
Proof.
  change MaxCPUMillisHard with 86400000. change MaxExecutionTimeHard with 3600000000000. intros Hc Ht.
  assert (Hw : 0 <= wall_millis l <= 3600000).
  { unfold wall_millis. change time_Millisecond with 1000000.
    split; [apply Z.div_pos; lia|apply Z.div_le_upper_bound; lia]. }
  unfold cpuQuota.
  assert (E : wrap64 (Z.quot (lim_ExecutionTime l) time_Millisecond) = wall_millis l).
  { rewrite Z.quot_div_nonneg by (unfold time_Millisecond; lia). apply wrap64_small. unfold u64, two64.
    fold (wall_millis l). lia. }
  rewrite E. change (max_u64 / 100000) with 184467440737095. change (Z.shiftr max_u64 1) with 9223372036854775807.
  destruct (Z.eqb_spec (wall_millis l) 0) as [|Hne]; [done|]. cbn [orb].
  destruct (Z.ltb_spec 184467440737095 (lim_CPUMillis l)); [lia|]. cbn [fail_if rbind].
  rewrite !(wrap64_small (_ * _)), (wrap64_small (_ + _)), (wrap64_small (_ - 1)) by (unfold u64, two64; lia).
  fold (quota_ceiling l).
  assert (Hq : 0 <= quota_ceiling l <= 8640000000000 + 3600000).
  { unfold quota_ceiling. split; [apply Z.div_pos; lia|].
    apply Z.div_le_upper_bound; [lia|]. nia. }
  destruct (Z.ltb_spec (quota_ceiling l) 1000); [done|]. cbn [orb].
  destruct (Z.ltb_spec 9223372036854775807 (quota_ceiling l)); [lia|]. cbn [fail_if rbind].
  unfold sint64. rewrite wrap64_small by (unfold u64, two64; lia).
  destruct (Z.ltb_spec (quota_ceiling l) two63); [done|unfold two63 in *; lia].
Qed.

(** What the driver accepts, without machine arithmetic. *)
Record driver_limits (l : Limits) (gpu : bool) : Prop := {
  dl_cpu : 0 < lim_CPUMillis l <= MaxCPUMillisHard;
  dl_memory : 0 < lim_MemoryBytes l <= MaxMemoryBytesHard;
  dl_disk : 12288 <= lim_DiskBytes l <= MaxDiskBytesHard;
  dl_pids : 0 < lim_PIDs l <= MaxPIDsHard;
  dl_time : 0 < lim_ExecutionTime l <= MaxExecutionTimeHard;
  dl_output : 0 < lim_OutputBytes l <= MaxOutputBytesHard;
  dl_gpu : gpu = true <-> 0 < lim_GPUDeviceCount l;
  dl_wall : 1 <= wall_millis l;
  dl_share : 999 * wall_millis l < lim_CPUMillis l * 100000;
}.

Lemma wall_millis_nonneg l : 0 < lim_ExecutionTime l -> 0 <= wall_millis l.
Proof. intros. apply Z.div_pos; [lia|done]. Qed.

Lemma cpuQuota_ok l :
  0 < lim_CPUMillis l <= MaxCPUMillisHard -> 0 < lim_ExecutionTime l <= MaxExecutionTimeHard ->
  is_ok (cpuQuota l) = true <-> 1 <= wall_millis l /\ 999 * wall_millis l < lim_CPUMillis l * 100000.
Proof.
  intros Hc Ht. rewrite cpuQuota_spec by done. pose proof (wall_millis_nonneg l ltac:(lia)).
  destruct (Z.eqb_spec (wall_millis l) 0); [split; [done|lia]|].
  pose proof (quota_ceiling_spec l ltac:(lia)).
  destruct (Z.ltb_spec (quota_ceiling l) 1000); split; try done; intros; nia.
Qed.

Lemma eqb_iff b c : Bool.eqb b c = true <-> (b = true <-> c = true).
Proof. destruct b, c; simpl; split; try done; intros [H H']; auto; discriminate (H' eq_refl) || discriminate (H eq_refl). Qed.

Lemma validateDriverLimits_spec l gpu : Limits_wf l ->
  validateDriverLimits l gpu = Ok tt <-> driver_limits l gpu.
Proof.
  intros (W1 & W2 & W3 & W4 & W5 & W6 & W7). unfold u64, u32 in *.
  unfold validateDriverLimits. rewrite !then_ok, !fail_if_ok, negb_false_iff, eqb_iff, Z.ltb_lt.
  assert (Hq : (let* _ := cpuQuota l in Ok tt) = Ok tt <-> is_ok (cpuQuota l) = true) by (destruct (cpuQuota l); done).
  rewrite Hq. split.
  - intros (H & Hg & Hk). bool_props. change minimumTmpfsBytes with 12288 in *.
    rewrite cpuQuota_ok in Hk by lia. constructor; done || lia.
  - intros [? ? ? ? ? ? ? ? ?]. rewrite cpuQuota_ok by lia. split_and!; try done; try lia.
    change minimumTmpfsBytes with 12288.
    rewrite !orb_false_iff, !Z.eqb_neq, !Z.ltb_ge, Z.leb_gt. lia.
Qed.

(** ** Temporary file systems *)

(** The [size=] options of a mount, and the number of bytes they allow. *)
Definition size_options (m : OciMount) : list string :=
  filter (fun option => has_prefix option "size=" = true) (om_Options m).

Definition mount_bytes (m : OciMount) : option Z :=
  match size_options m with
  | [option] => ParseUint (trim_prefix option "size=") 64
  | _ => None
  end.

Lemma has_prefix_size n : has_prefix ("size=" +:+ FormatUint n) "size=" = true.
Proof. apply has_prefix_app. Qed.

Lemma bound_mount_sizes per m : size_options (bound_mount per m) = ["size=" +:+ FormatUint per].
Proof.
  unfold size_options, bound_mount. cbn [om_Options]. rewrite filter_app, filter_cons.
  rewrite decide_True by apply has_prefix_size. rewrite filter_nil.
  assert (E : forall l, filter (fun option => has_prefix option "size=" = true)
                          (filter (fun option => has_prefix option "size=" = false) l) = []).
  { intros l. induction l as [|x l IH]; [done|]. rewrite filter_cons. case_decide as Hx; [|done].
    rewrite filter_cons_False; [done|]. by rewrite Hx. }
  destruct ((om_Destination m <>s? "/workspace") && _); [rewrite filter_app|]; by rewrite E.
Qed.

Lemma bound_mount_bytes per m : u64 per -> mount_bytes (bound_mount per m) = Some per.
Proof.
  intros H. unfold mount_bytes. rewrite bound_mount_sizes, trim_prefix_app. by apply FormatUint_ParseUint.
Qed.

Lemma contains_spec l s : contains l s = true <-> s ∈ l.
Proof.
  unfold contains. rewrite existsb_exists. split.
  - intros (x & Hx & ->%String.eqb_eq). by apply list_elem_of_In.
  - intros H. exists s. split; [by apply list_elem_of_In|apply String.eqb_refl].
Qed.

Lemma bound_mount_noexec per m : om_Destination m <> "/workspace" -> "noexec" ∈ om_Options (bound_mount per m).
Proof.
  intros Hd. unfold bound_mount. cbn [om_Options]. apply elem_of_app. left.
  destruct (String.eqb_spec (om_Destination m) "/workspace"); [done|]. cbn [negb andb].
  destruct (contains _ "noexec") eqn:E; cbn [negb]; [by apply contains_spec|].
  apply elem_of_app. right. by apply list_elem_of_singleton.
Qed.

Lemma bound_mount_bounded ws per m : bounded_mount ws (bound_mount per m) = bounded_mount ws m.
Proof. done. Qed.

Lemma bound_mounts_spec ws per l l' found :
  bound_mounts ws per l = (l', found) ->
  l' = (fun m => if bounded_mount ws m then bound_mount per m else m) <$> l /\
  found = llen (filter (fun m => bounded_mount ws m = true) l).
Proof.
  revert l' found. induction l as [|m l IH]; intros l' found; cbn [bound_mounts]; [by intros [= <- <-]|].
  destruct (bound_mounts ws per l) as [l1 n] eqn:E. destruct (IH _ _ eq_refl) as [-> ->].
  rewrite filter_cons. unfold llen. cbn [fmap list_fmap].
  destruct (bounded_mount ws m); intros [= <- <-]; case_decide; try done. cbn [length]. split; [done|lia].
Qed.

(** The bytes all bounded mounts of a specification may hold together. *)
Definition tmpfs_bytes (ws : bool) (l : list OciMount) : Z :=
  foldr Z.add 0 ((fun m => default 0 (mount_bytes m)) <$> filter (fun m => bounded_mount ws m = true) l).

Lemma filter_bound ws per (l : list OciMount) :
  filter (fun m => bounded_mount ws m = true) ((fun m => if bounded_mount ws m then bound_mount per m else m) <$> l) =
  bound_mount per <$> filter (fun m => bounded_mount ws m = true) l.
Proof.
  induction l as [|m l IH]; [done|]. cbn [fmap list_fmap]. rewrite !filter_cons.
  destruct (bounded_mount ws m) eqn:E; rewrite ?bound_mount_bounded, E; simpl;
    rewrite ?decide_True, ?decide_False by done; cbn [fmap list_fmap]; unfold fmap in IH; rewrite <- ?IH; done.
Qed.

Lemma sum_const per (l : list OciMount) : u64 per ->
  foldr Z.add 0 ((fun m => default 0 (mount_bytes m)) <$> (bound_mount per <$> l)) = llen l * per.
Proof.
  intros Hp. induction l as [|m l IH]; [done|]. rewrite !fmap_cons. cbn [foldr].
  rewrite IH, bound_mount_bytes by done. unfold llen. cbn [length default from_option id]. lia.
Qed.

Lemma boundTmpfsMounts_spec spec total ws spec' :
  u64 total -> boundTmpfsMounts spec total ws = Ok spec' ->
  let n := if ws then 4 else 3 in
  spec' = set_Mounts spec ((fun m => if bounded_mount ws m then bound_mount (total / n) m else m) <$> oci_Mounts spec) /\
  4096 <= total / n /\
  llen (filter (fun m => bounded_mount ws m = true) (oci_Mounts spec)) = n /\
  tmpfs_bytes ws (oci_Mounts spec') = n * (total / n).
Proof.
  intros Ht H n. unfold boundTmpfsMounts in H. fold n in H. apply then_ok in H as [Hper%fail_if_ok H].
  apply Z.ltb_ge in Hper.
  destruct (bound_mounts ws (total / n) (oci_Mounts spec)) as [l' found] eqn:E.
  apply bound_mounts_spec in E as [-> ->].
  apply then_ok in H as [Hf%fail_if_ok [= <-]]. apply negb_false_iff, Z.eqb_eq in Hf.
  split_and!; try done. unfold tmpfs_bytes. cbn [oci_Mounts set_Mounts].
  rewrite filter_bound, sum_const, Hf; [done|].
  unfold u64 in *. assert (0 < n) by (subst n; destruct ws; lia).
  split; [lia|]. apply Z.le_lt_trans with total; [|lia].
  apply Z.div_le_upper_bound; nia.
Qed.

(** ** The process environment *)

Lemma environment_perm values :
  environment values ≡ₚ (fun kv => kv.1 +:+ "=" +:+ kv.2) <$> map_to_list values.
Proof.
  unfold environment, sort_Strings. rewrite sort_by_perm, <- list_fmap_compose.
  apply Permutation_refl', list_fmap_ext. intros i [k v] Hi%list_elem_of_lookup_2. simpl.
  apply elem_of_map_to_list in Hi. by rewrite Hi.
Qed.

(** ** What the driver accepts *)

Record driver_request (r : ContainerRequest) (input : bytes) (devices : Z) : Prop := {
  dr_execution : digest_pattern (cr_ExecutionDigest r) = true;
  dr_image : digest_pattern (cr_ImageDigest r) = true;
  dr_input : len input <= MaxInputBytesHard;
  dr_args : 0 < llen (cr_Entrypoint r) <= MaxArgumentsHard;
  dr_arg_strings : Forall (container_string MaxStringBytesHard false) (cr_Entrypoint r);
  dr_env_size : Z.of_nat (size (cr_Environment r)) <= MaxEnvironmentHard;
  dr_env : forall k v, cr_Environment r !! k = Some v ->
    container_string MaxStringBytesHard false k /\ contains_str k "=" = false /\
    container_string MaxStringBytesHard true v;
  dr_user : cr_UserID r <> 0 /\ cr_GroupID r <> 0;
  dr_readonly : cr_ReadOnlyRoot r = true /\ cr_NoNewPrivileges r = true;
  dr_workdir : if cr_WorkspaceArchive r then validWorkspaceDirectory (cr_WorkingDirectory r) = true
               else cr_WorkingDirectory r = "" \/ cr_WorkingDirectory r = "/";
  dr_network : cr_Network r = NetworkNone /\ cr_AllowedHosts r = [];
  dr_limits : driver_limits (cr_Limits r) (cr_AllowGPU r);
  dr_devices : devices = lim_GPUDeviceCount (cr_Limits r);
}.

(** The two packages check the working directory in the same way. *)
Lemma workspace_directories_agree s : validWorkspaceWorkingDirectory s = validWorkspaceDirectory s.
Proof.
  unfold validWorkspaceWorkingDirectory, validWorkspaceDirectory, MaxStringBytesHard.
  destruct (s =s? "/workspace/source"), (has_prefix s "/workspace/source/"); done.
Qed.

Lemma invalidRuntimeString_spec s ae :
  invalidRuntimeString s ae = false <-> container_string MaxStringBytesHard ae s.
Proof.
  rewrite <- invalidContainerString_spec. unfold invalidRuntimeString, invalidContainerString.
  assert (E : (s =s? "") = (len s =? 0)); [|by rewrite E].
  destruct (String.eqb_spec s ""), (Z.eqb_spec (len s) 0) as [Hz|Hz]; try done; [by subst|by apply len_zero in Hz].
Qed.

Lemma runtime_env_ok (env : gmap string string) :
  Forall (fun kv => invalid_runtime_env kv = false) (map_to_list env) <->
  forall k v, env !! k = Some v ->
    container_string MaxStringBytesHard false k /\ contains_str k "=" = false /\
    container_string MaxStringBytesHard true v.
Proof.
  rewrite Forall_forall. unfold invalid_runtime_env. split.
  - intros H k v Hkv. specialize (H (k, v)). rewrite elem_of_map_to_list in H.
    specialize (H Hkv). cbn [fst snd] in H. rewrite !orb_false_iff, !invalidRuntimeString_spec in H.
    destruct H as [[? ?] ?]. auto.
  - intros H [k v] Hkv%elem_of_map_to_list. cbn [fst snd].
    rewrite !orb_false_iff, !invalidRuntimeString_spec. destruct (H k v Hkv) as (? & ? & ?). auto.
Qed.

Lemma ValidateExecutionDigest_ok v : is_ok (ValidateExecutionDigest v) = digest_pattern v.
Proof. unfold ValidateExecutionDigest. by destruct (digest_pattern v). Qed.

Lemma workdir_flags (ws : bool) w :
  (ws && negb (validWorkspaceWorkingDirectory w)) = false /\ (negb ws && (w <>s? "") && (w <>s? "/")) = false <->
  if ws then validWorkspaceDirectory w = true else w = "" \/ w = "/".
Proof.
  rewrite workspace_directories_agree. destruct ws; simpl.
  - rewrite negb_false_iff. naive_solver.
  - rewrite andb_false_iff, !negb_false_iff, !String.eqb_eq. naive_solver.
Qed.

Lemma validateRequest_spec r input devices :
  Limits_wf (cr_Limits r) ->
  validateRequest r input devices = Ok tt <-> driver_request r input devices.
Proof.
  intros Hwf. unfold validateRequest.
  rewrite !then_ok, !fail_if_ok, !existsb_false, runtime_env_ok, !orb_false_iff, !ValidateExecutionDigest_ok,
    !negb_false_iff, eqb_iff, Z.ltb_lt.
  assert (Hs : Forall (fun a => invalidRuntimeString a false = false) (cr_Entrypoint r) <->
               Forall (container_string MaxStringBytesHard false) (cr_Entrypoint r)).
  { apply Forall_iff. intros a. apply invalidRuntimeString_spec. }
  assert (Hl : is_ok (validateDriverLimits (cr_Limits r) (cr_AllowGPU r)) = true <->
               driver_limits (cr_Limits r) (cr_AllowGPU r)).
  { rewrite <- validateDriverLimits_spec by done. rewrite is_ok_true.
    split; [intros [[] H]; exact H|intros H; by exists tt]. }
  rewrite Hs, Hl, !Z.ltb_ge, !Z.eqb_neq, !Z.eqb_eq, !String.eqb_eq, (llen_zero (cr_AllowedHosts r)).
  pose proof (workdir_flags (cr_WorkspaceArchive r) (cr_WorkingDirectory r)) as Hw.
  pose proof (llen_nonneg (cr_Entrypoint r)).
  split.
  - intros (H1 & [Hg Hd] & Ha & He). destruct_and! H1. constructor; try done; try lia. by apply Hw.
  - intros [? ? ? ? ? ? ? ? ? Hwd ? Hdl Hdev]. apply Hw in Hwd as [? ?].
    destruct_and!. split_and!; try done; try lia; subst devices; by apply Hdl.
Qed.

(** ** Output and metrics *)

Definition concat_bytes (values : list bytes) : bytes := foldr String.append "" values.

Lemma str_take_app_split n s t :
  str_take n (s +:+ t) = str_take n s +:+ str_take (n - String.length s) t.
Proof.
  revert s. induction n as [|n IH]; intros [|c s]; try done.
  change (String c s +:+ t) with (String c (s +:+ t)). cbn [str_take String.length Nat.sub]. by rewrite IH.
Qed.

(** The state of a buffer that was given the bytes [p]. *)
Definition output_of (maximum : Z) (p : bytes) : boundedOutput :=
  {| bo_maximum := maximum; bo_buffer := str_take (Z.to_nat maximum) p; bo_exceeded := maximum <? len p |}.

Lemma bo_Write_spec maximum p value : u64 maximum ->
  (bo_Write (output_of maximum p) value).1 = output_of maximum (p +:+ value).
Proof.
  intros Hm. unfold bo_Write, output_of. cbn [bo_maximum bo_buffer bo_exceeded fst].
  unfold u64, two64 in Hm.
  assert (El : len (str_take (Z.to_nat maximum) p) = Z.min maximum (len p)).
  { unfold len. rewrite str_take_length. lia. }
  rewrite El, wrap64_small by (unfold u64, two64; pose proof (len_nonneg p); lia).
  rewrite str_take_app_split, len_app. pose proof (len_nonneg p). pose proof (len_nonneg value).
  assert (Ep : Z.to_nat (len p) = String.length p) by (unfold len; lia).
  f_equal.
  - destruct (Z.ltb_spec (maximum - Z.min maximum (len p)) (len value)).
    + destruct (Z.ltb_spec 0 (maximum - Z.min maximum (len p))).
      * do 2 f_equal. lia.
      * replace (Z.to_nat maximum - String.length p)%nat with 0%nat by lia. simpl.
        by rewrite str_app_nil.
    + rewrite (str_take_all (Z.to_nat maximum - String.length p) value) by (unfold len in *; lia).
      destruct (Z.ltb_spec 0 (len value)).
      * by rewrite (str_take_all (Z.to_nat (len value)) value) by (unfold len; lia).
      * rewrite (len_zero value) by lia. by rewrite str_app_nil.
  - destruct (Z.ltb_spec (maximum - Z.min maximum (len p)) (len value)),
      (Z.ltb_spec maximum (len p)), (Z.ltb_spec maximum (len p + len value)); done || lia.
Qed.

Lemma write_all_spec maximum p values : u64 maximum ->
  write_all (output_of maximum p) values = output_of maximum (p +:+ concat_bytes values).
Proof.
  intros Hm. unfold write_all. revert p. induction values as [|v values IH]; intros p; cbn [fold_left concat_bytes foldr].
  - by rewrite str_app_nil.
  - rewrite bo_Write_spec, IH by done. by rewrite str_app_assoc.
Qed.

Lemma newBoundedOutput_of maximum : u64 maximum -> newBoundedOutput maximum = output_of maximum "".
Proof.
  intros Hm. unfold newBoundedOutput, output_of. f_equal; [by destruct (Z.to_nat maximum)|].
  destruct (Z.ltb_spec maximum (len "")) as [Hlt|]; [|done]. unfold u64 in Hm. change (len "") with 0 in Hlt. lia.
Qed.

Lemma bounded_output_length maximum values : u64 maximum ->
  len (bo_Bytes (write_all (newBoundedOutput maximum) values)) <= maximum.
Proof.
  intros Hm. rewrite newBoundedOutput_of, write_all_spec by done. unfold bo_Bytes, output_of, len. cbn [bo_buffer].
  rewrite str_take_length. unfold u64 in Hm. lia.
Qed.

Lemma bounded_output_complete maximum values : u64 maximum ->
  bo_Exceeded (write_all (newBoundedOutput maximum) values) = false ->
  bo_Bytes (write_all (newBoundedOutput maximum) values) = concat_bytes values.
Proof.
  intros Hm. rewrite newBoundedOutput_of, write_all_spec by done. unfold bo_Bytes, bo_Exceeded, output_of.
  cbn [bo_buffer bo_exceeded]. rewrite Z.ltb_ge. intros Hle. apply str_take_all. unfold len, u64 in *. cbn in Hle. cbn. lia.
Qed.

Definition written (entries : list (option Z)) : Z := foldr (fun e acc => default 0 e + acc) 0 entries.

Definition io_entry (e : option Z) : Prop := match e with Some w => u64 w | None => True end.

Lemma written_nonneg entries : Forall io_entry entries -> 0 <= written entries.
Proof. induction 1 as [|[w|] l Hw _ IH]; simpl in *; unfold u64 in *; lia. Qed.

Lemma disk_written_spec entries acc : Forall io_entry entries -> u64 acc ->
  disk_written acc entries =
    if bool_decide (Forall is_Some entries) && (acc + written entries <=? max_u64)
    then Some (acc + written entries) else None.
Proof.
  intros He. revert acc. induction He as [|[w|] l Hw Hl IH]; intros acc Hacc; cbn [disk_written written foldr].
  - rewrite bool_decide_true by constructor. unfold u64, two64, max_u64 in *. rewrite Z.add_0_r.
    destruct (Z.leb_spec acc (two64 - 1)); [done|unfold two64 in *; lia].
  - cbn in Hw. unfold u64, max_u64 in *. pose proof (written_nonneg l Hl). cbn [default from_option id].
    fold (written l).
    rewrite (bool_decide_ext (Forall is_Some (Some w :: l)) (Forall is_Some l)) by
      (rewrite Forall_cons; split; [by intros [_ ?]|by split; [eexists|]]).
    destruct (Z.ltb_spec (two64 - 1 - acc) w).
    + destruct (Z.leb_spec (acc + (w + written l)) (two64 - 1)); [lia|]. by rewrite andb_false_r.
    + rewrite wrap64_small, IH by (unfold u64; lia). by rewrite <- Z.add_assoc.
  - rewrite bool_decide_false; [done|]. rewrite Forall_cons. intros [[? ?] _]; done.
Qed.

(** ** The device map *)

Section DeviceMap.
Context (PQN : string -> option (string * string * string)).

Definition cdi_device (device : string) : Prop :=
  exists vendor class name, PQN device = Some (vendor, class, name) /\ EqualFold name "all" = false.

Lemma check_devices_spec seen l :
  check_devices PQN seen l = Ok tt <->
  Forall (fun ad => validGPUAlias ad.1 = true /\ cdi_device ad.2 /\ ad.2 ∉ seen) l /\ NoDup l.*2.
Proof.
  revert seen. induction l as [|[alias device] l IH]; intros seen; cbn [check_devices fmap list_fmap].
  { split; [intros _; split; constructor|done]. }
  change (snd (alias, device) :: (snd <$> l)) with ([device] ++ l.*2).
  rewrite !then_ok, !fail_if_ok, negb_false_iff, bool_decide_eq_false, IH, Forall_cons, NoDup_app.
  cbn [fst snd]. unfold cdi_device at 2.
  assert (Hq : match PQN device with
               | Some (_, _, deviceName) => fail_if (EqualFold deviceName "all") "invalid CDI device identifier"
               | None => Err "invalid CDI device identifier"
               end = Ok tt <->
               exists vendor class name, PQN device = Some (vendor, class, name) /\ EqualFold name "all" = false).
  { destruct (PQN device) as [[[v c] n]|].
    - rewrite fail_if_ok. split; [intros ?; by exists v, c, n|intros (?&?&?&[= <- <- <-]&?); done].
    - split; [done|intros (?&?&?&?&?); done]. }
  rewrite Hq. rewrite !Forall_forall. split.
  - intros (Ha & Hc & Hn & Hf & Hnd). split_and!; try done.
    + intros x Hx. destruct (Hf x Hx) as (? & ? & ?). split_and!; try done. set_solver.
    + apply NoDup_singleton.
    + intros x ->%list_elem_of_singleton (y & -> & Hy)%list_elem_of_fmap.
      destruct (Hf y Hy) as (_ & _ & Hns). set_solver.
  - intros (((Ha & Hc & Hn) & Hf) & (_ & Hdis & Hnd)). split_and!; try done.
    intros x Hx. destruct (Hf x Hx) as (? & ? & ?). split_and!; try done.
    intros [E%elem_of_singleton|]%elem_of_union; [|done].
    apply (Hdis device); [by apply list_elem_of_singleton|]. rewrite <- E. by apply list_elem_of_fmap_2.
Qed.

(** Acceptance does not depend on the order in which Go ranges over the map. *)
Lemma check_devices_order l l' : l ≡ₚ l' -> check_devices PQN ∅ l = Ok tt <-> check_devices PQN ∅ l' = Ok tt.
Proof. intros H. rewrite !check_devices_spec. by rewrite H. Qed.

Lemma validateGPUDeviceMap_injective devices maximum a b d :
  validateGPUDeviceMap PQN devices true maximum = Ok tt ->
  devices !! a = Some d -> devices !! b = Some d -> a = b.
Proof.
  unfold validateGPUDeviceMap. cbn [negb]. intros [_ [_ Hnd]%check_devices_spec]%then_ok Ha%elem_of_map_to_list Hb%elem_of_map_to_list.
  apply list_elem_of_lookup_1 in Ha as [i Hi], Hb as [j Hj].
  assert (i = j) as ->; [|congruence]. eapply NoDup_lookup; [exact Hnd|..]; rewrite list_lookup_fmap.
  - rewrite Hi. done.
  - rewrite Hj. done.
Qed.
End DeviceMap.

(** ** A successful specification *)

(** The specification before the tmpfs mounts are bounded. *)
Definition isolated_mounts (request : ContainerRequest) (src : list string) (mounts : list OciMount) : list OciMount :=
  mounts ++ (if cr_WorkspaceArchive request then src ≫= workspace_mounts request else []).

Lemma fixedIsolationSpec_inv DP request src spec out :
  fixedIsolationSpec DP request src spec = Ok out ->
  exists p ro mounts l period quota profile,
    spec = Some {| oci_Process := Some p; oci_Readonly := Some ro; oci_Mounts := mounts; oci_Linux := Some l |} /\
    cpuQuota (cr_Limits request) = Ok (period, quota) /\
    sc_DefaultAction profile = ActErrno /\ sc_Syscalls profile <> [] /\
    hasPrivateNetworkNamespace (lx_Namespaces l) = true /\
    (if cr_WorkspaceArchive request then exists s, src = [s] /\ s <> "" else src = []) /\
    boundTmpfsMounts
      {| oci_Process := Some (set_process request p); oci_Readonly := Some true;
         oci_Mounts := isolated_mounts request src mounts;
         oci_Linux := Some (set_seccomp profile (set_resources request period quota l)) |}
      (lim_DiskBytes (cr_Limits request)) (cr_WorkspaceArchive request) = Ok out.
Proof.
  unfold fixedIsolationSpec. intros H.
  destruct spec as [[[p|] [ro|] mounts [l|]]|]; try discriminate H.
  apply rbind_ok in H as ([period quota] & Hq & H).
  match type of H with match DP ?s with _ => _ end = _ => destruct (DP s) as [profile|] eqn:Hp; [|discriminate H] end.
  apply then_ok in H as [Hs%fail_if_ok H]. apply then_ok in H as [Hn%fail_if_ok H].
  apply negb_false_iff in Hn. bool_props. rewrite llen_zero in *.
  apply rbind_ok in H as (spec & Hsp & H).
  exists p, ro, mounts, l, period, quota, profile. split_and!; try done.
  - destruct (cr_WorkspaceArchive request).
    + destruct src as [|s [|]]; try discriminate Hsp. apply then_ok in Hsp as [E%fail_if_ok _].
      apply String.eqb_neq in E. by exists s.
    + apply then_ok in Hsp as [E%fail_if_ok _]. by apply negb_false_iff, Z.eqb_eq, llen_zero in E.
  - revert H. unfold isolated_mounts. destruct (cr_WorkspaceArchive request).
    + destruct src as [|s [|]]; try discriminate Hsp. apply then_ok in Hsp as [_ [= <-]]. done.
    + apply then_ok in Hsp as [_ [= <-]]. by rewrite app_nil_r.
Qed.

Lemma sint64_small x : 0 <= x < two63 -> sint64 x = x.
Proof.
  intros H. unfold sint64. rewrite wrap64_small by (unfold u64, two64, two63 in *; lia).
  destruct (Z.ltb_spec x two63); [done|lia].
Qed.

Lemma process_directory (ws : bool) w :
  (if ws then validWorkspaceDirectory w = true else w = "" \/ w = "/") ->
  let cwd := if w =s? "" then "/" else w in path_Clean cwd = cwd /\ filepath_IsAbs cwd = true.
Proof.
  intros H. destruct ws; [|destruct H as [-> | ->]; done]. unfold validWorkspaceDirectory in H.
  destruct (String.eqb_spec w "/workspace/source") as [E|E]; [by rewrite E|].
  destruct (has_prefix w "/workspace/source/") eqn:P; [|discriminate H]. cbn [negb andb] in H. bool_props.
  apply has_prefix_spec in P as [t E']. rewrite E' in *. split; [done|].
  apply (has_prefix_app "/" ("workspace/source/" +:+ t)).
Qed.

(** The isolation a container of [request] is promised. *)
Definition isolation (request : ContainerRequest) (out : OciSpec) : Prop :=
  exists p l r sec quota,
    oci_Process out = Some p /\ oci_Linux out = Some l /\ lx_Resources l = Some r /\
    oci_Readonly out = Some true /\
    (pr_UID p = cr_UserID request /\ pr_UID p <> 0 /\ pr_GID p = cr_GroupID request /\ pr_GID p <> 0 /\
     pr_AdditionalGids p = []) /\
    pr_NoNewPrivileges p = true /\
    pr_Capabilities p = Some {| cap_Bounding := []; cap_Effective := []; cap_Inheritable := [];
                                cap_Permitted := []; cap_Ambient := [] |} /\
    pr_Args p = cr_Entrypoint request /\ pr_Args p <> [] /\
    (pr_Env p ≡ₚ (fun kv => kv.1 +:+ "=" +:+ kv.2) <$> map_to_list (cr_Environment request)) /\
    (path_Clean (pr_Cwd p) = pr_Cwd p /\ filepath_IsAbs (pr_Cwd p) = true) /\
    (lx_Seccomp l = Some sec /\ sc_DefaultAction sec = ActErrno) /\
    Exists (fun n => ns_Type n = NetworkNamespace /\ ns_Path n = "") (lx_Namespaces l) /\
    Forall (fun d => dc_Allow d = false) (lr_Devices r) /\ lr_Devices r <> [] /\
    lr_Memory r = Some (Some (lim_MemoryBytes (cr_Limits request))) /\
    lr_Pids r = Some (lim_PIDs (cr_Limits request)) /\
    lr_CPU r = Some (Some 100000, Some quota) /\
    (quota - 1) * wall_millis (cr_Limits request) < lim_CPUMillis (cr_Limits request) * 100000
      <= quota * wall_millis (cr_Limits request).

Lemma isolation_holds DP request input devices src spec out :
  Limits_wf (cr_Limits request) -> validateRequest request input devices = Ok tt ->
  fixedIsolationSpec DP request src spec = Ok out -> isolation request out.
Proof.
  intros Hwf Hreq Hspec.
  apply validateRequest_spec in Hreq as [_ _ _ Ha _ _ _ [Hu Hg] _ Hwd _ HL _]; [|done].
  apply fixedIsolationSpec_inv in Hspec
    as (p & ro & mounts & l & period & quota & profile & -> & Hq & Hs & _ & Hn & _ & Hb).
  apply boundTmpfsMounts_spec in Hb as (-> & _); [|apply Hwf].
  rewrite cpuQuota_spec in Hq by apply HL.
  destruct (Z.eqb_spec (wall_millis (cr_Limits request)) 0) as [|Hw]; [discriminate Hq|].
  destruct (quota_ceiling (cr_Limits request) <? 1000); [discriminate Hq|]. injection Hq as <- <-.
  do 5 eexists. cbn. split_and!; try reflexivity; try done.
  - cbn. intros E. rewrite E in Ha. change (0 < 0 <= MaxArgumentsHard) in Ha. lia.
  - apply environment_perm.
  - by eapply process_directory.
  - by eapply process_directory.
  - apply Exists_exists. apply existsb_exists in Hn as (n & Hin & E). bool_props. exists n.
    split; [by apply list_elem_of_In|done].
  - repeat constructor.
  - cbn [lr_Memory]. do 2 f_equal. apply sint64_small. pose proof (dl_memory _ _ HL) as Hm.
    change MaxMemoryBytesHard with 1099511627776 in Hm. unfold two63. lia.
  - pose proof (dl_wall _ _ HL). apply quota_ceiling_spec. lia.
  - pose proof (dl_wall _ _ HL). apply quota_ceiling_spec. lia.
Qed.

(** ** Properties *)

(** C20. The fixed isolation: a specification built for a request the driver
    accepts runs the requested command as the requested non-root user and group
    with no capability, no new privileges, a read-only root, the default
    seccomp profile, no device, a private network namespace, the requested
    memory and process limits and exactly the CPU share that spends the
    requested CPU time within the wall-clock limit, rounded up. *)
Theorem isolation_enforced DP request input devices src spec out
    (Hwf : Limits_wf (cr_Limits request))
    (Hreq : validateRequest request input devices = Ok tt)
    (Hspec : fixedIsolationSpec DP request src spec = Ok out) :
  isolation request out.
Proof. by eapply isolation_holds. Qed.

(** The disk limit: all writable temporary file systems of a container
    together hold at most the requested number of bytes and less than one byte
    per mount below it; each has exactly one size option and all but the
    workspace forbid execution; every other mount is one the runtime generated,
    except the read-only bind of the unpacked workspace. *)
Theorem isolation_disk_bounded DP request src spec out
    (Hwf : Limits_wf (cr_Limits request))
    (Hspec : fixedIsolationSpec DP request src (Some spec) = Ok out) :
  let ws := cr_WorkspaceArchive request in
  let disk := lim_DiskBytes (cr_Limits request) in
  disk - 4 < tmpfs_bytes ws (oci_Mounts out) <= disk /\
  (forall m, m ∈ oci_Mounts out -> bounded_mount ws m = true ->
     mount_bytes m = Some (disk / if ws then 4 else 3) /\ length (size_options m) = 1%nat /\
     (om_Destination m <> "/workspace" -> "noexec" ∈ om_Options m)) /\
  (forall m, m ∈ oci_Mounts out -> bounded_mount ws m = false ->
     m ∈ oci_Mounts spec \/
     exists s, src = [s] /\ ws = true /\ om_Source m = s /\ om_Destination m = "/workspace/source" /\
       om_Type m = "bind" /\ "ro" ∈ om_Options m).
Proof.
  intros ws disk. apply fixedIsolationSpec_inv in Hspec
    as (p & ro & mounts & l & period & quota & profile & [= ->] & _ & _ & _ & _ & Hsrc & Hb).
  apply boundTmpfsMounts_spec in Hb as (-> & Hper & _ & Hsum); [|apply Hwf].
  fold ws disk in Hper, Hsum |- *. set (n := if ws then 4 else 3) in *.
  assert (Hn : 0 < n <= 4) by (subst n; destruct ws; lia).
  assert (Hu : u64 (disk / n)).
  { split; [lia|]. apply Z.le_lt_trans with disk; [|apply Hwf].
    apply Z.div_le_upper_bound; [lia|]. assert (u64 disk) by apply Hwf. unfold u64 in *. nia. }
  split_and!.
  - rewrite Hsum. pose proof (Z.div_mod disk n). pose proof (Z.mod_pos_bound disk n). lia.
  - rewrite Hsum. apply Z.mul_div_le. lia.
  - intros m (m0 & -> & Hm0)%list_elem_of_fmap. fold ws. destruct (bounded_mount ws m0) eqn:E; [|congruence].
    intros _. rewrite bound_mount_bytes, bound_mount_sizes by done. split_and!; try done.
    intros Hd. apply bound_mount_noexec. exact Hd.
  - intros m (m0 & -> & Hm0)%list_elem_of_fmap. fold ws. destruct (bounded_mount ws m0) eqn:E; [by rewrite bound_mount_bounded, E|].
    intros _. unfold isolated_mounts in Hm0. apply elem_of_app in Hm0 as [?|Hm0]; [by left|right].
    fold ws in Hsrc, Hm0. destruct ws eqn:Ews; [|by apply elem_of_nil in Hm0].
    destruct Hsrc as (s & -> & _). exists s. rewrite list_bind_singleton in Hm0 || cbn in Hm0.
    apply elem_of_cons in Hm0 as [->|Hm0]; [discriminate E|].
    apply elem_of_cons in Hm0 as [->|Hm0%elem_of_nil]; [|done].
    split_and!; try done. cbn. set_solver.
Qed.

(** Bounded output: whatever the chunks in which a container's output
    arrives, the buffer holds the first bytes of their concatenation up to the
    limit, and reports an excess exactly when there were more. *)
Theorem bounded_output_exact maximum values (Hm : u64 maximum) :
  let w := write_all (newBoundedOutput maximum) values in
  bo_Bytes w = str_take (Z.to_nat maximum) (concat_bytes values) /\
  len (bo_Bytes w) <= maximum /\
  (bo_Exceeded w = true <-> maximum < len (concat_bytes values)) /\
  (bo_Exceeded w = false -> bo_Bytes w = concat_bytes values).
Proof.
  intros w. split_and!; [|by apply bounded_output_length| |by apply bounded_output_complete];
    subst w; rewrite newBoundedOutput_of, write_all_spec by done; unfold bo_Bytes, bo_Exceeded; cbn [output_of bo_buffer bo_exceeded].
  - done.
  - apply Z.ltb_lt.
Qed.

(** Metrics: usage is reported exactly when the runtime's counters are
    complete and their sum is an unsigned 64-bit number; CPU time is rounded up
    to milliseconds, memory is the larger of the two counters, and the bytes
    written are the sum over all devices. *)
Theorem usage_exact usec usage maxUsage io duration
    (Hio : Forall io_entry io) (Hn : llen io <= maxMetricIODevices) (Hd : 0 < duration) :
  usageFromMetric (Some (Some {| mt_UsageUsec := Some usec; mt_Memory := Some (usage, maxUsage); mt_Io := io |}))
    duration =
  if bool_decide (Forall is_Some io) && (written io <=? max_u64)
  then Ok {| us_CPUMillis := (usec + 999) / 1000; us_PeakMemory := Z.max usage maxUsage;
             us_DiskWritten := written io; us_Duration := duration |}
  else Err "invalid containerd task metrics".
Proof.
  unfold usageFromMetric. destruct (Z.leb_spec duration 0); [lia|]. cbn [fail_if rbind].
  destruct (Z.ltb_spec maxMetricIODevices (llen io)); [lia|]. cbn [fail_if rbind].
  rewrite disk_written_spec by (try done; unfold u64, two64; lia). rewrite Z.add_0_l.
  destruct (bool_decide (Forall is_Some io) && (written io <=? max_u64)); [|done]. do 2 f_equal.
  - pose proof (Z.div_mod usec 1000). pose proof (Z.mod_pos_bound usec 1000).
    pose proof (Z.div_mod (usec + 999) 1000). pose proof (Z.mod_pos_bound (usec + 999) 1000).
    destruct (Z.eqb_spec (usec mod 1000) 0); cbn [negb]; lia.
  - destruct (Z.ltb_spec maxUsage usage); lia.
Qed.

(** A policy whose bounds are those of the driver or tighter. *)
Record driver_policy (p : Policy) : Prop := {
  dp_args : pol_MaxArguments p <= MaxArgumentsHard;
  dp_env : pol_MaxEnvironment p <= MaxEnvironmentHard;
  dp_strings : pol_MaxStringBytes p <= MaxStringBytesHard;
  dp_input : pol_MaxInputBytes p <= MaxInputBytesHard;
  dp_network : pol_PermitNetwork p = false;
  dp_readonly : pol_RequireReadOnlyRoot p = true;
  dp_cpu : lim_CPUMillis (pol_Ceiling p) <= MaxCPUMillisHard;
  dp_memory : lim_MemoryBytes (pol_Ceiling p) <= MaxMemoryBytesHard;
  dp_disk : lim_DiskBytes (pol_Ceiling p) <= MaxDiskBytesHard;
  dp_pids : lim_PIDs (pol_Ceiling p) <= MaxPIDsHard;
  dp_time : lim_ExecutionTime (pol_Ceiling p) <= MaxExecutionTimeHard;
  dp_output : lim_OutputBytes (pol_Ceiling p) <= MaxOutputBytesHard;
}.

Lemma container_string_mono m m' ae s : m <= m' -> container_string m ae s -> container_string m' ae s.
Proof. unfold container_string. intros ? (? & ? & ?). split_and!; done || lia. Qed.

Lemma conforming_network p s : pol_PermitNetwork p = false -> Conforms p s ->
  sp_Network s = NetworkNone /\ sp_AllowedHosts s = [].
Proof. intros Hp [_ _ _ _ _ _ _ _ _ _ _ _ _ [?|(_ & Hn & _)] _ _]; [done|congruence]. Qed.

(** Policy and driver agree: under a policy within the driver's bounds,
    what the executor's policy admits the driver accepts too, up to the three
    conditions only the driver has: at least 12288 bytes of disk, a wall-clock
    limit of a millisecond and a CPU share of at least one percent. *)
Theorem driver_accepts_conforming p s input d devices
    (Hs : Limits_wf (sp_Limits s)) (Hc : Limits_wf (pol_Ceiling p)) (Hp : driver_policy p)
    (Hv : Validate p s = Ok tt) (Hi : ValidateInput p input = Ok tt) (Hd : digest_pattern d = true) :
  validateRequest (request_of d s) input devices = Ok tt <->
  devices = lim_GPUDeviceCount (sp_Limits s) /\ 12288 <= lim_DiskBytes (sp_Limits s) /\
  1 <= wall_millis (sp_Limits s) /\ 999 * wall_millis (sp_Limits s) < lim_CPUMillis (sp_Limits s) * 100000.
Proof.
  rewrite validateRequest_spec by done. apply Validate_spec in Hv as [_ HC]; [|done..].
  destruct (conforming_network p s (dp_network p Hp) HC) as [Hn Hh].
  apply fail_if_ok, Z.ltb_ge in Hi. split.
  - intros [_ _ _ _ _ _ _ _ _ _ _ [_ _ Hdisk _ _ _ _ Hw Hsh] Hdev]. split_and!; done || apply Hdisk.
  - intros (-> & Hdisk & Hw & Hsh).
    destruct Hp as [? ? ? ? _ Hro ? ? ? ? ? ?]. destruct HC as [? _ ? Has ? Henv _ ? _ _ _ Hun Hr _ Hg Hl].
    destruct Hl as (? & ? & ? & ? & ? & ?). destruct Hun as (_ & ? & ? & ? & _).
    constructor; try done; cbn [request_of cr_Entrypoint cr_Environment cr_Limits cr_AllowGPU]; try lia.
    + eapply Forall_impl; [exact Has|]. intros x. by apply container_string_mono.
    + intros k v Hkv. destruct (Henv k v Hkv) as (? & ? & ?). split_and!; try done; by eapply container_string_mono.
    + split; [by apply Hr|done].
    + constructor; try lia; try done.
      destruct (sp_AllowGPU s); destruct_and?; split; intros; done || lia.
Qed.

(** ** Witnesses *)

Module SpecSamples.
Import Executor.Samples.

Definition limits : Limits :=
  {| lim_CPUMillis := 1000; lim_MemoryBytes := 1048576; lim_DiskBytes := 65537; lim_PIDs := 8;
     lim_ExecutionTime := 2000000000; lim_OutputBytes := 64; lim_GPUDeviceCount := 0 |}.

Definition offline : Policy :=
  {| pol_AllowedImages := {[image]}; pol_AllowedNetworkHosts := []; pol_MaxAllowedImages := 1;
     pol_MaxEnvironment := 2; pol_MaxArguments := 4; pol_MaxAllowedHosts := 0; pol_MaxStringBytes := 64;
     pol_MaxInputBytes := 128; pol_Ceiling := limits; pol_PermitGPU := false; pol_PermitNetwork := false;
     pol_RequireReadOnlyRoot := true |}.

Definition work : Spec :=
  {| sp_ImageDigest := image; sp_Entrypoint := ["/bin/tool"; "run"];
     sp_WorkingDirectory := "/workspace/source/pkg"; sp_Environment := {["HOME" := "/workspace"; "A" := "1"]};
     sp_WorkspaceArchive := true; sp_ReadOnlyRoot := true; sp_Network := NetworkNone; sp_AllowedHosts := [];
     sp_AllowGPU := false; sp_UserID := 1000; sp_GroupID := 1000; sp_Privileged := false;
     sp_NoNewPrivileges := true; sp_HostMounts := []; sp_ExposeRuntimeSocket := false; sp_Limits := limits |}.

Definition request : ContainerRequest := request_of image work.

Definition tmpfs (destination : string) : OciMount :=
  {| om_Destination := destination; om_Type := "tmpfs"; om_Source := "tmpfs";
     om_Options := ["nosuid"; "size=65536k"] |}.

Definition proc : OciMount :=
  {| om_Destination := "/proc"; om_Type := "proc"; om_Source := "proc"; om_Options := [] |}.

Definition generated : OciSpec :=
  {| oci_Process := Some {| pr_Terminal := true; pr_UID := 0; pr_GID := 0; pr_AdditionalGids := [0]; pr_Args := [];
                            pr_Env := ["PATH=/bin"]; pr_Cwd := "/"; pr_Capabilities := None; pr_Rlimits := [];
                            pr_NoNewPrivileges := false |};
     oci_Readonly := Some false; oci_Mounts := [proc; tmpfs "/dev"; tmpfs "/dev/shm"; tmpfs "/run"];
     oci_Linux := Some {| lx_Resources := None; lx_Namespaces := [{| ns_Type := "network"; ns_Path := "" |}];
                          lx_Seccomp := None |} |}.

Definition profile (s : OciSpec) : option Seccomp :=
  Some {| sc_DefaultAction := ActErrno; sc_Syscalls := ["read"; "write"] |}.

Definition isolated : OciSpec :=
  Eval vm_compute in
    match fixedIsolationSpec profile request ["/private/w"] (Some generated) with Ok s => s | Err _ => generated end.
End SpecSamples.

Lemma isolation_enforced_witness :
  exists p, oci_Process SpecSamples.isolated = Some p /\ pr_UID p = 1000 /\ pr_Env p = ["A=1"; "HOME=/workspace"].
Proof.
  destruct (isolation_enforced SpecSamples.profile SpecSamples.request "archive" 0 ["/private/w"]
              (Some SpecSamples.generated) SpecSamples.isolated) as (p & l & r & sec & quota & Hp & _);
    [by_compute | vm_compute; reflexivity | vm_compute; reflexivity |].
  exists p. split; [exact Hp|]. injection Hp as <-. split; reflexivity.
Defined.

Lemma isolation_disk_bounded_witness :
  lim_DiskBytes SpecSamples.limits - 4 < tmpfs_bytes true (oci_Mounts SpecSamples.isolated) <= 65537.
Proof.
  apply (isolation_disk_bounded SpecSamples.profile SpecSamples.request ["/private/w"] SpecSamples.generated
           SpecSamples.isolated); [by_compute | vm_compute; reflexivity].
Defined.

Lemma bounded_output_exact_witness :
  bo_Bytes (write_all (newBoundedOutput 5) ["abc"; ""; "defg"; "h"]) = "abcde" /\
  bo_Exceeded (write_all (newBoundedOutput 5) ["abc"; ""; "defg"; "h"]) = true.
Proof.
  assert (H : u64 5) by by_compute.
  destruct (bounded_output_exact 5 ["abc"; ""; "defg"; "h"] H) as (Hb & _ & Hx & _).
  split; [exact Hb | apply Hx; by_compute].
Defined.

Lemma usage_exact_witness :
  usageFromMetric (Some (Some {| mt_UsageUsec := Some 1001; mt_Memory := Some (7, 5);
                                 mt_Io := [Some 4; Some 6] |})) 9 =
  Ok {| us_CPUMillis := 2; us_PeakMemory := 7; us_DiskWritten := 10; us_Duration := 9 |}.
Proof.
  refine (eq_trans (usage_exact 1001 7 5 [Some 4; Some 6] 9 _ _ _) _);
    [repeat constructor; discriminate | discriminate | reflexivity | reflexivity].
Defined.

Lemma driver_accepts_conforming_witness :
  validateRequest SpecSamples.request "archive" 0 = Ok tt /\ driver_policy SpecSamples.offline.
Proof.
  assert (Hp : driver_policy SpecSamples.offline) by (constructor; by_compute).
  split; [|exact Hp].
  apply (driver_accepts_conforming SpecSamples.offline SpecSamples.work "archive" Executor.Samples.image 0);
    by_compute || exact Hp.
Defined.
