(* ===== verification/Workspace.v ===== *)
(** * pkg/executor/containerdbackend/workspace.go: unpacking a workspace archive

    A workspace archive is unpacked into a new private directory below the
    backend's FIFO directory, made read-only, bound into the container and
    removed afterwards.  The file system is a tree of nodes keyed by the
    components of their absolute paths; every operation may fail where the
    environment decides so.  An operation whose path would run through a
    symbolic link is recorded in [h_followed] and has no effect here: the
    theorems show that none ever does.  The decoding of the archive is
    [archive/tar]'s and is a parameter: it yields the headers and the data
    that follow each. *)

From S2P Require Import Prelude GoStd Executor FS ContainerdSpec.

(** ** The tree *)

Abbreviation tpath := (list string) (only parsing).

Record node := Node {
  n_kind : kind;
  n_perm : Z;
  n_owned : bool;
  n_data : bytes;
}.
#[export] Instance node_eq_dec : EqDecision node.
Proof. solve_decision. Defined.

(** The environment's decision on an operation: it runs, or it fails after
    having done a part of its work. *)
Inductive fault := Runs | Fails (part : nat).

Record hfs := Hfs {
  h_tree : gmap tpath node;
  h_script : list fault;
  h_followed : list tpath;
}.

Definition H (A : Type) : Type := hfs -> A * hfs.
#[export] Instance h_ret : MRet H := fun A a s => (a, s).
#[export] Instance h_bind : MBind H := fun A B k m s => let '(a, s') := m s in k a s'.

Definition next_fault : H fault := fun s =>
  match h_script s with
  | [] => (Runs, s)
  | f :: r => (f, Hfs (h_tree s) r (h_followed s))
  end.

Definition get_tree : H (gmap tpath node) := fun s => (h_tree s, s).
Definition put_tree (t : gmap tpath node) : H unit := fun s => (tt, Hfs t (h_script s) (h_followed s)).
Definition follow (p : tpath) : H unit := fun s => (tt, Hfs (h_tree s) (h_script s) (p :: h_followed s)).

(** Where the directory part of a path leads. *)
Inductive resolution := Reaches | Broken | Through (q : list string).

Fixpoint resolve (t : gmap tpath node) (at_ : tpath) (rest : list string) : resolution :=
  match rest with
  | [] => Reaches
  | c :: rest' =>
      let q := at_ ++ [c] in
      match t !! q with
      | None => Broken
      | Some n =>
          match n_kind n with
          | Directory => resolve t q rest'
          | Symlink => Through q
          | _ => Broken
          end
      end
  end.

Definition parent (p : tpath) : tpath := removelast p.

Definition o300 : Z := 192.
Definition o444 : Z := 292.
Definition o555 : Z := 365.
Definition o111 : Z := 73.

(** Entries can be made in a directory whose owner bits allow writing. *)
Definition writable_dir (t : gmap tpath node) (d : tpath) : bool :=
  match t !! d with
  | Some n => bool_decide (n_kind n = Directory) && (Z.land (n_perm n) o300 =? o300)
  | None => false
  end.

(** An operation on the entry [p] of an existing directory. *)
Definition at_entry {A} (p : tpath) (f : fault -> gmap tpath node -> result A * gmap tpath node) : H (result A) :=
  x ← next_fault;
  t ← get_tree;
  match resolve t [] (parent p) with
  | Reaches => let '(r, t') := f x t in _ ← put_tree t'; mret r
  | Broken => mret (Err "no such file or directory")
  | Through q => _ ← follow q; mret (Err "symbolic link")
  end.

Definition new_dir (perm : Z) : node := Node Directory perm true "".

(** [os.Mkdir]. *)
Definition os_Mkdir (p : tpath) (perm : Z) : H (result unit) :=
  at_entry p (fun x t =>
    match x, t !! p with
    | Fails _, _ => (Err "input/output error", t)
    | Runs, Some _ => (Err "file exists", t)
    | Runs, None =>
        if writable_dir t (parent p) then (Ok tt, <[p := new_dir perm]> t) else (Err "permission denied", t)
    end).

(** [os.MkdirAll]: the missing directories on the way to [at_ ++ rest]. *)
Fixpoint mkdir_from (at_ : tpath) (rest : list string) (perm : Z) : H (result unit) :=
  match rest with
  | [] => mret (Ok tt)
  | c :: rest' =>
      let q := at_ ++ [c] in
      t ← get_tree;
      match t !! q with
      | None =>
          r ← os_Mkdir q perm;
          match r with Ok _ => mkdir_from q rest' perm | Err e => mret (Err e) end
      | Some n =>
          match n_kind n with
          | Directory => mkdir_from q rest' perm
          | Symlink => _ ← follow q; mret (Err "symbolic link")
          | _ => mret (Err "not a directory")
          end
      end
  end.

Definition os_MkdirAll (p : tpath) (perm : Z) : H (result unit) := mkdir_from [] p perm.

(** [os.OpenFile(p, O_WRONLY|O_CREATE|O_EXCL, perm)]. *)
Definition open_excl (p : tpath) (perm : Z) : H (result unit) :=
  at_entry p (fun x t =>
    match x, t !! p with
    | Fails _, _ => (Err "input/output error", t)
    | Runs, Some _ => (Err "file exists", t)
    | Runs, None =>
        if writable_dir t (parent p) then (Ok tt, <[p := Node Regular perm true ""]> t)
        else (Err "permission denied", t)
    end).

(** [io.CopyN(file, reader, size)] into the new file [p], where the archive
    still holds [data] for the entry. *)
Definition set_data (b : bytes) (n : node) : node := Node (n_kind n) (n_perm n) (n_owned n) b.

Definition copy_n (p : tpath) (data : bytes) (size : Z) : H (result unit) :=
  x ← next_fault;
  t ← get_tree;
  match x with
  | Fails part => _ ← put_tree (alter (set_data (str_take part (str_take (Z.to_nat size) data))) p t); mret (Err "input/output error")
  | Runs =>
      _ ← put_tree (alter (set_data (str_take (Z.to_nat size) data)) p t);
      mret (fail_if (len data <? size) "unexpected EOF")
  end.

(** [file.Close()]. *)
Definition close_h : H (result unit) :=
  x ← next_fault; mret (match x with Runs => Ok tt | Fails _ => Err "input/output error" end).

Definition chmod_node (perm : Z) (n : node) : node := Node (n_kind n) perm (n_owned n) (n_data n).

(** [os.Chmod], which follows a link at the path itself too. *)
Definition os_Chmod (p : tpath) (perm : Z) : H (result unit) :=
  x ← next_fault;
  t ← get_tree;
  match resolve t [] (parent p), t !! p with
  | Through q, _ => _ ← follow q; mret (Err "symbolic link")
  | _, Some n =>
      match n_kind n, x with
      | Symlink, _ => _ ← follow p; mret (Err "symbolic link")
      | _, Fails _ => mret (Err "input/output error")
      | _, Runs => _ ← put_tree (<[p := chmod_node perm n]> t); mret (Ok tt)
      end
  | _, None => mret (Err "no such file or directory")
  end.

(** The paths at or below [root]. *)
Fixpoint under (root p : tpath) : bool :=
  match root, p with
  | [], _ => true
  | a :: root', b :: p' => (a =s? b) && under root' p'
  | _ :: _, [] => false
  end.

(** [filepath.Walk] visits a tree in the lexical order of the components. *)
Fixpoint path_leb (p q : tpath) : bool :=
  match p, q with
  | [], _ => true
  | _ :: _, [] => false
  | a :: p', b :: q' => match str_compare a b with Lt => true | Gt => false | Eq => path_leb p' q' end
  end.
Definition path_le (p q : tpath) : Prop := path_leb p q = true.
#[export] Instance path_le_dec : RelDecision path_le := fun p q => bool_eq_dec (path_leb p q) true.

Definition tree_paths (root : tpath) (t : gmap tpath node) : list tpath :=
  merge_sort path_le (filter (fun p => under root p = true) (map_to_list t).*1).

(** [os.RemoveAll]: every node at or below [p]; it stops at an entry of a
    directory that is not writable, and a fault leaves a part of them. *)
Fixpoint remove_paths (l : list tpath) (t : gmap tpath node) : result unit * gmap tpath node :=
  match l with
  | [] => (Ok tt, t)
  | p :: rest =>
      let '(r, t') := remove_paths rest t in
      match r with
      | Err e => (Err e, t')
      | Ok _ => if writable_dir t' (parent p) then (Ok tt, delete p t') else (Err "permission denied", t')
      end
  end.

Definition os_RemoveAll (p : tpath) : H (result unit) :=
  x ← next_fault;
  t ← get_tree;
  match x with
  | Runs => let '(r, t') := remove_paths (tree_paths p t) t in _ ← put_tree t'; mret r
  | Fails part =>
      let '(_, t') := remove_paths (drop part (tree_paths p t)) t in
      _ ← put_tree t'; mret (Err "input/output error")
  end.

(** ** workspace.go *)

Definition maxWorkspaceEntries : Z := 100000.
Definition workspaceRootName : string := "workspaces".

(** [v, err := m; if err != nil { return e }; k v]. *)
Definition or_fail {A B} (m : H (result A)) (e : string) (k : A -> H (result B)) : H (result B) :=
  r ← m; match r with Ok a => k a | Err _ => mret (Err e) end.
Notation "'attempt' x ':=' m 'else' e 'in' k" := (or_fail m e (fun x => k))
  (at level 200, x pattern, m at level 100, e at level 100, k at level 200).

(** [strings.TrimSuffix(s, "/")]. *)
Definition trim_slash (s : string) : string :=
  if has_suffix s "/" then str_take (String.length s - 1) s else s.

Definition safeWorkspaceName (value : string) : result string :=
  fail_if ((value =s? "") || contains_byte value nul || has_prefix value "/" || (4096 <? len value))
    "invalid containerd workspace path" ;;;
  let cleaned := path_Clean value in
  fail_if ((cleaned =s? ".") || (cleaned =s? "..") || has_prefix cleaned "../" || (cleaned <>s? trim_slash value))
    "invalid containerd workspace path" ;;;
  Ok cleaned.

Inductive typeflag := TypeDir | TypeReg | TypeRegA | TypeOther.

(** A header and the data the archive holds for it. *)
Record tar_entry := {
  te_Name : string;
  te_Typeflag : typeflag;
  te_Size : Z;      (* int64 *)
  te_Mode : Z;      (* header.FileInfo().Mode() *)
  te_Data : bytes;
}.

(** [filepath.Join(root, filepath.FromSlash(name))]: the components of [name]
    are cleaned after those of [root], so that [..] goes up from it. *)
Definition target_of (root : tpath) (name : string) : tpath :=
  clean_components true (rev root) (str_split "/" name).

Definition file_mode (e : tar_entry) : Z := if negb (Z.land (te_Mode e) o111 =? 0) then o555 else o444.

(** The case of a regular file: the new total. *)
Definition extract_file (target : tpath) (maximum total : Z) (e : tar_entry) : H (result Z) :=
  if (te_Size e <? 0) || (wrap64 (maximum - total) <? te_Size e)
  then mret (Err "containerd workspace exceeds disk limit") else
  let total := wrap64 (total + te_Size e) in
  attempt _ := os_MkdirAll (parent target) o700 else "create containerd workspace parent" in
  attempt _ := open_excl target o444 else "create containerd workspace file" in
  copyErr ← copy_n target (te_Data e) (te_Size e);
  closeErr ← close_h;
  if negb (is_ok copyErr) || negb (is_ok closeErr) then mret (Err "write containerd workspace file") else
  attempt _ := os_Chmod target (file_mode e) else "protect containerd workspace file" in
  mret (Ok total).

(** The [switch] of the loop of [extractWorkspaceTar] for one header. *)
Definition extract_entry (root : tpath) (maximum total : Z) (name : string) (e : tar_entry) : H (result Z) :=
  let target := target_of root name in
  match te_Typeflag e with
  | TypeDir =>
      attempt _ := os_MkdirAll target o700 else "create containerd workspace directory" in
      mret (Ok total)
  | TypeReg | TypeRegA => extract_file target maximum total e
  | TypeOther => mret (Err ("unsupported containerd workspace tar entry " +:+ name))
  end.

(** [extractWorkspaceTar] on what [reader.Next] yields: headers, an error
    ([None]), or the end. *)
Fixpoint extract_loop (root : tpath) (maximum : Z) (entries : Z) (seen : gset string) (total : Z)
    (items : list (option tar_entry)) : H (result unit) :=
  if maxWorkspaceEntries <=? entries then mret (Err "containerd workspace has too many entries") else
  match items with
  | [] => mret (Ok tt)
  | None :: _ => mret (Err "invalid containerd workspace tar")
  | Some e :: rest =>
      match safeWorkspaceName (te_Name e) with
      | Err err => mret (Err err)
      | Ok name =>
          if bool_decide (name ∈ seen) then mret (Err "duplicate containerd workspace path") else
          r ← extract_entry root maximum total name e;
          match r with
          | Err err => mret (Err err)
          | Ok total => extract_loop root maximum (entries + 1) ({[name]} ∪ seen) total rest
          end
      end
  end.

Definition extractWorkspaceTar (root : tpath) (items : list (option tar_entry)) (maximum : Z) : H (result unit) :=
  extract_loop root maximum 0 ∅ 0 items.

(** The function [makeWorkspaceReadOnly] passes to [filepath.Walk], over the
    visited paths; a fault is an error of the visit. *)
Fixpoint protect_paths (l : list tpath) : H (result unit) :=
  match l with
  | [] => mret (Ok tt)
  | p :: rest =>
      x ← next_fault; (* the lstat of the visit *)
      t ← get_tree;
      match x, t !! p with
      | Fails _, _ => mret (Err "input/output error")
      | Runs, None => mret (Err "no such file or directory")
      | Runs, Some n =>
          match n_kind n with
          | Symlink => mret (Err "containerd workspace contains a symlink")
          | Directory => attempt _ := os_Chmod p o555 else "chmod" in protect_paths rest
          | _ => protect_paths rest
          end
      end
  end.

Definition makeWorkspaceReadOnly (root : tpath) : H (result unit) :=
  t ← get_tree; protect_paths (tree_paths root t).

(** The walk of [removeWorkspace]. *)
Fixpoint unprotect_paths (l : list tpath) : H unit :=
  match l with
  | [] => mret tt
  | p :: rest =>
      t ← get_tree;
      match t !! p with
      | Some n => if bool_decide (n_kind n = Directory)
                  then _ ← os_Chmod p o700; unprotect_paths rest else unprotect_paths rest
      | None => unprotect_paths rest
      end
  end.

Definition removeWorkspace (directory : tpath) : H (result unit) :=
  t ← get_tree;
  _ ← unprotect_paths (tree_paths directory t);
  os_RemoveAll directory.

(** [os.Lstat]. *)
Definition h_lstat (p : tpath) : H (result node) :=
  at_entry p (fun x t =>
    (match x, t !! p with
     | Runs, Some n => Ok n
     | Runs, None => Err "no such file or directory"
     | Fails _, _ => Err "input/output error"
     end, t)).

Definition private_directory (n : node) : bool :=
  bool_decide (n_kind n = Directory) && (n_perm n =? o700) && n_owned n.

(** backend.go. *)
Definition ensurePrivateDirectory (p : tpath) : H (result unit) :=
  attempt _ := os_MkdirAll p o700 else "create containerd FIFO directory" in
  attempt n := h_lstat p else "containerd FIFO directory is not private" in
  mret (fail_if (negb (private_directory n)) "containerd FIFO directory is not private").

Section Prepare.
(** [archive/tar]: what [reader.Next] yields for the bytes of an archive. *)
Variable tar_items : bytes -> list (option tar_entry).

(** The directory; its cleanup function is [removeWorkspace] of it. *)
Definition prepareWorkspace (root : tpath) (identity : string) (archive : bytes) (maximum : Z) : H (result tpath) :=
  if negb (runtimeIdentifier identity) || (maximum =? 0) || (maximum <? len archive)
  then mret (Err "invalid containerd workspace archive") else
  let workspaceRoot := root ++ [workspaceRootName] in
  attempt _ := ensurePrivateDirectory workspaceRoot else "invalid containerd workspace root" in
  let directory := workspaceRoot ++ [identity] in
  attempt _ := os_Mkdir directory o700 else "create containerd workspace" in
  r ← extractWorkspaceTar directory (tar_items archive) maximum;
  match r with
  | Err err => _ ← removeWorkspace directory; mret (Err err)
  | Ok _ =>
      r ← makeWorkspaceReadOnly directory;
      match r with
      | Err err => _ ← removeWorkspace directory; mret (Err err)
      | Ok _ => mret (Ok directory)
      end
  end.
End Prepare.

(** ** Names *)

Lemma clean_relative_shape acc l :
  Forall (no_byte "/") l ->
  (exists k cs, acc = cs ++ replicate k ".." /\ Forall proper_component cs) ->
  exists k cs, clean_components false acc l = replicate k ".." ++ cs /\ Forall proper_component cs.
Proof.
  intros Hl. revert acc. induction Hl as [|x l Hx Hl IH]; intros acc (k & cs & -> & Hcs); cbn [clean_components].
  { exists k, (rev cs). rewrite rev_app_distr. split; [|by apply Forall_rev]. f_equal.
    clear. induction k as [|k IH]; [done|]. cbn [replicate rev]. rewrite IH.
    change [".."] with (replicate 1 ".."). by rewrite <- replicate_add, Nat.add_comm. }
  destruct (String.eqb_spec x "") as [->|Hne]; cbn [orb]; [apply IH; eauto|].
  destruct (String.eqb_spec x ".") as [->|Hnd]; cbn [orb]; [apply IH; eauto|].
  destruct (String.eqb_spec x "..") as [->|Hndd].
  - destruct cs as [|d cs]; cbn [app].
    + destruct k as [|k]; cbn [replicate].
      * apply IH. exists 1%nat, []. done.
      * cbn [String.eqb]. apply IH. exists (S (S k)), []. done.
    + apply Forall_cons in Hcs as [(_ & _ & Hd & _) Hcs].
      destruct (String.eqb_spec d ".."); [done|]. apply IH. eauto.
  - apply IH. exists k, (x :: cs). split; [done|]. apply Forall_cons. split; [|done]. by split_and!.
Qed.

Lemma str_join_dots k cs :
  has_prefix (str_join "/" (replicate (S k) ".." ++ cs)) "../" = true \/ str_join "/" (replicate (S k) ".." ++ cs) = "..".
Proof.
  destruct k as [|k]; cbn [replicate app]; [destruct cs as [|c cs]; [by right|left]|left];
    cbn [str_join]; apply (has_prefix_app "../").
Qed.

(** The components of an accepted name all name entries below their parent. *)
Definition safe_name (name : string) : Prop := Forall proper_component (str_split "/" name).

Lemma safeWorkspaceName_ok value name :
  safeWorkspaceName value = Ok name -> safe_name name /\ name = trim_slash value /\ len value <= 4096.
Proof.
  unfold safeWorkspaceName. rewrite !then_ok, !fail_if_ok. intros (H1 & H2 & [= <-]). bool_props.
  split_and!; try done. unfold path_Clean in *.
  destruct (String.eqb_spec value ""); [done|].
  match goal with E : has_prefix value "/" = false |- _ => rewrite E in * end.
  destruct (clean_relative_shape [] (str_split "/" value)) as (k & cs & E & Hcs);
    [apply str_split_no_byte|by exists 0%nat, []|]. rewrite E in *.
  destruct (String.eqb_spec (str_join "/" (replicate k ".." ++ cs)) ""); [done|].
  destruct k as [|k].
  - unfold safe_name. cbn [replicate app] in *.
    destruct cs as [|c cs]; [done|]. rewrite str_split_join; [done|done|].
    eapply Forall_impl; [exact Hcs|]. by intros x (_ & _ & _ & ?).
  - destruct (str_join_dots k cs) as [P|P]; congruence.
Qed.

Lemma clean_proper acc l : Forall proper_component l -> clean_components true acc l = rev acc ++ l.
Proof.
  intros Hl. revert acc. induction Hl as [|c l (H1 & H2 & H3 & _) Hl IH]; intros acc; cbn [clean_components].
  { by rewrite app_nil_r. }
  apply String.eqb_neq in H1, H2, H3. rewrite H1, H2, H3. cbn [orb]. rewrite IH. cbn [rev]. by rewrite <- app_assoc.
Qed.

Lemma str_split_cons name : exists r c, str_split "/" name = r ++ [c].
Proof.
  destruct (str_split "/" name) as [|x l _] eqn:E using rev_ind; [|by exists l, x].
  destruct name as [|a name]; simpl in E; [done|]. destruct (Ascii.eqb a "/"); [done|].
  by destruct (str_split "/" name).
Qed.

Lemma target_shape root name : safe_name name -> exists r c, target_of root name = root ++ r ++ [c].
Proof.
  intros Hs. unfold target_of. rewrite clean_proper, rev_involutive by done.
  destruct (str_split_cons name) as (r & c & ->). by exists r, c.
Qed.

(** ** Reasoning about file-system programs *)

(** [hwp m Q s]: run from [s], [m] ends with a value and a state in [Q]. *)
Definition hwp {A} (m : H A) (Q : A -> hfs -> Prop) (s : hfs) : Prop := Q (m s).1 (m s).2.

Lemma hwp_ret {A} (a : A) Q s : Q a s -> hwp (mret a) Q s.
Proof. done. Qed.

Lemma hwp_bind {A B} (m : H A) (k : A -> H B) Q s : hwp m (fun a => hwp (k a) Q) s -> hwp (m ≫= k) Q s.
Proof. unfold hwp, mbind, h_bind. by destruct (m s). Qed.

Lemma hwp_mono {A} (m : H A) (Q Q' : A -> hfs -> Prop) s :
  hwp m Q s -> (forall a s', Q a s' -> Q' a s') -> hwp m Q' s.
Proof. unfold hwp. auto. Qed.

Lemma hwp_and {A} (m : H A) (Q Q' : A -> hfs -> Prop) s :
  hwp m Q s -> hwp m Q' s -> hwp m (fun a s' => Q a s' /\ Q' a s') s.
Proof. done. Qed.

Lemma hwp_or_fail {A B} (m : H (result A)) e (k : A -> H (result B)) Q s :
  hwp m (fun r s' => match r with Ok a => hwp (k a) Q s' | Err _ => Q (Err e) s' end) s ->
  hwp (or_fail m e k) Q s.
Proof. intros Hm. apply hwp_bind. eapply hwp_mono; [exact Hm|]. by intros [a|err] s'. Qed.

Lemma hwp_eq {A} (m m' : H A) Q s : m s = m' s -> hwp m' Q s -> hwp m Q s.
Proof. unfold hwp. by intros ->. Qed.

Lemma hwp_get (Q : gmap tpath node -> hfs -> Prop) s : Q (h_tree s) s -> hwp get_tree Q s.
Proof. done. Qed.

(** The script loses at most its head. *)
Definition shorter (s s' : hfs) : Prop := h_script s' `suffix_of` h_script s.

Lemma hwp_fault Q s :
  (forall x r, h_script s = [] /\ x = Runs /\ r = [] \/ h_script s = x :: r -> Q x (Hfs (h_tree s) r (h_followed s))) ->
  hwp next_fault Q s.
Proof.
  intros HQ. unfold hwp, next_fault. destruct s as [t [|x r] f]; simpl in *; apply HQ; auto.
Qed.

(** ** Resolution *)

Lemma resolve_app t a r1 r2 :
  resolve t a (r1 ++ r2) = match resolve t a r1 with Reaches => resolve t (a ++ r1) r2 | x => x end.
Proof.
  revert a. induction r1 as [|c r1 IH]; intros a; [by rewrite app_nil_r|]. cbn [app resolve].
  destruct (t !! (a ++ [c])) as [n|]; [|done]. destruct (n_kind n); try done.
  rewrite IH. rewrite <- app_assoc. done.
Qed.

Lemma resolve_ext t t' a r :
  (forall r1 c r2, r = r1 ++ c :: r2 -> t !! (a ++ r1 ++ [c]) = t' !! (a ++ r1 ++ [c])) ->
  resolve t a r = resolve t' a r.
Proof.
  revert a. induction r as [|c r IH]; intros a Heq; [done|]. cbn [resolve].
  rewrite (Heq [] c r eq_refl : t !! (a ++ [c]) = t' !! (a ++ [c])). destruct (t' !! (a ++ [c])) as [n|]; [|done].
  destruct (n_kind n); try done. apply IH. intros r1 c' r2 ->.
  rewrite <- !app_assoc. exact (Heq (c :: r1) c' r2 eq_refl).
Qed.

(** A link on the way is a link of the tree. *)
Lemma resolve_through t a r q : resolve t a r = Through q ->
  exists r1 c r2 n, r = r1 ++ c :: r2 /\ q = a ++ r1 ++ [c] /\ t !! q = Some n /\ n_kind n = Symlink.
Proof.
  revert a. induction r as [|c r IH]; intros a; [done|]. cbn [resolve].
  destruct (t !! (a ++ [c])) as [n|] eqn:E; [|done]. destruct (n_kind n) eqn:K; try done.
  - intros (r1 & c' & r2 & n' & -> & -> & ? & ?)%IH. exists (c :: r1), c', r2, n'.
    rewrite <- app_assoc in *. done.
  - intros [= <-]. by exists [], c, r, n.
Qed.

Lemma under_app root p : under root p = true <-> exists r, p = root ++ r.
Proof.
  revert p. induction root as [|a root IH]; intros p; cbn [under]; [split; [intros _; by exists p|done]|].
  destruct p as [|b p]; [split; [done|by intros [r ?]]|]. rewrite andb_true_iff, IH, String.eqb_eq.
  split; [intros [-> [r ->]]; by exists r|]. intros [r [= -> ->]]. split; [done|by exists r].
Qed.

Lemma under_refl root : under root root = true.
Proof. apply under_app. exists []. by rewrite app_nil_r. Qed.

Lemma under_cons root c r : under root (root ++ c :: r) = true.
Proof. apply under_app. by eexists. Qed.

Lemma under_short root p : (length p < length root)%nat -> under root p = false.
Proof.
  intros Hl. destruct (under root p) eqn:E; [|done]. apply under_app in E as [r ->]. rewrite length_app in Hl. lia.
Qed.

Lemma parent_app (root : tpath) c r : parent (root ++ c :: r) = root ++ removelast (c :: r).
Proof. unfold parent. by rewrite removelast_app. Qed.

Lemma parent_snoc (p : tpath) c : parent (p ++ [c]) = p.
Proof. rewrite parent_app. simpl. by rewrite app_nil_r. Qed.

(** ** Confinement

    From a tree [t0] in which [root]'s parent is reached through directories
    only, the states in which nothing but [root]'s subtree changed and that
    subtree holds only directories and regular files below directories. *)
Section Confinement.
Context (root : list string) (t0 : gmap tpath node) (f0 : list tpath).
Context (Hroot : root <> []) (Hreach : resolve t0 [] (parent root) = Reaches).

Definition is_dir (t : gmap tpath node) (p : tpath) : Prop := exists n, t !! p = Some n /\ n_kind n = Directory.

Record inside (s : hfs) : Prop := {
  in_outside : forall p, under root p = false -> h_tree s !! p = t0 !! p;
  in_root : is_dir (h_tree s) root;
  in_kinds : forall p n, under root p = true -> h_tree s !! p = Some n -> n_kind n = Directory \/ n_kind n = Regular;
  in_parents : forall p c n, under root p = true -> h_tree s !! (p ++ [c]) = Some n -> is_dir (h_tree s) p;
  in_followed : h_followed s = f0;
}.

Lemma inside_script s r : inside s -> inside (Hfs (h_tree s) r (h_followed s)).
Proof. by intros [? ? ? ? ?]. Qed.

Lemma inside_reach s : inside s -> resolve (h_tree s) [] root = Reaches.
Proof.
  intros [Ho [n [Hn Hk]] _ _ _]. rewrite (app_removelast_last "" Hroot) at 1.
  rewrite resolve_app. fold (parent root).
  assert (E : resolve (h_tree s) [] (parent root) = resolve t0 [] (parent root)).
  { apply resolve_ext. intros r1 c r2 Heq. apply Ho, under_short.
    pose proof (f_equal length (app_removelast_last "" Hroot)) as Hl. fold (parent root) in Hl.
    rewrite Heq, !length_app in Hl. rewrite !length_app. simpl in *. lia. }
  rewrite E, Hreach. cbn [resolve app]. unfold parent. rewrite <- (app_removelast_last "" Hroot). by rewrite Hn, Hk.
Qed.

Lemma inside_not_through s r q : inside s -> resolve (h_tree s) [] (root ++ r) <> Through q.
Proof.
  intros Hs. rewrite resolve_app, inside_reach by done. cbn [app].
  intros (r1 & c & r2 & n & -> & -> & Hn & Hk)%resolve_through.
  assert (Hu : under root (root ++ r1 ++ [c]) = true) by (apply under_app; by eexists).
  destruct (in_kinds s Hs _ _ Hu Hn) as [K|K]; congruence.
Qed.

(** Setting a node of the subtree: a new entry of a directory, or a new
    version of a node of the same kind. *)
Lemma inside_insert s r script n :
  inside s -> (n_kind n = Directory \/ n_kind n = Regular) ->
  (match h_tree s !! (root ++ r) with
   | Some m => n_kind m = n_kind n
   | None => exists r' c, r = r' ++ [c] /\ is_dir (h_tree s) (root ++ r')
   end) ->
  inside (Hfs (<[root ++ r := n]> (h_tree s)) script f0).
Proof.
  intros [Ho Hr Hk Hp Hf] Hn Hold.
  assert (Hdirs : forall p, is_dir (h_tree s) p -> is_dir (<[root ++ r := n]> (h_tree s)) p).
  { intros p (m & Hm & Km). destruct (decide (p = root ++ r)) as [->|Hne].
    - exists n. rewrite lookup_insert_eq. rewrite Hm in Hold. split; congruence.
    - exists m. by rewrite lookup_insert_ne. }
  constructor; cbn [h_tree h_followed]; auto.
  - intros p Hu. rewrite lookup_insert_ne; [by apply Ho|]. intros <-.
    assert (Ht : under root (root ++ r) = true) by (apply under_app; by exists r). congruence.
  - intros p m Hu [[<- <-]|[Hne Hm]]%lookup_insert_Some; [done|by eapply Hk].
  - intros p c m Hu [[Heq <-]|[Hne Hm]]%lookup_insert_Some; [|by eapply Hdirs, Hp].
    apply Hdirs. destruct (h_tree s !! (root ++ r)) as [m|] eqn:E.
    + eapply Hp; [done|]. by rewrite <- Heq.
    + destruct Hold as (r' & c' & -> & Hd). rewrite app_assoc in Heq. by apply app_inj_tail in Heq as [<- _].
Qed.

(** Operations on an entry strictly below [root]. *)
Lemma at_entry_inside {A} (r : list string) (c : string) (f : fault -> gmap tpath node -> result A * gmap tpath node)
    (Q : result A -> hfs -> Prop) s :
  inside s ->
  (forall x script, (h_script s = [] /\ x = Runs /\ script = [] \/ h_script s = x :: script) ->
     Q (f x (h_tree s)).1 (Hfs (f x (h_tree s)).2 script f0)) ->
  (forall e script, script = tail (h_script s) -> Q (Err e) (Hfs (h_tree s) script f0)) ->
  hwp (at_entry (root ++ r ++ [c]) f) Q s.
Proof.
  intros Hs Hop Herr. unfold at_entry. apply hwp_bind, hwp_fault. intros x script Hx.
  assert (Hscr : script = tail (h_script s)) by (destruct Hx as [(-> & _ & ->)| ->]; done).
  apply hwp_bind, hwp_get. cbn [h_tree].
  rewrite app_assoc, parent_snoc. destruct (resolve (h_tree s) [] (root ++ r)) as [| |q] eqn:E.
  - specialize (Hop x script Hx). destruct (f x (h_tree s)) as [a t']. cbn [fst snd] in Hop.
    apply hwp_bind. unfold hwp, put_tree. cbn. by rewrite (in_followed s Hs).
  - unfold hwp. cbn. rewrite (in_followed s Hs). by apply Herr.
  - by apply inside_not_through in E.
Qed.

(** What [os.MkdirAll] does to a tree: new directories below [root]. *)
Definition grown (goal : tpath) (t t' : gmap tpath node) : Prop :=
  forall p, t' !! p = t !! p \/
    (t !! p = None /\ under root p = true /\ under p goal = true /\ t' !! p = Some (new_dir o700)).

Lemma grown_refl goal t : grown goal t t.
Proof. intros p. by left. Qed.

Lemma grown_trans goal t1 t2 t3 : grown goal t1 t2 -> grown goal t2 t3 -> grown goal t1 t3.
Proof.
  intros H1 H2 p. destruct (H1 p) as [E1|(N1 & U1 & G1 & E1)], (H2 p) as [E2|(N2 & U2 & G2 & E2)].
  - left. congruence.
  - right. split_and!; congruence.
  - right. split_and!; congruence.
  - congruence.
Qed.

Lemma writable_is_dir t p : writable_dir t p = true -> is_dir t p.
Proof. unfold writable_dir. destruct (t !! p) as [n|] eqn:E; [|done]. intros [K _]%andb_true_iff. exists n. by apply bool_decide_eq_true in K. Qed.

Lemma mkdir_inside goal r c s :
  inside s -> under (root ++ r ++ [c]) goal = true ->
  hwp (os_Mkdir (root ++ r ++ [c]) o700) (fun res s' =>
    inside s' /\ grown goal (h_tree s) (h_tree s') /\ (res = Ok tt -> is_dir (h_tree s') (root ++ r ++ [c]))) s.
Proof.
  intros Hs Hgoal. unfold os_Mkdir. apply at_entry_inside; [done|..].
  - intros x script _. rewrite <- (in_followed s Hs). destruct x; [|by split_and!; [apply inside_script|apply grown_refl|]].
    destruct (h_tree s !! (root ++ r ++ [c])) eqn:E; [by split_and!; [apply inside_script|apply grown_refl|]|].
    destruct (writable_dir (h_tree s) (parent (root ++ r ++ [c]))) eqn:W;
      [|by split_and!; [apply inside_script|apply grown_refl|]].
    rewrite (app_assoc root), parent_snoc in W. apply writable_is_dir in W.
    cbn [fst snd]. rewrite (in_followed s Hs). split_and!.
    + apply inside_insert; [done|by left|]. rewrite E. by exists r, c.
    + intros p. cbn [h_tree]. destruct (decide (p = root ++ r ++ [c])) as [->|Hne].
      * right. rewrite lookup_insert_eq. split_and!; [done| |done|done]. apply under_app. by eexists.
      * left. by rewrite lookup_insert_ne.
    + intros _. exists (new_dir o700). cbn [h_tree]. by rewrite lookup_insert_eq.
  - intros e script _. rewrite <- (in_followed s Hs). by split_and!; [apply inside_script|apply grown_refl|].
Qed.

Lemma mkdir_from_inside rest r s :
  inside s -> is_dir (h_tree s) (root ++ r) ->
  hwp (mkdir_from (root ++ r) rest o700) (fun res s' =>
    inside s' /\ grown (root ++ r ++ rest) (h_tree s) (h_tree s') /\ (res = Ok tt -> is_dir (h_tree s') (root ++ r ++ rest))) s.
Proof.
  revert r s. induction rest as [|c rest IH]; intros r s Hs Hd; cbn [mkdir_from].
  { apply hwp_ret. rewrite app_nil_r. by split_and!; [|apply grown_refl|]. }
  assert (Hgoal : under (root ++ r ++ [c]) (root ++ (r ++ [c]) ++ rest) = true).
  { apply under_app. exists rest. by rewrite <- !app_assoc. }
  assert (E1 : (root ++ r) ++ [c] = root ++ r ++ [c]) by (by rewrite app_assoc).
  assert (E2 : root ++ r ++ c :: rest = root ++ (r ++ [c]) ++ rest) by (by rewrite <- app_assoc).
  rewrite E1, E2. apply hwp_bind, hwp_get.
  destruct (h_tree s !! (root ++ r ++ [c])) as [n|] eqn:E.
  - destruct (in_kinds s Hs (root ++ r ++ [c]) n) as [K|K]; [apply under_app; by eexists|done|..]; rewrite K.
    + apply IH; [done|]. by exists n.
    + apply hwp_ret. by split_and!; [|apply grown_refl|].
  - apply hwp_bind. eapply hwp_mono; [by apply (mkdir_inside (root ++ (r ++ [c]) ++ rest))|]. intros [[]|e] s' (Hs' & Hg & Hk).
    + eapply hwp_mono; [apply IH; [done|by apply Hk]|]. intros res s2 (? & Hg2 & ?).
      split_and!; try done. by eapply grown_trans.
    + by apply hwp_ret.
Qed.

Lemma mkdir_from_reach s a r1 r2 perm :
  resolve (h_tree s) a r1 = Reaches -> mkdir_from a (r1 ++ r2) perm s = mkdir_from (a ++ r1) r2 perm s.
Proof.
  revert a. induction r1 as [|c r1 IH]; intros a; [by rewrite app_nil_r|]. cbn [resolve app mkdir_from].
  unfold mbind at 1, h_bind at 1. cbn [get_tree].
  destruct (h_tree s !! (a ++ [c])) as [n|]; [|done]. destruct (n_kind n); try done.
  intros Hr. rewrite IH by done. by rewrite <- app_assoc.
Qed.

Lemma mkdir_all_inside r s :
  inside s ->
  hwp (os_MkdirAll (root ++ r) o700) (fun res s' =>
    inside s' /\ grown (root ++ r) (h_tree s) (h_tree s') /\ (res = Ok tt -> is_dir (h_tree s') (root ++ r))) s.
Proof.
  intros Hs. unfold os_MkdirAll, hwp. rewrite mkdir_from_reach by (by apply inside_reach). cbn [app].
  pose proof (mkdir_from_inside r [] s Hs) as P. rewrite app_nil_r in P. cbn [app] in P.
  apply P. apply Hs.
Qed.

(** [open_excl] makes an empty file where there was nothing. *)
Lemma open_excl_inside r c s :
  inside s ->
  hwp (open_excl (root ++ r ++ [c]) o444) (fun res s' =>
    inside s' /\
    match res with
    | Ok _ => h_tree s !! (root ++ r ++ [c]) = None /\
              h_tree s' = <[root ++ r ++ [c] := Node Regular o444 true ""]> (h_tree s)
    | Err _ => h_tree s' = h_tree s
    end) s.
Proof.
  intros Hs. unfold open_excl. apply at_entry_inside; [done|..].
  - intros x script _. rewrite <- (in_followed s Hs). destruct x; [|by split; [apply inside_script|]].
    destruct (h_tree s !! (root ++ r ++ [c])) eqn:E; [by split; [apply inside_script|]|].
    destruct (writable_dir (h_tree s) (parent (root ++ r ++ [c]))) eqn:W; [|by split; [apply inside_script|]].
    rewrite (app_assoc root), parent_snoc in W. apply writable_is_dir in W.
    cbn [fst snd h_tree]. rewrite (in_followed s Hs). split; [|done].
    apply inside_insert; [done|by right|]. rewrite E. by exists r, c.
  - intros e script _. rewrite <- (in_followed s Hs). by split; [apply inside_script|].
Qed.

Lemma inside_update (r : list string) (n m : node) script s :
  inside s -> h_tree s !! (root ++ r) = Some m -> n_kind n = n_kind m ->
  inside (Hfs (<[root ++ r := n]> (h_tree s)) script f0).
Proof.
  intros Hs Hm Hk. apply inside_insert; [done| |by rewrite Hm].
  rewrite Hk. eapply (in_kinds s Hs (root ++ r)); [|done]. apply under_app. by eexists.
Qed.

Lemma alter_known (f : node -> node) (p : list string) (m : node) (t : gmap tpath node) : t !! p = Some m -> alter f p t = <[p := f m]> t.
Proof.
  intros Hm. apply map_eq. intros q. destruct (decide (p = q)) as [<-|Hne].
  - by rewrite lookup_alter_eq, lookup_insert_eq, Hm.
  - by rewrite lookup_alter_ne, lookup_insert_ne.
Qed.

Lemma copy_inside r m data size s :
  inside s -> h_tree s !! (root ++ r) = Some m ->
  hwp (copy_n (root ++ r) data size) (fun res s' =>
    inside s' /\ exists b, h_tree s' = <[root ++ r := set_data b m]> (h_tree s) /\
    (is_ok res = true -> size <= len data /\ b = str_take (Z.to_nat size) data)) s.
Proof.
  intros Hs Hm. unfold copy_n. apply hwp_bind, hwp_fault. intros x script _.
  apply hwp_bind, hwp_get. cbn [h_tree]. destruct x as [|part]; apply hwp_bind; unfold hwp; cbn [put_tree fst snd];
    rewrite (alter_known _ _ m) by done; rewrite (in_followed s Hs).
  - split; [by eapply inside_update|]. eexists. split; [done|].
    cbn [mret h_ret fst]. destruct (Z.ltb_spec (len data) size); [done|]. by intros _.
  - split; [by eapply inside_update|]. eexists. split; [done|]. done.
Qed.

Lemma close_inside s : inside s -> hwp close_h (fun _ s' => inside s' /\ h_tree s' = h_tree s) s.
Proof.
  intros Hs. unfold close_h. apply hwp_bind, hwp_fault. intros x script _. apply hwp_ret.
  split; [by apply inside_script|done].
Qed.

Lemma chmod_inside r m perm s :
  inside s -> h_tree s !! (root ++ r) = Some m ->
  hwp (os_Chmod (root ++ r) perm) (fun res s' =>
    inside s' /\ (h_script s = [] -> h_script s' = [] /\ res = Ok tt) /\
    match res with
    | Ok _ => h_tree s' = <[root ++ r := chmod_node perm m]> (h_tree s)
    | Err _ => h_tree s' = h_tree s
    end) s.
Proof.
  intros Hs Hm. unfold os_Chmod. apply hwp_bind, hwp_fault. intros x script Hx.
  assert (Hempty : h_script s = [] -> x = Runs /\ script = []).
  { intros E. destruct Hx as [(_ & -> & ->)|Hx]; [done|congruence]. }
  apply hwp_bind, hwp_get. cbn [h_tree].
  assert (Hnt : forall q, resolve (h_tree s) [] (parent (root ++ r)) <> Through q).
  { intros q. destruct r as [|c r].
    - rewrite app_nil_r. intros E. pose proof (inside_reach s Hs) as R.
      rewrite (app_removelast_last "" Hroot), resolve_app in R. fold (parent root) in R. by rewrite E in R.
    - rewrite parent_app. by apply inside_not_through. }
  assert (K : n_kind m = Directory \/ n_kind m = Regular).
  { eapply (in_kinds s Hs (root ++ r)); [|done]. apply under_app. by eexists. }
  rewrite Hm. destruct (resolve (h_tree s) [] (parent (root ++ r))) as [| |q]; [..|by destruct (Hnt q)].
  all: destruct K as [K|K]; rewrite K; destruct x; [apply hwp_bind; unfold hwp; cbn [put_tree fst snd mret h_ret]|apply hwp_ret|..];
    try (apply hwp_bind; unfold hwp; cbn [put_tree fst snd mret h_ret]); try apply hwp_ret.
  all: rewrite ?(in_followed s Hs).
  all: split_and!; try done; try (by eapply inside_update); try (intros E; by destruct (Hempty E)).
  all: rewrite <- (in_followed s Hs); by apply inside_script.
Qed.

(** The file an entry leaves. *)
Definition file_of (e : tar_entry) : node :=
  Node Regular (file_mode e) true (str_take (Z.to_nat (te_Size e)) (te_Data e)).

Definition is_file (e : tar_entry) : bool :=
  match te_Typeflag e with TypeReg | TypeRegA => true | _ => false end.

(** What a successful entry did to the tree, and to the number of bytes used. *)
Definition entry_done (name : string) (e : tar_entry) (t t' : gmap tpath node) (total total' : Z) : Prop :=
  if is_file e then
    0 <= te_Size e <= len (te_Data e) /\ total' = total + te_Size e /\ t !! target_of root name = None /\
    exists t1, grown (target_of root name) t t1 /\ t' = <[target_of root name := file_of e]> t1
  else te_Typeflag e = TypeDir /\ total' = total /\ grown (target_of root name) t t' /\ is_dir t' (target_of root name).

Lemma extract_file_inside r c maximum total e s :
  inside s -> u64 maximum -> 0 <= total <= maximum ->
  hwp (extract_file (root ++ r ++ [c]) maximum total e) (fun res s' =>
    inside s' /\ forall total', res = Ok total' -> total <= total' <= maximum /\
      0 <= te_Size e <= len (te_Data e) /\ total' = total + te_Size e /\ h_tree s !! (root ++ r ++ [c]) = None /\
      exists t1, grown (root ++ r ++ [c]) (h_tree s) t1 /\ h_tree s' = <[root ++ r ++ [c] := file_of e]> t1) s.
Proof.
  intros Hs Hm Ht. unfold extract_file.
  unfold u64, two64 in Hm. rewrite (wrap64_small (maximum - total)) by (unfold u64, two64; lia).
  destruct (Z.ltb_spec (te_Size e) 0); [by apply hwp_ret|]. cbn [orb].
  destruct (Z.ltb_spec (maximum - total) (te_Size e)); [by apply hwp_ret|].
  cbv zeta. rewrite wrap64_small by (unfold u64, two64; lia).
  apply hwp_or_fail. rewrite (app_assoc root), parent_snoc.
  eapply hwp_mono; [by apply mkdir_all_inside|]. intros [[]|err] s1 (Hs1 & Hg & _); [|done].
  rewrite <- app_assoc. apply hwp_or_fail. eapply hwp_mono; [by apply open_excl_inside|].
  intros [[]|err] s2 (Hs2 & Hopen); [|done]. destruct Hopen as [Hnone Htree].
  apply hwp_bind. eapply hwp_mono; [apply copy_inside; [done|by rewrite Htree, lookup_insert_eq]|].
  intros copyErr s3 (Hs3 & b & Ht3 & Hb). apply hwp_bind. eapply hwp_mono; [by apply close_inside|].
  intros closeErr s4 (Hs4 & Ht4).
  destruct (is_ok copyErr); [|by apply hwp_ret]. destruct (is_ok closeErr); [|by apply hwp_ret].
  cbn [negb orb]. destruct (Hb eq_refl) as [Hlen ->]. apply hwp_or_fail.
  eapply hwp_mono; [apply chmod_inside; [done|by rewrite Ht4, Ht3, lookup_insert_eq]|].
  intros [[]|err] s5 (Hs5 & _ & Ht5); [|done]. apply hwp_ret. split; [done|]. intros total' [= <-].
  split_and!; try lia.
  - destruct (Hg (root ++ r ++ [c])) as [Eq|(_ & _ & _ & Eq)]; congruence.
  - exists (h_tree s1). split.
    { intros p. destruct (Hg p) as [?|(? & ? & Hu & ?)]; [by left|right]. split_and!; try done.
      apply under_app in Hu as [x Hx]. apply under_app. exists (x ++ [c]). by rewrite (app_assoc p), <- Hx, <- app_assoc. }
    rewrite Ht5, Ht4, Ht3, Htree, !insert_insert_eq. done.
Qed.

Lemma extract_entry_inside maximum total name e s :
  inside s -> safe_name name -> u64 maximum -> 0 <= total <= maximum ->
  hwp (extract_entry root maximum total name e) (fun res s' =>
    inside s' /\ forall total', res = Ok total' ->
      total <= total' <= maximum /\ entry_done name e (h_tree s) (h_tree s') total total') s.
Proof.
  intros Hs Hname Hm Ht. unfold extract_entry, entry_done, is_file.
  destruct (target_shape root name Hname) as (r & c & E). rewrite E.
  destruct (te_Typeflag e) eqn:F; try (by apply extract_file_inside).
  - apply hwp_or_fail. eapply hwp_mono; [by apply mkdir_all_inside|].
    intros [[]|err] s1 (Hs1 & Hg & Hd); [|done]. apply hwp_ret. split; [done|]. intros total' [= <-].
    split; [lia|]. split_and!; try done. by apply Hd.
  - by apply hwp_ret.
Qed.

(** The tree after the entries [es], under their clean names: their files and
    directories, nothing else but the directories on the way to them, and the
    bytes they use. *)
Record unpacked (es : list (string * tar_entry)) (t : gmap tpath node) (total : Z) : Prop := {
  un_files : forall name e, (name, e) ∈ es -> is_file e = true -> t !! target_of root name = Some (file_of e);
  un_dirs : forall name e, (name, e) ∈ es -> is_file e = false -> te_Typeflag e = TypeDir /\ is_dir t (target_of root name);
  un_only : forall p n, under root p = true -> t !! p = Some n ->
    (n_kind n = Directory /\ (p = root \/ exists name e, (name, e) ∈ es /\ under p (target_of root name) = true)) \/
    exists name e, (name, e) ∈ es /\ is_file e = true /\ p = target_of root name /\ n = file_of e;
  un_total : total = foldr (fun ne acc => (if is_file ne.2 then te_Size ne.2 else 0) + acc) 0 es;
  un_sizes : Forall (fun ne => is_file ne.2 = true -> 0 <= te_Size ne.2 <= len (te_Data ne.2)) es;
}.

Lemma grown_lookup goal t t' p n : grown goal t t' -> t !! p = Some n -> t' !! p = Some n.
Proof. intros Hg Hn. destruct (Hg p) as [->|(E & _)]; congruence. Qed.

Lemma grown_dir goal t t' p : grown goal t t' -> is_dir t p -> is_dir t' p.
Proof. intros Hg (n & Hn & Hk). exists n. split; [by eapply grown_lookup|done]. Qed.

Lemma unpacked_step es t t' total total' name e :
  unpacked es t total -> entry_done name e t t' total total' -> unpacked ((name, e) :: es) t' total'.
Proof.
  intros [Hf Hd Ho Ht Hs] He. unfold entry_done in He. destruct (is_file e) eqn:F.
  - destruct He as (Hsz & -> & Hnone & t1 & Hg & ->).
    assert (Hkeep : forall p n, t !! p = Some n -> <[target_of root name := file_of e]> t1 !! p = Some n).
    { intros p n Hn. rewrite lookup_insert_ne; [by eapply grown_lookup|congruence]. }
    constructor.
    + intros nm e' [[= -> ->]|Hin]%elem_of_cons Hfe; [by rewrite lookup_insert_eq|]. by apply Hkeep, (Hf nm e').
    + intros nm e' [[= -> ->]|Hin]%elem_of_cons Hfe; [congruence|].
      destruct (Hd nm e' Hin Hfe) as (Hflag & n & Hn & Hk). split; [done|]. exists n. split; [by apply Hkeep|done].
    + intros p n Hu [[<- <-]|[Hne Hn]]%lookup_insert_Some; [right; exists name, e; by split_and!; [left|..]|].
      destruct (Hg p) as [E|(_ & _ & Hgoal & E)]; rewrite E in Hn;
        [|left; injection Hn as <-; split; [done|right; exists name, e; by split; [left|]]].
      destruct (Ho p n Hu Hn) as [[? [?|(nm & e' & Hin & ?)]]|(nm & e' & Hin & ? & ? & ?)].
      * left. auto.
      * left. split; [done|]. right. exists nm, e'. by split; [right|].
      * right. exists nm, e'. by split_and!; [right|..].
    + cbn [foldr fst snd]. rewrite F. lia.
    + by apply Forall_cons.
  - destruct He as (Hflag & -> & Hg & Hdir). constructor.
    + intros nm e' [[= -> ->]|Hin]%elem_of_cons Hfe; [congruence|]. by eapply grown_lookup, (Hf nm e').
    + intros nm e' [[= -> ->]|Hin]%elem_of_cons Hfe; [done|]. destruct (Hd nm e' Hin Hfe) as [? ?]. split; [done|]. by eapply grown_dir.
    + intros p n Hu Hn. destruct (Hg p) as [E|(_ & _ & Hgoal & E)]; rewrite E in Hn;
        [|left; injection Hn as <-; split; [done|right; exists name, e; by split; [left|]]].
      destruct (Ho p n Hu Hn) as [[? [?|(nm & e' & Hin & ?)]]|(nm & e' & Hin & ? & ? & ?)].
      * left. auto.
      * left. split; [done|]. right. exists nm, e'. by split; [right|].
      * right. exists nm, e'. by split_and!; [right|..].
    + cbn [foldr fst snd]. rewrite F. lia.
    + apply Forall_cons. split; [|done]. cbn [snd]. congruence.
Qed.

Lemma extract_loop_inside items entries seen total es maximum s :
  inside s -> u64 maximum -> 0 <= total <= maximum -> unpacked es (h_tree s) total ->
  (forall name, name ∈ seen <-> name ∈ es.*1) -> NoDup es.*1 ->
  hwp (extract_loop root maximum entries seen total items) (fun res s' =>
    inside s' /\ (res = Ok tt -> exists es' total', items = (fun ne => Some ne.2) <$> es' /\
      Forall (fun ne => safeWorkspaceName (te_Name ne.2) = Ok ne.1) es' /\
      unpacked (rev es' ++ es) (h_tree s') total' /\ NoDup (rev es' ++ es).*1 /\ total' <= maximum)) s.
Proof.
  revert entries seen total es s.
  induction items as [|[e|] items IH]; intros entries seen total es s Hs Hm Ht Hun Hseen Hnd; cbn [extract_loop];
    (destruct (maxWorkspaceEntries <=? entries); [by apply hwp_ret|]).
  - apply hwp_ret. split; [done|]. intros _. exists [], total. cbn. by split_and!; [done|constructor|..]; [..|lia].
  - destruct (safeWorkspaceName (te_Name e)) as [name|err] eqn:En; [|by apply hwp_ret].
    case_bool_decide as Hin; [by apply hwp_ret|].
    apply hwp_bind. eapply hwp_mono; [apply extract_entry_inside; try done; by apply safeWorkspaceName_ok in En as [? _]|].
    intros [total1|err] s1 (Hs1 & Hdone); [|by apply hwp_ret].
    destruct (Hdone total1 eq_refl) as [Hle Hed].
    eapply hwp_mono; [apply (IH (entries + 1) _ total1 ((name, e) :: es)); [done|done|lia|by eapply unpacked_step|..]|].
    + intros nm. rewrite elem_of_union, elem_of_singleton, fmap_cons, elem_of_cons, Hseen. done.
    + rewrite fmap_cons. apply NoDup_cons. split; [|done]. by rewrite <- Hseen.
    + intros res s2 (Hs2 & Hok). split; [done|]. intros Hr. destruct (Hok Hr) as (es' & total' & -> & Hsafe & Hu & Hn & Hmx).
      exists ((name, e) :: es'), total'. cbn [rev]. rewrite <- app_assoc. cbn [app].
      split_and!; try done. by apply Forall_cons.
  - by apply hwp_ret.
Qed.

(** ** Walks *)

Lemma tree_paths_elem (r p : list string) t : p ∈ tree_paths r t <-> under r p = true /\ is_Some (t !! p).
Proof.
  unfold tree_paths. rewrite merge_sort_Permutation, list_elem_of_filter, list_elem_of_fmap.
  split; intros [Hu Hx]; (split; [done|]).
  - destruct Hx as ([q n] & -> & Hq%elem_of_map_to_list). by exists n.
  - destruct Hx as [n Hn]. exists (p, n). split; [done|by apply elem_of_map_to_list].
Qed.

(** The directories of [l] have the mode [perm], and nothing else changed. *)
Definition chmodded (perm : Z) (l : list tpath) (t t' : gmap tpath node) : Prop :=
  forall p, t' !! p =
    match t !! p with
    | Some n => Some (if decide (p ∈ l /\ n_kind n = Directory) then chmod_node perm n else n)
    | None => None
    end.

Lemma chmodded_nil perm t : chmodded perm [] t t.
Proof.
  intros p. destruct (t !! p); [|done]. rewrite decide_False; [done|]. by intros [?%elem_of_nil _].
Qed.

Lemma chmodded_cons perm p l t t' n :
  t !! p = Some n ->
  (if decide (n_kind n = Directory) then chmodded perm l (<[p := chmod_node perm n]> t) t' else chmodded perm l t t') ->
  chmodded perm (p :: l) t t'.
Proof.
  intros Hp Hc q. destruct (decide (n_kind n = Directory)) as [K|K]; rewrite (Hc q).
  - destruct (decide (q = p)) as [->|Hne].
    + rewrite lookup_insert_eq, Hp. f_equal. rewrite (decide_True (P := p ∈ p :: l /\ _)) by (split; [left|done]).
      by case_decide.
    + rewrite lookup_insert_ne by done. destruct (t !! q); [|done]. f_equal.
      apply decide_ext. rewrite elem_of_cons. naive_solver.
  - destruct (t !! q) as [m|] eqn:Hq; [|done]. f_equal. apply decide_ext. rewrite elem_of_cons.
    split; [naive_solver|]. intros [[->|?] ?]; [congruence|done].
Qed.

Lemma protect_inside l s :
  inside s -> (forall p, p ∈ l -> under root p = true) ->
  hwp (protect_paths l) (fun res s' => inside s' /\ (res = Ok tt -> chmodded o555 l (h_tree s) (h_tree s'))) s.
Proof.
  revert s. induction l as [|p l IH]; intros s Hs Hl; cbn [protect_paths].
  { apply hwp_ret. split; [done|]. intros _. apply chmodded_nil. }
  assert (Hrest : forall q, q ∈ l -> under root q = true) by (intros q Hq; apply Hl; by right).
  apply hwp_bind, hwp_fault. intros x script _. pose proof (inside_script s script Hs) as Hs0.
  set (s0 := Hfs (h_tree s) script (h_followed s)) in *. change (h_tree s) with (h_tree s0). clearbody s0. clear s Hs. rename s0 into s, Hs0 into Hs.
  apply hwp_bind, hwp_get. destruct x; [|by apply hwp_ret]. destruct (h_tree s !! p) as [n|] eqn:E; [|by apply hwp_ret].
  destruct (proj1 (under_app root p) (Hl p ltac:(left))) as [r ->].
  destruct (n_kind n) eqn:K.
  - eapply hwp_mono; [by apply IH|]. intros res s' [Hi Hc]. split; [done|]. intros Hr.
    eapply chmodded_cons; [done|]. rewrite decide_False by congruence. auto.
  - apply hwp_or_fail. eapply hwp_mono; [by eapply chmod_inside|]. intros [[]|e] s1 (Hs1 & _ & Ht); [|done].
    eapply hwp_mono; [by apply IH|]. intros res s' [Hi Hc]. split; [done|]. intros Hr.
    eapply chmodded_cons; [done|]. rewrite decide_True by done. rewrite <- Ht. auto.
  - by apply hwp_ret.
  - eapply hwp_mono; [by apply IH|]. intros res s' [Hi Hc]. split; [done|]. intros Hr.
    eapply chmodded_cons; [done|]. rewrite decide_False by congruence. auto.
Qed.

Lemma unprotect_inside l s :
  inside s -> (forall p, p ∈ l -> under root p = true) ->
  hwp (unprotect_paths l) (fun _ s' => inside s' /\
    (forall p, under root p = true -> (is_Some (h_tree s' !! p) <-> is_Some (h_tree s !! p))) /\
    (h_script s = [] -> (forall p, p ∈ l -> is_Some (h_tree s !! p)) ->
       h_script s' = [] /\ chmodded o700 l (h_tree s) (h_tree s'))) s.
Proof.
  revert s. induction l as [|p l IH]; intros s Hs Hl; cbn [unprotect_paths].
  { apply hwp_ret. split_and!; try done. intros Hscr _. split; [done|]. apply chmodded_nil. }
  assert (Hrest : forall q, q ∈ l -> under root q = true) by (intros q Hq; apply Hl; by right).
  apply hwp_bind, hwp_get. destruct (h_tree s !! p) as [n|] eqn:E.
  2:{ eapply hwp_mono; [by apply IH|]. intros [] s' (Hi & Hd & _). split_and!; try done.
      intros _ Hall. destruct (Hall p ltac:(left)) as [m Hm]. congruence. }
  destruct (proj1 (under_app root p) (Hl p ltac:(left))) as [r ->].
  case_bool_decide as K.
  - apply hwp_bind. eapply hwp_mono; [by eapply chmod_inside|]. intros res s1 (Hs1 & Hscr & Ht).
    eapply hwp_mono; [by apply IH|]. intros [] s' (Hi & Hd & Hc).
    assert (Hdom : forall q, is_Some (h_tree s1 !! q) <-> is_Some (h_tree s !! q)).
    { intros q. destruct res; rewrite Ht; [|done]. destruct (decide (q = root ++ r)) as [->|Hne].
      - rewrite lookup_insert_eq, E. by split; eexists.
      - by rewrite lookup_insert_ne. }
    split_and!; [done|intros q Hq; by rewrite Hd, Hdom|]. intros He Hall. destruct (Hscr He) as [He1 ->].
    destruct Hc as [Hs' Hc]; [done|intros q Hq; apply Hdom, Hall; by right|]. split; [done|].
    eapply chmodded_cons; [done|]. rewrite decide_True by done. by rewrite <- Ht.
  - eapply hwp_mono; [by apply IH|]. intros [] s' (Hi & Hd & Hc). split_and!; try done.
    intros He Hall. destruct Hc as [Hs' Hc]; [done|intros q Hq; apply Hall; by right|]. split; [done|].
    eapply chmodded_cons; [done|]. by rewrite decide_False.
Qed.
End Confinement.

(** ** Removal *)

Lemma path_leb_refl p : path_leb p p = true.
Proof. induction p as [|a p IH]; [done|]. cbn [path_leb]. by rewrite (proj2 (str_compare_eq a a)). Qed.

#[export] Instance path_le_total : Total path_le.
Proof.
  intros p. unfold path_le. induction p as [|a p IH]; intros [|b q]; cbn [path_leb]; auto.
  rewrite (str_compare_antisym a b). destruct (str_compare a b); simpl; auto.
Qed.

Lemma str_compare_lt_trans a b c : str_compare a b = Lt -> str_compare b c = Lt -> str_compare a c = Lt.
Proof.
  intros H1 H2. assert (H3 : str_ltb a c = true).
  { eapply (str_ltb_trans a b); unfold str_ltb; by rewrite ?H1, ?H2. }
  unfold str_ltb in H3. by destruct (str_compare a c).
Qed.

#[export] Instance path_le_trans : Transitive path_le.
Proof.
  intros p. unfold path_le. induction p as [|a p IH]; intros [|b q] [|c r]; cbn [path_leb]; try done.
  destruct (str_compare a b) eqn:E1; try done; destruct (str_compare b c) eqn:E2; try done; intros H1 H2.
  - apply str_compare_eq in E1 as ->. rewrite E2. eauto.
  - apply str_compare_eq in E1 as ->. by rewrite E2.
  - apply str_compare_eq in E2 as ->. by rewrite E1.
  - by rewrite (str_compare_lt_trans _ _ _ E1 E2).
Qed.

Lemma path_le_antisym p q : path_le p q -> path_le q p -> p = q.
Proof.
  unfold path_le. revert q. induction p as [|a p IH]; intros [|b q]; cbn [path_leb]; try done.
  rewrite (str_compare_antisym a b). destruct (str_compare a b) eqn:E; simpl; try done.
  apply str_compare_eq in E as ->. intros. f_equal. auto.
Qed.

Lemma path_le_app p r : path_le p (p ++ r).
Proof.
  unfold path_le. induction p as [|a p IH]; [done|]. cbn [app path_leb]. by rewrite (proj2 (str_compare_eq a a)).
Qed.

Lemma tree_paths_sorted (r : list string) t : StronglySorted path_le (tree_paths r t) /\ NoDup (tree_paths r t).
Proof.
  split.
  - apply Sorted_StronglySorted; [apply _|]. apply Sorted_merge_sort. apply _.
  - unfold tree_paths. rewrite merge_sort_Permutation. apply NoDup_filter, NoDup_fst_map_to_list.
Qed.

Lemma remove_paths_ok l t :
  StronglySorted path_le l -> NoDup l ->
  (forall p, p ∈ l -> p <> [] /\ writable_dir t (parent p) = true) ->
  (remove_paths l t).1 = Ok tt /\ forall q, (remove_paths l t).2 !! q = if decide (q ∈ l) then None else t !! q.
Proof.
  induction l as [|p l IH]; intros Hsort Hnd Hw.
  { split; [done|]. intros q. rewrite decide_False; [done|]. by intros ?%elem_of_nil. }
  inversion Hsort as [|? ? Hsort' Hle]; subst. apply NoDup_cons in Hnd as [Hp Hnd].
  destruct IH as [Hok Hlook]; [done|done|intros q Hq; apply Hw; by right|].
  cbn [remove_paths]. destruct (remove_paths l t) as [res t'] eqn:E. cbn [fst snd] in *. subst res.
  destruct (Hw p ltac:(left)) as [Hne Hwr].
  assert (Hnp : parent p ∉ l).
  { intros Hin. rewrite Forall_forall in Hle. pose proof (Hle _ Hin) as H1.
    pose proof (path_le_app (parent p) [List.last p ""]) as H2. unfold parent in H2.
    rewrite <- app_removelast_last in H2 by done. fold (parent p) in H2.
    pose proof (path_le_antisym _ _ H1 H2) as Heq. apply Hp. by rewrite Heq. }
  assert (Hw' : writable_dir t' (parent p) = true).
  { unfold writable_dir in *. rewrite Hlook, decide_False by done. done. }
  rewrite Hw'. cbn [fst snd]. split; [done|]. intros q.
  destruct (decide (q = p)) as [->|Hqp].
  - rewrite lookup_delete_eq, decide_True by left. done.
  - rewrite lookup_delete_ne, Hlook by done. apply decide_ext. rewrite elem_of_cons. naive_solver.
Qed.

(** A subtree, with everything in it removed. *)
Definition without (root : tpath) (t : gmap tpath node) : gmap tpath node :=
  filter (fun kv => under root kv.1 = false) t.

Lemma without_lookup root t p : without root t !! p = if under root p then None else t !! p.
Proof.
  unfold without. destruct (under root p) eqn:E.
  - apply map_lookup_filter_None. right. intros n _. simpl. congruence.
  - destruct (t !! p) as [n|] eqn:Hn.
    + by apply map_lookup_filter_Some.
    + apply map_lookup_filter_None. by left.
Qed.

Section Removal.
Context (root : list string) (t0 : gmap tpath node) (f0 : list tpath).
Context (Hroot : root <> []) (Hreach : resolve t0 [] (parent root) = Reaches).

(** Whatever fails, removing a workspace touches nothing outside it. *)
Lemma remove_paths_frame l t q : q ∉ l -> (remove_paths l t).2 !! q = t !! q.
Proof.
  induction l as [|p l IH]; intros Hq; [done|]. apply not_elem_of_cons in Hq as [Hqp Hq]. cbn [remove_paths].
  destruct (remove_paths l t) as [[[]|e] t'] eqn:E; cbn [fst snd] in *; [|by apply IH].
  destruct (writable_dir t' (parent p)); cbn [snd]; [rewrite lookup_delete_ne by done|]; by apply IH.
Qed.

Lemma remove_paths_none l t q : t !! q = None -> (remove_paths l t).2 !! q = None.
Proof.
  intros Hq. induction l as [|p l IH]; [done|]. cbn [remove_paths].
  destruct (remove_paths l t) as [[[]|e] t']; cbn [fst snd] in *; [|done].
  destruct (writable_dir t' (parent p)); [by apply lookup_delete_None; right|done].
Qed.

(** Without an error every path of the list is gone. *)
Lemma remove_paths_gone l t q : (remove_paths l t).1 = Ok tt -> q ∈ l -> (remove_paths l t).2 !! q = None.
Proof.
  induction l as [|p l IH]; intros Hok Hq; [by apply elem_of_nil in Hq|]. cbn [remove_paths] in *.
  destruct (remove_paths l t) as [[[]|e] t'] eqn:E; cbn [fst snd] in *; [|done].
  destruct (writable_dir t' (parent p)); [|done]. apply lookup_delete_None.
  apply elem_of_cons in Hq as [->|Hq]; [by left|right]. by apply IH.
Qed.

Lemma under_not_elem (p : list string) (l : list (list string)) t : under root p = false -> (forall q, q ∈ l -> q ∈ tree_paths root t) -> p ∉ l.
Proof. intros Hu Hl Hin. apply Hl, tree_paths_elem in Hin as [? _]. congruence. Qed.

(** Once its directories are writable, every entry of the subtree can be removed. *)
Lemma chmodded_writable s s1 :
  inside root t0 f0 s1 -> chmodded o700 (tree_paths root (h_tree s)) (h_tree s) (h_tree s1) ->
  writable_dir t0 (parent root) = true ->
  forall p, p ∈ tree_paths root (h_tree s1) -> p <> [] /\ writable_dir (h_tree s1) (parent p) = true.
Proof.
  intros Hs1 Hc Hw p [Hu [n Hn]]%tree_paths_elem. apply under_app in Hu as [r ->].
  split; [by destruct root|]. destruct (decide (r = [])) as [->|Hr].
  - rewrite app_nil_r. unfold writable_dir in *. rewrite (in_outside _ _ _ _ Hs1); [done|].
    apply under_short. pose proof (f_equal length (app_removelast_last "" Hroot)) as Hl.
    fold (parent root) in Hl. rewrite length_app in Hl. simpl in Hl. lia.
  - rewrite (app_removelast_last "" Hr), app_assoc in Hn |- *. rewrite parent_snoc.
    assert (Hup : under root (root ++ removelast r) = true) by (apply under_app; by eexists).
    destruct (in_parents _ _ _ _ Hs1 _ _ _ Hup Hn) as (m & Hm & Km).
    unfold writable_dir. rewrite Hm. pose proof (Hc (root ++ removelast r)) as Hcm. rewrite Hm in Hcm.
    destruct (h_tree s !! (root ++ removelast r)) as [m0|] eqn:Hm0; [|done]. injection Hcm as Hcm.
    assert (Km0 : n_kind m0 = Directory) by (rewrite Hcm in Km; by case_decide).
    rewrite decide_True in Hcm by (split; [apply tree_paths_elem; eauto|done]).
    rewrite Hcm. cbn [chmod_node n_kind n_perm]. rewrite Km0. reflexivity.
Qed.

Lemma remove_inside s :
  inside root t0 f0 s ->
  hwp (removeWorkspace root) (fun res s' =>
    h_followed s' = f0 /\ (forall p, under root p = false -> h_tree s' !! p = t0 !! p) /\
    (res = Ok tt -> forall p, under root p = true -> h_tree s' !! p = None) /\
    (h_script s = [] -> writable_dir t0 (parent root) = true ->
       res = Ok tt /\ h_tree s' = without root t0)) s.
Proof.
  intros Hs. unfold removeWorkspace. apply hwp_bind, hwp_get. apply hwp_bind.
  eapply hwp_mono; [apply (unprotect_inside root t0 f0 Hroot Hreach); [done|]|].
  { intros p Hp. by apply tree_paths_elem in Hp as [? _]. }
  intros [] s1 (Hs1 & Hdom & Hc). unfold os_RemoveAll. apply hwp_bind, hwp_fault. intros x script Hx.
  apply hwp_bind, hwp_get. cbn [h_tree].
  assert (Hframe : forall l p, (forall q, q ∈ l -> q ∈ tree_paths root (h_tree s1)) -> under root p = false ->
            (remove_paths l (h_tree s1)).2 !! p = t0 !! p).
  { intros l p Hl Hu. rewrite remove_paths_frame by (by eapply under_not_elem). by apply (in_outside _ _ _ _ Hs1). }
  destruct x as [|part].
  - destruct (remove_paths (tree_paths root (h_tree s1)) (h_tree s1)) as [res t'] eqn:E.
    apply hwp_bind. unfold hwp. cbn [put_tree fst snd mret h_ret h_tree h_followed].
    split_and!; [apply Hs1|intros p Hu; specialize (Hframe _ p ltac:(eauto) Hu); by rewrite E in Hframe| |].
    { intros -> p Hu. destruct (h_tree s1 !! p) eqn:Hp.
      - pose proof (remove_paths_gone (tree_paths root (h_tree s1)) (h_tree s1) p) as Hg. rewrite E in Hg.
        apply Hg; [done|]. apply tree_paths_elem. eauto.
      - pose proof (remove_paths_none (tree_paths root (h_tree s1)) (h_tree s1) p Hp) as Hg. by rewrite E in Hg. }
    intros Hscr Hw. destruct Hc as [_ Hc]; [done|intros p Hp; by apply tree_paths_elem in Hp as [_ ?]|].
    destruct (tree_paths_sorted root (h_tree s1)) as [Hsort Hnd].
    destruct (remove_paths_ok _ (h_tree s1) Hsort Hnd) as [Hok Hlook]; [by eapply chmodded_writable|].
    rewrite E in Hok, Hlook. cbn [fst snd] in Hok, Hlook. split; [done|]. apply map_eq. intros p.
    rewrite Hlook, without_lookup. destruct (under root p) eqn:Hu.
    + case_decide as Hin; [done|]. destruct (h_tree s1 !! p) eqn:Hp; [|done].
      destruct Hin. apply tree_paths_elem. eauto.
    + rewrite decide_False by (intros [? _]%tree_paths_elem; congruence). by apply (in_outside _ _ _ _ Hs1).
  - destruct (remove_paths (drop part (tree_paths root (h_tree s1))) (h_tree s1)) as [res t'] eqn:E.
    apply hwp_bind. unfold hwp. cbn [put_tree fst snd mret h_ret h_tree h_followed].
    split_and!; [apply Hs1| |done|].
    + intros p Hu. specialize (Hframe (drop part (tree_paths root (h_tree s1))) p).
      rewrite E in Hframe. apply Hframe; [|done]. intros q Hq. rewrite <- (take_drop part (tree_paths _ _)). apply elem_of_app. by right.
    + intros Hscr _. destruct Hc as [Hscr1 _]; [done|intros p Hp; by apply tree_paths_elem in Hp as [_ ?]|].
      destruct Hx as [(_ & Hx & _)|Hx]; [done|congruence].
Qed.
End Removal.

(** ** Programs without faults

    An environment that has no faults left never produces one. *)
Definition silent {A} (m : H A) : Prop := forall s, h_script s = [] -> h_script (m s).2 = [].

Lemma silent_ret {A} (a : A) : silent (mret a).
Proof. by intros s. Qed.

Lemma silent_bind {A B} (m : H A) (k : A -> H B) : silent m -> (forall a, silent (k a)) -> silent (m ≫= k).
Proof.
  intros Hm Hk s Hs. unfold mbind, h_bind. specialize (Hm s Hs). destruct (m s) as [a s']. by apply Hk.
Qed.

Lemma silent_or_fail {A B} (m : H (result A)) e (k : A -> H (result B)) :
  silent m -> (forall a, silent (k a)) -> silent (or_fail m e k).
Proof. intros Hm Hk. apply silent_bind; [done|]. intros [a|err]; [auto|apply silent_ret]. Qed.

Lemma silent_fault : silent next_fault.
Proof. intros [t [|x r] f]; [done|]. intros [=]. Qed.

Lemma silent_get : silent get_tree.
Proof. by intros s. Qed.
Lemma silent_put t : silent (put_tree t).
Proof. by intros s. Qed.
Lemma silent_follow p : silent (follow p).
Proof. by intros s. Qed.

Create HintDb silent discriminated.
#[export] Hint Resolve silent_ret silent_fault silent_get silent_put silent_follow : silent.

Ltac silent_step :=
  first
    [ solve [auto with silent]
    | apply silent_bind; [|intros]
    | apply silent_or_fail; [|intros]
    | match goal with |- silent (match ?x with _ => _ end) => destruct x end
    | match goal with |- silent (if ?x then _ else _) => destruct x end
    | progress cbv zeta ].
Ltac silent_tac := repeat silent_step.

Lemma silent_at_entry {A} (p : list string) (f : fault -> gmap tpath node -> result A * gmap tpath node) : silent (at_entry p f).
Proof. unfold at_entry. silent_tac. Qed.
#[export] Hint Resolve silent_at_entry : silent.

Lemma silent_mkdir_from rest a perm : silent (mkdir_from a rest perm).
Proof. revert a. induction rest as [|c rest IH]; intros a; cbn [mkdir_from]; unfold os_Mkdir; silent_tac; apply IH. Qed.

Lemma silent_chmod p perm : silent (os_Chmod p perm).
Proof. unfold os_Chmod. silent_tac. Qed.
#[export] Hint Resolve silent_mkdir_from silent_chmod : silent.

Lemma silent_extract_entry root maximum total name e : silent (extract_entry root maximum total name e).
Proof. unfold extract_entry, extract_file, os_MkdirAll, open_excl, copy_n, close_h. silent_tac. Qed.
#[export] Hint Resolve silent_extract_entry : silent.

Lemma silent_extract_loop root maximum entries seen total items :
  silent (extract_loop root maximum entries seen total items).
Proof.
  revert entries seen total. induction items as [|[e|] items IH]; intros entries seen total; cbn [extract_loop];
    silent_tac.
Qed.

Lemma silent_protect l : silent (protect_paths l).
Proof. induction l; cbn [protect_paths]; silent_tac. Qed.
#[export] Hint Resolve silent_extract_loop silent_protect : silent.

Lemma silent_unprotect l : silent (unprotect_paths l).
Proof. induction l; cbn [unprotect_paths]; silent_tac. Qed.
#[export] Hint Resolve silent_unprotect : silent.

Lemma silent_remove root : silent (removeWorkspace root).
Proof. unfold removeWorkspace, os_RemoveAll. silent_tac. Qed.
#[export] Hint Resolve silent_remove : silent.

Lemma silent_ensure p : silent (ensurePrivateDirectory p).
Proof. unfold ensurePrivateDirectory, os_MkdirAll, h_lstat. silent_tac. Qed.
#[export] Hint Resolve silent_ensure : silent.

Lemma silent_prepare tar_items root identity archive maximum :
  silent (prepareWorkspace tar_items root identity archive maximum).
Proof.
  unfold prepareWorkspace, extractWorkspaceTar, makeWorkspaceReadOnly, os_Mkdir. silent_tac.
Qed.

Lemma hwp_silent {A} (m : H A) Q s :
  silent m -> hwp m Q s -> hwp m (fun a s' => Q a s' /\ (h_script s = [] -> h_script s' = [])) s.
Proof. intros Hm HQ. split; [done|]. apply Hm. Qed.

(** ** prepareWorkspace *)

(** Every node but the top ones is in a directory. *)
Definition well_formed (t : gmap tpath node) : Prop :=
  forall p c n, p <> [] -> t !! (p ++ [c]) = Some n -> is_dir t p.

Lemma well_formed_below t p r : well_formed t -> p <> [] -> t !! p = None -> t !! (p ++ r) = None.
Proof.
  intros Hwf Hp Hnone. induction r as [|c r IH] using rev_ind; [by rewrite app_nil_r|].
  destruct (t !! (p ++ r ++ [c])) as [n|] eqn:E; [|done].
  rewrite app_assoc in E. apply Hwf in E as (m & Hm & _); [congruence|]. by destruct p.
Qed.

Lemma h_lstat_spec (p : list string) s :
  resolve (h_tree s) [] (parent p) = Reaches ->
  hwp (h_lstat p) (fun res s' => h_tree s' = h_tree s /\ h_followed s' = h_followed s /\
    forall n, res = Ok n -> h_tree s !! p = Some n) s.
Proof.
  intros Hr. unfold h_lstat, at_entry. apply hwp_bind, hwp_fault. intros x script _.
  apply hwp_bind, hwp_get. cbn [h_tree]. rewrite Hr. apply hwp_bind. unfold hwp. cbn.
  split_and!; try done. intros n. destruct x, (h_tree s !! p); cbn; congruence.
Qed.

Section PrepareSpec.
Context (tar_items : bytes -> list (option tar_entry)).
Context (root : list string) (identity : string) (s0 : hfs).
Let t := h_tree s0.
Definition workspace_root : list string := root ++ [workspaceRootName].
Definition workspace_dir : list string := workspace_root ++ [identity].

(** The FIFO directory is reached through directories, and its entry for the
    workspaces is no symbolic link. *)
Record fifo_ok : Prop := {
  fo_root : root <> [];
  fo_wf : well_formed t;
  fo_reach : resolve t [] root = Reaches;
  fo_link : forall n, t !! workspace_root = Some n -> n_kind n <> Symlink;
}.
Context (Hok : fifo_ok).

(** The tree with the directory of the workspaces. *)
Definition with_root (t1 : gmap tpath node) : Prop :=
  t1 = t \/ (t !! workspace_root = None /\ t1 = <[workspace_root := new_dir o700]> t).

Lemma ensure_spec :
  hwp (ensurePrivateDirectory workspace_root) (fun res s1 =>
    with_root (h_tree s1) /\ h_followed s1 = h_followed s0 /\
    (res = Ok tt -> exists n, h_tree s1 !! workspace_root = Some n /\ private_directory n = true)) s0.
Proof.
  destruct Hok as [Hne Hwf Hr Hl]. unfold ensurePrivateDirectory, os_MkdirAll. apply hwp_or_fail.
  assert (Hmk : hwp (mkdir_from [] workspace_root o700) (fun _ s1 =>
            with_root (h_tree s1) /\ h_followed s1 = h_followed s0) s0).
  { eapply hwp_eq; [unfold workspace_root; by apply mkdir_from_reach|]. cbn [app mkdir_from].
    fold workspace_root. apply hwp_bind, hwp_get. fold t.
    destruct (t !! workspace_root) as [n|] eqn:E.
    - pose proof (Hl n eq_refl). destruct (n_kind n); try done; apply hwp_ret; by split; [left|].
    - unfold hwp, os_Mkdir, at_entry, next_fault, mbind, h_bind, get_tree, put_tree, mret, h_ret.
      unfold workspace_root in *. rewrite parent_snoc.
      destruct (h_script s0) as [|x r]; cbn [h_tree]; fold t; rewrite Hr, E; [|destruct x]; cbn;
        try (by split; [left|]);
        (destruct (writable_dir t root); cbn; [by split; [right|]|by split; [left|]]). }
  eapply hwp_mono; [exact Hmk|]. intros [u|e] s1 [Hw Hf]; [|by split_and!].
  assert (Hreach1 : resolve (h_tree s1) [] (parent workspace_root) = Reaches).
  { unfold workspace_root at 1. rewrite parent_snoc, <- Hr. apply resolve_ext. intros r1 c r2 Heq. cbn [app].
    destruct Hw as [->|[_ ->]]; [done|]. rewrite lookup_insert_ne; [done|]. unfold workspace_root.
    intros E. apply (f_equal length) in E. rewrite Heq, !length_app in E. simpl in E. lia. }
  apply hwp_or_fail. eapply hwp_mono; [by apply h_lstat_spec|]. intros [n|e] s2 (Ht2 & Hf2 & Hn).
  - apply hwp_ret. rewrite Ht2, Hf2. split_and!; try done. destruct (private_directory n) eqn:P; cbn; [|done].
    intros _. exists n. split; [by apply Hn|done].
  - rewrite Ht2, Hf2. by split_and!.
Qed.

Lemma private_writable t' n p : t' !! p = Some n -> private_directory n = true -> writable_dir t' p = true.
Proof.
  intros Hn P. unfold writable_dir, private_directory in *. rewrite Hn. bool_props.
  rewrite bool_decide_true by done. match goal with E : n_perm n = o700 |- _ => by rewrite E end.
Qed.

Lemma with_root_reach t1 : with_root t1 -> resolve t1 [] root = Reaches.
Proof.
  intros Hw. rewrite <- (fo_reach Hok). apply resolve_ext. intros r1 c r2 Heq. cbn [app].
  destruct Hw as [->|[_ ->]]; [done|]. rewrite lookup_insert_ne; [done|]. unfold workspace_root.
  intros E. apply (f_equal length) in E. rewrite Heq, !length_app in E. simpl in E. lia.
Qed.

Lemma fresh_nothing_below t1 r :
  with_root t1 -> t1 !! workspace_dir = None -> t1 !! (workspace_dir ++ r) = None.
Proof.
  intros Hw Hnone. assert (Hne : workspace_dir <> []) by (unfold workspace_dir; by destruct workspace_root).
  destruct Hw as [->|[_ ->]]; [by apply well_formed_below; [apply Hok|..]|].
  apply lookup_insert_None in Hnone as [Hnone _]. rewrite lookup_insert_ne.
  - by apply well_formed_below; [apply Hok|..].
  - unfold workspace_dir. intros E. apply (f_equal length) in E. rewrite !length_app in E. simpl in E. lia.
Qed.

(** After a successful [os.Mkdir] of the workspace's directory. *)
Lemma fresh_inside t1 f1 script :
  with_root t1 -> writable_dir t1 workspace_root = true -> t1 !! workspace_dir = None ->
  let s2 := Hfs (<[workspace_dir := new_dir o700]> t1) script f1 in
  inside workspace_dir t1 f1 s2 /\ unpacked workspace_dir [] (h_tree s2) 0.
Proof.
  intros Hw Hwr Hnone s2. destruct Hok as [Hne Hwf _ _].
  assert (Hbelow : forall r, r <> [] -> t1 !! (workspace_dir ++ r) = None).
  { intros r _. by apply fresh_nothing_below. }
  assert (Honly : forall p n, under workspace_dir p = true -> h_tree s2 !! p = Some n -> p = workspace_dir /\ n = new_dir o700).
  { intros p n Hu Hn. unfold s2 in Hn. cbn [h_tree] in Hn. apply lookup_insert_Some in Hn as [[<- <-]|[Hne' Hn]]; [done|].
    apply under_app in Hu as [r ->]. rewrite Hbelow in Hn; [done|]. intros ->. by rewrite app_nil_r in Hne'. }
  split.
  - constructor; unfold s2; cbn [h_tree h_followed]; try done.
    + intros p Hu. rewrite lookup_insert_ne; [done|]. intros <-. by rewrite under_refl in Hu.
    + exists (new_dir o700). by rewrite lookup_insert_eq.
    + intros p n Hu Hn. destruct (Honly p n Hu Hn) as [-> ->]. left. auto.
    + intros p c n Hu Hn.
      assert (Hu' : under workspace_dir (p ++ [c]) = true).
      { apply under_app in Hu as [r ->]. rewrite <- app_assoc. apply under_app. by eexists. }
      destruct (Honly _ n Hu' Hn) as [E _]. apply under_app in Hu as [r ->]. apply (f_equal length) in E.
      rewrite !length_app in E. simpl in E. lia.
  - constructor; cbn; try done.
    + by intros name e ?%elem_of_nil.
    + by intros name e ?%elem_of_nil.
    + intros p n Hu Hn. destruct (Honly p n Hu Hn) as [-> ->]. left. auto.
Qed.

Lemma mkdir_dir_spec t1 s1 :
  with_root t1 -> h_tree s1 = t1 ->
  hwp (os_Mkdir workspace_dir o700) (fun res s2 =>
    h_followed s2 = h_followed s1 /\
    match res with
    | Ok _ => t1 !! workspace_dir = None /\ writable_dir t1 workspace_root = true /\
              h_tree s2 = <[workspace_dir := new_dir o700]> t1
    | Err _ => h_tree s2 = t1
    end) s1.
Proof.
  intros Hw Ht1. unfold os_Mkdir, at_entry. apply hwp_bind, hwp_fault. intros x script _.
  apply hwp_bind, hwp_get. cbn [h_tree]. rewrite Ht1. unfold workspace_dir at 1 2 3 4. rewrite parent_snoc.
  unfold workspace_root at 1. rewrite resolve_app, with_root_reach by done. cbn [app resolve]. fold workspace_root.
  destruct (t1 !! workspace_root) as [n|] eqn:E; [|by apply hwp_ret].
  assert (K : n_kind n <> Symlink).
  { destruct Hw as [-> |[_ ->]]; [by apply (fo_link Hok)|]. rewrite lookup_insert_eq in E. by injection E as <-. }
  destruct (n_kind n) eqn:Kn; try done; try (by apply hwp_ret).
  fold workspace_dir. destruct x; [|apply hwp_bind; by unfold hwp].
  destruct (t1 !! workspace_dir) eqn:Hd; [apply hwp_bind; by unfold hwp|].
  destruct (writable_dir t1 workspace_root) eqn:Hwr; apply hwp_bind; by unfold hwp.
Qed.

(** What the successful extraction left before it was protected. *)
Definition extracted (items : list (option tar_entry)) (maximum : Z) (t' : gmap tpath node)
    (es : list (string * tar_entry)) : Prop :=
  exists te total, items = (fun ne => Some ne.2) <$> es /\
    Forall (fun ne => safeWorkspaceName (te_Name ne.2) = Ok ne.1) es /\ NoDup es.*1 /\
    unpacked workspace_dir (rev es) te total /\ total <= maximum /\
    chmodded o555 (tree_paths workspace_dir te) te t'.

Lemma workspace_dir_nonempty : workspace_dir <> [].
Proof. unfold workspace_dir. by destruct workspace_root. Qed.

Lemma workspace_dir_reach t1 :
  with_root t1 -> is_dir t1 workspace_root -> resolve t1 [] (parent workspace_dir) = Reaches.
Proof.
  intros Hw (n & Hn & K). unfold workspace_dir. rewrite parent_snoc. unfold workspace_root at 1.
  rewrite resolve_app, with_root_reach by done. cbn [app resolve]. fold workspace_root. by rewrite Hn, K.
Qed.

(** The error path of [prepareWorkspace]. *)
Lemma abandon_spec t1 s3 e :
  with_root t1 -> writable_dir t1 workspace_root = true -> t1 !! workspace_dir = None ->
  inside workspace_dir t1 (h_followed s0) s3 -> (h_script s0 = [] -> h_script s3 = []) ->
  hwp (_ ← removeWorkspace workspace_dir; mret (Err e : result (list string))) (fun res s' =>
    h_followed s' = h_followed s0 /\ (forall p, under workspace_dir p = false -> h_tree s' !! p = t1 !! p) /\
    res = Err e /\ (h_script s0 = [] -> h_tree s' = t1)) s3.
Proof.
  intros Hw Hwr Hnone Hi Hq. pose proof (workspace_dir_reach _ Hw (writable_is_dir _ _ Hwr)) as Hreach.
  apply hwp_bind. eapply hwp_mono; [by apply (remove_inside _ t1 (h_followed s0) workspace_dir_nonempty Hreach)|].
  intros res s4 (Hf4 & Ho4 & _ & Hc4). apply hwp_ret. split_and!; try done.
  intros E. destruct Hc4 as [_ ->]; [by apply Hq|unfold workspace_dir; by rewrite parent_snoc|].
  apply map_eq. intros p. rewrite without_lookup. destruct (under workspace_dir p) eqn:Hu; [|done].
  apply under_app in Hu as [r ->]. symmetry. by apply fresh_nothing_below.
Qed.

Lemma prepare_spec archive maximum :
  u64 maximum ->
  hwp (prepareWorkspace tar_items root identity archive maximum) (fun res s' =>
    exists t1, with_root t1 /\ h_followed s' = h_followed s0 /\
      (forall p, under workspace_dir p = false -> h_tree s' !! p = t1 !! p) /\
      (forall d, res = Ok d -> d = workspace_dir /\ inside workspace_dir t1 (h_followed s0) s' /\
         t1 !! workspace_dir = None /\ writable_dir t1 workspace_root = true /\
         exists es, extracted (tar_items archive) maximum (h_tree s') es) /\
      (h_script s0 = [] -> is_ok res = false -> h_tree s' = t1)) s0.
Proof.
  intros Hm. unfold prepareWorkspace.
  destruct (negb (runtimeIdentifier identity) || (maximum =? 0) || (maximum <? len archive)).
  { apply hwp_ret. exists t. split_and!; try done. by left. }
  fold workspace_root workspace_dir. apply hwp_or_fail.
  eapply hwp_mono; [apply hwp_silent; [apply silent_ensure|apply ensure_spec]|].
  intros [[]|e] s1 [(Hw & Hf1 & Hpriv) Hq1]; [|exists (h_tree s1); by split_and!]. destruct (Hpriv eq_refl) as (n & Hn & P).
  pose proof (private_writable _ _ _ Hn P) as Hwr. pose proof (writable_is_dir _ _ Hwr) as Hdir.
  pose proof (workspace_dir_reach _ Hw Hdir) as Hreach. pose proof workspace_dir_nonempty as Hne.
  apply hwp_or_fail. eapply hwp_mono; [apply hwp_silent; [apply silent_at_entry|by apply mkdir_dir_spec]|].
  intros [[]|e] s2 [(Hf2 & Hres) Hq2]; [|exists (h_tree s1); rewrite Hf2, Hres; by split_and!].
  destruct Hres as (Hnone & _ & Ht2). rewrite Hf1 in Hf2.
  destruct (fresh_inside (h_tree s1) (h_followed s0) (h_script s2) Hw Hwr Hnone) as [Hin Hun].
  assert (Es2 : s2 = Hfs (<[workspace_dir := new_dir o700]> (h_tree s1)) (h_script s2) (h_followed s0)).
  { destruct s2. cbn in *. by subst. }
  rewrite <- Es2 in Hin, Hun. clear Es2.
  apply hwp_bind. eapply hwp_mono; [apply hwp_silent; [apply silent_extract_loop|]|].
  { apply (extract_loop_inside workspace_dir (h_tree s1) (h_followed s0) Hne Hreach _ 0 ∅ 0 []); try done;
      [unfold u64 in Hm; lia| |constructor]. intros name. cbn. split; [by intros ?%elem_of_empty|by intros ?%elem_of_nil]. }
  intros res3 s3 [(Hs3 & Hex) Hq3].
  destruct res3 as [[]|e].
  2:{ eapply hwp_mono; [apply (abandon_spec (h_tree s1)); auto|]. intros res s' (? & ? & -> & ?). exists (h_tree s1). split_and!; try done. auto. }
  destruct (Hex eq_refl) as (es & total & Hitems & Hsafe & Hunp & Hnd & Hmax). rewrite app_nil_r in Hunp, Hnd.
  apply hwp_bind. unfold makeWorkspaceReadOnly. apply hwp_bind, hwp_get.
  eapply hwp_mono; [apply hwp_silent; [apply silent_protect|apply (protect_inside workspace_dir (h_tree s1) (h_followed s0)); try done]|].
  { intros p Hp. by apply tree_paths_elem in Hp as [? _]. }
  intros res4 s4 [(Hs4 & Hprot) Hq4]. destruct res4 as [[]|e].
  2:{ eapply hwp_mono; [apply (abandon_spec (h_tree s1)); auto|]. intros res s' (? & ? & -> & ?). exists (h_tree s1). split_and!; try done. auto. }
  apply hwp_ret. exists (h_tree s1). split_and!; try done; [apply Hs4|apply Hs4|].
  intros d [= <-]. split_and!; try done. exists es, (h_tree s3), total. split_and!; try done; [|by apply Hprot].
  by rewrite <- (Permutation_rev es) in Hnd.
Qed.
(** The clean-up function of a prepared workspace. *)
Lemma prepared_remove t1 s' :
  with_root t1 -> inside workspace_dir t1 (h_followed s0) s' -> t1 !! workspace_dir = None ->
  writable_dir t1 workspace_root = true ->
  hwp (removeWorkspace workspace_dir) (fun res s2 =>
    h_followed s2 = h_followed s0 /\ (forall p, under workspace_dir p = false -> h_tree s2 !! p = t1 !! p) /\
    (h_script s' = [] -> res = Ok tt /\ h_tree s2 = t1)) s'.
Proof.
  intros Hw Hi Hnone Hwr. pose proof (workspace_dir_reach t1 Hw (writable_is_dir _ _ Hwr)) as Hreach.
  eapply hwp_mono; [apply (remove_inside _ t1 (h_followed s0) workspace_dir_nonempty Hreach s' Hi)|].
  intros res s2 (Hf & Ho & _ & Hdone). split_and!; try done. intros Hscr.
  destruct Hdone as [Hr Ht]; [done|unfold workspace_dir; by rewrite parent_snoc|]. split; [done|]. rewrite Ht.
  apply map_eq. intros p. rewrite without_lookup. destruct (under workspace_dir p) eqn:Hu; [|done].
  apply under_app in Hu as [r ->]. symmetry. by apply fresh_nothing_below.
Qed.

(** The clean-up function when a name [n] of the FIFO directory was used by
    another program meanwhile. *)
Section Among.
Context (n : string) (Hn : n <> workspaceRootName).

Lemma apart_workspaces (r : list string) : under (root ++ [n]) (workspace_root ++ r) = false.
Proof.
  destruct (under (root ++ [n]) (workspace_root ++ r)) eqn:Hu; [exfalso|done]. apply under_app in Hu as [r' E].
  unfold workspace_root in E. rewrite <- !app_assoc in E. by simplify_list_eq.
Qed.

Lemma apart_workspace p : under workspace_dir p = true -> under (root ++ [n]) p = false.
Proof. intros [r ->]%under_app. unfold workspace_dir. rewrite <- app_assoc. apply apart_workspaces. Qed.

Lemma apart_above q r : workspace_root = q ++ r -> under (root ++ [n]) q = false.
Proof.
  intros E. destruct (decide (r = [])) as [->|Hr]; [rewrite app_nil_r in E; subst q|].
  - rewrite <- (app_nil_r workspace_root). apply apart_workspaces.
  - apply under_short. apply (f_equal length) in E. unfold workspace_root in E. rewrite !length_app in *.
    destruct r; [done|]. cbn in *. lia.
Qed.

Lemma prepared_remove_among (t1 : gmap tpath node) (s' : hfs) (t' : gmap tpath node) :
  with_root t1 -> inside workspace_dir t1 (h_followed s0) s' -> writable_dir t1 workspace_root = true ->
  (forall p, under (root ++ [n]) p = false -> t' !! p = h_tree s' !! p) ->
  hwp (removeWorkspace workspace_dir) (fun res s2 =>
    h_followed s2 = h_followed s0 /\ (forall p, under workspace_dir p = false -> h_tree s2 !! p = t' !! p) /\
    (res = Ok tt -> forall p, under workspace_dir p = true -> h_tree s2 !! p = None) /\
    (h_script s' = [] -> res = Ok tt)) (Hfs t' (h_script s') (h_followed s')).
Proof.
  intros Hw [Ho Hr Hk Hp Hf] Hwr Hframe.
  assert (Hin : forall p, under workspace_dir p = true -> t' !! p = h_tree s' !! p) by (intros p Hu; by apply Hframe, apart_workspace).
  assert (Habove : forall q r, workspace_root = q ++ r -> without workspace_dir t' !! q = t1 !! q).
  { intros q r E. assert (Hq : under workspace_dir q = false).
    { apply under_short. apply (f_equal length) in E. unfold workspace_dir. rewrite !length_app in *. cbn. lia. }
    rewrite without_lookup, Hq, Hframe by (by eapply apart_above). by apply Ho. }
  assert (Hreach : resolve (without workspace_dir t') [] (parent workspace_dir) = Reaches).
  { rewrite <- (workspace_dir_reach t1 Hw (writable_is_dir _ _ Hwr)). apply resolve_ext. intros r1 c r2 E. cbn [app].
    apply (Habove _ r2). unfold workspace_dir in E. rewrite parent_snoc in E. by rewrite E, <- app_assoc. }
  eapply hwp_mono; [apply (remove_inside workspace_dir (without workspace_dir t') (h_followed s0) workspace_dir_nonempty Hreach)|].
  - constructor; cbn [h_tree h_followed]; [intros p Hu; by rewrite without_lookup, Hu| | | |exact Hf].
    + destruct Hr as (m & Hm & K). exists m. split; [|done]. rewrite Hin; [done|apply under_refl].
    + intros p m Hu. rewrite Hin by done. by apply Hk.
    + intros p c m Hu. assert (Hu' : under workspace_dir (p ++ [c]) = true).
      { apply under_app in Hu as [r ->]. apply under_app. exists (r ++ [c]). by rewrite app_assoc. }
      rewrite Hin by done. intros Hm. destruct (Hp _ _ _ Hu Hm) as (m' & Hm' & K). exists m'. by rewrite Hin.
  - intros res s2 (Hf2 & Ho2 & Hg & Hd). cbn [h_script] in Hd. split_and!; [done| |done|].
    + intros p Hu. by rewrite Ho2, without_lookup, Hu by done.
    + intros E. apply Hd; [done|]. assert (Hpar : parent workspace_dir = workspace_root) by (unfold workspace_dir; by rewrite parent_snoc).
      rewrite Hpar. unfold writable_dir in *.
      by rewrite (Habove workspace_root []) by (by rewrite app_nil_r).
Qed.
End Among.
End PrepareSpec.

(** ** Properties *)

Definition archive_bytes (es : list (string * tar_entry)) : Z :=
  foldr (fun ne acc => (if is_file ne.2 then te_Size ne.2 else 0) + acc) 0 es.

Lemma archive_bytes_perm es es' : es ≡ₚ es' -> archive_bytes es = archive_bytes es'.
Proof. unfold archive_bytes. induction 1; cbn [foldr]; lia. Qed.

(** C13. Confinement: whatever the archive holds and whatever operation fails,
    preparing a workspace follows no symbolic link and changes nothing outside
    the workspace's own directory, but for the directory of the workspaces. *)
Theorem workspace_confined tar_items root identity archive maximum s
    (Hm : u64 maximum) (Hok : fifo_ok root s) :
  let s' := (prepareWorkspace tar_items root identity archive maximum s).2 in
  h_followed s' = h_followed s /\
  forall p, under (workspace_dir root identity) p = false -> p <> workspace_root root ->
    h_tree s' !! p = h_tree s !! p.
Proof.
  destruct (prepare_spec tar_items root identity s Hok archive maximum Hm) as (t1 & Hw & Hf & Ho & _).
  split; [exact Hf|]. intros p Hu Hp. rewrite Ho by done.
  destruct Hw as [->|[_ ->]]; [done|]. by rewrite lookup_insert_ne.
Qed.

(** The archive marks a file executable, for its owner, its group or others. *)
Definition executable (e : tar_entry) : bool := Z.testbit (te_Mode e) 0 || Z.testbit (te_Mode e) 3 || Z.testbit (te_Mode e) 6.

(** The file an entry must leave: owned, with exactly the data of the entry, and
    read-only: 0555 (365) where it is executable, 0444 (292) elsewhere. *)
Definition unpacked_file (e : tar_entry) : node :=
  Node Regular (if executable e then 365 else 292) true (str_take (Z.to_nat (te_Size e)) (te_Data e)).

Lemma land_single m i : 0 <= i -> (Z.land m (2 ^ i) =? 0) = negb (Z.testbit m i).
Proof.
  intros Hi. destruct (Z.testbit m i) eqn:E; cbn [negb].
  - apply Z.eqb_neq. intros Hz. apply (f_equal (fun z => Z.testbit z i)) in Hz. rewrite Z.land_spec, E, Z.pow2_bits_true in Hz by done.
    by rewrite Z.bits_0 in Hz.
  - apply Z.eqb_eq. apply Z.bits_inj'. intros n Hn. rewrite Z.land_spec, Z.bits_0. destruct (Z.eq_dec n i) as [->|Hne]; [by rewrite E|].
    by rewrite Z.pow2_bits_false, andb_false_r by lia.
Qed.

Lemma file_mode_executable e : file_mode e = if executable e then 365 else 292.
Proof.
  unfold file_mode, executable.
  assert (Hl : Z.land (te_Mode e) o111 = Z.lor (Z.lor (Z.land (te_Mode e) (2 ^ 0)) (Z.land (te_Mode e) (2 ^ 3))) (Z.land (te_Mode e) (2 ^ 6))).
  { rewrite <- !Z.land_lor_distr_r. done. }
  assert (Hz : (Z.land (te_Mode e) o111 =? 0) = (Z.land (te_Mode e) (2 ^ 0) =? 0) && (Z.land (te_Mode e) (2 ^ 3) =? 0) && (Z.land (te_Mode e) (2 ^ 6) =? 0)).
  { rewrite Hl. apply eq_bool_prop_intro. rewrite !Is_true_true, !andb_true_iff, !Z.eqb_eq, !Z.lor_eq_0_iff. done. }
  rewrite Hz, !land_single by done. by destruct (Z.testbit _ 0), (Z.testbit _ 3), (Z.testbit _ 6).
Qed.

Lemma file_of_unpacked e : file_of e = unpacked_file e.
Proof. unfold file_of, unpacked_file. by rewrite file_mode_executable. Qed.

(** C38. Faithful unpacking: a prepared workspace is a new directory that holds
    exactly the entries of the archive, under clean and distinct names: each
    file with its data and mode 0444, or 0555 where the archive marks it
    executable; each directory; and otherwise only the directories on the way to
    an entry, every directory with mode 0555.  The files together have at most
    [maximum] bytes. *)
Theorem workspace_faithful tar_items root identity archive maximum s d s'
    (Hm : u64 maximum) (Hok : fifo_ok root s)
    (Hrun : prepareWorkspace tar_items root identity archive maximum s = (Ok d, s')) :
  d = workspace_dir root identity /\ h_tree s !! d = None /\
  exists es, tar_items archive = (fun ne => Some ne.2) <$> es /\ NoDup es.*1 /\
    Forall (fun ne => safeWorkspaceName (te_Name ne.2) = Ok ne.1) es /\ archive_bytes es <= maximum /\
    (forall name e, (name, e) ∈ es -> is_file e = true -> te_Size e <= len (te_Data e) /\
       h_tree s' !! (d ++ str_split "/" name) = Some (unpacked_file e)) /\
    (forall name e, (name, e) ∈ es -> is_file e = false -> te_Typeflag e = TypeDir /\ is_dir (h_tree s') (d ++ str_split "/" name)) /\
    (forall p n, under d p = true -> h_tree s' !! p = Some n ->
       (n_kind n = Directory /\ n_perm n = 365 /\
        (p = d \/ exists name e, (name, e) ∈ es /\ under p (d ++ str_split "/" name) = true)) \/
       exists name e, (name, e) ∈ es /\ is_file e = true /\ p = d ++ str_split "/" name /\ n = unpacked_file e).
Proof.
  pose proof (prepare_spec tar_items root identity s Hok archive maximum Hm) as HP. unfold hwp in HP. rewrite Hrun in HP.
  destruct HP as (t1 & Hw & _ & _ & Hres & _).
  destruct (Hres d eq_refl) as (-> & _ & Hnone & _ & es & te & total & Hitems & Hsafe & Hnd & [Hf Hd Honly Htot Hsz] & Hmax & Hch).
  set (dir := workspace_dir root identity) in *.
  assert (Htgt : forall name e, (name, e) ∈ es -> target_of dir name = dir ++ str_split "/" name).
  { intros name e Hin. rewrite Forall_forall in Hsafe. specialize (Hsafe _ Hin). cbn in Hsafe.
    apply safeWorkspaceName_ok in Hsafe as [Hs _]. unfold target_of. by rewrite clean_proper, rev_involutive. }
  assert (Hch' : forall p n, under dir p = true -> te !! p = Some n ->
            h_tree s' !! p = Some (if decide (n_kind n = Directory) then chmod_node o555 n else n)).
  { intros p n Hu Hn. rewrite Hch, Hn. f_equal. apply decide_ext.
    rewrite tree_paths_elem. split; [by intros [_ ?]|]. intros K. split; [split; [done|by eexists]|done]. }
  assert (Hin_rev : forall x, x ∈ es <-> x ∈ rev es) by (intros x; by rewrite <- (Permutation_rev es)).
  split_and!; [done|destruct Hw as [->|[_ ->]]; [done|by apply lookup_insert_None in Hnone as [? _]]|].
  exists es. split_and!; try done.
  - rewrite (archive_bytes_perm es (rev es)) by apply Permutation_rev. unfold archive_bytes. by rewrite <- Htot.
  - intros name e Hin Hfile. rewrite <- (Htgt name e Hin). split.
    + rewrite Forall_forall in Hsz. apply (Hsz (name, e)); [by apply Hin_rev|done].
    + rewrite <- file_of_unpacked, (Hch' _ (file_of e)); [done| |by apply Hf; [apply Hin_rev|]].
      rewrite (Htgt name e Hin). apply under_app. by eexists.
  - intros name e Hin Hfile. rewrite <- (Htgt name e Hin).
    destruct (Hd name e) as [Hflag (n & Hn & K)]; [by apply Hin_rev|done|]. split; [done|].
    exists (chmod_node o555 n). rewrite (Hch' _ n), decide_True by (try done; rewrite (Htgt name e Hin); apply under_app; by eexists). done.
  - intros p n Hu Hn. destruct (te !! p) as [m|] eqn:Hp.
    + rewrite (Hch' p m Hu Hp) in Hn. injection Hn as <-.
      destruct (Honly p m Hu Hp) as [[K Hway]|(name & e & Hin%Hin_rev & Hfile & Hpe & ->)].
      * left. rewrite decide_True by done. split_and!; [done|done|]. destruct Hway as [?|(name & e & Hin%Hin_rev & Hway)]; [by left|right].
        exists name, e. rewrite <- (Htgt name e Hin). done.
      * right. exists name, e. rewrite <- (Htgt name e Hin), <- file_of_unpacked. done.
    + rewrite Hch, Hp in Hn. done.
Qed.

(** Clean-up: where the environment lets its operations run, the cleanup
    function of a prepared workspace removes it, read-only directories and all,
    and a preparation that fails on a bad archive leaves nothing: the tree is
    the one before, but for the directory of the workspaces. *)
Theorem workspace_removed tar_items root identity archive maximum s
    (Hm : u64 maximum) (Hok : fifo_ok root s) :
  let '(res, s') := prepareWorkspace tar_items root identity archive maximum s in
  match res with
  | Ok d => h_script s' = [] ->
      exists s2, removeWorkspace d s' = (Ok tt, s2) /\ with_root root s (h_tree s2)
  | Err _ => h_script s = [] -> with_root root s (h_tree s')
  end.
Proof.
  pose proof (prepare_spec tar_items root identity s Hok archive maximum Hm) as HP. unfold hwp in HP.
  destruct (prepareWorkspace tar_items root identity archive maximum s) as [res s'] eqn:E. cbn [fst snd] in HP.
  destruct HP as (t1 & Hw & Hf & _ & Hres & Herr). destruct res as [d|e].
  2:{ intros Hscr. by rewrite Herr. }
  intros Hscr. destruct (Hres d eq_refl) as (-> & Hi & Hnone & Hwr & _).
  destruct (prepared_remove root identity s Hok t1 s' Hw Hi Hnone Hwr) as (_ & _ & Hdone).
  destruct (Hdone Hscr) as [Hr Ht]. destruct (removeWorkspace (workspace_dir root identity) s') as [r s2]. cbn in Hr, Ht.
  subst r. exists s2. split; [done|]. by rewrite Ht.
Qed.

(** ** Witnesses *)

Module WorkspaceSamples.
Definition fifo : list string := ["run"; "fifo"].
Definition start : hfs :=
  Hfs {[ ["run"] := new_dir o555; fifo := new_dir o700; fifo ++ [".lock"] := Node Regular o400 true "x" ]} [] [].

Definition entry (name : string) (flag : typeflag) (mode : Z) (data : bytes) : option tar_entry :=
  Some {| te_Name := name; te_Typeflag := flag; te_Size := len data; te_Mode := mode; te_Data := data |}.

Definition good (_ : bytes) : list (option tar_entry) :=
  [entry "src/" TypeDir 493 ""; entry "src/main.go" TypeReg 420 "package"; entry "bin/run.sh" TypeReg 493 "#!"].

(** An archive that tries to leave its directory after a first file. *)
Definition evil (_ : bytes) : list (option tar_entry) :=
  [entry "a" TypeReg 420 "1"; entry "../../etc/passwd" TypeReg 420 "root"].

Definition prepared : hfs := Eval vm_compute in (prepareWorkspace good fifo "job1" "archive" 64 start).2.
Definition rejected : hfs := Eval vm_compute in (prepareWorkspace evil fifo "job1" "archive" 64 start).2.

Lemma start_ok : fifo_ok fifo start.
Proof.
  constructor; [discriminate| |reflexivity|vm_compute; discriminate].
  intros p c n Hp Hn. unfold start in Hn. cbn [h_tree] in Hn.
  assert (Hlen : forall q : list string, q = p ++ [c] -> length q = S (length p)).
  { intros q ->. rewrite length_app. simpl. lia. }
  apply lookup_insert_Some in Hn as [[E _]|[_ Hn]]; [pose proof (Hlen _ E) as L|].
  { destruct p; [done|discriminate L]. }
  apply lookup_insert_Some in Hn as [[E _]|[_ Hn]]; [pose proof (Hlen _ E) as L|].
  { destruct p as [|a [|b p]]; try discriminate L. injection E as <- <-. by exists (new_dir o555). }
  apply lookup_singleton_Some in Hn as [E _]. pose proof (Hlen _ E) as L.
  destruct p as [|a [|b [|d p]]]; try discriminate L. injection E as <- <- <-. by exists (new_dir o700).
Qed.

Lemma prepared_run : prepareWorkspace good fifo "job1" "archive" 64 start = (Ok (workspace_dir fifo "job1"), prepared).
Proof. vm_compute. reflexivity. Qed.
End WorkspaceSamples.

Lemma workspace_confined_witness :
  h_followed WorkspaceSamples.rejected = [] /\
  h_tree WorkspaceSamples.rejected !! ["etc"; "passwd"] = None.
Proof.
  destruct (workspace_confined WorkspaceSamples.evil WorkspaceSamples.fifo "job1" "archive" 64 WorkspaceSamples.start
              ltac:(by_compute) WorkspaceSamples.start_ok) as [Hf Hp].
  split; [exact Hf|]. exact (Hp ["etc"; "passwd"] ltac:(reflexivity) ltac:(discriminate)).
Defined.

Lemma workspace_faithful_witness :
  h_tree WorkspaceSamples.start !! workspace_dir WorkspaceSamples.fifo "job1" = None /\
  h_tree WorkspaceSamples.prepared !! (workspace_dir WorkspaceSamples.fifo "job1" ++ ["bin"; "run.sh"]) =
    Some (Node Regular o555 true "#!").
Proof.
  destruct (workspace_faithful WorkspaceSamples.good WorkspaceSamples.fifo "job1" "archive" 64 WorkspaceSamples.start
              _ _ ltac:(by_compute) WorkspaceSamples.start_ok WorkspaceSamples.prepared_run) as (_ & Hn & _).
  split; [exact Hn|]. vm_compute. reflexivity.
Defined.

Lemma workspace_removed_witness :
  exists s2, removeWorkspace (workspace_dir WorkspaceSamples.fifo "job1") WorkspaceSamples.prepared = (Ok tt, s2) /\
    with_root WorkspaceSamples.fifo WorkspaceSamples.start (h_tree s2).
Proof.
  pose proof (workspace_removed WorkspaceSamples.good WorkspaceSamples.fifo "job1" "archive" 64 WorkspaceSamples.start
              ltac:(by_compute) WorkspaceSamples.start_ok) as W.
  rewrite WorkspaceSamples.prepared_run in W. apply W. reflexivity.
Defined.
