(* ===== verification/ContainerdEngine.v ===== *)
(** * pkg/executor/containerdbackend/sdk.go and cdi.go: one execution in containerd

    [sdkEngine.Run] resolves the configured image, makes sure the execution's
    identity is unused, unpacks the workspace, creates a container and a task,
    waits for it, reads its metrics and removes everything again.  containerd
    itself is an interface, the class [Runtime]: its calls are functions on a
    world of containers, snapshots and tasks, and, for the calls that make and
    delete a task's FIFO files, on the tree of files; [RuntimeLaws] states what
    its documentation promises of them.  A creation that reports an error may
    have left its object.  The theorems are proved against the interface. *)

From S2P Require Import Prelude GoStd Executor FS ContainerdSpec Workspace.

(** ** The runtime's interface *)

(** The answer of a call: done, [errdefs.IsNotFound], or another error. *)
Inductive answer := Fine | NotFound | Failed (e : string).

(** What the [select] after [task.Start] yields: the context ended, the
    channel was closed, or an exit status with the result of [status.Result]. *)
Inductive wait_event := CtxDone (e : string) | WaitClosed | Exited (code : Z) (err : option string).

Class Runtime (W : Type) := {
  rt_containers : W -> gset string;
  rt_snapshots : W -> gset string;
  rt_tasks : W -> gset string;
  rt_spec : W -> string -> option OciSpec;
  rt_fifos : W -> string -> option tpath;            (* the directory of a task's FIFO files *)
  Version : W -> result unit * W;
  ListContainers : W -> result (list string) * W;
  WalkSnapshots : W -> result (list string) * W;
  GetImage : string -> W -> result string * W;
  IsUnpacked : W -> result bool * W;
  LoadContainer : string -> W -> answer * W;
  StatSnapshot : string -> W -> answer * W;
  NewContainer : string -> (option OciSpec -> result OciSpec) -> W -> answer * W;
  (* with the FIFO directory and its standard input *)
  NewTask : string -> tpath -> bytes -> W * gmap tpath node -> answer * (W * gmap tpath node);
  WaitTask : string -> W -> answer * W;
  StartTask : string -> W -> answer * W;
  AwaitExit : string -> W -> wait_event * W;
  TaskOutput : string -> W -> list bytes;
  TaskMetrics : string -> W -> option (string * option (option Metrics)) * W;
  DeleteTask : string -> W * gmap tpath node -> answer * (W * gmap tpath node);
  DeleteContainer : string -> W -> answer * W;
  RemoveSnapshot : string -> W -> answer * W;
}.

(** The names of the filters [id~=^[0-9a-f]{64}$]. *)
Definition managed_name (name : string) : bool := hex_pattern "" 64 name.

(** ** Programs over the runtime and the file system *)

Definition M (W A : Type) : Type := W * hfs -> A * (W * hfs).
#[export] Instance m_ret W : MRet (M W) := fun A a s => (a, s).
#[export] Instance m_bind W : MBind (M W) := fun A B k m s => let '(a, s') := m s in k a s'.

Definition api {W A} (f : W -> A * W) : M W A := fun s => let '(a, w') := f s.1 in (a, (w', s.2)).
Definition api_files {W A} (f : W * gmap tpath node -> A * (W * gmap tpath node)) : M W A := fun s =>
  let '(a, (w', t')) := f (s.1, h_tree s.2) in (a, (w', Hfs t' (h_script s.2) (h_followed s.2))).
Definition files {W A} (m : Workspace.H A) : M W A := fun s => let '(a, h') := m s.2 in (a, (s.1, h')).
Definition world {W} : M W W := fun s => (s.1, s).

(** How a run ends: with a result, or with its error and the errors of the
    clean-up joined to it. *)
Inductive run_end := RunOk (r : Result) | RunErr (main : option string) (cleanup : list string).

(** The deferred functions: a clean-up error replaces the result. *)
Definition join_cleanup (r : run_end) (errs : list string) : run_end :=
  match errs, r with
  | [], _ => r
  | _, RunOk _ => RunErr None errs
  | _, RunErr main cleanup => RunErr main (cleanup ++ errs)
  end.

Definition not_found_ok (a : answer) : list string :=
  match a with Failed e => [e] | _ => [] end.

Record sdkEngine := {
  se_fifoDir : list string;
  se_imageReference : string;
  se_imageDigest : string;
  se_cdi : bool;      (* the injector is configured *)
}.

Section Engine.
Context {W : Type} `{Runtime W}.
Context (DefaultProfile : OciSpec -> option Seccomp) (tar_items : bytes -> list (option tar_entry)).
(** [oci.WithImageConfig] and the CDI cache ([Refresh], [InjectDevices]). *)
Context (WithImageConfig : OciSpec -> result OciSpec).
Context (cdi_refresh : result unit) (InjectDevices : list string -> OciSpec -> result OciSpec).

(** ** cdi.go *)

Definition specOpt (cdi : bool) (devices : list string) (spec : option OciSpec) : result (option OciSpec) :=
  match devices with
  | [] => Ok spec
  | _ =>
      match cdi, spec with
      | true, Some spec =>
          match cdi_refresh with
          | Err _ => Err "refresh CDI registry"
          | Ok _ =>
              match InjectDevices devices spec with
              | Err _ => Err "inject CDI devices"
              | Ok spec' => Ok (Some spec')
              end
          end
      | _, _ => Err "CDI injection is unavailable"
      end
  end.

(** The options of [containerd.WithNewSpec], in order. *)
Definition spec_options (cdi : bool) (request : ContainerRequest) (workspaceSource devices : list string)
    (spec : option OciSpec) : result OciSpec :=
  match spec with
  | None => Err "no specification"
  | Some spec =>
      let* spec := WithImageConfig spec in
      let* spec := fixedIsolationSpec DefaultProfile request workspaceSource (Some spec) in
      let* spec := specOpt cdi devices (Some spec) in
      match spec with Some spec => Ok spec | None => Err "no specification" end
  end.

(** ** sdk.go *)

Definition resolveImage (e : sdkEngine) (digest : string) : M W (result unit) :=
  if digest <>s? se_imageDigest e then mret (Err "container image digest is not configured") else
  r ← api (GetImage (se_imageReference e));
  mret (match r with
        | Err err => Err err
        | Ok target => fail_if (target <>s? digest) "container image reference changed digest"
        end).

Definition ensureIdentityAbsent (id : string) : M W (result unit) :=
  a ← api (LoadContainer id);
  match a with
  | Fine => mret (Err "container identity already exists")
  | Failed e => mret (Err e)
  | NotFound =>
      a ← api (StatSnapshot id);
      mret (match a with
            | Fine => Err "snapshot identity already exists"
            | Failed e => Err e
            | NotFound => Ok tt
            end)
  end.

Definition removeFailedSnapshot (id : string) : M W (list string) :=
  a ← api (RemoveSnapshot id); mret (not_found_ok a).

(** [cleanup]; [task] tells whether a task was created. *)
Definition cleanup (id : string) (task : bool) : M W (list string) :=
  taskErr ← (if task then a ← api_files (DeleteTask id); mret (not_found_ok a) else mret []);
  a ← api (DeleteContainer id);
  match a with
  | Failed containerErr =>
      s ← api (RemoveSnapshot id);
      mret (taskErr ++ [containerErr] ++ not_found_ok s)
  | _ => mret taskErr
  end.

(** From the start of the created task to the result; [duration] is the time
    since the run started. *)
Definition finish_task (id : string) (request : ContainerRequest) (duration : Z) : M W (result Result) :=
  a ← api (WaitTask id);
  match a with
  | Fine =>
      a ← api (StartTask id);
      match a with
      | Fine =>
          ev ← api (AwaitExit id);
          match ev with
          | CtxDone e => mret (Err e)
          | WaitClosed => mret (Err "containerd task wait closed")
          | Exited _ (Some e) => mret (Err e)
          | Exited exitCode None =>
              w ← world;
              let output := write_all (newBoundedOutput (lim_OutputBytes (cr_Limits request))) (TaskOutput id w) in
              if bo_Exceeded output then mret (Err "container output exceeds limit") else
              metric ← api (TaskMetrics id);
              match metric with
              | Some (metricID, data) =>
                  if metricID <>s? id then mret (Err "collect container task metrics") else
                  mret (let* usage := usageFromMetric data duration in
                        Ok {| res_ExitCode := exitCode; res_Output := bo_Bytes output; res_Usage := usage |})
              | None => mret (Err "collect container task metrics")
              end
          end
      | NotFound => mret (Err "not found")
      | Failed e => mret (Err e)
      end
  | NotFound => mret (Err "not found")
  | Failed e => mret (Err e)
  end.

(** Whether a task was created, and the result. *)
Definition run_task (e : sdkEngine) (id : string) (request : ContainerRequest) (stdin : bytes) (duration : Z)
    : M W (bool * result Result) :=
  a ← api_files (NewTask id (se_fifoDir e) stdin);
  match a with
  | Fine => r ← finish_task id request duration; mret (true, r)
  | NotFound => mret (false, Err "not found")
  | Failed e => mret (false, Err e)
  end.

Definition end_of (r : result Result) : run_end :=
  match r with Ok r => RunOk r | Err e => RunErr (Some e) [] end.

(** The container: [Run] after the workspace was prepared. *)
Definition run_container (e : sdkEngine) (id : string) (request : ContainerRequest)
    (workspaceSource devices : list string) (stdin : bytes) (duration : Z) : M W run_end :=
  a ← api (NewContainer id (spec_options (se_cdi e) request workspaceSource devices));
  match a with
  | Fine =>
      tr ← run_task e id request stdin duration;
      errs ← cleanup id tr.1;
      mret (join_cleanup (end_of tr.2) errs)
  | NotFound => errs ← removeFailedSnapshot id; mret (RunErr (Some "not found") errs)
  | Failed err => errs ← removeFailedSnapshot id; mret (RunErr (Some err) errs)
  end.

(** The path of the bound workspace. *)
Definition path_text (p : list string) : string := "/" +:+ str_join "/" p.

Definition Run (e : sdkEngine) (id : string) (request : ContainerRequest) (input : bytes)
    (devices : list string) (duration : Z) : M W run_end :=
  r ← resolveImage e (cr_ImageDigest request);
  match r with
  | Err err => mret (RunErr (Some err) [])
  | Ok _ =>
  unpacked ← api IsUnpacked;
  match unpacked with
  | Ok true =>
  r ← ensureIdentityAbsent id;
  match r with
  | Err err => mret (RunErr (Some err) [])
  | Ok _ =>
  if cr_WorkspaceArchive request then
    r ← files (prepareWorkspace tar_items (se_fifoDir e) id input (lim_DiskBytes (cr_Limits request)));
    match r with
    | Err err => mret (RunErr (Some err) [])
    | Ok directory =>
        r ← run_container e id request [path_text directory] devices "" duration;
        c ← files (removeWorkspace directory);
        mret (join_cleanup r (match c with Ok _ => [] | Err err => [err] end))
    end
  else run_container e id request [] devices input duration
  end
  | _ => mret (RunErr (Some "container image is not unpacked") [])
  end
  end.

(** [CheckReady] and [CheckResidue]; the lists are those of the filtered calls. *)
Definition CheckReady : M W (result unit) := api Version.

Definition CheckResidue : M W (result unit) :=
  r ← api ListContainers;
  match r with
  | Err e => mret (Err e)
  | Ok containers =>
      if negb (llen containers =? 0) then mret (Err "managed container residue exists") else
      r ← api WalkSnapshots;
      match r with
      | Err e => mret (Err e)
      | Ok names =>
          mret (fail_if (existsb (fun name => len name =? 64) names) "managed snapshot residue exists")
      end
  end.
End Engine.

(** ** What containerd's documentation promises

    A call changes only the objects of its own identity; a call that is not
    listed as creating or removing an object changes none.  A creation that
    fails may have made its object or not.  [cio.WithFIFODir] makes the FIFO
    files of a task in a new directory of the FIFO directory, and only deleting
    the task touches them again. *)
Section Laws.
Context {W : Type} `{Runtime W}.

Definition same_objects (w w' : W) : Prop :=
  rt_containers w' = rt_containers w /\ rt_snapshots w' = rt_snapshots w /\ rt_tasks w' = rt_tasks w /\
  (forall id, rt_spec w' id = rt_spec w id) /\ forall id, rt_fifos w' id = rt_fifos w id.

(** Two trees that differ only at or below [d]. *)
Definition apart_from (d : tpath) (t t' : gmap tpath node) : Prop := forall p, under d p = false -> t' !! p = t !! p.

Definition quiet {A} (f : W -> A * W) : Prop := forall w, same_objects w (f w).2.
End Laws.

Class RuntimeLaws (W : Type) `{Runtime W} : Prop := {
  law_version : quiet Version;
  law_list : forall w, same_objects w (ListContainers w).2 /\
    forall l, (ListContainers w).1 = Ok l -> forall n, n ∈ l <-> n ∈ rt_containers w /\ managed_name n = true;
  law_walk : forall w, same_objects w (WalkSnapshots w).2 /\
    forall l, (WalkSnapshots w).1 = Ok l -> forall n, n ∈ l <-> n ∈ rt_snapshots w /\ managed_name n = true;
  law_image : forall r, quiet (GetImage r);
  law_unpacked : quiet IsUnpacked;
  law_load : forall id w, same_objects w (LoadContainer id w).2 /\
    ((LoadContainer id w).1 = NotFound -> id ∉ rt_containers w);
  law_stat : forall id w, same_objects w (StatSnapshot id w).2 /\
    ((StatSnapshot id w).1 = NotFound -> id ∉ rt_snapshots w);
  (* The snapshot is made first, the specification is built from the options,
     then the container is stored; a failure may come after either. *)
  law_new : forall id opts w, let '(a, w') := NewContainer id opts w in
    rt_tasks w' = rt_tasks w /\
    match a with
    | Fine => rt_containers w' = {[id]} ∪ rt_containers w /\ rt_snapshots w' = {[id]} ∪ rt_snapshots w /\
              exists generated spec, opts generated = Ok spec /\ rt_spec w' id = Some spec
    | _ => (rt_containers w' ∖ {[id]} = rt_containers w ∖ {[id]}) /\ (rt_snapshots w' ∖ {[id]} = rt_snapshots w ∖ {[id]})
    end;
  law_task : forall id dir stdin w t, let '(a, (w', t')) := NewTask id dir stdin (w, t) in
    rt_containers w' = rt_containers w /\ rt_snapshots w' = rt_snapshots w /\
    (forall i, rt_spec w' i = rt_spec w i) /\
    exists n, t !! (dir ++ [n]) = None /\ apart_from (dir ++ [n]) t t' /\
      match a with
      | Fine => rt_tasks w' = {[id]} ∪ rt_tasks w /\ rt_fifos w' id = Some (dir ++ [n])
      | _ => rt_tasks w' ∖ {[id]} = rt_tasks w ∖ {[id]}
      end;
  law_wait : forall id, quiet (WaitTask id);
  law_start : forall id, quiet (StartTask id);
  law_await : forall id, quiet (AwaitExit id);
  law_metrics : forall id, quiet (TaskMetrics id);
  law_delete_task : forall id w t, let '(a, (w', t')) := DeleteTask id (w, t) in
    rt_containers w' = rt_containers w /\ rt_snapshots w' = rt_snapshots w /\
    (forall d, rt_fifos w id = Some d -> apart_from d t t') /\
    match a with Failed _ => True | _ => rt_tasks w' = rt_tasks w ∖ {[id]} end;
  (* With [WithSnapshotCleanup]; a container that is not found is reported
     before its snapshot is looked at. *)
  law_delete : forall id w, let '(a, w') := DeleteContainer id w in
    match a with
    | Fine => (rt_containers w' = rt_containers w ∖ {[id]}) /\ (rt_snapshots w' = rt_snapshots w ∖ {[id]}) /\
              rt_tasks w' = rt_tasks w
    | NotFound => id ∉ rt_containers w
    | Failed _ => True
    end;
  law_remove : forall id w, let '(a, w') := RemoveSnapshot id w in
    rt_containers w' = rt_containers w /\ rt_tasks w' = rt_tasks w /\
    match a with
    | Fine => rt_snapshots w' = rt_snapshots w ∖ {[id]}
    | NotFound => (id ∉ rt_snapshots w) /\ rt_snapshots w' = rt_snapshots w
    | Failed _ => True
    end;
}.

(** ** Reasoning about runs *)

Definition mwp {W A} (m : M W A) (Q : A -> W * hfs -> Prop) (s : W * hfs) : Prop := Q (m s).1 (m s).2.

Lemma mwp_ret {W A} (a : A) (Q : A -> W * hfs -> Prop) s : Q a s -> mwp (mret a) Q s.
Proof. done. Qed.

Lemma mwp_bind {W A B} (m : M W A) (k : A -> M W B) Q s : mwp m (fun a => mwp (k a) Q) s -> mwp (m ≫= k) Q s.
Proof. unfold mwp, mbind, m_bind. by destruct (m s). Qed.

Lemma mwp_mono {W A} (m : M W A) (Q Q' : A -> W * hfs -> Prop) s :
  mwp m Q s -> (forall a s', Q a s' -> Q' a s') -> mwp m Q' s.
Proof. unfold mwp. auto. Qed.

Lemma mwp_api {W A} (f : W -> A * W) (Q : A -> W * hfs -> Prop) w h :
  Q (f w).1 ((f w).2, h) -> mwp (api f) Q (w, h).
Proof. unfold mwp, api. cbn. by destruct (f w). Qed.

Lemma mwp_api_files {W A} (f : W * gmap tpath node -> A * (W * gmap tpath node)) (Q : A -> W * hfs -> Prop) w h :
  (let '(a, (w', t')) := f (w, h_tree h) in Q a (w', Hfs t' (h_script h) (h_followed h))) -> mwp (api_files f) Q (w, h).
Proof. unfold mwp, api_files. cbn [fst snd]. by destruct (f (w, h_tree h)) as [a [w' t']]. Qed.

Section NoResidue.
Context {W : Type} `{RuntimeLaws W}.
Context (DefaultProfile : OciSpec -> option Seccomp) (tar_items : bytes -> list (option tar_entry)).
Context (WithImageConfig : OciSpec -> result OciSpec).
Context (cdi_refresh : result unit) (InjectDevices : list string -> OciSpec -> result OciSpec).

Lemma same_refl w : same_objects w w.
Proof. done. Qed.

Lemma same_trans w1 w2 w3 : same_objects w1 w2 -> same_objects w2 w3 -> same_objects w1 w3.
Proof. intros (? & ? & ? & E & F) (? & ? & ? & E' & F'). split_and!; congruence. Qed.

(** A quiet call keeps the files and the objects. *)
Lemma mwp_quiet {A} (f : W -> A * W) (Q : A -> W * hfs -> Prop) w h :
  quiet f -> (forall a w', same_objects w w' -> Q a (w', h)) -> mwp (api f) Q (w, h).
Proof. intros Hq HQ. apply mwp_api, HQ, Hq. Qed.

(** A result comes from the whole output of the task, within its limit. *)
Definition task_result (id : string) (request : ContainerRequest) (duration : Z) (w : W) (res : Result) : Prop :=
  exists w1, same_objects w w1 /\
    let out := write_all (newBoundedOutput (lim_OutputBytes (cr_Limits request))) (TaskOutput id w1) in
    res_Output res = bo_Bytes out /\ bo_Exceeded out = false /\ 0 < duration /\
    us_Duration (res_Usage res) = duration.

(** The execution of a created task leaves the objects alone. *)
Lemma finish_task_spec id request duration w h :
  mwp (finish_task id request duration) (fun r s => s.2 = h /\ same_objects w s.1 /\
    forall res, r = Ok res -> task_result id request duration w res) (w, h).
Proof.
  assert (Herr : forall e w', same_objects w w' ->
    mwp (mret (Err e)) (fun r s => s.2 = h /\ same_objects w s.1 /\
      forall res, r = Ok res -> task_result id request duration w res) (w', h)).
  { intros e w' Hs. by apply mwp_ret. }
  unfold finish_task. apply mwp_bind, mwp_quiet; [apply law_wait|]. intros a w1 S1. destruct a; [|by apply Herr..].
  apply mwp_bind, mwp_quiet; [apply law_start|]. intros a w2 S2. pose proof (same_trans _ _ _ S1 S2) as S12.
  destruct a; [|by apply Herr..].
  apply mwp_bind, mwp_quiet; [apply law_await|]. intros ev w3 S3. pose proof (same_trans _ _ _ S12 S3) as S13.
  destruct ev as [e| |code [err|]]; [by apply Herr..|].
  apply mwp_bind. unfold mwp at 1. cbn [world fst snd].
  destruct (bo_Exceeded (write_all _ (TaskOutput id w3))) eqn:Ex; [by apply Herr|].
  apply mwp_bind, mwp_quiet; [apply law_metrics|]. intros metric w4 S4. pose proof (same_trans _ _ _ S13 S4) as S14.
  destruct metric as [[metricID data]|]; [|by apply Herr]. destruct (metricID =s? id); [|by apply Herr]. cbn [negb].
  apply mwp_ret. split_and!; [done|done|]. intros res Hres. apply rbind_ok in Hres as (usage & Hu & [= <-]).
  exists w3. cbn [res_Output res_Usage]. split_and!; try done.
  - unfold usageFromMetric in Hu. destruct data; [|done]. apply then_ok in Hu as [Hd%fail_if_ok _].
    by apply Z.leb_gt in Hd.
  - unfold usageFromMetric in Hu. destruct data as [[[[u|] [[? ?]|] io]|]|]; try done; result_inv; try done.
    by destruct (disk_written 0 io); [injection Hu as <-|].
Qed.

Definition clean_end (r : run_end) : Prop := match r with RunOk _ => True | RunErr _ errs => errs = [] end.

Lemma join_clean r errs : clean_end (join_cleanup r errs) -> errs = [] /\ clean_end r.
Proof.
  destruct errs as [|e errs]; [done|]. destruct r as [r|main c]; cbn; [done|]. intros E. by destruct c.
Qed.

Lemma join_ok r errs res : join_cleanup r errs = RunOk res -> r = RunOk res.
Proof. destruct errs; [done|]. by destruct r. Qed.

(** Only the files at or below [d] changed. *)
Definition beside (d : tpath) (h h' : hfs) : Prop :=
  apart_from d (h_tree h) (h_tree h') /\ h_script h' = h_script h /\ h_followed h' = h_followed h.

Lemma beside_refl d h : beside d h h.
Proof. done. Qed.

Lemma beside_trans d h1 h2 h3 : beside d h1 h2 -> beside d h2 h3 -> beside d h1 h3.
Proof. intros (A1 & S1 & F1) (A2 & S2 & F2). split_and!; [|congruence..]. intros p Hp. by rewrite A2, A1. Qed.

(** [cleanup] of a container that exists; the objects are gone when it reports
    no error. *)
Lemma cleanup_spec id (task : bool) d w h :
  id ∈ rt_containers w -> (task = true -> rt_fifos w id = Some d) ->
  mwp (cleanup id task) (fun errs s => beside d h s.2 /\ (errs = [] ->
    rt_containers s.1 = rt_containers w ∖ {[id]} /\ rt_snapshots s.1 = rt_snapshots w ∖ {[id]} /\
    rt_tasks s.1 = if task then rt_tasks w ∖ {[id]} else rt_tasks w)) (w, h).
Proof.
  intros Hid Hd. unfold cleanup. apply mwp_bind.
  assert (Htask : mwp (if task then a ← api_files (DeleteTask id); mret (not_found_ok a) else mret [])
            (fun taskErr s => beside d h s.2 /\ rt_containers s.1 = rt_containers w /\ rt_snapshots s.1 = rt_snapshots w /\
               (taskErr = [] -> rt_tasks s.1 = if task then rt_tasks w ∖ {[id]} else rt_tasks w)) (w, h)).
  { destruct task; [|by apply mwp_ret]. apply mwp_bind, mwp_api_files. pose proof (law_delete_task id w (h_tree h)) as L.
    destruct (DeleteTask id (w, h_tree h)) as [a [w' t']]. apply mwp_ret. destruct L as (? & ? & Lf & L). cbn [fst snd].
    split_and!; [split_and!; [by apply Lf, Hd|done|done]|done|done|]. by destruct a. }
  eapply mwp_mono; [exact Htask|]. intros taskErr [w1 h1] (Hh & Hc & Hs & Ht). cbn [fst snd] in Hh, Hc, Hs, Ht.
  apply mwp_bind, mwp_api. pose proof (law_delete id w1) as L. destruct (DeleteContainer id w1) as [a w2]. cbn [fst snd].
  destruct a as [| |err].
  - apply mwp_ret. destruct L as (L1 & L2 & L3). split; [done|]. intros E. cbn [fst]. rewrite L1, L2, L3, Hc, Hs. auto.
  - rewrite Hc in L. by destruct L.
  - apply mwp_bind, mwp_api, mwp_ret. split; [done|]. intros E. by destruct taskErr.
Qed.

(** The container of a run that produced a result was isolated as requested. *)
Definition isolated_run (cdi : bool) (request : ContainerRequest) (src devices : list string) (spec : OciSpec) : Prop :=
  exists generated, spec_options DefaultProfile WithImageConfig cdi_refresh InjectDevices cdi request src devices generated = Ok spec.

(** Objects that a creation left although it reported an error. *)
Definition container_lost (id : string) (w w' : W) : Prop :=
  exists opts w1, same_objects w w1 /\ (NewContainer id opts w1).1 <> Fine /\
    rt_containers w' = rt_containers (NewContainer id opts w1).2 /\ id ∈ rt_containers w'.

Definition task_lost (id : string) (w w' : W) : Prop :=
  exists dir stdin w1 t, rt_tasks w1 = rt_tasks w /\ (NewTask id dir stdin (w1, t)).1 <> Fine /\
    rt_tasks w' = rt_tasks (NewTask id dir stdin (w1, t)).2.1 /\ id ∈ rt_tasks w'.

Definition objects_restored (id : string) (w w' : W) : Prop :=
  rt_snapshots w' = rt_snapshots w /\
  (rt_containers w' = rt_containers w \/ container_lost id w w') /\
  (id ∉ rt_tasks w -> rt_tasks w' = rt_tasks w \/ task_lost id w w').

Lemma objects_same id w w' : same_objects w w' -> objects_restored id w w'.
Proof. intros (? & ? & ? & _). split_and!; auto. Qed.

Lemma objects_restored_from id w w1 w' : same_objects w w1 -> objects_restored id w1 w' -> objects_restored id w w'.
Proof.
  intros S (Hs & Hc & Ht). pose proof S as (E1 & E2 & E3 & _). unfold objects_restored. rewrite <- E2. split_and!; [done| |].
  - rewrite <- E1. destruct Hc as [Hc|(opts & w2 & S2 & Hc)]; [by left|right]. exists opts, w2. split; [by eapply same_trans|done].
  - rewrite <- E3. intros Hid. destruct (Ht Hid) as [Ht'|(dir & stdin & w2 & t & E & Ht')]; [by left|right].
    exists dir, stdin, w2, t. split; [congruence|done].
Qed.

(** A set that may have got [id] and else is as before. *)
Lemma same_or_member (id : string) (X Y : gset string) : X ∖ {[id]} = Y ∖ {[id]} -> id ∉ Y -> X = Y \/ id ∈ X.
Proof. intros E Hid. destruct (decide (id ∈ X)); [by right|left]. set_solver. Qed.

(** The files of a run of a container: FIFO files in a new entry of the FIFO
    directory. *)
Definition fifos_only (e : sdkEngine) (h h' : hfs) : Prop :=
  h' = h \/ exists n, h_tree h !! (se_fifoDir e ++ [n]) = None /\ beside (se_fifoDir e ++ [n]) h h'.

(** What a run of a container with an unused identity does: only FIFO files
    change; without clean-up errors no object is left; a result was produced in
    isolation. *)
Definition container_post (e : sdkEngine) (id : string) (request : ContainerRequest) (src devices : list string)
    (duration : Z) (w : W) (h : hfs) (r : run_end) (s : W * hfs) : Prop :=
  fifos_only e h s.2 /\
  (clean_end r -> objects_restored id w s.1) /\
  (forall res, r = RunOk res -> exists w1 spec, rt_spec w1 id = Some spec /\ task_result id request duration w1 res /\
     isolated_run (se_cdi e) request src devices spec).

(** A failed [NewContainer]: the snapshot is removed. *)
Lemma new_failed_spec e id request src devices duration opts w h msg :
  id ∉ rt_containers w -> id ∉ rt_snapshots w -> (NewContainer id opts w).1 <> Fine ->
  mwp (errs ← removeFailedSnapshot id; mret (RunErr (Some msg) errs)) (container_post e id request src devices duration w h)
    ((NewContainer id opts w).2, h).
Proof.
  intros Hc Hs Ha. pose proof (law_new id opts w) as L. destruct (NewContainer id opts w) as [a w1] eqn:Hnew. cbn [fst snd] in *.
  destruct L as [Lt L].
  assert (E : (rt_containers w1 ∖ {[id]} = rt_containers w ∖ {[id]}) /\ (rt_snapshots w1 ∖ {[id]} = rt_snapshots w ∖ {[id]})) by (by destruct a).
  destruct E as [E1 E2]. apply mwp_bind. unfold removeFailedSnapshot. apply mwp_bind, mwp_api.
  pose proof (law_remove id w1) as R. destruct (RemoveSnapshot id w1) as [a' w2]. apply mwp_ret, mwp_ret.
  destruct R as (R1 & R2 & R3). unfold container_post. cbn [fst snd]. split_and!; [by left| |done].
  intros Hclean. split_and!.
  - destruct a'; cbn in Hclean; [set_solver..|done].
  - rewrite R1. destruct (same_or_member id _ _ E1 Hc) as [->|Hin]; [by left|right].
    exists opts, w. rewrite Hnew. cbn [fst snd]. split_and!; [apply same_refl|done|done|by rewrite R1].
  - intros _. left. by rewrite R2.
Qed.

Lemma run_container_spec e id request src devices stdin duration w h :
  id ∉ rt_containers w -> id ∉ rt_snapshots w ->
  mwp (run_container DefaultProfile WithImageConfig cdi_refresh InjectDevices e id request src devices stdin duration)
    (container_post e id request src devices duration w h) (w, h).
Proof.
  intros Hc Hs. unfold run_container. apply mwp_bind, mwp_api.
  set (opts := spec_options DefaultProfile WithImageConfig cdi_refresh InjectDevices (se_cdi e) request src devices).
  pose proof (law_new id opts w) as L. pose proof (new_failed_spec e id request src devices duration opts w h) as Hfail.
  destruct (NewContainer id opts w) as [a w1] eqn:Hnew. cbn [fst snd] in *. destruct L as [Lt L].
  destruct a as [| |err]; [|by apply Hfail..]. clear Hfail.
  destruct L as (Lc & Lsn & generated & spec & Hopt & Hspec).
  apply mwp_bind. unfold run_task. apply mwp_bind, mwp_api_files. pose proof (law_task id (se_fifoDir e) stdin w1 (h_tree h)) as T.
  destruct (NewTask id (se_fifoDir e) stdin (w1, h_tree h)) as [a [w2 t2]] eqn:Htask. destruct T as (Tc & Tsn & Tsp & n & Tn & Ta & Tt).
  set (h2 := Hfs t2 (h_script h) (h_followed h)).
  assert (Hb2 : beside (se_fifoDir e ++ [n]) h h2) by done.
  assert (Hend : forall (task : bool) r w3, same_objects w2 w3 -> (task = true -> a = Fine) -> (task = false -> a <> Fine) ->
    (forall res, r = Ok res -> task_result id request duration w2 res) ->
    mwp (errs ← cleanup id (task, r).1; mret (join_cleanup (end_of (task, r).2) errs)) (container_post e id request src devices duration w h) (w3, h2)).
  { intros task r w3 (S1 & S2 & S3 & S4 & S5) Hyes Hno Hr. apply mwp_bind. cbn [fst snd].
    eapply mwp_mono; [apply (cleanup_spec _ _ (se_fifoDir e ++ [n])); [rewrite S1, Tc, Lc; set_solver|]|].
    { intros Et. rewrite S5. rewrite (Hyes Et) in Tt. apply Tt. }
    intros errs [w4 h4] [Hh Hcl]. apply mwp_ret. cbn [fst snd] in Hh, Hcl.
    unfold container_post. cbn [fst snd]. split_and!; [right; exists n; split; [done|by eapply beside_trans]| |].
    - intros [-> _]%join_clean. destruct (Hcl eq_refl) as (C1 & C2 & C3). split_and!.
      + rewrite C2, S2, Tsn, Lsn. set_solver.
      + left. rewrite C1, S1, Tc, Lc. set_solver.
      + intros Hid. destruct task.
        * left. rewrite (Hyes eq_refl) in Tt. destruct Tt as [Tt _]. rewrite C3, S3, Tt, Lt. set_solver.
        * specialize (Hno eq_refl). assert (Et : rt_tasks w2 ∖ {[id]} = rt_tasks w1 ∖ {[id]}) by (by destruct a).
          rewrite Lt in Et. destruct (same_or_member _ _ _ Et Hid) as [E|Hin]; [left; congruence|right].
          exists (se_fifoDir e), stdin, w1, (h_tree h). rewrite Htask. cbn [fst snd]. rewrite C3, S3. by split_and!.
    - intros res Hres%join_ok. destruct r as [res'|]; [|done]. injection Hres as ->.
      exists w2, spec. rewrite Tsp. split_and!; [done|by apply Hr|by exists generated]. }
  destruct a as [| |err]; [|apply mwp_ret, Hend; by try apply same_refl..].
  apply mwp_bind. eapply mwp_mono; [apply finish_task_spec|]. intros r [w3 h3] (Hh & Hso & Hres). cbn [fst snd] in Hh, Hso. subst h3.
  apply mwp_ret, Hend; done.
Qed.

Lemma mwp_files {A} (m : Workspace.H A) (Q : A -> W * hfs -> Prop) w h :
  hwp m (fun a h' => Q a (w, h')) h -> mwp (files m) Q (w, h).
Proof. unfold mwp, files, hwp. cbn. by destruct (m h). Qed.

(** A path of the FIFO files of a task: at or below a name of the FIFO directory
    that was unused before the run. *)
Definition fifo_file (e : sdkEngine) (archive : bool) (h : hfs) (p : tpath) : Prop :=
  exists n, (archive = true -> n <> workspaceRootName) /\ h_tree h !! (se_fifoDir e ++ [n]) = None /\
    under (se_fifoDir e ++ [n]) p = true.

(** The workspace is as before the run, which may have made the directory of the
    workspaces. *)
Definition workspace_restored (e : sdkEngine) (id : string) (h h' : hfs) : Prop :=
  (h_tree h' !! workspace_root (se_fifoDir e) = h_tree h !! workspace_root (se_fifoDir e) \/
   h_tree h !! workspace_root (se_fifoDir e) = None /\ h_tree h' !! workspace_root (se_fifoDir e) = Some (new_dir o700)) /\
  forall p, under (workspace_dir (se_fifoDir e) id) p = true -> h_tree h' !! p = h_tree h !! p.

(** A run: the objects, the files and the result. *)
Record run_spec (e : sdkEngine) (id : string) (request : ContainerRequest) (input : bytes) (devices : list string) (duration : Z)
    (w : W) (h : hfs) (r : run_end) (s : W * hfs) : Prop := {
  rs_objects : clean_end r -> objects_restored id w s.1;
  rs_links : h_followed s.2 = h_followed h;
  rs_files : forall p, under (workspace_dir (se_fifoDir e) id) p = false -> p <> workspace_root (se_fifoDir e) ->
    h_tree s.2 !! p = h_tree h !! p \/ fifo_file e (cr_WorkspaceArchive request) h p;
  rs_workspace : cr_WorkspaceArchive request = true ->
    (h_script h = [] \/ clean_end r /\
       is_ok (prepareWorkspace tar_items (se_fifoDir e) id input (lim_DiskBytes (cr_Limits request)) h).1 = true) ->
    workspace_restored e id h s.2;
  rs_result : forall res, r = RunOk res ->
    cr_ImageDigest request = se_imageDigest e /\
    exists w1 src spec, rt_spec w1 id = Some spec /\ task_result id request duration w1 res /\
      isolated_run (se_cdi e) request src devices spec;
}.

Lemma restored_refl e id h : workspace_restored e id h h.
Proof. split; [by left|done]. Qed.

Lemma run_spec_err e id request input devices duration w w' h err :
  same_objects w w' -> run_spec e id request input devices duration w h (RunErr (Some err) []) (w', h).
Proof. intros S. constructor; cbn [fst snd]; try done; auto using objects_same, restored_refl. Qed.

Lemma resolveImage_spec e digest w h :
  mwp (resolveImage e digest) (fun r s => s.2 = h /\ same_objects w s.1 /\
    (r = Ok tt -> digest = se_imageDigest e)) (w, h).
Proof.
  unfold resolveImage. destruct (String.eqb_spec digest (se_imageDigest e)) as [->|Hne]; cbn [negb]; [|by apply mwp_ret].
  apply mwp_bind, mwp_quiet; [apply law_image|]. intros a w' Hs. by apply mwp_ret.
Qed.

Lemma ensureIdentityAbsent_spec id w h :
  mwp (ensureIdentityAbsent id) (fun r s => s.2 = h /\ same_objects w s.1 /\
    (r = Ok tt -> (id ∉ rt_containers s.1) /\ (id ∉ rt_snapshots s.1))) (w, h).
Proof.
  unfold ensureIdentityAbsent. apply mwp_bind, mwp_api. destruct (law_load id w) as [S1 L1].
  destruct (LoadContainer id w) as [a w1]. cbn [fst snd] in *. destruct a; [by apply mwp_ret| |by apply mwp_ret].
  apply mwp_bind, mwp_api. destruct (law_stat id w1) as [S2 L2].
  destruct (StatSnapshot id w1) as [a w2]. cbn [fst snd] in *. apply mwp_ret.
  pose proof (same_trans _ _ _ S1 S2) as S12. destruct S12 as (E1 & E2 & E3 & E4), S2 as (F1 & F2 & F3 & F4).
  destruct a; cbn [fst snd]; split_and!; try done; try (intros; done).
  intros _. rewrite E1, F2. auto.
Qed.

(** A run of a container without a workspace. *)
Lemma run_spec_container e id request input devices duration w w2 h r (s : W * hfs) :
  same_objects w w2 -> cr_ImageDigest request = se_imageDigest e -> cr_WorkspaceArchive request = false ->
  container_post e id request [] devices duration w2 h r s ->
  run_spec e id request input devices duration w h r s.
Proof.
  intros S Himg Harch (Hh & Hc & Hr). constructor; rewrite ?Harch.
  - intros Hcl. by eapply objects_restored_from, Hc.
  - by destruct Hh as [->|(n & _ & _ & _ & ?)].
  - intros p _ _. destruct Hh as [->|(n & Hn & Ha & _)]; [by left|].
    destruct (under (se_fifoDir e ++ [n]) p) eqn:Hu; [right; by exists n|left; by apply Ha].
  - done.
  - intros res Hres. split; [done|]. destruct (Hr res Hres) as (w1 & spec & ? & ? & ?). by exists w1, [], spec.
Qed.

(** The tree with the directory of the workspaces, elsewhere. *)
Lemma with_root_elsewhere dir h t1 p : with_root dir h t1 -> p <> workspace_root dir -> t1 !! p = h_tree h !! p.
Proof. intros [->|[_ ->]] Hp; [done|]. by rewrite lookup_insert_ne. Qed.

Lemma with_root_restored e id h t1 h' :
  with_root (se_fifoDir e) h t1 -> h_tree h' !! workspace_root (se_fifoDir e) = t1 !! workspace_root (se_fifoDir e) ->
  (forall p, under (workspace_dir (se_fifoDir e) id) p = true -> h_tree h' !! p = t1 !! p) ->
  workspace_restored e id h h'.
Proof.
  intros Hw Hr Hd. split.
  - rewrite Hr. destruct Hw as [->|[Hn ->]]; [by left|right]. by rewrite lookup_insert_eq.
  - intros p Hp. rewrite Hd by done. apply (with_root_elsewhere (se_fifoDir e)); [done|]. intros ->.
    apply under_app in Hp as [q E]. apply (f_equal length) in E. unfold workspace_dir in E. rewrite !length_app in E. cbn in E. lia.
Qed.

(** Between the preparation and the clean-up only one unused name of the FIFO
    directory gets files. *)
Lemma fifos_only_name e id h t1 h1 h4 :
  with_root (se_fifoDir e) h t1 -> inside (workspace_dir (se_fifoDir e) id) t1 (h_followed h) h1 ->
  writable_dir t1 (workspace_root (se_fifoDir e)) = true -> fifos_only e h1 h4 ->
  exists n, n <> workspaceRootName /\ beside (se_fifoDir e ++ [n]) h1 h4 /\
    forall p, under (workspace_dir (se_fifoDir e) id) p = false -> p <> workspace_root (se_fifoDir e) ->
      h_tree h4 !! p = h_tree h !! p \/ fifo_file e true h p.
Proof.
  intros Hw Hin Hwr Hf.
  assert (Hbase : forall p, under (workspace_dir (se_fifoDir e) id) p = false -> p <> workspace_root (se_fifoDir e) ->
            h_tree h1 !! p = h_tree h !! p).
  { intros p Hu Hp. rewrite (in_outside _ _ _ _ Hin) by done. by apply (with_root_elsewhere (se_fifoDir e)). }
  destruct Hf as [->|(n & Hn & Hb)].
  { exists "". split_and!; [done|apply beside_refl|]. intros p Hu Hp. left. by apply Hbase. }
  assert (Hshort : forall m, under (workspace_dir (se_fifoDir e) id) (se_fifoDir e ++ [m]) = false).
  { intros m. apply under_short. unfold workspace_dir, workspace_root. rewrite !length_app. cbn. lia. }
  assert (Hne : n <> workspaceRootName).
  { intros ->. rewrite (in_outside _ _ _ _ Hin) in Hn by done. unfold writable_dir, workspace_root in Hwr. by rewrite Hn in Hwr. }
  exists n. split_and!; [done|done|]. intros p Hu Hp. destruct (under (se_fifoDir e ++ [n]) p) eqn:E.
  - right. exists n. split_and!; [done| |done]. rewrite <- Hbase; [done|done|]. unfold workspace_root.
    intros [_ [= Heq]]%app_inj_2; done.
  - left. destruct Hb as (Ha & _). rewrite Ha by done. by apply Hbase.
Qed.

Lemma Run_spec e id request input devices duration w h :
  fifo_ok (se_fifoDir e) h -> u64 (lim_DiskBytes (cr_Limits request)) ->
  mwp (Run DefaultProfile tar_items WithImageConfig cdi_refresh InjectDevices e id request input devices duration)
    (run_spec e id request input devices duration w h) (w, h).
Proof.
  intros Hfifo Hdisk. unfold Run. apply mwp_bind. eapply mwp_mono; [apply resolveImage_spec|].
  intros [[]|err] [w1 h1] (Hh & S1 & Himg); cbn [fst snd] in *; subst h1; [|by apply mwp_ret, run_spec_err].
  specialize (Himg eq_refl). apply mwp_bind, mwp_quiet; [apply law_unpacked|]. intros unp w2 S2.
  pose proof (same_trans _ _ _ S1 S2) as S12. destruct unp as [[]|err]; [|by apply mwp_ret, run_spec_err..].
  apply mwp_bind. eapply mwp_mono; [apply ensureIdentityAbsent_spec|].
  intros [[]|err] [w3 h3] (Hh & S3 & Habs); cbn [fst snd] in *; subst h3;
    [|apply mwp_ret, run_spec_err; by eapply same_trans].
  destruct (Habs eq_refl) as [Hc Hs]. pose proof (same_trans _ _ _ S12 S3) as S13.
  destruct (cr_WorkspaceArchive request) eqn:Harch.
  2:{ eapply mwp_mono; [by apply run_container_spec|]. intros r s. by apply run_spec_container. }
  apply mwp_bind, mwp_files. pose proof (prepare_spec tar_items (se_fifoDir e) id h Hfifo input _ Hdisk) as Hprep.
  pose proof (silent_prepare tar_items (se_fifoDir e) id input (lim_DiskBytes (cr_Limits request)) h) as Hq.
  unfold hwp in *. destruct (prepareWorkspace tar_items (se_fifoDir e) id input (lim_DiskBytes (cr_Limits request)) h) as [res h1] eqn:Hp.
  cbn [fst snd] in *. destruct Hprep as (t1 & Hw & Hf & Ho & Hok & Herr).
  destruct res as [dir|err].
  2:{ apply mwp_ret. constructor; cbn [fst snd]; rewrite ?Harch.
      - intros _. by apply objects_same.
      - done.
      - intros p Hu Hne. left. rewrite Ho by done. by apply (with_root_elsewhere (se_fifoDir e)).
      - intros _ [Hscr|[_ Hbad]]; [|by rewrite Hp in Hbad]. apply (with_root_restored e id h t1); [done|by rewrite Herr..].
      - done. }
  destruct (Hok dir eq_refl) as (-> & Hin & Hnone & Hwr & _).
  apply mwp_bind. eapply mwp_mono; [by apply run_container_spec|]. intros r [w4 h4] (Hh & Hobj & Hres). cbn [fst snd] in *.
  destruct (fifos_only_name e id h t1 h1 h4 Hw Hin Hwr Hh) as (n & Hne & (Ha & Hscr4 & Hf4) & Hfiles).
  apply mwp_bind, mwp_files. assert (E4 : h4 = Hfs (h_tree h4) (h_script h1) (h_followed h1)) by (destruct h4; cbn in *; congruence).
  rewrite E4. eapply hwp_mono; [by apply (prepared_remove_among (se_fifoDir e) id h Hfifo n Hne t1 h1 (h_tree h4))|].
  intros c h2 (Hf2 & Ho2 & Hgone & Hok2). apply mwp_ret. constructor; cbn [fst snd]; rewrite ?Harch.
  - intros [_ Hcl]%join_clean. by eapply objects_restored_from, Hobj.
  - done.
  - intros p Hu Hpne. rewrite Ho2 by done. by apply Hfiles.
  - intros _ Hcond. assert (Ec : c = Ok tt).
    { destruct Hcond as [Hscr|[[Hcl _]%join_clean _]]; [by apply Hok2, Hq|]. by destruct c as [[]|]. }
    assert (Hroot : under (workspace_dir (se_fifoDir e) id) (workspace_root (se_fifoDir e)) = false)
      by (apply under_short; unfold workspace_dir; rewrite length_app; cbn; lia).
    apply (with_root_restored e id h t1); [done| |].
    + rewrite Ho2, Ha by (try done; by apply (apart_above (se_fifoDir e) n Hne _ []); rewrite app_nil_r).
      by apply (in_outside _ _ _ _ Hin).
    + intros p Hu. rewrite (Hgone Ec) by done. apply under_app in Hu as [q ->]. symmetry. by apply (fresh_nothing_below (se_fifoDir e) id h Hfifo).
  - intros res Hres'%join_ok. split; [done|]. destruct (Hres res Hres') as (w5 & spec & ? & ? & ?). by exists w5, [path_text (workspace_dir (se_fifoDir e) id)], spec.
Qed.
End NoResidue.

(** ** Properties *)

Section Properties.
Context {W : Type} `{RuntimeLaws W}.
Context (DP : OciSpec -> option Seccomp) (tar_items : bytes -> list (option tar_entry)).
Context (WithImageConfig : OciSpec -> result OciSpec).
Context (cdi_refresh : result unit) (InjectDevices : list string -> OciSpec -> result OciSpec).

(** The namespace holds no object of an execution. *)
Definition residue_free (w : W) : Prop :=
  forall n, managed_name n = true -> (n ∉ rt_containers w) /\ (n ∉ rt_snapshots w).

Lemma CheckResidue_ok w h : (CheckResidue (w, h)).1 = Ok tt -> residue_free w.
Proof.
  destruct (law_list w) as [(_ & S2 & _) L1]. unfold CheckResidue, mbind, m_bind, api. cbn [fst snd].
  destruct (ListContainers w) as [[l|e] w1] eqn:El; [|done]. specialize (L1 l eq_refl). cbn [snd] in S2.
  destruct (Z.eqb_spec (llen l) 0) as [Hz|]; [|done]. apply llen_zero in Hz as ->. cbn [negb fst snd].
  destruct (law_walk w1) as [_ L2]. destruct (WalkSnapshots w1) as [[l2|e] w2] eqn:Ew; [|done].
  specialize (L2 l2 eq_refl). cbn [mret m_ret fst]. rewrite fail_if_ok, existsb_false, Forall_forall.
  intros Hnone n Hn. split.
  - intros Hin. eapply elem_of_nil, L1. done.
  - intros Hin. rewrite <- S2 in Hin. assert (Hl : n ∈ l2) by (by apply L2).
    apply Hnone in Hl. apply Z.eqb_neq in Hl. apply hex_pattern_spec in Hn as (t & -> & Ht & _).
    apply Hl. unfold len. cbn. by rewrite Ht.
Qed.

(** C14. No residue: when no clean-up step of a run reported an error, the
    snapshots of the namespace are those from before, and so are the containers
    and the tasks, unless containerd reported that a creation failed and had made
    its object; a clean namespace stays clean.  However the run ends and
    whatever fails, it follows no symbolic link, and outside its own workspace it
    changes only the FIFO files containerd made, under a name of the FIFO
    directory that was unused.  Its workspace is gone when it was prepared and no
    clean-up error was reported, and when no file operation failed. *)
Theorem run_leaves_no_residue e id request input devices duration w h r w' h'
    (Hfifo : fifo_ok (se_fifoDir e) h) (Hdisk : u64 (lim_DiskBytes (cr_Limits request)))
    (Hrun : Run DP tar_items WithImageConfig cdi_refresh InjectDevices e id request input devices duration (w, h)
            = (r, (w', h'))) :
  (clean_end r ->
     rt_snapshots w' = rt_snapshots w /\
     (rt_containers w' = rt_containers w \/ container_lost id w w') /\
     (id ∉ rt_tasks w -> rt_tasks w' = rt_tasks w \/ task_lost id w w') /\
     ((CheckResidue (w, h)).1 = Ok tt -> residue_free w' \/ container_lost id w w')) /\
  h_followed h' = h_followed h /\
  (forall p, under (workspace_dir (se_fifoDir e) id) p = false -> p <> workspace_root (se_fifoDir e) ->
     h_tree h' !! p = h_tree h !! p \/ fifo_file e (cr_WorkspaceArchive request) h p) /\
  (cr_WorkspaceArchive request = true ->
     h_script h = [] \/ clean_end r /\
       is_ok (prepareWorkspace tar_items (se_fifoDir e) id input (lim_DiskBytes (cr_Limits request)) h).1 = true ->
     workspace_restored e id h h').
Proof.
  pose proof (Run_spec DP tar_items WithImageConfig cdi_refresh InjectDevices e id request input devices duration w h
                Hfifo Hdisk) as [Ho Hl Hf Hw _].
  rewrite Hrun in Ho, Hf, Hl, Hw. cbn [fst snd] in *. split_and!; [|done..].
  intros Hcl. destruct (Ho Hcl) as (Es & Ec & Et). split_and!; try done.
  intros Hres%CheckResidue_ok. destruct Ec as [Ec|Ec]; [left|by right]. intros n Hn. rewrite Ec, Es. by apply Hres.
Qed.

(** Results come from isolation: a run that returns a result for a request
    the driver accepts ran the configured image in a container with the
    promised isolation, into which at most the assigned devices were injected;
    its output is everything the container wrote, within the limit. *)
Theorem run_result_isolated e id request input devices duration w h res s'
    (Hfifo : fifo_ok (se_fifoDir e) h) (Hwf : Limits_wf (cr_Limits request))
    (Hreq : validateRequest request input (llen devices) = Ok tt)
    (Hrun : Run DP tar_items WithImageConfig cdi_refresh InjectDevices e id request input devices duration (w, h)
            = (RunOk res, s')) :
  cr_ImageDigest request = se_imageDigest e /\
  exists w1 w2 spec isolated, rt_spec w1 id = Some spec /\ isolation request isolated /\
    (spec = isolated \/ devices <> [] /\ InjectDevices devices isolated = Ok spec) /\
    res_Output res = concat_bytes (TaskOutput id w2) /\ len (res_Output res) <= lim_OutputBytes (cr_Limits request) /\
    us_Duration (res_Usage res) = duration /\ 0 < duration.
Proof.
  assert (Hd : u64 (lim_DiskBytes (cr_Limits request))) by apply Hwf.
  pose proof (Run_spec DP tar_items WithImageConfig cdi_refresh InjectDevices e id request input devices duration w h
                Hfifo Hd) as [_ _ _ _ Hr].
  rewrite Hrun in Hr. cbn [fst] in Hr. destruct (Hr res eq_refl) as (Himg & w1 & src & spec & Hspec & Htask & generated & Hopt).
  split; [done|]. destruct Htask as (w2 & _ & Hout & Hex & Hdur & Hu).
  unfold spec_options in Hopt. destruct generated as [g|]; [|done].
  apply rbind_ok in Hopt as (g1 & _ & Hopt). apply rbind_ok in Hopt as (iso & Hiso & Hopt).
  apply rbind_ok in Hopt as (spec' & Hcdi & Hopt). destruct spec' as [spec'|]; [|done]. injection Hopt as ->.
  exists w1, w2, spec, iso. split_and!; try done; [by eapply isolation_holds| | |].
  - unfold specOpt in Hcdi. destruct devices as [|d ds]; [left; congruence|].
    destruct (se_cdi e); [|done]. destruct cdi_refresh; [|done].
    destruct (InjectDevices (d :: ds) iso) eqn:E; [|done]. right. split; [done|]. congruence.
  - rewrite Hout. by apply bounded_output_complete; [apply Hwf|].
  - rewrite Hout. apply bounded_output_length, Hwf.
Qed.
End Properties.

(** ** A runtime

    A small runtime that satisfies the laws: containers, snapshots and tasks
    are sets, every container's task prints the same text and exits. *)
Module Toy.
Record toy := Toy {
  ty_containers : gset string;
  ty_snapshots : gset string;
  ty_tasks : gset string;
  ty_specs : gmap string OciSpec;
  ty_fifos : gmap string tpath;
}.

Definition new (id : string) (opts : option OciSpec -> result OciSpec) (w : toy) : answer * toy :=
  match opts (Some SpecSamples.generated) with
  | Err e => (Failed e, Toy (ty_containers w) ({[id]} ∪ ty_snapshots w) (ty_tasks w) (ty_specs w) (ty_fifos w))
  | Ok spec => (Fine, Toy ({[id]} ∪ ty_containers w) ({[id]} ∪ ty_snapshots w) (ty_tasks w) (<[id := spec]> (ty_specs w)) (ty_fifos w))
  end.

(** The FIFO files of a task are in a directory with its name. *)
Definition new_task (id : string) (dir : tpath) (s : toy * gmap tpath node) : answer * (toy * gmap tpath node) :=
  let '(w, t) := s in
  match t !! (dir ++ [id]) with
  | None => (Fine, (Toy (ty_containers w) (ty_snapshots w) ({[id]} ∪ ty_tasks w) (ty_specs w) (<[id := dir ++ [id]]> (ty_fifos w)),
                    <[dir ++ [id; "stdout"] := Node Regular o700 true ""]> (<[dir ++ [id] := new_dir o700]> t)))
  | Some _ => (Failed "file exists", s)
  end.

Definition delete_task (id : string) (s : toy * gmap tpath node) : answer * (toy * gmap tpath node) :=
  let '(w, t) := s in
  (if decide (id ∈ ty_tasks w) then Fine else NotFound,
   (Toy (ty_containers w) (ty_snapshots w) (ty_tasks w ∖ {[id]}) (ty_specs w) (ty_fifos w),
    match ty_fifos w !! id with Some d => without d t | None => t end)).

Definition found (s : gset string) (id : string) : answer := if decide (id ∈ s) then Fine else NotFound.

#[export] Instance toy_runtime : Runtime toy := {
  rt_containers := ty_containers; rt_snapshots := ty_snapshots; rt_tasks := ty_tasks;
  rt_spec w id := ty_specs w !! id; rt_fifos w id := ty_fifos w !! id;
  Version w := (Ok tt, w);
  ListContainers w := (Ok (filter (fun n => managed_name n = true) (elements (ty_containers w))), w);
  WalkSnapshots w := (Ok (filter (fun n => managed_name n = true) (elements (ty_snapshots w))), w);
  GetImage _ w := (Ok Executor.Samples.image, w);
  IsUnpacked w := (Ok true, w);
  LoadContainer id w := (found (ty_containers w) id, w);
  StatSnapshot id w := (found (ty_snapshots w) id, w);
  NewContainer := new;
  NewTask id dir _ := new_task id dir;
  WaitTask _ w := (Fine, w);
  StartTask _ w := (Fine, w);
  AwaitExit _ w := (Exited 0 None, w);
  TaskOutput _ _ := ["hel"; "lo"];
  TaskMetrics id w := (Some (id, Some (Some {| mt_UsageUsec := Some 1500; mt_Memory := Some (4096, 8192);
                                               mt_Io := [Some 10] |})), w);
  DeleteTask := delete_task;
  DeleteContainer id w :=
    if decide (id ∈ ty_containers w)
    then (Fine, Toy (ty_containers w ∖ {[id]}) (ty_snapshots w ∖ {[id]}) (ty_tasks w) (ty_specs w) (ty_fifos w)) else (NotFound, w);
  RemoveSnapshot id w :=
    if decide (id ∈ ty_snapshots w)
    then (Fine, Toy (ty_containers w) (ty_snapshots w ∖ {[id]}) (ty_tasks w) (ty_specs w) (ty_fifos w)) else (NotFound, w);
}.

Lemma found_missing s id : found s id = NotFound -> id ∉ s.
Proof. unfold found. by case_decide. Qed.

Lemma fresh_name (dir : tpath) (t : gmap tpath node) : exists n, t !! (dir ++ [n]) = None.
Proof.
  pose (used := set_map (D:=gset string) (fun p => default "" (last p)) (dom t)). exists (fresh used).
  apply not_elem_of_dom. intros Hin. apply (is_fresh used). apply elem_of_map. exists (dir ++ [fresh used]).
  by rewrite last_snoc.
Qed.

Lemma new_task_laws id dir w t : let '(a, (w', t')) := new_task id dir (w, t) in
  ty_containers w' = ty_containers w /\ ty_snapshots w' = ty_snapshots w /\ (forall i, ty_specs w' !! i = ty_specs w !! i) /\
  exists n, t !! (dir ++ [n]) = None /\ apart_from (dir ++ [n]) t t' /\
    match a with
    | Fine => ty_tasks w' = {[id]} ∪ ty_tasks w /\ ty_fifos w' !! id = Some (dir ++ [n])
    | _ => ty_tasks w' ∖ {[id]} = ty_tasks w ∖ {[id]}
    end.
Proof.
  unfold new_task. destruct (t !! (dir ++ [id])) as [x|] eqn:E.
  - split_and!; try done. destruct (fresh_name dir t) as [n Hn]. by exists n.
  - split_and!; try done. exists id. split_and!; [done| |done|cbn; by rewrite lookup_insert_eq].
    intros p Hp. rewrite !lookup_insert_ne; [done| |]; intros <-; apply not_true_iff_false in Hp; apply Hp, under_app;
      [by exists []; rewrite app_nil_r|exists ["stdout"]; by rewrite <- app_assoc].
Qed.

#[export] Instance toy_laws : RuntimeLaws toy.
Proof.
  constructor; try (intros; by split_and!); try (intros; intros w; by split_and!).
  - intros w. split; [done|]. intros l [= <-] n. by rewrite list_elem_of_filter, elem_of_elements, (comm and).
  - intros w. split; [done|]. intros l [= <-] n. by rewrite list_elem_of_filter, elem_of_elements, (comm and).
  - intros id w. split; [done|]. apply found_missing.
  - intros id w. split; [done|]. apply found_missing.
  - intros id opts w. cbn. unfold new. destruct (opts (Some SpecSamples.generated)) as [spec|e] eqn:E; cbn; split_and!; try done.
    + exists (Some SpecSamples.generated), spec. by rewrite lookup_insert_eq.
    + set_solver.
  - intros id dir stdin w t. apply new_task_laws.
  - intros id w t. cbn. split_and!; try done.
    + intros d -> p Hp. by rewrite without_lookup, Hp.
    + by case_decide.
  - intros id w. cbn. by case_decide.
  - intros id w. cbn. by case_decide.
Qed.

Definition empty : toy := Toy ∅ ∅ ∅ ∅ ∅.
Definition engine : sdkEngine :=
  {| se_fifoDir := WorkspaceSamples.fifo; se_imageReference := "tool@x"; se_imageDigest := Executor.Samples.image;
     se_cdi := false |}.
Definition id1 : string := str_drop 7 Executor.Samples.image.
Definition image_config (s : OciSpec) : result OciSpec := Ok s.
Definition no_devices (_ : list string) (_ : OciSpec) : result OciSpec := Err "none".

Definition outcome :=
  Run SpecSamples.profile WorkspaceSamples.good image_config (Ok tt) no_devices engine id1 SpecSamples.request
    "archive" [] 5000 (empty, WorkspaceSamples.start).
Definition files_after : hfs := Eval vm_compute in outcome.2.2.
Definition world_after : toy := Eval vm_compute in outcome.2.1.
Definition result1 : Result :=
  {| res_ExitCode := 0; res_Output := "hello";
     res_Usage := {| us_CPUMillis := 2; us_PeakMemory := 8192; us_DiskWritten := 10; us_Duration := 5000 |} |}.

Lemma outcome_ok : outcome = (RunOk result1, (world_after, files_after)).
Proof. vm_compute. reflexivity. Qed.
End Toy.
#[export] Existing Instance Toy.toy_runtime.
#[export] Existing Instance Toy.toy_laws.

Lemma run_leaves_no_residue_witness :
  rt_snapshots Toy.world_after = ∅ /\ residue_free Toy.world_after /\ h_tree Toy.files_after !! ["run"; "fifo"; Toy.id1] = None /\
  workspace_restored Toy.engine Toy.id1 WorkspaceSamples.start Toy.files_after.
Proof.
  destruct (run_leaves_no_residue SpecSamples.profile WorkspaceSamples.good Toy.image_config (Ok tt) Toy.no_devices
              Toy.engine Toy.id1 SpecSamples.request "archive" [] 5000 Toy.empty WorkspaceSamples.start _ _ _
              WorkspaceSamples.start_ok ltac:(by_compute) Toy.outcome_ok) as (Ho & _ & _ & Hf).
  destruct (Ho I) as (Hs & _ & _ & Hres). split; [exact Hs|]. split.
  - destruct (Hres ltac:(vm_compute; reflexivity)) as [Hr|(opts & w1 & _ & _ & _ & Hin)]; [exact Hr|].
    exfalso. revert Hin. by_compute.
  - split; [vm_compute; reflexivity|]. apply Hf; [reflexivity|]. right. split; [exact I|vm_compute; reflexivity].
Defined.

(** The removal of a refused workspace ignores its error: the run ends without
    a clean-up error, and its directory is still there. *)
Example refused_workspace_left :
  let '(r, (_, h)) := Run SpecSamples.profile WorkspaceSamples.evil Toy.image_config (Ok tt) Toy.no_devices Toy.engine Toy.id1
      SpecSamples.request "archive" [] 5000
      (Toy.empty, Hfs (h_tree WorkspaceSamples.start) (replicate 8 Runs ++ [Fails 100]) []) in
  r = RunErr (Some "invalid containerd workspace path") [] /\
  h_tree h !! workspace_dir WorkspaceSamples.fifo Toy.id1 = Some (new_dir o700).
Proof. vm_compute. split; reflexivity. Qed.

Lemma run_result_isolated_witness :
  cr_ImageDigest SpecSamples.request = se_imageDigest Toy.engine /\ len (res_Output Toy.result1) <= 64.
Proof.
  destruct (run_result_isolated SpecSamples.profile WorkspaceSamples.good Toy.image_config (Ok tt) Toy.no_devices
              Toy.engine Toy.id1 SpecSamples.request "archive" [] 5000 Toy.empty WorkspaceSamples.start _ _
              WorkspaceSamples.start_ok ltac:(by_compute) ltac:(vm_compute; reflexivity) Toy.outcome_ok)
    as (Hi & w1 & w2 & spec & iso & _ & _ & _ & _ & Hl & _).
  split; [exact Hi | exact Hl].
Defined.
