(* ===== verification/ContainerdBackend.v ===== *)
(** * pkg/executor/containerdbackend/backend.go: the backend's lifecycle

    [Backend] admits at most a fixed number of runs, one per execution
    identity, and closes in order: it cancels every run, waits for the probes
    and the runs, closes the engine and releases the ownership lock.  The
    critical sections are functions; the interleavings of [CheckReady],
    [RunIsolated] and [Close] are a transition system.  Opening checks the
    private socket and FIFO directory on the tree of [Workspace]. *)

From S2P Require Import Prelude GoStd Executor FS Supervisor ContainerdSpec Workspace.

(** ** Construction *)

Inductive run_phase := InEngine | Returned.
#[export] Instance run_phase_eq_dec : EqDecision run_phase.
Proof. solve_decision. Defined.

(** A run: its identity, where it is, and whether its context was cancelled. *)
Record run := Run { rn_digest : string; rn_phase : run_phase; rn_cancelled : bool }.

Inductive closing :=
| Open_
| Cancelling (left : list string)   (* the cancel functions still to be called *)
| WaitProbes
| WaitRuns
| EngineClosed
| Released.

Record Backend := {
  bk_maximum : Z;
  bk_gpuDevices : gmap string string;
  bk_active : gset string;
  bk_closed : bool;
  bk_probes : nat;
  bk_runs : nat;
  bk_closing : closing;
  bk_threads : list run;
}.

Definition cloneDeviceMap (values : gmap string string) : gmap string string := list_to_map (map_to_list values).

(** A call of the engine that returns only an error: [None] is a panic. *)
Definition callReady (o : option (option string)) : option string :=
  match o with Some err => err | None => Some "containerd readiness panicked" end.
Definition callResidue (o : option (option string)) : option string :=
  match o with Some err => err | None => Some "containerd residue check panicked" end.
Definition callClose (o : option (option string)) : option string :=
  match o with
  | None => Some "containerd close panicked"
  | Some (Some _) => Some "close containerd runtime"
  | Some None => None
  end.
Definition callRun (o : option (Result * option string)) : Result * option string :=
  match o with Some r => r | None => (ZeroResult, Some "containerd execution panicked") end.

Definition newBackendWithDevices (ctx_nil engine_nil : bool) (ready residue : option (option string))
    (maximum : Z) (devices : gmap string string) : result Backend :=
  fail_if (ctx_nil || engine_nil || (maximum <=? 0) || (MaxSupervisedActiveHard <? maximum)) "invalid containerd backend" ;;;
  fail_if (bool_decide (is_Some (callReady ready))) "containerd backend is unavailable" ;;;
  fail_if (bool_decide (is_Some (callResidue residue))) "containerd backend namespace is not clean" ;;;
  Ok {| bk_maximum := maximum; bk_gpuDevices := cloneDeviceMap devices; bk_active := ∅; bk_closed := false;
        bk_probes := 0; bk_runs := 0; bk_closing := Open_; bk_threads := [] |}.

(** ** Runs *)

(** The checks of [runIsolated] before its critical section. *)
Definition run_checks (ctx : option (option string)) (request : ContainerRequest) (input : bytes)
    (devices : list string) : result unit :=
  match ctx with
  | None => Err "invalid containerd backend request"
  | Some (Some err) => Err err
  | Some None => validateRequest request input (llen devices)
  end.

Definition set_run (b : Backend) (active : gset string) (runs : nat) (threads : list run) : Backend :=
  {| bk_maximum := bk_maximum b; bk_gpuDevices := bk_gpuDevices b; bk_active := active; bk_closed := bk_closed b;
     bk_probes := bk_probes b; bk_runs := runs; bk_closing := bk_closing b; bk_threads := threads |}.

Definition set_closing (b : Backend) (closed : bool) (probes : nat) (c : closing) (threads : list run) : Backend :=
  {| bk_maximum := bk_maximum b; bk_gpuDevices := bk_gpuDevices b; bk_active := bk_active b; bk_closed := closed;
     bk_probes := probes; bk_runs := bk_runs b; bk_closing := c; bk_threads := threads |}.

(** The critical section of [runIsolated]. *)
Definition enter (b : Backend) (digest : string) : result Backend :=
  fail_if (bk_closed b) "containerd backend is closed" ;;;
  fail_if (bk_maximum b <=? Z.of_nat (size (bk_active b))) "containerd backend capacity is exhausted" ;;;
  fail_if (bool_decide (digest ∈ bk_active b)) "containerd execution is already active" ;;;
  Ok (set_run b ({[digest]} ∪ bk_active b) (S (bk_runs b)) (Run digest InEngine false :: bk_threads b)).

(** What [runIsolated] returns after [callRun]. *)
Definition run_outcome (ctxErr : option string) (engine : option (Result * option string)) : result Result :=
  let '(r, err) := callRun engine in
  match ctxErr with
  | Some e => Err e
  | None => match err with Some _ => Err "containerd execution failed" | None => Ok r end
  end.

(** [runtimeID]: the digest without its prefix. *)
Definition runtimeID (digest : string) : string := str_drop (String.length "sha256:") digest.

(** The loop of [RunIsolatedOnDevices]. *)
Fixpoint assign (gpuDevices : gmap string string) (seen : gset string) (aliases : list string) : result (list string) :=
  match aliases with
  | [] => Ok []
  | alias :: rest =>
      match gpuDevices !! alias with
      | None => Err "unknown GPU device alias"
      | Some device =>
          fail_if (bool_decide (alias ∈ seen)) "duplicate GPU device alias" ;;;
          let* devices := assign gpuDevices ({[alias]} ∪ seen) rest in
          Ok (device :: devices)
      end
  end.

Definition assign_devices (b : option Backend) (request : ContainerRequest) (aliases : list string)
    : result (list string) :=
  match b with
  | None => Err "invalid containerd backend request"
  | Some b =>
      fail_if ((llen aliases =? 0) || negb (llen aliases =? lim_GPUDeviceCount (cr_Limits request)))
        "invalid GPU device assignment" ;;;
      assign (bk_gpuDevices b) ∅ aliases
  end.

(** ** Readiness *)

Definition ready_checks (ctx : option (option string)) : result unit :=
  match ctx with
  | None => Err "invalid containerd backend readiness request"
  | Some (Some err) => Err err
  | Some None => Ok tt
  end.

Definition probe_enter (b : Backend) : result Backend :=
  fail_if (bk_closed b) "containerd backend is closed" ;;;
  Ok (set_closing b (bk_closed b) (S (bk_probes b)) (bk_closing b) (bk_threads b)).

Definition ready_outcome (ctxErr : option string) (engine : option (option string)) : result unit :=
  match callReady engine with
  | None => Ok tt
  | Some _ => match ctxErr with Some e => Err e | None => Err "containerd backend is unavailable" end
  end.

(** ** Interleavings *)

(** Calling the cancel function of an execution. *)
Definition cancel_run (digest : string) (r : run) : run :=
  if decide (rn_digest r = digest /\ rn_phase r = InEngine) then Run (rn_digest r) (rn_phase r) true else r.

Inductive bstep : Backend -> Backend -> Prop :=
| bs_enter b d b' : digest_pattern d = true -> enter b d = Ok b' -> bstep b b'
| bs_delete b d c l1 l2 : bk_threads b = l1 ++ Run d InEngine c :: l2 ->
    bstep b (set_run b (bk_active b ∖ {[d]}) (bk_runs b) (l1 ++ Run d Returned c :: l2))
| bs_done b d c l1 l2 : bk_threads b = l1 ++ Run d Returned c :: l2 ->
    bstep b (set_run b (bk_active b) (bk_runs b - 1) (l1 ++ l2))
| bs_probe b b' : probe_enter b = Ok b' -> bstep b b'
| bs_probe_end b n : bk_probes b = S n -> bstep b (set_closing b (bk_closed b) n (bk_closing b) (bk_threads b))
| bs_close b l : bk_closing b = Open_ -> l ≡ₚ elements (bk_active b) ->
    bstep b (set_closing b true (bk_probes b) (Cancelling l) (bk_threads b))
| bs_cancel b d l : bk_closing b = Cancelling (d :: l) ->
    bstep b (set_closing b (bk_closed b) (bk_probes b) (Cancelling l) (cancel_run d <$> bk_threads b))
| bs_wait b : bk_closing b = Cancelling [] ->
    bstep b (set_closing b (bk_closed b) (bk_probes b) WaitProbes (bk_threads b))
| bs_probes b : bk_closing b = WaitProbes -> bk_probes b = 0%nat ->
    bstep b (set_closing b (bk_closed b) (bk_probes b) WaitRuns (bk_threads b))
| bs_engine b : bk_closing b = WaitRuns -> bk_runs b = 0%nat ->
    bstep b (set_closing b (bk_closed b) (bk_probes b) EngineClosed (bk_threads b))
| bs_release b : bk_closing b = EngineClosed ->
    bstep b (set_closing b (bk_closed b) (bk_probes b) Released (bk_threads b)).

(** ** Opening *)

Definition h_socket (n : node) : bool := bool_decide (n_kind n = Socket) && (n_perm n =? o600) && n_owned n.

Definition validatePrivateSocket (path : list string) : H (result unit) :=
  attempt parent_ := h_lstat (parent path) else "containerd socket directory is not private" in
  if negb (private_directory parent_) then mret (Err "containerd socket directory is not private") else
  attempt info := h_lstat path else "containerd socket is not private" in
  mret (fail_if (negb (h_socket info)) "containerd socket is not private").

(** The names in a directory. *)
Definition entries_of (t : gmap (list string) node) (d : list string) : list string :=
  omap (fun p => match p with
                 | [] => None
                 | _ => if decide (parent p = d) then Some (List.last p "") else None
                 end) (map_to_list t).*1.

(** [directory.Readdirnames(n)] of an opened directory. *)
Definition h_readdir (d : list string) : H (result (list string)) :=
  x ← next_fault;
  t ← get_tree;
  mret (match x with
        | Fails _ => Err "input/output error"
        | Runs => match t !! d with
                  | Some n => if bool_decide (n_kind n = Directory) then Ok (entries_of t d) else Err "not a directory"
                  | None => Err "no such file or directory"
                  end
        end).

Definition ownershipLockName : string := ".containerd-backend.lock".

Definition validateEmptyWorkspaceRoot (path : list string) : H (result unit) :=
  attempt info := h_lstat path else "containerd workspace residue is invalid" in
  if negb (private_directory info) then mret (Err "containerd workspace residue is invalid") else
  attempt names := h_readdir path else "inspect containerd workspace residue" in
  mret (fail_if (negb (llen (take 1 names) =? 0)) "containerd workspace residue is present").

Fixpoint check_names (path : list string) (names : list string) : H (result unit) :=
  match names with
  | [] => mret (Ok tt)
  | name :: rest =>
      if name =s? workspaceRootName then
        r ← validateEmptyWorkspaceRoot (path ++ [name]);
        match r with Ok _ => check_names path rest | Err e => mret (Err e) end
      else if name <>s? ownershipLockName then mret (Err "containerd FIFO residue is present")
      else check_names path rest
  end.

Definition validateFIFODir (path : list string) : H (result unit) :=
  attempt names := h_readdir path else "inspect containerd FIFO directory" in
  check_names path (take (Z.to_nat (MaxSupervisedActiveHard + 2)) names).

(** [filepath.Clean]ed absolute paths as components. *)
Definition components (p : string) : list string := tail (str_split "/" p).

(** What [Open] holds when it returns. *)
Inductive resource := Ownership | Engine.
#[export] Instance resource_eq_dec : EqDecision resource.
Proof. solve_decision. Defined.

(** [Close] of some of the held resources. *)
Definition release (rs held : list resource) : list resource := filter (fun r => r ∉ rs) held.

Section OpenBackend.
Variable ParseQualifiedName : string -> option (string * string * string).

(** [Open].  [lock] and [engine] tell whether [dirlock.Acquire] and
    [newSDKEngine] succeed, [ready] and [residue] what the engine answers. *)
Definition Open (ctx : option (option string)) (config : Config) (lock engine : bool)
    (ready residue : option (option string)) : H (result Backend * list resource) :=
  match ctx with
  | None => mret (Err "containerd backend context is required", [])
  | Some (Some err) => mret (Err err, [])
  | Some None =>
  let config := withConfigDefaults config in
  match validateConfig ParseQualifiedName config with
  | Err e => mret (Err e, [])
  | Ok _ =>
  r ← validatePrivateSocket (components (cfg_SocketPath config));
  match r with
  | Err e => mret (Err e, [])
  | Ok _ =>
  r ← ensurePrivateDirectory (components (cfg_FIFODir config));
  match r with
  | Err e => mret (Err e, [])
  | Ok _ =>
  if negb lock then mret (Err "containerd backend namespace is already owned", []) else
  let held := [Ownership] in
  r ← validateFIFODir (components (cfg_FIFODir config));
  match r with
  | Err e => mret (Err e, release [Ownership] held)
  | Ok _ =>
  if negb engine then mret (Err "open containerd backend", release [Ownership] held) else
  let held := Engine :: held in
  match newBackendWithDevices false false ready residue (cfg_MaxActive config) (cfg_GPUDevices config) with
  | Err e => mret (Err e, release [Engine; Ownership] held)
  | Ok b => mret (Ok b, held)
  end end end end end end.
End OpenBackend.

(** ** The lifecycle's invariant *)

Definition in_engine (b : Backend) : list string :=
  rn_digest <$> filter (fun r => rn_phase r = InEngine) (bk_threads b).

(** Once closing, a run that is still in the engine was cancelled, or its
    cancel function is about to be called. *)
Definition cancel_pending (b : Backend) (r : run) : Prop :=
  rn_phase r = InEngine -> rn_cancelled r = true \/ exists l, bk_closing b = Cancelling l /\ rn_digest r ∈ l.

(** The probes have ended; the runs have ended. *)
Definition probes_over (c : closing) : Prop :=
  match c with WaitRuns | EngineClosed | Released => True | _ => False end.
Definition runs_over (c : closing) : Prop := match c with EngineClosed | Released => True | _ => False end.

Record backend_inv (b : Backend) : Prop := {
  bi_active : forall d, d ∈ bk_active b <-> d ∈ in_engine b;
  bi_nodup : NoDup (in_engine b);
  bi_capacity : Z.of_nat (size (bk_active b)) <= Z.max 0 (bk_maximum b);
  bi_runs : bk_runs b = length (bk_threads b);
  bi_closed : bk_closed b = true <-> bk_closing b <> Open_;
  bi_cancel : bk_closing b <> Open_ -> Forall (cancel_pending b) (bk_threads b);
  bi_probes : probes_over (bk_closing b) -> bk_probes b = 0%nat;
  bi_drained : runs_over (bk_closing b) -> bk_threads b = [];
}.

Lemma in_engine_mid l1 d ph c l2 :
  rn_digest <$> filter (fun r => rn_phase r = InEngine) (l1 ++ Run d ph c :: l2) =
  (rn_digest <$> filter (fun r => rn_phase r = InEngine) l1) ++ (if decide (ph = InEngine) then [d] else []) ++
  (rn_digest <$> filter (fun r => rn_phase r = InEngine) l2).
Proof. rewrite filter_app, fmap_app, filter_cons. cbn [rn_phase]. by case_decide. Qed.

Lemma cancel_in_engine d (l : list run) :
  rn_digest <$> filter (fun r => rn_phase r = InEngine) (cancel_run d <$> l) =
  rn_digest <$> filter (fun r => rn_phase r = InEngine) l.
Proof.
  induction l as [|r l IH]; [done|]. rewrite fmap_cons, !filter_cons.
  assert (E : rn_phase (cancel_run d r) = rn_phase r) by (unfold cancel_run; by case_decide).
  assert (E' : rn_digest (cancel_run d r) = rn_digest r) by (unfold cancel_run; by case_decide).
  rewrite E. case_decide; [|done]. by rewrite !fmap_cons, E', IH.
Qed.

Lemma inv_enter b d b' : backend_inv b -> enter b d = Ok b' -> backend_inv b'.
Proof.
  intros [Ia In Ic Ir Icl Ica Ip Id] E. unfold enter in E.
  rewrite !then_ok, !fail_if_ok in E. destruct E as (Ho & Hcap & Hd & [= <-]).
  apply Z.leb_gt in Hcap. apply bool_decide_eq_false in Hd.
  assert (Hopen : bk_closing b = Open_).
  { destruct (bk_closing b) eqn:E; [done|..]; exfalso;
      (assert (bk_closed b = true) by (by apply Icl)); congruence. }
  constructor; unfold in_engine; cbn [set_run bk_active bk_runs bk_threads bk_closing bk_closed bk_probes bk_maximum];
    rewrite ?filter_cons; cbn [rn_phase]; rewrite ?decide_True by done; rewrite ?fmap_cons; cbn [rn_digest].
  - intros x. rewrite elem_of_union, elem_of_singleton, elem_of_cons, Ia. done.
  - apply NoDup_cons. split; [by rewrite <- Ia|done].
  - rewrite size_union, size_singleton by set_solver. lia.
  - cbn [length]. by rewrite Ir.
  - done.
  - by rewrite Hopen.
  - by rewrite Hopen.
  - by rewrite Hopen.
Qed.

Lemma cancel_pending_mono b b' r :
  bk_closing b' = bk_closing b -> cancel_pending b r -> cancel_pending b' r.
Proof. unfold cancel_pending. by intros ->. Qed.

Lemma inv_delete b d c l1 l2 :
  backend_inv b -> bk_threads b = l1 ++ Run d InEngine c :: l2 ->
  backend_inv (set_run b (bk_active b ∖ {[d]}) (bk_runs b) (l1 ++ Run d Returned c :: l2)).
Proof.
  intros [Ia In Ic Ir Icl Ica Ip Id] Ht. unfold in_engine in *. rewrite Ht, in_engine_mid, decide_True in * by done.
  apply NoDup_app in In as (N1 & N12 & [N2 N3]%NoDup_cons).
  constructor; unfold in_engine; cbn [set_run bk_active bk_runs bk_threads bk_closing bk_closed bk_probes bk_maximum];
    rewrite ?in_engine_mid, ?decide_False by done; cbn [app].
  - set_solver.
  - apply NoDup_app. set_solver.
  - assert (size (bk_active b ∖ {[d]}) <= size (bk_active b))%nat by (apply subseteq_size; set_solver). lia.
  - rewrite Ir, !length_app. done.
  - done.
  - intros Hcl. specialize (Ica Hcl). rewrite !Forall_app, !Forall_cons in *. destruct Ica as (F1 & _ & F2).
    split_and!; try (by eapply Forall_impl; [done|]; intros r; apply cancel_pending_mono). by intros ?.
  - done.
  - intros Hd. by destruct l1; specialize (Id Hd).
Qed.

Lemma inv_done b d c l1 l2 :
  backend_inv b -> bk_threads b = l1 ++ Run d Returned c :: l2 ->
  backend_inv (set_run b (bk_active b) (bk_runs b - 1) (l1 ++ l2)).
Proof.
  intros [Ia In Ic Ir Icl Ica Ip Id] Ht. unfold in_engine in *. rewrite Ht, in_engine_mid, decide_False in * by done.
  cbn [app] in *.
  constructor; unfold in_engine; cbn [set_run bk_active bk_runs bk_threads bk_closing bk_closed bk_probes bk_maximum];
    rewrite ?filter_app, ?fmap_app; try done.
  - rewrite Ir, !length_app. cbn [length]. lia.
  - intros Hcl. specialize (Ica Hcl). rewrite !Forall_app, !Forall_cons in *. destruct Ica as (F1 & _ & F2).
    split; (eapply Forall_impl; [done|]; intros r; apply cancel_pending_mono; done).
  - intros Hd. by destruct l1; specialize (Id Hd).
Qed.

Lemma inv_close b l :
  backend_inv b -> bk_closing b = Open_ -> l ≡ₚ elements (bk_active b) ->
  backend_inv (set_closing b true (bk_probes b) (Cancelling l) (bk_threads b)).
Proof.
  intros [Ia In Ic Ir Icl Ica Ip Id] Ho Hl.
  constructor; cbn [set_closing bk_active bk_runs bk_threads bk_closing bk_closed bk_probes bk_maximum]; try done.
  intros _. apply Forall_forall. intros r Hr Hph. right. exists l. split; [done|]. rewrite Hl. apply elem_of_elements, Ia.
  unfold in_engine. apply list_elem_of_fmap. exists r. split; [done|]. by apply list_elem_of_filter.
Qed.

Lemma inv_cancel b d l :
  backend_inv b -> bk_closing b = Cancelling (d :: l) ->
  backend_inv (set_closing b (bk_closed b) (bk_probes b) (Cancelling l) (cancel_run d <$> bk_threads b)).
Proof.
  intros [Ia In Ic Ir Icl Ica Ip Id] Hc.
  assert (Hcl : bk_closed b = true) by (apply Icl; congruence).
  constructor; unfold in_engine in *; cbn [set_closing bk_active bk_runs bk_threads bk_closing bk_closed bk_probes bk_maximum];
    rewrite ?cancel_in_engine, ?length_fmap; try done.
  intros _. rewrite Forall_fmap. specialize (Ica ltac:(congruence)). eapply Forall_impl; [exact Ica|].
  intros r Hr. unfold cancel_pending, cancel_run in *. cbn. case_decide as Hd; cbn; [by left|].
  intros Hph. destruct (Hr Hph) as [?|(l' & El & Hin)]; [by left|right]. exists l. split; [done|].
  rewrite Hc in El. injection El as <-. apply elem_of_cons in Hin as [E|Hin]; [|done].
  destruct Hd. by split.
Qed.

(** Moving on from the cancellations, and from the waits. *)
Lemma inv_advance b c :
  backend_inv b -> bk_closed b = true ->
  (bk_closing b = Cancelling [] /\ c = WaitProbes) \/
  (bk_closing b = WaitProbes /\ c = WaitRuns /\ bk_probes b = 0%nat) \/
  (bk_closing b = WaitRuns /\ c = EngineClosed /\ bk_runs b = 0%nat) \/
  (bk_closing b = EngineClosed /\ c = Released) ->
  backend_inv (set_closing b (bk_closed b) (bk_probes b) c (bk_threads b)).
Proof.
  intros [Ia In Ic Ir Icl Ica Ip Id] Hcl Hc.
  assert (Hop : bk_closing b <> Open_) by (by apply Icl).
  assert (Hne : c <> Open_) by (destruct_or! Hc; destruct_and! Hc; subst; done).
  constructor; cbn [set_closing bk_active bk_runs bk_threads bk_closing bk_closed bk_probes bk_maximum]; try done.
  - intros _. eapply Forall_impl; [by apply Ica|]. intros r Hr Hph. destruct (Hr Hph) as [?|(l & El & Hin)]; [by left|].
    destruct Hc as [[E _]|[(E & _)|[(E & _)|[E _]]]]; rewrite E in El; try done. injection El as <-.
    by apply elem_of_nil in Hin.
  - intros Hin. destruct Hc as [[_ ->]|[(_ & _ & ?)|[(E & _)|[E _]]]]; [done|done|..]; apply Ip; by rewrite E.
  - intros Hin. destruct Hc as [[_ ->]|[(_ & -> & _)|[(_ & _ & E)|[E _]]]]; [done|done|..].
    + apply length_zero_iff_nil. congruence.
    + apply Id. by rewrite E.
Qed.

Lemma inv_step b b' : backend_inv b -> bstep b b' -> backend_inv b'.
Proof.
  intros Hi Hs. assert (Hclosed : bk_closing b <> Open_ -> bk_closed b = true) by apply Hi.
  inversion Hs; subst.
  - by eapply inv_enter.
  - by eapply inv_delete.
  - by eapply inv_done.
  - unfold probe_enter in *. match goal with E : _ = Ok b' |- _ => apply then_ok in E as [Ho%fail_if_ok [= <-]] end.
    destruct Hi as [Ia In Ic Ir Icl Ica Ip Id]. constructor; try done. cbn. intros Hin. exfalso.
    assert (bk_closed b = true) by (apply Icl; intros E; by rewrite E in Hin). congruence.
  - destruct Hi as [Ia In Ic Ir Icl Ica Ip Id]. constructor; try done. cbn. intros Hin. specialize (Ip Hin). lia.
  - by apply inv_close.
  - by apply inv_cancel.
  - apply inv_advance; [done|apply Hclosed; congruence|]. by left.
  - apply inv_advance; [done|apply Hclosed; congruence|]. right; by left.
  - apply inv_advance; [done|apply Hclosed; congruence|]. do 2 right; by left.
  - apply inv_advance; [done|apply Hclosed; congruence|]. by do 3 right.
Qed.

Lemma inv_new ctx_nil engine_nil ready residue maximum devices b :
  newBackendWithDevices ctx_nil engine_nil ready residue maximum devices = Ok b -> backend_inv b.
Proof.
  unfold newBackendWithDevices. rewrite !then_ok. intros (_ & _ & _ & [= <-]).
  constructor; try done; [set_solver|apply NoDup_nil_2|].
  cbn [bk_active bk_maximum]. rewrite size_empty. lia.
Qed.

Lemma inv_reachable b b' : backend_inv b -> rtc bstep b b' -> backend_inv b'.
Proof. intros Hb Hr. induction Hr; [done|]. apply IHHr. by eapply inv_step. Qed.

Lemma maximum_constant b b' : rtc bstep b b' -> bk_maximum b' = bk_maximum b.
Proof.
  induction 1 as [|b1 b2 b3 Hs _ IH]; [done|]. rewrite IH. inversion Hs; subst; try done.
  - unfold enter in *. repeat match goal with E : _ = Ok _ |- _ => apply then_ok in E as [_ E] end. by simplify_eq.
  - unfold probe_enter in *. repeat match goal with E : _ = Ok _ |- _ => apply then_ok in E as [_ E] end. by simplify_eq.
Qed.

Lemma in_engine_size b : backend_inv b -> length (in_engine b) = size (bk_active b).
Proof.
  intros Hi. assert (E : bk_active b = list_to_set (in_engine b)).
  { apply set_eq. intros d. by rewrite elem_of_list_to_set, (bi_active b Hi). }
  rewrite E. symmetry. apply size_list_to_set, Hi.
Qed.

(** Remaining work of a closing backend. *)
Definition run_weight (r : run) : nat := match rn_phase r with InEngine => 2 | Returned => 1 end.
Definition closing_weight (c : closing) : nat :=
  match c with
  | Open_ => 0 | Cancelling l => 5 + length l | WaitProbes => 4 | WaitRuns => 3 | EngineClosed => 2 | Released => 1
  end.
Definition close_work (b : Backend) : nat :=
  (sum_list_with run_weight (bk_threads b) + bk_probes b + closing_weight (bk_closing b))%nat.

Lemma cancel_weight d l : sum_list_with run_weight (cancel_run d <$> l) = sum_list_with run_weight l.
Proof.
  induction l as [|r l IH]; [done|]. rewrite fmap_cons. cbn [sum_list_with]. rewrite IH.
  unfold run_weight, cancel_run. by case_decide.
Qed.

(** ** The FIFO directory *)

Lemma parent_last (p : list string) : p <> [] -> parent p ++ [List.last p ""] = p.
Proof. intros Hp. unfold parent. by rewrite <- (app_removelast_last "" Hp). Qed.

Lemma entry_name (p d : list string) name :
  match p with
  | [] => None
  | _ => if decide (parent p = d) then Some (List.last p "") else None
  end = Some name <-> p = d ++ [name].
Proof.
  destruct p as [|a p]; [split; [done|by destruct d]|]. case_decide as E; split.
  - intros [= Hl]. by rewrite <- (parent_last (a :: p)), E, <- Hl.
  - intros Hp. rewrite Hp. by rewrite last_last.
  - done.
  - intros Hp. rewrite Hp, parent_snoc in E. done.
Qed.

Lemma entries_elem t (d : list string) name : name ∈ entries_of t d <-> is_Some (t !! (d ++ [name])).
Proof.
  unfold entries_of. rewrite list_elem_of_omap. split.
  - intros (p & ([q n] & -> & Hq%elem_of_map_to_list)%list_elem_of_fmap & Hp%entry_name). cbn [fst] in Hp.
    subst q. by exists n.
  - intros [n Hn]. exists (d ++ [name]). split; [|by apply entry_name].
    apply list_elem_of_fmap. exists (d ++ [name], n). split; [done|]. by apply elem_of_map_to_list.
Qed.

Lemma entries_nodup t (d : list string) : NoDup (entries_of t d).
Proof.
  unfold entries_of. pose proof (NoDup_fst_map_to_list t) as Hnd.
  induction (map_to_list t).*1 as [|p l IH]; [apply NoDup_nil_2|].
  apply NoDup_cons in Hnd as [Hp Hnd]. cbn [omap list_omap].
  match goal with |- context [match ?o with Some _ => _ | None => _ end] => destruct o as [name|] eqn:E end; [|by apply IH].
  apply NoDup_cons. split; [|by apply IH]. apply entry_name in E as ->.
  intros (q & Hq & ->%entry_name)%list_elem_of_omap. done.
Qed.


Lemma lstat_tree (p : list string) s : hwp (h_lstat p) (fun _ s' => h_tree s' = h_tree s) s.
Proof.
  unfold h_lstat, at_entry. apply hwp_bind, hwp_fault. intros x script _. apply hwp_bind, hwp_get. cbn [h_tree].
  destruct (resolve (h_tree s) [] (parent p)); [apply hwp_bind; by unfold hwp|by apply hwp_ret|apply hwp_bind; by unfold hwp].
Qed.

Lemma readdir_spec (d : list string) s :
  hwp (h_readdir d) (fun res s' => h_tree s' = h_tree s /\ forall l, res = Ok l -> l = entries_of (h_tree s) d) s.
Proof.
  unfold h_readdir. apply hwp_bind, hwp_fault. intros x script _. apply hwp_bind, hwp_get. apply hwp_ret. cbn [h_tree].
  split; [done|]. intros l. destruct x; [|done]. destruct (h_tree s !! d); [|done]. case_bool_decide; [|done]. congruence.
Qed.

Lemma empty_root_spec (p : list string) s :
  hwp (validateEmptyWorkspaceRoot p) (fun res s' => h_tree s' = h_tree s /\
    (res = Ok tt -> entries_of (h_tree s) p = [])) s.
Proof.
  unfold validateEmptyWorkspaceRoot. apply hwp_or_fail. eapply hwp_mono; [apply lstat_tree|].
  intros [n|e] s1 E1; [|done]. destruct (negb (private_directory n)); [by apply hwp_ret|].
  apply hwp_or_fail. eapply hwp_mono; [apply readdir_spec|]. intros [l|e] s2 [E2 Hl]; [|by split; [congruence|]].
  specialize (Hl l eq_refl). apply hwp_ret. split; [congruence|]. rewrite fail_if_ok, negb_false_iff, Z.eqb_eq, llen_zero.
  intros Ht. rewrite <- E1, <- Hl. by destruct l.
Qed.

Lemma check_names_spec (path : list string) names s :
  hwp (check_names path names) (fun res s' => h_tree s' = h_tree s /\
    (res = Ok tt -> Forall (fun n => n = workspaceRootName \/ n = ownershipLockName) names /\
       (workspaceRootName ∈ names -> entries_of (h_tree s) (path ++ [workspaceRootName]) = []))) s.
Proof.
  revert s. induction names as [|name rest IH]; intros s; cbn [check_names].
  { apply hwp_ret. split; [done|]. intros _. split; [constructor|]. by intros ?%elem_of_nil. }
  destruct (String.eqb_spec name workspaceRootName) as [->|Hne].
  - apply hwp_bind. eapply hwp_mono; [apply empty_root_spec|]. intros [[]|e] s1 [E1 He]; [|by apply hwp_ret].
    eapply hwp_mono; [apply IH|]. intros res s2 [E2 Hr]. split; [congruence|]. intros Hok.
    destruct (Hr Hok) as [Hf _]. split; [|auto]. apply Forall_cons. split; [by left|done].
  - destruct (String.eqb_spec name ownershipLockName) as [->|Hne2]; cbn [negb]; [|by apply hwp_ret].
    eapply hwp_mono; [apply IH|]. intros res s2 [E2 Hr]. split; [congruence|]. intros Hok.
    destruct (Hr Hok) as [Hf Hw]. split; [apply Forall_cons; split; [by right|done]|].
    intros [E|Hin]%elem_of_cons; [done|auto].
Qed.

(** Two names that may be there cannot fill a bounded listing. *)
Lemma bounded_listing (a b : string) (l : list string) n :
  (2 < n)%nat -> NoDup l -> Forall (fun x => x = a \/ x = b) (take n l) -> take n l = l.
Proof.
  intros Hn Hnd Hf. apply take_ge.
  assert (Hlen : (length (take n l) <= 2)%nat).
  { change 2%nat with (length [a; b]). apply submseteq_length, NoDup_submseteq; [eapply sublist_NoDup; [exact Hnd|apply sublist_take]|].
    intros x Hx. rewrite Forall_forall in Hf. destruct (Hf x Hx) as [->| ->]; set_solver. }
  rewrite length_take in Hlen. lia.
Qed.

Lemma fifo_dir_spec (path : list string) s :
  hwp (validateFIFODir path) (fun res s' => h_tree s' = h_tree s /\
    (res = Ok tt -> forall name, is_Some (h_tree s !! (path ++ [name])) ->
       name = ownershipLockName \/
       name = workspaceRootName /\ forall x, h_tree s !! (path ++ [workspaceRootName; x]) = None)) s.
Proof.
  unfold validateFIFODir. apply hwp_or_fail. eapply hwp_mono; [apply readdir_spec|].
  intros [l|e] s1 [E1 Hl]; [|done]. specialize (Hl l eq_refl).
  eapply hwp_mono; [apply check_names_spec|]. intros res s2 [E2 Hr]. split; [congruence|]. intros Hok name Hname.
  destruct (Hr Hok) as [Hf Hw].
  assert (Hall : take (Z.to_nat (MaxSupervisedActiveHard + 2)) l = l).
  { apply (bounded_listing workspaceRootName ownershipLockName); [vm_compute; lia|rewrite Hl; apply entries_nodup|done]. }
  rewrite Hall in Hf, Hw.
  apply entries_elem in Hname. rewrite <- Hl in Hname. rewrite Forall_forall in Hf.
  destruct (Hf name Hname) as [->| ->]; [right; split; [done|]|by left].
  intros x. specialize (Hw Hname). rewrite E1 in Hw. destruct (h_tree s !! (path ++ [workspaceRootName; x])) as [n|] eqn:E; [|done].
  exfalso. apply (not_elem_of_nil x). rewrite <- Hw. apply entries_elem. rewrite <- app_assoc. cbn [app]. by exists n.
Qed.

(** ** Properties *)

(** C34. The backend's lifecycle: in every reachable state at most [maximum]
    runs are inside the engine, all of different identities; once [Close] has
    called the cancel functions every run still inside was cancelled; and when
    it closes the engine and then gives up ownership, no run and no probe is
    left, and none can start any more. *)
Theorem backend_lifecycle ctx_nil engine_nil ready residue maximum devices b b'
    (Hnew : newBackendWithDevices ctx_nil engine_nil ready residue maximum devices = Ok b)
    (Hrun : rtc bstep b b') :
  (Z.of_nat (length (in_engine b')) <= maximum /\ NoDup (in_engine b')) /\
  (probes_over (bk_closing b') \/ bk_closing b' = WaitProbes ->
     Forall (fun r => rn_phase r = InEngine -> rn_cancelled r = true) (bk_threads b')) /\
  (runs_over (bk_closing b') -> bk_threads b' = [] /\ bk_probes b' = 0%nat /\
     forall d, enter b' d = Err "containerd backend is closed").
Proof.
  assert (Hi : backend_inv b') by (eapply inv_reachable; [by eapply inv_new|done]).
  assert (Hmax : bk_maximum b' = maximum /\ 0 < maximum).
  { rewrite (maximum_constant _ _ Hrun). unfold newBackendWithDevices in Hnew.
    rewrite !then_ok, !fail_if_ok in Hnew. destruct Hnew as (Hm & _ & _ & [= <-]). bool_props. done. }
  split_and!.
  - rewrite in_engine_size by done. pose proof (bi_capacity b' Hi). lia.
  - apply Hi.
  - intros Hc. assert (Hop : bk_closing b' <> Open_) by (destruct Hc as [Hc| ->]; [intros E; by rewrite E in Hc|done]).
    eapply Forall_impl; [by apply (bi_cancel b' Hi)|]. intros r Hr Hph.
    destruct (Hr Hph) as [?|(l & E & _)]; [done|]. rewrite E in Hc. by destruct Hc.
  - intros Hc. split_and!; [by apply (bi_drained b' Hi)|apply (bi_probes b' Hi); by destruct (bk_closing b')|].
    intros d. unfold enter. assert (Hcl : bk_closed b' = true); [|by rewrite Hcl].
    apply (bi_closed b' Hi). intros E. by rewrite E in Hc.
Qed.

(** C35. [Close] terminates: once it was called, every step of any goroutine
    reduces the remaining work, and while the lock is not released a step is
    possible. *)
Theorem backend_close_terminates ctx_nil engine_nil ready residue maximum devices b b'
    (Hnew : newBackendWithDevices ctx_nil engine_nil ready residue maximum devices = Ok b)
    (Hrun : rtc bstep b b') (Hclosing : bk_closing b' <> Open_) :
  (forall b'', bstep b' b'' -> (close_work b'' < close_work b')%nat) /\
  (bk_closing b' <> Released -> exists b'', bstep b' b'').
Proof.
  assert (Hi : backend_inv b') by (eapply inv_reachable; [by eapply inv_new|done]).
  assert (Hc : bk_closed b' = true) by (by apply (bi_closed b' Hi)). split.
  - intros b'' Hs. unfold close_work.
    inversion Hs; subst; cbn [set_run set_closing bk_threads bk_probes bk_closing];
      try (match goal with E : bk_threads _ = _ |- _ => rewrite E, !sum_list_with_app; cbn [sum_list_with run_weight rn_phase] end);
      try (match goal with E : bk_closing _ = _ |- _ => rewrite E; cbn [closing_weight length] end);
      rewrite ?cancel_weight; try lia.
    + unfold enter in *. by rewrite Hc in *.
    + unfold probe_enter in *. by rewrite Hc in *.
    + congruence.
  - intros Hnr. destruct (bk_threads b') as [|[d [] c] l] eqn:Ht;
      [|eexists; by eapply (bs_delete _ _ _ [])|eexists; by eapply (bs_done _ _ _ [])].
    destruct (bk_probes b') as [|n] eqn:Hp; [|eexists; by eapply bs_probe_end].
    destruct (bk_closing b') as [|[|d l]| | | |] eqn:E; try done; eexists.
    + by apply bs_wait.
    + by eapply bs_cancel.
    + by apply bs_probes.
    + apply bs_engine; [done|]. by rewrite (bi_runs b' Hi), Ht.
    + by apply bs_release.
Qed.

Lemma assign_spec m seen aliases ds :
  assign m seen aliases = Ok ds ->
  Forall2 (fun alias d => m !! alias = Some d) aliases ds /\ NoDup aliases /\ Forall (fun a => a ∉ seen) aliases.
Proof.
  revert seen ds. induction aliases as [|alias rest IH]; intros seen ds; cbn [assign].
  { intros [= <-]. by split_and!; [constructor|apply NoDup_nil_2|constructor]. }
  destruct (m !! alias) as [d|] eqn:E; [|done]. intros [Hs%fail_if_ok H]%then_ok. apply bool_decide_eq_false in Hs.
  apply rbind_ok in H as (ds' & H & [= <-]). destruct (IH _ _ H) as (H2 & Hnd & Hns). rewrite Forall_forall in Hns.
  split_and!.
  - by constructor.
  - apply NoDup_cons. split; [|done]. intros Hin. specialize (Hns _ Hin). set_solver.
  - apply Forall_cons. split; [done|]. apply Forall_forall. intros a Ha. specialize (Hns a Ha). set_solver.
Qed.

Lemma assigned_elem (m : gmap string string) aliases ds d :
  Forall2 (fun alias d => m !! alias = Some d) aliases ds -> d ∈ ds -> exists a, a ∈ aliases /\ m !! a = Some d.
Proof.
  induction 1 as [|a d' aliases ds Ha _ IH]; [by intros ?%elem_of_nil|].
  intros [->|Hd]%elem_of_cons; [exists a; by split; [left|]|]. destruct (IH Hd) as (a' & ? & ?). exists a'. by split; [right|].
Qed.

Lemma assigned_nodup (m : gmap string string) aliases ds :
  (forall a b d, m !! a = Some d -> m !! b = Some d -> a = b) ->
  Forall2 (fun alias d => m !! alias = Some d) aliases ds -> NoDup aliases -> NoDup ds.
Proof.
  intros Hinj. induction 1 as [|a d aliases ds Ha H2 IH]; [done|]. intros [Hn Hnd]%NoDup_cons.
  apply NoDup_cons. split; [|auto]. intros Hd. destruct (assigned_elem _ _ _ _ H2 Hd) as (a' & Hin & Ha').
  by rewrite (Hinj _ _ _ Ha Ha') in Hn.
Qed.

(** Device assignment: a backend opened with a validated device map turns
    the aliases of a run into exactly as many different CDI devices as the
    request asks for, all from its own map; runs with disjoint aliases, such as
    the exclusive leases of the GPU client, get disjoint devices. *)
Theorem devices_exclusive PQN devices limit b request aliases ds request' aliases' ds'
    (Hmap : validateGPUDeviceMap PQN devices true limit = Ok tt) (Hb : bk_gpuDevices b = cloneDeviceMap devices)
    (Ha : assign_devices (Some b) request aliases = Ok ds)
    (Ha' : assign_devices (Some b) request' aliases' = Ok ds') :
  llen ds = lim_GPUDeviceCount (cr_Limits request) /\ ds <> [] /\ NoDup ds /\
  (forall d, d ∈ ds -> exists alias, alias ∈ aliases /\ devices !! alias = Some d) /\
  (aliases ## aliases' -> ds ## ds').
Proof.
  assert (Hid : bk_gpuDevices b = devices) by (rewrite Hb; apply list_to_map_to_list).
  assert (Hinj : forall x y d, devices !! x = Some d -> devices !! y = Some d -> x = y).
  { intros x y d. by apply (validateGPUDeviceMap_injective PQN devices limit). }
  unfold assign_devices in Ha, Ha'. rewrite Hid in *.
  apply then_ok in Ha as [Hc%fail_if_ok Ha], Ha' as [Hc'%fail_if_ok Ha']. bool_props.
  apply assign_spec in Ha as (F2 & Hnd & _), Ha' as (F2' & _ & _).
  assert (Hlen : llen ds = llen aliases) by (unfold llen; by rewrite (Forall2_length _ _ _ F2)).
  split_and!.
  - by rewrite Hlen.
  - intros ->. done.
  - by eapply assigned_nodup.
  - intros d Hd. by eapply assigned_elem.
  - intros Hdis d Hd Hd'. destruct (assigned_elem _ _ _ _ F2 Hd) as (x & Hx & Ex), (assigned_elem _ _ _ _ F2' Hd') as (y & Hy & Ey).
    rewrite (Hinj _ _ _ Ex Ey) in Hx. by apply (Hdis y).
Qed.

(** C40. Opening: [Open] either returns a backend and holds the ownership lock
    and the engine, with nothing but its lock and an empty directory of
    workspaces left in the FIFO directory from earlier runs, or it returns an
    error and holds nothing. *)
Theorem open_clean PQN ctx config lock engine ready residue s :
  let '((res, held), s') := Open PQN ctx config lock engine ready residue s in
  match res with
  | Err _ => held = []
  | Ok b => held = [Engine; Ownership] /\ validateConfig PQN (withConfigDefaults config) = Ok tt /\
      bk_maximum b = cfg_MaxActive config /\ backend_inv b /\
      forall name, is_Some (h_tree s' !! (components (cfg_FIFODir config) ++ [name])) ->
        name = ownershipLockName \/
        name = workspaceRootName /\
        forall x, h_tree s' !! (components (cfg_FIFODir config) ++ [workspaceRootName; x]) = None
  end.
Proof.
  unfold Open. destruct ctx as [[err|]|]; [done| |done].
  destruct (validateConfig PQN (withConfigDefaults config)) as [[]|e] eqn:Ec; [|done].
  unfold mbind, h_bind.
  destruct (validatePrivateSocket _ s) as [[[]|e] s1]; [|done].
  destruct (ensurePrivateDirectory _ s1) as [[[]|e] s2]; [|done].
  destruct lock; [|done]. cbn [negb].
  pose proof (fifo_dir_spec (components (cfg_FIFODir (withConfigDefaults config))) s2) as HF. unfold hwp in HF.
  destruct (validateFIFODir _ s2) as [[[]|e] s3]; [|done]. cbn [fst snd] in HF. destruct HF as [Ht HF].
  destruct engine; [|done]. cbn [negb].
  destruct (newBackendWithDevices _ _ _ _ _ _) as [b|e] eqn:Eb; [|done]. cbn.
  split_and!; try done.
  - unfold newBackendWithDevices in Eb. rewrite !then_ok in Eb. by destruct Eb as (_ & _ & _ & [= <-]).
  - by eapply inv_new.
  - rewrite Ht. by apply HF.
Qed.

(** ** Witnesses *)

Module BackendSamples.
Definition gpus : gmap string string := {["gpu-a" := "vendor.com/gpu=0"; "gpu-b" := "vendor.com/gpu=1"]}.
Definition parse (d : string) : option (string * string * string) := Some ("vendor.com", "gpu", str_drop 15 d).

Definition b0 : Backend :=
  {| bk_maximum := 2; bk_gpuDevices := cloneDeviceMap gpus; bk_active := ∅; bk_closed := false; bk_probes := 0;
     bk_runs := 0; bk_closing := Open_; bk_threads := [] |}.
Definition d1 : string := Executor.Samples.image.
Definition b1 : Backend := set_run b0 ({[d1]} ∪ ∅) 1 [Run d1 InEngine false].
Definition b2 : Backend := set_closing b1 true 0 (Cancelling [d1]) [Run d1 InEngine false].
Definition b3 : Backend := set_closing b2 true 0 (Cancelling []) (cancel_run d1 <$> [Run d1 InEngine false]).
Definition b4 : Backend := set_closing b3 true 0 WaitProbes (bk_threads b3).

Lemma opened : newBackendWithDevices false false (Some None) (Some None) 2 gpus = Ok b0.
Proof. reflexivity. Qed.

Lemma closing_run : rtc bstep b0 b4.
Proof.
  eapply rtc_l; [apply (bs_enter b0 d1 b1); reflexivity|].
  eapply rtc_l; [apply (bs_close b1 [d1]); [reflexivity|]|].
  { unfold b1, set_run; cbn [bk_active]. rewrite union_empty_r_L, elements_singleton. done. }
  eapply rtc_l; [by apply (bs_cancel b2 d1 [])|].
  apply rtc_once, (bs_wait b3). reflexivity.
Qed.

Definition one_gpu : ContainerRequest :=
  {| cr_ExecutionDigest := d1; cr_ImageDigest := d1; cr_Entrypoint := ["run"]; cr_WorkingDirectory := "";
     cr_Environment := ∅; cr_WorkspaceArchive := false; cr_UserID := 1; cr_GroupID := 1; cr_ReadOnlyRoot := true;
     cr_NoNewPrivileges := true; cr_Network := NetworkNone; cr_AllowedHosts := []; cr_AllowGPU := true;
     cr_Limits := {| lim_CPUMillis := 1000; lim_MemoryBytes := 1; lim_DiskBytes := 12288; lim_PIDs := 1;
                     lim_ExecutionTime := 1000000000; lim_OutputBytes := 1; lim_GPUDeviceCount := 1 |} |}.
End BackendSamples.

Lemma backend_lifecycle_witness :
  Forall (fun r => rn_phase r = InEngine -> rn_cancelled r = true) (bk_threads BackendSamples.b4).
Proof.
  destruct (backend_lifecycle false false (Some None) (Some None) 2 BackendSamples.gpus _ _
              BackendSamples.opened BackendSamples.closing_run) as (_ & Hc & _).
  apply Hc. right. reflexivity.
Defined.

Lemma backend_close_terminates_witness : exists b'', bstep BackendSamples.b4 b''.
Proof.
  apply (backend_close_terminates false false (Some None) (Some None) 2 BackendSamples.gpus _ _
           BackendSamples.opened BackendSamples.closing_run); discriminate.
Defined.

Lemma devices_exclusive_witness : ["vendor.com/gpu=0"] ## ["vendor.com/gpu=1"].
Proof.
  refine (proj2 (proj2 (proj2 (proj2 (devices_exclusive BackendSamples.parse BackendSamples.gpus 2 BackendSamples.b0
            BackendSamples.one_gpu ["gpu-a"] _ BackendSamples.one_gpu ["gpu-b"] _ _ _ _ _)))) _); try (vm_compute; reflexivity).
  intros x Hx Hy. apply list_elem_of_singleton in Hx, Hy. rewrite Hx in Hy. discriminate Hy.
Defined.

(** [Open] succeeds on a private socket and a fresh FIFO directory. *)
Module OpenSample.
Definition config : Config :=
  {| cfg_SocketPath := "/c/s"; cfg_Namespace := "tos"; cfg_Snapshotter := "overlayfs";
     cfg_Runtime := "io.containerd.runc.v2"; cfg_FIFODir := "/f"; cfg_MaxActive := 2; cfg_OperationTimeout := 0;
     cfg_CleanupTimeout := 0; cfg_PermitGPU := false; cfg_PermitNetwork := false; cfg_GPUDevices := ∅;
     cfg_CDISpecDirs := []; cfg_PolicyLimits := SpecSamples.limits;
     cfg_ImageReference := "tool@" +:+ Executor.Samples.image; cfg_ImageDigest := Executor.Samples.image;
     cfg_ImagePlatform := "linux/amd64" |}.
Definition tree : hfs :=
  Hfs {[ ["c"] := new_dir o700; ["c"; "s"] := Node Socket o600 true ""; ["f"] := new_dir o700;
         ["f"; "workspaces"] := new_dir o700 ]} [] [].
End OpenSample.

Example open_succeeds :
  is_ok (Open BackendSamples.parse (Some None) OpenSample.config true true (Some None) (Some None) OpenSample.tree).1.1 = true /\
  (Open BackendSamples.parse (Some None) OpenSample.config true false (Some None) (Some None) OpenSample.tree).1
    = (Err "open containerd backend", []).
Proof. split; vm_compute; reflexivity. Qed.
