(* ===== verification/GoHttp.v ===== *)
(** * net/url, net/http, strings.ToLower and base64.StdEncoding as the servers use them

    [url.Parse] is a parameter: the components only look at the fields of its
    result.  [ToLower] is written for ASCII; every caller refuses a text with
    other bytes afterwards, so what it does with them does not matter. *)

From S2P Require Import Prelude GoStd Sha256 Base64.

Fixpoint str_map (f : ascii -> ascii) (s : string) : string :=
  match s with EmptyString => "" | String c s' => String (f c) (str_map f s') end.

Definition lower_char (c : ascii) : ascii := if is_upper c then ascii_of_nat (Z.to_nat (code c + 32)) else c.
Definition strings_ToLower (s : string) : string := str_map lower_char s.

(** [strings.CutPrefix]. *)
Definition cut_prefix (s p : string) : option string :=
  if has_prefix s p then Some (str_drop (String.length p) s) else None.

(** [strings.ContainsAny] for bytes. *)
Definition contains_any (s chars : string) : bool := str_existsb (contains_byte chars) s.

(** ** URLs *)

Record URL := {
  ur_Scheme : string;
  ur_User : bool;        (* parsed.User != nil *)
  ur_Host : string;
  ur_Path : string;
  ur_RawPath : string;
  ur_RawQuery : string;
  ur_Fragment : string;
}.

Class NetUrl := { url_Parse : string -> option URL }.

(** ** Requests and responses

    The fields of a request the handlers read; [hq_Path] is [URL.EscapedPath].
    A missing header is the empty string. *)
Record HttpRequest := {
  hq_Method : string;
  hq_Path : string;
  hq_RawQuery : string;
  hq_Fragment : string;
  hq_Header : string -> string;
  hq_ContentLength : Z;
  hq_Body : bytes;
}.

(** A response: a refusal by [http.Error], or a status with the headers the
    handler set and the body. *)
Inductive HttpResponse :=
| Refused (status : Z) (message : string)
| Response (status : Z) (headers : list (string * string)) (body : bytes).

Definition response_status (r : HttpResponse) : Z :=
  match r with Refused s _ | Response s _ _ => s end.

Definition header_of (headers : list (string * string)) (name : string) : string :=
  match list_find (fun h => h.1 = name) headers with Some (_, h) => h.2 | None => "" end.

Definition StatusOK : Z := 200.
Definition StatusNoContent : Z := 204.
Definition StatusBadRequest : Z := 400.
Definition StatusUnauthorized : Z := 401.
Definition StatusForbidden : Z := 403.
Definition StatusNotFound : Z := 404.
Definition StatusGone : Z := 410.
Definition StatusRequestEntityTooLarge : Z := 413.
Definition StatusTooManyRequests : Z := 429.
Definition StatusServiceUnavailable : Z := 503.

(** ** Lemmas *)

Lemma cut_prefix_spec s p t : cut_prefix s p = Some t <-> s = p +:+ t.
Proof.
  unfold cut_prefix. destruct (has_prefix s p) eqn:Hp.
  - apply has_prefix_spec in Hp as [u ->]. rewrite str_drop_app. split; [by intros [= ->]|].
    intros Heq. apply (f_equal (str_drop (String.length p))) in Heq. rewrite !str_drop_app in Heq. by subst.
  - split; [done|]. intros ->. by rewrite has_prefix_app in Hp.
Qed.

Lemma str_map_length f s : String.length (str_map f s) = String.length s.
Proof. induction s as [|c s IH]; [done|]. simpl. by rewrite IH. Qed.

(** A text of characters that [f] keeps is kept. *)
Lemma str_map_id f s : str_forallb (fun c => Ascii.eqb (f c) c) s = true -> str_map f s = s.
Proof.
  induction s as [|c s IH]; [done|]. simpl. intros [Hc Hs]%andb_true_iff.
  apply Ascii.eqb_eq in Hc. by rewrite Hc, IH.
Qed.

Lemma lower_hex_lower c : is_lower_hex c = true -> Ascii.eqb (lower_char c) c = true.
Proof. destruct c as [[] [] [] [] [] [] [] []]; vm_compute; done. Qed.

Lemma ToLower_hex s : str_forallb is_lower_hex s = true -> strings_ToLower s = s.
Proof. intros Hs. apply str_map_id. eapply str_forallb_impl; [|exact Hs]. apply lower_hex_lower. Qed.

Lemma str_map_app f s t : str_map f (s +:+ t) = str_map f s +:+ str_map f t.
Proof. induction s as [|c s IH]; [done|]. simpl. by rewrite IH. Qed.

Lemma ToLower_digest p : digest_pattern p = true -> strings_ToLower p = p.
Proof.
  intros (s & -> & _ & Hs)%hex_pattern_spec. unfold strings_ToLower. rewrite str_map_app. f_equal.
  by apply ToLower_hex.
Qed.

(** ** base64.StdEncoding

    The standard alphabet with padding, from the URL-safe one. *)
Definition url_to_std (c : ascii) : ascii :=
  if Ascii.eqb c "-" then "+"%char else if Ascii.eqb c "_" then "/"%char else c.

(** Characters of the other alphabet become padding, which no group may hold. *)
Definition std_to_url (c : ascii) : ascii :=
  if Ascii.eqb c "+" then "-"%char else if Ascii.eqb c "/" then "_"%char
  else if Ascii.eqb c "-" || Ascii.eqb c "_" then "="%char else c.

Definition std_padding (s : bytes) : string :=
  match (String.length s mod 3)%nat with 1%nat => "==" | 2%nat => "=" | _ => "" end.

Definition std_EncodeToString (s : bytes) : string := str_map url_to_std (b64_encode s) +:+ std_padding s.

Definition unpadded (s : string) : string :=
  if has_suffix s "==" then str_take (String.length s - 2) s
  else if has_suffix s "=" then str_take (String.length s - 1) s else s.

Definition std_DecodeString (s : string) : option bytes :=
  let text := str_filter not_newline s in
  if (String.length text mod 4 =? 0)%nat then b64_decode (str_map std_to_url (unpadded text)) else None.

(** [base64.StdEncoding.Strict()]: the unused bits of the last character are
    zero. *)
Fixpoint trailing_zero (l : list Z) : bool :=
  match l with
  | [_; y] => y mod 16 =? 0
  | [_; _; z] => z mod 4 =? 0
  | _ :: _ :: _ :: _ :: l' => trailing_zero l'
  | _ => true
  end.

Definition std_strict_DecodeString (s : string) : option bytes :=
  match b64_values (str_map std_to_url (unpadded (str_filter not_newline s))) with
  | Some values => if trailing_zero values then std_DecodeString s else None
  | None => None
  end.

Definition b64_text (c : ascii) : bool := bool_decide (is_Some (b64_value c)).

Lemma b64_char_text v : 0 <= v < 64 -> b64_text (b64_char v) = true.
Proof. intros Hv. destruct (b64_value_char v Hv) as [Hc _]. unfold b64_text. rewrite Hc. by apply bool_decide_eq_true_2. Qed.

Lemma str_triple_ind (P : string -> Prop) :
  P "" -> (forall a, P (String a "")) -> (forall a b, P (String a (String b ""))) ->
  (forall a b c s, P s -> P (String a (String b (String c s)))) -> forall s, P s.
Proof.
  intros H0 H1 H2 H3 s. assert (Hall : forall n t, (String.length t <= n)%nat -> P t); [|by apply (Hall (String.length s))].
  induction n as [|n IH]; intros [|a [|b [|c t]]] Hn; auto; cbn [String.length] in Hn; [lia..|]. apply H3, IH. lia.
Qed.

(** The length and the characters of an encoded text. *)
Lemma b64_encode_text s :
  str_forallb b64_text (b64_encode s) = true /\
  ((String.length (b64_encode s) + String.length (std_padding s)) mod 4 = 0)%nat.
Proof.
  induction s as [|a|a b|a b c s [IH1 IH2]] using str_triple_ind; cbn [b64_encode str_forallb].
  - done.
  - pose proof (byte_split a 64 4 ltac:(lia) eq_refl) as [Ha1 Ha2]. rewrite !b64_char_text by lia. done.
  - pose proof (byte_split a 64 4 ltac:(lia) eq_refl) as [Ha1 Ha2]. pose proof (byte_split b 16 16 ltac:(lia) eq_refl) as [Hb1 Hb2].
    rewrite !b64_char_text by lia. done.
  - pose proof (byte_split a 64 4 ltac:(lia) eq_refl) as [Ha1 Ha2]. pose proof (byte_split b 16 16 ltac:(lia) eq_refl) as [Hb1 Hb2].
    pose proof (byte_split c 4 64 ltac:(lia) eq_refl) as [Hc1 Hc2]. rewrite !b64_char_text, IH1 by lia. split; [done|].
    assert (Hp : std_padding (String a (String b (String c s))) = std_padding s).
    { unfold std_padding. cbn [String.length].
      replace (S (S (S (String.length s)))) with (String.length s + 1 * 3)%nat by lia. by rewrite Nat.Div0.mod_add. }
    rewrite Hp. cbn [String.length]. revert IH2.
    generalize (String.length (b64_encode s)) as n, (String.length (std_padding s)) as m. intros n m Hmod.
    replace (S (S (S (S n))) + m)%nat with (n + m + 1 * 4)%nat by lia. by rewrite Nat.Div0.mod_add.
Qed.

Lemma std_text c : b64_text c = true ->
  std_to_url (url_to_std c) = c /\ not_newline (url_to_std c) = true /\ Ascii.eqb (url_to_std c) "=" = false.
Proof. destruct c as [[] [] [] [] [] [] [] []]; vm_compute; try discriminate; done. Qed.

Lemma str_map_inverse (f g : ascii -> ascii) (p : ascii -> bool) s :
  (forall c, p c = true -> g (f c) = c) -> str_forallb p s = true -> str_map g (str_map f s) = s.
Proof. intros Hg. induction s as [|c s IH]; [done|]. cbn. intros [Hc Hs]%andb_true_iff. by rewrite Hg, IH. Qed.

Lemma str_filter_id p s : str_forallb p s = true -> str_filter p s = s.
Proof. induction s as [|c s IH]; [done|]. cbn. intros [-> Hs]%andb_true_iff. by rewrite IH. Qed.

Lemma str_forallb_map p f s : str_forallb p (str_map f s) = str_forallb (fun c => p (f c)) s.
Proof. induction s as [|c s IH]; [done|]. cbn. by rewrite IH. Qed.

Lemma has_suffix_app s t : has_suffix (s +:+ t) t = true.
Proof.
  unfold has_suffix. rewrite str_length_app. replace (String.length s + String.length t - String.length t)%nat with (String.length s) by lia.
  rewrite str_drop_app, String.eqb_refl, andb_true_r. apply Nat.leb_le. lia.
Qed.

Lemma str_last s : s <> "" -> exists s' c, s = s' +:+ String c "".
Proof.
  induction s as [|c s IH]; [done|]. intros _. destruct s as [|c' s]; [by exists "", c|].
  destruct (IH ltac:(done)) as (s' & c0 & ->). by exists (String c s'), c0.
Qed.

(** A text without padding characters has no padding at its end. *)
Lemma has_suffix_padding s t :
  str_forallb (fun c => negb (Ascii.eqb c "=")) s = true -> has_suffix s (String "=" t) = false.
Proof.
  intros Hs. unfold has_suffix. destruct (_ <=? _)%nat eqn:Hle; [|done]. cbn [andb]. apply String.eqb_neq. intros Hd.
  rewrite <- (str_take_drop (String.length s - String.length (String "=" t)) s), str_forallb_app, Hd in Hs.
  cbn in Hs. by rewrite andb_false_r in Hs.
Qed.

Lemma unpadded_app s n :
  str_forallb (fun c => negb (Ascii.eqb c "=")) s = true -> n = "" \/ n = "=" \/ n = "==" -> unpadded (s +:+ n) = s.
Proof.
  intros Hs Hn. assert (Htake : forall t, str_take (String.length (s +:+ t) - String.length t) (s +:+ t) = s).
  { intros t. rewrite str_length_app. replace (_ - _)%nat with (String.length s) by lia. apply str_take_app. }
  unfold unpadded. destruct Hn as [->|[->| ->]].
  - rewrite str_app_nil. by rewrite !has_suffix_padding.
  - assert (Hf : has_suffix (s +:+ "=") "==" = false).
    { unfold has_suffix. destruct (_ <=? _)%nat eqn:Hle; [|done]. cbn [andb]. apply String.eqb_neq. intros Hd.
      apply Nat.leb_le in Hle. rewrite str_length_app in Hle, Hd. cbn [String.length] in *.
      destruct (str_last s) as (s' & c & ->); [intros ->; cbn in Hle; lia|].
      rewrite str_length_app in Hd. cbn [String.length] in Hd. replace (_ - 2)%nat with (String.length s') in Hd by lia.
      rewrite <- str_app_assoc, str_drop_app in Hd. injection Hd as ->. rewrite str_forallb_app in Hs. cbn in Hs. by rewrite andb_false_r in Hs. }
    rewrite Hf, has_suffix_app. apply Htake.
  - rewrite has_suffix_app. apply Htake.
Qed.

Lemma std_roundtrip s : std_DecodeString (std_EncodeToString s) = Some s.
Proof.
  destruct (b64_encode_text s) as [Ht Hl]. unfold std_DecodeString, std_EncodeToString.
  assert (Hn : str_filter not_newline (str_map url_to_std (b64_encode s) +:+ std_padding s) =
               str_map url_to_std (b64_encode s) +:+ std_padding s).
  { apply str_filter_id. rewrite str_forallb_app, str_forallb_map. apply andb_true_iff. split.
    - eapply str_forallb_impl; [|exact Ht]. intros c Hc. by apply std_text.
    - unfold std_padding. by repeat case_match. }
  rewrite Hn, str_length_app, str_map_length, Hl. cbn [Nat.eqb]. rewrite unpadded_app.
  - rewrite (str_map_inverse _ _ b64_text); [apply b64_roundtrip| |done]. intros c Hc. by apply std_text.
  - rewrite str_forallb_map. eapply str_forallb_impl; [|exact Ht]. intros c Hc. destruct (std_text c Hc) as (_ & _ & ->). done.
  - unfold std_padding. repeat case_match; auto.
Qed.
