(* ===== verification/ArtifactHTTP.v ===== *)
(** * pkg/artifacthttp/locator.go: publication of artifacts over HTTPS

    [Locator] registers descriptors after the store has returned the bytes they
    name, keeps them in a private index file that is replaced atomically, and
    serves registered objects by their digest.  The store is any implementation
    of the interface [verifiedStore]; [artifact_store] shows that
    [ArtifactStore.Get] is one.

    [json_marshal] of the index stands for [json.MarshalIndent], and
    [json_unmarshal] for the strict decoder that accepts one document and
    nothing after it. *)

From S2P Require Import Prelude GoStd GoText Utf8 GoHttp Sha256 Base64 FS Json RecordStore ArtifactStore.

Definition pathPrefix : string := "/v1/artifacts/sha256/".
Definition publicationIndexSchema : string := "tos.service.artifact-publications.v1".
Definition maximumIndexBytes : Z := Z.shiftl 8 20.

#[export] Instance Descriptor_eq_dec : EqDecision Descriptor.
Proof. solve_decision. Defined.

(** [index] is empty when the locator is not persistent. *)
Record Locator := {
  lo_origin : string;
  lo_index : string;
  lo_descriptors : gmap string Descriptor;
}.

Definition registered (l : Locator) (d : Descriptor) : Locator :=
  {| lo_origin := lo_origin l; lo_index := lo_index l;
     lo_descriptors := <[de_Digest d := d]> (lo_descriptors l) |}.

(** A [publicationDescriptor] has the fields of a descriptor. *)
Record publicationIndex := { pi_Schema : string; pi_Descriptors : list Descriptor }.

(** A descriptor and an index as JSON text: a media type may be any bytes. *)
Definition text_descriptor (d : Descriptor) : Descriptor :=
  {| de_Digest := utf8_fix (de_Digest d); de_MediaType := utf8_fix (de_MediaType d); de_SizeBytes := de_SizeBytes d |}.

#[refine, export] Instance text_index : JsonText publicationIndex := {|
  json_text i := {| pi_Schema := utf8_fix (pi_Schema i); pi_Descriptors := text_descriptor <$> pi_Descriptors i |};
  json_keys _ := true; json_text_idem := _; json_keys_text := _ |}.
Proof.
  - intros i. cbn [pi_Schema pi_Descriptors]. rewrite utf8_fix_idem, <- list_fmap_compose. f_equal. apply list_fmap_ext.
    intros _ d _. unfold compose, text_descriptor. cbn. by rewrite !utf8_fix_idem.
  - done.
Defined.

Definition index_path (p : string) : path := (filepath_Dir p, path_Base p).

Definition validDescriptor (d : Descriptor) : bool :=
  negb (negb (len (de_Digest d) =? len "sha256:" + 64) || negb (has_prefix (de_Digest d) "sha256:") ||
        (de_Digest d <>s? strings_ToLower (de_Digest d)) || (de_SizeBytes d =? 0) ||
        (MaxObjectBytesHard <? de_SizeBytes d) || (de_MediaType d =s? "") ||
        contains_any (de_MediaType d) (String "013" (String "010" (String "000" "")))) &&
  str_forallb (fun c => is_digit c || in_range "a" "f" c) (trim_prefix (de_Digest d) "sha256:").

(** The loop of [readPublicationIndex]. *)
Fixpoint index_entries (previous : string) (entries : list Descriptor) : result (list Descriptor) :=
  match entries with
  | [] => Ok []
  | entry :: rest =>
      fail_if (negb (validDescriptor entry) || str_leb (de_Digest entry) previous)
        "invalid artifact publication descriptor" ;;;
      let* descriptors := index_entries (de_Digest entry) rest in
      Ok (entry :: descriptors)
  end.

Definition syncDirectory (dir : string) : IO (result unit) :=
  let! _ := lift_sys (open_dir dir) "open artifact publication index directory" in
  lift_sys (sync_dir dir) "sync artifact publication index directory".

(** The interface [verifiedStore]; the arguments of [get] are the error of the
    context and whether it ends during the call. *)
Class VerifiedStore (get : option string -> bool -> string -> IO (result bytes)) := {
  get_verified : forall S ctx late d disk0,
    wp S (get ctx late d)
      (fun r disk1 => disk1 = disk0 /\ forall v, r = Ok v -> digest v = d) (fun disk1 => disk1 = disk0) disk0;
}.

Section Locator.
Context `{NetUrl} `{Json publicationIndex}.
Context (get : option string -> bool -> string -> IO (result bytes)).

Definition New (store_nil : bool) (origin : string) : result Locator :=
  match url_Parse origin with
  | None => Err "invalid artifact HTTPS origin"
  | Some parsed =>
      fail_if ((ur_Scheme parsed <>s? "https") || (ur_Host parsed =s? "") || ur_User parsed ||
               (ur_Path parsed <>s? "") || (ur_RawPath parsed <>s? "") || (ur_RawQuery parsed <>s? "") ||
               (ur_Fragment parsed <>s? "") || has_suffix origin "/") "invalid artifact HTTPS origin" ;;;
      fail_if store_nil "artifact store is required" ;;;
      Ok {| lo_origin := origin; lo_index := ""; lo_descriptors := ∅ |}
  end.

Definition readPublicationIndex (p : path) : IO (result (list Descriptor)) :=
  info ← lstat p;
  match info with
  | SErr ENOENT => mret (Ok [])
  | SErr _ => mret (Err "invalid artifact publication index")
  | SOk info =>
      if negb (bool_decide (i_kind info = Regular)) || negb (i_perm info =? o600) ||
         (maximumIndexBytes <? len (i_data info))
      then mret (Err "invalid artifact publication index") else
      let! _ := lift_sys (close_file p) "open artifact publication index" in (* os.Open *)
      let! opened := lift_sys (lstat p) "artifact publication index changed while opening" in (* file.Stat *)
      if negb (bool_decide (opened = info)) || negb (bool_decide (i_kind opened = Regular)) ||
         negb (i_perm opened =? o600)
      then mret (Err "artifact publication index changed while opening") else
      let! raw := lift_sys (read_file p) "decode artifact publication index" in
      mret (match json_unmarshal (limit_read (maximumIndexBytes + 1) raw) with
            | None => Err "decode artifact publication index"
            | Some document =>
                fail_if (pi_Schema document <>s? publicationIndexSchema) "decode artifact publication index" ;;;
                index_entries "" (pi_Descriptors document)
            end)
  end.

(** The loop of [OpenPersistent]: every entry is checked against the store. *)
Fixpoint register_all (l : Locator) (descriptors : list Descriptor) : IO (result Locator) :=
  match descriptors with
  | [] => mret (Ok l)
  | d :: rest =>
      r ← get None false (de_Digest d);
      match r with
      | Err _ => mret (Err "artifact publication index does not match stored object")
      | Ok value =>
          if negb (len value =? de_SizeBytes d)
          then mret (Err "artifact publication index does not match stored object")
          else register_all (registered l d) rest
      end
  end.

(** [resolved] is the result of [filepath.EvalSymlinks(parent)]. *)
Definition OpenPersistent (store_nil : bool) (origin indexPath : string) (resolved : option string)
    : IO (result Locator) :=
  match New store_nil origin with
  | Err e => mret (Err e)
  | Ok locator =>
      if negb (filepath_IsAbs indexPath) || (path_Clean indexPath <>s? indexPath)
      then mret (Err "artifact publication index path must be canonical and absolute") else
      let parent := filepath_Dir indexPath in
      if negb (bool_decide (resolved = Some parent))
      then mret (Err "artifact publication index directory contains a symlink") else
      let! info := lift_sys (lstat ("", parent)) "artifact publication index directory must be private" in
      if negb (bool_decide (i_kind info = Directory)) || negb (i_perm info =? o700)
      then mret (Err "artifact publication index directory must be private") else
      let! descriptors := readPublicationIndex (index_path indexPath) in
      register_all {| lo_origin := lo_origin locator; lo_index := indexPath;
                      lo_descriptors := lo_descriptors locator |} descriptors
  end.

(** The document [writePublicationIndexLocked] writes. *)
Definition index_document (l : Locator) (add : Descriptor) : publicationIndex :=
  {| pi_Schema := publicationIndexSchema;
     pi_Descriptors := sort_by de_Digest ((map_to_list (lo_descriptors l)).*2 ++ [add]) |}.

(** The temporary file is written, synchronised and renamed over the index.  The
    [err] of [Chmod] and [Write] is declared by the [if] statement and lost with
    it: the error tested afterwards is that of [Sync] and [Close]. *)
Definition commit_index (index temporary : path) (encoded : bytes) : IO (result unit) :=
  r ← chmod temporary o600;
  _ ← (if sys_ok r then write_file temporary encoded else mret r); (* assigns the inner err *)
  r ← fsync temporary;
  c ← close_file temporary;
  if negb (sys_ok r) || negb (sys_ok c) then mret (Err "write artifact publication index") else
  let! _ := lift_sys (rename temporary index) "commit artifact publication index" in
  syncDirectory index.1.

Definition writePublicationIndexLocked (l : Locator) (add : Descriptor) : IO (result unit) :=
  let encoded := json_marshal (index_document l add) in
  if maximumIndexBytes <? len encoded + 1 then mret (Err "encode artifact publication index") else
  let index := index_path (lo_index l) in
  let! temporary := lift_sys (create_temp index.1 ".artifact-publications-") "create artifact publication index" in
  r ← commit_index index temporary (encoded +:+ newline);
  _ ← remove temporary; (* deferred *)
  mret r.

(** [Locator.ArtifactURL]: the result and the locator it leaves. *)
Definition ArtifactURL (l : Locator) (descriptor : Descriptor) : IO (result string * Locator) :=
  if negb (validDescriptor descriptor) then mret (Err "invalid artifact descriptor", l) else
  value ← get None false (de_Digest descriptor);
  match value with
  | Err _ => mret (Err "artifact descriptor does not match stored object", l)
  | Ok value =>
      if negb (len value =? de_SizeBytes descriptor)
      then mret (Err "artifact descriptor does not match stored object", l) else
      let existing := lo_descriptors l !! de_Digest descriptor in
      if match existing with Some e => negb (bool_decide (e = descriptor)) | None => false end
      then mret (Err "artifact descriptor conflicts with published metadata", l) else
      r ← (if negb (bool_decide (is_Some existing)) && (lo_index l <>s? "")
           then writePublicationIndexLocked l descriptor else mret (Ok tt));
      match r with
      | Err e => mret (Err e, l)
      | Ok _ => mret (Ok (lo_origin l +:+ pathPrefix +:+ trim_prefix (de_Digest descriptor) "sha256:"),
                      registered l descriptor)
      end
  end.

Definition quoted (s : string) : string := String (ascii_of_nat 34) (s +:+ String (ascii_of_nat 34) "").

Definition ok_headers (descriptor : Descriptor) (hexDigest : string) (value : bytes) : list (string * string) :=
  [("Cache-Control", "public, max-age=31536000, immutable"); ("X-Content-Type-Options", "nosniff");
   ("Content-Type", de_MediaType descriptor); ("Content-Length", FormatUint (de_SizeBytes descriptor));
   ("Digest", "sha-256=" +:+ std_EncodeToString (sha256_Sum256 value)); ("ETag", quoted hexDigest)].

(** [Locator.Handler]; [ctx] and [late] describe the context of the request. *)
Definition Handler (l : Locator) (ctx : option string) (late : bool) (request : HttpRequest) : IO HttpResponse :=
  if ((hq_Method request <>s? "GET") && (hq_Method request <>s? "HEAD")) ||
     (hq_RawQuery request <>s? "") || (hq_Fragment request <>s? "")
  then mret (Refused StatusNotFound "not found") else
  match cut_prefix (hq_Path request) pathPrefix with
  | None => mret (Refused StatusNotFound "not found")
  | Some hexDigest =>
      if negb (len hexDigest =? 64) || contains_byte hexDigest "/" || (strings_ToLower hexDigest <>s? hexDigest)
      then mret (Refused StatusNotFound "not found") else
      let d := "sha256:" +:+ hexDigest in
      match lo_descriptors l !! d with
      | None => mret (Refused StatusNotFound "not found")
      | Some descriptor =>
          value ← get ctx late d;
          match value with
          | Err _ => mret (Refused StatusGone "artifact unavailable")
          | Ok value =>
              if negb (len value =? de_SizeBytes descriptor)
              then mret (Refused StatusGone "artifact unavailable") else
              if d <>s? digest value then mret (Refused StatusGone "artifact unavailable") else
              mret (Response StatusOK (ok_headers descriptor hexDigest value)
                      (if hq_Method request =s? "HEAD" then "" else value))
          end
      end
  end.
End Locator.

(** ** The store of pkg/artifactstore as a verified store *)

#[export] Instance artifact_store (s : Store) : 0 <= st_maximum s -> VerifiedStore (Get s).
Proof.
  intros Hmax. split. intros S ctx late d disk0. eapply wp_mono; [by apply Get_wp| |done].
  intros r disk1 [-> Hr]. split; [done|]. intros v Hv. destruct (Hr v Hv) as (i & _ & <- & _ & _ & _ & Hd). exact Hd.
Qed.

(** ** Histories of a published index

    The worker opens the locator, publishes, dies (also inside an operation) and
    loses power; meanwhile other components change the disk, but not the index.
    File operations of a publication do not fail: see [failed_write_published]
    for what happens when one does. *)
Record pstate := { ps_disk : disk; ps_locator : option Locator }.

Definition opened_locator (o : outcome (result Locator)) : option Locator :=
  match o with Done (Ok l) => Some l | _ => None end.

Definition kept_locator {A} (o : outcome (A * Locator)) : option Locator :=
  match o with Done (_, l) => Some l | Crashed => None end.

Section History.
Context `{NetUrl} `{Json publicationIndex} {laws : JsonTextLaws publicationIndex}.
Context (get : option string -> bool -> string -> IO (result bytes)) {verified : VerifiedStore get}.

Context (index : string).

Inductive publication_step : pstate -> pstate -> Prop :=
| publication_open origin resolved d l script rand o w :
    OpenPersistent get false origin index resolved (World d script rand) = (o, w) ->
    publication_step {| ps_disk := d; ps_locator := l |}
      {| ps_disk := w_disk w; ps_locator := opened_locator o |}
| publication_publish l descriptor d script rand o w :
    Forall no_error script ->
    ArtifactURL get l descriptor (World d script rand) = (o, w) ->
    publication_step {| ps_disk := d; ps_locator := Some l |}
      {| ps_disk := w_disk w; ps_locator := kept_locator o |}
| publication_elsewhere d d' l :
    (forall v, candidate d' (index_path index) v -> candidate d (index_path index) v) ->
    publication_step {| ps_disk := d; ps_locator := l |} {| ps_disk := d'; ps_locator := l |}
| publication_death d l :
    publication_step {| ps_disk := d; ps_locator := l |} {| ps_disk := d; ps_locator := None |}
| publication_power_loss d d' l :
    power_loss d d' ->
    publication_step {| ps_disk := d; ps_locator := l |} {| ps_disk := d'; ps_locator := None |}.

Definition index_file (document : publicationIndex) : inode := plain_file o600 (json_marshal document +:+ newline).

(** The index lists the descriptor. *)
Definition lists (descriptor : Descriptor) (v : option inode) : Prop :=
  exists document, v = Some (index_file document) /\ descriptor ∈ pi_Descriptors document.

(** The descriptor is listed now and after any power loss, and registered while
    the process runs. *)
Definition durable (descriptor : Descriptor) (s : pstate) : Prop :=
  always (ps_disk s) (index_path index) (lists descriptor) /\
  forall l, ps_locator s = Some l ->
    lo_index l = index /\ lo_descriptors l !! de_Digest descriptor = Some descriptor.

Lemma commit_index_wp p name raw d Φ :
  always d p Φ -> name <> p -> d_live d !! name = Some (new_inode o600) -> Φ (Some (plain_file o600 raw)) ->
  wp no_error (commit_index p name raw)
    (fun r d' => always d' p Φ /\ (r = Ok tt -> always d' p (fun v => v = Some (plain_file o600 raw))))
    (fun d' => always d' p Φ) d.
Proof.
  intros Hp Hne Hnew HΦ. unfold commit_index, syncDirectory, ebind, lift_sys.
  assert (Hu : forall v d, always d p Φ -> always (d_upd name v d) p Φ) by (intros v d0 H0'; by apply always_upd).
  assert (Hm : forall f d, always d p Φ -> always (d_mod name f d) p Φ) by (intros f d0 H0'; by apply always_mod).
  wp_steps; cbn [snd]; try no_error_absurd; repeat case_match; cbn [snd fst] in *; try discriminate; auto 10 with fs.
  4: (split; [by auto|intros [=]]).
  all: match goal with Hl : d_live (d_mod _ mark_synced _) !! _ = Some ?i |- _ =>
         rewrite !live_mod, !decide_True, Hnew in Hl by done; cbn in Hl; injection Hl as <-;
         change (mark_synced _) with (plain_file o600 raw) end.
  all: try (by apply Hu, always_upd; auto). split; [by apply always_sync, Hu, always_upd; auto|].
  intros _. destruct p as [dir base]. apply always_synced.
  by rewrite live_upd, decide_False, live_upd, decide_True by done.
Qed.

(** Writing the index: every value it may be found with is an old one or the new
    document, and only the new one after success. *)
Lemma writeIndex_wp l add d Φ :
  let p := index_path (lo_index l) in
  let new := Some (index_file (index_document l add)) in
  (is_Some (d_live d !! p) \/ has_prefix p.2 ".artifact-publications-" = false) -> always d p Φ -> Φ new ->
  wp no_error (writePublicationIndexLocked l add)
    (fun r d' => always d' p Φ /\ (r = Ok tt -> always d' p (fun v => v = new) /\
       len (json_marshal (index_document l add) +:+ newline) <= maximumIndexBytes))
    (fun d' => always d' p Φ) d.
Proof.
  intros p new Hname Hp HΦ. unfold writePublicationIndexLocked. fold p. wp_step; [apply wp_ret; split; [done|intros [=]]|].
  apply wp_ebind. unfold lift_sys. apply wp_bind. wp_step; [done|apply wp_ret; split; [done|intros [=]]|]. apply wp_ret.
  assert (Hne : t <> p).
  { intros ->. destruct Hname as [[i Hi]|Hpre]; [rewrite Htemp, temp_name_fresh in Hi; done|].
    destruct (temp_name_pattern p.1 ".artifact-publications-" digits d) as (s & Hs & _).
    rewrite Htemp in Hpre. cbn [snd] in Hpre. by rewrite Hs, has_prefix_app in Hpre. }
  apply wp_bind. eapply wp_mono; [apply (commit_index_wp p t _ _ Φ); [by apply always_upd|done|by rewrite live_upd, decide_True|exact HΦ]| |done].
  intros r d1 [H1 H2]. apply wp_bind.
  assert (Hlen : len (json_marshal (index_document l add) +:+ newline) <= maximumIndexBytes).
  { rewrite len_app. change (len newline) with 1. apply Z.ltb_ge in E. lia. }
  wp_step; [done|no_error_absurd|]. apply wp_ret. case_match; cbn [fst snd]; [|auto]. split; [by apply always_upd|].
  intros ->. split; [by apply always_upd; auto|done].
Qed.

Lemma index_document_lists l add d :
  d = add \/ lo_descriptors l !! de_Digest d = Some d -> d ∈ pi_Descriptors (index_document l add).
Proof.
  intros Hd. cbn [index_document pi_Descriptors]. rewrite sort_by_perm, elem_of_app, list_elem_of_singleton.
  destruct Hd as [->|Hl]; [by right|]. left. apply list_elem_of_fmap. exists (de_Digest d, d).
  split; [done|]. by apply elem_of_map_to_list.
Qed.

Lemma index_entries_spec previous entries ds :
  index_entries previous entries = Ok ds ->
  ds = entries /\ NoDup (de_Digest <$> entries) /\ Forall (fun e => str_ltb previous (de_Digest e) = true) entries.
Proof.
  revert previous ds. induction entries as [|e rest IH]; intros previous ds; cbn [index_entries].
  - intros [= <-]. split_and!; constructor.
  - intros [He Hr]%then_ok. apply rbind_ok in Hr as (ds' & Hr & [= <-]). apply fail_if_ok in He.
    apply orb_false_iff in He as [_ He]. destruct (IH _ _ Hr) as (-> & Hn & Hf).
    assert (Hlt : str_ltb previous (de_Digest e) = true) by (unfold str_leb in He; by destruct (str_ltb previous _)).
    split_and!; [done| |].
    + rewrite fmap_cons. constructor; [|done]. intros (e' & He' & Hin)%list_elem_of_fmap.
      rewrite Forall_forall in Hf. specialize (Hf e' Hin). rewrite He', str_ltb_irrefl in Hf. discriminate Hf.
    + constructor; [done|]. eapply Forall_impl; [exact Hf|]. intros x Hx. by eapply str_ltb_trans.
Qed.

Definition register_list (m : gmap string Descriptor) (ds : list Descriptor) : gmap string Descriptor :=
  foldl (fun m d => <[de_Digest d := d]> m) m ds.

Lemma register_list_other ds : forall m k,
  k ∉ de_Digest <$> ds -> register_list m ds !! k = m !! k.
Proof.
  induction ds as [|e ds IH]; intros m k Hk; [done|]. rewrite fmap_cons, not_elem_of_cons in Hk. destruct Hk as [Hk1 Hk2].
  cbn [register_list foldl]. change (register_list (<[de_Digest e := e]> m) ds !! k = m !! k).
  rewrite IH by done. by rewrite lookup_insert_ne.
Qed.

Lemma register_list_lookup ds : forall m d,
  NoDup (de_Digest <$> ds) -> d ∈ ds -> register_list m ds !! de_Digest d = Some d.
Proof.
  induction ds as [|e ds IH]; intros m d Hn Hd; [by apply elem_of_nil in Hd|].
  rewrite fmap_cons in Hn. apply NoDup_cons in Hn as [Hne Hn]. apply elem_of_cons in Hd as [->|Hd]; cbn [register_list foldl].
  - change (register_list (<[de_Digest e := e]> m) ds !! de_Digest e = Some e).
    by rewrite register_list_other, lookup_insert_eq.
  - by apply IH.
Qed.

Lemma register_all_wp S l ds d :
  wp S (register_all get l ds)
    (fun r d' => d' = d /\ forall l', r = Ok l' ->
       l' = {| lo_origin := lo_origin l; lo_index := lo_index l; lo_descriptors := register_list (lo_descriptors l) ds |})
    (fun d' => d' = d) d.
Proof.
  revert l d. induction ds as [|e ds IH]; intros l d; cbn [register_all].
  - apply wp_ret. split; [done|]. intros l' [= <-]. by destruct l.
  - apply wp_bind. eapply wp_mono; [apply get_verified| |done]. intros r d' [-> _].
    wp_step; [|apply wp_ret; split; [done|intros ? [=]]]. wp_step; [apply wp_ret; split; [done|intros ? [=]]|].
    apply IH.
Qed.

(** A descriptor with a valid media type reads back as itself. *)
Lemma text_descriptor_id desc :
  validDescriptor desc = true -> utf8_ValidString (de_MediaType desc) = true -> text_descriptor desc = desc.
Proof.
  intros Hv Hm. unfold text_descriptor. rewrite (utf8_fix_valid _ Hm), utf8_fix_ascii; [by destruct desc|].
  unfold validDescriptor in Hv. apply andb_true_iff in Hv as [Hv Hhex]. apply negb_true_iff in Hv. bool_props.
  match goal with Hp : has_prefix _ _ = true |- _ => apply has_prefix_spec in Hp as [hex Hd] end.
  rewrite Hd in *. rewrite trim_prefix_app in Hhex. unfold is_ascii. rewrite str_forallb_app. apply andb_true_iff. split; [done|].
  eapply str_forallb_impl; [|exact Hhex]. intros c. by destruct c as [[] [] [] [] [] [] [] []].
Qed.

Lemma text_index_lists (document : publicationIndex) desc :
  text_descriptor desc = desc -> desc ∈ pi_Descriptors document -> desc ∈ pi_Descriptors (json_text document).
Proof. intros Ht Hin. cbn [json_text text_index pi_Descriptors]. rewrite <- Ht. by apply list_elem_of_fmap_2. Qed.

Lemma readIndex_wp p d :
  wp any (readPublicationIndex p)
    (fun r d' => d' = d /\ forall ds, r = Ok ds -> NoDup (de_Digest <$> ds) /\
       forall desc, text_descriptor desc = desc -> lists desc (d_live d !! p) -> desc ∈ ds)
    (fun d' => d' = d) d.
Proof.
  unfold readPublicationIndex, ebind, lift_sys, lookup_sys. wp_step. wp_step; [done|apply wp_ret; split; [done|intros ? [=]]|].
  unfold lookup_sys. destruct (d_live d !! p) as [i|] eqn:Hi.
  2:{ apply wp_ret. split; [done|]. intros ds [= <-]. split; [constructor|]. intros desc _ (doc & Hdoc & _). discriminate Hdoc. }
  wp_step; [apply wp_ret; split; [done|intros ? [=]]|]. bool_props.
  wp_steps; cbn [fst snd] in *; try done; (split; [done|]; intros ds Hds; try discriminate Hds).
  rewrite Hi in E1. injection E1 as <-.
  assert (Hl : limit_read (maximumIndexBytes + 1) (i_data i) = i_data i).
  { unfold limit_read. by rewrite (proj2 (Z.leb_le _ _)) by lia. }
  rewrite Hl in Hds. destruct (json_unmarshal (i_data i)) as [document|] eqn:Hj; [|discriminate Hds].
  apply then_ok in Hds as [_ Hds]. destruct (index_entries_spec _ _ _ Hds) as (-> & Hn & _). split; [done|].
  intros desc Ht (document' & [= ->] & Hin). cbn [index_file plain_file i_data] in Hj.
  rewrite json_reads_nl in Hj by done. injection Hj as <-. by apply text_index_lists.
Qed.

Lemma OpenPersistent_wp origin resolved d :
  wp any (OpenPersistent get false origin index resolved)
    (fun r d' => d' = d /\ forall l, r = Ok l -> lo_index l = index /\
       forall desc, text_descriptor desc = desc -> lists desc (d_live d !! index_path index) -> lo_descriptors l !! de_Digest desc = Some desc)
    (fun d' => d' = d) d.
Proof.
  unfold OpenPersistent. destruct (New false origin) as [l0|e]; [|by apply wp_ret].
  do 2 (wp_step; [by apply wp_ret|]). apply wp_ebind. unfold lift_sys. wp_step. wp_step; [done|by apply wp_ret|]. apply wp_ret.
  destruct (lookup_sys _ _) as [i|e]; [|done]. wp_step; [by apply wp_ret|]. apply wp_ebind.
  eapply wp_mono; [apply readIndex_wp| |done]. intros [ds|e] d1 [-> Hds]; [|done]. destruct (Hds ds eq_refl) as [Hn Hin].
  eapply wp_mono; [apply register_all_wp| |done]. intros r d2 [-> Hr]. split; [done|]. intros l Hl.
  rewrite (Hr l Hl). split; [done|]. intros desc Ht Hd. apply register_list_lookup; auto.
Qed.

Lemma ArtifactURL_wp l add desc d :
  always d (index_path index) (lists desc) -> lo_index l = index ->
  lo_descriptors l !! de_Digest desc = Some desc ->
  wp no_error (ArtifactURL get l add)
    (fun r d' => always d' (index_path index) (lists desc) /\ lo_index r.2 = index /\
       lo_descriptors r.2 !! de_Digest desc = Some desc)
    (fun d' => always d' (index_path index) (lists desc)) d.
Proof.
  intros Ha Hi Hl. unfold ArtifactURL. wp_step; [by apply wp_ret|]. wp_step.
  eapply wp_mono; [apply get_verified| |by intros ? ->]. intros value d1 [-> _].
  wp_step; [|by apply wp_ret]. wp_step; [by apply wp_ret|]. wp_step; [by apply wp_ret|].
  assert (Hreg : lo_descriptors (registered l add) !! de_Digest desc = Some desc).
  { cbn [registered lo_descriptors]. destruct (decide (de_Digest add = de_Digest desc)) as [Heq|Hne]; [|by rewrite lookup_insert_ne].
    match goal with Hb : match _ with Some _ => _ | None => false end = false |- _ => rename Hb into Hsame end.
    rewrite Heq, Hl in Hsame. apply negb_false_iff, bool_decide_eq_true_1 in Hsame. by rewrite Heq, lookup_insert_eq, Hsame. }
  wp_step. wp_step.
  - subst index. eapply wp_mono; [apply (writeIndex_wp l add d (lists desc))| |done].
    + left. destruct (always_live _ _ _ Ha) as (doc & -> & _). by eexists.
    + done.
    + eexists. split; [done|]. apply index_document_lists. by right.
    + intros r d1 [H1 _]. wp_step; by apply wp_ret.
  - apply wp_ret. by apply wp_ret.
Qed.

Lemma durable_step desc s s' : text_descriptor desc = desc -> durable desc s -> publication_step s s' -> durable desc s'.
Proof.
  intros Ht [Ha Hl] Hs. inversion Hs as [origin resolved d l script rand o w Ho|l add d script rand o w HS Ho|d d' l Hc|d l|d d' l Hp];
    subst; cbn [ps_disk ps_locator] in *.
  - pose proof (wp_run _ _ _ (World d script rand) (OpenPersistent_wp origin resolved d)) as Hw. rewrite Ho in Hw.
    destruct o as [r|]; [|by rewrite Hw; split]. destruct Hw as [-> Hr]. split; [done|]. intros l' Hl'. cbn in Hl'.
    destruct r as [l1|e]; [|discriminate Hl']. injection Hl' as ->. destruct (Hr l' eq_refl) as [H1 H2].
    split; [done|]. apply H2; [done|]. by apply always_live in Ha.
  - destruct (Hl l eq_refl) as [Hi Hd].
    pose proof (ArtifactURL_wp l add desc d Ha Hi Hd script rand HS) as Hw. rewrite Ho in Hw.
    destruct o as [[r l1]|]; [|by split]. destruct Hw as (_ & H1 & H2 & H3). split; [done|]. intros l' [= <-]. done.
  - split; [|done]. intros v Hv. apply Ha. by apply Hc.
  - split; [done|]. intros l' [=].
  - split; [|intros l' [=]]. eapply always_power_loss; [|exact Ha|exact Hp].
    intros v v' (doc & -> & Hd) Hset. inversion Hset; subst; [|done]. by exists doc.
Qed.

(** The first publication of a descriptor. *)
Lemma ArtifactURL_new_wp l desc d :
  lo_index l = index -> index <> "" -> has_prefix (path_Base index) ".artifact-publications-" = false ->
  lo_descriptors l !! de_Digest desc = None ->
  wp no_error (ArtifactURL get l desc)
    (fun r d' => forall url, r.1 = Ok url -> r.2 = registered l desc /\
       always d' (index_path index) (fun v => v = Some (index_file (index_document l desc))) /\
       len (json_marshal (index_document l desc) +:+ newline) <= maximumIndexBytes /\ validDescriptor desc = true)
    (fun _ => True) d.
Proof.
  intros Hi Hne Hname Hnone. unfold ArtifactURL. rewrite Hnone, Hi, (proj2 (String.eqb_neq _ _) Hne).
  rewrite bool_decide_eq_false_2 by (intros [? [=]]). cbn [negb andb].
  wp_step; [by apply wp_ret|]. wp_step. eapply wp_mono; [apply get_verified| |done]. intros value d1 [-> _].
  wp_step; [|by apply wp_ret]. wp_step; [by apply wp_ret|]. wp_step. subst index.
  eapply wp_mono; [apply (writeIndex_wp l desc d (fun _ => True)); [by right|done|done]| |done].
  intros r d1 [_ H2]. destruct r as [[]|e]; apply wp_ret; intros url [= <-]. destruct (H2 eq_refl). split_and!; try done. by apply negb_false_iff.
Qed.

(** C15. A publication is not lost or changed as long as no file operation of a
    publication returns an error (the process may die and the power may fail at
    any moment): once [ArtifactURL] has added a descriptor with a valid UTF-8
    media type to the index, in every later history of openings, under any
    faults, of such publications, of process deaths and of power losses the
    index lists it, and every locator opened on it has the same digest, media
    type and size registered.  [failed_write_published] and
    [unsynced_publication_reported] show what an error can do. *)
Theorem publication_durable l descriptor d script rand url l1 w s
    (Hindex : lo_index l = index) (Hpersistent : index <> "")
    (Hname : has_prefix (path_Base index) ".artifact-publications-" = false)
    (Hnew : lo_descriptors l !! de_Digest descriptor = None) (Hmedia : utf8_ValidString (de_MediaType descriptor) = true)
    (Hfaults : Forall no_error script)
    (Hpublished : ArtifactURL get l descriptor (World d script rand) = (Done (Ok url, l1), w))
    (Hlater : rtc publication_step {| ps_disk := w_disk w; ps_locator := Some l1 |} s) :
  always (ps_disk s) (index_path index) (lists descriptor) /\
  forall l', ps_locator s = Some l' -> lo_descriptors l' !! de_Digest descriptor = Some descriptor.
Proof.
  assert (Hd : text_descriptor descriptor = descriptor /\ durable descriptor {| ps_disk := w_disk w; ps_locator := Some l1 |}).
  { pose proof (ArtifactURL_new_wp l descriptor d Hindex Hpersistent Hname Hnew script rand Hfaults) as Hw.
    rewrite Hpublished in Hw. destruct Hw as [_ Hw]. destruct (Hw url eq_refl) as (Hl & Ha & _ & Hv). cbn [snd] in Hl. subst l1.
    split; [by apply text_descriptor_id|]. split.
    - eapply always_mono; [exact Ha|]. intros v ->. eexists. split; [done|]. apply index_document_lists. by left.
    - intros l' [= <-]. split; [done|]. cbn. by rewrite lookup_insert_eq. }
  destruct Hd as [Ht Hd]. clear -Ht Hd Hlater laws verified. induction Hlater as [s|s s1 s2 Hs Hr IH].
  - destruct Hd as [Ha Hl]. split; [done|]. intros l' Hl'. by apply Hl.
  - apply IH. by eapply durable_step.
Qed.



(** ** Restoring the index *)

(** The objects of the descriptors are in the store. *)
Definition intact (d : disk) (desc : Descriptor) : Prop :=
  wp no_fault (get None false (de_Digest desc))
    (fun r d' => d' = d /\ exists v, r = Ok v /\ len v = de_SizeBytes desc) (fun _ => False) d.

(** What a locator has registered is keyed by its digest and was checked. *)
Definition well_registered (l : Locator) : Prop :=
  map_Forall (fun k desc => k = de_Digest desc /\ validDescriptor desc = true) (lo_descriptors l).

Lemma valid_digest_nonempty desc : validDescriptor desc = true -> str_ltb "" (de_Digest desc) = true.
Proof.
  unfold validDescriptor. intros Hv. bool_props. destruct (de_Digest desc); [|done].
  match goal with Hl : len "" = _ |- _ => vm_compute in Hl; discriminate Hl end.
Qed.

Lemma index_entries_ok previous es :
  StronglySorted (key_le de_Digest) es -> NoDup (de_Digest <$> es) ->
  Forall (fun e => validDescriptor e = true /\ str_ltb previous (de_Digest e) = true) es ->
  index_entries previous es = Ok es.
Proof.
  revert previous. induction es as [|e es IH]; intros previous Hs Hn Hf; [done|].
  apply StronglySorted_inv in Hs as [Hs Hle]. rewrite fmap_cons in Hn. apply NoDup_cons in Hn as [Hne Hn].
  apply Forall_cons in Hf as [[Hv Hlt] Hf]. cbn [index_entries]. unfold str_leb. rewrite Hv, Hlt. cbn [negb orb fail_if].
  cbn [rbind]. rewrite IH; [done|done|done|]. rewrite Forall_forall in *. intros x Hx. destruct (Hf x Hx) as [Hvx _].
  split; [done|]. specialize (Hle x Hx). unfold key_le, str_le in Hle. apply str_leb_spec in Hle as [?|Heq]; [done|].
  exfalso. apply Hne. rewrite Heq. apply list_elem_of_fmap. by exists x.
Qed.

Lemma index_document_nodup l desc :
  well_registered l -> lo_descriptors l !! de_Digest desc = None ->
  NoDup (de_Digest <$> pi_Descriptors (index_document l desc)).
Proof.
  intros Hw Hnone. cbn [index_document pi_Descriptors]. rewrite sort_by_perm, fmap_app. apply NoDup_app.
  assert (Hk : de_Digest <$> (map_to_list (lo_descriptors l)).*2 = (map_to_list (lo_descriptors l)).*1).
  { rewrite <- list_fmap_compose. apply list_fmap_ext. intros i [k x] Hx. cbn.
    apply list_elem_of_lookup_2, elem_of_map_to_list in Hx. by destruct (Hw k x Hx) as [-> _]. }
  rewrite Hk. split_and!; [apply NoDup_fst_map_to_list| |apply NoDup_singleton].
  intros k ([k' x] & -> & Hx)%list_elem_of_fmap. cbn. intros Hin%list_elem_of_singleton.
  apply elem_of_map_to_list in Hx. congruence.
Qed.

Lemma index_document_valid l desc e :
  well_registered l -> validDescriptor desc = true -> e ∈ pi_Descriptors (index_document l desc) ->
  validDescriptor e = true /\ (e = desc \/ lo_descriptors l !! de_Digest e = Some e).
Proof.
  intros Hw Hv. cbn [index_document pi_Descriptors]. rewrite sort_by_perm, elem_of_app, list_elem_of_singleton.
  intros [Hin| ->]; [|auto]. apply list_elem_of_fmap in Hin as ([k x] & -> & Hx). cbn.
  apply elem_of_map_to_list in Hx. destruct (Hw k x Hx) as [-> Hvx]. auto.
Qed.

Lemma register_document l desc :
  well_registered l -> validDescriptor desc = true -> lo_descriptors l !! de_Digest desc = None ->
  register_list ∅ (pi_Descriptors (index_document l desc)) = lo_descriptors (registered l desc).
Proof.
  intros Hw Hv Hnone. pose proof (index_document_nodup l desc Hw Hnone) as Hn. apply map_eq. intros k.
  destruct (lo_descriptors (registered l desc) !! k) as [e|] eqn:He; cbn [registered lo_descriptors] in He.
  - assert (Hk : k = de_Digest e /\ e ∈ pi_Descriptors (index_document l desc)).
    { apply lookup_insert_Some in He as [[<- <-]|[_ He]].
      - split; [done|]. apply index_document_lists. by left.
      - destruct (Hw k e He) as [-> _]. split; [done|]. apply index_document_lists. by right. }
    destruct Hk as [-> Hin]. by apply register_list_lookup.
  - apply lookup_insert_None in He as [He1 He2]. rewrite register_list_other; [by rewrite lookup_empty|].
    intros (e & -> & Hin)%list_elem_of_fmap. destruct (index_document_valid l desc e Hw Hv Hin) as [_ [->|He]]; congruence.
Qed.

Lemma register_all_ok d ds : forall l, Forall (intact d) ds ->
  wp no_fault (register_all get l ds)
    (fun r d' => d' = d /\ r = Ok {| lo_origin := lo_origin l; lo_index := lo_index l;
                                     lo_descriptors := register_list (lo_descriptors l) ds |})
    (fun _ => False) d.
Proof.
  induction ds as [|e ds IH]; intros l Hf; cbn [register_all].
  - apply wp_ret. split; [done|]. by destruct l.
  - apply Forall_cons in Hf as [He Hf]. apply wp_bind. eapply wp_mono; [exact He| |done].
    intros r d1 [-> (v & -> & Hlen)]. rewrite Hlen, Z.eqb_refl. cbn [negb]. by apply IH.
Qed.

Lemma readIndex_ok p document d :
  d_live d !! p = Some (index_file document) -> len (json_marshal document +:+ newline) <= maximumIndexBytes ->
  json_text document = document -> pi_Schema document = publicationIndexSchema ->
  index_entries "" (pi_Descriptors document) = Ok (pi_Descriptors document) ->
  wp no_fault (readPublicationIndex p) (fun r d' => d' = d /\ r = Ok (pi_Descriptors document)) (fun _ => False) d.
Proof.
  intros Hi Hlen Ht Hschema Hes. unfold readPublicationIndex, ebind, lift_sys.
  assert (Hs : lookup_sys p d = SOk (index_file document)) by (unfold lookup_sys; by rewrite Hi).
  assert (Hl : limit_read (maximumIndexBytes + 1) (json_marshal document +:+ newline) = json_marshal document +:+ newline).
  { unfold limit_read. by rewrite (proj2 (Z.leb_le _ _)) by lia. }
  wp_ok. wp_ok. rewrite Hs. cbn [index_file plain_file i_kind i_perm i_data].
  rewrite (proj2 (Z.ltb_ge _ _) Hlen). cbn [negb orb bool_decide]. rewrite bool_decide_eq_true_2 by done. cbn [negb orb].
  change (negb (o600 =? o600) || false) with false. cbv iota. wp_ok. wp_ok. wp_ok. wp_ok. wp_ok. wp_ok. wp_ok.
  wp_ok. rewrite Hs. rewrite bool_decide_eq_true_2 by done. cbn [index_file plain_file i_kind i_perm].
  rewrite bool_decide_eq_true_2, Z.eqb_refl by done. cbn [negb orb]. cbv iota. wp_ok. wp_ok. wp_ok. rewrite Hi. cbn [fst snd]. wp_ok.
  cbn [index_file plain_file i_data]. rewrite Hl, json_reads_nl, Ht by done. apply wp_ret. split; [done|]. rewrite Hschema, String.eqb_refl. cbn [negb fail_if rbind]. done.
Qed.

(** Restart: after the power loss that follows the first publication of a
    descriptor, a locator opened without faults on the index, with the objects
    in the store, has registered exactly what the publishing one had. *)
Theorem reopen_restores l desc d script rand url l1 w d' resolved
    (Hindex : lo_index l = index) (Hcanonical : filepath_IsAbs index = true /\ path_Clean index = index)
    (Hname : has_prefix (path_Base index) ".artifact-publications-" = false)
    (Horigin : New false (lo_origin l) = Ok {| lo_origin := lo_origin l; lo_index := ""; lo_descriptors := ∅ |})
    (Hregistered : well_registered l)
    (Hmedia : Forall (fun e => utf8_ValidString (de_MediaType e) = true) (pi_Descriptors (index_document l desc))) (Hnew : lo_descriptors l !! de_Digest desc = None)
    (Hfaults : Forall no_error script)
    (Hpublished : ArtifactURL get l desc (World d script rand) = (Done (Ok url, l1), w))
    (Hloss : power_loss (w_disk w) d')
    (Hparent : resolved = Some (filepath_Dir index)) (Hprivate : d_live d' !! ("", filepath_Dir index) = Some dir_inode)
    (Hintact : Forall (intact d') (pi_Descriptors (index_document l desc))) :
  exists w', OpenPersistent get false (lo_origin l) index resolved (World d' [] []) = (Done (Ok l1), w') /\ w_disk w' = d'.
Proof.
  destruct Hcanonical as [Habs Hclean].
  assert (Hne : index <> "") by (intros Heq; rewrite Heq in Habs; discriminate Habs).
  pose proof (ArtifactURL_new_wp l desc d Hindex Hne Hname Hnew script rand Hfaults) as Hw.
  rewrite Hpublished in Hw. destruct Hw as [_ Hw]. destruct (Hw url eq_refl) as (Hl & Ha & Hlen & Hv). cbn [fst snd] in *. subst l1.
  set (document := index_document l desc) in *.
  assert (Hlive : d_live d' !! index_path index = Some (index_file document)).
  { apply (always_power_loss _ d') in Ha; [by apply always_live in Ha| |done].
    intros v v' -> Hset. by inversion Hset. }
  assert (Hes : index_entries "" (pi_Descriptors document) = Ok (pi_Descriptors document)).
  { apply index_entries_ok; [apply sort_by_sorted|by apply index_document_nodup|].
    apply Forall_forall. intros e He. destruct (index_document_valid l desc e Hregistered Hv He) as [Hve _].
    split; [done|by apply valid_digest_nonempty]. }
  assert (Htext : json_text document = document).
  { unfold document. cbn [json_text text_index]. rewrite utf8_fix_ascii by done.
    assert (Hmap : text_descriptor <$> pi_Descriptors (index_document l desc) = pi_Descriptors (index_document l desc)).
    { rewrite <- (list_fmap_id (pi_Descriptors _)) at 2. apply list_fmap_ext. intros i e He. apply text_descriptor_id.
      - apply list_elem_of_lookup_2 in He. by destruct (index_document_valid l desc e Hregistered Hv He).
      - exact (Forall_lookup_1 _ _ _ _ Hmedia He). }
    by rewrite Hmap. }
  assert (Hwp : wp no_fault (OpenPersistent get false (lo_origin l) index resolved)
    (fun r d1 => d1 = d' /\ r = Ok (registered l desc)) (fun _ => False) d').
  { unfold OpenPersistent. rewrite Horigin, Habs, Hclean, String.eqb_refl, bool_decide_eq_true_2 by done. cbn [negb orb].
    apply wp_ebind. unfold lift_sys. wp_ok. wp_ok. unfold lookup_sys. rewrite Hprivate. cbn [dir_inode i_kind i_perm].
    apply wp_ret. rewrite bool_decide_eq_true_2, Z.eqb_refl by done. cbn [negb orb].
    apply wp_ebind. eapply wp_mono; [by apply (readIndex_ok _ document _ Hlive Hlen Htext)| |done]. intros r d1 [-> ->].
    eapply wp_mono; [by apply register_all_ok| |done]. intros r d1 [-> ->]. split; [done|].
    cbn [lo_origin lo_index lo_descriptors]. unfold document. rewrite register_document by done. by subst index. }
  specialize (Hwp [] [] (proj2 (Forall_nil _) I)).
  destruct (OpenPersistent _ _ _ _ _ _) as [[r|] w']; [|done]. destruct Hwp as (_ & Hd & ->). by exists w'.
Qed.

(** ** Serving *)

(** A 200 answer carries the bytes the requested digest names. *)
Lemma Handler_wp S l ctx late request d :
  wp S (Handler get l ctx late request)
    (fun r d' => d' = d /\ forall status headers body, r = Response status headers body ->
       exists hex desc value, hq_Path request = pathPrefix +:+ hex /\
         lo_descriptors l !! ("sha256:" +:+ hex) = Some desc /\
         digest value = "sha256:" +:+ hex /\ len value = de_SizeBytes desc /\
         status = StatusOK /\ headers = ok_headers desc hex value /\
         body = (if hq_Method request =s? "HEAD" then "" else value))
    (fun d' => d' = d) d.
Proof.
  unfold Handler. wp_step; [by apply wp_ret|]. destruct (cut_prefix _ _) as [hex|] eqn:Hcut; [|by apply wp_ret].
  apply cut_prefix_spec in Hcut. wp_step; [by apply wp_ret|].
  destruct (lo_descriptors l !! ("sha256:" +:+ hex)) as [desc|] eqn:Hdesc; [|by apply wp_ret].
  wp_step. eapply wp_mono; [apply get_verified| |done]. intros value d1 [-> Hvalue].
  destruct value as [value|e]; [|by apply wp_ret]. wp_step; [by apply wp_ret|]. wp_step; [by apply wp_ret|].
  apply wp_ret. split; [done|]. intros status headers body [= <- <- <-]. bool_props.
  exists hex, desc, value. split_and!; done.
Qed.

(** What the handler serves: an answer with a body or the headers of an
    object is only given for a registered descriptor, its content has the
    requested digest and the registered size and media type, whatever the
    store's files hold and whatever faults occur, and nothing is written. *)
Theorem handler_serves_verified l ctx late request w status headers body w'
    (Hserved : Handler get l ctx late request w = (Done (Response status headers body), w')) :
  w_disk w' = w_disk w /\ status = StatusOK /\
  exists hex desc value, hq_Path request = pathPrefix +:+ hex /\
    lo_descriptors l !! ("sha256:" +:+ hex) = Some desc /\
    digest value = "sha256:" +:+ hex /\ len value = de_SizeBytes desc /\
    header_of headers "Content-Type" = de_MediaType desc /\ header_of headers "ETag" = quoted hex /\
    body = (if hq_Method request =s? "HEAD" then "" else value).
Proof.
  pose proof (wp_run _ _ _ w (Handler_wp any l ctx late request (w_disk w))) as Hw. rewrite Hserved in Hw.
  destruct Hw as [Hd Hr]. destruct (Hr _ _ _ eq_refl) as (hex & desc & value & H1 & H2 & H3 & H4 & -> & -> & H5).
  split_and!; [done|done|]. exists hex, desc, value. split_and!; done.
Qed.

Lemma valid_digest_pattern desc :
  validDescriptor desc = true ->
  exists hex, de_Digest desc = "sha256:" +:+ hex /\ String.length hex = 64%nat /\ str_forallb is_lower_hex hex = true.
Proof.
  unfold validDescriptor. intros [Hv Hhex]%andb_true_iff. apply negb_true_iff in Hv. bool_props.
  match goal with Hp : has_prefix _ _ = true |- _ => apply has_prefix_spec in Hp as [hex Hd] end.
  exists hex. rewrite Hd in *. rewrite trim_prefix_app in Hhex. split_and!; [done| |done].
  match goal with Hl : len _ = _ |- _ => rewrite len_app in Hl; unfold len at 2 in Hl end. lia.
Qed.

Lemma hex_no_slash hex : str_forallb is_lower_hex hex = true -> contains_byte hex "/" = false.
Proof.
  intros Hs. unfold contains_byte, str_existsb. apply negb_false_iff. eapply str_forallb_impl; [|exact Hs].
  intros c Hc. apply negb_true_iff, Ascii.eqb_neq. intros <-. discriminate Hc.
Qed.

(** What a successful publication returns and registers. *)
Lemma ArtifactURL_ok_wp l desc d :
  wp any (ArtifactURL get l desc)
    (fun r _ => forall url, r.1 = Ok url -> validDescriptor desc = true /\
       lo_descriptors r.2 !! de_Digest desc = Some desc /\
       url = lo_origin l +:+ pathPrefix +:+ trim_prefix (de_Digest desc) "sha256:")
    (fun _ => True) d.
Proof.
  unfold ArtifactURL. wp_step; [by apply wp_ret|]. apply negb_false_iff in E.
  wp_step. eapply wp_mono; [apply get_verified| |done]. intros value d1 _.
  wp_step; [|by apply wp_ret]. wp_step; [by apply wp_ret|]. wp_step; [by apply wp_ret|]. wp_step.
  eapply wp_mono; [apply wp_true| |done]. intros r d2 _. destruct r; apply wp_ret; intros url [= <-].
  split_and!; [done| |done]. cbn. by rewrite lookup_insert_eq.
Qed.

(** Published and served: the URL [ArtifactURL] returns is the origin
    followed by the path of the digest, and a later GET of that path, without
    faults and with the object in the store, is answered with content of that
    digest and the published media type. *)
Theorem published_is_served l desc w url l1 w1 d' request
    (Hpublished : ArtifactURL get l desc w = (Done (Ok url, l1), w1))
    (Hintact : intact d' desc)
    (Hget : hq_Method request = "GET" /\ hq_RawQuery request = "" /\ hq_Fragment request = "")
    (Hpath : lo_origin l +:+ hq_Path request = url) :
  exists headers value w', Handler get l1 None false request (World d' [] []) = (Done (Response StatusOK headers value), w') /\
    digest value = de_Digest desc /\ len value = de_SizeBytes desc /\
    header_of headers "Content-Type" = de_MediaType desc.
Proof.
  pose proof (wp_run _ _ _ w (ArtifactURL_ok_wp l desc (w_disk w))) as Hw. rewrite Hpublished in Hw.
  destruct (Hw url eq_refl) as (Hv & Hreg & Hurl). cbn [snd] in Hreg.
  destruct (valid_digest_pattern desc Hv) as (hex & Hd & Hlen & Hhex). rewrite Hd in Hreg, Hurl. rewrite trim_prefix_app in Hurl.
  rewrite Hurl in Hpath. apply str_app_inj in Hpath as [_ Hpath]; [|done]. destruct Hget as (Hm & Hq & Hf).
  assert (Hwp : wp no_fault (Handler get l1 None false request)
    (fun r _ => exists value, r = Response StatusOK (ok_headers desc hex value) value /\ digest value = de_Digest desc /\
       len value = de_SizeBytes desc) (fun _ => False) d').
  { unfold Handler. rewrite Hm, Hq, Hf, (proj2 (cut_prefix_spec _ _ _) Hpath).
    change (("GET" <>s? "GET") && ("GET" <>s? "HEAD") || ("" <>s? "") || ("" <>s? "")) with false. cbv iota.
    assert (Hl : len hex = 64) by (unfold len; lia). rewrite Hl, hex_no_slash, ToLower_hex, String.eqb_refl, Hreg by done.
    cbn [negb orb Z.eqb Pos.eqb]. wp_step.
    unfold intact in Hintact. rewrite Hd in Hintact.
    eapply wp_mono; [exact (wp_and _ _ _ _ _ _ _ (get_verified no_fault None false ("sha256:" +:+ hex) d') Hintact)| |by intros ? [? ?]].
    - intros r d1 [[-> Hdig] [_ (value & -> & Hsize)]]. specialize (Hdig value eq_refl).
      rewrite Hsize, Z.eqb_refl, Hdig, String.eqb_refl. cbn [negb]. apply wp_ret. exists value. by rewrite Hd. }
  specialize (Hwp [] [] (proj2 (Forall_nil _) I)).
  destruct (Handler _ _ _ _ _ _) as [[r|] w']; [|done]. destruct Hwp as (_ & value & -> & H1 & H2).
  exists (ok_headers desc hex value), value, w'. done.
Qed.

End History.

(** ** Witnesses *)

Module PublicationSamples.

(** Texts of the form https://host. *)
#[export] Instance simple_url : NetUrl := {| url_Parse s :=
  match cut_prefix s "https://" with
  | Some host => if str_forallb is_lower host
                 then Some {| ur_Scheme := "https"; ur_User := false; ur_Host := host; ur_Path := ""; ur_RawPath := "";
                              ur_RawQuery := ""; ur_Fragment := "" |} else None
  | None => None
  end |}.

Fixpoint of_triples (l : list string) : option (list Descriptor) :=
  match l with
  | [] => Some []
  | a :: b :: c :: rest =>
      (cons {| de_Digest := a; de_MediaType := b; de_SizeBytes := get_Z c |}) <$> of_triples rest
  | _ => None
  end.

#[refine, export] Instance index_fields : Fields publicationIndex := {|
  to_fields i := pi_Schema i :: concat ((fun d => [de_Digest d; de_MediaType d; put_Z (de_SizeBytes d)]) <$> pi_Descriptors i);
  of_fields l := match l with
                 | schema :: rest => (fun ds => {| pi_Schema := schema; pi_Descriptors := ds |}) <$> of_triples rest
                 | [] => None
                 end;
  of_to_fields := _;
|}.
Proof.
  intros [schema ds]. cbn [pi_Schema pi_Descriptors]. induction ds as [|[a b c] ds IH]; [done|]. rewrite fmap_cons. simpl in *.
  destruct (of_triples _) as [ds'|]; [|discriminate IH]. simpl in *. by rewrite get_put_Z; injection IH as ->.
Defined.

#[export] Instance index_json : Json publicationIndex := TextFieldsJson.
#[export] Instance index_json_laws : JsonTextLaws publicationIndex := TextFieldsJsonLaws.

Definition store : Store := {| st_objects := "/store/objects"; st_maximum := 65536 |}.
#[export] Instance store_verified : VerifiedStore (Get store) := artifact_store store ltac:(discriminate).

Definition index : string := "/index/publications.json".
Definition empty : Locator := {| lo_origin := "https://provider"; lo_index := index; lo_descriptors := ∅ |}.
Definition descriptor : Descriptor :=
  {| de_Digest := digest "artifact"; de_MediaType := "application/x-tar"; de_SizeBytes := 8 |}.
Definition object : inode := Inode Regular o400 true true "artifact" true.
Definition start : world :=
  World (Disk {[("", "/index") := dir_inode; object_path store (digest "artifact") := object]} ∅ []) [] ["1"; "2"].
Definition published : outcome (result string * Locator) * world := ArtifactURL (Get store) empty descriptor start.
Definition url : string := "https://provider/v1/artifacts/sha256/" +:+ trim_prefix (digest "artifact") "sha256:".
Definition request : HttpRequest :=
  {| hq_Method := "GET"; hq_Path := "/v1/artifacts/sha256/" +:+ trim_prefix (digest "artifact") "sha256:"; hq_RawQuery := "";
     hq_Fragment := ""; hq_Header := fun _ => ""; hq_ContentLength := 0; hq_Body := "" |}.

Lemma published_run : published = (Done (Ok url, registered empty descriptor), published.2).
Proof. apply pair_fst. vm_compute. reflexivity. Qed.

Lemma object_intact d :
  d_live d !! object_path store (digest "artifact") = Some object -> intact (Get store) d descriptor.
Proof.
  intros Hi. unfold intact. eapply wp_mono; [apply (Get_good store (digest "artifact") object d)| |done].
  - discriminate.
  - apply digest_matches.
  - discriminate.
  - done.
  - split_and!; [done|done|vm_compute; discriminate|done].
  - intros r d' [-> ->]. split; [done|]. by exists "artifact".
Qed.

(** The disk after the publication and a power loss: every name was
    synchronised. *)
Definition after_loss : disk := Disk (d_live (w_disk published.2)) ∅ [].

(** A publication that fails only in the synchronisation of the directory. *)
Definition unsynced : outcome (result string * Locator) * world :=
  ArtifactURL (Get store) empty descriptor
    (World (w_disk start) (replicate 11 DOk ++ [DFail]) ["1"]).
Definition reopened : outcome (result Locator) * world :=
  OpenPersistent (Get store) false "https://provider" index (Some "/index") (World (w_disk unsynced.2) [] []).
Definition republished : outcome (result string * Locator) * world :=
  ArtifactURL (Get store) (registered empty descriptor) descriptor (World (w_disk reopened.2) [] []).

(** A publication in which the write of the temporary index fails. *)
Definition unwritten : outcome (result string * Locator) * world :=
  ArtifactURL (Get store) empty descriptor (World (w_disk start) (replicate 6 DOk ++ [DFail]) ["1"]).

End PublicationSamples.
Import PublicationSamples.
#[local] Existing Instances simple_url index_fields index_json index_json_laws store_verified.

Lemma published_ok :
  ArtifactURL (Get store) empty descriptor (World (w_disk start) [] ["1"; "2"]) =
  (Done (Ok url, registered empty descriptor), published.2).
Proof. exact published_run. Qed.

Lemma publication_durable_witness :
  lists descriptor (d_live (w_disk published.2) !! index_path index).
Proof.
  assert (Hm : utf8_ValidString (de_MediaType descriptor) = true) by (vm_compute; reflexivity).
  exact (always_live _ _ _ (proj1 (publication_durable (Get store) index empty descriptor (w_disk start) [] ["1"; "2"]
    url (registered empty descriptor) published.2 {| ps_disk := w_disk published.2; ps_locator := None |} eq_refl
    ltac:(discriminate) eq_refl eq_refl Hm (Forall_nil_2 _) published_ok
    (rtc_once _ _ (publication_death _ _ _ _))))).
Defined.

Lemma published_is_served_witness :
  exists headers value w', Handler (Get store) (registered empty descriptor) None false request (World (w_disk published.2) [] [])
    = (Done (Response StatusOK headers value), w') /\
    digest value = de_Digest descriptor /\ len value = de_SizeBytes descriptor /\
    header_of headers "Content-Type" = de_MediaType descriptor.
Proof.
  apply (published_is_served (Get store) empty descriptor start url (registered empty descriptor) published.2).
  - exact published_run.
  - apply object_intact. vm_compute. reflexivity.
  - split_and!; reflexivity.
  - reflexivity.
Defined.

Lemma reopen_restores_witness :
  exists w', OpenPersistent (Get store) false "https://provider" index (Some "/index") (World after_loss [] []) =
    (Done (Ok (registered empty descriptor)), w') /\ w_disk w' = after_loss.
Proof.
  refine (reopen_restores (Get store) index empty descriptor (w_disk start) [] ["1"; "2"] url
    (registered empty descriptor) published.2 after_loss (Some "/index") eq_refl (conj eq_refl eq_refl) eq_refl eq_refl
    _ _ _ _ published_ok _ eq_refl _ _).
  - intros k x Hx. discriminate Hx.
  - change (pi_Descriptors (index_document empty descriptor)) with [descriptor]. constructor; [vm_compute; reflexivity|constructor].
  - reflexivity.
  - constructor.
  - split_and!; [reflexivity|vm_compute; reflexivity|]. intros p. exists (d_live (w_disk published.2) !! p). split; [by left|].
    assert (Hsynced : map_Forall (fun _ i => i_synced i = true) (d_live (w_disk published.2))).
    { apply (bool_decide_eq_true_1 _). vm_compute. reflexivity. }
    change (d_live after_loss) with (d_live (w_disk published.2)).
    destruct (d_live (w_disk published.2) !! p) as [i|] eqn:Hi; [|apply settles_none].
    apply settles_synced. exact (Hsynced p i Hi).
  - vm_compute. reflexivity.
  - change (pi_Descriptors (index_document empty descriptor)) with [descriptor].
    constructor; [|constructor]. apply object_intact. vm_compute. reflexivity.
Defined.

Lemma handler_serves_verified_witness :
  exists hex desc value, hq_Path request = pathPrefix +:+ hex /\
    lo_descriptors (registered empty descriptor) !! ("sha256:" +:+ hex) = Some desc /\
    digest value = "sha256:" +:+ hex /\ len value = de_SizeBytes desc.
Proof.
  destruct (handler_serves_verified (Get store) (registered empty descriptor) None false request (World (w_disk published.2) [] [])
    StatusOK (ok_headers descriptor (trim_prefix (digest "artifact") "sha256:") "artifact") "artifact"
    (Handler (Get store) (registered empty descriptor) None false request (World (w_disk published.2) [] [])).2)
    as (_ & _ & hex & desc & value & H1 & H2 & H3 & H4 & _).
  - apply pair_fst. vm_compute. reflexivity.
  - exists hex, desc, value. split_and!; assumption.
Defined.

(** A publication may be reported although a power loss can forget it: when the
    synchronisation of the directory fails, [ArtifactURL] reports an error but
    the renamed index stays; a restarted worker reads it back, and the next
    [ArtifactURL] finds the descriptor registered and returns the URL without
    writing, while the index may still be found missing after a power loss. *)
Example unsynced_publication_reported :
  unsynced.1 = Done (Err "sync artifact publication index directory", empty) /\
  reopened.1 = Done (Ok (registered empty descriptor)) /\
  republished.1 = Done (Ok url, registered empty descriptor) /\
  old_values (w_disk republished.2) (index_path index) = [None].
Proof. split_and!; vm_compute; reflexivity. Qed.

(** A media type that is not valid UTF-8 changes in the index: after a restart
    the same descriptor conflicts with its own publication. *)
Definition bad_descriptor : Descriptor :=
  {| de_Digest := digest "artifact"; de_MediaType := String (ascii_of_nat 255) ""; de_SizeBytes := 8 |}.
Definition bad_published : outcome (result string * Locator) * world := Eval vm_compute in ArtifactURL (Get store) empty bad_descriptor start.
Definition bad_reopened : outcome (result Locator) * world := Eval vm_compute in
  OpenPersistent (Get store) false "https://provider" index (Some "/index") (World (w_disk bad_published.2) [] []).

Example media_type_changes :
  bad_published.1 = Done (Ok url, registered empty bad_descriptor) /\
  exists l, bad_reopened.1 = Done (Ok l) /\
    (ArtifactURL (Get store) l bad_descriptor bad_reopened.2).1 =
      Done (Err "artifact descriptor conflicts with published metadata", l).
Proof. split; [vm_compute; reflexivity|]. eexists. split; [vm_compute; reflexivity|]. vm_compute. reflexivity. Qed.

(** A failed write is published: [ArtifactURL] reports success although the
    write of the temporary index failed, and the index it renamed is empty, so
    that the next start is refused. *)
Example failed_write_published :
  unwritten.1 = Done (Ok url, registered empty descriptor) /\
  (i_data <$> d_live (w_disk unwritten.2) !! index_path index) = Some "" /\
  (OpenPersistent (Get store) false "https://provider" index (Some "/index") (World (w_disk unwritten.2) [] [])).1
    = Done (Err "decode artifact publication index").
Proof. split_and!; vm_compute; reflexivity. Qed.
