(* ===== verification/AdapterProtocol.v ===== *)
(** * The commercial protocol the transport adapters share

    pkg/a2aadapter, pkg/mcpadapter and pkg/agentpacketadapter admit work through
    the same four interfaces: the finalized execution gate, the software-work
    runner, the artifact locator and the settler.  An adapter is a program over
    the calls of these interfaces; [proto] is the order in which the calls may
    occur and what binds them together, and [safe] says that a program follows it
    whatever the components answer.  Two interpretations follow: the traces of
    calls ([runs]), and the execution in a world with files, faults and process
    deaths ([perform]). *)

From S2P Require Import Prelude GoStd GoText GoHttp Sha256 FS ArtifactStore Journal Runner.

(** ** The interfaces *)

(** [executiongate.Request] and [executiongate.Evidence]. *)
Record GateRequest := {
  cq_EscrowAddress : string;
  cq_QuoteCommitment : string;
  cq_ExecutionID : string;
  cq_InputDigest : string;
  cq_SourceDigest : string;
}.

Record Evidence := {
  ev_NetworkID : string;
  ev_ProviderAgentID : string;
  ev_CapabilityID : string;
  ev_CapabilityVersion : string;
  ev_ManifestDigest : string;
  ev_QuoteCommitment : string;
  ev_EscrowAddress : string;
  ev_ProviderAddress : string;
  ev_EscrowCodeHash : string;
  ev_RegistryCodeHash : string;
  ev_EscrowTransactionHash : string;
  ev_AgentTransactionHash : string;
  ev_CapabilityTransactionHash : string;
  ev_EscrowFinalizedCheckpoint : Z;
  ev_AgentFinalizedCheckpoint : Z;
  ev_CapabilityFinalizedCheckpoint : Z;
}.

(** A call and the type of its answer. *)
Inductive effect : Type -> Type :=
| ClaimExecution (r : GateRequest) : effect (result Evidence)
| RunnerExecute (w : Request) : effect (result Outcome)
| LocatorURL (d : Descriptor) : effect (result string)
| Settle (e : Evidence) (o : Outcome) : effect (result unit)
| Now : effect Z.

Inductive prog (A : Type) : Type :=
| Ret (a : A)
| Do {X : Type} (e : effect X) (k : X -> prog A).
Arguments Ret {A} a.
Arguments Do {A X} e k.

Notation "x <~ e ;; k" := (Do e (fun x => k)) (at level 100, e at next level, right associativity) : go_scope.

Fixpoint prog_map {A B} (f : A -> B) (p : prog A) : prog B :=
  match p with
  | Ret a => Ret (f a)
  | Do e k => Do e (fun x => prog_map f (k x))
  end.

(** ** Text checks the adapters share *)

Fixpoint hex_DecodeString (s : string) : option bytes :=
  match s with
  | EmptyString => Some ""
  | String a (String b s') =>
      if is_hex a && is_hex b
      then String (ascii_of_nat (Z.to_nat (hex_value a * 16 + hex_value b))) <$> hex_DecodeString s'
      else None
  | _ => None
  end.

Definition zeros32 : bytes := string_of_list_ascii (replicate 32 "000"%char).

(** ** Decoding hexadecimal text *)

Lemma hex_digit_value n : 0 <= n < 16 -> is_hex (hex_digit n) = true /\ hex_value (hex_digit n) = n.
Proof.
  intros Hn. assert (Hall : forallb (fun n => is_hex (hex_digit n) && (hex_value (hex_digit n) =? n)) (seqZ 0 16) = true)
    by (vm_compute; reflexivity).
  apply forallb_true in Hall. rewrite Forall_forall in Hall. specialize (Hall n). rewrite elem_of_seqZ in Hall.
  specialize (Hall ltac:(lia)). bool_props. done.
Qed.

Lemma hex_decode_encode s : hex_DecodeString (hex_EncodeToString s) = Some s.
Proof.
  induction s as [|c s IH]; [done|]. cbn [hex_EncodeToString hex_DecodeString].
  pose proof (code_bound c) as Hc. assert (Hd : 0 <= code c / 16 < 16) by (split; [apply Z.div_pos; lia|apply Z.div_lt_upper_bound; lia]).
  pose proof (Z.mod_pos_bound (code c) 16 ltac:(lia)) as Hm.
  destruct (hex_digit_value _ Hd) as [-> ->]. destruct (hex_digit_value _ Hm) as [-> ->]. rewrite IH. cbn.
  do 2 f_equal. rewrite (Z.mul_comm _ 16), <- Z.div_mod by lia. apply Base64.ascii_code.
Qed.

Lemma digest_collision x y : digest x = digest y -> x = y \/ collision.
Proof.
  intros Hd. apply (f_equal (fun s => trim_prefix s "sha256:")) in Hd. rewrite !digest_trim in Hd. apply hex_encode_inj in Hd.
  destruct (String.eqb_spec x y) as [->|Hne]; [by left|]. right. by exists x, y.
Qed.

(** ** The protocol *)

(** The work is the one claimed, and its archive has the committed digest. *)
Definition bound_work (c : GateRequest) (w : Request) : Prop :=
  rq_QuoteCommitment w = cq_QuoteCommitment c /\ rq_ExecutionID w = cq_ExecutionID c /\
  rq_InputDigest w = cq_InputDigest c /\ rq_SourceDigest w = cq_SourceDigest c /\
  digest (rq_SourceArchive w) = rq_SourceDigest w.

Definition evidence_for (e : Evidence) (c : GateRequest) : Prop :=
  ev_QuoteCommitment e = cq_QuoteCommitment c /\ ev_EscrowAddress e = cq_EscrowAddress c.

Definition outcome_for (o : Outcome) (w : Request) : Prop :=
  oc_QuoteCommitment o = rq_QuoteCommitment w /\ oc_ExecutionID o = rq_ExecutionID w /\
  oc_InputDigest o = rq_InputDigest w /\ oc_SourceDigest o = rq_SourceDigest w.

Inductive phase :=
| Idle
| Authorised (c : GateRequest) (e : Evidence)
| Executed (e : Evidence) (w : Request) (o : Outcome)
| HalfPublished (e : Evidence) (w : Request) (o : Outcome)
| Published (e : Evidence) (w : Request) (o : Outcome)
| Settled (e : Evidence) (w : Request) (o : Outcome)
| Halted.

(** A call with its answer. *)
Inductive event :=
| EClaim (c : GateRequest) (answer : result Evidence)
| ERun (w : Request) (answer : result Outcome)
| EURL (d : Descriptor) (answer : result string)
| ESettle (e : Evidence) (o : Outcome) (answer : result unit)
| ENow (answer : Z).

Definition event_of {X} (e : effect X) : X -> event :=
  match e with
  | ClaimExecution c => EClaim c
  | RunnerExecute w => ERun w
  | LocatorURL d => EURL d
  | Settle e o => ESettle e o
  | Now => ENow
  end.

(** [publishes] tells whether the adapter has a locator. *)
Inductive proto (publishes : bool) : phase -> event -> phase -> Prop :=
| proto_now ph t : proto publishes ph (ENow t) ph
| proto_claim c e : proto publishes Idle (EClaim c (Ok e)) (Authorised c e)
| proto_unclaimed c m : proto publishes Idle (EClaim c (Err m)) Halted
| proto_run c e w o : bound_work c w -> evidence_for e c ->
    proto publishes (Authorised c e) (ERun w (Ok o)) (Executed e w o)
| proto_failed c e w m : bound_work c w -> evidence_for e c ->
    proto publishes (Authorised c e) (ERun w (Err m)) Halted
| proto_artifact e w o u : publishes = true -> outcome_for o w ->
    proto publishes (Executed e w o) (EURL (oc_Artifact o) (Ok u)) (HalfPublished e w o)
| proto_no_artifact e w o m : publishes = true -> outcome_for o w ->
    proto publishes (Executed e w o) (EURL (oc_Artifact o) (Err m)) Halted
| proto_report e w o u :
    proto publishes (HalfPublished e w o) (EURL (oc_Report o) (Ok u)) (Published e w o)
| proto_no_report e w o m :
    proto publishes (HalfPublished e w o) (EURL (oc_Report o) (Err m)) Halted
| proto_settle e w o : outcome_for o w ->
    proto publishes (Published e w o) (ESettle e o (Ok tt)) (Settled e w o)
| proto_unsettled e w o m : outcome_for o w ->
    proto publishes (Published e w o) (ESettle e o (Err m)) Halted
| proto_settle_only e w o : publishes = false -> outcome_for o w ->
    proto publishes (Executed e w o) (ESettle e o (Ok tt)) (Settled e w o)
| proto_unsettled_only e w o m : publishes = false -> outcome_for o w ->
    proto publishes (Executed e w o) (ESettle e o (Err m)) Halted.

(** A program that follows the protocol whatever it is answered, and returns
    only results that its phase allows. *)
Fixpoint safe {A} (publishes : bool) (Q : phase -> A -> Prop) (ph : phase) (p : prog A) : Prop :=
  match p with
  | Ret a => Q ph a
  | Do e k => exists next, (forall x, proto publishes ph (event_of e x) (next x)) /\ forall x, safe publishes Q (next x) (k x)
  end.

(** ** The rules of [safe], one per call *)

Section Rules.
Context {A : Type} (publishes : bool) (Q : phase -> A -> Prop).

Ltac by_rule f := exists f; split; intros []; cbn; eauto using proto.

Lemma safe_ret ph a : Q ph a -> safe publishes Q ph (Ret a).
Proof. done. Qed.

Lemma safe_now ph k : (forall t, safe publishes Q ph (k t)) -> safe publishes Q ph (Do Now k).
Proof. intros Hk. exists (fun _ => ph). split; [|done]. intros t. apply proto_now. Qed.

Lemma safe_claim c k :
  (forall e, safe publishes Q (Authorised c e) (k (Ok e))) -> (forall m, safe publishes Q Halted (k (Err m))) ->
  safe publishes Q Idle (Do (ClaimExecution c) k).
Proof. intros Hok Herr. by_rule (fun r : result Evidence => match r with Ok e => Authorised c e | Err _ => Halted end). Qed.

Lemma safe_run c e w k :
  bound_work c w -> evidence_for e c ->
  (forall o, safe publishes Q (Executed e w o) (k (Ok o))) -> (forall m, safe publishes Q Halted (k (Err m))) ->
  safe publishes Q (Authorised c e) (Do (RunnerExecute w) k).
Proof.
  intros Hw He Hok Herr. by_rule (fun r : result Outcome => match r with Ok o => Executed e w o | Err _ => Halted end).
Qed.

Lemma safe_artifact e w o k :
  publishes = true -> outcome_for o w ->
  (forall u, safe publishes Q (HalfPublished e w o) (k (Ok u))) -> (forall m, safe publishes Q Halted (k (Err m))) ->
  safe publishes Q (Executed e w o) (Do (LocatorURL (oc_Artifact o)) k).
Proof.
  intros Hp Ho Hok Herr. by_rule (fun r : result string => match r with Ok _ => HalfPublished e w o | Err _ => Halted end).
Qed.

Lemma safe_report e w o k :
  (forall u, safe publishes Q (Published e w o) (k (Ok u))) -> (forall m, safe publishes Q Halted (k (Err m))) ->
  safe publishes Q (HalfPublished e w o) (Do (LocatorURL (oc_Report o)) k).
Proof.
  intros Hok Herr. by_rule (fun r : result string => match r with Ok _ => Published e w o | Err _ => Halted end).
Qed.

Lemma safe_settle e w o k :
  outcome_for o w ->
  safe publishes Q (Settled e w o) (k (Ok tt)) -> (forall m, safe publishes Q Halted (k (Err m))) ->
  safe publishes Q (Published e w o) (Do (Settle e o) k).
Proof.
  intros Ho Hok Herr. by_rule (fun r : result unit => match r with Ok _ => Settled e w o | Err _ => Halted end);
    destruct a; eauto using proto.
Qed.

Lemma safe_settle_only e w o k :
  publishes = false -> outcome_for o w ->
  safe publishes Q (Settled e w o) (k (Ok tt)) -> (forall m, safe publishes Q Halted (k (Err m))) ->
  safe publishes Q (Executed e w o) (Do (Settle e o) k).
Proof.
  intros Hp Ho Hok Herr. by_rule (fun r : result unit => match r with Ok _ => Settled e w o | Err _ => Halted end);
    destruct a; eauto using proto.
Qed.
End Rules.

(** The phase in which an adapter reports success. *)
Definition finished (settles : bool) (e : Evidence) (w : Request) (o : Outcome) : phase :=
  if settles then Settled e w o else Published e w o.

(** ** Traces *)

Fixpoint runs {A} (p : prog A) (t : list event) (a : A) : Prop :=
  match p with
  | Ret a' => t = [] /\ a' = a
  | Do e k => exists x t', t = event_of e x :: t' /\ runs (k x) t' a
  end.

Inductive follows (publishes : bool) : phase -> list event -> phase -> Prop :=
| follows_nil ph : follows publishes ph [] ph
| follows_cons ph ev ph' t ph'' : proto publishes ph ev ph' -> follows publishes ph' t ph'' ->
    follows publishes ph (ev :: t) ph''.

Lemma safe_runs {A} publishes (Q : phase -> A -> Prop) ph p t a :
  safe publishes Q ph p -> runs p t a -> exists ph', follows publishes ph t ph' /\ Q ph' a.
Proof.
  revert ph t. induction p as [a'|X e k IH]; intros ph t Hs Hr; cbn [runs safe] in Hr, Hs.
  - destruct Hr as [-> ->]. exists ph. split; [constructor|done].
  - destruct Hr as (x & t' & -> & Hr). destruct Hs as (next & Hp & Hs). destruct (IH x (next x) t' (Hs x) Hr) as (ph' & Hf & HQ).
    exists ph'. split; [|done]. econstructor; [apply Hp|done].
Qed.

(** Every environment drives a program to its end. *)
Fixpoint drive {A} (answer : forall X, effect X -> X) (p : prog A) : list event * A :=
  match p with
  | Ret a => ([], a)
  | Do e k => let x := answer _ e in let r := drive answer (k x) in (event_of e x :: r.1, r.2)
  end.

Lemma drive_runs {A} answer (p : prog A) : runs p (drive answer p).1 (drive answer p).2.
Proof.
  induction p as [a|X e k IH]; [done|]. cbn [drive runs fst snd]. exists (answer X e), (drive answer (k (answer X e))).1.
  split; [done|]. apply IH.
Qed.

(** ** The order of the calls *)

Inductive call_kind := KClaim | KRun | KURL | KSettle.

Definition kind_of_event (ev : event) : option call_kind :=
  match ev with
  | EClaim _ _ => Some KClaim
  | ERun _ _ => Some KRun
  | EURL _ _ => Some KURL
  | ESettle _ _ _ => Some KSettle
  | ENow _ => None
  end.

(** The calls of the interfaces in a trace; reading the clock is not one. *)
Definition call_kinds (t : list event) : list call_kind := omap kind_of_event t.

(** The calls that may still follow. *)
Definition remaining (publishes : bool) (ph : phase) : list call_kind :=
  match ph with
  | Idle => KClaim :: KRun :: (if publishes then [KURL; KURL] else []) ++ [KSettle]
  | Authorised _ _ => KRun :: (if publishes then [KURL; KURL] else []) ++ [KSettle]
  | Executed _ _ _ => (if publishes then [KURL; KURL] else []) ++ [KSettle]
  | HalfPublished _ _ _ => [KURL; KSettle]
  | Published _ _ _ => [KSettle]
  | Settled _ _ _ | Halted => []
  end.

Lemma proto_remaining publishes ph ev ph' :
  proto publishes ph ev ph' ->
  exists l, remaining publishes ph = option_list (kind_of_event ev) ++ l /\ remaining publishes ph' `prefix_of` l.
Proof.
  intros Hp. inversion Hp; subst; cbn [kind_of_event option_list remaining app]; eexists;
    (split; [reflexivity|]); try apply prefix_nil; reflexivity.
Qed.

(** At most one claim, then at most one run, then the publications, then at
    most one settlement. *)
Lemma follows_order publishes ph t ph' :
  follows publishes ph t ph' -> call_kinds t `prefix_of` remaining publishes ph.
Proof.
  intros Hf. induction Hf as [ph|ph ev ph1 t ph2 Hp Hf IH]; [apply prefix_nil|].
  destruct (proto_remaining _ _ _ _ Hp) as (l & Hl & Hpre). rewrite Hl. unfold call_kinds. cbn [omap list_omap].
  destruct (kind_of_event ev) as [k|]; cbn [option_list app].
  - apply prefix_cons. by transitivity (remaining publishes ph1).
  - by transitivity (remaining publishes ph1).
Qed.

(** Forgetting the result. *)
Definition forget {A} (p : prog A) : prog unit := prog_map (fun _ => tt) p.

Lemma safe_forget {A} publishes (Q : phase -> A -> Prop) ph p :
  safe publishes Q ph p -> safe publishes (fun _ _ => True) ph (forget p).
Proof.
  revert ph. induction p as [a|X e k IH]; intros ph Hs; cbn; [done|]. destruct Hs as (next & Hp & Hs).
  exists next. split; [done|]. intros x. by apply IH.
Qed.

(** ** Components that grant every call *)

Module Granting.
Definition repeated (c : ascii) : string := string_of_list_ascii (replicate 64 c).
Definition sha (c : ascii) : string := "sha256:" +:+ repeated c.
Definition cell (c : ascii) : string := "tvm-cell-sha256:" +:+ repeated c.
Definition escrow : string := "0:" +:+ repeated "c".

Definition evidence (c : GateRequest) : Evidence :=
  {| ev_NetworkID := "test"; ev_ProviderAgentID := "agent_" +:+ repeated "1"; ev_CapabilityID := "cap_" +:+ repeated "2";
     ev_CapabilityVersion := "1"; ev_ManifestDigest := sha "3"; ev_QuoteCommitment := cq_QuoteCommitment c;
     ev_EscrowAddress := cq_EscrowAddress c; ev_ProviderAddress := "0:" +:+ repeated "4"; ev_EscrowCodeHash := cell "5";
     ev_RegistryCodeHash := cell "6"; ev_EscrowTransactionHash := sha "7"; ev_AgentTransactionHash := sha "8";
     ev_CapabilityTransactionHash := sha "9"; ev_EscrowFinalizedCheckpoint := 7; ev_AgentFinalizedCheckpoint := 8;
     ev_CapabilityFinalizedCheckpoint := 9 |}.

Definition outcome (w : Request) : Outcome :=
  {| oc_QuoteCommitment := rq_QuoteCommitment w; oc_ExecutionID := rq_ExecutionID w; oc_InputDigest := rq_InputDigest w;
     oc_ResultDigest := sha "a";
     oc_Artifact := {| de_Digest := sha "b"; de_MediaType := ArtifactMediaType; de_SizeBytes := 10 |};
     oc_Report := {| de_Digest := sha "d"; de_MediaType := ReportMediaType; de_SizeBytes := 5 |};
     oc_SourceDigest := rq_SourceDigest w; oc_ToolchainDigest := sha "e"; oc_SandboxDigest := sha "f";
     oc_ExitCode := 0; oc_CompletedAtUnix := 2000000000 |}.

Definition answer (X : Type) (e : effect X) : X :=
  match e with
  | ClaimExecution c => Ok (evidence c)
  | RunnerExecute w => Ok (outcome w)
  | LocatorURL d => Ok "https://provider"
  | Settle _ _ => Ok tt
  | Now => 1
  end.

(** A parser of the texts https://host. *)
#[export] Instance url : NetUrl := {| url_Parse s :=
  match cut_prefix s "https://" with
  | Some host => Some {| ur_Scheme := "https"; ur_User := false; ur_Host := host; ur_Path := ""; ur_RawPath := "";
                         ur_RawQuery := ""; ur_Fragment := "" |}
  | None => None
  end |}.
End Granting.
