(* ===== verification/A2AAdapter.v ===== *)
(** * pkg/a2aadapter: software work as A2A tasks

    [decodeRequest] turns a message into the work and the claim that commits to
    it, [Execute] runs it through the protocol of [AdapterProtocol], and the
    handler of server.go maps its errors.  The data parts of a message hold any
    JSON value; their type and [json.Marshal] on it are parameters, as is
    [url.Parse]. *)

From S2P Require Import Prelude GoStd GoText GoHttp Sha256 FS Json ArtifactStore Journal Runner AdapterProtocol.

Definition ExtensionURI : string := "urn:tos:service:extension:native-software-work:v1".
Definition TaskMediaType : string := "application/vnd.tos.service.a2a.software-work-task.v1+json".
Definition SourceMediaType : string := "application/vnd.tos.service.software-source.v1+tar".
Definition ResultMediaType : string := "application/vnd.tos.service.a2a.software-work-result.v1+json".

Record taskBinding := {
  tb_Protocol : string;
  tb_EscrowAddress : string;
  tb_QuoteCommitment : string;
  tb_ExecutionID : string;
  tb_InputDigest : string;
  tb_SourceDigest : string;
}.

Record objectBinding := { ob_Digest : string; ob_MediaType : string; ob_SizeBytes : Z; ob_URL : string }.

Record resultBinding := {
  rb_Protocol : string;
  rb_Evidence : Evidence;
  rb_QuoteCommitment : string;
  rb_ExecutionID : string;
  rb_InputDigest : string;
  rb_ResultDigest : string;
  rb_Artifact : objectBinding;
  rb_Report : objectBinding;
  rb_SourceDigest : string;
  rb_ToolchainDigest : string;
  rb_SandboxDigest : string;
  rb_ExitCode : Z;
  rb_CompletedAtUnix : Z;
}.

(** The anonymous structure [inputDigest] marshals. *)
Record inputFields := {
  if_Protocol : string;
  if_EscrowAddress : string;
  if_QuoteCommitment : string;
  if_ExecutionID : string;
  if_SourceDigest : string;
}.

(** [digestSuffixValid]. *)
Definition digestSuffixValid (value prefix : string) : bool :=
  if negb (len value =? len prefix + 64) || negb (has_prefix value prefix) || (value <>s? strings_ToLower value)
  then false
  else match hex_DecodeString (str_drop (String.length prefix) value) with
       | Some raw => raw <>s? zeros32
       | None => false
       end.

Definition shaDigestValid (value : string) : bool := digestSuffixValid value "sha256:".
Definition cellDigestValid (value : string) : bool := digestSuffixValid value "tvm-cell-sha256:".

Definition agentIDValid (value : string) : bool :=
  (len value =? 70) && has_prefix value "agent_" && digestSuffixValid ("sha256:" +:+ str_drop 6 value) "sha256:".
Definition capabilityIDValid (value : string) : bool :=
  (len value =? 68) && has_prefix value "cap_" && digestSuffixValid ("sha256:" +:+ str_drop 4 value) "sha256:".

(** The workchain is 0 or -1, which every width of [ParseInt] represents. *)
Definition rawAddressValid (value : string) : bool :=
  match str_cut value ":" with
  | None => false
  | Some (workchain, account) =>
      match ParseInt workchain with
      | None => false
      | Some parsed =>
          if (negb (parsed =? 0) && negb (parsed =? -1)) || negb (len account =? 64) ||
             (account <>s? strings_ToLower account)
          then false
          else match hex_DecodeString account with Some raw => raw <>s? zeros32 | None => false end
      end
  end.

Definition validateEvidence (value : Evidence) (request : GateRequest) : result unit :=
  fail_if
    ((ev_NetworkID value =s? "") || (64 <? len (ev_NetworkID value)) ||
     (strings_TrimSpace (ev_NetworkID value) <>s? ev_NetworkID value) ||
     negb (agentIDValid (ev_ProviderAgentID value)) || negb (capabilityIDValid (ev_CapabilityID value)) ||
     (ev_CapabilityVersion value =s? "") || (64 <? len (ev_CapabilityVersion value)) ||
     negb (shaDigestValid (ev_ManifestDigest value)) ||
     (ev_QuoteCommitment value <>s? cq_QuoteCommitment request) ||
     (ev_EscrowAddress value <>s? cq_EscrowAddress request) || negb (rawAddressValid (ev_ProviderAddress value)) ||
     negb (cellDigestValid (ev_EscrowCodeHash value)) || negb (cellDigestValid (ev_RegistryCodeHash value)) ||
     negb (shaDigestValid (ev_EscrowTransactionHash value)) || negb (shaDigestValid (ev_AgentTransactionHash value)) ||
     negb (shaDigestValid (ev_CapabilityTransactionHash value)) ||
     (ev_EscrowFinalizedCheckpoint value =? 0) || (ev_AgentFinalizedCheckpoint value =? 0) ||
     (ev_CapabilityFinalizedCheckpoint value =? 0))
    "invalid finalized TOS Service Protocol execution evidence".

Definition validateOutcome (value : Outcome) (request : Request) : result unit :=
  fail_if
    ((oc_QuoteCommitment value <>s? rq_QuoteCommitment request) || (oc_ExecutionID value <>s? rq_ExecutionID request) ||
     (oc_InputDigest value <>s? rq_InputDigest request) || (oc_SourceDigest value <>s? rq_SourceDigest request) ||
     negb (shaDigestValid (oc_ResultDigest value)) || negb (shaDigestValid (oc_ToolchainDigest value)) ||
     negb (shaDigestValid (oc_SandboxDigest value)) || negb (oc_ExitCode value =? 0) || (oc_CompletedAtUnix value =? 0) ||
     negb (shaDigestValid (de_Digest (oc_Artifact value))) || (de_MediaType (oc_Artifact value) <>s? ArtifactMediaType) ||
     (de_SizeBytes (oc_Artifact value) =? 0) ||
     negb (shaDigestValid (de_Digest (oc_Report value))) || (de_MediaType (oc_Report value) <>s? ReportMediaType) ||
     (de_SizeBytes (oc_Report value) =? 0))
    "invalid software-work outcome".

Definition artifactURLValid `{NetUrl} (value : string) : bool :=
  match url_Parse value with
  | Some parsed => (ur_Scheme parsed =s? "https") && (ur_Host parsed <>s? "") && negb (ur_User parsed) &&
                   (ur_Fragment parsed =s? "") && (len value <=? 2048)
  | None => false
  end.

(** The states of a task the adapter uses. *)
Inductive TaskState := TaskStateWorking | TaskStateFailed | TaskStateCompleted.

(** The components are interfaces; a nil one is [true]. *)
Record Adapter := { ad_settles : bool }.

Definition NewSettling (authorizer_nil runner_nil locator_nil settler_nil : bool) : result Adapter :=
  fail_if (authorizer_nil || runner_nil || locator_nil) "invalid A2A software-work adapter configuration" ;;;
  Ok {| ad_settles := negb settler_nil |}.

Definition New (authorizer_nil runner_nil locator_nil : bool) : result Adapter :=
  NewSettling authorizer_nil runner_nil locator_nil true.

Section A2A.
Context {D : Type} (marshal_any : D -> option bytes) (data_of_binding : taskBinding -> D).
Context `{NetUrl} `{Json taskBinding} `{Json inputFields}.

(** ** The A2A 1.0 message model *)

(** [Data()] and [Raw()] are nil for a part that holds something else. *)
Record Part := {
  pt_MediaType : string;
  pt_Metadata : list string; (* the keys *)
  pt_Filename : string;
  pt_Data : option D;
  pt_Raw : bytes;
}.

Record Message := {
  ms_ID : string;
  ms_ContextID : string;
  ms_UserRole : bool; (* Role == a2a.MessageRoleUser *)
  ms_Parts : list (option Part);
  ms_Extensions : list string;
}.

Record Task := {
  tk_ID : string;
  tk_ContextID : string;
  tk_History : list Message;
  tk_Metadata : list (string * string);
  tk_State : TaskState;
  tk_Timestamp : Z;
  tk_Artifacts : list (string * resultBinding); (* the identifier and the data part *)
}.

Definition committed (binding : taskBinding) : inputFields :=
  {| if_Protocol := tb_Protocol binding; if_EscrowAddress := tb_EscrowAddress binding;
     if_QuoteCommitment := tb_QuoteCommitment binding; if_ExecutionID := tb_ExecutionID binding;
     if_SourceDigest := tb_SourceDigest binding |}.

Definition inputDigest (binding : taskBinding) : string :=
  digest ("tos.service.a2a.software-work-input.v1" +:+ String "000" "" +:+ json_marshal (committed binding)).

Definition set_InputDigest (b : taskBinding) (d : string) : taskBinding :=
  {| tb_Protocol := tb_Protocol b; tb_EscrowAddress := tb_EscrowAddress b; tb_QuoteCommitment := tb_QuoteCommitment b;
     tb_ExecutionID := tb_ExecutionID b; tb_InputDigest := d; tb_SourceDigest := tb_SourceDigest b |}.

(** The binding [NewTaskRequest] builds. *)
Definition new_binding (escrowAddress quoteCommitment executionID : string) (sourceArchive : bytes) : taskBinding :=
  let binding := {| tb_Protocol := "tos_service_v1"; tb_EscrowAddress := escrowAddress;
                    tb_QuoteCommitment := quoteCommitment; tb_ExecutionID := executionID; tb_InputDigest := "";
                    tb_SourceDigest := digest sourceArchive |} in
  set_InputDigest binding (inputDigest binding).

Definition NewTaskRequest (messageID contextID escrowAddress quoteCommitment executionID : string)
    (sourceArchive : bytes) : result Message :=
  fail_if ((messageID =s? "") || (256 <? len messageID) || negb (rawAddressValid escrowAddress) ||
           negb (cellDigestValid quoteCommitment) || negb (shaDigestValid executionID) || (len sourceArchive =? 0))
    "invalid A2A software-work task input" ;;;
  let binding := new_binding escrowAddress quoteCommitment executionID sourceArchive in
  let bindingPart := {| pt_MediaType := TaskMediaType; pt_Metadata := []; pt_Filename := "";
                        pt_Data := Some (data_of_binding binding); pt_Raw := "" |} in
  let sourcePart := {| pt_MediaType := SourceMediaType; pt_Metadata := []; pt_Filename := "source.tar";
                       pt_Data := None; pt_Raw := sourceArchive |} in
  Ok {| ms_ID := messageID; ms_ContextID := contextID; ms_UserRole := true;
        ms_Parts := [Some bindingPart; Some sourcePart]; ms_Extensions := [ExtensionURI] |}.

(** The loop of [decodeRequest] over the parts. *)
Fixpoint decode_parts (bindingPart sourcePart : option Part) (parts : list (option Part))
    : result (option Part * option Part) :=
  match parts with
  | [] => Ok (bindingPart, sourcePart)
  | None :: _ => Err "invalid A2A software-work part"
  | Some part :: rest =>
      fail_if (negb (llen (pt_Metadata part) =? 0)) "invalid A2A software-work part" ;;;
      if pt_MediaType part =s? TaskMediaType then
        match bindingPart, pt_Data part with
        | None, Some _ => decode_parts (Some part) sourcePart rest
        | _, _ => Err "invalid A2A task binding part"
        end
      else if pt_MediaType part =s? SourceMediaType then
        match sourcePart with
        | None =>
            fail_if ((len (pt_Raw part) =? 0) || (pt_Filename part <>s? "source.tar")) "invalid A2A source part" ;;;
            decode_parts bindingPart (Some part) rest
        | Some _ => Err "invalid A2A source part"
        end
      else Err "unsupported A2A software-work media type"
  end.

(** [decodeRequest].  The strict decoder of the binding accepts one value and
    nothing after it. *)
Definition decodeRequest (request : option (option Message)) : result (Request * GateRequest * Message) :=
  match request with
  | Some (Some message) =>
      fail_if (negb (ms_UserRole message) || (ms_ID message =s? "") || (256 <? len (ms_ID message)) ||
               negb (llen (ms_Parts message) =? 2) || negb (llen (ms_Extensions message) =? 1) ||
               (default "" (ms_Extensions message !! 0%nat) <>s? ExtensionURI))
        "invalid A2A software-work message envelope" ;;;
      let* parts := decode_parts None None (ms_Parts message) in
      match parts with
      | (Some bindingPart, Some sourcePart) =>
          match pt_Data bindingPart ≫= marshal_any with
          | None => Err "invalid A2A task binding data"
          | Some raw =>
              fail_if (4096 <? len raw) "invalid A2A task binding data" ;;;
              match json_unmarshal raw with
              | None => Err "invalid A2A task binding data"
              | Some binding =>
                  fail_if (tb_Protocol binding <>s? "tos_service_v1") "invalid A2A task binding protocol" ;;;
                  let source := pt_Raw sourcePart in
                  let work := {| rq_QuoteCommitment := tb_QuoteCommitment binding; rq_ExecutionID := tb_ExecutionID binding;
                                 rq_InputDigest := tb_InputDigest binding; rq_SourceDigest := tb_SourceDigest binding;
                                 rq_SourceArchive := source |} in
                  fail_if (negb (rawAddressValid (tb_EscrowAddress binding)) || negb (cellDigestValid (rq_QuoteCommitment work)) ||
                           negb (shaDigestValid (rq_ExecutionID work)) || negb (shaDigestValid (rq_InputDigest work)) ||
                           negb (shaDigestValid (rq_SourceDigest work)) || (digest source <>s? rq_SourceDigest work) ||
                           (inputDigest binding <>s? rq_InputDigest work))
                    "A2A task bytes do not match their commitments" ;;;
                  let claim := {| cq_EscrowAddress := tb_EscrowAddress binding; cq_QuoteCommitment := rq_QuoteCommitment work;
                                  cq_ExecutionID := rq_ExecutionID work; cq_InputDigest := rq_InputDigest work;
                                  cq_SourceDigest := rq_SourceDigest work |} in
                  Ok (work, claim, message)
              end
          end
      | _ => Err "incomplete A2A software-work message"
      end
  | _ => Err "invalid A2A software-work message envelope"
  end.

Definition submittedTask (message : Message) (work : Request) (now : Z) : Task :=
  let id := sha256_Sum256 ("tos.service.a2a.task.v1" +:+ String "000" "" +:+ rq_QuoteCommitment work +:+ String "000" "" +:+
                           rq_ExecutionID work) in
  {| tk_ID := "tos-service-" +:+ hex_EncodeToString id;
     tk_ContextID := if ms_ContextID message =s? "" then "tos-service-" +:+ hex_EncodeToString id else ms_ContextID message;
     tk_History := [message]; tk_Metadata := [("tos_service_extension", ExtensionURI)];
     tk_State := TaskStateWorking; tk_Timestamp := now; tk_Artifacts := [] |}.

Definition with_status (t : Task) (state : TaskState) (timestamp : Z) (artifacts : list (string * resultBinding)) : Task :=
  {| tk_ID := tk_ID t; tk_ContextID := tk_ContextID t; tk_History := tk_History t; tk_Metadata := tk_Metadata t;
     tk_State := state; tk_Timestamp := timestamp; tk_Artifacts := artifacts |}.

Definition bind_object (d : Descriptor) (url : string) : objectBinding :=
  {| ob_Digest := de_Digest d; ob_MediaType := de_MediaType d; ob_SizeBytes := de_SizeBytes d; ob_URL := url |}.

Definition result_of (evidence : Evidence) (outcome : Outcome) (artifactURL reportURL : string) : resultBinding :=
  {| rb_Protocol := "tos_service_v1"; rb_Evidence := evidence; rb_QuoteCommitment := oc_QuoteCommitment outcome;
     rb_ExecutionID := oc_ExecutionID outcome; rb_InputDigest := oc_InputDigest outcome;
     rb_ResultDigest := oc_ResultDigest outcome; rb_Artifact := bind_object (oc_Artifact outcome) artifactURL;
     rb_Report := bind_object (oc_Report outcome) reportURL; rb_SourceDigest := oc_SourceDigest outcome;
     rb_ToolchainDigest := oc_ToolchainDigest outcome; rb_SandboxDigest := oc_SandboxDigest outcome;
     rb_ExitCode := oc_ExitCode outcome; rb_CompletedAtUnix := oc_CompletedAtUnix outcome |}.

Definition artifact_id (work : Request) (outcome : Outcome) : string :=
  "tos-service-" +:+ hex_EncodeToString (sha256_Sum256 (rq_ExecutionID work +:+ String "000" "" +:+ oc_ResultDigest outcome)).

Definition Execute (a : Adapter) (request : option (option Message)) : prog (result Task) :=
  match decodeRequest request with
  | Err e => Ret (Err e)
  | Ok (work, claim, message) =>
      evidence <~ ClaimExecution claim ;;
      match evidence with
      | Err _ => Ret (Err "A2A execution lacks finalized TOS Service Protocol authorization")
      | Ok evidence =>
          match validateEvidence evidence claim with
          | Err e => Ret (Err e)
          | Ok _ =>
              submitted <~ Now ;;
              let task := submittedTask message work submitted in
              outcome <~ RunnerExecute work ;;
              completed <~ Now ;;
              match outcome with
              | Err _ => Ret (Ok (with_status task TaskStateFailed completed []))
              | Ok outcome =>
                  match validateOutcome outcome work with
                  | Err _ => Ret (Err "software-work runner returned a conflicting outcome")
                  | Ok _ =>
                      artifactURL <~ LocatorURL (oc_Artifact outcome) ;;
                      match artifactURL with
                      | Err _ => Ret (Err "invalid A2A artifact retrieval URL")
                      | Ok artifactURL =>
                          if negb (artifactURLValid artifactURL) then Ret (Err "invalid A2A artifact retrieval URL") else
                          reportURL <~ LocatorURL (oc_Report outcome) ;;
                          match reportURL with
                          | Err _ => Ret (Err "invalid A2A report retrieval URL")
                          | Ok reportURL =>
                              if negb (artifactURLValid reportURL) then Ret (Err "invalid A2A report retrieval URL") else
                              let result := Ok (with_status task TaskStateCompleted completed
                                [(artifact_id work outcome, result_of evidence outcome artifactURL reportURL)]) in
                              if ad_settles a then
                                settled <~ Settle evidence outcome ;;
                                match settled with
                                | Err _ => Ret (Err "escrow settlement failed for a completed execution")
                                | Ok _ => Ret result
                                end
                              else Ret result
                          end
                      end
                  end
              end
          end
      end
  end.

(** The transport handler's [SendMessage]: every error is joined with
    [a2a.ErrInvalidParams]; the other methods of the handler are refused. *)
Definition SendMessage (ErrInvalidParams : string) (a : Adapter) (request : option (option Message)) : prog (result Task) :=
  prog_map (fun r => match r with Ok task => Ok task | Err e => Err (ErrInvalidParams +:+ newline +:+ e) end) (Execute a request).

(** ** The adapter follows the protocol *)

Lemma decodeRequest_ok request work claim message :
  decodeRequest request = Ok (work, claim, message) ->
  bound_work claim work /\ request = Some (Some message) /\ rawAddressValid (cq_EscrowAddress claim) = true /\
  exists binding, tb_Protocol binding = "tos_service_v1" /\ inputDigest binding = rq_InputDigest work /\
    tb_EscrowAddress binding = cq_EscrowAddress claim /\ tb_QuoteCommitment binding = rq_QuoteCommitment work /\
    tb_ExecutionID binding = rq_ExecutionID work /\ tb_SourceDigest binding = rq_SourceDigest work.
Proof.
  unfold decodeRequest. destruct request as [[m|]|]; [|done..]. intros Hd. result_inv.
  destruct a0 as [[bindingPart|] [sourcePart|]]; try discriminate Hd.
  destruct (pt_Data bindingPart ≫= marshal_any) as [raw|]; [|discriminate Hd]. result_inv.
  destruct (json_unmarshal raw) as [binding|]; [|discriminate Hd]. result_inv.
  cbn in *. bool_props. unfold bound_work. cbn. split_and!; try done.
  exists binding. split_and!; done.
Qed.

Lemma validateEvidence_for evidence claim : validateEvidence evidence claim = Ok tt -> evidence_for evidence claim.
Proof. unfold validateEvidence. intros Hv%fail_if_ok. bool_props. by split. Qed.

Lemma validateOutcome_for outcome work :
  validateOutcome outcome work = Ok tt -> outcome_for outcome work /\ oc_ExitCode outcome = 0.
Proof. unfold validateOutcome. intros Hv%fail_if_ok. bool_props. by repeat split. Qed.

(** What the phase says of the task returned: a failed task came from a failed
    run, a completed one carries the evidence, the outcome and the two published
    locations, and the escrow was settled when there is a settler. *)
Definition task_result (a : Adapter) (request : option (option Message)) (ph : phase) (r : result Task) : Prop :=
  match r with
  | Err _ => True
  | Ok task =>
      (tk_State task = TaskStateFailed /\ ph = Halted /\ tk_Artifacts task = []) \/
      (tk_State task = TaskStateCompleted /\
       exists evidence work claim message outcome artifactURL reportURL,
         decodeRequest request = Ok (work, claim, message) /\ ph = finished (ad_settles a) evidence work outcome /\
         validateEvidence evidence claim = Ok tt /\ validateOutcome outcome work = Ok tt /\
         artifactURLValid artifactURL = true /\ artifactURLValid reportURL = true /\
         tk_Artifacts task = [(artifact_id work outcome, result_of evidence outcome artifactURL reportURL)])
  end.

Lemma Execute_safe a request : safe true (task_result a request) Idle (Execute a request).
Proof.
  unfold Execute. destruct (decodeRequest request) as [[[work claim] message]|e] eqn:Hd; [|by apply safe_ret].
  destruct (decodeRequest_ok _ _ _ _ Hd) as (Hw & _).
  apply safe_claim; intros; [|by apply safe_ret]. destruct (validateEvidence e claim) as [[]|m] eqn:He; [|by apply safe_ret].
  apply safe_now. intros submitted. apply safe_run; [done|by apply validateEvidence_for| |]; intros; apply safe_now; intros completed.
  2:{ apply safe_ret. left. done. }
  destruct (validateOutcome o work) as [[]|m] eqn:Ho; [|by apply safe_ret].
  apply safe_artifact; [done|by apply validateOutcome_for| |]; intros; [|by apply safe_ret].
  destruct (artifactURLValid u) eqn:Hu; cbn [negb]; [|by apply safe_ret].
  apply safe_report; intros; [|by apply safe_ret].
  destruct (artifactURLValid u0) eqn:Hu0; cbn [negb]; [|by apply safe_ret].
  assert (Hres : forall ph, ph = finished (ad_settles a) e work o -> task_result a request ph (Ok (with_status (submittedTask message work submitted)
    TaskStateCompleted completed [(artifact_id work o, result_of e o u u0)]))).
  { intros ph ->. right. split; [done|]. exists e, work, claim, message, o, u, u0. split_and!; done. }
  unfold finished in Hres. destruct (ad_settles a).
  - apply safe_settle; intros; [by apply validateOutcome_for|apply safe_ret; by apply Hres|by apply safe_ret].
  - apply safe_ret. by apply Hres.
Qed.

(** The adapter's calls follow the commercial protocol whatever the
    components answer: one claim of the decoded work, then, only under evidence
    for that claim, one run of exactly the claimed bytes, then the publication of
    its artifact and report, then the settlement; a completed task carries the
    validated evidence and outcome of that run. *)
Theorem a2a_follows_protocol a request t r (Hrun : runs (Execute a request) t r) :
  exists ph, follows true Idle t ph /\ call_kinds t `prefix_of` [KClaim; KRun; KURL; KURL; KSettle] /\
    task_result a request ph r.
Proof.
  destruct (safe_runs _ _ _ _ _ _ (Execute_safe a request) Hrun) as (ph & Hf & HQ).
  exists ph. split_and!; [done| |done]. exact (follows_order _ _ _ _ Hf).
Qed.

(** ** Round trip of a task request *)

Lemma digest_suffix_valid b :
  String.length b = 32%nat -> b <> zeros32 -> shaDigestValid ("sha256:" +:+ hex_EncodeToString b) = true.
Proof.
  intros Hl Hb. unfold shaDigestValid, digestSuffixValid. rewrite len_app, has_prefix_app, str_drop_app.
  unfold len at 2. rewrite hex_encode_length, Hl.
  unfold strings_ToLower. rewrite str_map_app. fold (strings_ToLower (hex_EncodeToString b)).
  rewrite (ToLower_hex (hex_EncodeToString b)) by apply hex_encode_lower_hex.
  change (str_map lower_char "sha256:") with "sha256:". rewrite String.eqb_refl, hex_decode_encode. cbn [negb orb].
  change (len "sha256:" + Z.of_nat (2 * 32) =? len "sha256:" + 64) with true. cbn [negb orb].
  by apply negb_true_iff, String.eqb_neq.
Qed.

Lemma shaDigest_valid b : sha256_Sum256 b <> zeros32 -> shaDigestValid (digest b) = true.
Proof. intros Hb. apply digest_suffix_valid; [apply sha256_length|done]. Qed.

Context {binding_laws : JsonLaws taskBinding}.

(** A request built by [NewTaskRequest] is accepted by [decodeRequest],
    which gives back the committed work: the same quote, execution and archive,
    with the archive's digest and the input commitment. *)
Theorem new_task_decodes messageID contextID escrow quote execution source message
    (Hnew : NewTaskRequest messageID contextID escrow quote execution source = Ok message)
    (Hdata : forall b, marshal_any (data_of_binding b) = Some (json_marshal b))
    (Hencodable : json_representable (new_binding escrow quote execution source))
    (Hsmall : len (json_marshal (new_binding escrow quote execution source)) <= 4096)
    (Hnonzero : sha256_Sum256 source <> zeros32 /\ shaDigestValid (tb_InputDigest (new_binding escrow quote execution source)) = true) :
  exists work claim, decodeRequest (Some (Some message)) = Ok (work, claim, message) /\
    rq_QuoteCommitment work = quote /\ rq_ExecutionID work = execution /\ rq_SourceArchive work = source /\
    rq_SourceDigest work = digest source /\ cq_EscrowAddress claim = escrow.
Proof.
  unfold NewTaskRequest in Hnew. result_inv. destruct Hnonzero as [Hsource Hinput].
  set (b := new_binding escrow quote execution source) in *. bool_props.
  match goal with |- context [decodeRequest (Some (Some ?m))] => set (message := m) end.
  exists {| rq_QuoteCommitment := quote; rq_ExecutionID := execution; rq_InputDigest := tb_InputDigest b;
            rq_SourceDigest := digest source; rq_SourceArchive := source |},
         {| cq_EscrowAddress := escrow; cq_QuoteCommitment := quote; cq_ExecutionID := execution;
            cq_InputDigest := tb_InputDigest b; cq_SourceDigest := digest source |}.
  split; [|done]. unfold decodeRequest. apply then_ok. split.
  { apply fail_if_ok. cbn [message ms_UserRole ms_ID ms_Parts ms_Extensions].
    rewrite (proj2 (String.eqb_neq _ _)), (proj2 (Z.ltb_ge _ _)) by done. reflexivity. }
  assert (Hparts : decode_parts None None (ms_Parts message) =
    Ok (Some {| pt_MediaType := TaskMediaType; pt_Metadata := []; pt_Filename := ""; pt_Data := Some (data_of_binding b); pt_Raw := "" |},
        Some {| pt_MediaType := SourceMediaType; pt_Metadata := []; pt_Filename := "source.tar"; pt_Data := None; pt_Raw := source |})).
  { cbn. rewrite (proj2 (Z.eqb_neq (len source) 0)) by done. reflexivity. }
  rewrite Hparts. cbn [rbind pt_Data pt_Raw mbind option_bind]. rewrite Hdata.
  apply then_ok. split; [apply fail_if_ok; by apply Z.ltb_ge|].
  rewrite json_roundtrip by done. apply then_ok. split; [reflexivity|]. cbv zeta. cbn [rq_QuoteCommitment rq_ExecutionID rq_InputDigest rq_SourceDigest].
  change (tb_EscrowAddress b) with escrow. change (tb_QuoteCommitment b) with quote. change (tb_ExecutionID b) with execution.
  change (tb_SourceDigest b) with (digest source). change (inputDigest b) with (tb_InputDigest b).
  apply then_ok. split; [apply fail_if_ok|done]. rewrite shaDigest_valid, !String.eqb_refl by done.
  repeat match goal with Hb : ?x = true |- _ => rewrite Hb; clear Hb end. reflexivity.
Qed.

(** The input commitment binds the task: two bindings with the same input
    digest agree on the escrow, the quote, the execution and the source, or a
    collision of SHA-256 is known. *)
Theorem a2a_input_binding b b' (laws : JsonLaws inputFields)
    (Hfirst : json_representable (committed b)) (Hsecond : json_representable (committed b')) (Hsame : inputDigest b = inputDigest b') :
  (tb_Protocol b = tb_Protocol b' /\ tb_EscrowAddress b = tb_EscrowAddress b' /\ tb_QuoteCommitment b = tb_QuoteCommitment b' /\
   tb_ExecutionID b = tb_ExecutionID b' /\ tb_SourceDigest b = tb_SourceDigest b') \/ collision.
Proof.
  apply digest_collision in Hsame as [Heq|Hc]; [left|by right].
  apply (f_equal (str_drop 39)) in Heq. cbn [str_drop append] in Heq.
  apply (f_equal json_unmarshal) in Heq. rewrite !json_roundtrip in Heq by done. injection Heq. auto.
Qed.
End A2A.

(** ** Witnesses *)

#[local] Existing Instance Granting.url.

Module A2ASamples.
#[refine, export] Instance binding_fields : Fields taskBinding := {|
  to_fields b := [tb_Protocol b; tb_EscrowAddress b; tb_QuoteCommitment b; tb_ExecutionID b; tb_InputDigest b; tb_SourceDigest b];
  of_fields l := match l with
    | [a; b; c; d; e; f] => Some {| tb_Protocol := a; tb_EscrowAddress := b; tb_QuoteCommitment := c; tb_ExecutionID := d;
                                    tb_InputDigest := e; tb_SourceDigest := f |}
    | _ => None
    end;
  of_to_fields := _;
|}.
Proof. by intros []. Defined.

#[refine, export] Instance input_fields : Fields inputFields := {|
  to_fields b := [if_Protocol b; if_EscrowAddress b; if_QuoteCommitment b; if_ExecutionID b; if_SourceDigest b];
  of_fields l := match l with
    | [a; b; c; d; e] => Some {| if_Protocol := a; if_EscrowAddress := b; if_QuoteCommitment := c; if_ExecutionID := d;
                                 if_SourceDigest := e |}
    | _ => None
    end;
  of_to_fields := _;
|}.
Proof. by intros []. Defined.

Definition message : result (Message (D := taskBinding)) :=
  NewTaskRequest (fun b => b) "message" "" Granting.escrow (Granting.cell "a") (Granting.sha "b") "source".
Definition request : option (option (Message (D := taskBinding))) :=
  match message with Ok m => Some (Some m) | Err _ => None end.
Definition adapter : Adapter := {| ad_settles := true |}.
Definition marshal (b : taskBinding) : option bytes := Some (json_marshal b).
Definition execution : list event * result Task := drive Granting.answer (Execute marshal adapter request).
End A2ASamples.
#[local] Existing Instances A2ASamples.binding_fields A2ASamples.input_fields.

Lemma a2a_follows_protocol_witness :
  call_kinds A2ASamples.execution.1 = [KClaim; KRun; KURL; KURL; KSettle] /\ is_ok A2ASamples.execution.2 = true /\
  exists ph, follows true Idle A2ASamples.execution.1 ph.
Proof.
  split; [vm_compute; reflexivity|]. split; [vm_compute; reflexivity|].
  destruct (a2a_follows_protocol A2ASamples.marshal A2ASamples.adapter A2ASamples.request _ _
    (drive_runs Granting.answer (Execute A2ASamples.marshal A2ASamples.adapter A2ASamples.request))) as (ph & Hf & _).
  exists ph. exact Hf.
Defined.

(** The message of the sample. *)
Definition message_built : Message (D := taskBinding) :=
  match A2ASamples.message with Ok m => m | Err _ => {| ms_ID := ""; ms_ContextID := ""; ms_UserRole := false; ms_Parts := []; ms_Extensions := [] |} end.

Lemma new_task_decodes_witness :
  exists work claim, decodeRequest A2ASamples.marshal (Some (Some message_built)) = Ok (work, claim, message_built) /\
    rq_QuoteCommitment work = Granting.cell "a" /\ rq_ExecutionID work = Granting.sha "b" /\ rq_SourceArchive work = "source" /\
    rq_SourceDigest work = digest "source" /\ cq_EscrowAddress claim = Granting.escrow.
Proof.
  apply (new_task_decodes A2ASamples.marshal (fun b => b) "message" "" Granting.escrow (Granting.cell "a") (Granting.sha "b") "source").
  - vm_compute. reflexivity.
  - intros b. reflexivity.
  - exact I.
  - vm_compute. discriminate.
  - split; [vm_compute; discriminate|vm_compute; reflexivity].
Defined.

Lemma a2a_input_binding_witness :
  let b := new_binding Granting.escrow (Granting.cell "a") (Granting.sha "b") "source" in
  tb_EscrowAddress b = tb_EscrowAddress b \/ collision.
Proof.
  intros b. destruct (a2a_input_binding b b FieldsJsonLaws I I eq_refl) as [(_ & He & _)|Hc]; [left; exact He|right; exact Hc].
Defined.
