(* ===== verification/MCPAdapter.v ===== *)
(** * pkg/mcpadapter: software work as an MCP tool

    The tool's arguments carry the archive in canonical base64 with the digests
    that commit to it; [Call] runs them through the protocol of
    [AdapterProtocol]. *)

From S2P Require Import Prelude GoStd GoText GoHttp Sha256 FS Json ArtifactStore Journal Runner AdapterProtocol.

Record Input := {
  in_EscrowAddress : string;
  in_QuoteCommitment : string;
  in_ExecutionID : string;
  in_InputDigest : string;
  in_SourceDigest : string;
  in_SourceArchiveBase64 : string;
}.

Record Object := { ob_Digest : string; ob_MediaType : string; ob_SizeBytes : Z; ob_URL : string }.

Record Output := {
  ou_Protocol : string;
  ou_Evidence : Evidence;
  ou_QuoteCommitment : string;
  ou_ExecutionID : string;
  ou_InputDigest : string;
  ou_ResultDigest : string;
  ou_Artifact : Object;
  ou_Report : Object;
  ou_SourceDigest : string;
  ou_ToolchainDigest : string;
  ou_SandboxDigest : string;
  ou_CompletedAtUnix : Z;
}.

(** The anonymous structure [inputDigest] marshals. *)
Record inputFields := {
  if_Protocol : string;
  if_EscrowAddress : string;
  if_QuoteCommitment : string;
  if_ExecutionID : string;
  if_SourceDigest : string;
}.

(** Whether the adapter has a settler; nil interfaces are [true]. *)
Record Adapter := { ad_settles : bool }.

Definition NewSettling (gate_nil runner_nil locator_nil settler_nil : bool) : result Adapter :=
  fail_if (gate_nil || runner_nil || locator_nil) "invalid MCP software-work adapter configuration" ;;;
  Ok {| ad_settles := negb settler_nil |}.

Definition New (gate_nil runner_nil locator_nil : bool) : result Adapter :=
  NewSettling gate_nil runner_nil locator_nil true.

Definition validDigest (v p : string) : bool :=
  if negb (len v =? len p + 64) || negb (has_prefix v p) || (v <>s? strings_ToLower v) then false
  else match hex_DecodeString (str_drop (String.length p) v) with
       | Some raw => raw <>s? zeros32
       | None => false
       end.

Definition shaDigest (v : string) : bool := validDigest v "sha256:".
Definition cellDigest (v : string) : bool := validDigest v "tvm-cell-sha256:".

Definition rawAddress (v : string) : bool :=
  match str_cut v ":" with
  | Some (wc, id) => (wc =s? "0") && (len id =? 64) && validDigest ("sha256:" +:+ id) "sha256:"
  | None => false
  end.

Definition agentID (v : string) : bool :=
  (len v =? 70) && has_prefix v "agent_" && shaDigest ("sha256:" +:+ str_drop 6 v).
Definition capabilityID (v : string) : bool :=
  (len v =? 68) && has_prefix v "cap_" && shaDigest ("sha256:" +:+ str_drop 4 v).

Definition validEvidence (v : Evidence) (r : GateRequest) : bool :=
  (ev_NetworkID v <>s? "") && agentID (ev_ProviderAgentID v) && capabilityID (ev_CapabilityID v) &&
  (ev_CapabilityVersion v <>s? "") && shaDigest (ev_ManifestDigest v) &&
  (ev_QuoteCommitment v =s? cq_QuoteCommitment r) && (ev_EscrowAddress v =s? cq_EscrowAddress r) &&
  rawAddress (ev_ProviderAddress v) && (0 <? ev_EscrowFinalizedCheckpoint v) &&
  cellDigest (ev_EscrowCodeHash v) && cellDigest (ev_RegistryCodeHash v) && shaDigest (ev_EscrowTransactionHash v) &&
  shaDigest (ev_AgentTransactionHash v) && shaDigest (ev_CapabilityTransactionHash v) &&
  (0 <? ev_AgentFinalizedCheckpoint v) && (0 <? ev_CapabilityFinalizedCheckpoint v).

Definition validOutcome (v : Outcome) (r : Request) : bool :=
  (oc_QuoteCommitment v =s? rq_QuoteCommitment r) && (oc_ExecutionID v =s? rq_ExecutionID r) &&
  (oc_InputDigest v =s? rq_InputDigest r) && (oc_SourceDigest v =s? rq_SourceDigest r) &&
  shaDigest (oc_ResultDigest v) && shaDigest (oc_ToolchainDigest v) && shaDigest (oc_SandboxDigest v) &&
  (oc_ExitCode v =? 0) && (0 <? oc_CompletedAtUnix v) && shaDigest (de_Digest (oc_Artifact v)) &&
  (de_MediaType (oc_Artifact v) =s? ArtifactMediaType) && (0 <? de_SizeBytes (oc_Artifact v)) &&
  shaDigest (de_Digest (oc_Report v)) && (de_MediaType (oc_Report v) =s? ReportMediaType) &&
  (0 <? de_SizeBytes (oc_Report v)).

Definition httpsURL `{NetUrl} (v : string) : bool :=
  match url_Parse v with
  | Some u => (ur_Scheme u =s? "https") && (ur_Host u <>s? "") && negb (ur_User u) && (ur_Fragment u =s? "") &&
              (len v <=? 2048)
  | None => false
  end.

Section MCP.
Context `{NetUrl} `{Json inputFields}.

Definition committed (v : Input) : inputFields :=
  {| if_Protocol := "tos_service_v1"; if_EscrowAddress := in_EscrowAddress v;
     if_QuoteCommitment := in_QuoteCommitment v; if_ExecutionID := in_ExecutionID v;
     if_SourceDigest := in_SourceDigest v |}.

Definition inputDigest (v : Input) : string :=
  digest ("tos.service.mcp.software-work-input.v1" +:+ String "000" "" +:+ json_marshal (committed v)).

Definition set_InputDigest (v : Input) (d : string) : Input :=
  {| in_EscrowAddress := in_EscrowAddress v; in_QuoteCommitment := in_QuoteCommitment v; in_ExecutionID := in_ExecutionID v;
     in_InputDigest := d; in_SourceDigest := in_SourceDigest v; in_SourceArchiveBase64 := in_SourceArchiveBase64 v |}.

Definition PrepareInput (escrow quote execution : string) (source : bytes) : result Input :=
  fail_if (negb (rawAddress escrow) || negb (cellDigest quote) || negb (shaDigest execution) || (len source =? 0))
    "invalid MCP software-work input" ;;;
  let value := {| in_EscrowAddress := escrow; in_QuoteCommitment := quote; in_ExecutionID := execution;
                  in_InputDigest := ""; in_SourceDigest := digest source;
                  in_SourceArchiveBase64 := std_EncodeToString source |} in
  Ok (set_InputDigest value (inputDigest value)).

(** The checks of [Call] on its arguments, with the decoded archive. *)
Definition decode_input (input : Input) : option bytes :=
  match std_DecodeString (in_SourceArchiveBase64 input) with
  | None => None
  | Some source =>
      if (std_EncodeToString source <>s? in_SourceArchiveBase64 input) || (len source =? 0) ||
         negb (rawAddress (in_EscrowAddress input)) || negb (cellDigest (in_QuoteCommitment input)) ||
         negb (shaDigest (in_ExecutionID input)) || negb (shaDigest (in_InputDigest input)) ||
         negb (shaDigest (in_SourceDigest input)) || (digest source <>s? in_SourceDigest input) ||
         (inputDigest input <>s? in_InputDigest input)
      then None else Some source
  end.

Definition work_of (input : Input) (source : bytes) : Request :=
  {| rq_QuoteCommitment := in_QuoteCommitment input; rq_ExecutionID := in_ExecutionID input;
     rq_InputDigest := in_InputDigest input; rq_SourceDigest := in_SourceDigest input; rq_SourceArchive := source |}.

Definition claim_of (input : Input) (work : Request) : GateRequest :=
  {| cq_EscrowAddress := in_EscrowAddress input; cq_QuoteCommitment := rq_QuoteCommitment work;
     cq_ExecutionID := rq_ExecutionID work; cq_InputDigest := rq_InputDigest work; cq_SourceDigest := rq_SourceDigest work |}.

Definition object_of (d : Descriptor) (url : string) : Object :=
  {| ob_Digest := de_Digest d; ob_MediaType := de_MediaType d; ob_SizeBytes := de_SizeBytes d; ob_URL := url |}.

Definition output_of (evidence : Evidence) (outcome : Outcome) (artifactURL reportURL : string) : Output :=
  {| ou_Protocol := "tos_service_v1"; ou_Evidence := evidence; ou_QuoteCommitment := oc_QuoteCommitment outcome;
     ou_ExecutionID := oc_ExecutionID outcome; ou_InputDigest := oc_InputDigest outcome;
     ou_ResultDigest := oc_ResultDigest outcome; ou_Artifact := object_of (oc_Artifact outcome) artifactURL;
     ou_Report := object_of (oc_Report outcome) reportURL; ou_SourceDigest := oc_SourceDigest outcome;
     ou_ToolchainDigest := oc_ToolchainDigest outcome; ou_SandboxDigest := oc_SandboxDigest outcome;
     ou_CompletedAtUnix := oc_CompletedAtUnix outcome |}.

Definition Call (a : Adapter) (input : Input) : prog (result Output) :=
  match decode_input input with
  | None => Ret (Err "MCP tool arguments do not match their commitments")
  | Some source =>
      let work := work_of input source in
      let claim := claim_of input work in
      evidence <~ ClaimExecution claim ;;
      match evidence with
      | Err _ => Ret (Err "MCP execution lacks a unique finalized TOS Service Protocol authorization")
      | Ok evidence =>
          if negb (validEvidence evidence claim)
          then Ret (Err "MCP execution lacks a unique finalized TOS Service Protocol authorization") else
          outcome <~ RunnerExecute work ;;
          match outcome with
          | Err _ => Ret (Err "bounded software-work execution failed")
          | Ok outcome =>
              if negb (validOutcome outcome work) then Ret (Err "software-work runner returned a conflicting outcome") else
              artifactURL <~ LocatorURL (oc_Artifact outcome) ;;
              match artifactURL with
              | Err _ => Ret (Err "invalid artifact retrieval URL")
              | Ok artifactURL =>
                  if negb (httpsURL artifactURL) then Ret (Err "invalid artifact retrieval URL") else
                  reportURL <~ LocatorURL (oc_Report outcome) ;;
                  match reportURL with
                  | Err _ => Ret (Err "invalid report retrieval URL")
                  | Ok reportURL =>
                      if negb (httpsURL reportURL) then Ret (Err "invalid report retrieval URL") else
                      let output := Ok (output_of evidence outcome artifactURL reportURL) in
                      if ad_settles a then
                        settled <~ Settle evidence outcome ;;
                        match settled with
                        | Err _ => Ret (Err "escrow settlement failed for a completed execution")
                        | Ok _ => Ret output
                        end
                      else Ret output
                  end
              end
          end
      end
  end.

(** ** The adapter follows the protocol *)

Definition output_result (a : Adapter) (input : Input) (ph : phase) (r : result Output) : Prop :=
  match r with
  | Err _ => True
  | Ok output =>
      exists source evidence outcome artifactURL reportURL,
        decode_input input = Some source /\ ph = finished (ad_settles a) evidence (work_of input source) outcome /\
        validEvidence evidence (claim_of input (work_of input source)) = true /\
        validOutcome outcome (work_of input source) = true /\
        httpsURL artifactURL = true /\ httpsURL reportURL = true /\
        output = output_of evidence outcome artifactURL reportURL
  end.

Lemma decode_input_ok input source :
  decode_input input = Some source ->
  bound_work (claim_of input (work_of input source)) (work_of input source) /\
  std_EncodeToString source = in_SourceArchiveBase64 input /\ inputDigest input = in_InputDigest input.
Proof.
  unfold decode_input. destruct (std_DecodeString _) as [s|]; [|done]. case_match eqn:Hc; [done|]. intros [= ->].
  bool_props. unfold bound_work. cbn. split_and!; done.
Qed.

Lemma Call_safe a input : safe true (output_result a input) Idle (Call a input).
Proof.
  unfold Call. destruct (decode_input input) as [source|] eqn:Hd; [|by apply safe_ret].
  destruct (decode_input_ok _ _ Hd) as (Hw & _).
  apply safe_claim; intros; [|by apply safe_ret]. destruct (validEvidence _ _) eqn:He; cbn [negb]; [|by apply safe_ret].
  apply safe_run; [done| | |]; intros; [| |by apply safe_ret].
  { unfold validEvidence in He. bool_props. by split. }
  destruct (validOutcome _ _) eqn:Ho; cbn [negb]; [|by apply safe_ret].
  assert (Hof : outcome_for o (work_of input source)) by (unfold validOutcome in Ho; bool_props; by repeat split).
  apply safe_artifact; [done|done| |]; intros; [|by apply safe_ret].
  destruct (httpsURL u) eqn:Hu; cbn [negb]; [|by apply safe_ret]. apply safe_report; intros; [|by apply safe_ret].
  destruct (httpsURL u0) eqn:Hu0; cbn [negb]; [|by apply safe_ret].
  assert (Hres : forall ph, ph = finished (ad_settles a) e (work_of input source) o ->
    output_result a input ph (Ok (output_of e o u u0))).
  { intros ph ->. exists source, e, o, u, u0. split_and!; done. }
  unfold finished in Hres. destruct (ad_settles a).
  - apply safe_settle; intros; [done|apply safe_ret; by apply Hres|by apply safe_ret].
  - apply safe_ret. by apply Hres.
Qed.

(** The tool's calls follow the commercial protocol whatever the components
    answer, as those of the A2A adapter do; an output carries the validated
    evidence and outcome of the one run of the committed archive. *)
Theorem mcp_follows_protocol a input t r (Hrun : runs (Call a input) t r) :
  exists ph, follows true Idle t ph /\ call_kinds t `prefix_of` [KClaim; KRun; KURL; KURL; KSettle] /\
    output_result a input ph r.
Proof.
  destruct (safe_runs _ _ _ _ _ _ (Call_safe a input) Hrun) as (ph & Hf & HQ).
  exists ph. split_and!; [done| |done]. exact (follows_order _ _ _ _ Hf).
Qed.

Lemma shaDigest_digest b : sha256_Sum256 b <> zeros32 -> shaDigest (digest b) = true.
Proof.
  intros Hb. unfold shaDigest, validDigest. rewrite digest_len, ToLower_digest, String.eqb_refl by apply digest_matches.
  change (digest b) with ("sha256:" +:+ hex_EncodeToString (sha256_Sum256 b)).
  rewrite has_prefix_app, str_drop_app, hex_decode_encode. cbn [negb orb].
  change (71 =? len "sha256:" + 64) with true. cbn [negb orb]. by apply negb_true_iff, String.eqb_neq.
Qed.

(** What [PrepareInput] builds is accepted by [Call], which runs exactly
    the given archive. *)
Theorem prepared_input_accepted escrow quote execution source input
    (Hinput : PrepareInput escrow quote execution source = Ok input)
    (Hnonzero : sha256_Sum256 source <> zeros32 /\ shaDigest (in_InputDigest input) = true) :
  decode_input input = Some source /\
  work_of input source = {| rq_QuoteCommitment := quote; rq_ExecutionID := execution; rq_InputDigest := in_InputDigest input;
                            rq_SourceDigest := digest source; rq_SourceArchive := source |}.
Proof.
  unfold PrepareInput in Hinput. result_inv. destruct Hnonzero as [Hs Hi]. split; [|done]. unfold decode_input.
  cbn [set_InputDigest in_SourceArchiveBase64 in_EscrowAddress in_QuoteCommitment in_ExecutionID in_InputDigest in_SourceDigest] in *.
  rewrite std_roundtrip. bool_props. rewrite !String.eqb_refl, shaDigest_digest, Hi by done.
  rewrite (proj2 (Z.eqb_neq (len source) 0)) by done.
  repeat match goal with Hb : ?x = true |- _ => rewrite Hb; clear Hb end. reflexivity.
Qed.

Lemma mcp_input_binding v v' (laws : JsonLaws inputFields)
    (Hfirst : json_representable (committed v)) (Hsecond : json_representable (committed v')) (Hsame : inputDigest v = inputDigest v') :
  (in_EscrowAddress v = in_EscrowAddress v' /\ in_QuoteCommitment v = in_QuoteCommitment v' /\
   in_ExecutionID v = in_ExecutionID v' /\ in_SourceDigest v = in_SourceDigest v') \/ collision.
Proof.
  apply digest_collision in Hsame as [Heq|Hc]; [left|by right].
  apply (f_equal (str_drop 39)) in Heq. cbn [str_drop append] in Heq.
  apply (f_equal json_unmarshal) in Heq. rewrite !json_roundtrip in Heq by done. injection Heq. auto.
Qed.
End MCP.

(** ** Witnesses *)

#[local] Existing Instance Granting.url.

Module MCPSamples.
#[refine, export] Instance input_fields : Fields inputFields := {|
  to_fields b := [if_Protocol b; if_EscrowAddress b; if_QuoteCommitment b; if_ExecutionID b; if_SourceDigest b];
  of_fields l := match l with
    | [a; b; c; d; e] => Some {| if_Protocol := a; if_EscrowAddress := b; if_QuoteCommitment := c; if_ExecutionID := d;
                                 if_SourceDigest := e |}
    | _ => None
    end;
  of_to_fields := _;
|}.
Proof. by intros []. Defined.

Definition prepared : result Input := PrepareInput Granting.escrow (Granting.cell "a") (Granting.sha "b") "source".
Definition input : Input :=
  match prepared with
  | Ok i => i
  | Err _ => {| in_EscrowAddress := ""; in_QuoteCommitment := ""; in_ExecutionID := ""; in_InputDigest := ""; in_SourceDigest := "";
                in_SourceArchiveBase64 := "" |}
  end.
Definition adapter : Adapter := {| ad_settles := true |}.
Definition execution : list event * result Output := drive Granting.answer (Call adapter input).
End MCPSamples.
#[local] Existing Instance MCPSamples.input_fields.

Lemma mcp_follows_protocol_witness :
  call_kinds MCPSamples.execution.1 = [KClaim; KRun; KURL; KURL; KSettle] /\ is_ok MCPSamples.execution.2 = true /\
  exists ph, follows true Idle MCPSamples.execution.1 ph.
Proof.
  split; [vm_compute; reflexivity|]. split; [vm_compute; reflexivity|].
  destruct (mcp_follows_protocol MCPSamples.adapter MCPSamples.input _ _
    (drive_runs Granting.answer (Call MCPSamples.adapter MCPSamples.input))) as (ph & Hf & _).
  exists ph. exact Hf.
Defined.

Lemma prepared_input_accepted_witness : decode_input MCPSamples.input = Some "source".
Proof.
  apply (prepared_input_accepted Granting.escrow (Granting.cell "a") (Granting.sha "b") "source").
  - vm_compute. reflexivity.
  - split; [vm_compute; discriminate|vm_compute; reflexivity].
Defined.
