(* ===== verification/PacketAdapter.v ===== *)
(** * pkg/agentpacketadapter: software work in Agent Packets

    The payload of a purchase-bound packet carries the work; the packet itself is
    authenticated by the protocol's verifier, outside this package.  [Execute]
    runs it through the protocol of [AdapterProtocol], with or without a
    locator. *)

From S2P Require Import Prelude GoStd GoText GoHttp Sha256 FS Json ArtifactStore Journal Runner AdapterProtocol.

Definition PayloadSchema : string := "tos.service.agent-packet-work.v1".

(** The fields of [agentpacket.Packet] the adapter reads. *)
Record Packet := { pk_QuoteCommitment : string; pk_CapabilityID : string; pk_Payload : bytes }.

Record payload := {
  pl_Schema : string;
  pl_EscrowAddress : string;
  pl_QuoteCommitment : string;
  pl_ExecutionID : string;
  pl_InputDigest : string;
  pl_SourceDigest : string;
  pl_SourceArchiveBase64 : string;
}.

(** Whether the adapter has a locator and a settler; nil interfaces are [true]. *)
Record Adapter := { ad_publishes : bool; ad_settles : bool }.

Definition newAdapter (gate_nil runner_nil locator_nil settler_nil : bool) : result Adapter :=
  fail_if (gate_nil || runner_nil) "invalid Agent Packet adapter configuration" ;;;
  Ok {| ad_publishes := negb locator_nil; ad_settles := negb settler_nil |}.

Definition New (gate_nil runner_nil : bool) : result Adapter := newAdapter gate_nil runner_nil true true.
Definition NewSettling (gate_nil runner_nil settler_nil : bool) : result Adapter :=
  newAdapter gate_nil runner_nil true settler_nil.
Definition NewPublishingSettling (gate_nil runner_nil locator_nil settler_nil : bool) : result Adapter :=
  fail_if locator_nil "invalid Agent Packet artifact locator" ;;;
  newAdapter gate_nil runner_nil locator_nil settler_nil.

Definition validDigest (v prefix : string) : bool :=
  (len v =? len prefix + 64) && has_prefix v prefix && (v =s? strings_ToLower v).

Section Packets.
Context `{Json payload}.

(** [decode]; the strict decoder accepts one value and nothing after it. *)
Definition decode (packet : Packet) : result (Request * GateRequest) :=
  fail_if (pk_QuoteCommitment packet =s? "") "Agent Packet is not purchase-bound" ;;;
  match json_unmarshal (pk_Payload packet) with
  | None => Err "invalid Agent Packet work payload"
  | Some p =>
      fail_if (pl_Schema p <>s? PayloadSchema) "invalid Agent Packet work payload" ;;;
      fail_if ((pl_QuoteCommitment p <>s? pk_QuoteCommitment packet) || (pl_SourceArchiveBase64 p =s? ""))
        "Agent Packet Quote binding mismatch" ;;;
      match std_strict_DecodeString (pl_SourceArchiveBase64 p) with
      | None => Err "invalid Agent Packet source archive"
      | Some source =>
          fail_if (len source =? 0) "invalid Agent Packet source archive" ;;;
          fail_if (digest source <>s? pl_SourceDigest p) "Agent Packet source digest mismatch" ;;;
          let work := {| rq_QuoteCommitment := pl_QuoteCommitment p; rq_ExecutionID := pl_ExecutionID p;
                         rq_InputDigest := pl_InputDigest p; rq_SourceDigest := pl_SourceDigest p;
                         rq_SourceArchive := source |} in
          fail_if (negb (validDigest (rq_ExecutionID work) "sha256:") || negb (validDigest (rq_InputDigest work) "sha256:") ||
                   negb (validDigest (rq_SourceDigest work) "sha256:")) "invalid Agent Packet work digest" ;;;
          Ok (work, {| cq_EscrowAddress := pl_EscrowAddress p; cq_QuoteCommitment := pl_QuoteCommitment p;
                       cq_ExecutionID := pl_ExecutionID p; cq_InputDigest := pl_InputDigest p;
                       cq_SourceDigest := pl_SourceDigest p |})
      end
  end.

(** [Adapter.Execute]: the outcome and the evidence, or the error. *)
Definition Execute (a : Adapter) (packet : Packet) : prog (result (Outcome * Evidence)) :=
  match decode packet with
  | Err e => Ret (Err e)
  | Ok (work, claim) =>
      evidence <~ ClaimExecution claim ;;
      match evidence with
      | Err _ => Ret (Err "Agent Packet lacks finalized TOS Service Protocol authorization")
      | Ok evidence =>
          if (ev_QuoteCommitment evidence <>s? cq_QuoteCommitment claim) ||
             (ev_EscrowAddress evidence <>s? cq_EscrowAddress claim) ||
             (ev_CapabilityID evidence <>s? pk_CapabilityID packet)
          then Ret (Err "execution evidence does not match Agent Packet") else
          outcome <~ RunnerExecute work ;;
          match outcome with
          | Err e => Ret (Err e)
          | Ok outcome =>
              if (oc_QuoteCommitment outcome <>s? rq_QuoteCommitment work) || (oc_ExecutionID outcome <>s? rq_ExecutionID work) ||
                 (oc_InputDigest outcome <>s? rq_InputDigest work) || (oc_SourceDigest outcome <>s? rq_SourceDigest work)
              then Ret (Err "software-work runner returned a conflicting outcome") else
              let settle :=
                if ad_settles a then
                  settled <~ Settle evidence outcome ;;
                  match settled with
                  | Err e => Ret (Err e)
                  | Ok _ => Ret (Ok (outcome, evidence))
                  end
                else Ret (Ok (outcome, evidence)) in
              if ad_publishes a then
                artifact <~ LocatorURL (oc_Artifact outcome) ;;
                match artifact with
                | Err _ => Ret (Err "invalid Agent Packet artifact publication")
                | Ok _ =>
                    report <~ LocatorURL (oc_Report outcome) ;;
                    match report with
                    | Err _ => Ret (Err "invalid Agent Packet report publication")
                    | Ok _ => settle
                    end
                end
              else settle
          end
      end
  end.

(** [Adapter.Receive]. *)
Definition Receive (a : Adapter) (packet : Packet) : prog (result unit) :=
  prog_map (fun r => match r with Ok _ => Ok tt | Err e => Err e end) (Execute a packet).

(** ** The adapter follows the protocol *)

Lemma decode_ok packet work claim :
  decode packet = Ok (work, claim) ->
  bound_work claim work /\ cq_QuoteCommitment claim = pk_QuoteCommitment packet /\ pk_QuoteCommitment packet <> "".
Proof.
  unfold decode. intros Hd. result_inv. destruct (json_unmarshal _) as [p|]; [|discriminate Hd]. result_inv.
  destruct (std_strict_DecodeString _) as [source|]; [|discriminate Hd]. result_inv.
  cbn in *. bool_props. unfold bound_work. cbn. split_and!; done.
Qed.

(** The phase in which the adapter reports success. *)
Definition packet_finished (a : Adapter) (e : Evidence) (w : Request) (o : Outcome) : phase :=
  if ad_settles a then Settled e w o else if ad_publishes a then Published e w o else Executed e w o.

Definition packet_result (a : Adapter) (packet : Packet) (ph : phase) (r : result (Outcome * Evidence)) : Prop :=
  match r with
  | Err _ => True
  | Ok (outcome, evidence) =>
      exists work claim, decode packet = Ok (work, claim) /\ ph = packet_finished a evidence work outcome /\
        evidence_for evidence claim /\ ev_CapabilityID evidence = pk_CapabilityID packet /\ outcome_for outcome work
  end.

Lemma packet_execute_safe a packet : safe (ad_publishes a) (packet_result a packet) Idle (Execute a packet).
Proof.
  unfold Execute. destruct (decode packet) as [[work claim]|e] eqn:Hd; [|by apply safe_ret].
  destruct (decode_ok _ _ _ Hd) as (Hw & _). apply safe_claim; intros; [|by apply safe_ret].
  case_match eqn:He; [by apply safe_ret|]. bool_props. apply safe_run; [done|done| |]; intros; [|by apply safe_ret].
  case_match eqn:Ho; [by apply safe_ret|]. bool_props.
  assert (Hof : outcome_for o work) by by repeat split.
  assert (Hres : packet_result a packet (packet_finished a e work o) (Ok (o, e))).
  { exists work, claim. split_and!; done. }
  unfold packet_finished in Hres. destruct (ad_publishes a) eqn:Hp.
  - apply safe_artifact; [done|done| |]; intros; [|by apply safe_ret]. apply safe_report; intros; [|by apply safe_ret].
    destruct (ad_settles a); [apply safe_settle; intros; [done|by apply safe_ret..]|by apply safe_ret].
  - destruct (ad_settles a); [apply safe_settle_only; intros; [done|done|by apply safe_ret..]|by apply safe_ret].
Qed.

(** The packet adapter's calls follow the same protocol, without the
    publications when it has no locator; the claim is for the quote the packet
    is bound to, and the evidence for the packet's capability. *)
Theorem packet_follows_protocol a packet t r (Hrun : runs (Execute a packet) t r) :
  exists ph, follows (ad_publishes a) Idle t ph /\
    call_kinds t `prefix_of` (KClaim :: KRun :: (if ad_publishes a then [KURL; KURL] else []) ++ [KSettle]) /\
    packet_result a packet ph r.
Proof.
  destruct (safe_runs _ _ _ _ _ _ (packet_execute_safe a packet) Hrun) as (ph & Hf & HQ).
  exists ph. split_and!; [done| |done]. exact (follows_order _ _ _ _ Hf).
Qed.
End Packets.

(** ** Witnesses *)

Module PacketSamples.
#[refine, export] Instance payload_fields : Fields payload := {|
  to_fields p := [pl_Schema p; pl_EscrowAddress p; pl_QuoteCommitment p; pl_ExecutionID p; pl_InputDigest p; pl_SourceDigest p;
                  pl_SourceArchiveBase64 p];
  of_fields l := match l with
    | [a; b; c; d; e; f; g] => Some {| pl_Schema := a; pl_EscrowAddress := b; pl_QuoteCommitment := c; pl_ExecutionID := d;
                                       pl_InputDigest := e; pl_SourceDigest := f; pl_SourceArchiveBase64 := g |}
    | _ => None
    end;
  of_to_fields := _;
|}.
Proof. by intros []. Defined.

Definition work_payload (input : string) : payload :=
  {| pl_Schema := PayloadSchema; pl_EscrowAddress := Granting.escrow; pl_QuoteCommitment := Granting.cell "a";
     pl_ExecutionID := Granting.sha "b"; pl_InputDigest := input; pl_SourceDigest := digest "source";
     pl_SourceArchiveBase64 := std_EncodeToString "source" |}.
Definition packet (input : string) : Packet :=
  {| pk_QuoteCommitment := Granting.cell "a"; pk_CapabilityID := "cap_" +:+ Granting.repeated "2";
     pk_Payload := json_marshal (work_payload input) |}.
Definition adapter : Adapter := {| ad_publishes := true; ad_settles := true |}.
Definition execution : list event * result (Outcome * Evidence) :=
  drive Granting.answer (Execute adapter (packet (Granting.sha "d"))).
End PacketSamples.
#[local] Existing Instance PacketSamples.payload_fields.

Lemma packet_follows_protocol_witness :
  call_kinds PacketSamples.execution.1 = [KClaim; KRun; KURL; KURL; KSettle] /\ is_ok PacketSamples.execution.2 = true /\
  exists ph, follows true Idle PacketSamples.execution.1 ph.
Proof.
  split; [vm_compute; reflexivity|]. split; [vm_compute; reflexivity|].
  destruct (packet_follows_protocol PacketSamples.adapter (PacketSamples.packet (Granting.sha "d")) _ _
    (drive_runs Granting.answer (Execute PacketSamples.adapter (PacketSamples.packet (Granting.sha "d"))))) as (ph & Hf & _).
  exists ph. exact Hf.
Defined.

(** The adapter accepts, and so claims, work that the runner always refuses: its
    digest check does not look at the characters.  The claim has then bound the
    quote to an execution that cannot run. *)
Example packet_claims_unrunnable_work :
  let p := PacketSamples.packet (Granting.sha "z") in
  match decode p with
  | Ok (work, claim) => cq_InputDigest claim = Granting.sha "z" /\ is_ok (validateRequest FrozenV1Contract work) = false
  | Err _ => False
  end /\
  is_ok (decode (PacketSamples.packet (Granting.sha "d"))) = true.
Proof. vm_compute. split; [split|]; reflexivity. Qed.
