(* ===== verification/AdapterRuns.v ===== *)
(** * The adapters over the runner and the locator

    Calls of the three adapters run concurrently in one worker, over the
    software-work runner with its journal and the artifact locator.  A call
    inside the runner advances one operation at a time: the claim of the journal,
    the start of the executor, its return, each artifact write and the
    completion; between two of them any other call may advance, so several calls
    are inside the runner, and several executor runs in progress, at once.  The
    claim and the completion hold the journal's mutex and a publication holds the
    locator's; an artifact write, which has no lock, creates names of its own and
    is one step.  The worker may die between two operations or inside any file
    operation and lose power.  The theorem composes the adapters' protocol with
    the runner's journal: an execution identity is run at most once, and never
    without an authorisation that no earlier run has used. *)

From S2P Require Import Prelude GoStd GoHttp Sha256 Executor FS Json RecordStore ArtifactStore Journal Runner.
From S2P Require Import ArtifactHTTP AdapterProtocol A2AAdapter MCPAdapter PacketAdapter.

(** ** [Runner.Execute], one operation at a time

    The operations of the runner on the components it shares with the other
    calls, with the types of their answers. *)

Inductive rop : Type -> Type :=
| JournalClaim (executionID fingerprint : string) : rop (result (bool * journalRecord))
| ExecutorCall (executionID : string) (spec : Spec) (input : bytes) : rop unit
| ExecutorReturn : rop (result Result)
| ReportTime : rop Z
| StorePut (mediaType : string) (value : bytes) : rop (result Descriptor)
| JournalComplete (executionID fingerprint : string) (outcome : Outcome) : rop (result unit).

Inductive rprog (A : Type) : Type :=
| RRet (a : A)
| RDo {X : Type} (o : rop X) (k : X -> rprog A).
Arguments RRet {A} a.
Arguments RDo {A X} o k.

(** What the environment answers to one operation: the gate and the settler, the
    clocks, the result of the executor, and the errors of the context when an
    artifact write starts and when it verifies an existing object. *)
Record Answers := {
  an_gate : GateRequest -> result Evidence;
  an_settle : Evidence -> Outcome -> result unit;
  an_now : Z;
  an_result : result Result;
  an_ctx : option string;
  an_ctxGet : option string;
}.

Section RunnerOperations.
Context `{!Json journalRecord, !Json fingerprintFields, !Json reportFields}.
Variable tar_archive : list (string * bytes) -> option bytes.
Context (r : Runner).

Notation "x <- o ;; k" := (RDo o (fun x => k)) (at level 100, o at next level, right associativity).

(** The runner after the executor returned. *)
Definition execution_result (request : Request) (res : Result) : rprog (result Outcome) :=
  let contract := ru_contract r in
  if negb (res_ExitCode res =? 0) then RRet (Err "software-work objective success condition failed") else
  completed <- ReportTime;;
  let reportBytes := json_marshal (report_of request res completed) in
  report <- StorePut ReportMediaType reportBytes;;
  match report with
  | Err e => RRet (Err e)
  | Ok report =>
  match buildArtifact tar_archive (res_Output res) reportBytes with
  | Err e => RRet (Err e)
  | Ok artifactBytes =>
  artifact <- StorePut ArtifactMediaType artifactBytes;;
  match artifact with
  | Err e => RRet (Err e)
  | Ok artifact =>
      let outcome := outcome_of contract request res completed artifact report in
      c <- JournalComplete (rq_ExecutionID request) (requestFingerprint contract request) outcome;;
      RRet (c ;;; Ok outcome)
  end end end.

(** [Runner.Execute]. *)
Definition execution (request : Request) : rprog (result Outcome) :=
  let contract := ru_contract r in
  match validateRequest contract request with
  | Err e => RRet (Err e)
  | Ok _ =>
      claim <- JournalClaim (rq_ExecutionID request) (requestFingerprint contract request);;
      match claim with
      | Err e => RRet (Err e)
      | Ok (false, record) =>
          RRet (if jr_State record =s? "complete" then Ok (jr_Outcome record)
                else Err "software-work execution outcome is ambiguous")
      | Ok (true, _) =>
          _ <- ExecutorCall (rq_ExecutionID request) (job_spec contract) (rq_SourceArchive request);;
          result <- ExecutorReturn;;
          match result with
          | Err e => RRet (Err e)
          | Ok res => execution_result request res
          end
      end
  end.

(** An operation; the call of the executor is recorded in the log. *)
Definition perform_op (a : Answers) {X} (o : rop X) : IO X :=
  match o with
  | JournalClaim id fp => Claim (ru_journal r) id fp
  | ExecutorCall id spec input => emit ("exec", id)
  | ExecutorReturn => mret (an_result a)
  | ReportTime => mret (an_now a)
  | StorePut mt value => Put (ru_store r) (an_ctx a) (an_ctxGet a) mt (bytes_reader value)
  | JournalComplete id fp outcome => Complete (ru_journal r) id fp outcome
  end.

(** The operations without any other call between them. *)
Fixpoint sequential {A} (answers : nat -> Answers) (n : nat) (q : rprog A) : IO A :=
  match q with
  | RRet a => mret a
  | RDo o k => x ← perform_op (answers n) o; sequential answers (S n) (k x)
  end.

Lemma io_bind_ext {A B} (m : IO A) (f g : A -> IO B) w : (forall a w', f a w' = g a w') -> (m ≫= f) w = (m ≫= g) w.
Proof. intros Hfg. unfold mbind, io_bind. by destruct (m w) as [[a|] w']. Qed.

(** The operations of one call, one after the other, are [Runner.Execute]. *)
Lemma execution_is_Execute answers request w :
  an_result (answers 2%nat) = ru_executor r (rq_ExecutionID request) (job_spec (ru_contract r)) (rq_SourceArchive request) ->
  sequential answers 0 (execution request) w =
  Runner.Execute tar_archive r [an_ctx (answers 4%nat); an_ctxGet (answers 4%nat); an_ctx (answers 5%nat); an_ctxGet (answers 5%nat)]
    (an_now (answers 3%nat)) request w.
Proof.
  intros Hres. unfold execution, Runner.Execute. destruct (validateRequest _ _) as [[]|e]; [|done].
  cbn [sequential perform_op]. apply io_bind_ext. intros [[[] record]|e] w1; [|done..].
  unfold Execute_leased. cbn [sequential perform_op]. apply io_bind_ext. intros _ w2.
  unfold mbind at 1, io_bind at 1, mret at 1, io_ret at 1. rewrite Hres.
  destruct (ru_executor r _ _ _) as [res|e]; [|done]. unfold execution_result. destruct (negb _); [done|].
  cbn [sequential perform_op]. unfold mbind at 1, io_bind at 1, mret at 1, io_ret at 1.
  apply io_bind_ext. intros [report|e] w3; [|done]. destruct (buildArtifact _ _ _) as [artifactBytes|e]; [|done].
  cbn [sequential perform_op]. apply io_bind_ext. by intros [artifact|e] w4.
Qed.

(** ** The executor is called once, under the lease *)

(** Where a call is inside the runner: it may still claim, it holds the lease,
    or it will not call the executor any more. *)
Inductive rphase := Entered | Leased | Spent.

(** A call for the execution [id] that starts the executor only under the
    lease. *)
Fixpoint rsafe {A} (id : string) (ph : rphase) (q : rprog A) : Prop :=
  match q with
  | RRet _ => True
  | RDo o k =>
      (match o in rop X return (X -> rprog A) -> Prop with
       | JournalClaim id' _ => fun k => ph = Entered /\ id' = id /\
           (forall record, rsafe id Leased (k (Ok (true, record)))) /\
           (forall record, rsafe id Spent (k (Ok (false, record)))) /\ (forall e, rsafe id Spent (k (Err e)))
       | ExecutorCall id' _ _ => fun k => ph = Leased /\ id' = id /\ rsafe id Spent (k tt)
       | ExecutorReturn => fun k => forall x, rsafe id ph (k x)
       | ReportTime => fun k => forall x, rsafe id ph (k x)
       | StorePut _ _ => fun k => forall x, rsafe id ph (k x)
       | JournalComplete _ _ _ => fun k => forall x, rsafe id ph (k x)
       end) k
  end.

Lemma execution_rsafe request : rsafe (rq_ExecutionID request) Entered (execution request).
Proof.
  unfold execution. destruct (validateRequest _ _) as [[]|e]; [|done]. cbn [rsafe]. split_and!; [done|done| |done|done].
  intros _. cbn [rsafe]. split_and!; [done|done|]. intros [res|e]; [|done].
  unfold execution_result. destruct (negb _); [done|]. cbn [rsafe]. intros completed [report|e]; [|done].
  destruct (buildArtifact _ _ _); [|done]. cbn [rsafe]. intros [artifact|e]; [|done]. by cbn.
Qed.
End RunnerOperations.

(** ** What the locator does to the log and the journal *)

Section Components.
Context (get : option string -> bool -> string -> IO (result bytes)) {verified : VerifiedStore get}.
Context `{!Json publicationIndex}.

Lemma get_keeps I ctx late digest : keeps I (get ctx late digest).
Proof. intros d Hd. eapply wp_mono; [apply get_verified| |]; [by intros r d' [-> _]|by intros d' ->]. Qed.

Lemma ArtifactURL_log l desc log : keeps (log_is log) (ArtifactURL get l desc).
Proof.
  unfold ArtifactURL. keeps_step; [apply keeps_ret|]. keeps_step; [apply get_keeps|].
  keeps_step; [|apply keeps_ret]. keeps_step; [apply keeps_ret|]. keeps_step; [apply keeps_ret|].
  unfold writePublicationIndexLocked, commit_index, syncDirectory, ebind, lift_sys. keeps_steps; keeps_log.
Qed.

Lemma ArtifactURL_occupied l desc p : keeps (occupied p) (ArtifactURL get l desc).
Proof.
  unfold ArtifactURL. keeps_step; [apply keeps_ret|]. keeps_step; [apply get_keeps|].
  keeps_step; [|apply keeps_ret]. keeps_step; [apply keeps_ret|]. keeps_step; [apply keeps_ret|].
  keeps_step; [|keeps_steps]. keeps_step; [|apply keeps_ret].
  unfold writePublicationIndexLocked. keeps_step; [apply keeps_ret|]. intros d Hocc. apply wp_ebind. unfold lift_sys. apply wp_bind.
  wp_step; [done|by apply wp_ret|]. apply wp_ret.
  assert (Hne : t <> p) by (eapply occupied_not_temp; [|exact Hocc|exact Htemp]; done).
  apply (keeps_mono (occupied p)); [|by apply occupied_put|done|done].
  unfold commit_index, syncDirectory, ebind, lift_sys. keeps_steps; keeps_file.
Qed.
End Components.

(** ** The worker *)

Definition count (what id : string) (d : disk) : nat := length (filter (fun e => e = (what, id)) (d_log d)).
Definition claims (id : string) (d : disk) : nat := count "claim" id d.
Definition settlements (id : string) (d : disk) : nat := count "settle" id d.

(** A call, in the adapter or inside the runner. *)
Inductive thread :=
| InAdapter (p : prog unit)
| InRunner (q : rprog (result Outcome)) (k : result Outcome -> prog unit).

Record worker := { wk_disk : disk; wk_locator : Locator; wk_threads : list thread }.

Section Worker.
Context `{!Json journalRecord, !Json fingerprintFields, !Json reportFields, !Json publicationIndex}.
Context `{!NetUrl, !Json taskBinding, !Json A2AAdapter.inputFields, !Json MCPAdapter.inputFields, !Json payload}.
Context {D : Type} (marshal_any : D -> option bytes).
Variable tar_archive : list (string * bytes) -> option bytes.
Context (get : option string -> bool -> string -> IO (result bytes)) {verified : VerifiedStore get}.
Context (r : Runner).

(** The next operation of a thread; granted claims and settlements are recorded
    in the log, as the calls of the executor are. *)
Definition advance_adapter (a : Answers) (l : Locator) {X} (e : effect X) : (X -> prog unit) -> IO (thread * Locator) :=
  match e in effect X return (X -> prog unit) -> IO (thread * Locator) with
  | ClaimExecution c => fun k =>
      match an_gate a c with
      | Ok evidence => _ ← emit ("claim", cq_ExecutionID c); mret (InAdapter (k (Ok evidence)), l)
      | Err m => mret (InAdapter (k (Err m)), l)
      end
  | RunnerExecute w => fun k => mret (InRunner (execution tar_archive r w) k, l)
  | LocatorURL desc => fun k => x ← ArtifactURL get l desc; mret (InAdapter (k x.1), x.2)
  | Settle evidence o => fun k =>
      match an_settle a evidence o with
      | Ok _ => _ ← emit ("settle", oc_ExecutionID o); mret (InAdapter (k (Ok tt)), l)
      | Err m => mret (InAdapter (k (Err m)), l)
      end
  | Now => fun k => mret (InAdapter (k (an_now a)), l)
  end.

Definition advance (a : Answers) (t : thread) (l : Locator) : IO (thread * Locator) :=
  match t with
  | InAdapter (Ret _) => mret (t, l)
  | InAdapter (Do e k) => advance_adapter a l e k
  | InRunner (RRet out) k => mret (InAdapter (k out), l)
  | InRunner (RDo o q) k => x ← perform_op r a o; mret (InRunner (q x) k, l)
  end.

Inductive adapter_program : prog unit -> Prop :=
| a2a_program a request : adapter_program (forget (A2AAdapter.Execute marshal_any a request))
| mcp_program a input : adapter_program (forget (Call a input))
| packet_program a packet : adapter_program (forget (PacketAdapter.Execute a packet)).

Inductive worker_step : worker -> worker -> Prop :=
| worker_start p d l ts :
    adapter_program p ->
    worker_step {| wk_disk := d; wk_locator := l; wk_threads := ts |}
                {| wk_disk := d; wk_locator := l; wk_threads := InAdapter p :: ts |}
| worker_advance ts1 ts2 t t' a d l script rand l' w :
    advance a t l (World d script rand) = (Done (t', l'), w) ->
    worker_step {| wk_disk := d; wk_locator := l; wk_threads := ts1 ++ t :: ts2 |}
                {| wk_disk := w_disk w; wk_locator := l'; wk_threads := ts1 ++ t' :: ts2 |}
| worker_killed ts1 ts2 t a d l script rand w l' :
    advance a t l (World d script rand) = (Crashed, w) ->
    worker_step {| wk_disk := d; wk_locator := l; wk_threads := ts1 ++ t :: ts2 |}
                {| wk_disk := w_disk w; wk_locator := l'; wk_threads := [] |}
| worker_done ts1 ts2 d l :
    worker_step {| wk_disk := d; wk_locator := l; wk_threads := ts1 ++ InAdapter (Ret tt) :: ts2 |}
                {| wk_disk := d; wk_locator := l; wk_threads := ts1 ++ ts2 |}
| worker_restart d l ts l' :
    worker_step {| wk_disk := d; wk_locator := l; wk_threads := ts |}
                {| wk_disk := d; wk_locator := l'; wk_threads := [] |}
| worker_power_loss d d' l ts l' :
    power_loss d d' ->
    worker_step {| wk_disk := d; wk_locator := l; wk_threads := ts |}
                {| wk_disk := d'; wk_locator := l'; wk_threads := [] |}.

(** ** The invariant *)

(** Where a thread is: in the adapter, or inside the runner for a claim. *)
Inductive tphase :=
| AtAdapter (ph : phase)
| AtRunner (c : GateRequest) (e : Evidence) (rp : rphase).

Definition one_if (P : Prop) `{Decision P} : nat := if decide P then 1 else 0.

(** The claim a thread holds and has not run yet; the one it holds and has not
    settled yet; and its lease of the journal. *)
Definition may_run (id : string) (tp : tphase) : nat :=
  match tp with
  | AtAdapter (Authorised c _) | AtRunner c _ (Entered | Leased) => one_if (cq_ExecutionID c = id)
  | _ => 0
  end.

Definition may_settle (id : string) (tp : tphase) : nat :=
  match tp with
  | AtAdapter (Authorised c _) | AtRunner c _ _ => one_if (cq_ExecutionID c = id)
  | AtAdapter (Executed _ w _ | HalfPublished _ w _ | Published _ w _) => one_if (rq_ExecutionID w = id)
  | _ => 0
  end.

Definition lease_held (tp : tphase) : list string :=
  match tp with AtRunner c _ Leased => [cq_ExecutionID c] | _ => [] end.

Definition at_phase (ph : phase) (p : prog unit) : Prop := exists publishes, safe publishes (fun _ _ => True) ph p.

(** What the runner answers leaves the claim used. *)
Definition resumes (c : GateRequest) (e : Evidence) (p : prog unit) : Prop :=
  exists ph, at_phase ph p /\ forall id, may_run id (AtAdapter ph) = 0%nat /\
    (may_settle id (AtAdapter ph) <= may_settle id (AtAdapter (Authorised c e)))%nat.

Definition at_thread (tp : tphase) (t : thread) : Prop :=
  match tp, t with
  | AtAdapter ph, InAdapter p => at_phase ph p
  | AtRunner c e rp, InRunner q k => rsafe (cq_ExecutionID c) rp q /\ forall out, resumes c e (k out)
  | _, _ => False
  end.

Definition covered (d : disk) (phases : list tphase) : Prop := forall id,
  (execs id d + sum_list_with (may_run id) phases <= claims id d)%nat /\
  (settlements id d + sum_list_with (may_settle id) phases <= claims id d)%nat.

Definition held (phases : list tphase) : list string := phases ≫= lease_held.

Definition accounted (d : disk) (phases : list tphase) : Prop :=
  once (ru_journal r) {| s_disk := d; s_leased := held phases |} /\ covered d phases.

Definition worker_inv (s : worker) : Prop :=
  exists phases, Forall2 at_thread phases (wk_threads s) /\ accounted (wk_disk s) phases.

Lemma program_safe p : adapter_program p -> at_phase Idle p.
Proof.
  intros Hp. destruct Hp as [a request|a input|a packet]; eexists; eapply safe_forget;
    [apply A2AAdapter.Execute_safe|apply Call_safe|apply PacketAdapter.packet_execute_safe].
Qed.

Lemma leases_held id phases : leases id (held phases) = sum_list_with (fun tp => leases id (lease_held tp)) phases.
Proof. induction phases as [|tp phases IH]; [done|]. unfold held. cbn [mbind list_bind]. rewrite leases_app. cbn. by f_equal. Qed.

Lemma leases_at id ps1 tp ps2 :
  leases id (held (ps1 ++ tp :: ps2)) = (leases id (lease_held tp) + leases id (held (ps1 ++ ps2)))%nat.
Proof. rewrite !leases_held, !sum_list_with_app. cbn. lia. Qed.

Lemma covered_at d ps1 tp ps2 :
  covered d (ps1 ++ tp :: ps2) <-> forall id,
    (execs id d + may_run id tp + sum_list_with (may_run id) (ps1 ++ ps2) <= claims id d)%nat /\
    (settlements id d + may_settle id tp + sum_list_with (may_settle id) (ps1 ++ ps2) <= claims id d)%nat.
Proof.
  unfold covered. setoid_rewrite sum_list_with_app. cbn [sum_list_with].
  split; intros Hc id; specialize (Hc id); lia.
Qed.

Lemma covered_same d d' phases : d_log d' = d_log d -> covered d phases -> covered d' phases.
Proof. intros Hl Hc id. specialize (Hc id). unfold claims, settlements, count, execs in *. by rewrite Hl. Qed.

Lemma count_emit what what' id id' d :
  count what id (d_emit (what', id') d) = ((if decide (what' = what /\ id' = id) then 1 else 0) + count what id d)%nat.
Proof.
  unfold count. cbn [d_emit d_log]. rewrite filter_cons. do 2 case_decide; try done; exfalso.
  - simplify_eq. tauto.
  - destruct_and!. subst. done.
Qed.

Lemma execs_count id d : execs id d = count "exec" id d.
Proof. done. Qed.

(** A thread asks for no more than before. *)
Definition no_more (tp' tp : tphase) : Prop := forall id,
  (may_run id tp' <= may_run id tp)%nat /\ (may_settle id tp' <= may_settle id tp)%nat /\
  (leases id (lease_held tp') <= leases id (lease_held tp))%nat.

Lemma accounted_move d ps1 tp tp' ps2 :
  no_more tp' tp -> accounted d (ps1 ++ tp :: ps2) -> accounted d (ps1 ++ tp' :: ps2).
Proof.
  intros Hph [Hon Hc]. split.
  - eapply once_file_op; [exact Hon|done|done|]. intros id. specialize (Hph id). rewrite !leases_at. lia.
  - rewrite covered_at in *. intros id. specialize (Hc id). specialize (Hph id). lia.
Qed.

(** An operation on files. *)
Lemma accounted_files d d' phases :
  d_log d' = d_log d -> (forall p, occupied p d -> occupied p d') -> accounted d phases -> accounted d' phases.
Proof.
  intros Hl Ho [Hon Hc]. split; [|by eapply covered_same].
  eapply once_file_op; [exact Hon|done|done|done].
Qed.

(** The death of the process. *)
Lemma accounted_none d phases : accounted d phases -> accounted d [].
Proof.
  intros [Hon Hc]. split; [|intros id; specialize (Hc id); cbn; lia].
  eapply once_file_op; [exact Hon|done|done|]. intros id. unfold leases. cbn. lia.
Qed.

Lemma once_emit j what id d ls :
  what <> "exec" -> once j {| s_disk := d; s_leased := ls |} -> once j {| s_disk := d_emit (what, id) d; s_leased := ls |}.
Proof.
  intros Hw Hon id'. specialize (Hon id'). cbn [s_disk s_leased] in *. rewrite execs_count in *. rewrite count_emit, decide_False by tauto.
  exact Hon.
Qed.

(** A granted claim may be run and settled. *)
Lemma accounted_claim d c e ps1 ps2 :
  accounted d (ps1 ++ AtAdapter Idle :: ps2) ->
  accounted (d_emit ("claim", cq_ExecutionID c) d) (ps1 ++ AtAdapter (Authorised c e) :: ps2).
Proof.
  intros [Hon Hc]. split.
  - apply once_emit; [done|]. eapply once_file_op; [exact Hon|done|done|]. intros id. rewrite !leases_at. cbn. lia.
  - rewrite covered_at in *. intros id. specialize (Hc id). unfold claims, settlements in *. rewrite execs_count in *.
    rewrite !count_emit. cbn [may_run may_settle] in *. unfold one_if.
    repeat case_decide; destruct_and?; try done; try lia; naive_solver lia.
Qed.

(** A settlement uses the claim. *)
Lemma accounted_settle d id ph ph' ps1 ps2 :
  (forall id', may_settle id' (AtAdapter ph) = one_if (id = id') /\ may_settle id' (AtAdapter ph') = 0%nat /\
     may_run id' (AtAdapter ph') = 0%nat) ->
  accounted d (ps1 ++ AtAdapter ph :: ps2) -> accounted (d_emit ("settle", id) d) (ps1 ++ AtAdapter ph' :: ps2).
Proof.
  intros Hph [Hon Hc]. split.
  - apply once_emit; [done|]. eapply once_file_op; [exact Hon|done|done|]. intros id'. rewrite !leases_at. cbn. lia.
  - rewrite covered_at in *. intros id'. specialize (Hc id'). destruct (Hph id') as (Hs & Hs' & Hr').
    rewrite Hs', Hr'. rewrite Hs in Hc. unfold claims, settlements in *. rewrite execs_count in *. rewrite !count_emit.
    unfold one_if in *. repeat case_decide; destruct_and?; try done; try lia; naive_solver lia.
Qed.

(** The call of the executor uses the lease and the claim. *)
Lemma accounted_exec d c e ps1 ps2 :
  accounted d (ps1 ++ AtRunner c e Leased :: ps2) ->
  accounted (d_emit ("exec", cq_ExecutionID c) d) (ps1 ++ AtRunner c e Spent :: ps2).
Proof.
  intros [Hon Hc]. split.
  - unfold held in *. rewrite bind_app in *. cbn [mbind list_bind lease_held app] in *.
    exact (once_step _ _ _ Hon (step_exec _ _ _ _ _)).
  - rewrite covered_at in *. intros id. specialize (Hc id). unfold claims, settlements in *. rewrite execs_count in *.
    rewrite !count_emit. cbn [may_run may_settle] in *. unfold one_if in *.
    repeat case_decide; destruct_and?; try done; try lia; naive_solver lia.
Qed.

(** What a thread's next operation has to establish. *)
Definition advanced (o : outcome (thread * Locator)) (d : disk) (ps1 ps2 : list tphase) : Prop :=
  match o with
  | Done (t', _) => exists tp', at_thread tp' t' /\ accounted d (ps1 ++ tp' :: ps2)
  | Crashed => accounted d []
  end.

Lemma advance_adapter_accounted a l X (e : effect X) k ph d script rand o w ps1 ps2 :
  advance_adapter a l e k (World d script rand) = (o, w) ->
  at_phase ph (Do e k) -> accounted d (ps1 ++ AtAdapter ph :: ps2) -> advanced o (w_disk w) ps1 ps2.
Proof.
  intros Hh (pub & next & Hp & Hk) Hc. assert (Hat : forall x, at_phase (next x) (k x)) by (intros x; exists pub; apply Hk).
  destruct e as [c|wk|desc|ev out|]; cbn [advance_adapter event_of] in *.
  - destruct (an_gate a c) as [ev|m]; unfold mbind, io_bind in Hh; cbn in Hh; injection Hh as <- <-.
    + exists (AtAdapter (next (Ok ev))). split; [apply Hat|]. specialize (Hp (Ok ev)). inversion Hp; subst. by apply accounted_claim.
    + exists (AtAdapter (next (Err m))). split; [apply Hat|]. specialize (Hp (Err m)). inversion Hp; subst.
      eapply accounted_move; [|exact Hc]. intros id. cbn. lia.
  - injection Hh as <- <-. pose proof (Hp (Err "")) as He. inversion He as [| | | |c e' w m (_ & Hid & _) _| | | | | | | |]; subst.
    exists (AtRunner c e' Entered). split.
    + split; [rewrite <- Hid; apply execution_rsafe|]. intros out. exists (next out). split; [apply Hat|].
      specialize (Hp out). inversion Hp; subst; intros id; cbn; (split; [done|]); rewrite ?Hid; lia.
    + eapply accounted_move; [|exact Hc]. intros id. cbn. lia.
  - unfold mbind, io_bind in Hh.
    pose proof (keeps_run _ _ (World d script rand) (ArtifactURL_log get l desc (d_log d)) eq_refl) as Hl.
    assert (Ho : forall p, occupied p d -> occupied p (w_disk (ArtifactURL get l desc (World d script rand)).2)).
    { intros p Hocc. apply (keeps_run _ _ (World d script rand) (ArtifactURL_occupied get l desc p) Hocc). }
    destruct (ArtifactURL _ _ _ _) as [[[x l']|] w1]; injection Hh as <- <-; cbn [snd] in Hl, Ho;
      (apply (accounted_files _ (w_disk w1)) in Hc; [|exact Hl|exact Ho]).
    + exists (AtAdapter (next x)). split; [apply Hat|]. specialize (Hp x).
      inversion Hp; subst; (eapply accounted_move; [|exact Hc]); intros id; cbn; lia.
    + by eapply accounted_none.
  - destruct (an_settle a ev out) as [[]|m]; unfold mbind, io_bind in Hh; cbn in Hh; injection Hh as <- <-.
    + exists (AtAdapter (next (Ok tt))). split; [apply Hat|]. specialize (Hp (Ok tt)).
      inversion Hp; subst; (eapply accounted_settle; [|exact Hc]);
        match goal with Ho : outcome_for _ _ |- _ => destruct Ho as (_ & Hid & _) end; intros id; cbn; by rewrite Hid.
    + exists (AtAdapter (next (Err m))). split; [apply Hat|]. specialize (Hp (Err m)).
      inversion Hp; subst; (eapply accounted_move; [|exact Hc]); intros id; cbn; lia.
  - injection Hh as <- <-. exists (AtAdapter (next (an_now a))). split; [apply Hat|].
    specialize (Hp (an_now a)). by inversion Hp; subst.
Qed.

Lemma kept_accounted {X} (m : IO X) d script rand phases :
  (forall log, keeps (log_is log) m) -> (forall p, keeps (occupied p) m) ->
  accounted d phases -> accounted (w_disk (m (World d script rand)).2) phases.
Proof.
  intros Hl Ho. apply accounted_files.
  - exact (keeps_run _ _ (World d script rand) (Hl (d_log d)) eq_refl).
  - intros p Hp. exact (keeps_run _ _ (World d script rand) (Ho p) Hp).
Qed.

(** A claim of the journal either grants the lease or settles that the call will
    not run. *)
Lemma accounted_lease c e fp d script rand o w ps1 ps2 :
  Claim (ru_journal r) (cq_ExecutionID c) fp (World d script rand) = (o, w) ->
  accounted d (ps1 ++ AtRunner c e Entered :: ps2) ->
  match o with
  | Done (Ok (true, _)) => accounted (w_disk w) (ps1 ++ AtRunner c e Leased :: ps2)
  | Done _ => accounted (w_disk w) (ps1 ++ AtRunner c e Spent :: ps2)
  | Crashed => accounted (w_disk w) []
  end.
Proof.
  intros Hcl Hacc. pose proof (proj1 Hacc) as Hon. pose proof (once_claim _ _ _ _ _ _ _ _ _ Hon Hcl) as Hon'.
  apply (kept_accounted (Claim (ru_journal r) (cq_ExecutionID c) fp) d script rand) in Hacc;
    [|intros; apply Claim_log|intros; apply Claim_occupied]. rewrite Hcl in Hacc. cbn [snd] in Hacc.
  destruct o as [[[[] record]|m]|]; [| | |by eapply accounted_none];
    try (eapply accounted_move; [|exact Hacc]; intros id; cbn; lia).
  destruct Hacc as [_ Hc]. split; [|by rewrite covered_at in *].
  eapply once_file_op; [exact Hon'|done|done|]. intros id. cbn [lease_of]. rewrite leases_cons, !leases_at. cbn [lease_held].
  rewrite leases_cons. unfold leases. cbn. lia.
Qed.

Lemma perform_accounted a X (op : rop X) (q : X -> rprog (result Outcome)) k c e rp d script rand o w ps1 ps2 :
  perform_op r a op (World d script rand) = (o, w) -> at_thread (AtRunner c e rp) (InRunner (RDo op q) k) ->
  accounted d (ps1 ++ AtRunner c e rp :: ps2) ->
  match o with
  | Done x => exists rp', at_thread (AtRunner c e rp') (InRunner (q x) k) /\ accounted (w_disk w) (ps1 ++ AtRunner c e rp' :: ps2)
  | Crashed => accounted (w_disk w) []
  end.
Proof.
  intros Hr [Hq Hk] Hc. destruct op as [id fp|id sp input| | |mt value|id fp out]; cbn [perform_op rsafe] in *.
  - destruct Hq as (-> & -> & Hyes & Hno & Herr). pose proof (accounted_lease c e fp d script rand o w ps1 ps2 Hr Hc) as Hl.
    destruct o as [[[[] record]|m]|]; [exists Leased|exists Spent..|exact Hl]; (split; [split; auto|exact Hl]).
  - destruct Hq as (-> & -> & Hq). injection Hr as <- <-. exists Spent. split; [by split|]. by apply accounted_exec.
  - injection Hr as <- <-. exists rp. by split; [split|].
  - injection Hr as <- <-. exists rp. by split; [split|].
  - apply (kept_accounted (Put (ru_store r) (an_ctx a) (an_ctxGet a) mt (bytes_reader value)) d script rand) in Hc;
      [|intros; apply Put_log|intros; apply Put_occupied]. rewrite Hr in Hc.
    destruct o as [x|]; [|by eapply accounted_none]. exists rp. by split; [split|].
  - apply (kept_accounted (Complete (ru_journal r) id fp out) d script rand) in Hc;
      [|intros; apply Complete_log|intros; apply Complete_occupied]. rewrite Hr in Hc.
    destruct o as [x|]; [|by eapply accounted_none]. exists rp. by split; [split|].
Qed.

Lemma advance_accounted a t l tp d script rand o w ps1 ps2 :
  advance a t l (World d script rand) = (o, w) -> at_thread tp t -> accounted d (ps1 ++ tp :: ps2) ->
  advanced o (w_disk w) ps1 ps2.
Proof.
  intros Ha Ht Hc. destruct t as [[u|X e k]|[out|X op q] k], tp as [ph|c ev rp]; try done; cbn [advance] in Ha.
  - injection Ha as <- <-. by exists (AtAdapter ph).
  - by eapply advance_adapter_accounted.
  - injection Ha as <- <-. destruct Ht as [_ Hk]. destruct (Hk out) as (ph & Hat & Hno). exists (AtAdapter ph). split; [done|].
    eapply accounted_move; [|exact Hc]. intros id. destruct (Hno id) as [-> Hs]. cbn [may_settle lease_held] in *.
    split_and!; [lia|exact Hs|unfold leases; cbn; lia].
  - unfold mbind, io_bind in Ha. destruct (perform_op r a op _) as [o1 w1] eqn:Hr.
    pose proof (perform_accounted _ _ _ _ _ _ _ _ _ _ _ _ _ _ _ Hr Ht Hc) as Hx.
    destruct o1 as [x|]; injection Ha as <- <-; [|exact Hx]. destruct Hx as (rp' & Hat & Hacc). by exists (AtRunner c ev rp').
Qed.

Lemma threads_split phases ts1 t ts2 :
  Forall2 at_thread phases (ts1 ++ t :: ts2) -> exists ps1 tp ps2, phases = ps1 ++ tp :: ps2 /\
    Forall2 at_thread ps1 ts1 /\ at_thread tp t /\ Forall2 at_thread ps2 ts2.
Proof.
  intros (ps1 & ps & Hf1 & Hf2 & ->)%Forall2_app_inv_r. apply Forall2_cons_inv_r in Hf2 as (tp & ps2 & Ht & Hf2 & ->).
  by exists ps1, tp, ps2.
Qed.

Lemma worker_inv_step s s' : worker_inv s -> worker_step s s' -> worker_inv s'.
Proof.
  intros (phases & Hf & Hacc) Hs.
  inversion Hs as [p d l ts Hp|ts1 ts2 t t' a d l script rand l' w Ha|ts1 ts2 t a d l script rand w l' Ha
    |ts1 ts2 d l|d l ts l'|d d' l ts l' Hp]; subst; cbn [wk_disk wk_threads] in *.
  - exists (AtAdapter Idle :: phases). split; [constructor; [by apply program_safe|done]|].
    destruct Hacc as [Hon Hc]. split; [exact Hon|]. intros id. specialize (Hc id). cbn. lia.
  - apply threads_split in Hf as (ps1 & tp & ps2 & -> & Hf1 & Ht & Hf2).
    destruct (advance_accounted _ _ _ _ _ _ _ _ _ _ _ Ha Ht Hacc) as (tp' & Ht' & Hacc').
    exists (ps1 ++ tp' :: ps2). split; [|done]. apply Forall2_app; [done|]. by constructor.
  - apply threads_split in Hf as (ps1 & tp & ps2 & -> & Hf1 & Ht & Hf2). exists []. split; [constructor|].
    exact (advance_accounted _ _ _ _ _ _ _ _ _ _ _ Ha Ht Hacc).
  - apply threads_split in Hf as (ps1 & tp & ps2 & -> & Hf1 & Ht & Hf2).
    exists (ps1 ++ ps2). split; [by apply Forall2_app|]. destruct Hacc as [Hon Hc]. split.
    + eapply once_file_op; [exact Hon|done|done|]. intros id. rewrite leases_at. lia.
    + rewrite covered_at in Hc. intros id. specialize (Hc id). cbn [wk_disk]. lia.
  - exists []. split; [constructor|by eapply accounted_none].
  - exists []. split; [constructor|]. apply accounted_none in Hacc as [Hon Hc]. split.
    + eapply once_step; [exact Hon|]. by apply step_power_loss.
    + destruct Hp as (_ & Hl & _). by eapply covered_same.
Qed.

(** C3. Composition: in every history of concurrent calls of the three
    adapters over the runner and the locator, with file errors, deaths and power
    losses, an execution identity is run at most once, it is run only when the
    gate has granted a claim for it, and every settlement has its own claim.
    The calls interleave inside the runner too, between any two of its
    operations. *)
Theorem adapters_run_authorised_once d l s id
    (Hstart : d_log d = []) (Hrun : rtc worker_step {| wk_disk := d; wk_locator := l; wk_threads := [] |} s) :
  (execs id (wk_disk s) <= 1)%nat /\ (execs id (wk_disk s) <= claims id (wk_disk s))%nat /\
  (settlements id (wk_disk s) <= claims id (wk_disk s))%nat.
Proof.
  assert (Hinv : worker_inv {| wk_disk := d; wk_locator := l; wk_threads := [] |}).
  { exists []. split; [constructor|]. split.
    - intros id'. cbn [s_disk s_leased wk_disk held]. unfold execs, leases. rewrite Hstart. cbn. lia.
    - intros id'. unfold execs, claims, settlements, count. cbn [wk_disk]. rewrite Hstart. cbn. lia. }
  clear Hstart. induction Hrun as [s|s s1 s2 Hs Hr IH]; [|apply IH; by eapply worker_inv_step].
  destruct Hinv as (phases & _ & Hon & Hc). destruct (Hon id) as [Hle _]. destruct (Hc id). cbn [s_disk s_leased] in Hle. lia.
Qed.

(** ** Executable schedules *)

(** The thread at an index advances, without faults. *)
Definition advance_at (a : Answers) (n : nat) (s : worker) : option worker :=
  t ← wk_threads s !! n;
  match advance a t (wk_locator s) (World (wk_disk s) [] []) with
  | (Done (t', l'), w) => Some {| wk_disk := w_disk w; wk_locator := l'; wk_threads := <[n := t']> (wk_threads s) |}
  | (Crashed, _) => None
  end.

Fixpoint scheduled (a : Answers) (schedule : list nat) (s : worker) : option worker :=
  match schedule with
  | [] => Some s
  | n :: schedule => s' ← advance_at a n s; scheduled a schedule s'
  end.

Lemma scheduled_steps a schedule s s' : scheduled a schedule s = Some s' -> rtc worker_step s s'.
Proof.
  revert s. induction schedule as [|n schedule IH]; intros s Hs; cbn [scheduled] in Hs; [injection Hs as <-; reflexivity|].
  apply bind_Some in Hs as (s1 & Ha & Hs). eapply rtc_l; [|by apply IH]. unfold advance_at in Ha.
  apply bind_Some in Ha as (t & Ht & Ha). destruct (advance a t _ _) as [[[t' l']|] w] eqn:Hadv; [|done]. injection Ha as <-.
  destruct s as [d l ts]. cbn [wk_threads wk_disk wk_locator] in *.
  pose proof (take_drop_middle _ _ _ Ht) as Hts. rewrite (insert_take_drop _ _ _ (lookup_lt_Some _ _ _ Ht)).
  rewrite <- Hts at 1. by eapply worker_advance.
Qed.
End Worker.

(** ** Witness: two calls for one execution, both inside the runner

    The gate grants both claims; the second call enters the runner and is refused
    the lease while the first holds it, before the first starts the executor. *)

Module WorkerSamples.
#[local] Existing Instances PacketSamples.payload_fields PublicationSamples.index_fields PublicationSamples.simple_url
  A2ASamples.binding_fields A2ASamples.input_fields MCPSamples.input_fields PublicationSamples.store_verified.
#[local] Existing Instances Runner.Samples.journalRecord_fields Runner.Samples.fingerprint_fields Runner.Samples.report_fields.

Definition packet : Packet := PacketSamples.packet (Granting.sha "d").
Definition call : prog unit := forget (PacketAdapter.Execute PacketSamples.adapter packet).
Definition answers : Answers :=
  {| an_gate := fun c => Ok (Granting.evidence c); an_settle := fun _ _ => Ok tt; an_now := 1700000000;
     an_result := ru_executor Runner.Samples.runner "" (job_spec FrozenV1Contract) ""; an_ctx := None; an_ctxGet := None |}.
Definition disk0 : disk := Disk ∅ ∅ [].

Abbreviation wstep := (worker_step A2ASamples.marshal Runner.Samples.tar (Get PublicationSamples.store) Runner.Samples.runner).
Abbreviation at_disk d p := {| wk_disk := d; wk_locator := PublicationSamples.empty; wk_threads := p |}.

Definition overlapping : option worker :=
  scheduled Runner.Samples.tar (Get PublicationSamples.store) Runner.Samples.runner answers
    [0; 1; 0; 1; 0; 1; 0; 0; 0; 0; 0; 0; 0; 0; 0; 0; 0]%nat (at_disk disk0 [InAdapter call; InAdapter call]).
Definition final : worker := default (at_disk disk0 []) overlapping.

Lemma final_reached : rtc wstep (at_disk disk0 []) final.
Proof.
  apply (rtc_l _ _ (at_disk disk0 [InAdapter call])); [apply worker_start, packet_program|].
  apply (rtc_l _ _ (at_disk disk0 [InAdapter call; InAdapter call])); [apply worker_start, packet_program|].
  unfold final, overlapping. destruct (scheduled _ _ _ _ _ _) as [s|] eqn:Hs; [|exfalso].
  - by apply (scheduled_steps A2ASamples.marshal) in Hs.
  - apply (f_equal (fun o => match o with Some _ => true | None => false end)) in Hs. revert Hs. vm_compute. discriminate.
Qed.
End WorkerSamples.
#[local] Existing Instance PublicationSamples.store_verified.

Lemma adapters_run_authorised_once_witness :
  (fst <$> d_log (wk_disk WorkerSamples.final)) = ["settle"; "exec"; "claim"; "claim"] /\
  execs (Granting.sha "b") (wk_disk WorkerSamples.final) = 1%nat /\
  (execs (Granting.sha "b") (wk_disk WorkerSamples.final) <= 1)%nat.
Proof.
  split; [vm_compute; reflexivity|]. split; [vm_compute; reflexivity|].
  exact (proj1 (adapters_run_authorised_once _ _ _ _ WorkerSamples.disk0 _ _ (Granting.sha "b") eq_refl WorkerSamples.final_reached)).
Defined.

(** A commitment made for one transport is not one of the other. *)
Lemma commitments_separated `{!Json A2AAdapter.inputFields, !Json MCPAdapter.inputFields} b v :
  A2AAdapter.inputDigest b = MCPAdapter.inputDigest v -> collision.
Proof.
  intros Hd. apply digest_collision in Hd as [Heq|Hc]; [|exact Hc].
  apply (f_equal (str_drop 12)) in Heq. cbn [str_drop append] in Heq. discriminate Heq.
Qed.
