(* ===== verification/CapabilityGate.v ===== *)
(** * pkg/capabilitygate/gate.go: admission of capability use at the executor sink

    [Admit] checks a request against the authority heads, the trusted time and
    what the sink itself observed, and then asks the sink journal to linearise
    the start.  The protocol module's objects and checks are the class [Trusted];
    the head resolver, the clock and the journal are interfaces of the gate and
    are arguments of the operation. *)

From S2P Require Import Prelude GoStd Sha256 Json AdapterProtocol.

(** ** The protocol module *)

(** [trusted.CapabilityUseBindingV1]: the fields the gate reads. *)
Record UseBinding := {
  ub_OwnerID : bytes;
  ub_AgentID : bytes;
  ub_ArtifactVersionDigest : bytes;
  ub_PermissionSubsetDigest : bytes;
  ub_UseLeaseDigest : bytes;
  ub_AuthorityEpoch : Z;
  ub_PolicyRevision : Z;
  ub_PolicyDigest : bytes;
  ub_ControlScopeGeneration : Z;
  ub_AdmissionRevision : Z;
  ub_AdmissionEnvelopeDigest : bytes;
  ub_AdmissionRevocationGeneration : Z;
  ub_PromotionRevision : option Z;
  ub_PromotionRevocationGeneration : option Z;
  ub_PromotionEnvelopeDigest : option bytes;
  ub_InstallationRevision : Z;
  ub_InventoryRevision : Z;
  ub_LoadedObjectDigest : bytes;
  ub_RuntimeAndSandboxDigest : bytes;
  ub_EffectiveEnvironmentDigest : bytes;
  ub_CredentialCapabilityReferenceSetDigest : bytes;
  ub_FilesystemHandleSetDigest : bytes;
  ub_NetworkBrokerPolicyDigest : bytes;
  ub_RemoteSessionHandshakeDigest : option bytes;
  ub_ExecutionID : bytes;
  ub_ActionID : bytes;
}.

(** [trusted.TypedAuthoritySubjectV1]. *)
Record Subject := { sj_Kind : string; sj_Namespace : string; sj_Identifier : bytes }.

(** The body of [trusted.ProfileAuthorizationEnvelopeV1]. *)
Record EnvelopeBody := {
  eb_AuthorityKind : string;
  eb_AuthorityID : bytes;
  eb_ProofProfileURI : string;
  eb_IssuerSubject : Subject;
  eb_OwnerID : bytes;
  eb_AgentID : option bytes;
  eb_PolicyRevision : Z;
  eb_PolicyDigest : bytes;
  eb_AuthorityEpoch : Z;
}.

(** The structure [Admit] marshals for the scope. *)
Record scopeFields := { sf_DomainKind : Z; sf_DomainID : bytes; sf_SinkID : bytes; sf_OwnerID : bytes; sf_AgentID : bytes }.

(** Objects, envelopes, leases and permission manifests are opaque to the gate,
    apart from the fields it reads. *)
Class Trusted := {
  ProfileObject : Type;
  Envelope : Type;
  UseLease : Type;
  PermissionManifest : Type;
  envelope_body : Envelope -> EnvelopeBody;
  object_DomainKind : ProfileObject -> Z;
  object_DomainID : ProfileObject -> bytes;
  lease_OwnerID : UseLease -> bytes;
  lease_AgentID : UseLease -> bytes;
  DomainTOSNetwork : Z;
  DomainOwnerLocal : Z;
  ValidateUseBindingShape : UseBinding -> bool -> result unit;
  DecodeLease : ProfileObject -> result UseLease;                    (* DecodeBody(_, "use-lease", _) *)
  DecodePermissions : ProfileObject -> result PermissionManifest;    (* DecodeBody(_, "permission-manifest", _) *)
  ValidateUseLease : UseLease -> Z -> Z -> Z -> Z -> result unit;
  VerifyAuthorization : Envelope -> ProfileObject -> Z -> Z -> result unit;
  ObjectDigest : ProfileObject -> result bytes;
  PermissionSubsetOf : PermissionManifest -> PermissionManifest -> result unit;
  ValidateLeaseBinding : UseLease -> UseBinding -> bytes -> result unit;
  MarshalScope : scopeFields -> result bytes;
  NewBindingObject : Z -> bytes -> UseBinding -> result ProfileObject; (* NewObject(_, _, "capability-use-binding", _) *)
}.

Section Gate.
Context `{Trusted}.

Record AuthorityHeads := {
  ah_AuthorityEpoch : Z;
  ah_PolicyRevision : Z;
  ah_AdmissionRevocationGeneration : Z;
  ah_PromotionRevocationGeneration : Z;
  ah_ControlScopeGeneration : Z;
  ah_AdmissionRevision : Z;
  ah_PromotionRevision : Z;
  ah_InstallationRevision : Z;
  ah_InventoryRevision : Z;
  ah_PolicyDigest : bytes;
  ah_AdmissionEnvelopeDigest : bytes;
  ah_PromotionEnvelopeDigest : bytes;
  ah_PermissionManifestDigest : bytes;
  ah_AdmittedPermissionManifest : PermissionManifest;
  ah_LeaseIssuerSubject : Subject;
  ah_LeaseAuthorityID : bytes;
  ah_LeaseProofProfileURI : string;
  ah_OwnerID : bytes;
  ah_AgentID : bytes;
}.

Record TrustedTimeObservation := { to_UnixSeconds : Z; to_Epoch : Z; to_EvidenceDigest : bytes }.

Record ObservedUseContext := {
  oc_LoadedObjectDigest : bytes;
  oc_InstallationRevision : Z;
  oc_RuntimeAndSandboxDigest : bytes;
  oc_EffectiveEnvironmentDigest : bytes;
  oc_CredentialCapabilityReferenceSetDigest : bytes;
  oc_FilesystemHandleSetDigest : bytes;
  oc_NetworkBrokerPolicyDigest : bytes;
  oc_RemoteSessionHandshakeDigest : option bytes;
}.

Record Request := {
  rq_Binding : UseBinding;
  rq_LeaseObject : ProfileObject;
  rq_LeaseEnvelope : Envelope;
  rq_PermissionSubsetObject : ProfileObject;
  rq_Remote : bool;
  rq_Observed : ObservedUseContext;
}.

(** The identity of the sink; the interfaces are arguments of [Admit]. *)
Record Gate := { gt_domainKind : Z; gt_domainID : bytes; gt_sinkID : bytes }.

Definition New (domainKind : Z) (domainID sinkID : bytes) (heads_nil journal_nil clock_nil : bool) : result Gate :=
  fail_if ((negb (domainKind =? DomainTOSNetwork) && negb (domainKind =? DomainOwnerLocal)) || (len domainID =? 0) ||
           (len sinkID =? 0) || heads_nil || journal_nil || clock_nil)
    "capability Gate requires sink identity, authority resolver, rollback-resistant journal, and trusted time" ;;;
  Ok {| gt_domainKind := domainKind; gt_domainID := domainID; gt_sinkID := sinkID |}.

Definition sameSubject (left right : Subject) : bool :=
  (sj_Kind left =s? sj_Kind right) && (sj_Namespace left =s? sj_Namespace right) && (sj_Identifier left =s? sj_Identifier right).

Definition optionalEqual (binding : option bytes) (resolved : bytes) : bool :=
  match binding with None => len resolved =? 0 | Some b => b =s? resolved end.

Definition optionalObservedEqual (left right : option bytes) : bool :=
  match left, right with None, None => true | Some l, Some r => l =s? r | _, _ => false end.

Definition value (input : option Z) : Z := default 0 input.

(** The arguments of [LinearizeCapabilityStart]. *)
Record Start := {
  st_scope : bytes;
  st_heads : AuthorityHeads;
  st_ExecutionID : bytes;
  st_ActionID : bytes;
  st_exactRequestDigest : bytes;
  st_time : TrustedTimeObservation;
}.

Definition scope_fields (g : Gate) (b : UseBinding) : scopeFields :=
  {| sf_DomainKind := gt_domainKind g; sf_DomainID := gt_domainID g; sf_SinkID := gt_sinkID g; sf_OwnerID := ub_OwnerID b;
     sf_AgentID := ub_AgentID b |}.

Definition scope_sum (scopeBytes : bytes) : bytes :=
  sha256_Sum256 ("tos.capability-start-scope.v1" +:+ String "000" "" +:+ scopeBytes).

(** The lease was issued by the authority the heads name. *)
Definition lease_authority (envelope : EnvelopeBody) (lease : UseLease) (heads : AuthorityHeads) : bool :=
  negb ((eb_AuthorityKind envelope <>s? "use-lease") || (eb_AuthorityID envelope <>s? ah_LeaseAuthorityID heads) ||
        (eb_ProofProfileURI envelope <>s? ah_LeaseProofProfileURI heads) ||
        negb (sameSubject (eb_IssuerSubject envelope) (ah_LeaseIssuerSubject heads)) ||
        (eb_OwnerID envelope <>s? ah_OwnerID heads) ||
        match eb_AgentID envelope with None => true | Some agent => agent <>s? ah_AgentID heads end ||
        (lease_OwnerID lease <>s? ah_OwnerID heads) || (lease_AgentID lease <>s? ah_AgentID heads) ||
        negb (eb_PolicyRevision envelope =? ah_PolicyRevision heads) || (eb_PolicyDigest envelope <>s? ah_PolicyDigest heads) ||
        negb (eb_AuthorityEpoch envelope =? ah_AuthorityEpoch heads)).

(** The binding carries the heads and the lease. *)
Definition current_binding (g : Gate) (b : UseBinding) (lease : UseLease) (leaseDigest : bytes) (heads : AuthorityHeads) : bool :=
  negb (negb (is_ok (ValidateLeaseBinding lease b (gt_sinkID g))) || (ub_UseLeaseDigest b <>s? leaseDigest) ||
        negb (ub_AuthorityEpoch b =? ah_AuthorityEpoch heads) ||
        negb (ub_PolicyRevision b =? ah_PolicyRevision heads) || (ub_PolicyDigest b <>s? ah_PolicyDigest heads) ||
        negb (ub_ControlScopeGeneration b =? ah_ControlScopeGeneration heads) ||
        negb (ub_AdmissionRevision b =? ah_AdmissionRevision heads) ||
        (ub_AdmissionEnvelopeDigest b <>s? ah_AdmissionEnvelopeDigest heads) ||
        negb (ub_AdmissionRevocationGeneration b =? ah_AdmissionRevocationGeneration heads) ||
        negb (value (ub_PromotionRevision b) =? ah_PromotionRevision heads) ||
        negb (value (ub_PromotionRevocationGeneration b) =? ah_PromotionRevocationGeneration heads) ||
        negb (optionalEqual (ub_PromotionEnvelopeDigest b) (ah_PromotionEnvelopeDigest heads)) ||
        negb (ub_InstallationRevision b =? ah_InstallationRevision heads) ||
        negb (ub_InventoryRevision b =? ah_InventoryRevision heads)).

(** What the sink observed is what the binding names. *)
Definition observed_matches (observed : ObservedUseContext) (b : UseBinding) : bool :=
  negb ((oc_LoadedObjectDigest observed <>s? ub_LoadedObjectDigest b) ||
        negb (oc_InstallationRevision observed =? ub_InstallationRevision b) ||
        (oc_RuntimeAndSandboxDigest observed <>s? ub_RuntimeAndSandboxDigest b) ||
        (oc_EffectiveEnvironmentDigest observed <>s? ub_EffectiveEnvironmentDigest b) ||
        (oc_CredentialCapabilityReferenceSetDigest observed <>s? ub_CredentialCapabilityReferenceSetDigest b) ||
        (oc_FilesystemHandleSetDigest observed <>s? ub_FilesystemHandleSetDigest b) ||
        (oc_NetworkBrokerPolicyDigest observed <>s? ub_NetworkBrokerPolicyDigest b) ||
        negb (optionalObservedEqual (oc_RemoteSessionHandshakeDigest observed) (ub_RemoteSessionHandshakeDigest b))).

(** [Admit] up to the call of the journal: the arguments of that call. *)
Definition Admit_start (g : Gate) (resolve : bytes -> bytes -> bytes -> result AuthorityHeads)
    (clock : result TrustedTimeObservation) (request : Request) : result Start :=
  let b := rq_Binding request in
  ValidateUseBindingShape b (rq_Remote request) ;;;
  let* heads := resolve (ub_OwnerID b) (ub_AgentID b) (ub_ArtifactVersionDigest b) in
  match clock with
  | Err _ => Err "trusted execution time is unavailable"
  | Ok time =>
      fail_if ((to_UnixSeconds time =? 0) || (to_Epoch time =? 0) || negb (len (to_EvidenceDigest time) =? 32))
        "trusted execution time is unavailable" ;;;
      let now := to_UnixSeconds time in
      let* lease := DecodeLease (rq_LeaseObject request) in
      ValidateUseLease lease now (ah_AuthorityEpoch heads) (ah_AdmissionRevocationGeneration heads)
        (ah_PromotionRevocationGeneration heads) ;;;
      VerifyAuthorization (rq_LeaseEnvelope request) (rq_LeaseObject request) now (ah_AuthorityEpoch heads) ;;;
      fail_if (negb (lease_authority (envelope_body (rq_LeaseEnvelope request)) lease heads))
        "capability Gate rejected self-selected lease authority" ;;;
      let* selectedPermissions := DecodePermissions (rq_PermissionSubsetObject request) in
      match ObjectDigest (rq_PermissionSubsetObject request) with
      | Err _ => Err "capability Gate rejected an unbound or expanded permission subset"
      | Ok selectedDigest =>
          fail_if ((selectedDigest <>s? ub_PermissionSubsetDigest b) ||
                   negb (is_ok (PermissionSubsetOf selectedPermissions (ah_AdmittedPermissionManifest heads))))
            "capability Gate rejected an unbound or expanded permission subset" ;;;
          fail_if (negb (object_DomainKind (rq_LeaseObject request) =? gt_domainKind g) ||
                   (object_DomainID (rq_LeaseObject request) <>s? gt_domainID g))
            "capability Gate rejected cross-domain lease" ;;;
          let* leaseDigest := ObjectDigest (rq_LeaseObject request) in
          fail_if (negb (current_binding g b lease leaseDigest heads))
            "capability Gate rejected stale authority or sink binding" ;;;
          fail_if (negb (observed_matches (rq_Observed request) b))
            "capability Gate rejected caller-selected or changed runtime resources" ;;;
          let* scopeBytes := MarshalScope (scope_fields g b) in
          let* bindingObject := NewBindingObject (gt_domainKind g) (gt_domainID g) b in
          let* exactRequestDigest := ObjectDigest bindingObject in
          Ok {| st_scope := scope_sum scopeBytes; st_heads := heads; st_ExecutionID := ub_ExecutionID b;
                st_ActionID := ub_ActionID b; st_exactRequestDigest := exactRequestDigest; st_time := time |}
      end
  end.

(** [Admit] over a journal with state [J]. *)
Definition Admit {J} (linearize : J -> Start -> result unit * J) (g : Gate)
    (resolve : bytes -> bytes -> bytes -> result AuthorityHeads) (clock : result TrustedTimeObservation)
    (request : Request) (j : J) : result unit * J :=
  match Admit_start g resolve clock request with
  | Err e => (Err e, j)
  | Ok start => linearize j start
  end.
(** ** The declarative specification *)

Definition issued_by_authority (envelope : EnvelopeBody) (lease : UseLease) (heads : AuthorityHeads) : Prop :=
  eb_AuthorityKind envelope = "use-lease" /\ eb_AuthorityID envelope = ah_LeaseAuthorityID heads /\
  eb_ProofProfileURI envelope = ah_LeaseProofProfileURI heads /\ eb_IssuerSubject envelope = ah_LeaseIssuerSubject heads /\
  eb_OwnerID envelope = ah_OwnerID heads /\ eb_AgentID envelope = Some (ah_AgentID heads) /\
  lease_OwnerID lease = ah_OwnerID heads /\ lease_AgentID lease = ah_AgentID heads /\
  eb_PolicyRevision envelope = ah_PolicyRevision heads /\ eb_PolicyDigest envelope = ah_PolicyDigest heads /\
  eb_AuthorityEpoch envelope = ah_AuthorityEpoch heads.

(** A promotion that the binding leaves out is one the heads do not have. *)
Definition names_heads (b : UseBinding) (heads : AuthorityHeads) : Prop :=
  ub_AuthorityEpoch b = ah_AuthorityEpoch heads /\ ub_PolicyRevision b = ah_PolicyRevision heads /\
  ub_PolicyDigest b = ah_PolicyDigest heads /\ ub_ControlScopeGeneration b = ah_ControlScopeGeneration heads /\
  ub_AdmissionRevision b = ah_AdmissionRevision heads /\ ub_AdmissionEnvelopeDigest b = ah_AdmissionEnvelopeDigest heads /\
  ub_AdmissionRevocationGeneration b = ah_AdmissionRevocationGeneration heads /\
  default 0 (ub_PromotionRevision b) = ah_PromotionRevision heads /\
  default 0 (ub_PromotionRevocationGeneration b) = ah_PromotionRevocationGeneration heads /\
  default "" (ub_PromotionEnvelopeDigest b) = ah_PromotionEnvelopeDigest heads /\
  ub_InstallationRevision b = ah_InstallationRevision heads /\ ub_InventoryRevision b = ah_InventoryRevision heads.

Definition observed_as_bound (observed : ObservedUseContext) (b : UseBinding) : Prop :=
  oc_LoadedObjectDigest observed = ub_LoadedObjectDigest b /\ oc_InstallationRevision observed = ub_InstallationRevision b /\
  oc_RuntimeAndSandboxDigest observed = ub_RuntimeAndSandboxDigest b /\
  oc_EffectiveEnvironmentDigest observed = ub_EffectiveEnvironmentDigest b /\
  oc_CredentialCapabilityReferenceSetDigest observed = ub_CredentialCapabilityReferenceSetDigest b /\
  oc_FilesystemHandleSetDigest observed = ub_FilesystemHandleSetDigest b /\
  oc_NetworkBrokerPolicyDigest observed = ub_NetworkBrokerPolicyDigest b /\
  oc_RemoteSessionHandshakeDigest observed = ub_RemoteSessionHandshakeDigest b.

Definition admissible (g : Gate) (resolve : bytes -> bytes -> bytes -> result AuthorityHeads)
    (clock : result TrustedTimeObservation) (request : Request) (start : Start) : Prop :=
  let b := rq_Binding request in
  exists heads time lease permissions leaseDigest scopeBytes bindingObject,
    (ValidateUseBindingShape b (rq_Remote request) = Ok tt /\
     resolve (ub_OwnerID b) (ub_AgentID b) (ub_ArtifactVersionDigest b) = Ok heads /\ clock = Ok time /\
     to_UnixSeconds time <> 0 /\ to_Epoch time <> 0 /\ len (to_EvidenceDigest time) = 32) /\
    (DecodeLease (rq_LeaseObject request) = Ok lease /\
     ValidateUseLease lease (to_UnixSeconds time) (ah_AuthorityEpoch heads) (ah_AdmissionRevocationGeneration heads)
       (ah_PromotionRevocationGeneration heads) = Ok tt /\
     VerifyAuthorization (rq_LeaseEnvelope request) (rq_LeaseObject request) (to_UnixSeconds time) (ah_AuthorityEpoch heads) = Ok tt /\
     issued_by_authority (envelope_body (rq_LeaseEnvelope request)) lease heads /\
     object_DomainKind (rq_LeaseObject request) = gt_domainKind g /\ object_DomainID (rq_LeaseObject request) = gt_domainID g /\
     ObjectDigest (rq_LeaseObject request) = Ok leaseDigest /\ ub_UseLeaseDigest b = leaseDigest /\
     ValidateLeaseBinding lease b (gt_sinkID g) = Ok tt) /\
    (DecodePermissions (rq_PermissionSubsetObject request) = Ok permissions /\
     ObjectDigest (rq_PermissionSubsetObject request) = Ok (ub_PermissionSubsetDigest b) /\
     PermissionSubsetOf permissions (ah_AdmittedPermissionManifest heads) = Ok tt) /\
    names_heads b heads /\ observed_as_bound (rq_Observed request) b /\
    MarshalScope (scope_fields g b) = Ok scopeBytes /\
    NewBindingObject (gt_domainKind g) (gt_domainID g) b = Ok bindingObject /\
    (st_scope start = scope_sum scopeBytes /\ st_heads start = heads /\ st_ExecutionID start = ub_ExecutionID b /\
     st_ActionID start = ub_ActionID b /\ ObjectDigest bindingObject = Ok (st_exactRequestDigest start) /\ st_time start = time).

Lemma is_ok_unit (m : result unit) : is_ok m = true <-> m = Ok tt.
Proof. destruct m as [[]|]; split; by intros. Qed.

Lemma lease_authority_spec envelope lease heads :
  lease_authority envelope lease heads = true <-> issued_by_authority envelope lease heads.
Proof.
  unfold lease_authority, issued_by_authority, sameSubject. rewrite negb_true_iff, !orb_false_iff, !negb_false_iff.
  rewrite !andb_true_iff, !String.eqb_eq, !Z.eqb_eq. destruct (eb_IssuerSubject envelope), (ah_LeaseIssuerSubject heads). cbn.
  destruct (eb_AgentID envelope) as [agent|]; [rewrite negb_false_iff, String.eqb_eq|]; split; intros; destruct_and?; simplify_eq; split_and?; try done.
Qed.

Lemma optionalEqual_spec b resolved : optionalEqual b resolved = true <-> default "" b = resolved.
Proof.
  destruct b as [b|]; cbn; [apply String.eqb_eq|]. rewrite Z.eqb_eq. split; [by intros ->%len_zero|by intros <-].
Qed.

Lemma current_binding_spec g b lease leaseDigest heads :
  current_binding g b lease leaseDigest heads = true <->
  ValidateLeaseBinding lease b (gt_sinkID g) = Ok tt /\ ub_UseLeaseDigest b = leaseDigest /\ names_heads b heads.
Proof.
  unfold current_binding, names_heads, value. rewrite negb_true_iff, !orb_false_iff, !negb_false_iff, is_ok_unit, optionalEqual_spec.
  rewrite !String.eqb_eq, !Z.eqb_eq. tauto.
Qed.

Lemma observed_matches_spec observed b : observed_matches observed b = true <-> observed_as_bound observed b.
Proof.
  unfold observed_matches, observed_as_bound. rewrite negb_true_iff, !orb_false_iff, !negb_false_iff, !String.eqb_eq, Z.eqb_eq.
  assert (Ho : optionalObservedEqual (oc_RemoteSessionHandshakeDigest observed) (ub_RemoteSessionHandshakeDigest b) = true <->
    oc_RemoteSessionHandshakeDigest observed = ub_RemoteSessionHandshakeDigest b).
  { destruct (oc_RemoteSessionHandshakeDigest observed), (ub_RemoteSessionHandshakeDigest b); cbn; rewrite ?String.eqb_eq; naive_solver. }
  rewrite Ho. tauto.
Qed.

Lemma admit_start_iff g resolve clock request start :
  Admit_start g resolve clock request = Ok start <-> admissible g resolve clock request start.
Proof.
  unfold Admit_start, admissible. cbv zeta. split.
  - intros Ha. result_inv. destruct clock as [time|e]; [|discriminate]. result_inv.
    destruct (ObjectDigest (rq_PermissionSubsetObject request)) as [selected|e] eqn:Hs; [|discriminate]. result_inv.
    bool_props. repeat match goal with
    | Hb : lease_authority _ _ _ = true |- _ => apply lease_authority_spec in Hb
    | Hb : current_binding _ _ _ _ _ = true |- _ => apply current_binding_spec in Hb as (? & ? & ?)
    | Hb : observed_matches _ _ = true |- _ => apply observed_matches_spec in Hb
    | Hb : is_ok _ = true |- _ => apply is_ok_unit in Hb
    end.
    subst. do 7 eexists. split_and!; try eassumption; cbn; try eassumption; reflexivity.
  - intros (heads & time & lease & permissions & leaseDigest & scopeBytes & bindingObject & (-> & -> & -> & Ht1 & Ht2 & Ht3) &
      (-> & Hl1 & Hl2 & Hl3 & Hd1 & Hd2 & Hld & Hl4 & Hl5) & (-> & -> & Hp) & Hn & Ho & -> & -> & Hs1 & Hs2 & Hs3 & Hs4 & Hs5 & Hs6).
    cbn [rbind]. rewrite (proj2 (Z.eqb_neq _ _) Ht1), (proj2 (Z.eqb_neq _ _) Ht2), Ht3. cbn [orb negb Z.eqb Pos.eqb fail_if rbind].
    rewrite Hl1. cbn [rbind]. rewrite Hl2. cbn [rbind]. rewrite (proj2 (lease_authority_spec _ _ _) Hl3). cbn [negb fail_if rbind].
    rewrite Hp, String.eqb_refl, Hd1, Z.eqb_refl, Hd2, String.eqb_refl. cbn [is_ok negb orb fail_if rbind]. rewrite Hld. cbn [rbind].
    rewrite (proj2 (current_binding_spec _ _ _ _ _) (conj Hl5 (conj Hl4 Hn))), (proj2 (observed_matches_spec _ _) Ho).
    cbn [negb fail_if rbind]. rewrite Hs5. cbn [rbind]. destruct start. cbn in *. by subst.
Qed.

(** [Admit] reaches the journal exactly for admissible requests: the lease
    was issued by the authority the heads name and is verified at the trusted
    time, the binding names the current heads, the permissions are within the
    admitted ones, and what the sink observed is what the binding names; the
    start it asks for is then the one of the binding. *)
Theorem admit_exact g resolve clock request start :
  Admit_start g resolve clock request = Ok start <-> admissible g resolve clock request start.
Proof.
  apply admit_start_iff.
Qed.

(** The scope of a start identifies the sink and the principal: starts with
    the same scope come from the same domain, sink, owner and agent, or a
    collision of SHA-256 is known.  Canonical CBOR encodes different structures
    differently. *)
Theorem scope_identifies g g' resolve resolve' clock clock' request request' start start'
    (Hcanonical : forall f f' b, MarshalScope f = Ok b -> MarshalScope f' = Ok b -> f = f')
    (Hstart : Admit_start g resolve clock request = Ok start) (Hstart' : Admit_start g' resolve' clock' request' = Ok start')
    (Hscope : st_scope start = st_scope start') :
  (g = g' /\ ub_OwnerID (rq_Binding request) = ub_OwnerID (rq_Binding request') /\
   ub_AgentID (rq_Binding request) = ub_AgentID (rq_Binding request')) \/ collision.
Proof.
  apply admit_start_iff in Hstart, Hstart'.
  destruct Hstart as (? & ? & ? & ? & ? & sb & ? & _ & _ & _ & _ & _ & Hm & _ & Hs & _).
  destruct Hstart' as (? & ? & ? & ? & ? & sb' & ? & _ & _ & _ & _ & _ & Hm' & _ & Hs' & _).
  rewrite Hs, Hs' in Hscope. unfold scope_sum in Hscope.
  destruct (String.eqb_spec sb sb') as [->|Hne].
  - left. pose proof (Hcanonical _ _ _ Hm Hm') as Hf. destruct g, g'. by injection Hf as -> -> -> -> ->.
  - right. eexists _, _. split; [|exact Hscope]. intros Heq. apply (f_equal (str_drop 30)) in Heq. cbn [str_drop append] in Heq. done.
Qed.

(** ** The journal

    The contract of [SinkJournal]: a start returns nil at most once for an
    execution of a scope, and never after a later authority epoch was seen in the
    scope. *)
Class SinkJournal (J : Type) (linearize : J -> Start -> result unit * J) := {
  started : J -> bytes -> bytes -> Prop;
  epoch_seen : J -> bytes -> Z;
  linearize_ok : forall j s j', linearize j s = (Ok tt, j') ->
    ~ started j (st_scope s) (st_ExecutionID s) /\ started j' (st_scope s) (st_ExecutionID s) /\
    epoch_seen j (st_scope s) <= ah_AuthorityEpoch (st_heads s) /\ epoch_seen j' (st_scope s) = ah_AuthorityEpoch (st_heads s);
  linearize_keeps : forall j s r j' scope id, linearize j s = (r, j') -> started j scope id -> started j' scope id;
  linearize_epoch : forall j s r j' scope, linearize j s = (r, j') -> epoch_seen j scope <= epoch_seen j' scope;
}.

Section Journal.
Context {J : Type} {linearize : J -> Start -> result unit * J} `{!SinkJournal J linearize}.
Context (g : Gate).

(** A call of [Admit] with what its interfaces answered. *)
Record call := {
  ca_resolve : bytes -> bytes -> bytes -> result AuthorityHeads;
  ca_clock : result TrustedTimeObservation;
  ca_request : Request;
}.

(** The starts admitted by a sequence of calls, in order. *)
Fixpoint admitted (calls : list call) (j : J) : list Start * J :=
  match calls with
  | [] => ([], j)
  | c :: rest =>
      let (r, j') := Admit linearize g (ca_resolve c) (ca_clock c) (ca_request c) j in
      let (starts, j'') := admitted rest j' in
      match r, Admit_start g (ca_resolve c) (ca_clock c) (ca_request c) with
      | Ok _, Ok start => (start :: starts, j'')
      | _, _ => (starts, j'')
      end
  end.

Definition identity (s : Start) : bytes * bytes := (st_scope s, st_ExecutionID s).

Lemma Admit_ok c j j' :
  Admit linearize g (ca_resolve c) (ca_clock c) (ca_request c) j = (Ok tt, j') ->
  exists start, Admit_start g (ca_resolve c) (ca_clock c) (ca_request c) = Ok start /\ linearize j start = (Ok tt, j').
Proof. unfold Admit. destruct (Admit_start _ _ _ _) as [start|e]; [eauto|intros [=]]. Qed.

Lemma Admit_keeps c j r j' scope id :
  Admit linearize g (ca_resolve c) (ca_clock c) (ca_request c) j = (r, j') ->
  (started j scope id -> started j' scope id) /\ epoch_seen j scope <= epoch_seen j' scope.
Proof.
  unfold Admit. destruct (Admit_start _ _ _ _) as [start|e].
  - intros Hl. split; [by eapply linearize_keeps|by eapply linearize_epoch].
  - intros [= <- <-]. split; [done|lia].
Qed.

Lemma admitted_fresh calls : forall j s,
  s ∈ (admitted calls j).1 -> ~ started j (st_scope s) (st_ExecutionID s) /\ epoch_seen j (st_scope s) <= ah_AuthorityEpoch (st_heads s).
Proof.
  induction calls as [|c rest IH]; intros j s; cbn [admitted]; [intros Hs; by apply elem_of_nil in Hs|].
  destruct (Admit _ _ _ _ _ _) as [r j1] eqn:Ha. specialize (IH j1 s).
  destruct (admitted rest j1) as [starts j2]. cbn [fst] in IH.
  assert (Hrest : s ∈ starts -> ~ started j (st_scope s) (st_ExecutionID s) /\ epoch_seen j (st_scope s) <= ah_AuthorityEpoch (st_heads s)).
  { intros Hs. destruct (IH Hs) as [Hn He]. destruct (Admit_keeps _ _ _ _ (st_scope s) (st_ExecutionID s) Ha) as [Hk Hle].
    split; [by intros Hst; apply Hn, Hk|lia]. }
  destruct r as [[]|e]; [|exact Hrest]. destruct (Admit_ok _ _ _ Ha) as (start & -> & Hl). cbn [fst].
  intros [->|Hs]%elem_of_cons; [|by apply Hrest]. by destruct (linearize_ok _ _ _ Hl) as (? & _ & ? & _).
Qed.

(** C24. Over a conforming journal, whatever the callers and the interfaces
    answer: every admitted start was admissible when it was admitted, no
    execution of a scope is admitted twice, and the authority epochs admitted in
    a scope never go back. *)
Theorem admitted_once_monotone calls j :
  let starts := (admitted calls j).1 in
  NoDup (identity <$> starts) /\
  Forall (fun s => exists c, c ∈ calls /\ admissible g (ca_resolve c) (ca_clock c) (ca_request c) s) starts /\
  forall i k s t, starts !! i = Some s -> starts !! k = Some t -> (i < k)%nat -> st_scope s = st_scope t ->
    ah_AuthorityEpoch (st_heads s) <= ah_AuthorityEpoch (st_heads t).
Proof.
  cbv zeta. revert j. induction calls as [|c rest IH]; intros j; cbn [admitted].
  { split_and!; [constructor|constructor|]. intros i k s t Hs. cbn [fst] in Hs. by rewrite lookup_nil in Hs. }
  destruct (Admit _ _ _ _ _ _) as [r j1] eqn:Ha. specialize (IH j1). pose proof (admitted_fresh rest j1) as Hfresh.
  destruct (admitted rest j1) as [starts j2]. cbn [fst] in IH, Hfresh. destruct IH as (Hn & Hf & Hm).
  assert (Hf' : Forall (fun s => exists c0, c0 ∈ c :: rest /\ admissible g (ca_resolve c0) (ca_clock c0) (ca_request c0) s) starts).
  { eapply Forall_impl; [exact Hf|]. intros s (c0 & Hin & Had). exists c0. split; [by right|done]. }
  destruct r as [[]|e]; [|done]. destruct (Admit_ok _ _ _ Ha) as (start & Hstart & Hl). rewrite Hstart. cbn [fst].
  destruct (linearize_ok _ _ _ Hl) as (_ & Hst & _ & He). split_and!.
  - rewrite fmap_cons. constructor; [|done]. intros (s & Hs & Hin)%list_elem_of_fmap. destruct (Hfresh s Hin) as [Hnot _].
    injection Hs as Hs1 Hs2. rewrite Hs1, Hs2 in Hst. done.
  - constructor; [|done]. exists c. split; [by left|]. by apply admit_start_iff.
  - intros [|i] [|k] s t Hs Ht Hlt Hscope; try lia.
    + injection Hs as <-. destruct (Hfresh t) as [_ Hle]; [by eapply list_elem_of_lookup_2|]. rewrite <- Hscope, He in Hle. done.
    + eapply (Hm i k); eauto. lia.
Qed.
End Journal.
End Gate.

(** ** Witnesses *)

Module CapabilitySamples.
Record object := { ob_kind : Z; ob_domain : bytes; ob_body : bytes }.

(** A protocol module that accepts everything well formed; a scope is encoded
    with the lengths of its parts. *)
#[export] Instance trusted : Trusted := {|
  ProfileObject := object; Envelope := EnvelopeBody; UseLease := bytes * bytes; PermissionManifest := list string;
  envelope_body e := e; object_DomainKind := ob_kind; object_DomainID := ob_domain; lease_OwnerID := fst; lease_AgentID := snd;
  DomainTOSNetwork := 1; DomainOwnerLocal := 2;
  ValidateUseBindingShape b _ := fail_if (ub_ExecutionID b =s? "") "shape";
  DecodeLease o := Ok ("owner", "agent"); DecodePermissions o := Ok [ob_body o];
  ValidateUseLease _ now _ _ _ := fail_if (now <? 10) "lease"; VerifyAuthorization _ _ _ _ := Ok tt;
  ObjectDigest o := Ok (sha256_Sum256 (ob_body o));
  PermissionSubsetOf p q := fail_if (negb (forallb (fun x => bool_decide (x ∈ q)) p)) "subset";
  ValidateLeaseBinding _ _ _ := Ok tt;
  MarshalScope f := Ok (put_strings [put_Z (sf_DomainKind f); sf_DomainID f; sf_SinkID f; sf_OwnerID f; sf_AgentID f]);
  NewBindingObject k d b := Ok {| ob_kind := k; ob_domain := d; ob_body := ub_ExecutionID b |};
|}.

Definition heads : AuthorityHeads :=
  {| ah_AuthorityEpoch := 3; ah_PolicyRevision := 4; ah_AdmissionRevocationGeneration := 5; ah_PromotionRevocationGeneration := 0;
     ah_ControlScopeGeneration := 6; ah_AdmissionRevision := 7; ah_PromotionRevision := 0; ah_InstallationRevision := 8;
     ah_InventoryRevision := 9; ah_PolicyDigest := "policy"; ah_AdmissionEnvelopeDigest := "admission";
     ah_PromotionEnvelopeDigest := ""; ah_PermissionManifestDigest := "manifest"; ah_AdmittedPermissionManifest := ["read"; "write"];
     ah_LeaseIssuerSubject := {| sj_Kind := "authority"; sj_Namespace := "tos"; sj_Identifier := "1" |};
     ah_LeaseAuthorityID := "authority"; ah_LeaseProofProfileURI := "profile"; ah_OwnerID := "owner"; ah_AgentID := "agent" |}.

Definition binding (execution : bytes) : UseBinding :=
  {| ub_OwnerID := "owner"; ub_AgentID := "agent"; ub_ArtifactVersionDigest := "version";
     ub_PermissionSubsetDigest := sha256_Sum256 "read"; ub_UseLeaseDigest := sha256_Sum256 "lease"; ub_AuthorityEpoch := 3;
     ub_PolicyRevision := 4; ub_PolicyDigest := "policy"; ub_ControlScopeGeneration := 6; ub_AdmissionRevision := 7;
     ub_AdmissionEnvelopeDigest := "admission"; ub_AdmissionRevocationGeneration := 5; ub_PromotionRevision := None;
     ub_PromotionRevocationGeneration := None; ub_PromotionEnvelopeDigest := None; ub_InstallationRevision := 8;
     ub_InventoryRevision := 9; ub_LoadedObjectDigest := "loaded"; ub_RuntimeAndSandboxDigest := "sandbox";
     ub_EffectiveEnvironmentDigest := "environment"; ub_CredentialCapabilityReferenceSetDigest := "credentials";
     ub_FilesystemHandleSetDigest := "files"; ub_NetworkBrokerPolicyDigest := "network"; ub_RemoteSessionHandshakeDigest := None;
     ub_ExecutionID := execution; ub_ActionID := "action" |}.

Definition request (execution : bytes) : Request :=
  {| rq_Binding := binding execution; rq_LeaseObject := {| ob_kind := 1; ob_domain := "domain"; ob_body := "lease" |};
     rq_LeaseEnvelope := {| eb_AuthorityKind := "use-lease"; eb_AuthorityID := "authority"; eb_ProofProfileURI := "profile";
       eb_IssuerSubject := {| sj_Kind := "authority"; sj_Namespace := "tos"; sj_Identifier := "1" |}; eb_OwnerID := "owner";
       eb_AgentID := Some "agent"; eb_PolicyRevision := 4; eb_PolicyDigest := "policy"; eb_AuthorityEpoch := 3 |};
     rq_PermissionSubsetObject := {| ob_kind := 1; ob_domain := "domain"; ob_body := "read" |}; rq_Remote := false;
     rq_Observed := {| oc_LoadedObjectDigest := "loaded"; oc_InstallationRevision := 8; oc_RuntimeAndSandboxDigest := "sandbox";
       oc_EffectiveEnvironmentDigest := "environment"; oc_CredentialCapabilityReferenceSetDigest := "credentials";
       oc_FilesystemHandleSetDigest := "files"; oc_NetworkBrokerPolicyDigest := "network"; oc_RemoteSessionHandshakeDigest := None |} |}.

Definition gate : Gate := {| gt_domainKind := 1; gt_domainID := "domain"; gt_sinkID := "sink" |}.
Definition resolve (_ _ _ : bytes) : result AuthorityHeads := Ok heads.
Definition clock : result TrustedTimeObservation :=
  Ok {| to_UnixSeconds := 100; to_Epoch := 1; to_EvidenceDigest := sha256_Sum256 "time" |}.

(** A journal that keeps the starts it granted. *)
Definition seen (j : list Start) (scope : bytes) : Z :=
  foldr (fun s acc => if st_scope s =s? scope then Z.max (ah_AuthorityEpoch (st_heads s)) acc else acc) 0 j.

Definition grant (j : list Start) (s : Start) : result unit * list Start :=
  if existsb (fun t => (st_scope t =s? st_scope s) && (st_ExecutionID t =s? st_ExecutionID s)) j ||
     (ah_AuthorityEpoch (st_heads s) <? seen j (st_scope s))
  then (Err "rejected", j) else (Ok tt, s :: j).

#[refine, export] Instance granting : SinkJournal (list Start) grant := {|
  started j scope id := exists s, s ∈ j /\ st_scope s = scope /\ st_ExecutionID s = id;
  epoch_seen := seen;
|}.
Proof.
  - intros j s j'. unfold grant. destruct (_ || _) eqn:E; [intros [=]|]. intros [= <-]. apply orb_false_iff in E as [E1 E2].
    apply Z.ltb_ge in E2. apply existsb_false in E1. rewrite Forall_forall in E1. split_and!.
    + intros (t & Ht & Hs & Hi). specialize (E1 t Ht). rewrite Hs, Hi, !String.eqb_refl in E1. discriminate E1.
    + exists s. split; [by left|done].
    + done.
    + cbn. rewrite String.eqb_refl. fold (seen j (st_scope s)). lia.
  - intros j s r j' scope id Hg (t & Ht & Hst). exists t. split; [|done]. unfold grant in Hg.
    destruct (_ || _); injection Hg as <- <-; [done|by right].
  - intros j s r j' scope Hg. unfold grant in Hg. destruct (_ || _); injection Hg as <- <-; [lia|].
    cbn. fold (seen j scope). case_match; lia.
Defined.

Definition start (execution : bytes) : Start :=
  {| st_scope := scope_sum (put_strings [put_Z 1; "domain"; "sink"; "owner"; "agent"]); st_heads := heads;
     st_ExecutionID := execution; st_ActionID := "action"; st_exactRequestDigest := sha256_Sum256 execution;
     st_time := {| to_UnixSeconds := 100; to_Epoch := 1; to_EvidenceDigest := sha256_Sum256 "time" |} |}.

Lemma started_one : Admit_start gate resolve clock (request "one") = Ok (start "one").
Proof.
  apply admit_start_iff.
  exists heads, {| to_UnixSeconds := 100; to_Epoch := 1; to_EvidenceDigest := sha256_Sum256 "time" |}, ("owner", "agent"), ["read"],
    (sha256_Sum256 "lease"), (put_strings [put_Z 1; "domain"; "sink"; "owner"; "agent"]),
    {| ob_kind := 1; ob_domain := "domain"; ob_body := "one" |}.
  split_and!; try reflexivity; try discriminate; split_and!; reflexivity.
Qed.

Lemma canonical f f' b : MarshalScope f = Ok b -> MarshalScope f' = Ok b -> f = f'.
Proof.
  assert (R : forall l, get_strings (put_strings l) = Some l).
  { intros l. pose proof (get_put_strings l "" (or_introl eq_refl)) as H. by rewrite str_app_nil in H. }
  intros H H'. assert (Heq : MarshalScope f = MarshalScope f') by congruence. destruct f as [k d s o a], f' as [k' d' s' o' a'].
  change (Ok (put_strings [put_Z k; d; s; o; a]) = Ok (put_strings [put_Z k'; d'; s'; o'; a'])) in Heq.
  assert (Hp := f_equal (fun r : result bytes => match r with Ok x => get_strings x | Err _ => None end) Heq). cbv beta iota in Hp.
  rewrite !R in Hp. injection Hp as Hk -> -> -> ->. apply (f_equal get_Z) in Hk. rewrite !get_put_Z in Hk. by subst k.
Qed.

Definition calls : list call :=
  (fun id => {| ca_resolve := resolve; ca_clock := clock; ca_request := request id |}) <$> ["one"; "two"; "one"].
End CapabilitySamples.
#[local] Existing Instances CapabilitySamples.trusted CapabilitySamples.granting.

(** The repeated execution is refused. *)
Lemma admitted_once_monotone_witness :
  (st_ExecutionID <$> (admitted (linearize := CapabilitySamples.grant) CapabilitySamples.gate CapabilitySamples.calls []).1) = ["one"; "two"] /\
  NoDup (identity <$> (admitted (linearize := CapabilitySamples.grant) CapabilitySamples.gate CapabilitySamples.calls []).1).
Proof.
  split; [vm_compute; reflexivity|].
  exact (proj1 (admitted_once_monotone (linearize := CapabilitySamples.grant) CapabilitySamples.gate CapabilitySamples.calls [])).
Defined.

Lemma admit_exact_witness :
  admissible CapabilitySamples.gate CapabilitySamples.resolve CapabilitySamples.clock (CapabilitySamples.request "one")
    (CapabilitySamples.start "one").
Proof.
  apply (proj1 (admit_exact CapabilitySamples.gate CapabilitySamples.resolve CapabilitySamples.clock (CapabilitySamples.request "one") _)).
  exact CapabilitySamples.started_one.
Defined.

Lemma scope_identifies_witness :
  ub_OwnerID (rq_Binding (CapabilitySamples.request "one")) = "owner" \/ collision.
Proof.
  destruct (scope_identifies CapabilitySamples.gate CapabilitySamples.gate CapabilitySamples.resolve CapabilitySamples.resolve
    CapabilitySamples.clock CapabilitySamples.clock (CapabilitySamples.request "one") (CapabilitySamples.request "one") _ _
    CapabilitySamples.canonical CapabilitySamples.started_one CapabilitySamples.started_one eq_refl) as [(_ & Ho & _)|Hc].
  - left. reflexivity.
  - right. exact Hc.
Defined.
