(* ===== verification/Metrics.v ===== *)
(** * pkg/metricsexport: the bounded remote export of metrics

    [Collector] accepts one snapshot per configured terminal from an
    authenticated request and forgets it after its time to live; [Exporter]
    sends one snapshot.  The handler takes a slot before it reads a body and
    holds the mutex only while it stores: its two halves are functions, and
    overlapping requests are the steps of a transition system.

    A time is a number of nanoseconds since the zero time of [time.Time].  The
    iteration order of the configured map is the order of the list that stands
    for it. *)

From S2P Require Import Prelude GoStd Sha256 GoHttp.

Definition CollectorPath : string := "/tos-ai/metrics/v1/ingest".
Definition MaxTerminalsHard : Z := 4096.
Definition MaxCollectorTTL : Z := 24 * time_Hour.
Definition MaxCollectorConcurrent : Z := 128.
Definition DefaultCollectorConcurrent : Z := 16.
Definition MaxSnapshotBytes : Z := Z.shiftl 16 10.
Definition MaxResponseBytes : Z := Z.shiftl 4 10.
Definition MaxTokenBytes : Z := Z.shiftl 8 10.

Definition snapshot_type : string := "text/plain; version=0.0.4; charset=utf-8".

(** ** Data *)

Record CollectorConfig := {
  cc_Credentials : list (string * string);
  cc_TTL : Z;
  cc_Now : bool;              (* config.Now != nil *)
  cc_MaxConcurrent : Z;
}.

Record TerminalSnapshot := { ts_Alias : string; ts_CollectedAt : Z; ts_Metrics : bytes }.

Record Collector := {
  co_credentials : gmap bytes string;
  co_snapshots : gmap string TerminalSnapshot;
  co_ttl : Z;
  co_capacity : nat;          (* cap(gate) *)
}.

Definition with_snapshots (c : Collector) (m : gmap string TerminalSnapshot) : Collector :=
  {| co_credentials := co_credentials c; co_snapshots := m; co_ttl := co_ttl c; co_capacity := co_capacity c |}.

(** A body: the data it delivers and whether it then fails instead of ending. *)
Record Body := { bd_data : bytes; bd_fails : bool }.

Record IngestRequest := {
  ir_Method : string;
  ir_Path : string;           (* request.URL.Path *)
  ir_RawQuery : string;
  ir_Header : string -> string;
  ir_Body : Body;
}.

(** ** Syntax *)

(** The characters of [validAlias]; a rune beyond ASCII is made of other bytes. *)
Definition alias_char (c : ascii) : bool := is_lower c || is_digit c || Ascii.eqb c "-".

Definition validAlias (value : string) : bool :=
  (3 <=? len value) && (len value <=? 128) && str_forallb alias_char value.

Definition blank (c : ascii) : bool := (code c <=? 32) || (code c =? 127).

Definition validToken (value : string) : bool :=
  (16 <=? len value) && (len value <=? MaxTokenBytes) && negb (str_existsb blank value).

Definition forbidden_names : list string := ["hostname"; "gpu_uuid"; "gpu_serial"; "device_uuid"; "device_serial"].

Definition printable (c : ascii) : bool :=
  (code c =? 10) || (code c =? 13) || (code c =? 9) || ((32 <=? code c) && (code c <=? 126)).

Definition safeSnapshot (snapshot : bytes) : bool :=
  let lower := strings_ToLower snapshot in
  negb (existsb (contains_str lower) forbidden_names) && str_forallb printable snapshot.

(** ** The collector *)

Fixpoint load_credentials (acc : gmap bytes string) (l : list (string * string)) : result (gmap bytes string) :=
  match l with
  | [] => Ok acc
  | (alias, token) :: rest =>
      if negb (validAlias alias) || negb (validToken token) then Err "invalid metrics collector credential" else
      let digest := sha256_Sum256 token in
      match acc !! digest with
      | Some _ => Err "metrics collector credentials must be unique"
      | None => load_credentials (<[digest := alias]> acc) rest
      end
  end.

Definition NewCollector (config : CollectorConfig) : result Collector :=
  if (llen (cc_Credentials config) =? 0) || (MaxTerminalsHard <? llen (cc_Credentials config)) ||
     (cc_TTL config <=? 0) || (MaxCollectorTTL <? cc_TTL config) || negb (cc_Now config)
  then Err "invalid metrics collector configuration" else
  let maxConcurrent := if cc_MaxConcurrent config =? 0 then DefaultCollectorConcurrent else cc_MaxConcurrent config in
  if (maxConcurrent <? 0) || (MaxCollectorConcurrent <? maxConcurrent) then Err "invalid metrics collector concurrency" else
  let* credentials := load_credentials ∅ (cc_Credentials config) in
  Ok {| co_credentials := credentials; co_snapshots := ∅; co_ttl := cc_TTL config; co_capacity := Z.to_nat maxConcurrent |}.

Definition authenticate (c : Collector) (header : string) : option string :=
  let provided := trim_prefix header "Bearer " in
  if (len provided =? len header) || negb (validToken provided) then None
  else co_credentials c !! sha256_Sum256 provided.

Definition live (c : Collector) (now : Z) (s : TerminalSnapshot) : bool := now <? ts_CollectedAt s + co_ttl c.

Definition pruneLocked (c : Collector) (now : Z) : Collector :=
  with_snapshots c (filter (fun kv => live c now kv.2 = true) (co_snapshots c)).

(** The handler until the body is read: [used] slots are taken. *)
Definition begin_ingest (c : Collector) (used : nat) (request : IngestRequest) : HttpResponse + string :=
  if (ir_Method request <>s? "POST") || (ir_Path request <>s? CollectorPath) || (ir_RawQuery request <>s? "") ||
     (ir_Header request "Content-Type" <>s? snapshot_type) || (ir_Header request "X-TOS-Metrics-Version" <>s? "1") ||
     (ir_Header request "Content-Encoding" <>s? "")
  then inl (Refused StatusBadRequest "request rejected") else
  match authenticate c (ir_Header request "Authorization") with
  | None => inl (Refused StatusUnauthorized "unauthorized")
  | Some alias =>
      if (used <? co_capacity c)%nat then inr alias
      else inl (Refused StatusServiceUnavailable "capacity exhausted")
  end.

(** [io.ReadAll(io.LimitReader(body, n))]. *)
Definition read_body (body : Body) (n : Z) : result bytes :=
  if n <=? len (bd_data body) then Ok (str_take (Z.to_nat n) (bd_data body))
  else if bd_fails body then Err "read" else Ok (bd_data body).

(** The rest of the handler. *)
Definition finish_ingest (c : Collector) (alias : string) (request : IngestRequest) (now : Z) : HttpResponse * Collector :=
  match read_body (ir_Body request) (MaxSnapshotBytes + 1) with
  | Err _ => (Refused StatusBadRequest "snapshot rejected", c)
  | Ok data =>
      if (len data =? 0) || (MaxSnapshotBytes <? len data) || negb (safeSnapshot data)
      then (Refused StatusBadRequest "snapshot rejected", c)
      else if now =? 0 then (Refused StatusServiceUnavailable "collector unavailable", c)
      else
        let pruned := pruneLocked c now in
        (Response StatusNoContent [] "",
         with_snapshots pruned
           (<[alias := {| ts_Alias := alias; ts_CollectedAt := now; ts_Metrics := data |}]> (co_snapshots pruned)))
  end.

(** A request while [used] others are being served. *)
Definition Handler (c : Collector) (used : nat) (request : IngestRequest) (now : Z) : HttpResponse * Collector :=
  match begin_ingest c used request with
  | inl refusal => (refusal, c)
  | inr alias => finish_ingest c alias request now
  end.

Definition Latest (c : Collector) (now : Z) : result (list TerminalSnapshot) * Collector :=
  if now =? 0 then (Err "invalid metrics snapshot request", c) else
  let pruned := pruneLocked c now in
  (Ok (sort_by ts_Alias ((map_to_list (co_snapshots pruned)).*2)), pruned).

(** ** The exporter

    [url.ParseRequestURI], [URL.String] and the parse of [http.NewRequest] are
    parameters; [do] is the client with redirects disabled: it answers with a
    status and a body, or fails. *)
Class RequestURI := {
  url_ParseRequestURI : string -> option URL;
  URL_String : URL -> string;
  request_URL : string -> option URL;
}.

Section Exporter.
Context `{RequestURI}.

Record Exporter := { ex_endpoint : string; ex_token : string }.

Record OutRequest := { or_Method : string; or_URL : URL; or_Headers : list (string * string); or_Body : bytes }.

Definition NewExporter (endpoint bearerToken : string) (client_nil : bool) : result Exporter :=
  let invalid := Err "invalid metrics export configuration" in
  match url_ParseRequestURI endpoint with
  | None => invalid
  | Some parsed =>
      if (ur_Scheme parsed <>s? "https") || (ur_Host parsed =s? "") || ur_User parsed ||
         (ur_RawQuery parsed <>s? "") || (ur_Fragment parsed <>s? "") || (2048 <? len endpoint) ||
         (len bearerToken <? 16) || (MaxTokenBytes <? len bearerToken) || str_existsb blank bearerToken || client_nil
      then invalid else Ok {| ex_endpoint := URL_String parsed; ex_token := bearerToken |}
  end.

Definition export_headers (e : Exporter) : list (string * string) :=
  [("Authorization", "Bearer " +:+ ex_token e); ("Content-Type", snapshot_type); ("X-TOS-Metrics-Version", "1")].

(** The requests sent, and the result; [ctx_err] is [ctx.Err()] at the end. *)
Definition Export (e : Exporter) (snapshot : bytes) (do : OutRequest -> result (Z * Body)) (ctx_err : option string)
    : list OutRequest * result unit :=
  if (len snapshot =? 0) || (MaxSnapshotBytes <? len snapshot) || negb (safeSnapshot snapshot)
  then ([], Err "metrics snapshot rejected") else
  match request_URL (ex_endpoint e) with
  | None => ([], Err "create metrics export request")
  | Some url =>
      let request := {| or_Method := "POST"; or_URL := url; or_Headers := export_headers e; or_Body := snapshot |} in
      ([request],
       match do request with
       | Err _ => Err "metrics export transport failed"
       | Ok (status, body) =>
           match read_body body (MaxResponseBytes + 1) with
           | Err _ => Err "metrics export rejected"
           | Ok data =>
               if (MaxResponseBytes <? len data) || (status <? 200) || (300 <=? status) then Err "metrics export rejected"
               else match ctx_err with Some err => Err err | None => Ok tt end
           end
       end)
  end.

(** A request as the server at the other end of the connection reads it. *)
Definition received (r : OutRequest) : IngestRequest :=
  {| ir_Method := or_Method r; ir_Path := ur_Path (or_URL r); ir_RawQuery := ur_RawQuery (or_URL r);
     ir_Header := header_of (or_Headers r); ir_Body := {| bd_data := or_Body r; bd_fails := false |} |}.
End Exporter.

(** ** Overlapping requests *)

Record MetricsState := { ms_collector : Collector; ms_active : list (string * IngestRequest) }.

(** A request is refused at once or takes a slot; a request in a slot finishes
    at some reading of the clock and gives the slot back; a reader asks for the
    latest snapshots. *)
Inductive metrics_step : MetricsState -> MetricsState -> Prop :=
| step_refused c active request r : begin_ingest c (length active) request = inl r ->
    metrics_step {| ms_collector := c; ms_active := active |} {| ms_collector := c; ms_active := active |}
| step_begin c active request alias : begin_ingest c (length active) request = inr alias ->
    metrics_step {| ms_collector := c; ms_active := active |} {| ms_collector := c; ms_active := (alias, request) :: active |}
| step_finish c before after alias request now :
    metrics_step {| ms_collector := c; ms_active := before ++ (alias, request) :: after |}
      {| ms_collector := (finish_ingest c alias request now).2; ms_active := before ++ after |}
| step_latest c active now :
    metrics_step {| ms_collector := c; ms_active := active |} {| ms_collector := (Latest c now).2; ms_active := active |}.

Definition reachable (config : CollectorConfig) (st : MetricsState) : Prop :=
  exists c, NewCollector config = Ok c /\ rtc metrics_step {| ms_collector := c; ms_active := [] |} st.

(** ** What is kept *)

(** A snapshot that may be kept: bounded, printable, without a name of a host or
    a device. *)
Definition clean_snapshot (data : bytes) : Prop :=
  0 < len data <= MaxSnapshotBytes /\ safeSnapshot data = true.

(** The request presents the token the operator configured for the alias. *)
Definition presents (config : CollectorConfig) (alias : string) (request : IngestRequest) : Prop :=
  exists token, (alias, token) ∈ cc_Credentials config /\
    ir_Header request "Authorization" = "Bearer " +:+ token.

Lemma load_credentials_spec l : forall acc m,
  load_credentials acc l = Ok m ->
  Forall (fun at_ => validAlias at_.1 = true /\ validToken at_.2 = true) l /\
  NoDup (sha256_Sum256 <$> l.*2) /\
  (forall d, d ∈ (sha256_Sum256 <$> l.*2) -> acc !! d = None) /\
  m = list_to_map ((fun at_ => (sha256_Sum256 at_.2, at_.1)) <$> l) ∪ acc.
Proof.
  induction l as [|[alias token] rest IH]; intros acc m; cbn [load_credentials].
  - intros [= <-]. split_and!; [constructor|constructor|intros d Hd; by apply elem_of_nil in Hd|].
    cbn. by rewrite map_empty_union.
  - destruct (negb (validAlias alias) || negb (validToken token)) eqn:Hv; [intros [=]|].
    destruct (acc !! _) eqn:Ha; [intros [=]|]. intros Hl. apply IH in Hl as (Hf & Hn & Hfree & ->).
    apply orb_false_iff in Hv as [Hv1%negb_false_iff Hv2%negb_false_iff]. csimpl. split_and!.
    + by constructor.
    + constructor; [|done]. intros Hin. specialize (Hfree _ Hin). by rewrite lookup_insert_eq in Hfree.
    + intros d [->|Hd]%elem_of_cons; [done|]. specialize (Hfree _ Hd).
      destruct (decide (d = sha256_Sum256 token)) as [->|Hne]; [done|]. by rewrite lookup_insert_ne in Hfree.
    + rewrite <- insert_union_r, insert_union_l; [done|].
      apply not_elem_of_list_to_map_1. rewrite <- list_fmap_compose. intros Hin.
      assert (Hin' : sha256_Sum256 token ∈ sha256_Sum256 <$> rest.*2) by (rewrite <- list_fmap_compose; exact Hin).
      specialize (Hfree _ Hin'). by rewrite lookup_insert_eq in Hfree.
Qed.

Definition credential_map (config : CollectorConfig) : gmap bytes string :=
  list_to_map ((fun at_ => (sha256_Sum256 at_.2, at_.1)) <$> cc_Credentials config).

Lemma NewCollector_spec config c :
  NewCollector config = Ok c ->
  0 < llen (cc_Credentials config) <= MaxTerminalsHard /\ 0 < cc_TTL config <= MaxCollectorTTL /\
  Forall (fun at_ => validAlias at_.1 = true /\ validToken at_.2 = true) (cc_Credentials config) /\
  NoDup (sha256_Sum256 <$> (cc_Credentials config).*2) /\
  (0 < co_capacity c)%nat /\ Z.of_nat (co_capacity c) <= MaxCollectorConcurrent /\
  co_credentials c = credential_map config /\ co_snapshots c = ∅ /\ co_ttl c = cc_TTL config.
Proof.
  unfold NewCollector. set (n := if _ =? 0 then _ else _). intros Hnew.
  match type of Hnew with (if ?b then _ else _) = _ => destruct b eqn:E1 end; [discriminate Hnew|].
  match type of Hnew with (if ?b then _ else _) = _ => destruct b eqn:E2 end; [discriminate Hnew|].
  destruct (load_credentials _ _) as [m|] eqn:Hl; [|discriminate Hnew]. injection Hnew as <-. cbn.
  apply load_credentials_spec in Hl as (Hf & Hn & _ & ->). rewrite map_union_empty.
  repeat (apply orb_false_iff in E1 as [E1 ?]). apply orb_false_iff in E2 as [? ?].
  rewrite ?Z.eqb_neq, ?Z.ltb_ge, ?Z.leb_gt in *.
  assert (0 < n) by (subst n; destruct (cc_MaxConcurrent config =? 0) eqn:?; [done|lia]).
  assert (0 <= llen (cc_Credentials config)) by (unfold llen; lia).
  split_and!; try lia; done.
Qed.

Lemma trim_prefix_shorter s p : len (trim_prefix s p) <> len s -> s = p +:+ trim_prefix s p.
Proof.
  unfold trim_prefix. destruct (has_prefix s p) eqn:Hp; [|done]. intros _. apply has_prefix_spec in Hp as [u ->].
  by rewrite str_drop_app.
Qed.

(** A token is accepted for an alias when it is the configured one, or another
    token with its digest. *)
Lemma authenticate_spec config c header alias :
  co_credentials c = credential_map config -> authenticate c header = Some alias ->
  (exists token, (alias, token) ∈ cc_Credentials config /\ header = "Bearer " +:+ token) \/ collision.
Proof.
  intros Hc. unfold authenticate. destruct (_ || _) eqn:E; [intros [=]|]. rewrite Hc.
  apply orb_false_iff in E as [E _]. apply Z.eqb_neq in E. intros Hl.
  apply elem_of_list_to_map_2 in Hl. apply list_elem_of_fmap in Hl as ([a token] & [= Hd <-] & Hin).
  destruct (decide (trim_prefix header "Bearer " = token)) as [<-|Hne].
  - left. exists (trim_prefix header "Bearer "). split; [done|]. by apply trim_prefix_shorter.
  - right. eexists _, _. split; [exact Hne|exact Hd].
Qed.

(** ** The invariant of the collector *)

Record kept (config : CollectorConfig) (c : Collector) : Prop := {
  kept_credentials : co_credentials c = credential_map config;
  kept_ttl : co_ttl c = cc_TTL config;
  kept_snapshots : forall alias s, co_snapshots c !! alias = Some s ->
    ts_Alias s = alias /\ clean_snapshot (ts_Metrics s) /\ alias ∈ (cc_Credentials config).*1;
}.

Lemma kept_new config c : NewCollector config = Ok c -> kept config c.
Proof.
  intros (_ & _ & _ & _ & _ & _ & Hc & Hs & Ht)%NewCollector_spec. constructor; [done|done|].
  intros alias s. rewrite Hs. by rewrite lookup_empty.
Qed.

Lemma kept_with config c m :
  kept config c -> (forall alias s, m !! alias = Some s -> ts_Alias s = alias /\ clean_snapshot (ts_Metrics s) /\ alias ∈ (cc_Credentials config).*1) ->
  kept config (with_snapshots c m).
Proof. intros [] Hm. by constructor. Qed.

Lemma prune_lookup c now alias s :
  co_snapshots (pruneLocked c now) !! alias = Some s <-> co_snapshots c !! alias = Some s /\ now < ts_CollectedAt s + co_ttl c.
Proof. cbn. rewrite map_lookup_filter_Some. unfold live. cbn. by rewrite Z.ltb_lt. Qed.

Lemma kept_prune config c now : kept config c -> kept config (pruneLocked c now).
Proof. intros Hk. apply kept_with; [done|]. intros alias s Hl. apply (prune_lookup c now) in Hl as [Hl _]. by apply Hk. Qed.

Lemma kept_latest config c now : kept config c -> kept config (Latest c now).2.
Proof. intros Hk. unfold Latest. destruct (now =? 0); [done|]. by apply kept_prune. Qed.

(** What the second half of the handler may store. *)
Lemma finish_spec c alias request now :
  let c' := (finish_ingest c alias request now).2 in
  c' = c \/
  (clean_snapshot (bd_data (ir_Body request)) /\ bd_fails (ir_Body request) = false /\ now <> 0 /\
   (finish_ingest c alias request now).1 = Response StatusNoContent [] "" /\
   c' = with_snapshots (pruneLocked c now)
     (<[alias := {| ts_Alias := alias; ts_CollectedAt := now; ts_Metrics := bd_data (ir_Body request) |}]>
        (co_snapshots (pruneLocked c now)))).
Proof.
  cbv zeta. unfold finish_ingest, read_body. destruct (ir_Body request) as [data fails]. cbn [bd_data bd_fails].
  destruct (_ <=? _) eqn:Hle.
  - left. rewrite (proj2 (orb_true_iff _ _)); [done|]. left. apply orb_true_iff. right. apply Z.ltb_lt. apply Z.leb_le in Hle.
    unfold len. rewrite str_take_length. unfold len in Hle. lia.
  - destruct fails; [by left|]. destruct (_ || _) eqn:E; [by left|]. destruct (now =? 0) eqn:En; [by left|]. right.
    apply orb_false_iff in E as [E Es]. apply orb_false_iff in E as [E0 E1]. apply negb_false_iff in Es.
    apply Z.eqb_neq in E0, En. apply Z.ltb_ge in E1. assert (0 <= len data) by (unfold len; lia).
    split_and!; try done. split; [lia|done].
Qed.

Lemma kept_finish config c alias request now :
  kept config c -> alias ∈ (cc_Credentials config).*1 -> kept config (finish_ingest c alias request now).2.
Proof.
  intros Hk Ha. destruct (finish_spec c alias request now) as [->|(Hclean & _ & _ & _ & ->)]; [done|].
  pose proof (kept_prune _ _ now Hk) as Hp. apply kept_with; [done|]. intros a s. rewrite lookup_insert_Some.
  intros [[<- <-]|[_ Hl]]; [done|]. by apply Hp.
Qed.

(** ** The invariant of overlapping requests *)

Lemma authenticate_known config c header alias :
  co_credentials c = credential_map config -> authenticate c header = Some alias -> alias ∈ (cc_Credentials config).*1.
Proof.
  intros Hc. unfold authenticate. destruct (_ || _); [intros [=]|]. rewrite Hc.
  intros ([a token] & Heq & Hin)%elem_of_list_to_map_2%list_elem_of_fmap. injection Heq as _ ->.
  exact (list_elem_of_fmap_2 fst _ _ Hin).
Qed.

Lemma begin_spec c used request alias :
  begin_ingest c used request = inr alias ->
  authenticate c (ir_Header request "Authorization") = Some alias /\ (used < co_capacity c)%nat.
Proof.
  unfold begin_ingest. destruct (_ || _); [intros [=]|]. destruct (authenticate _ _) as [a|]; [|intros [=]].
  destruct (_ <? _)%nat eqn:E; [|intros [=]]. intros [= <-]. by apply Nat.ltb_lt in E.
Qed.

Record serving (config : CollectorConfig) (capacity : nat) (st : MetricsState) : Prop := {
  serving_kept : kept config (ms_collector st);
  serving_capacity : co_capacity (ms_collector st) = capacity;
  serving_slots : (length (ms_active st) <= capacity)%nat;
  serving_known : Forall (fun ar => ar.1 ∈ (cc_Credentials config).*1 /\ (presents config ar.1 ar.2 \/ collision)) (ms_active st);
}.

Lemma finish_capacity c alias request now : co_capacity (finish_ingest c alias request now).2 = co_capacity c.
Proof. by destruct (finish_spec c alias request now) as [->|(_ & _ & _ & _ & ->)]. Qed.

Lemma serving_step config capacity st st' : serving config capacity st -> metrics_step st st' -> serving config capacity st'.
Proof.
  intros [Hk Hc Hs Hf] Hstep. destruct Hstep as [c active request r _|c active request alias Hb|c before after alias request now|c active now];
    cbn [ms_collector ms_active] in *.
  - by constructor.
  - apply begin_spec in Hb as [Ha Hu]. constructor; cbn; [done|done|lia|]. constructor; [|done]. cbn. split.
    + by eapply authenticate_known; [apply Hk|].
    + by eapply authenticate_spec; [apply Hk|].
  - rewrite length_app in Hs. cbn in Hs. apply Forall_app in Hf as [Hf1 Hf2]. apply Forall_cons in Hf2 as [[Ha _] Hf2].
    constructor; cbn; [by apply kept_finish|by rewrite finish_capacity|rewrite length_app; lia|by apply Forall_app].
  - constructor; cbn; [by apply kept_latest| |done|done]. unfold Latest. by destruct (now =? 0).
Qed.

Lemma reachable_serving config st :
  reachable config st -> exists c, NewCollector config = Ok c /\ serving config (co_capacity c) st.
Proof.
  intros (c & Hn & Hr). exists c. split; [done|]. assert (H0 : serving config (co_capacity c) {| ms_collector := c; ms_active := [] |}).
  { constructor; cbn; [by apply kept_new|done|lia|constructor]. }
  clear Hn. induction Hr as [|st1 st2 st3 Hs _ IH]; [done|]. apply IH. by eapply serving_step.
Qed.

Definition bytes_kept (c : Collector) : Z := map_fold (fun _ s acc => len (ts_Metrics s) + acc) 0 (co_snapshots c).

Lemma map_fold_bound {K A} `{Countable K} (f : A -> Z) (b : Z) (m : gmap K A) :
  (forall k a, m !! k = Some a -> f a <= b) -> map_fold (fun _ a acc => f a + acc) 0 m <= b * Z.of_nat (size m).
Proof.
  induction m as [|k a m Hk IH] using map_ind; intros Hb.
  - rewrite map_fold_empty, map_size_empty. lia.
  - rewrite map_fold_insert_L, map_size_insert_None by (intros; try lia; done).
    assert (f a <= b) by (apply (Hb k); by rewrite lookup_insert_eq).
    assert (map_fold (fun _ a acc => f a + acc) 0 m <= b * Z.of_nat (size m)).
    { apply IH. intros k' a' Hl. apply (Hb k'). rewrite lookup_insert_ne; [done|]. intros ->. congruence. }
    lia.
Qed.

Lemma list_to_set_size (l : list string) : (size (list_to_set l : gset string) <= length l)%nat.
Proof.
  induction l as [|x l IH]; [done|]. cbn [list_to_set length]. rewrite size_union_alt, size_singleton.
  pose proof (subseteq_size (list_to_set l ∖ {[x]} : gset string) (list_to_set l) ltac:(set_solver)). lia.
Qed.

Lemma kept_size config c : kept config c -> Z.of_nat (size (co_snapshots c)) <= llen (cc_Credentials config).
Proof.
  intros Hk. rewrite <- size_dom. unfold llen. apply Nat2Z.inj_le.
  transitivity (size (list_to_set (cc_Credentials config).*1 : gset string)).
  - apply subseteq_size. intros alias (s & Hl)%elem_of_dom. apply elem_of_list_to_set. by apply (kept_snapshots _ _ Hk _ _ Hl).
  - rewrite <- (length_fmap fst). apply list_to_set_size.
Qed.

(** ** Theorems *)

(** However requests overlap and whatever they carry, a collector serves at
    most its configured number of requests at a time, keeps at most one snapshot
    per configured terminal, each bounded, printable and without the name of a
    host or a device, and so at most 64 MiB in all. *)
Theorem collector_bounded config st (Hr : reachable config st) :
  Z.of_nat (length (ms_active st)) <= MaxCollectorConcurrent /\
  Z.of_nat (size (co_snapshots (ms_collector st))) <= llen (cc_Credentials config) <= MaxTerminalsHard /\
  (forall alias s, co_snapshots (ms_collector st) !! alias = Some s -> ts_Alias s = alias /\ clean_snapshot (ts_Metrics s)) /\
  bytes_kept (ms_collector st) <= 67108864.
Proof.
  apply reachable_serving in Hr as (c & Hn & [Hk Hc Hs Hf]). apply NewCollector_spec in Hn as (Hl & _ & _ & _ & _ & Hcap & _).
  pose proof (kept_size _ _ Hk) as Hsize. split_and!; try lia.
  - intros alias s Hls. by destruct (kept_snapshots _ _ Hk _ _ Hls) as (? & ? & _).
  - transitivity (MaxSnapshotBytes * Z.of_nat (size (co_snapshots (ms_collector st)))).
    + apply (map_fold_bound (fun s => len (ts_Metrics s))). intros alias s Hls.
      destruct (kept_snapshots _ _ Hk _ _ Hls) as (_ & [Hb _] & _). lia.
    + unfold MaxSnapshotBytes, MaxTerminalsHard in *. change (Z.shiftl 16 10) with 16384. lia.
Qed.

(** A snapshot that appears under an alias was posted whole, by a request in
    a slot that presented the token configured for this alias, or a collision of
    SHA-256 is known. *)
Theorem snapshots_authentic config st st' alias s
    (Hr : reachable config st) (Hstep : metrics_step st st')
    (Hnew : co_snapshots (ms_collector st') !! alias = Some s) (Hdiff : co_snapshots (ms_collector st) !! alias <> Some s) :
  exists request, (alias, request) ∈ ms_active st /\ ts_Metrics s = bd_data (ir_Body request) /\
    bd_fails (ir_Body request) = false /\ (presents config alias request \/ collision).
Proof.
  apply reachable_serving in Hr as (c0 & _ & [_ _ _ Hf]).
  destruct Hstep as [| |c before after a request now|c active now]; cbn [ms_collector ms_active] in *; try done.
  - destruct (finish_spec c a request now) as [Heq|(_ & Hfails & _ & _ & Heq)]; rewrite Heq in Hnew; [done|].
    cbn [with_snapshots co_snapshots] in Hnew. apply lookup_insert_Some in Hnew as [[<- <-]|[_ Hl]].
    + exists request. assert (Hin : (a, request) ∈ before ++ (a, request) :: after) by set_solver.
      rewrite Forall_forall in Hf. by destruct (Hf _ Hin).
    + apply prune_lookup in Hl as [Hl _]. done.
  - unfold Latest in Hnew. destruct (now =? 0); [done|]. apply prune_lookup in Hnew as [Hl _]. done.
Qed.

Lemma sort_by_strict {A} (key : A -> string) l :
  NoDup (key <$> l) -> StronglySorted (fun s t => str_ltb (key s) (key t) = true) (sort_by key l).
Proof.
  intros Hn. assert (Hn' : NoDup (key <$> sort_by key l)) by (by rewrite sort_by_perm).
  pose proof (sort_by_sorted key l) as Hs. induction Hs as [|a l' Hs IH Hle]; [constructor|].
  apply NoDup_cons in Hn' as [Ha Hn']. constructor; [by apply IH|].
  rewrite Forall_forall in Hle |- *. intros b Hb. specialize (Hle b Hb). unfold key_le, str_le in Hle.
  apply str_leb_spec in Hle as [?|Heq]; [done|]. exfalso. apply Ha. rewrite Heq. by apply list_elem_of_fmap_2.
Qed.

Lemma kept_keys config c : kept config c -> (map_to_list (co_snapshots c)).*1 = ts_Alias <$> (map_to_list (co_snapshots c)).*2.
Proof.
  intros Hk. rewrite <- list_fmap_compose. apply list_fmap_ext. intros i [alias s] Hl. cbn.
  apply list_elem_of_lookup_2, elem_of_map_to_list in Hl. symmetry. by destruct (kept_snapshots _ _ Hk _ _ Hl).
Qed.

Lemma latest_alias config c : kept config c -> forall s, s ∈ (map_to_list (co_snapshots c)).*2 <-> co_snapshots c !! ts_Alias s = Some s.
Proof.
  intros Hk s. rewrite list_elem_of_fmap. split.
  - intros ([alias s'] & -> & Hin%elem_of_map_to_list). destruct (kept_snapshots _ _ Hk _ _ Hin) as (Ha & _). cbn. by rewrite Ha.
  - intros Hl. exists (ts_Alias s, s). split; [done|]. by apply elem_of_map_to_list.
Qed.

(** The latest snapshots are exactly those kept whose time to live has not
    run out, in strictly increasing order of their aliases. *)
Theorem Latest_exact config st now
    (Hr : reachable config st) (Hnow : now <> 0) :
  exists l, (Latest (ms_collector st) now).1 = Ok l /\
    StronglySorted (fun s t => str_ltb (ts_Alias s) (ts_Alias t) = true) l /\
    forall s, s ∈ l <-> co_snapshots (ms_collector st) !! ts_Alias s = Some s /\ now < ts_CollectedAt s + cc_TTL config.
Proof.
  apply reachable_serving in Hr as (c0 & _ & [Hk _ _ _]). set (c := ms_collector st) in *.
  pose proof (kept_prune _ _ now Hk) as Hp. eexists. split; [|split].
  - unfold Latest. rewrite (proj2 (Z.eqb_neq _ _) Hnow). reflexivity.
  - apply sort_by_strict. rewrite <- (kept_keys _ _ Hp). apply NoDup_fst_map_to_list.
  - intros s. rewrite sort_by_perm, (latest_alias _ _ Hp), prune_lookup, <- (kept_ttl _ _ Hk). done.
Qed.

Lemma authenticate_configured config c alias token :
  NewCollector config = Ok c -> (alias, token) ∈ cc_Credentials config ->
  forall c', co_credentials c' = credential_map config -> authenticate c' ("Bearer " +:+ token) = Some alias.
Proof.
  intros (_ & _ & Hf & Hn & _)%NewCollector_spec Hin c' Hc. rewrite Forall_forall in Hf. destruct (Hf _ Hin) as [_ Ht]. cbn in Ht.
  unfold authenticate, trim_prefix. rewrite has_prefix_app, str_drop_app, Ht, Hc.
  replace (len token =? len ("Bearer " +:+ token)) with false by (symmetry; apply Z.eqb_neq; rewrite len_app; change (len "Bearer ") with 7; lia).
  cbn [orb negb]. apply elem_of_list_to_map_1.
  - rewrite <- list_fmap_compose. rewrite <- (list_fmap_compose snd sha256_Sum256) in Hn. exact Hn.
  - apply list_elem_of_fmap. by exists (alias, token).
Qed.

Lemma read_body_whole data n : len data < n -> read_body {| bd_data := data; bd_fails := false |} n = Ok data.
Proof. intros Hl. unfold read_body. cbn [bd_data bd_fails]. by rewrite (proj2 (Z.leb_gt _ _) Hl). Qed.

Lemma clean_accepted data : clean_snapshot data -> (len data =? 0) || (MaxSnapshotBytes <? len data) || negb (safeSnapshot data) = false.
Proof.
  intros [Hl ->]. rewrite orb_false_r. apply orb_false_iff. split; [apply Z.eqb_neq|apply Z.ltb_ge]; lia.
Qed.

Section Delivery.
Context `{RequestURI}.

(** The connection between an exporter and a collector that serves [used] other
    requests. *)
Definition delivered (c : Collector) (used : nat) (now : Z) (r : OutRequest) : result (Z * Body) :=
  let response := (Handler c used (received r) now).1 in
  Ok (response_status response,
      {| bd_data := match response with Refused _ message => message | Response _ _ body => body end; bd_fails := false |}).

(** What an exporter with a configured token sends to a collector with a
    free slot is acknowledged, and the collector reports exactly these bytes
    under the token's alias. *)
Theorem exported_is_collected config st alias token endpoint e url snapshot now
    (Hr : reachable config st) (Hin : (alias, token) ∈ cc_Credentials config)
    (Hslot : (length (ms_active st) < co_capacity (ms_collector st))%nat)
    (He : NewExporter endpoint token false = Ok e) (Hurl : request_URL (ex_endpoint e) = Some url)
    (Hpath : ur_Path url = CollectorPath) (Hquery : ur_RawQuery url = "")
    (Hclean : clean_snapshot snapshot) (Hnow : now <> 0) :
  let c := ms_collector st in
  let used := length (ms_active st) in
  exists request, Export e snapshot (delivered c used now) None = ([request], Ok tt) /\
  exists l, (Latest (Handler c used (received request) now).2 now).1 = Ok l /\
    {| ts_Alias := alias; ts_CollectedAt := now; ts_Metrics := snapshot |} ∈ l.
Proof.
  cbv zeta. pose proof Hr as (c0 & Hn & [Hk _ _ _])%reachable_serving. set (c := ms_collector st) in *. set (used := length _) in *.
  assert (Htoken : ex_token e = token).
  { revert He. unfold NewExporter. destruct (url_ParseRequestURI _); [|intros [=]].
    match goal with |- (if ?b then _ else _) = _ -> _ => destruct b end; [intros [=]|by intros [= <-]]. }
  set (r := {| or_Method := "POST"; or_URL := url; or_Headers := export_headers e; or_Body := snapshot |}).
  assert (Hbegin : begin_ingest c used (received r) = inr alias).
  { unfold begin_ingest, received. cbn [ir_Method ir_Path ir_RawQuery ir_Header r or_Method or_URL or_Headers]. rewrite Hpath, Hquery.
    change (header_of (export_headers e) "Authorization") with ("Bearer " +:+ ex_token e). rewrite Htoken.
    rewrite (authenticate_configured config c0 alias token Hn Hin c (kept_credentials _ _ Hk)), (proj2 (Nat.ltb_lt _ _) Hslot). reflexivity. }
  pose proof (clean_accepted _ Hclean) as Hacc. destruct Hclean as [Hlen _].
  assert (Hread : read_body (ir_Body (received r)) (MaxSnapshotBytes + 1) = Ok snapshot) by (apply read_body_whole; lia).
  assert (Hhandler : Handler c used (received r) now =
    (Response StatusNoContent [] "", with_snapshots (pruneLocked c now)
      (<[alias := {| ts_Alias := alias; ts_CollectedAt := now; ts_Metrics := snapshot |}]> (co_snapshots (pruneLocked c now))))).
  { unfold Handler. rewrite Hbegin. unfold finish_ingest. by rewrite Hread, Hacc, (proj2 (Z.eqb_neq _ _) Hnow). }
  exists r. split.
  - unfold Export. rewrite Hacc, Hurl. unfold delivered. fold r. rewrite Hhandler. reflexivity.
  - rewrite Hhandler. cbn [snd]. unfold Latest. rewrite (proj2 (Z.eqb_neq _ _) Hnow). eexists. split; [reflexivity|].
    rewrite sort_by_perm. apply list_elem_of_fmap. eexists (alias, _). split; [|apply elem_of_map_to_list, prune_lookup; split].
    + reflexivity.
    + cbn. by rewrite lookup_insert_eq.
    + cbn. pose proof (kept_ttl _ _ Hk). apply NewCollector_spec in Hn. lia.
Qed.
End Delivery.

Lemma load_credentials_ok l : forall acc,
  Forall (fun at_ => validAlias at_.1 = true /\ validToken at_.2 = true) l -> NoDup (sha256_Sum256 <$> l.*2) ->
  (forall d, d ∈ (sha256_Sum256 <$> l.*2) -> acc !! d = None) -> is_ok (load_credentials acc l) = true.
Proof.
  induction l as [|[alias token] rest IH]; intros acc Hf Hn Hfree; [done|]. csimpl in *.
  apply Forall_cons in Hf as [[Ha Ht] Hf]. apply NoDup_cons in Hn as [Hnot Hn]. cbn in Ha, Ht. cbn [load_credentials].
  rewrite Ha, Ht, Hfree by (by left). cbn [negb orb]. apply IH; [done|done|]. intros d Hd.
  rewrite lookup_insert_ne by (intros <-; done). apply Hfree. by right.
Qed.

(** Go iterates over the configured map in any order: the collector does not
    depend on it. *)
Theorem NewCollector_order credentials credentials' ttl now maxConcurrent c
    (Hperm : credentials ≡ₚ credentials')
    (Hok : NewCollector {| cc_Credentials := credentials; cc_TTL := ttl; cc_Now := now; cc_MaxConcurrent := maxConcurrent |} = Ok c) :
  NewCollector {| cc_Credentials := credentials'; cc_TTL := ttl; cc_Now := now; cc_MaxConcurrent := maxConcurrent |} = Ok c.
Proof.
  pose proof (NewCollector_spec _ _ Hok) as (_ & _ & Hf & Hn & _). cbn [cc_Credentials] in *.
  assert (Hload : load_credentials ∅ credentials = load_credentials ∅ credentials').
  { pose proof (load_credentials_ok credentials ∅ Hf Hn (fun d _ => lookup_empty d)) as H1.
    assert (Hf' : Forall (fun at_ => validAlias at_.1 = true /\ validToken at_.2 = true) credentials') by (by rewrite <- Hperm).
    assert (Hn' : NoDup (sha256_Sum256 <$> credentials'.*2)) by (by rewrite <- Hperm).
    pose proof (load_credentials_ok credentials' ∅ Hf' Hn' (fun d _ => lookup_empty d)) as H2.
    destruct (load_credentials ∅ credentials) as [m|] eqn:E1; [|discriminate H1].
    destruct (load_credentials ∅ credentials') as [m'|] eqn:E2; [|discriminate H2]. f_equal.
    apply load_credentials_spec in E1 as (_ & _ & _ & ->), E2 as (_ & _ & _ & ->). f_equal.
    apply list_to_map_proper; [|by rewrite Hperm].
    rewrite <- list_fmap_compose. rewrite <- (list_fmap_compose snd sha256_Sum256) in Hn. exact Hn. }
  revert Hok. unfold NewCollector. cbn [cc_Credentials cc_TTL cc_Now cc_MaxConcurrent]. unfold llen. by rewrite (Permutation_length Hperm), Hload.
Qed.

(** ** Witnesses *)

Module MetricsSamples.
Definition config : CollectorConfig :=
  {| cc_Credentials := [("west-1", "west-token-0123456"); ("east-1", "east-token-0123456")];
     cc_TTL := 100; cc_Now := true; cc_MaxConcurrent := 1 |}.
Definition endpoint : string := "https://collector/tos-ai/metrics/v1/ingest".
Definition url : URL :=
  {| ur_Scheme := "https"; ur_User := false; ur_Host := "collector"; ur_Path := CollectorPath; ur_RawPath := ""; ur_RawQuery := ""; ur_Fragment := "" |}.
#[export] Instance uri : RequestURI := {|
  url_ParseRequestURI s := if s =s? endpoint then Some url else None;
  URL_String _ := endpoint;
  request_URL s := if s =s? endpoint then Some url else None;
|}.
Definition exporter (token : string) : Exporter := {| ex_endpoint := endpoint; ex_token := token |}.
Definition post (token : string) (data : bytes) : IngestRequest :=
  received {| or_Method := "POST"; or_URL := url; or_Headers := export_headers (exporter token); or_Body := data |}.
Definition start : Collector := match NewCollector config with Ok c => c | Err _ => {| co_credentials := ∅; co_snapshots := ∅; co_ttl := 0; co_capacity := 0 |} end.
Definition first : IngestRequest := post "east-token-0123456" "up 1".
Definition busy : MetricsState := {| ms_collector := start; ms_active := [("east-1", first)] |}.
Definition stored : MetricsState := {| ms_collector := (finish_ingest start "east-1" first 7).2; ms_active := [] |}.

Lemma collector_started : NewCollector config = Ok start.
Proof. vm_compute. reflexivity. Qed.

Lemma busy_reachable : reachable config busy.
Proof.
  exists start. split; [exact collector_started|]. apply rtc_once. apply (step_begin start [] first "east-1").
  vm_compute. reflexivity.
Qed.

Lemma stored_step : metrics_step busy stored.
Proof. exact (step_finish start [] [] "east-1" first 7). Qed.

Lemma stored_reachable : reachable config stored.
Proof. destruct busy_reachable as (c & Hc & Hr). exists c. split; [done|]. eapply rtc_r; [exact Hr|exact stored_step]. Qed.
End MetricsSamples.
#[local] Existing Instance MetricsSamples.uri.

(** While the only slot is taken, another request is refused; the collector is
    bounded with one snapshot kept. *)
Lemma collector_bounded_witness :
  (exists message, begin_ingest MetricsSamples.start 1 (MetricsSamples.post "west-token-0123456" "up 1") = inl (Refused 503 message)) /\
  bytes_kept (ms_collector MetricsSamples.stored) = 4 /\
  Z.of_nat (length (ms_active MetricsSamples.busy)) <= MaxCollectorConcurrent.
Proof.
  split_and!; [eexists; vm_compute; reflexivity|vm_compute; reflexivity|].
  exact (proj1 (collector_bounded MetricsSamples.config MetricsSamples.busy MetricsSamples.busy_reachable)).
Defined.

Lemma snapshots_authentic_witness :
  exists request, ("east-1", request) ∈ ms_active MetricsSamples.busy /\ bd_data (ir_Body request) = "up 1".
Proof.
  assert (Hd : co_snapshots (ms_collector MetricsSamples.busy) !! "east-1" <> Some {| ts_Alias := "east-1"; ts_CollectedAt := 7; ts_Metrics := "up 1" |})
    by (vm_compute; discriminate).
  assert (Hn : co_snapshots (ms_collector MetricsSamples.stored) !! "east-1" = Some {| ts_Alias := "east-1"; ts_CollectedAt := 7; ts_Metrics := "up 1" |})
    by (vm_compute; reflexivity).
  destruct (snapshots_authentic MetricsSamples.config MetricsSamples.busy MetricsSamples.stored "east-1" _
    MetricsSamples.busy_reachable MetricsSamples.stored_step Hn Hd) as (request & Hin & Hm & _).
  exists request. split; [exact Hin|]. symmetry. exact Hm.
Defined.

(** The snapshot is reported until its time to live has run out. *)
Lemma Latest_exact_witness :
  (exists l, (Latest (ms_collector MetricsSamples.stored) 106).1 = Ok l /\ length l = 1%nat) /\
  (Latest (ms_collector MetricsSamples.stored) 107).1 = Ok [] /\
  exists l, (Latest (ms_collector MetricsSamples.stored) 106).1 = Ok l /\
    StronglySorted (fun s t => str_ltb (ts_Alias s) (ts_Alias t) = true) l.
Proof.
  split_and!; [eexists; split; vm_compute; reflexivity|vm_compute; reflexivity|].
  destruct (Latest_exact MetricsSamples.config MetricsSamples.stored 106 MetricsSamples.stored_reachable ltac:(discriminate)) as (l & Hl & Hs & _).
  exists l. split; [exact Hl|exact Hs].
Defined.

Lemma exported_is_collected_witness :
  exists request, Export (MetricsSamples.exporter "west-token-0123456") "load 2"
    (delivered (ms_collector MetricsSamples.stored) 0 8) None = ([request], Ok tt).
Proof.
  destruct (exported_is_collected MetricsSamples.config MetricsSamples.stored "west-1" "west-token-0123456" MetricsSamples.endpoint
    (MetricsSamples.exporter "west-token-0123456") MetricsSamples.url "load 2" 8 MetricsSamples.stored_reachable) as (r & Hr & _).
  - apply list_elem_of_here.
  - apply Nat.ltb_lt. vm_compute. reflexivity.
  - vm_compute. reflexivity.
  - vm_compute. reflexivity.
  - reflexivity.
  - reflexivity.
  - split; [split; [apply Z.ltb_lt|apply Z.leb_le]; vm_compute; reflexivity|vm_compute; reflexivity].
  - discriminate.
  - exists r. exact Hr.
Defined.
