(* ===== verification/DirLock.v ===== *)
(** * internal/dirlock and internal/osguard: exclusive ownership of a directory

    Several processes use a private directory at the same time.  The host is a
    world of names, inodes, open descriptors, advisory locks and listening
    sockets; a process is a program over its system calls, each of which is one
    atomic step and may fail.  Between two calls the other processes do
    anything the calls allow.  [owner] says that an actor holds the lock file
    under its name; [wp] reasons about one program under the interference of the
    others. *)

From S2P Require Import Prelude GoStd GoText.

(** ** The host *)

Inductive file_kind := KRegular | KDirectory | KSymlink (target : string) | KSocket | KOther.
#[export] Instance file_kind_eq_dec : EqDecision file_kind.
Proof. solve_decision. Defined.

Record Inode := { i_kind : file_kind; i_perm : Z; i_uid : Z; i_nlink : Z }.

(** An open descriptor: the actor it belongs to, its inode, and for a listening
    socket the path it was bound to. *)
Record OpenFile := { d_owner : Z; d_inode : Z; d_socket : option string }.

Record World := {
  w_names : gmap string Z;
  w_inodes : gmap Z Inode;
  w_fds : gmap Z OpenFile;
  w_locks : gmap Z Z;        (* inode -> the descriptor that locked it *)
}.

Record FileInfo := { fi_inode : Z; fi_node : Inode }.

Inductive errno := ENOENT | EWOULDBLOCK | ECONNREFUSED | EOTHER.

Inductive answer (A : Type) := Yes (a : A) | No (e : errno).
Arguments Yes {A} a.
Arguments No {A} e.

Definition is_yes {A} (x : answer A) : bool := match x with Yes _ => true | No _ => false end.

(** ** internal/osguard *)

Definition CurrentUserOwns (euid : Z) (info : FileInfo) : bool := i_uid (fi_node info) =? euid.

Definition CurrentUserOwnsSingleLink (euid : Z) (info : FileInfo) : bool :=
  (i_uid (fi_node info) =? euid) && (i_nlink (fi_node info) =? 1).

Definition o600 : Z := 384.
Definition o700 : Z := 448.
Definition o755 : Z := 493.

Definition kind_is (k : file_kind) (info : FileInfo) : bool := bool_decide (i_kind (fi_node info) = k).
Definition perm_is (p : Z) (info : FileInfo) : bool := i_perm (fi_node info) =? p.
Definition same_file (a b : FileInfo) : bool := fi_inode a =? fi_inode b.

(** A directory of this user that nobody else can enter; [info.IsDir()] excludes
    symbolic links. *)
Definition private_dir (euid : Z) (info : FileInfo) : bool :=
  kind_is KDirectory info && perm_is o700 info && CurrentUserOwns euid info.

(** ** System calls *)

Inductive call : Type -> Type :=
| Lstat (p : string) : call (answer FileInfo)
| Stat (p : string) : call (answer FileInfo)
| MkdirAll (p : string) : call (answer unit)
| OpenLock (p : string) : call (answer Z)       (* O_RDWR|O_CREAT|O_CLOEXEC|O_NOFOLLOW, 0600 *)
| Fstat (fd : Z) : call (answer FileInfo)
| FlockEx (fd : Z) : call (answer unit)         (* LOCK_EX|LOCK_NB *)
| FlockUn (fd : Z) : call (answer unit)
| CloseFd (fd : Z) : call (answer unit)
| Dial (p : string) : call (answer unit)
| Remove (p : string) : call (answer unit)
| ListenSocket (p : string) : call (answer Z)
| Chmod (p : string) (perm : Z) : call (answer unit)
| CloseListener (fd : Z) : call (answer unit).  (* unlinks the path it was bound to *)

Inductive prog (A : Type) : Type :=
| Ret (a : A)
| Call {X : Type} (c : call X) (k : X -> prog A).
Arguments Ret {A} a.
Arguments Call {A X} c k.

Fixpoint pbind {A B} (p : prog A) (k : A -> prog B) : prog B :=
  match p with
  | Ret a => k a
  | Call c k' => Call c (fun x => pbind (k' x) k)
  end.

Declare Scope host_scope.
Delimit Scope host_scope with host.
Notation "'sys' x ':=' c 'in' k" := (Call c (fun x => k)) (at level 10, x name, c at level 100, k at level 200) : host_scope.
Notation "'run' x ':=' p 'in' k" := (pbind p (fun x => k)) (at level 10, x name, p at level 100, k at level 200) : host_scope.
Open Scope host_scope.

Definition stat_name (w : World) (p : string) : answer FileInfo :=
  match w_names w !! p with
  | None => No ENOENT
  | Some i => match w_inodes w !! i with Some n => Yes {| fi_inode := i; fi_node := n |} | None => No EOTHER end
  end.

(** [os.Stat] follows at most forty symbolic links. *)
Fixpoint stat_follow (links : nat) (w : World) (p : string) : answer FileInfo :=
  match stat_name w p with
  | Yes {| fi_inode := i; fi_node := n |} =>
      match i_kind n, links with
      | KSymlink target, S links => stat_follow links w target
      | KSymlink _, O => No EOTHER
      | _, _ => Yes {| fi_inode := i; fi_node := n |}
      end
  | No e => No e
  end.

Definition is_symlink (k : file_kind) : bool := match k with KSymlink _ => true | _ => false end.

(** A socket inode on which some actor listens. *)
Definition listened (w : World) (i : Z) : bool :=
  existsb (fun fd => bool_decide (d_inode fd.2 = i) && bool_decide (is_Some (d_socket fd.2))) (map_to_list (w_fds w)).

Definition fresh_in {A} (m : gmap Z A) : Z := fresh (dom m : gset Z).

Definition set_names (w : World) (m : gmap string Z) : World :=
  {| w_names := m; w_inodes := w_inodes w; w_fds := w_fds w; w_locks := w_locks w |}.
Definition set_fds (w : World) (m : gmap Z OpenFile) : World :=
  {| w_names := w_names w; w_inodes := w_inodes w; w_fds := m; w_locks := w_locks w |}.
Definition set_locks (w : World) (m : gmap Z Z) : World :=
  {| w_names := w_names w; w_inodes := w_inodes w; w_fds := w_fds w; w_locks := m |}.
Definition set_inodes (w : World) (m : gmap Z Inode) : World :=
  {| w_names := w_names w; w_inodes := m; w_fds := w_fds w; w_locks := w_locks w |}.

(** A new inode under a new name. *)
Definition create (w : World) (p : string) (n : Inode) : World :=
  let i := fresh_in (w_inodes w) in
  set_names (set_inodes w (<[i := n]> (w_inodes w))) (<[p := i]> (w_names w)).

Definition open_fd (w : World) (d : OpenFile) : Z * World :=
  let fd := fresh_in (w_fds w) in (fd, set_fds w (<[fd := d]> (w_fds w))).

(** The descriptor of an actor. *)
Definition own_fd (q fd : Z) (w : World) : option OpenFile :=
  match w_fds w !! fd with
  | Some d => if d_owner d =? q then Some d else None
  | None => None
  end.

Definition release_lock (w : World) (fd i : Z) : World :=
  match w_locks w !! i with
  | Some holder => if holder =? fd then set_locks w (delete i (w_locks w)) else w
  | None => w
  end.

Definition close_fd (w : World) (fd : Z) (d : OpenFile) : World :=
  let w := release_lock w fd (d_inode d) in set_fds w (delete fd (w_fds w)).

Definition unlink (w : World) (p : string) : World :=
  match w_names w !! p with
  | None => w
  | Some i =>
      set_names
        (set_inodes w (alter (fun n => {| i_kind := i_kind n; i_perm := i_perm n; i_uid := i_uid n; i_nlink := i_nlink n - 1 |}) i (w_inodes w)))
        (delete p (w_names w))
  end.

Section Host.
Context (euid : Z).

(** A call of actor [q]; a failing call changes nothing, except that a
    descriptor is gone after a close. *)
Definition exec {X} (q : Z) (c : call X) (fails : bool) (w : World) : X * World :=
  match c in call X return X * World with
  | Lstat p => if fails then (No EOTHER, w) else (stat_name w p, w)
  | Stat p => if fails then (No EOTHER, w) else (stat_follow 40 w p, w)
  | MkdirAll p =>
      if fails then (No EOTHER, w) else
      match w_names w !! p with
      | None => (Yes tt, create w p {| i_kind := KDirectory; i_perm := o700; i_uid := euid; i_nlink := 2 |})
      | Some i =>
          match i_kind <$> w_inodes w !! i with
          | Some KDirectory | Some (KSymlink _) => (Yes tt, w)
          | _ => (No EOTHER, w)
          end
      end
  | OpenLock p =>
      if fails then (No EOTHER, w) else
      match w_names w !! p with
      | None =>
          let w := create w p {| i_kind := KRegular; i_perm := o600; i_uid := euid; i_nlink := 1 |} in
          match w_names w !! p with
          | Some i => let (fd, w) := open_fd w {| d_owner := q; d_inode := i; d_socket := None |} in (Yes fd, w)
          | None => (No EOTHER, w)
          end
      | Some i =>
          match i_kind <$> w_inodes w !! i with
          | Some KRegular | Some KOther => let (fd, w) := open_fd w {| d_owner := q; d_inode := i; d_socket := None |} in (Yes fd, w)
          | _ => (No EOTHER, w)
          end
      end
  | Fstat fd =>
      if fails then (No EOTHER, w) else
      match own_fd q fd w with
      | Some d => (match w_inodes w !! d_inode d with Some n => Yes {| fi_inode := d_inode d; fi_node := n |} | None => No EOTHER end, w)
      | None => (No EOTHER, w)
      end
  | FlockEx fd =>
      if fails then (No EOTHER, w) else
      match own_fd q fd w with
      | Some d =>
          match w_locks w !! d_inode d with
          | Some holder => if holder =? fd then (Yes tt, w) else (No EWOULDBLOCK, w)
          | None => (Yes tt, set_locks w (<[d_inode d := fd]> (w_locks w)))
          end
      | None => (No EOTHER, w)
      end
  | FlockUn fd =>
      if fails then (No EOTHER, w) else
      match own_fd q fd w with
      | Some d => (Yes tt, release_lock w fd (d_inode d))
      | None => (No EOTHER, w)
      end
  | CloseFd fd =>
      match own_fd q fd w with
      | Some d => (if fails then No EOTHER else Yes tt, close_fd w fd d)
      | None => (No EOTHER, w)
      end
  | Dial p =>
      if fails then (No EOTHER, w) else
      (match w_names w !! p with
       | None => No ENOENT
       | Some i => if listened w i then Yes tt else if default false ((fun n => is_symlink (i_kind n)) <$> w_inodes w !! i) then No EOTHER else No ECONNREFUSED
       end, w)
  | Remove p =>
      if fails then (No EOTHER, w) else
      match w_names w !! p with None => (No ENOENT, w) | Some _ => (Yes tt, unlink w p) end
  | ListenSocket p =>
      if fails then (No EOTHER, w) else
      match w_names w !! p with
      | Some _ => (No EOTHER, w)
      | None =>
          let w := create w p {| i_kind := KSocket; i_perm := o755; i_uid := euid; i_nlink := 1 |} in
          match w_names w !! p with
          | Some i => let (fd, w) := open_fd w {| d_owner := q; d_inode := i; d_socket := Some p |} in (Yes fd, w)
          | None => (No EOTHER, w)
          end
      end
  | Chmod p perm =>
      if fails then (No EOTHER, w) else
      match w_names w !! p with
      | None => (No ENOENT, w)
      | Some i => (Yes tt, set_inodes w (alter (fun n => {| i_kind := i_kind n; i_perm := perm; i_uid := i_uid n; i_nlink := i_nlink n |}) i (w_inodes w)))
      end
  | CloseListener fd =>
      match own_fd q fd w with
      | Some d =>
          let w := match d_socket d with Some p => unlink w p | None => w end in
          (if fails then No EOTHER else Yes tt, close_fd w fd d)
      | None => (No EOTHER, w)
      end
  end.

(** The death of an actor: the kernel closes its descriptors; names stay. *)
Definition die (q : Z) (w : World) : World :=
  {| w_names := w_names w; w_inodes := w_inodes w;
     w_fds := filter (fun kv => d_owner kv.2 <> q) (w_fds w);
     w_locks := filter (fun kv => own_fd q kv.2 w = None) (w_locks w) |}.

(** A program alone on the host, without failures. *)
Fixpoint alone {A} (q : Z) (p : prog A) (w : World) : A * World :=
  match p with
  | Ret a => (a, w)
  | Call c k => let (x, w') := exec q c false w in alone q (k x) w'
  end.

(** ** internal/dirlock *)

Definition MaxNameBytes : Z := 128.
Definition ErrHeld : string := "private directory is already managed".

Definition close_err {A} (fd : Z) (e : string) : prog (result A) := sys _ := CloseFd fd in Ret (Err e).

(** The checks and the lock on an opened descriptor. *)
Definition verifyAndLock (path : string) (fd : Z) : prog (result Z) :=
  sys stat := Fstat fd in
  match stat with
  | No _ => close_err fd "invalid private directory ownership lock"
  | Yes info =>
      if negb (kind_is KRegular info) || negb (perm_is o600 info) || negb (CurrentUserOwnsSingleLink euid info)
      then close_err fd "invalid private directory ownership lock" else
      sys pathInfo := Lstat path in
      if negb (match pathInfo with Yes i => same_file i info | No _ => false end)
      then close_err fd "substituted private directory ownership lock" else
      sys locked := FlockEx fd in
      match locked with
      | No EWOULDBLOCK => close_err fd ErrHeld
      | No _ => close_err fd "acquire private directory ownership lock"
      | Yes _ =>
          sys again := Lstat path in
          if negb (match again with Yes i => same_file i info | No _ => false end)
          then sys _ := FlockUn fd in close_err fd "substituted private directory ownership lock"
          else Ret (Ok fd)
      end
  end.

Definition openAndLock (path : string) : prog (result Z) :=
  sys directoryInfo := Lstat (filepath_Dir path) in
  match directoryInfo with
  | No _ => Ret (Err "invalid private ownership directory")
  | Yes directory =>
      if negb (private_dir euid directory) then Ret (Err "invalid private ownership directory") else
      sys opened := OpenLock path in
      match opened with
      | No _ => Ret (Err "open private directory ownership lock")
      | Yes fd => verifyAndLock path fd
      end
  end.

Definition unlockAndClose (fd : Z) : prog (result unit) :=
  sys unlocked := FlockUn fd in
  sys closed := CloseFd fd in
  Ret (if negb (is_yes unlocked) || negb (is_yes closed) then Err "release private directory ownership lock" else Ok tt).

Record Lock := { lk_file : option Z; lk_closed : bool }.

Definition Acquire (directory name : string) : prog (result Lock) :=
  if (directory =s? "") || negb (filepath_IsAbs directory) || (name =s? "") || (MaxNameBytes <? len name) ||
     (path_Base name <>s? name) || (name =s? ".") || (name =s? "..") || contains_byte name "/"
  then Ret (Err "invalid directory lock configuration") else
  run file := openAndLock (filepath_Join directory name) in
  Ret (match file with Ok fd => Ok {| lk_file := Some fd; lk_closed := false |} | Err e => Err e end).

Definition Lock_Close (l : Lock) : prog (result unit * Lock) :=
  if lk_closed l then Ret (Ok tt, l) else
  let l' := {| lk_file := None; lk_closed := true |} in
  match lk_file l with
  | None => Ret (Err "invalid directory ownership lock", l')
  | Some fd => run r := unlockAndClose fd in Ret (r, l')
  end.
End Host.

(** ** Interference

    [lk] is the path of a lock file and [p] a path that only the owner of the
    lock changes. *)
Section Ownership.
Context (euid : Z) (lk p : string).

Definition owner_by (q fd : Z) (w : World) : Prop :=
  exists d, w_fds w !! fd = Some d /\ d_owner d = q /\ w_locks w !! d_inode d = Some fd /\ w_names w !! lk = Some (d_inode d).

Definition owner (q : Z) (w : World) : Prop := exists fd, owner_by q fd w.

(** What the other actors may change under an actor [q]. *)
Record rely (q : Z) (w w' : World) : Prop := {
  rely_lk : forall i, w_names w !! lk = Some i -> w_names w' !! lk = Some i;
  rely_fds : forall fd d, d_owner d = q -> (w_fds w !! fd = Some d <-> w_fds w' !! fd = Some d);
  rely_locks : forall i fd d, w_fds w !! fd = Some d -> d_owner d = q -> w_locks w !! i = Some fd -> w_locks w' !! i = Some fd;
  rely_p : owner q w -> w_names w' !! p = w_names w !! p;
}.

Lemma owner_by_rely q fd w w' : owner_by q fd w -> rely q w w' -> owner_by q fd w'.
Proof.
  intros (d & Hd & Hq & Hl & Hn) [Hlk Hf Hlo _]. exists d. split_and!; [by apply Hf|done|by eapply Hlo|by apply Hlk].
Qed.

Lemma owner_rely q w w' : owner q w -> rely q w w' -> owner q w'.
Proof. intros (fd & H) Hr. exists fd. by eapply owner_by_rely. Qed.

#[export] Instance rely_refl q : Reflexive (rely q).
Proof. intros w. by constructor. Qed.

#[export] Instance rely_trans q : Transitive (rely q).
Proof.
  intros w1 w2 w3 H1 H2. pose proof H1 as [Hlk1 Hf1 Hlo1 Hp1]. pose proof H2 as [Hlk2 Hf2 Hlo2 Hp2]. constructor.
  - auto.
  - intros fd d Hq. by rewrite Hf1, Hf2.
  - intros i fd d Hd Hq Hl. eapply Hlo2; [by apply Hf1|done|by eapply Hlo1].
  - intros Ho. rewrite Hp2 by (by eapply owner_rely). by apply Hp1.
Qed.

(** At most one actor owns the lock. *)
Lemma owner_unique q q' fd fd' w : owner_by q fd w -> owner_by q' fd' w -> q = q' /\ fd = fd'.
Proof.
  intros (d & Hd & <- & Hl & Hn) (d' & Hd' & <- & Hl' & Hn'). assert (Hi : d_inode d = d_inode d') by congruence.
  assert (fd = fd') as -> by congruence. split; congruence.
Qed.

Definition guarantee (q : Z) (w w' : World) : Prop := forall q', q' <> q -> rely q' w w'.

(** When a call may be made: the lock file is never removed, and [p] is changed
    by the owner only. *)
Definition changes (q : Z) (x : string) (w : World) : Prop := x = p -> owner q w.

Definition allowed {X} (q : Z) (c : call X) (w : World) : Prop :=
  match c with
  | Remove x => x <> lk /\ changes q x w
  | MkdirAll x | OpenLock x | ListenSocket x => changes q x w
  | CloseListener fd => forall d x, own_fd q fd w = Some d -> d_socket d = Some x -> x <> lk /\ changes q x w
  | _ => True
  end.

Lemma own_fd_spec q fd w d : own_fd q fd w = Some d <-> w_fds w !! fd = Some d /\ d_owner d = q.
Proof.
  unfold own_fd. destruct (w_fds w !! fd) as [d'|]; [|naive_solver].
  destruct (Z.eqb_spec (d_owner d') q); naive_solver.
Qed.

Lemma fresh_in_none {A} (m : gmap Z A) : m !! fresh_in m = None.
Proof. apply not_elem_of_dom. apply is_fresh. Qed.

Lemma guar_names q w m :
  (forall i, w_names w !! lk = Some i -> m !! lk = Some i) -> (m !! p <> w_names w !! p -> owner q w) -> guarantee q w (set_names w m).
Proof.
  intros Hlk Hp q' Hq. constructor; cbn; [done|done|by eauto|]. intros (fd' & Ho'). destruct (decide (m !! p = w_names w !! p)) as [|Hne]; [done|].
  destruct (Hp Hne) as (fd & Ho). destruct (owner_unique _ _ _ _ _ Ho Ho'). done.
Qed.

Lemma guar_inodes q w m : guarantee q w (set_inodes w m).
Proof. intros q' Hq. by constructor. Qed.

Lemma guar_trans q w1 w2 w3 : guarantee q w1 w2 -> guarantee q w2 w3 -> guarantee q w1 w3.
Proof. intros H1 H2 q' Hq. etransitivity; [by apply H1|by apply H2]. Qed.

Lemma guar_refl q w : guarantee q w w.
Proof. intros q' _. reflexivity. Qed.

Lemma guar_create q w x n : w_names w !! x = None -> changes q x w -> guarantee q w (create w x n).
Proof.
  intros Hx Hc. unfold create. eapply guar_trans; [apply guar_inodes|]. apply guar_names; cbn.
  - intros i Hi. rewrite lookup_insert_ne; [done|]. intros ->. congruence.
  - intros Hne. destruct (decide (x = p)) as [->|Hxp]; [|by rewrite lookup_insert_ne in Hne].
    destruct (Hc eq_refl) as (fd & d & H). by exists fd, d.
Qed.

Lemma guar_unlink q w x : x <> lk -> changes q x w -> guarantee q w (unlink w x).
Proof.
  intros Hx Hc. unfold unlink. destruct (w_names w !! x) as [i|]; [|apply guar_refl].
  eapply guar_trans; [apply guar_inodes|]. apply guar_names; cbn.
  - intros j Hj. by rewrite lookup_delete_ne.
  - intros Hne. destruct (decide (x = p)) as [->|Hxp]; [|by rewrite lookup_delete_ne in Hne].
    destruct (Hc eq_refl) as (fd & d & H). by exists fd, d.
Qed.

Lemma guar_open q w d : d_owner d = q -> guarantee q w (open_fd w d).2.
Proof.
  intros Hd q' Hq. constructor; cbn; [done| |done|done].
  intros fd d' Hd'. destruct (decide (fd = fresh_in (w_fds w))) as [->|Hne]; [|by rewrite lookup_insert_ne].
  rewrite lookup_insert_eq, fresh_in_none. split; [done|]. intros [= ->]. congruence.
Qed.

Lemma guar_release q w fd d : w_fds w !! fd = Some d -> d_owner d = q -> guarantee q w (release_lock w fd (d_inode d)).
Proof.
  intros Hd Hq q' Hq'. unfold release_lock. destruct (w_locks w !! d_inode d) as [h|] eqn:Hl; [|reflexivity].
  destruct (Z.eqb_spec h fd) as [->|Hne]; [|reflexivity]. constructor; cbn; [done|done| |done].
  intros i fd' d' Hd' Ho Hl'. rewrite lookup_delete_ne; [done|]. intros <-. simplify_eq.
Qed.

Lemma guar_close q w fd d : w_fds w !! fd = Some d -> d_owner d = q -> guarantee q w (close_fd w fd d).
Proof.
  intros Hd Hq. unfold close_fd. apply (guar_trans _ _ _ _ (guar_release _ _ _ _ Hd Hq)).
  set (w1 := release_lock _ _ _). assert (Hf : w_fds w1 = w_fds w) by (unfold w1, release_lock; repeat case_match; done).
  intros q' Hq'. constructor; cbn; [done| |done|done]. intros fd' d' Hd'. rewrite Hf.
  destruct (decide (fd' = fd)) as [->|Hne]; [|by rewrite lookup_delete_ne].
  rewrite lookup_delete_eq. split; [|done]. intros Hx. simplify_eq.
Qed.

Lemma exec_guarantee {X} q (c : call X) fails w : allowed q c w -> guarantee q w (exec euid q c fails w).2.
Proof.
  destruct c as [x|x|x|x|fd|fd|fd|fd|x|x|x|x perm|fd]; cbn [exec allowed]; intros Ha.
  - destruct fails; apply guar_refl.
  - destruct fails; apply guar_refl.
  - destruct fails; [apply guar_refl|]. destruct (w_names w !! x) eqn:Hx; [repeat case_match; apply guar_refl|].
    by apply guar_create.
  - destruct fails; [apply guar_refl|]. destruct (w_names w !! x) eqn:Hx.
    + destruct (i_kind <$> _) as [[]|]; first [apply guar_refl | exact (guar_open q w {| d_owner := q |} eq_refl)].
    + set (w1 := create _ _ _). assert (Hg : guarantee q w w1) by (by apply guar_create).
      destruct (w_names w1 !! x) as [i|]; [|done]. apply (guar_trans _ _ _ _ Hg). exact (guar_open q w1 {| d_owner := q |} eq_refl).
  - destruct fails; [|destruct (own_fd q fd w)]; apply guar_refl.
  - destruct fails; [apply guar_refl|]. destruct (own_fd q fd w) as [d|] eqn:Ho; [|apply guar_refl].
    destruct (w_locks w !! d_inode d) as [h|] eqn:Hl; [destruct (h =? fd); apply guar_refl|].
    intros q' Hq. constructor; cbn; [done|done| |done]. intros i fd' d' Hd' Hq' Hl'.
    rewrite lookup_insert_ne; [done|]. intros <-. congruence.
  - destruct fails; [apply guar_refl|]. destruct (own_fd q fd w) as [d|] eqn:Ho; [|apply guar_refl].
    apply own_fd_spec in Ho as [Hd Hq]. by apply guar_release.
  - destruct (own_fd q fd w) as [d|] eqn:Ho; [|apply guar_refl]. apply own_fd_spec in Ho as [Hd Hq]. by apply guar_close.
  - destruct fails; apply guar_refl.
  - destruct fails; [apply guar_refl|]. destruct (w_names w !! x); [|apply guar_refl]. destruct Ha. by apply guar_unlink.
  - destruct fails; [apply guar_refl|]. destruct (w_names w !! x) eqn:Hx; [apply guar_refl|].
    set (w1 := create _ _ _). assert (Hg : guarantee q w w1) by (by apply guar_create).
    destruct (w_names w1 !! x) as [i|]; [|done]. apply (guar_trans _ _ _ _ Hg). exact (guar_open q w1 {| d_owner := q |} eq_refl).
  - destruct fails; [apply guar_refl|]. destruct (w_names w !! x); [apply guar_inodes|apply guar_refl].
  - destruct (own_fd q fd w) as [d|] eqn:Ho; [|apply guar_refl]. specialize (Ha d). pose proof Ho as [Hd Hq]%own_fd_spec.
    destruct (d_socket d) as [x|]; [|by apply guar_close]. destruct (Ha x eq_refl eq_refl) as [Hx Hc].
    apply (guar_trans _ _ (unlink w x)); [by apply guar_unlink|]. apply guar_close; [|done].
    unfold unlink. by destruct (w_names w !! x).
Qed.

Lemma die_guarantee q w : guarantee q w (die q w).
Proof.
  intros q' Hq. constructor; cbn; [done| | |done].
  - intros fd d Hd. rewrite map_lookup_filter_Some. cbn. split; [|by intros [? _]]. intros H. split; [done|congruence].
  - intros i fd d Hd Hq' Hl. apply map_lookup_filter_Some. split; [done|]. cbn. destruct (own_fd q fd w) as [d'|] eqn:Ho; [|done].
    apply own_fd_spec in Ho as [Hd' Ho]. congruence.
Qed.

(** ** Programs under interference *)

Fixpoint wp {A} (q : Z) (prg : prog A) (Q : A -> World -> Prop) (w : World) : Prop :=
  match prg with
  | Ret a => forall w', rely q w w' -> Q a w'
  | Call c k => forall w', rely q w w' -> allowed q c w' /\
      forall fails, wp q (k (exec euid q c fails w').1) Q (exec euid q c fails w').2
  end.

Lemma host_wp_rely {A} q (prg : prog A) Q w w' : rely q w w' -> wp q prg Q w -> wp q prg Q w'.
Proof. intros Hr. destruct prg; cbn; intros H w2 Hr2; apply H; by etransitivity. Qed.

Lemma host_wp_bind {A B} q (prg : prog A) (k : A -> prog B) Q w :
  wp q prg (fun a w' => wp q (k a) Q w') w -> wp q (pbind prg k) Q w.
Proof.
  revert w. induction prg as [a|X c k' IH]; intros w Hw.
  - apply Hw. reflexivity.
  - cbn. intros w' Hr. destruct (Hw w' Hr) as [Ha Hk]. split; [done|]. intros fails. apply IH, Hk.
Qed.

Lemma host_wp_mono {A} q (prg : prog A) (Q Q' : A -> World -> Prop) w :
  (forall a w', Q a w' -> Q' a w') -> wp q prg Q w -> wp q prg Q' w.
Proof.
  intros Hq. revert w. induction prg as [a|X c k IH]; intros w Hw; cbn in *; [auto|].
  intros w' Hr. destruct (Hw w' Hr) as [Ha Hk]. split; [done|]. intros fails. apply IH, Hk.
Qed.

(** A call made when a property holds that the others cannot destroy. *)
Definition stable (q : Z) (P : World -> Prop) : Prop := forall w w', P w -> rely q w w' -> P w'.

Lemma host_wp_call {A X} q (P : World -> Prop) (c : call X) (k : X -> prog A) Q w :
  stable q P -> P w ->
  (forall w', P w' -> allowed q c w' /\ forall fails, wp q (k (exec euid q c fails w').1) Q (exec euid q c fails w').2) ->
  wp q (Call c k) Q w.
Proof. intros Hs Hp H w' Hr. apply H. by eapply Hs. Qed.

Lemma host_wp_ret {A} q (P : World -> Prop) (a : A) (Q : A -> World -> Prop) w :
  stable q P -> P w -> (forall w', P w' -> Q a w') -> wp q (Ret a) Q w.
Proof. intros Hs Hp H w' Hr. apply H. by eapply Hs. Qed.

(** ** The descriptors of an actor *)

(** The descriptors of [q] are those of [m]. *)
Definition has_fds (q : Z) (m : gmap Z OpenFile) (w : World) : Prop :=
  forall fd d, w_fds w !! fd = Some d /\ d_owner d = q <-> m !! fd = Some d.

Lemma has_fds_stable q m : stable q (has_fds q m).
Proof.
  intros w w' H Hr fd d. rewrite <- (H fd d). split; intros [Hd Hq]; split; try done; by apply (rely_fds _ _ _ Hr).
Qed.

Lemma has_fds_eq q m w w' : w_fds w' = w_fds w -> has_fds q m w -> has_fds q m w'.
Proof. intros Heq H fd d. by rewrite Heq. Qed.

Lemma has_fds_open q m w d : d_owner d = q -> has_fds q m w -> has_fds q (<[fresh_in (w_fds w) := d]> m) (open_fd w d).2.
Proof.
  intros Hd H fd d'. cbn. destruct (decide (fd = fresh_in (w_fds w))) as [->|Hne].
  - rewrite !lookup_insert_eq. split; [by intros [[= ->] _]|by intros [= <-]].
  - rewrite !lookup_insert_ne by done. apply H.
Qed.

Lemma release_fds w fd i : w_fds (release_lock w fd i) = w_fds w.
Proof. unfold release_lock. by repeat case_match. Qed.

Lemma release_names w fd i : w_names (release_lock w fd i) = w_names w.
Proof. unfold release_lock. by repeat case_match. Qed.

Lemma has_fds_close q m w fd d : has_fds q m w -> has_fds q (delete fd m) (close_fd w fd d).
Proof.
  intros H fd' d'. unfold close_fd. cbn. rewrite release_fds. destruct (decide (fd' = fd)) as [->|Hne].
  - rewrite !lookup_delete_eq. naive_solver.
  - rewrite !lookup_delete_ne by done. apply H.
Qed.

Lemma has_fds_own q m w fd d : has_fds q m w -> m !! fd = Some d -> own_fd q fd w = Some d.
Proof. intros H Hm. apply own_fd_spec. by apply H. Qed.

Lemma stable_and q (P P' : World -> Prop) : stable q P -> stable q P' -> stable q (fun w => P w /\ P' w).
Proof. intros H H' w w' [Hp Hp'] Hr. split; [by eapply H|by eapply H']. Qed.

Lemma stable_lk q i : stable q (fun w => w_names w !! lk = Some i).
Proof. intros w w' H Hr. by apply (rely_lk _ _ _ Hr). Qed.

(** ** Acquiring the lock *)

Definition lock_fd (q i : Z) : OpenFile := {| d_owner := q; d_inode := i; d_socket := None |}.

(** [q] has opened the lock file under its name, and nothing else beside [m]. *)
Definition opened (q fd i : Z) (w : World) : Prop := has_fds q {[fd := lock_fd q i]} w /\ w_names w !! lk = Some i.

Lemma opened_stable q fd i : stable q (opened q fd i).
Proof. apply stable_and; [apply has_fds_stable|apply stable_lk]. Qed.

Definition holding (q fd i : Z) (w : World) : Prop := opened q fd i w /\ w_locks w !! i = Some fd.

Lemma holding_stable q fd i : stable q (holding q fd i).
Proof.
  intros w w' [Ho Hl] Hr. split; [by eapply opened_stable|]. destruct Ho as [Hf _].
  destruct (proj2 (Hf fd (lock_fd q i))) as [Hd Hq]; [by rewrite lookup_singleton_eq|]. by eapply (rely_locks _ _ _ Hr).
Qed.

Lemma holding_owner q fd i w : holding q fd i w -> owner_by q fd w.
Proof.
  intros [[Hf Hn] Hl]. destruct (proj2 (Hf fd (lock_fd q i))) as [Hd Hq]; [by rewrite lookup_singleton_eq|].
  by exists (lock_fd q i).
Qed.

Definition idle (q : Z) (w : World) : Prop := has_fds q ∅ w.

Lemma idle_stable q : stable q (idle q).
Proof. apply has_fds_stable. Qed.

Lemma close_err_spec {A} q fd i e (w : World) (Q : result A -> World -> Prop) :
  opened q fd i w -> (forall w', idle q w' -> Q (Err e) w') -> wp q (close_err fd e) Q w.
Proof.
  intros Hw HQ. apply (host_wp_call q (opened q fd i)); [apply opened_stable|done|]. intros w1 [Hf _]. split; [done|]. intros fails. cbn [exec].
  rewrite (has_fds_own _ _ _ fd (lock_fd q i) Hf) by (by rewrite lookup_singleton_eq). cbn [fst snd].
  apply (host_wp_ret q (idle q)); [apply idle_stable| |done].
  apply (has_fds_close _ _ _ fd (lock_fd q i)) in Hf. by rewrite delete_singleton_eq in Hf.
Qed.

Lemma unlockAndClose_spec q fd i w :
  opened q fd i w -> wp q (unlockAndClose fd) (fun _ w' => idle q w') w.
Proof.
  intros Hw. apply (host_wp_call q (opened q fd i)); [apply opened_stable|done|]. intros w1 Hw1. split; [done|]. intros fails.
  assert (Hafter : opened q fd i (exec euid q (FlockUn fd) fails w1).2).
  { cbn [exec]. destruct fails; [done|]. destruct (own_fd q fd w1); [|done]. cbn. destruct Hw1 as [Hf Hn]. split.
    - by eapply has_fds_eq; [apply release_fds|].
    - by rewrite release_names. }
  revert Hafter. generalize (exec euid q (FlockUn fd) fails w1). intros [x w2] Hw2. cbn [fst snd] in *.
  apply (host_wp_call q (opened q fd i)); [apply opened_stable|done|]. intros w3 [Hf _]. split; [done|]. intros fails'. cbn [exec].
  rewrite (has_fds_own _ _ _ fd (lock_fd q i) Hf) by (by rewrite lookup_singleton_eq). cbn [fst snd].
  apply (host_wp_ret q (idle q)); [apply idle_stable| |done].
  apply (has_fds_close _ _ _ fd (lock_fd q i)) in Hf. by rewrite delete_singleton_eq in Hf.
Qed.

Lemma exec_lstat_world q x fails w : (exec euid q (Lstat x) fails w).2 = w.
Proof. cbn. by destruct fails. Qed.

Lemma exec_fstat_world q fd fails w : (exec euid q (Fstat fd) fails w).2 = w.
Proof. cbn. destruct fails; [done|]. by destruct (own_fd q fd w). Qed.

Context (Hlk : lk <> p).

Lemma open_lock_spec q fails w :
  idle q w ->
  let r := exec euid q (OpenLock lk) fails w in
  match r.1 with Yes fd => exists i, opened q fd i r.2 | No _ => idle q r.2 end.
Proof.
  intros Hi. cbn [exec]. destruct fails; [done|]. destruct (w_names w !! lk) as [i|] eqn:Hn.
  - destruct (i_kind <$> _) as [[]|]; try done; cbn; exists i; split; try done; apply (has_fds_open q ∅ w (lock_fd q i) eq_refl Hi).
  - cbn. rewrite lookup_insert_eq. cbn. exists (fresh_in (w_inodes w)). split; [|cbn; by rewrite lookup_insert_eq].
    set (w1 := create w lk _). apply (has_fds_open q ∅ w1 (lock_fd q _) eq_refl). exact Hi.
Qed.

Lemma verifyAndLock_spec q fd i w :
  opened q fd i w ->
  wp q (verifyAndLock euid lk fd) (fun r w' => match r with Ok fd => exists i, holding q fd i w' | Err _ => idle q w' end) w.
Proof.
  intros Ho. unfold verifyAndLock.
  apply (host_wp_call q (opened q fd i)); [apply opened_stable|done|]. intros w4 Hw4. split; [done|]. intros f3. rewrite exec_fstat_world.
  generalize (exec euid q (Fstat fd) f3 w4).1. intros [info|e]; [|by eapply close_err_spec].
  destruct (_ || _); [by eapply close_err_spec|].
  apply (host_wp_call q (opened q fd i)); [apply opened_stable|done|]. intros w5 Hw5. split; [done|]. intros f4. rewrite exec_lstat_world.
  destruct (negb _); [by eapply close_err_spec|].
  apply (host_wp_call q (opened q fd i)); [apply opened_stable|done|]. intros w6 Hw6. split; [done|]. intros f5.
  assert (Hlock : match (exec euid q (FlockEx fd) f5 w6).1 with
    Yes _ => holding q fd i (exec euid q (FlockEx fd) f5 w6).2 | No _ => opened q fd i (exec euid q (FlockEx fd) f5 w6).2 end).
  { cbn [exec]. destruct f5; [done|]. destruct Hw6 as [Hf Hn].
    rewrite (has_fds_own _ _ _ fd (lock_fd q i) Hf) by (by rewrite lookup_singleton_eq). cbn [d_inode lock_fd].
    destruct (w_locks w6 !! i) as [h|] eqn:Hl; [destruct (Z.eqb_spec h fd) as [->|]; done|]. cbn. split; [done|]. cbn. by rewrite lookup_insert_eq. }
  revert Hlock. generalize (exec euid q (FlockEx fd) f5 w6). intros [[[]|e] w7] Hlock; cbn [fst snd] in *;
    [|destruct e; by eapply close_err_spec].
  apply (host_wp_call q (holding q fd i)); [apply holding_stable|done|]. intros w8 Hw8. split; [done|]. intros f6. rewrite exec_lstat_world.
  destruct (negb _); [|apply (host_wp_ret q (holding q fd i)); [apply holding_stable|done|eauto]].
  apply (host_wp_call q (opened q fd i)); [apply opened_stable|apply Hw8|]. intros w9 Hw9. split; [done|]. intros f7. eapply (close_err_spec _ _ i); [|done].
  cbn [exec]. destruct f7; [done|]. destruct (own_fd q fd w9); [|done]. cbn. destruct Hw9 as [Hf Hn]. split.
  - by eapply has_fds_eq; [apply release_fds|].
  - by rewrite release_names.
Qed.
(** Under any interference, a successful acquisition owns the lock with one
    descriptor, and a failed one leaves no descriptor behind. *)
Lemma openAndLock_spec q w :
  idle q w ->
  wp q (openAndLock euid lk) (fun r w' => match r with Ok fd => exists i, holding q fd i w' | Err _ => idle q w' end) w.
Proof.
  intros Hw. unfold openAndLock. apply (host_wp_call q (idle q)); [apply idle_stable|done|]. intros w1 Hw1. split; [done|]. intros f1.
  rewrite exec_lstat_world. generalize (exec euid q (Lstat (filepath_Dir lk)) f1 w1).1. intros [directory|e];
    [|apply (host_wp_ret q (idle q)); [apply idle_stable|done|done]].
  destruct (negb _); [apply (host_wp_ret q (idle q)); [apply idle_stable|done|done]|].
  apply (host_wp_call q (idle q)); [apply idle_stable|done|]. intros w2 Hw2. split; [by intros ->|]. intros f2.
  pose proof (open_lock_spec q f2 w2 Hw2) as Ho. cbv zeta in Ho. revert Ho.
  generalize (exec euid q (OpenLock lk) f2 w2). intros [[fd|e] w3] Ho; cbn [fst snd] in *;
    [|apply (host_wp_ret q (idle q)); [apply idle_stable|done|done]]. destruct Ho as [i Ho]. by eapply verifyAndLock_spec.
Qed.
End Ownership.

(** ** Many actors

    Every actor runs [start]; when it returns a handle the actor is up until it
    runs [stop]; it may die at any point.  The calls of different actors
    interleave. *)
Section Actors.
Context (euid : Z) (lk p : string) {R S : Type}.
Context (start : prog (result R)) (stop : R -> prog S) (up : Z -> R -> World -> Prop).

Inductive thread :=
| Starting (prg : prog (result R))
| Up (r : R)
| Stopping (prg : prog S).

Record state := { s_world : World; s_threads : gmap Z thread }.

Inductive actor_step : state -> state -> Prop :=
| actor_spawn w ts q : ts !! q = None ->
    actor_step {| s_world := w; s_threads := ts |} {| s_world := w; s_threads := <[q := Starting start]> ts |}
| actor_start w ts q X (c : call X) k fails : ts !! q = Some (Starting (Call c k)) ->
    actor_step {| s_world := w; s_threads := ts |}
      {| s_world := (exec euid q c fails w).2; s_threads := <[q := Starting (k (exec euid q c fails w).1)]> ts |}
| actor_up w ts q r : ts !! q = Some (Starting (Ret (Ok r))) ->
    actor_step {| s_world := w; s_threads := ts |} {| s_world := w; s_threads := <[q := Up r]> ts |}
| actor_failed w ts q e : ts !! q = Some (Starting (Ret (Err e))) ->
    actor_step {| s_world := w; s_threads := ts |} {| s_world := w; s_threads := delete q ts |}
| actor_stop w ts q r : ts !! q = Some (Up r) ->
    actor_step {| s_world := w; s_threads := ts |} {| s_world := w; s_threads := <[q := Stopping (stop r)]> ts |}
| actor_stopping w ts q X (c : call X) k fails : ts !! q = Some (Stopping (Call c k)) ->
    actor_step {| s_world := w; s_threads := ts |}
      {| s_world := (exec euid q c fails w).2; s_threads := <[q := Stopping (k (exec euid q c fails w).1)]> ts |}
| actor_stopped w ts q s : ts !! q = Some (Stopping (Ret s)) ->
    actor_step {| s_world := w; s_threads := ts |} {| s_world := w; s_threads := delete q ts |}
| actor_dies w ts q t : ts !! q = Some t ->
    actor_step {| s_world := w; s_threads := ts |} {| s_world := die q w; s_threads := delete q ts |}.

(** The host when the first actor starts: nobody has a descriptor or a lock. *)
Definition quiet (w : World) : Prop := w_fds w = ∅ /\ w_locks w = ∅.

Definition reachable (s : state) : Prop :=
  exists w, quiet w /\ rtc actor_step {| s_world := w; s_threads := ∅ |} s.

(** What is known of an actor. *)
Definition thread_ok (q : Z) (t : option thread) (w : World) : Prop :=
  match t with
  | None => idle q w
  | Some (Starting prg) => wp euid lk p q prg (fun r w' => match r with Ok h => up q h w' | Err _ => idle q w' end) w
  | Some (Up r) => up q r w
  | Some (Stopping prg) => wp euid lk p q prg (fun _ w' => idle q w') w
  end.

Definition actors_ok (s : state) : Prop := forall q, thread_ok q (s_threads s !! q) (s_world s).

Context (Hstart : forall q w, idle q w -> wp euid lk p q start (fun r w' => match r with Ok h => up q h w' | Err _ => idle q w' end) w).
Context (Hstop : forall q r w, up q r w -> wp euid lk p q (stop r) (fun _ w' => idle q w') w).
Context (Hstable : forall q r, stable lk p q (up q r)).

Lemma thread_ok_rely q t w w' : thread_ok q t w -> rely lk p q w w' -> thread_ok q t w'.
Proof.
  destruct t as [[prg|r|prg]|]; cbn; intros H Hr; [by eapply host_wp_rely|by eapply Hstable|by eapply host_wp_rely|].
  by eapply (idle_stable lk p).
Qed.

(** A step of [q] leaves the others as they are. *)
Lemma actors_ok_step w w' ts ts' q :
  actors_ok {| s_world := w; s_threads := ts |} -> guarantee lk p q w w' -> thread_ok q (ts' !! q) w' ->
  (forall q', q' <> q -> ts' !! q' = ts !! q') -> actors_ok {| s_world := w'; s_threads := ts' |}.
Proof.
  intros H Hg Hq Hother q'. cbn. destruct (decide (q' = q)) as [->|Hne]; [done|].
  rewrite Hother by done. eapply thread_ok_rely; [apply (H q')|by apply Hg].
Qed.

Lemma die_idle q w : idle q (die q w).
Proof. intros fd d. cbn. rewrite map_lookup_filter_Some, lookup_empty. cbn. naive_solver. Qed.

Lemma actors_preserved s s' : actors_ok s -> actor_step s s' -> actors_ok s'.
Proof.
  intros H Hstep. destruct Hstep as [w ts q Hq|w ts q X c k fails Hq|w ts q r Hq|w ts q e Hq|w ts q r Hq|w ts q X c k fails Hq|w ts q x Hq|w ts q t Hq];
    pose proof (H q) as Ht; cbn in Ht; rewrite Hq in Ht; cbn in Ht;
    (eapply (actors_ok_step w _ ts _ q); [done| | |intros q' Hne; by rewrite ?lookup_insert_ne, ?lookup_delete_ne by done]);
    rewrite ?lookup_insert_eq, ?lookup_delete_eq; cbn [thread_ok]; try apply guar_refl.
  - by apply Hstart.
  - destruct (Ht w) as [Ha _]; [reflexivity|]. by apply exec_guarantee.
  - destruct (Ht w) as [_ Hk]; [reflexivity|]. apply Hk.
  - apply (Ht w). reflexivity.
  - apply (Ht w). reflexivity.
  - by apply Hstop.
  - destruct (Ht w) as [Ha _]; [reflexivity|]. by apply exec_guarantee.
  - destruct (Ht w) as [_ Hk]; [reflexivity|]. apply Hk.
  - apply (Ht w). reflexivity.
  - apply die_guarantee.
  - apply die_idle.
Qed.

Lemma reachable_ok s : reachable s -> actors_ok s.
Proof.
  intros (w & [Hf _] & Hr). assert (H0 : actors_ok {| s_world := w; s_threads := ∅ |}).
  { intros q. cbn. rewrite lookup_empty. intros fd d. rewrite Hf, !lookup_empty. naive_solver. }
  clear Hf. induction Hr as [|s1 s2 s3 Hs _ IH]; [done|]. apply IH. by eapply actors_preserved.
Qed.

(** An actor that is not interrupted. *)
Lemma alone_steps q prg : forall w ts, ts !! q = Some (Starting prg) ->
  rtc actor_step {| s_world := w; s_threads := ts |}
    {| s_world := (alone euid q prg w).2; s_threads := <[q := Starting (Ret (alone euid q prg w).1)]> ts |}.
Proof.
  induction prg as [a|X c k IH]; intros w ts Hq; cbn [alone].
  - cbn. rewrite insert_id by done. reflexivity.
  - eapply rtc_l; [exact (actor_start w ts q X c k false Hq)|].
    specialize (IH (exec euid q c false w).1 (exec euid q c false w).2 (<[q := Starting (k (exec euid q c false w).1)]> ts)).
    rewrite insert_insert_eq, lookup_insert_eq in IH. destruct (exec euid q c false w) as [x w']. by apply IH.
Qed.

(** Every lock belongs to an open descriptor. *)
Definition locks_open (w : World) : Prop := forall i fd, w_locks w !! i = Some fd -> exists d, w_fds w !! fd = Some d /\ d_inode d = i.

Lemma locks_open_same w w' : w_fds w' = w_fds w -> w_locks w' = w_locks w -> locks_open w -> locks_open w'.
Proof. intros Hf Hl H i fd. rewrite Hl, Hf. apply H. Qed.

Lemma locks_open_opened w d : locks_open w -> locks_open (open_fd w d).2.
Proof.
  intros H i fd Hl. destruct (H i fd Hl) as (d' & Hd & Hi). exists d'. split; [|done]. cbn. rewrite lookup_insert_ne; [done|].
  intros <-. by rewrite fresh_in_none in Hd.
Qed.

Lemma locks_open_release w fd i : locks_open w -> locks_open (release_lock w fd i).
Proof.
  intros H j fd'. rewrite release_fds. unfold release_lock. destruct (w_locks w !! i) as [h|]; [|apply H].
  destruct (h =? fd); [|apply H]. cbn. rewrite lookup_delete_Some. intros [_ Hl]. by apply H.
Qed.

Lemma release_sub w fd i j h : w_locks (release_lock w fd i) !! j = Some h -> w_locks w !! j = Some h.
Proof.
  unfold release_lock. destruct (w_locks w !! i) as [h'|]; [|done]. destruct (h' =? fd); [|done]. cbn.
  by rewrite lookup_delete_Some; intros [].
Qed.

Lemma release_gone w fd i : w_locks (release_lock w fd i) !! i <> Some fd.
Proof.
  unfold release_lock. destruct (w_locks w !! i) as [h|] eqn:Hl; [|by rewrite Hl]. destruct (Z.eqb_spec h fd) as [->|Hne].
  - cbn. by rewrite lookup_delete_eq.
  - rewrite Hl. congruence.
Qed.

Lemma locks_open_close w fd d : w_fds w !! fd = Some d -> locks_open w -> locks_open (close_fd w fd d).
Proof.
  intros Hd H i fd' Hl. change (w_locks (release_lock w fd (d_inode d)) !! i = Some fd') in Hl.
  destruct (decide (fd' = fd)) as [->|Hne].
  - exfalso. destruct (H _ _ (release_sub _ _ _ _ _ Hl)) as (d' & Hd' & Hi).
    assert (d' = d) as -> by congruence. rewrite <- Hi in Hl. by apply release_gone in Hl.
  - destruct (locks_open_release w fd (d_inode d) H i fd' Hl) as (d' & Hd' & Hi). exists d'. split; [|done].
    unfold close_fd. cbn. rewrite lookup_delete_ne by done. exact Hd'.
Qed.

Lemma locks_open_unlink w x : locks_open w -> locks_open (unlink w x).
Proof. unfold unlink. by destruct (w_names w !! x). Qed.

Lemma exec_locks_open {X} q (c : call X) fails w : locks_open w -> locks_open (exec euid q c fails w).2.
Proof.
  intros H. destruct c as [x|x|x|x|fd|fd|fd|fd|x|x|x|x perm|fd]; cbn [exec]; try (destruct fails; [exact H|]).
  - exact H.
  - exact H.
  - destruct (w_names w !! x); [repeat case_match; exact H|exact H].
  - destruct (w_names w !! x).
    + destruct (i_kind <$> _) as [[]|]; first [exact H | exact (locks_open_opened w _ H)].
    + destruct (w_names (create _ _ _) !! x); [|exact H]. exact (locks_open_opened (create w x _) _ H).
  - by destruct (own_fd q fd w).
  - destruct (own_fd q fd w) as [d|] eqn:Ho; [|exact H]. destruct (w_locks w !! d_inode d) as [h|] eqn:Hl; [by destruct (h =? fd)|].
    intros i fd'. cbn. rewrite lookup_insert_Some. intros [[<- <-]|[_ Hl']]; [|by apply H]. exists d. by apply own_fd_spec in Ho as [? _].
  - destruct (own_fd q fd w) as [d|]; [|exact H]. by apply locks_open_release.
  - destruct (own_fd q fd w) as [d|] eqn:Ho; [|exact H]. apply own_fd_spec in Ho as [Hd _]. by apply locks_open_close.
  - exact H.
  - destruct (w_names w !! x); [by apply locks_open_unlink|exact H].
  - destruct (w_names w !! x); [exact H|]. destruct (w_names (create _ _ _) !! x); [|exact H]. exact (locks_open_opened (create w x _) _ H).
  - by destruct (w_names w !! x).
  - destruct (own_fd q fd w) as [d|] eqn:Ho; [|exact H]. apply own_fd_spec in Ho as [Hd _]. cbn [snd].
    destruct (d_socket d) as [x|]; [|by apply locks_open_close]. apply locks_open_close; [|by apply locks_open_unlink].
    unfold unlink. by destruct (w_names w !! x).
Qed.

Lemma die_locks_open q w : locks_open w -> locks_open (die q w).
Proof.
  intros H i fd. cbn. rewrite map_lookup_filter_Some. cbn. intros [Hl Hn]. destruct (H i fd Hl) as (d & Hd & Hi). exists d. split; [|done].
  apply map_lookup_filter_Some. split; [done|]. cbn. intros Hq. by rewrite (proj2 (own_fd_spec q fd w d) (conj Hd Hq)) in Hn.
Qed.

Lemma reachable_locks_open s : reachable s -> locks_open (s_world s).
Proof.
  intros (w & [_ Hl] & Hr). assert (H0 : locks_open w) by (intros i fd; by rewrite Hl, lookup_empty). clear Hl.
  change (locks_open (s_world {| s_world := w; s_threads := ∅ |})) in H0.
  induction Hr as [|s1 s2 s3 Hs _ IH]; [done|]. apply IH. destruct Hs; cbn in *; auto using exec_locks_open, die_locks_open.
Qed.

(** When no actor is left, nothing is open and nothing is locked. *)
Lemma reachable_empty s : reachable s -> s_threads s = ∅ -> w_fds (s_world s) = ∅ /\ w_locks (s_world s) = ∅.
Proof.
  intros Hr Ht. pose proof (reachable_ok s Hr) as Hok. assert (Hf : w_fds (s_world s) = ∅).
  { apply map_eq. intros fd. rewrite lookup_empty. destruct (w_fds _ !! fd) as [d|] eqn:Hd; [|done].
    specialize (Hok (d_owner d)). rewrite Ht, lookup_empty in Hok. destruct (proj1 (Hok fd d)) as []; done. }
  split; [done|]. apply map_eq. intros i. rewrite lookup_empty. destruct (w_locks _ !! i) as [fd|] eqn:Hl; [|done].
  destruct (reachable_locks_open s Hr i fd Hl) as (d & Hd & _). by rewrite Hf, lookup_empty in Hd.
Qed.
End Actors.

(** ** The lock *)

(** A handle that has not been closed. *)
Definition acquired (lk : string) (q : Z) (l : Lock) (w : World) : Prop :=
  exists fd i, l = {| lk_file := Some fd; lk_closed := false |} /\ holding lk q fd i w.

Lemma acquired_stable lk p q l : stable lk p q (acquired lk q l).
Proof. intros w w' (fd & i & -> & H) Hr. exists fd, i. split; [done|]. by eapply holding_stable. Qed.

Lemma acquired_owner lk q l w : acquired lk q l w -> owner lk q w.
Proof. intros (fd & i & _ & H). exists fd. by eapply holding_owner. Qed.

Lemma Acquire_spec euid p q directory name w :
  let lk := filepath_Join directory name in
  lk <> p -> idle q w ->
  wp euid lk p q (Acquire euid directory name) (fun r w' => match r with Ok l => acquired lk q l w' | Err _ => idle q w' end) w.
Proof.
  cbv zeta. intros Hne Hi. unfold Acquire.
  destruct (_ || _); [apply (host_wp_ret _ _ _ q (idle q)); [apply idle_stable|done|done]|].
  apply host_wp_bind. eapply host_wp_mono; [|by apply openAndLock_spec]. intros [fd|e] w' H.
  - destruct H as [i H]. apply (host_wp_ret _ _ _ q (holding (filepath_Join directory name) q fd i)); [apply holding_stable|done|].
    intros w2 H2. by exists fd, i.
  - apply (host_wp_ret _ _ _ q (idle q)); [apply idle_stable|done|done].
Qed.

Lemma Lock_Close_spec euid lk p q l w :
  acquired lk q l w -> wp euid lk p q (Lock_Close l) (fun _ w' => idle q w') w.
Proof.
  intros (fd & i & -> & [Ho _]). unfold Lock_Close. cbn [lk_closed lk_file]. apply host_wp_bind. eapply host_wp_mono; [|by apply (unlockAndClose_spec euid lk p q fd i)]. intros r w' H.
  apply (host_wp_ret _ _ _ q (idle q)); [apply idle_stable|done|done].
Qed.

(** A path beside the lock file. *)
Definition beside (lk : string) : string := String "x" lk.

Lemma beside_ne lk : lk <> beside lk.
Proof. intros H. apply (f_equal String.length) in H. unfold beside in H. cbn in H. lia. Qed.

Lemma locks_ok euid directory name s :
  reachable euid (Acquire euid directory name) Lock_Close s ->
  actors_ok euid (filepath_Join directory name) (beside (filepath_Join directory name)) (acquired (filepath_Join directory name)) s.
Proof.
  apply reachable_ok; intros.
  - apply Acquire_spec; [apply beside_ne|done].
  - by apply Lock_Close_spec.
  - apply acquired_stable.
Qed.

(** C19. However the system calls of any number of processes interleave, fail
    or end in the death of a process: two processes never both hold the lock of
    a directory; a handle that was returned stands for the kernel's lock on the
    file that is still at the lock's path; a process that failed to acquire the
    lock, has closed it or has died holds no descriptor. *)
Theorem lock_exclusive euid directory name s
    (Hr : reachable euid (Acquire euid directory name) Lock_Close s) :
  (forall q q' l l', s_threads s !! q = Some (Up l) -> s_threads s !! q' = Some (Up l') -> q = q') /\
  (forall q l, s_threads s !! q = Some (Up l) ->
     exists fd, l = {| lk_file := Some fd; lk_closed := false |} /\ owner_by (filepath_Join directory name) q fd (s_world s)) /\
  (forall q fd d, s_threads s !! q = None -> w_fds (s_world s) !! fd = Some d -> d_owner d <> q).
Proof.
  pose proof (locks_ok _ _ _ _ Hr) as Hok.
  assert (Hup : forall q l, s_threads s !! q = Some (Up l) -> acquired (filepath_Join directory name) q l (s_world s)).
  { intros q l Hq. specialize (Hok q). by rewrite Hq in Hok. }
  split_and!.
  - intros q q' l l' Hq Hq'. destruct (acquired_owner _ _ _ _ (Hup _ _ Hq)) as (fd & Ho). destruct (acquired_owner _ _ _ _ (Hup _ _ Hq')) as (fd' & Ho').
    by destruct (owner_unique _ _ _ _ _ _ Ho Ho').
  - intros q l Hq. destruct (Hup _ _ Hq) as (fd & i & -> & H). exists fd. split; [done|]. by eapply holding_owner.
  - intros q fd d Hq Hd Ho. specialize (Hok q). rewrite Hq in Hok. pose proof (proj1 (Hok fd d) (conj Hd Ho)) as Hx. by rewrite lookup_empty in Hx.
Qed.

Lemma alone_bind {A B} euid q (prg : prog A) (k : A -> prog B) : forall w,
  alone euid q (pbind prg k) w = let (a, w') := alone euid q prg w in alone euid q (k a) w'.
Proof.
  induction prg as [a|X c k' IH]; intros w; [done|]. cbn [pbind alone]. destruct (exec euid q c false w) as [x w']. apply IH.
Qed.

(** The lock file as [openAndLock] creates it. *)
Definition lock_node (euid : Z) : Inode := {| i_kind := KRegular; i_perm := o600; i_uid := euid; i_nlink := 1 |}.

Lemma verify_alone euid q lk fd i w :
  own_fd q fd w = Some (lock_fd q i) -> w_inodes w !! i = Some (lock_node euid) -> w_names w !! lk = Some i -> w_locks w !! i = None ->
  alone euid q (verifyAndLock euid lk fd) w = (Ok fd, set_locks w (<[i := fd]> (w_locks w))).
Proof.
  intros Hfd Hi Hn Hl. unfold verifyAndLock. cbn [alone exec]. rewrite Hfd. cbn [lock_fd d_inode]. rewrite Hi. cbn [fst snd].
  set (info := {| fi_inode := i; fi_node := lock_node euid |}).
  assert (Hg : negb (kind_is KRegular info) || negb (perm_is o600 info) || negb (CurrentUserOwnsSingleLink euid info) = false).
  { unfold CurrentUserOwnsSingleLink, info. cbn. by rewrite Z.eqb_refl. }
  assert (Hs : forall l, stat_name (set_locks w l) lk = Yes info) by (intros l; unfold stat_name; cbn; by rewrite Hn, Hi).
  assert (Hs0 : stat_name w lk = Yes info) by (unfold stat_name; by rewrite Hn, Hi).
  assert (Hsame : same_file info info = true) by apply Z.eqb_refl. rewrite Hg.
  cbn [alone exec]. rewrite Hs0, Hsame. cbn [negb].
  cbn [alone exec]. rewrite Hfd. cbn [lock_fd d_inode]. rewrite Hl. cbn [alone exec]. rewrite Hs, Hsame. reflexivity.
Qed.

(** What a program that only opened files kept of the world before it. *)
Record extends (lk : string) (w w' : World) : Prop := {
  extends_names : forall x, x <> lk -> w_names w' !! x = w_names w !! x;
  extends_inodes : forall i n, w_inodes w !! i = Some n -> w_inodes w' !! i = Some n;
  extends_fds : forall fd d, w_fds w' !! fd = Some d -> d_socket d = None \/ w_fds w !! fd = Some d;
}.

Lemma open_alone euid q lk w d :
  w_locks w = ∅ -> stat_name w (filepath_Dir lk) = Yes d -> private_dir euid d = true ->
  (w_names w !! lk = None \/ exists i, stat_name w lk = Yes {| fi_inode := i; fi_node := lock_node euid |}) ->
  exists fd w', alone euid q (openAndLock euid lk) w = (Ok fd, w') /\ extends lk w w'.
Proof.
  intros Hl Hd Hp Hf. unfold openAndLock. cbn [alone exec]. rewrite Hd, Hp. cbn [negb alone exec].
  assert (Hown : forall w' i, own_fd q (open_fd w' (lock_fd q i)).1 (open_fd w' (lock_fd q i)).2 = Some (lock_fd q i)).
  { intros w' i. apply own_fd_spec. cbn. by rewrite lookup_insert_eq. }
  assert (Hopen : forall w' i l, (forall x, x <> lk -> w_names w' !! x = w_names w !! x) ->
    (forall i n, w_inodes w !! i = Some n -> w_inodes w' !! i = Some n) -> w_fds w' = w_fds w ->
    extends lk w (set_locks (open_fd w' (lock_fd q i)).2 l)).
  { intros w' i l Hn Hi Hfd. constructor; cbn; [done|done|]. intros fd d'. rewrite Hfd, lookup_insert_Some.
    intros [[<- <-]|[_ Hx]]; [by left|by right]. }
  destruct Hf as [Hf|[i Hf]].
  - rewrite Hf. fold (lock_node euid). set (i := fresh_in (w_inodes w)). set (w1 := create w lk (lock_node euid)).
    assert (Hn : w_names w1 !! lk = Some i) by (cbn; by rewrite lookup_insert_eq). rewrite Hn.
    pose proof (verify_alone euid q lk (open_fd w1 (lock_fd q i)).1 i (open_fd w1 (lock_fd q i)).2 (Hown _ _)) as Hv.
    eexists _, _. split; [apply Hv; [cbn; by rewrite lookup_insert_eq|exact Hn|cbn; by rewrite Hl]|].
    apply Hopen; cbn; [intros x Hx; by rewrite lookup_insert_ne|intros k n Hk|done]. rewrite lookup_insert_ne; [done|].
    intros <-. by rewrite fresh_in_none in Hk.
  - unfold stat_name in Hf. destruct (w_names w !! lk) as [i'|] eqn:Hn; [|done]. destruct (w_inodes w !! i') as [n|] eqn:Hi; [|done].
    injection Hf as -> ->. cbn [lock_node i_kind fmap option_fmap option_map].
    pose proof (verify_alone euid q lk (open_fd w (lock_fd q i)).1 i (open_fd w (lock_fd q i)).2 (Hown _ _)) as Hv.
    eexists _, _. split; [apply Hv; [done|done|cbn; by rewrite Hl]|]. by apply Hopen.
Qed.

Lemma Acquire_alone euid q directory name w d :
  let lk := filepath_Join directory name in
  filepath_IsAbs directory = true -> proper_component name -> len name <= MaxNameBytes -> path_Base name = name ->
  w_locks w = ∅ -> stat_name w (filepath_Dir lk) = Yes d -> private_dir euid d = true ->
  (w_names w !! lk = None \/ exists i, stat_name w lk = Yes {| fi_inode := i; fi_node := lock_node euid |}) ->
  exists l w', alone euid q (Acquire euid directory name) w = (Ok l, w') /\ extends lk w w'.
Proof.
  cbv zeta. intros Habs (Hn1 & Hn2 & Hn3 & Hn4) Hlen Hbase Hlocks Hdir Hprivate Hfile.
  assert (Hd0 : directory <> "") by (by intros ->). apply String.eqb_neq in Hn1, Hn2, Hn3, Hd0. apply Z.ltb_ge in Hlen.
  unfold no_byte in Hn4. unfold Acquire. rewrite Hd0, Habs, Hn1, Hlen, Hbase, String.eqb_refl, Hn2, Hn3, Hn4. cbn [negb orb]. rewrite alone_bind.
  destruct (open_alone euid q (filepath_Join directory name) w d Hlocks Hdir Hprivate Hfile) as (fd & w' & -> & He). by eexists _, w'.
Qed.

Lemma locks_empty euid directory name s :
  reachable euid (Acquire euid directory name) Lock_Close s -> s_threads s = ∅ ->
  w_fds (s_world s) = ∅ /\ w_locks (s_world s) = ∅.
Proof.
  apply (reachable_empty euid (filepath_Join directory name) (beside (filepath_Join directory name)) _ _ (acquired (filepath_Join directory name))); intros.
  - apply Acquire_spec; [apply beside_ne|done].
  - by apply Lock_Close_spec.
  - apply acquired_stable.
Qed.

(** No crash leaves a directory locked: when no process is left, however the
    others ended, a process that is not disturbed acquires the lock of a private
    directory, whether its lock file exists or not. *)
Theorem lock_recoverable euid directory name s q d
    (Hr : reachable euid (Acquire euid directory name) Lock_Close s) (Hgone : s_threads s = ∅)
    (Habs : filepath_IsAbs directory = true) (Hname : proper_component name) (Hlen : len name <= MaxNameBytes)
    (Hbase : path_Base name = name)
    (Hdir : stat_name (s_world s) (filepath_Dir (filepath_Join directory name)) = Yes d) (Hprivate : private_dir euid d = true)
    (Hfile : w_names (s_world s) !! filepath_Join directory name = None \/
       exists i, stat_name (s_world s) (filepath_Join directory name) = Yes {| fi_inode := i; fi_node := lock_node euid |}) :
  exists l, (alone euid q (Acquire euid directory name) (s_world s)).1 = Ok l.
Proof.
  destruct (locks_empty _ _ _ _ Hr Hgone) as [_ Hlocks].
  destruct (Acquire_alone euid q directory name (s_world s) d Habs Hname Hlen Hbase Hlocks Hdir Hprivate Hfile) as (l & w' & -> & _). by exists l.
Qed.

(** ** Witnesses *)

Module LockSamples.
Definition dir_node : Inode := {| i_kind := KDirectory; i_perm := o700; i_uid := 7; i_nlink := 2 |}.
Definition world : World := {| w_names := {["/state" := 1]}; w_inodes := {[1 := dir_node]}; w_fds := ∅; w_locks := ∅ |}.
Definition owner_program : prog (result Lock) := Acquire 7 "/state" ".owner.lock".
Definition first : World := (alone 7 1 owner_program world).2.
Definition handle : Lock := {| lk_file := Some 0; lk_closed := false |}.
Definition one_up : @state Lock (result unit * Lock) := {| s_world := first; s_threads := <[1 := Up handle]> ∅ |}.
Definition after_death : @state Lock (result unit * Lock) := {| s_world := die 1 first; s_threads := ∅ |}.

Lemma first_run : (alone 7 1 owner_program world).1 = Ok handle.
Proof. vm_compute. reflexivity. Qed.

Lemma one_up_reachable : reachable 7 owner_program Lock_Close one_up.
Proof.
  exists world. split; [done|]. eapply rtc_l; [by apply (actor_spawn 7 owner_program Lock_Close world ∅ 1)|].
  etransitivity; [apply (alone_steps 7 owner_program Lock_Close 1 owner_program); by rewrite lookup_insert_eq|].
  rewrite first_run, insert_insert_eq. eapply rtc_l; [apply (actor_up 7 owner_program Lock_Close _ _ 1 handle); by rewrite lookup_insert_eq|].
  rewrite insert_insert_eq. reflexivity.
Qed.

Lemma after_death_reachable : reachable 7 owner_program Lock_Close after_death.
Proof.
  destruct one_up_reachable as (w & Hw & Hr). exists w. split; [done|]. eapply rtc_r; [exact Hr|].
  pose proof (actor_dies 7 owner_program Lock_Close first (<[1 := Up handle]> ∅) 1 (Up handle) (lookup_insert_eq _ _ _)) as Hs.
  rewrite delete_insert_id in Hs by done. exact Hs.
Qed.
End LockSamples.

(** A second process is refused while the first holds the lock. *)
Lemma lock_exclusive_witness :
  (alone 7 2 LockSamples.owner_program LockSamples.first).1 = Err ErrHeld /\
  forall q, s_threads LockSamples.one_up !! q = Some (Up LockSamples.handle) -> q = 1.
Proof.
  split; [vm_compute; reflexivity|]. intros q Hq.
  exact (proj1 (lock_exclusive 7 "/state" ".owner.lock" LockSamples.one_up LockSamples.one_up_reachable) q 1 _ _ Hq (lookup_insert_eq _ _ _)).
Defined.

(** It acquires the lock after the first has died. *)
Lemma lock_recoverable_witness : exists l, (alone 7 2 LockSamples.owner_program (s_world LockSamples.after_death)).1 = Ok l.
Proof.
  refine (lock_recoverable 7 "/state" ".owner.lock" LockSamples.after_death 2 {| fi_inode := 1; fi_node := LockSamples.dir_node |}
    LockSamples.after_death_reachable eq_refl eq_refl _ _ _ _ _ _).
  - by_compute.
  - apply Z.leb_le. vm_compute. reflexivity.
  - vm_compute. reflexivity.
  - vm_compute. reflexivity.
  - vm_compute. reflexivity.
  - right. exists 2. vm_compute. reflexivity.
Defined.
