(* ===== verification/UnixServer.v ===== *)
(** * internal/unixserver/listener.go: the private Unix listener

    [ListenLimited] takes the ownership lock beside the socket before it probes,
    removes and binds the socket's path, and [Close] gives everything back in the
    opposite order; a listener bounds its open connections by a semaphore.  The
    programs run on the host of [DirLock], under the interference of other
    processes. *)

From S2P Require Import Prelude GoStd GoText DirLock.
Open Scope host_scope.

Definition MaxConnectionsHard : Z := 4096.

(** [sync.Once] of the listener: [li_closed] once [Close] has begun. *)
Record Listener := {
  li_path : string;
  li_fd : Z;                  (* the net.Listener *)
  li_capacity : nat;          (* cap(sem) *)
  li_ownership : Lock;
}.

Section Listen.
Context (euid : Z).

Definition PreparePrivateParent (path : string) : prog (result unit) :=
  if negb (filepath_IsAbs path) then Ret (Err "private local path must be absolute") else
  let parent := filepath_Dir path in
  sys made := MkdirAll parent in
  match made with
  | No _ => Ret (Err "create private directory")
  | Yes _ =>
      sys info := Lstat parent in
      match info with
      | No _ => Ret (Err "lstat")
      | Yes info =>
          Ret (if negb (private_dir euid info) then Err "local directory must be a private non-symlink directory" else Ok tt)
      end
  end.

Definition PreparePrivateFileTarget (path : string) : prog (result unit) :=
  run parent := PreparePrivateParent path in
  match parent with
  | Err e => Ret (Err e)
  | Ok _ =>
      sys info := Lstat path in
      Ret (match info with
           | No ENOENT => Ok tt
           | No _ => Err "local state file must be a private owned regular file"
           | Yes info =>
               if kind_is KRegular info && perm_is o600 info && CurrentUserOwns euid info then Ok tt
               else Err "local state file must be a private owned regular file"
           end)
  end.

Definition socketLockName (path : string) : result string :=
  let base := path_Base path in
  let name := "." +:+ base +:+ ".lock" in
  if (base =s? ".") || (base =s? "..") || (MaxNameBytes <? len name)
  then Err "Unix socket name exceeds hard limits" else Ok name.

Definition prepareSocketPath (path : string) : prog (result unit) :=
  sys existing := Lstat path in
  match existing with
  | No ENOENT => Ret (Ok tt)
  | No _ => Ret (Err "inspect Unix socket path")
  | Yes info =>
      if negb (kind_is KSocket info) then Ret (Err "refusing to replace non-socket path") else
      sys dialed := Dial path in
      match dialed with
      | Yes _ => Ret (Err "Unix socket already has an active listener")
      | No ECONNREFUSED =>
          sys removed := Remove path in
          Ret (if is_yes removed then Ok tt else Err "remove stale Unix socket")
      | No _ => Ret (Err "cannot prove Unix socket is stale")
      end
  end.

Definition release_err {A} (ownership : Lock) (e : string) : prog (result A) :=
  run _ := Lock_Close ownership in Ret (Err e).

(** The part of [ListenLimited] that runs under the ownership lock. *)
Definition listen_owned (path : string) (maxConnections : Z) (ownership : Lock) : prog (result Listener) :=
  run prepared := prepareSocketPath path in
  match prepared with
  | Err e => release_err ownership e
  | Ok _ =>
      sys listener := ListenSocket path in
      match listener with
      | No _ => release_err ownership "listen"
      | Yes fd =>
          sys moded := Chmod path o600 in
          match moded with
          | No _ =>
              sys _ := CloseListener fd in
              sys _ := Remove path in
              release_err ownership "chmod"
          | Yes _ => Ret (Ok {| li_path := path; li_fd := fd; li_capacity := Z.to_nat maxConnections; li_ownership := ownership |})
          end
      end
  end.

Definition ListenLimited (path : string) (maxConnections : Z) : prog (result Listener) :=
  if (maxConnections <=? 0) || (MaxConnectionsHard <? maxConnections)
  then Ret (Err "invalid Unix socket connection limit") else
  run parent := PreparePrivateParent path in
  match parent with
  | Err e => Ret (Err e)
  | Ok _ =>
      match socketLockName path with
      | Err e => Ret (Err e)
      | Ok lockName =>
          run ownership := Acquire euid (filepath_Dir path) lockName in
          match ownership with
          | Err _ => Ret (Err "Unix socket is already managed")
          | Ok ownership => listen_owned path maxConnections ownership
          end
      end
  end.

Definition Listen (path : string) : prog (result Listener) := ListenLimited path 128.

(** The body of [closeOnce]; later calls return the same error. *)
Definition Listener_Close (l : Listener) : prog (result unit) :=
  sys listenErr := CloseListener (li_fd l) in
  sys removeErr := Remove (li_path l) in
  run ownershipErr := Lock_Close (li_ownership l) in
  Ret (if is_yes listenErr && (match removeErr with Yes _ | No ENOENT => true | No _ => false end) && is_ok ownershipErr.1
       then Ok tt else Err "close").
End Listen.

(** ** Listening under interference *)

Definition lock_path (path : string) : string := filepath_Join (filepath_Dir path) ("." +:+ path_Base path +:+ ".lock").

Section Exclusive.
Context (euid : Z) (path : string).
Abbreviation lk := (lock_path path).
Context (Hlk : lk <> path) (Hparent : filepath_Dir path <> path).

Definition sock_fd (q j : Z) : OpenFile := {| d_owner := q; d_inode := j; d_socket := Some path |}.

(** [q] owns the lock with descriptor [lfd] and listens with [sfd] on the socket
    at the path. *)
Definition bound (q lfd i sfd j : Z) (w : World) : Prop :=
  has_fds q (<[sfd := sock_fd q j]> {[lfd := lock_fd q i]}) w /\ sfd <> lfd /\
  w_names w !! lk = Some i /\ w_locks w !! i = Some lfd /\ w_names w !! path = Some j.

Lemma bound_lock q lfd i sfd j w : bound q lfd i sfd j w -> w_fds w !! lfd = Some (lock_fd q i).
Proof.
  intros (Hf & Hne & _). destruct (proj2 (Hf lfd (lock_fd q i))) as [Hd _]; [|done].
  by rewrite lookup_insert_ne, lookup_singleton_eq.
Qed.

Lemma bound_owner q lfd i sfd j w : bound q lfd i sfd j w -> owner_by lk q lfd w.
Proof. intros Hb. pose proof (bound_lock _ _ _ _ _ _ Hb) as Hd. destruct Hb as (_ & _ & Hn & Hl & _). by exists (lock_fd q i). Qed.

Lemma bound_stable q lfd i sfd j : stable lk path q (bound q lfd i sfd j).
Proof.
  intros w w' Hb Hr. pose proof (bound_lock _ _ _ _ _ _ Hb) as Hd. pose proof (bound_owner _ _ _ _ _ _ Hb) as Ho.
  destruct Hb as (Hf & Hne & Hn & Hl & Hp). split_and!; [by eapply has_fds_stable|done|by apply (rely_lk _ _ _ _ _ Hr)| |].
  - by eapply (rely_locks _ _ _ _ _ Hr).
  - rewrite (rely_p _ _ _ _ _ Hr); [done|]. by exists lfd.
Qed.

(** The world changed, but neither the descriptors, the locks nor the lock file's
    name. *)
Lemma holding_keep q fd i w w' :
  holding lk q fd i w -> w_fds w' = w_fds w -> w_locks w' = w_locks w -> w_names w' !! lk = w_names w !! lk -> holding lk q fd i w'.
Proof. intros [[Hf Hn] Hl] Ef El En. split; [split|]; [by eapply has_fds_eq|by rewrite En|by rewrite El]. Qed.

Lemma unlink_keep w : w_fds (unlink w path) = w_fds w /\ w_locks (unlink w path) = w_locks w /\ w_names (unlink w path) !! lk = w_names w !! lk.
Proof. unfold unlink. destruct (w_names w !! path); [|done]. cbn. by rewrite lookup_delete_ne. Qed.

Lemma remove_spec {A} q fd i (k : answer unit -> prog A) Q w :
  holding lk q fd i w -> (forall x w', holding lk q fd i w' -> wp euid lk path q (k x) Q w') ->
  wp euid lk path q (Call (Remove path) k) Q w.
Proof.
  intros Hw Hk. apply (host_wp_call euid lk path q (holding lk q fd i)); [apply holding_stable|done|]. intros w1 Hw1. split.
  - split; [done|]. intros _. exists fd. by eapply holding_owner.
  - intros fails. apply Hk. cbn [exec]. destruct fails; [done|]. destruct (w_names w1 !! path); [|done]. cbn [snd].
    destruct (unlink_keep w1) as (Ef & El & En). by eapply holding_keep.
Qed.

Lemma release_err_spec {A} q fd i e (Q : result A -> World -> Prop) w :
  holding lk q fd i w -> (forall w', idle q w' -> Q (Err e) w') ->
  wp euid lk path q (release_err {| lk_file := Some fd; lk_closed := false |} e) Q w.
Proof.
  intros Hw HQ. unfold release_err. apply host_wp_bind. eapply host_wp_mono; [|apply Lock_Close_spec; by exists fd, i].
  intros r0 w' Hi. apply (host_wp_ret euid lk path q (idle q)); [apply idle_stable|done|done].
Qed.

Lemma prepareSocketPath_spec q fd i w :
  holding lk q fd i w -> wp euid lk path q (prepareSocketPath path) (fun _ w' => holding lk q fd i w') w.
Proof.
  intros Hw. assert (Hret : forall (r : result unit) w', holding lk q fd i w' -> wp euid lk path q (Ret r) (fun _ w' => holding lk q fd i w') w').
  { intros r w' Hw'. by apply (host_wp_ret euid lk path q (holding lk q fd i)); [apply holding_stable| |]. }
  unfold prepareSocketPath. apply (host_wp_call euid lk path q (holding lk q fd i)); [apply holding_stable|done|]. intros w1 Hw1. split; [done|].
  intros f1. rewrite exec_lstat_world. destruct (exec euid q (Lstat path) f1 w1).1 as [info|[]]; auto.
  destruct (negb _); [by apply Hret|].
  apply (host_wp_call euid lk path q (holding lk q fd i)); [apply holding_stable|done|]. intros w2 Hw2. split; [done|]. intros f2.
  assert (Hwd : (exec euid q (Dial path) f2 w2).2 = w2) by (cbn; by destruct f2). rewrite Hwd.
  destruct (exec euid q (Dial path) f2 w2).1 as [[]|[]]; auto. eapply remove_spec; [done|]. intros x w3 Hw3. by apply Hret.
Qed.

Lemma listen_spec q fd i fails w :
  holding lk q fd i w ->
  let r := exec euid q (ListenSocket path) fails w in
  match r.1 with Yes sfd => exists j, bound q fd i sfd j r.2 | No _ => holding lk q fd i r.2 end.
Proof.
  intros Hw. cbn [exec]. destruct fails; [done|]. destruct (w_names w !! path) as [j|] eqn:Hn; [done|].
  set (n := {| i_kind := KSocket |}). set (j := fresh_in (w_inodes w)). set (w1 := create w path n).
  assert (Hj : w_names w1 !! path = Some j) by (cbn; by rewrite lookup_insert_eq). rewrite Hj. cbn [fst snd open_fd].
  assert (Hw1 : holding lk q fd i w1) by (eapply holding_keep; [exact Hw|done|done|cbn; by rewrite lookup_insert_ne]).
  destruct Hw1 as [[Hf Hlkn] Hl]. exists j.
  pose proof (has_fds_open q _ w1 (sock_fd q j) eq_refl Hf) as Hf'. split_and!; [exact Hf'| |done|done|exact Hj].
  intros Heq. destruct (proj2 (Hf fd (lock_fd q i))) as [Hd _]; [by rewrite lookup_singleton_eq|].
  rewrite <- Heq in Hd. by rewrite fresh_in_none in Hd.
Qed.

Lemma close_listener_spec {A} q lfd i sfd j (k : answer unit -> prog A) Q w :
  bound q lfd i sfd j w -> (forall x w', holding lk q lfd i w' -> wp euid lk path q (k x) Q w') ->
  wp euid lk path q (Call (CloseListener sfd) k) Q w.
Proof.
  intros Hw Hk. apply (host_wp_call euid lk path q (bound q lfd i sfd j)); [apply bound_stable|done|]. intros w1 Hw1.
  assert (Hown : own_fd q sfd w1 = Some (sock_fd q j)) by (destruct Hw1 as (Hf & _); eapply has_fds_own; [exact Hf|by rewrite lookup_insert_eq]).
  split.
  - cbn. rewrite Hown. intros d x [= <-] [= <-]. split; [done|]. intros _. exists lfd. by eapply bound_owner.
  - intros fails. apply Hk. cbn [exec]. rewrite Hown. cbn [snd sock_fd d_socket]. destruct (unlink_keep w1) as (Ef & El & En).
    destruct Hw1 as (Hf & Hne & Hn & Hl & _). split; [split|].
    + apply (has_fds_eq q _ _ (unlink w1 path)) in Hf; [|exact Ef]. apply (has_fds_close _ _ _ sfd (sock_fd q j)) in Hf.
      rewrite delete_insert_id in Hf; [exact Hf|]. by rewrite lookup_singleton_ne.
    + unfold close_fd. cbn [set_fds w_names]. by rewrite release_names, En.
    + unfold close_fd. cbn [set_fds w_locks]. unfold release_lock. rewrite El. cbn [d_inode sock_fd]. destruct (w_locks w1 !! j) as [h|] eqn:Hh.
      * destruct (Z.eqb_spec h sfd) as [->|Hx]; [|by rewrite ?El]. cbn [set_locks w_locks]. rewrite ?El, lookup_delete_ne; [done|]. intros <-. congruence.
      * by rewrite ?El.
Qed.

(** A listener that is up. *)
Definition listening (q : Z) (l : Listener) (w : World) : Prop :=
  exists lfd i j, li_path l = path /\ li_ownership l = {| lk_file := Some lfd; lk_closed := false |} /\ bound q lfd i (li_fd l) j w.

Lemma listening_stable q l : stable lk path q (listening q l).
Proof. intros w w' (lfd & i & j & Hp & Ho & Hb) Hr. exists lfd, i, j. split_and!; [done|done|by eapply bound_stable]. Qed.

Lemma listen_owned_spec q fd i n w :
  holding lk q fd i w ->
  wp euid lk path q (listen_owned path n {| lk_file := Some fd; lk_closed := false |})
    (fun r w' => match r with Ok l => listening q l w' | Err _ => idle q w' end) w.
Proof.
  intros Hw. unfold listen_owned. apply host_wp_bind. eapply host_wp_mono; [|by apply (prepareSocketPath_spec q fd i)].
  intros [[]|e] w1 Hw1; [|by eapply release_err_spec].
  apply (host_wp_call euid lk path q (holding lk q fd i)); [apply holding_stable|done|]. intros w2 Hw2. split.
  { intros _. exists fd. by eapply holding_owner. }
  intros f2. pose proof (listen_spec q fd i f2 w2 Hw2) as Hl. cbv zeta in Hl. destruct (exec euid q (ListenSocket path) f2 w2) as [[sfd|e] w3]; cbn [fst snd] in *;
    [|by eapply release_err_spec]. destruct Hl as [j Hb].
  apply (host_wp_call euid lk path q (bound q fd i sfd j)); [apply bound_stable|done|]. intros w4 Hw4. split; [done|]. intros f4.
  assert (Hw5 : bound q fd i sfd j (exec euid q (Chmod path o600) f4 w4).2) by (cbn [exec]; destruct f4; [done|]; by destruct (w_names w4 !! path)).
  destruct (exec euid q (Chmod path o600) f4 w4) as [[[]|e] w5]; cbn [fst snd] in *.
  - apply (host_wp_ret euid lk path q (bound q fd i sfd j)); [apply bound_stable|done|]. intros w6 Hw6. by exists fd, i, j.
  - eapply close_listener_spec; [exact Hw5|]. intros _ w6 Hw6. eapply remove_spec; [exact Hw6|]. intros _ w7 Hw7. by eapply release_err_spec.
Qed.

Lemma PreparePrivateParent_spec q w :
  idle q w -> wp euid lk path q (PreparePrivateParent euid path) (fun _ w' => idle q w') w.
Proof.
  intros Hw. assert (Hret : forall (r : result unit) w', idle q w' -> wp euid lk path q (Ret r) (fun _ w' => idle q w') w').
  { intros r w' Hw'. by apply (host_wp_ret euid lk path q (idle q)); [apply idle_stable| |]. }
  unfold PreparePrivateParent. destruct (negb _); [by apply Hret|].
  apply (host_wp_call euid lk path q (idle q)); [apply idle_stable|done|]. intros w1 Hw1. split; [by intros ?|]. intros f1.
  assert (Hw2 : idle q (exec euid q (MkdirAll (filepath_Dir path)) f1 w1).2).
  { cbn [exec]. destruct f1; [done|]. destruct (w_names w1 !! _); [|done]. by destruct (i_kind <$> _) as [[]|]. }
  destruct (exec euid q (MkdirAll (filepath_Dir path)) f1 w1) as [[[]|e] w2]; cbn [fst snd] in *; [|by apply Hret].
  apply (host_wp_call euid lk path q (idle q)); [apply idle_stable|done|]. intros w3 Hw3. split; [done|]. intros f3. rewrite exec_lstat_world.
  destruct (exec euid q (Lstat (filepath_Dir path)) f3 w3).1; by apply Hret.
Qed.

Lemma ListenLimited_spec q n w :
  idle q w ->
  wp euid lk path q (ListenLimited euid path n) (fun r w' => match r with Ok l => listening q l w' | Err _ => idle q w' end) w.
Proof.
  intros Hw. assert (Herr : forall e w', idle q w' ->
    wp euid lk path q (Ret (Err e)) (fun r w' => match r with Ok l => listening q l w' | Err _ => idle q w' end) w').
  { intros e w' Hw'. by apply (host_wp_ret euid lk path q (idle q)); [apply idle_stable| |]. }
  unfold ListenLimited. destruct (_ || _); [by apply Herr|].
  apply host_wp_bind. eapply host_wp_mono; [|by apply PreparePrivateParent_spec]. intros [[]|e] w1 Hw1; [|by apply Herr].
  destruct (socketLockName path) as [name|e] eqn:Hname; [|by apply Herr].
  assert (name = "." +:+ path_Base path +:+ ".lock") as -> by (revert Hname; unfold socketLockName; destruct (_ || _); [done|by intros [= <-]]).
  apply host_wp_bind. eapply host_wp_mono; [|by apply (Acquire_spec euid path q (filepath_Dir path))].
  intros [l|e] w2 Hw2; [|by apply Herr]. destruct Hw2 as (fd & i & -> & Hh). by eapply listen_owned_spec.
Qed.

Lemma Listener_Close_spec q l w :
  listening q l w -> wp euid lk path q (Listener_Close l) (fun _ w' => idle q w') w.
Proof.
  intros (lfd & i & j & Hp & Ho & Hb). unfold Listener_Close. rewrite Hp, Ho.
  eapply close_listener_spec; [exact Hb|]. intros x1 w1 Hw1. eapply remove_spec; [exact Hw1|]. intros x2 w2 Hw2.
  apply host_wp_bind. eapply host_wp_mono; [|apply Lock_Close_spec; by exists lfd, i]. intros r w3 Hw3.
  by apply (host_wp_ret euid lk path q (idle q)); [apply idle_stable| |].
Qed.
End Exclusive.

(** ** The paths *)

Lemma clean_path_split path :
  filepath_IsAbs path = true -> path_Clean path = path -> path <> "/" ->
  exists cs b, proper (cs ++ [b]) /\ path = render (cs ++ [b]).
Proof.
  intros Ha Hc Hne. destruct (clean_is_render path Ha) as (cs & Hp & Hr). rewrite Hc in Hr.
  destruct cs as [|c cs]; [done|]. destruct (exists_last (l := c :: cs)) as (cs' & b & Heq); [done|].
  rewrite Heq in Hp, Hr. by exists cs', b.
Qed.

Lemma base_render cs b : proper (cs ++ [b]) -> path_Base (render (cs ++ [b])) = b.
Proof.
  intros Hp. unfold path_Base. destruct (String.eqb_spec (render (cs ++ [b])) "") as [E|_]; [done|].
  fold (components (render (cs ++ [b]))). by rewrite components_render, rev_app_distr.
Qed.

Lemma no_byte_app c s t : no_byte c s -> no_byte c t -> no_byte c (s +:+ t).
Proof.
  intros Hs Ht. induction s as [|d s IH]; [done|]. apply no_byte_cons in Hs as [Hne Hs]. cbn. apply no_byte_cons. auto.
Qed.

Lemma lock_name_proper b : proper_component b -> proper_component ("." +:+ b +:+ ".lock").
Proof.
  intros (_ & _ & _ & Hb). assert (Hl : forall s, len ("." +:+ s +:+ ".lock") = len s + 6) by (intros s; rewrite !len_app; change (len ".") with 1; change (len ".lock") with 5; lia).
  assert (H0 : 0 <= len b) by (unfold len; lia).
  split_and!; try (intros E; apply (f_equal len) in E; rewrite Hl in E; cbv [len String.length] in E; lia).
  apply no_byte_app; [done|]. by apply no_byte_app.
Qed.

Lemma snoc_ne {A} (l : list A) x : l <> l ++ [x].
Proof. intros E. apply (f_equal length) in E. rewrite length_app in E. cbn in E. lia. Qed.

Lemma lock_path_ne path :
  filepath_IsAbs path = true -> path_Clean path = path -> path <> "/" -> lock_path path <> path /\ filepath_Dir path <> path.
Proof.
  intros Ha Hc Hne. destruct (clean_path_split path Ha Hc Hne) as (cs & b & Hp & ->). pose proof Hp as [Hcs Hb]%Forall_app.
  apply Forall_cons in Hb as [Hb _]. unfold lock_path. rewrite dir_render, base_render by done. split.
  - rewrite join_render by (done || by apply lock_name_proper). intros E. apply render_inj in E; [|apply Forall_app; split; [done|]|done].
    + apply app_inj_tail in E as [_ E]. apply (f_equal len) in E. rewrite !len_app in E. change (len ".") with 1 in E. change (len ".lock") with 5 in E. lia.
    + apply Forall_singleton. by apply lock_name_proper.
  - intros E. apply render_inj in E; [|done|done]. by apply snoc_ne in E.
Qed.

(** ** Theorems *)

Lemma listeners_ok euid path n s :
  lock_path path <> path -> filepath_Dir path <> path ->
  reachable euid (ListenLimited euid path n) Listener_Close s -> actors_ok euid (lock_path path) path (listening path) s.
Proof.
  intros Hlk Hparent. apply reachable_ok; intros.
  - by apply ListenLimited_spec.
  - by apply Listener_Close_spec.
  - by apply listening_stable.
Qed.

(** C18. However the processes that listen on a path interleave, fail or die: at
    most one of them has a listener, the socket at the path is the one this
    listener is bound to, so that no starting or closing process ever removes the
    socket of a running one, and a process that failed to listen, has closed its
    listener or has died has no descriptor left. *)
Theorem listener_undisturbed euid path n s
    (Habs : filepath_IsAbs path = true) (Hclean : path_Clean path = path) (Hroot : path <> "/")
    (Hr : reachable euid (ListenLimited euid path n) Listener_Close s) :
  (forall q q' l l', s_threads s !! q = Some (Up l) -> s_threads s !! q' = Some (Up l') -> q = q') /\
  (forall q l, s_threads s !! q = Some (Up l) -> exists d, w_fds (s_world s) !! li_fd l = Some d /\ d_owner d = q /\
     d_socket d = Some path /\ w_names (s_world s) !! path = Some (d_inode d)) /\
  (forall q fd d, s_threads s !! q = None -> w_fds (s_world s) !! fd = Some d -> d_owner d <> q).
Proof.
  destruct (lock_path_ne path Habs Hclean Hroot) as [Hlk Hparent]. pose proof (listeners_ok _ _ _ _ Hlk Hparent Hr) as Hok.
  assert (Hup : forall q l, s_threads s !! q = Some (Up l) -> listening path q l (s_world s)).
  { intros q l Hq. specialize (Hok q). by rewrite Hq in Hok. }
  split_and!.
  - intros q q' l l' (lfd & i & j & _ & _ & Hb)%Hup (lfd' & i' & j' & _ & _ & Hb')%Hup.
    by destruct (owner_unique _ _ _ _ _ _ (bound_owner _ _ _ _ _ _ _ Hb) (bound_owner _ _ _ _ _ _ _ Hb')).
  - intros q l (lfd & i & j & _ & _ & Hf & _ & _ & _ & Hn)%Hup. exists (sock_fd path q j).
    destruct (proj2 (Hf (li_fd l) (sock_fd path q j))) as [Hd Hq]; [by rewrite lookup_insert_eq|]. done.
  - intros q fd d Hq Hd Ho. specialize (Hok q). rewrite Hq in Hok. pose proof (proj1 (Hok fd d) (conj Hd Ho)) as Hx. by rewrite lookup_empty in Hx.
Qed.

(** ** Recovery *)

Lemma base_proper b : proper_component b -> path_Base b = b.
Proof.
  intros (H1 & _ & _ & Hb). unfold path_Base. destruct (String.eqb_spec b "") as [E|_]; [done|].
  rewrite str_split_no_sep by done. by rewrite filter_cons_True.
Qed.

Lemma private_kind euid d : private_dir euid d = true -> i_kind (fi_node d) = KDirectory.
Proof. unfold private_dir, kind_is. intros Hp. bool_props. done. Qed.

Lemma parent_alone euid q path w d :
  filepath_IsAbs path = true -> stat_name w (filepath_Dir path) = Yes d -> private_dir euid d = true ->
  alone euid q (PreparePrivateParent euid path) w = (Ok tt, w).
Proof.
  intros Ha Hd Hp. unfold PreparePrivateParent. rewrite Ha. cbn [negb]. cbn [alone exec].
  pose proof Hd as Hd'. unfold stat_name in Hd'. destruct (w_names w !! _) as [i|]; [|done].
  destruct (w_inodes w !! i) as [nd|] eqn:Hi; [|done]. injection Hd' as <-. cbn [fmap option_fmap option_map].
  rewrite (private_kind _ _ Hp : i_kind nd = KDirectory). cbn [alone exec]. by rewrite Hd, Hp.
Qed.

(** The stale socket of a process that is gone is replaced. *)
Lemma socket_alone q euid path n l w :
  (forall fd d, w_fds w !! fd = Some d -> d_socket d = None) ->
  (w_names w !! path = None \/ exists info, stat_name w path = Yes info /\ i_kind (fi_node info) = KSocket) ->
  exists r, (alone euid q (listen_owned path n l) w).1 = Ok r.
Proof.
  intros Hf Hp. unfold listen_owned. rewrite alone_bind.
  assert (Hprep : exists w', alone euid q (prepareSocketPath path) w = (Ok tt, w') /\ w_names w' !! path = None).
  { unfold prepareSocketPath. destruct Hp as [Hp|(info & Hs & Hk)]; cbn [alone exec].
    - unfold stat_name. rewrite Hp. by exists w.
    - rewrite Hs. unfold kind_is. rewrite bool_decide_true by done. cbn [negb alone exec].
      pose proof Hs as Hs'. unfold stat_name in Hs'. destruct (w_names w !! path) as [i|] eqn:Hn; [|done].
      destruct (w_inodes w !! i) as [nd|] eqn:Hi; [|done]. injection Hs' as <-. cbn in Hk.
      assert (Hlisten : listened w i = false).
      { unfold listened. apply not_true_iff_false. rewrite existsb_exists. intros ([fd d] & Hin & Hb). cbn in Hb. bool_props.
        apply list_elem_of_In, elem_of_map_to_list in Hin. rewrite (Hf _ _ Hin) in *. by destruct H0. }
      rewrite Hlisten. cbn [fmap option_fmap option_map default]. rewrite Hk. cbn [is_symlink from_option id alone exec]. rewrite Hn.
      eexists. split; [reflexivity|]. unfold unlink. rewrite Hn. cbn. by rewrite lookup_delete_eq. }
  destruct Hprep as (w' & -> & Hnone). cbn [alone exec]. rewrite Hnone. set (w1 := create w' path _).
  assert (Hw1 : w_names w1 !! path = Some (fresh_in (w_inodes w'))) by (cbn; by rewrite lookup_insert_eq). rewrite Hw1.
  cbn [alone exec open_fd]. cbn [set_fds w_names]. rewrite Hw1. by eexists.
Qed.

(** No crash keeps the service down: when no process is left, however the
    others ended, and the path is free or holds the stale socket of one of them,
    a process that is not disturbed gets its listener. *)
Theorem listener_recovers euid path n name s q d
    (Habs : filepath_IsAbs path = true) (Hclean : path_Clean path = path) (Hroot : path <> "/")
    (Hr : reachable euid (ListenLimited euid path n) Listener_Close s) (Hgone : s_threads s = ∅)
    (Hn : 0 < n <= MaxConnectionsHard) (Hname : socketLockName path = Ok name)
    (Hdir : stat_name (s_world s) (filepath_Dir path) = Yes d) (Hprivate : private_dir euid d = true)
    (Hfile : w_names (s_world s) !! lock_path path = None \/
       exists i, stat_name (s_world s) (lock_path path) = Yes {| fi_inode := i; fi_node := lock_node euid |})
    (Hsocket : w_names (s_world s) !! path = None \/
       exists info, stat_name (s_world s) path = Yes info /\ i_kind (fi_node info) = KSocket) :
  exists l, (alone euid q (ListenLimited euid path n) (s_world s)).1 = Ok l.
Proof.
  destruct (lock_path_ne path Habs Hclean Hroot) as [Hlk Hparent].
  assert (Hempty : w_fds (s_world s) = ∅ /\ w_locks (s_world s) = ∅).
  { eapply (reachable_empty euid (lock_path path) path _ _ (listening path)); [..|exact Hr|done]; intros;
      [by apply ListenLimited_spec|by apply Listener_Close_spec|by apply listening_stable]. }
  destruct Hempty as [Hfds Hlocks]. set (w := s_world s) in *.
  assert (name = "." +:+ path_Base path +:+ ".lock" /\ len name <= MaxNameBytes) as [-> Hlen].
  { revert Hname. unfold socketLockName. destruct (_ || _) eqn:E; [done|]. intros [= <-]. split; [done|].
    apply orb_false_iff in E as [_ E]. by apply Z.ltb_ge in E. }
  destruct (clean_path_split path Habs Hclean Hroot) as (cs & b & Hp & Hpath). pose proof Hp as [Hcs Hb]%Forall_app.
  apply Forall_cons in Hb as [Hb _]. assert (Hbase : path_Base path = b) by (rewrite Hpath; by apply base_render).
  assert (Hpd : filepath_Dir path = render cs) by (rewrite Hpath; by apply dir_render).
  assert (Hld : filepath_Dir (lock_path path) = render cs).
  { unfold lock_path. rewrite Hbase, Hpd, join_render by (done || by apply lock_name_proper). apply dir_render.
    apply Forall_app. split; [done|]. apply Forall_singleton. by apply lock_name_proper. }
  destruct (Acquire_alone euid q (filepath_Dir path) ("." +:+ path_Base path +:+ ".lock") w d) as (l & w' & Hacq & He);
    [rewrite Hpd; apply render_abs|rewrite Hbase; by apply lock_name_proper|done|rewrite Hbase; by apply base_proper, lock_name_proper|done| |done|done|].
  { fold (lock_path path). by rewrite Hld, <- Hpd. }
  unfold ListenLimited. rewrite (proj2 (Z.leb_gt _ _) (proj1 Hn)), (proj2 (Z.ltb_ge _ _) (proj2 Hn)). cbn [orb].
  rewrite alone_bind, (parent_alone euid q path w d Habs Hdir Hprivate), Hname, alone_bind, Hacq.
  apply socket_alone.
  - intros fd d' Hd'. destruct (extends_fds _ _ _ He fd d' Hd') as [?|Hx]; [done|]. by rewrite Hfds, lookup_empty in Hx.
  - rewrite (extends_names _ _ _ He path) by done. destruct Hsocket as [Hs|(info & Hs & Hk)]; [by left|right]. exists info. split; [|done].
    revert Hs. unfold stat_name. rewrite (extends_names _ _ _ He path) by done. destruct (w_names w !! path) as [i|]; [|done].
    destruct (w_inodes w !! i) as [nd|] eqn:Hi; [|done]. by rewrite (extends_inodes _ _ _ He _ _ Hi).
Qed.

(** ** Connections *)

(** The semaphore, the calls of [Accept] that wait for a connection, and the
    connections handed out with whether their slot was given back. *)
Record Connections := { cn_sem : nat; cn_waiting : nat; cn_conns : gmap Z bool; cn_closed : bool }.

(** The [select] of [Accept]: a slot, or the closed channel. *)
Definition Accept_begin (capacity : nat) (s : Connections) : option Connections :=
  if (cn_sem s <? capacity)%nat
  then Some {| cn_sem := S (cn_sem s); cn_waiting := S (cn_waiting s); cn_conns := cn_conns s; cn_closed := cn_closed s |} else None.

(** The rest of [Accept] with the connection the listener returned; a receive
    from an empty semaphore would block. *)
Definition Accept_end (accepted : option Z) (s : Connections) : option Connections :=
  match accepted with
  | Some c => Some {| cn_sem := cn_sem s; cn_waiting := pred (cn_waiting s); cn_conns := <[c := false]> (cn_conns s); cn_closed := cn_closed s |}
  | None =>
      if (cn_sem s =? 0)%nat then None
      else Some {| cn_sem := pred (cn_sem s); cn_waiting := pred (cn_waiting s); cn_conns := cn_conns s; cn_closed := cn_closed s |}
  end.

(** [limitedConn.Close]: the slot is given back by the first call only. *)
Definition limitedConn_Close (c : Z) (s : Connections) : option Connections :=
  match cn_conns s !! c with
  | Some false =>
      if (cn_sem s =? 0)%nat then None
      else Some {| cn_sem := pred (cn_sem s); cn_waiting := cn_waiting s; cn_conns := <[c := true]> (cn_conns s); cn_closed := cn_closed s |}
  | _ => Some s
  end.

Inductive connection_step (capacity : nat) : Connections -> Connections -> Prop :=
| conn_begin s s' : Accept_begin capacity s = Some s' -> connection_step capacity s s'
| conn_end s accepted s' : (0 < cn_waiting s)%nat -> (forall c, accepted = Some c -> cn_conns s !! c = None) ->
    Accept_end accepted s = Some s' -> connection_step capacity s s'
| conn_close s c s' : limitedConn_Close c s = Some s' -> connection_step capacity s s'
| conn_shutdown s : connection_step capacity s
    {| cn_sem := cn_sem s; cn_waiting := cn_waiting s; cn_conns := cn_conns s; cn_closed := true |}.

Definition open_conns (s : Connections) : gmap Z bool := filter (fun kv => kv.2 = false) (cn_conns s).

Definition no_connections : Connections := {| cn_sem := 0; cn_waiting := 0; cn_conns := ∅; cn_closed := false |}.

Definition slots_match (capacity : nat) (s : Connections) : Prop :=
  cn_sem s = (cn_waiting s + size (open_conns s))%nat /\ (cn_sem s <= capacity)%nat.

Lemma slots_match_step capacity s s' : slots_match capacity s -> connection_step capacity s s' -> slots_match capacity s'.
Proof.
  unfold slots_match, open_conns. intros [Hs Hc] Hstep. destruct Hstep as [s s' Hb|s accepted s' Hw Hfresh He|s c s' Hl|s].
  - unfold Accept_begin in Hb. destruct (_ <? _)%nat eqn:E; [|done]. apply Nat.ltb_lt in E. injection Hb as <-. cbn. lia.
  - destruct accepted as [c|]; cbn [Accept_end] in He.
    + injection He as <-. cbn. rewrite map_filter_insert_True, map_size_insert_None; [lia| |done].
      apply map_lookup_filter_None. left. by apply Hfresh.
    + destruct (_ =? 0)%nat eqn:E; [done|]. apply Nat.eqb_neq in E. injection He as <-. cbn. lia.
  - unfold limitedConn_Close in Hl. destruct (cn_conns s !! c) as [[]|] eqn:Hcl; [by injection Hl as <-| |by injection Hl as <-].
    destruct (_ =? 0)%nat eqn:E; [done|]. apply Nat.eqb_neq in E. injection Hl as <-. cbn [cn_sem cn_waiting cn_conns].
    assert (Hin : filter (fun kv => kv.2 = false) (cn_conns s) !! c = Some false) by (by apply map_lookup_filter_Some).
    assert (Hsz : size (filter (fun kv => kv.2 = false) (<[c := true]> (cn_conns s))) = pred (size (filter (fun kv => kv.2 = false) (cn_conns s)))).
    { rewrite map_filter_insert_False by done. rewrite map_filter_delete. by apply map_size_delete_Some. }
    rewrite Hsz. assert (0 < size (filter (fun kv => kv.2 = false) (cn_conns s)))%nat.
    { destruct (size _) eqn:E0; [|lia]. apply map_size_empty_inv in E0. by rewrite E0, lookup_empty in Hin. }
    lia.
  - done.
Qed.

(** At most the configured number of connections is open at a time, however
    accepts, closes and repeated closes interleave, and giving a slot back never
    blocks. *)
Theorem connections_bounded capacity s (Hr : rtc (connection_step capacity) no_connections s) :
  (size (open_conns s) <= capacity)%nat /\
  ((0 < cn_waiting s)%nat -> is_Some (Accept_end None s)) /\ (forall c, is_Some (limitedConn_Close c s)).
Proof.
  assert (Hm : slots_match capacity s).
  { assert (H0 : slots_match capacity no_connections) by (split; cbn; [done|lia]).
    clear -Hr H0. induction Hr as [|s1 s2 s3 Hs _ IH]; [done|]. apply IH. by eapply slots_match_step. }
  destruct Hm as [Hs Hc]. split_and!; [lia| |].
  - intros Hw. cbn. rewrite (proj2 (Nat.eqb_neq _ _)) by lia. by eexists.
  - intros c. unfold limitedConn_Close. destruct (cn_conns s !! c) as [[]|] eqn:Hl; [by eexists| |by eexists].
    destruct (cn_sem s =? 0)%nat eqn:E; [|by eexists]. apply Nat.eqb_eq in E. exfalso.
    assert (Hsz : size (open_conns s) = 0%nat) by lia. apply map_size_empty_inv in Hsz.
    assert (Hin : open_conns s !! c = Some false) by (by apply map_lookup_filter_Some). by rewrite Hsz, lookup_empty in Hin.
Qed.

(** ** Witnesses *)

Module ListenerSamples.
Definition path : string := "/run/worker.sock".
Definition dir_node : Inode := {| i_kind := KDirectory; i_perm := o700; i_uid := 7; i_nlink := 2 |}.
Definition world : World := {| w_names := {["/run" := 1]}; w_inodes := {[1 := dir_node]}; w_fds := ∅; w_locks := ∅ |}.
Definition start : prog (result Listener) := ListenLimited 7 path 2.
Definition up_world : World := (alone 7 1 start world).2.
Definition listener : Listener :=
  {| li_path := path; li_fd := 1; li_capacity := 2; li_ownership := {| lk_file := Some 0; lk_closed := false |} |}.
Definition one_listener : @state Listener (result unit) := {| s_world := up_world; s_threads := <[1 := Up listener]> ∅ |}.
Definition after_crash : @state Listener (result unit) := {| s_world := die 1 up_world; s_threads := ∅ |}.

Lemma listener_run : (alone 7 1 start world).1 = Ok listener.
Proof. vm_compute. reflexivity. Qed.

Lemma one_listener_reachable : reachable 7 start Listener_Close one_listener.
Proof.
  exists world. split; [done|]. eapply rtc_l; [by apply (actor_spawn 7 start Listener_Close world ∅ 1)|].
  etransitivity; [apply (alone_steps 7 start Listener_Close 1 start); by rewrite lookup_insert_eq|].
  rewrite listener_run, insert_insert_eq. eapply rtc_l; [apply (actor_up 7 start Listener_Close _ _ 1 listener); by rewrite lookup_insert_eq|].
  rewrite insert_insert_eq. reflexivity.
Qed.

Lemma after_crash_reachable : reachable 7 start Listener_Close after_crash.
Proof.
  destruct one_listener_reachable as (w & Hw & Hr). exists w. split; [done|]. eapply rtc_r; [exact Hr|].
  pose proof (actor_dies 7 start Listener_Close up_world (<[1 := Up listener]> ∅) 1 (Up listener) (lookup_insert_eq _ _ _)) as Hs.
  rewrite delete_insert_id in Hs by done. exact Hs.
Qed.

(** One of two slots is taken by an accepted connection. *)
Definition one_open : Connections := {| cn_sem := 1; cn_waiting := 0; cn_conns := {[5 := false]}; cn_closed := false |}.

Lemma one_open_reachable : rtc (connection_step 2) no_connections one_open.
Proof.
  eapply rtc_l; [by apply (conn_begin 2 no_connections)|]. eapply rtc_l; [|reflexivity].
  refine (conn_end 2 _ (Some 5) one_open _ _ _); [cbn; lia|intros c Hc; reflexivity|reflexivity].
Qed.
End ListenerSamples.

(** A second process is refused while the first listens. *)
Lemma listener_undisturbed_witness :
  (alone 7 2 ListenerSamples.start ListenerSamples.up_world).1 = Err "Unix socket is already managed" /\
  exists d, w_fds (s_world ListenerSamples.one_listener) !! 1 = Some d /\ d_owner d = 1.
Proof.
  split; [vm_compute; reflexivity|].
  destruct (listener_undisturbed 7 ListenerSamples.path 2 ListenerSamples.one_listener eq_refl eq_refl ltac:(discriminate)
    ListenerSamples.one_listener_reachable) as (_ & Hup & _).
  destruct (Hup 1 ListenerSamples.listener (lookup_insert_eq _ _ _)) as (d & Hd & Ho & _). exists d. split; [exact Hd|exact Ho].
Defined.

(** After the crash of the first, its stale socket is replaced. *)
Lemma listener_recovers_witness : exists l, (alone 7 2 ListenerSamples.start (s_world ListenerSamples.after_crash)).1 = Ok l.
Proof.
  refine (listener_recovers 7 ListenerSamples.path 2 ".worker.sock.lock" ListenerSamples.after_crash 2 {| fi_inode := 1; fi_node := ListenerSamples.dir_node |}
    eq_refl eq_refl ltac:(discriminate) ListenerSamples.after_crash_reachable eq_refl _ _ _ _ _ _).
  - split; [lia|apply Z.leb_le; vm_compute; reflexivity].
  - vm_compute. reflexivity.
  - vm_compute. reflexivity.
  - vm_compute. reflexivity.
  - right. exists 2. vm_compute. reflexivity.
  - right. eexists. split; [vm_compute; reflexivity|]. reflexivity.
Defined.

Lemma connections_bounded_witness : (size (open_conns ListenerSamples.one_open) <= 2)%nat /\ size (open_conns ListenerSamples.one_open) = 1%nat.
Proof.
  split; [exact (proj1 (connections_bounded 2 ListenerSamples.one_open ListenerSamples.one_open_reachable))|vm_compute; reflexivity].
Defined.
