(* ===== verification/EventService.v ===== *)
(** * pkg/messengereventbridge/unix.go: the sockets of the event service

    [ListenUnix] binds the sockets of the configured profiles without an
    ownership lock, and [Close] closes the listeners and removes their paths.
    The programs run on the host of [DirLock].  The HTTP servers that [Run]
    starts on the listeners are the library's. *)

From S2P Require Import Prelude GoStd GoText DirLock.
Open Scope host_scope.

Inductive profile := ProfileA2A | ProfileMCP.

Record UnixService := { us_listeners : list Z; us_handlers : list profile; us_paths : list string }.

Definition empty_service : UnixService := {| us_listeners := []; us_handlers := []; us_paths := [] |}.

Definition add_listener (s : UnixService) (fd : Z) (h : profile) (path : string) : UnixService :=
  {| us_listeners := us_listeners s ++ [fd]; us_handlers := us_handlers s ++ [h]; us_paths := us_paths s ++ [path] |}.

Section Service.
Context (euid : Z).

Definition listenPrivateUnix (path : string) : prog (result Z) :=
  if negb (filepath_IsAbs path) || (path_Clean path <>s? path)
  then Ret (Err "Messenger protocol socket must be a clean absolute path") else
  sys parent := Stat (filepath_Dir path) in
  if negb (match parent with
           | Yes info => kind_is KDirectory info && (Z.land (i_perm (fi_node info)) 63 =? 0) && CurrentUserOwns euid info
           | No _ => false
           end)
  then Ret (Err "Messenger protocol socket parent must be an existing private directory") else
  sys existing := Lstat path in
  match existing with
  | No ENOENT =>
      sys listener := ListenSocket path in
      match listener with
      | No _ => Ret (Err "listen")
      | Yes fd =>
          sys moded := Chmod path o600 in
          match moded with
          | Yes _ => Ret (Ok fd)
          | No _ =>
              sys _ := CloseListener fd in
              sys _ := Remove path in
              Ret (Err "chmod")
          end
      end
  | _ => Ret (Err "Messenger protocol socket path already exists or cannot be inspected")
  end.

Fixpoint close_listeners (fds : list Z) (failed : bool) : prog bool :=
  match fds with
  | [] => Ret failed
  | fd :: rest => sys closed := CloseListener fd in close_listeners rest (failed || negb (is_yes closed))
  end.

Fixpoint remove_paths (paths : list string) (failed : bool) : prog bool :=
  match paths with
  | [] => Ret failed
  | path :: rest =>
      sys removed := Remove path in
      remove_paths rest (failed || match removed with Yes _ | No ENOENT => false | No _ => true end)
  end.

(** The body of [closeOnce]. *)
Definition Service_Close (s : UnixService) : prog (result unit) :=
  run failed := close_listeners (us_listeners s) false in
  run failed' := remove_paths (us_paths s) failed in
  Ret (if failed' then Err "close" else Ok tt).

(** The loop over the two profiles. *)
Fixpoint listen_each (service : UnixService) (profiles : list (profile * string)) : prog (result UnixService) :=
  match profiles with
  | [] => Ret (Ok service)
  | (h, path) :: rest =>
      if path =s? "" then listen_each service rest else
      run listener := listenPrivateUnix path in
      match listener with
      | Err e => run _ := Service_Close service in Ret (Err e)
      | Ok fd => listen_each (add_listener service fd h path) rest
      end
  end.

(** [has_a2a] and [has_mcp]: the server has a handler of the profile. *)
Definition ListenUnix (has_a2a has_mcp : bool) (a2aSocket mcpSocket : string) : prog (result UnixService) :=
  if ((a2aSocket =s? "") && (mcpSocket =s? "")) || ((a2aSocket <>s? "") && negb has_a2a) || ((mcpSocket <>s? "") && negb has_mcp) ||
     ((a2aSocket <>s? "") && (a2aSocket =s? mcpSocket))
  then Ret (Err "invalid Messenger protocol Unix service configuration")
  else listen_each empty_service [(ProfileA2A, a2aSocket); (ProfileMCP, mcpSocket)].
End Service.

(** ** Descriptors *)

Section Clean.
Context (euid : Z).

(** No lock is involved: the logic of [DirLock] with a lock file and a protected
    path that cannot exist. *)
Abbreviation wps := (wp euid "" "").

Definition sockets_of (fds : list Z) (m : gmap Z OpenFile) : Prop :=
  forall fd d, m !! fd = Some d -> fd ∈ fds /\ exists path, d_socket d = Some path /\ path <> "".

(** [q] has at most the listening descriptors of the list. *)
Definition listens (q : Z) (fds : list Z) (w : World) : Prop := exists m, has_fds q m w /\ sockets_of fds m.

Lemma listens_stable q fds : stable "" "" q (listens q fds).
Proof. intros w w' (m & Hm & Hs) Hr. exists m. split; [by eapply has_fds_stable|done]. Qed.

Lemma listens_nil q w : listens q [] w <-> idle q w.
Proof.
  split.
  - intros (m & Hm & Hs). assert (m = ∅) as ->; [|done]. apply map_eq. intros fd. rewrite lookup_empty.
    destruct (m !! fd) as [d|] eqn:E; [|done]. destruct (Hs fd d E) as [Hin _]. by apply elem_of_nil in Hin.
  - intros Hi. exists ∅. split; [done|]. intros fd d. by rewrite lookup_empty.
Qed.

Lemma listens_ret {A} q fds (a : A) w : listens q fds w -> wps q (Ret a) (fun _ w' => listens q fds w') w.
Proof. intros Hw. by apply (host_wp_ret euid "" "" q (listens q fds)); [apply listens_stable| |]. Qed.

Lemma close_one_spec {A} q fd fds (k : answer unit -> prog A) Q w :
  listens q (fd :: fds) w -> (forall x w', listens q fds w' -> wps q (k x) Q w') -> wps q (Call (CloseListener fd) k) Q w.
Proof.
  intros Hw Hk. apply (host_wp_call euid "" "" q (listens q (fd :: fds))); [apply listens_stable|done|]. intros w1 (m & Hm & Hs). split.
  - intros d x Ho Hd. apply own_fd_spec, Hm in Ho. destruct (Hs _ _ Ho) as (_ & y & Hy & Hne). assert (x = y) as -> by congruence.
    split; [done|]. by intros ->.
  - intros fails. apply Hk. exists (delete fd m). split.
    + cbn [exec]. destruct (own_fd q fd w1) as [d|] eqn:Ho.
      * cbn [snd]. apply has_fds_close. destruct (d_socket d) as [x|]; [|done]. eapply has_fds_eq; [|exact Hm]. unfold unlink. by destruct (w_names w1 !! x).
      * rewrite delete_id; [exact Hm|]. destruct (m !! fd) as [d|] eqn:E; [|done]. by rewrite (has_fds_own _ _ _ _ _ Hm E) in Ho.
    + intros fd' d [Hne Hd]%lookup_delete_Some. destruct (Hs _ _ Hd) as [[->|Hin]%elem_of_cons Hp]; done.
Qed.

Lemma remove_one_spec {A} q fds path (k : answer unit -> prog A) Q w :
  path <> "" -> listens q fds w -> (forall x w', listens q fds w' -> wps q (k x) Q w') -> wps q (Call (Remove path) k) Q w.
Proof.
  intros Hp Hw Hk. apply (host_wp_call euid "" "" q (listens q fds)); [apply listens_stable|done|]. intros w1 (m & Hm & Hs). split.
  - split; [done|]. by intros ->.
  - intros fails. apply Hk. exists m. split; [|done]. cbn [exec]. destruct fails; [done|]. destruct (w_names w1 !! path) eqn:E; [|done].
    eapply has_fds_eq; [|exact Hm]. cbn [snd]. unfold unlink. by rewrite E.
Qed.

Lemma close_listeners_spec q fds : forall failed w, listens q fds w -> wps q (close_listeners fds failed) (fun _ w' => listens q [] w') w.
Proof.
  induction fds as [|fd fds IH]; intros failed w Hw; cbn [close_listeners]; [by apply listens_ret|].
  eapply close_one_spec; [exact Hw|]. intros x w' Hw'. by apply IH.
Qed.

Lemma remove_paths_spec q fds paths : Forall (fun x => x <> "") paths ->
  forall failed w, listens q fds w -> wps q (remove_paths paths failed) (fun _ w' => listens q fds w') w.
Proof.
  induction 1 as [|path paths Hp _ IH]; intros failed w Hw; cbn [remove_paths]; [by apply listens_ret|].
  eapply remove_one_spec; [done|exact Hw|]. intros x w' Hw'. by apply IH.
Qed.

Definition service_up (q : Z) (s : UnixService) (w : World) : Prop :=
  listens q (us_listeners s) w /\ Forall (fun x => x <> "") (us_paths s).

Lemma Service_Close_spec q s w : service_up q s w -> wps q (Service_Close s) (fun _ w' => idle q w') w.
Proof.
  intros [Hl Hp]. unfold Service_Close. apply host_wp_bind. eapply host_wp_mono; [|by apply close_listeners_spec]. intros failed w1 Hw1.
  apply host_wp_bind. eapply host_wp_mono; [|by apply (remove_paths_spec q [])]. intros failed' w2 Hw2.
  apply (host_wp_ret euid "" "" q (idle q)); [apply idle_stable|by apply listens_nil|done].
Qed.

Lemma listenPrivateUnix_spec q fds path w :
  path <> "" -> listens q fds w ->
  wps q (listenPrivateUnix euid path) (fun r w' => match r with Ok fd => listens q (fds ++ [fd]) w' | Err _ => listens q fds w' end) w.
Proof.
  intros Hp Hw. assert (Herr : forall e w', listens q fds w' ->
    wps q (Ret (Err e)) (fun r w' => match r with Ok fd => listens q (fds ++ [fd]) w' | Err _ => listens q fds w' end) w').
  { intros e w' Hw'. by apply (host_wp_ret euid "" "" q (listens q fds)); [apply listens_stable| |]. }
  unfold listenPrivateUnix. destruct (_ || _); [by apply Herr|].
  apply (host_wp_call euid "" "" q (listens q fds)); [apply listens_stable|done|]. intros w1 Hw1. split; [done|]. intros f1.
  assert (Hst : (exec euid q (Stat (filepath_Dir path)) f1 w1).2 = w1) by (cbn; by destruct f1). rewrite Hst.
  destruct (negb _); [by apply Herr|].
  apply (host_wp_call euid "" "" q (listens q fds)); [apply listens_stable|done|]. intros w2 Hw2. split; [done|]. intros f2. rewrite exec_lstat_world.
  destruct (exec euid q (Lstat path) f2 w2).1 as [info|[]]; try by apply Herr.
  apply (host_wp_call euid "" "" q (listens q fds)); [apply listens_stable|done|]. intros w3 Hw3. split; [by intros ->|]. intros f3.
  assert (Hl : match (exec euid q (ListenSocket path) f3 w3).1 with
    Yes fd => listens q (fd :: fds) (exec euid q (ListenSocket path) f3 w3).2 | No _ => listens q fds (exec euid q (ListenSocket path) f3 w3).2 end).
  { cbn [exec]. destruct f3; [done|]. destruct (w_names w3 !! path) eqn:Hn; [done|]. set (w4 := create w3 path _).
    assert (Hj : w_names w4 !! path = Some (fresh_in (w_inodes w3))) by (cbn; by rewrite lookup_insert_eq). rewrite Hj. cbn [fst snd open_fd].
    destruct Hw3 as (m & Hm & Hs). eexists. split; [apply (has_fds_open q m w4 {| d_owner := q |} eq_refl); exact Hm|].
    intros fd d [[<- <-]|[_ Hd]]%lookup_insert_Some; [split; [by left|by exists path]|]. destruct (Hs _ _ Hd) as [Hin Hx]. split; [by right|done]. }
  destruct (exec euid q (ListenSocket path) f3 w3) as [[fd|e] w4]; cbn [fst snd] in *; [|by apply Herr].
  apply (host_wp_call euid "" "" q (listens q (fd :: fds))); [apply listens_stable|done|]. intros w5 Hw5. split; [done|]. intros f5.
  assert (Hw6 : listens q (fd :: fds) (exec euid q (Chmod path o600) f5 w5).2) by (cbn [exec]; destruct f5; [done|]; by destruct (w_names w5 !! path)).
  destruct (exec euid q (Chmod path o600) f5 w5) as [[[]|e] w6]; cbn [fst snd] in *.
  - apply (host_wp_ret euid "" "" q (listens q (fd :: fds))); [apply listens_stable|done|]. intros w7 (m & Hm & Hs). exists m. split; [done|].
    intros fd' d Hd. destruct (Hs _ _ Hd) as [Hin Hx]. split; [set_solver|done].
  - eapply close_one_spec; [exact Hw6|]. intros x w7 Hw7. eapply remove_one_spec; [done|exact Hw7|]. intros y w8 Hw8. by apply Herr.
Qed.

Lemma listen_each_spec q profiles : forall s w, service_up q s w ->
  wps q (listen_each euid s profiles) (fun r w' => match r with Ok s' => service_up q s' w' | Err _ => idle q w' end) w.
Proof.
  assert (Hst : forall s, stable "" "" q (service_up q s)) by (intros s w w' [Hl Hp] Hr; split; [by eapply listens_stable|done]).
  induction profiles as [|[h path] rest IH]; intros s w Hs; cbn [listen_each].
  - by apply (host_wp_ret euid "" "" q (service_up q s)).
  - destruct (String.eqb_spec path "") as [_|Hne]; [by apply IH|]. destruct Hs as [Hl Hp].
    apply host_wp_bind. eapply host_wp_mono; [|by apply listenPrivateUnix_spec]. intros [fd|e] w1 Hw1; cbn beta iota in Hw1.
    + apply IH. split; [done|]. cbn. apply Forall_app. split; [done|]. by apply Forall_singleton.
    + apply host_wp_bind. eapply host_wp_mono; [|by apply Service_Close_spec]. intros r w2 Hw2.
      by apply (host_wp_ret euid "" "" q (idle q)); [apply idle_stable| |].
Qed.
End Clean.

(** However services on the same host interleave, fail or die, a service
    that failed to bind its sockets, was closed or has died has no descriptor
    left, and one that is up has no descriptor beside its listeners. *)
Theorem service_no_leak euid has_a2a has_mcp a2aSocket mcpSocket s q
    (Hr : reachable euid (ListenUnix euid has_a2a has_mcp a2aSocket mcpSocket) Service_Close s) :
  forall fd d, w_fds (s_world s) !! fd = Some d -> d_owner d = q ->
  (exists prg, s_threads s !! q = Some (Starting prg)) \/ (exists prg, s_threads s !! q = Some (Stopping prg)) \/
  exists service, s_threads s !! q = Some (Up service) /\ fd ∈ us_listeners service.
Proof.
  assert (Hok : actors_ok euid "" "" service_up s).
  { revert Hr. apply reachable_ok; clear; intros.
    - unfold ListenUnix. destruct (_ || _).
      + by apply (host_wp_ret euid "" "" q (idle q)); [apply idle_stable| |].
      + apply listen_each_spec. split; [by apply listens_nil|constructor].
    - by apply Service_Close_spec.
    - intros w w' [Hl Hp] Hr. split; [by eapply listens_stable|done]. }
  intros fd d Hd Hq. specialize (Hok q). destruct (s_threads s !! q) as [[prg|service|prg]|] eqn:E; cbn in Hok; [by eauto| |by eauto|].
  - destruct Hok as [(m & Hm & Hs) _]. pose proof (proj1 (Hm fd d) (conj Hd Hq)) as Hx. right. right. exists service. split; [done|]. by apply (Hs _ _ Hx).
  - pose proof (proj1 (Hok fd d) (conj Hd Hq)) as Hx. by rewrite lookup_empty in Hx.
Qed.

(** ** Witnesses *)

Module ServiceSamples.
Definition dir_node : Inode := {| i_kind := KDirectory; i_perm := o700; i_uid := 7; i_nlink := 2 |}.
Definition world : World := {| w_names := {["/run" := 1]}; w_inodes := {[1 := dir_node]}; w_fds := ∅; w_locks := ∅ |}.
Definition start : prog (result UnixService) := ListenUnix 7 true false "/run/a2a" "".
Definition service (fd : Z) : UnixService := {| us_listeners := [fd]; us_handlers := [ProfileA2A]; us_paths := ["/run/a2a"] |}.
Definition up_world : World := (alone 7 1 start world).2.
Definition one_service : @state UnixService (result unit) := {| s_world := up_world; s_threads := <[1 := Up (service 0)]> ∅ |}.

Lemma service_run : (alone 7 1 start world).1 = Ok (service 0).
Proof. vm_compute. reflexivity. Qed.

Lemma one_service_reachable : reachable 7 start Service_Close one_service.
Proof.
  exists world. split; [done|]. eapply rtc_l; [by apply (actor_spawn 7 start Service_Close world ∅ 1)|].
  etransitivity; [apply (alone_steps 7 start Service_Close 1 start); by rewrite lookup_insert_eq|].
  rewrite service_run, insert_insert_eq. eapply rtc_l; [apply (actor_up 7 start Service_Close _ _ 1 (service 0)); by rewrite lookup_insert_eq|].
  rewrite insert_insert_eq. reflexivity.
Qed.

(** The first process has closed its listener and not yet removed the path; the
    second has started meanwhile. *)
Definition closing_world : World := (exec 7 1 (CloseListener 0) false up_world).2.
Definition successor_world : World := (alone 7 2 start closing_world).2.
End ServiceSamples.

Lemma service_no_leak_witness :
  0 ∈ us_listeners (ServiceSamples.service 0) /\
  ((exists prg, s_threads ServiceSamples.one_service !! 1 = Some (Starting prg)) \/
   (exists prg, s_threads ServiceSamples.one_service !! 1 = Some (Stopping prg)) \/
   exists service, s_threads ServiceSamples.one_service !! 1 = Some (Up service) /\ 0 ∈ us_listeners service).
Proof.
  split; [apply list_elem_of_here|].
  refine (service_no_leak 7 true false "/run/a2a" "" ServiceSamples.one_service 1 ServiceSamples.one_service_reachable
    0 {| d_owner := 1; d_inode := 2; d_socket := Some "/run/a2a" |} _ eq_refl).
  vm_compute. reflexivity.
Defined.

(** A closing service removes the path a second time after its listener has
    already unlinked it.  When a successor has bound the path in between, this
    removes the successor's socket: the successor runs and listens, but no name
    leads to it. *)
Example closing_removes_successor :
  is_ok (alone 7 2 ServiceSamples.start ServiceSamples.closing_world).1 = true /\
  (exists i, w_names ServiceSamples.successor_world !! "/run/a2a" = Some i /\ listened ServiceSamples.successor_world i = true) /\
  let w := (exec 7 1 (Remove "/run/a2a") false ServiceSamples.successor_world).2 in
  w_names w !! "/run/a2a" = None /\ existsb (fun fd => d_owner fd.2 =? 2) (map_to_list (w_fds w)) = true.
Proof. cbv zeta. split_and!; [vm_compute; reflexivity|eexists; split; vm_compute; reflexivity|vm_compute; reflexivity|vm_compute; reflexivity]. Qed.
