(* ===== verification/PrivateRead.v ===== *)
(** * Reading files another process may replace

    The programs read credentials, the operator's configuration and source
    archives by path.  Between the calls of one such read, another process may
    change the directory in any way: every call sees a host of its own.  The
    functions are [readCredentialFile] of pkg/adapterhttp/server.go, [readConfig]
    and [requirePrivateDirectory] of cmd/tos-messenger-event-worker/main.go and
    [readPrivateSource] and [requirePrivateOwnedDirectory] of
    cmd/software-work-execute/main.go. *)

From S2P Require Import Prelude GoStd GoText DirLock.

(** The contents of the inodes beside the names. *)
Record HostView := { ho_world : World; ho_data : gmap Z bytes }.

(** What the calls of one read see; [mo_fails] are the calls that fail: lstat,
    open, stat, read. *)
Record Moments := {
  mo_eval : HostView; mo_lstat : HostView; mo_open : HostView; mo_stat : HostView; mo_read : HostView;
  mo_fails : bool * bool * bool * bool;
}.

Definition data_of (h : HostView) (i : Z) : bytes := default "" (ho_data h !! i).
Definition size_of (h : HostView) (i : Z) : Z := len (data_of h i).

(** [os.Lstat], [os.Open] (which follows links; the handle is an inode) and
    [file.Stat]. *)
Definition os_lstat (h : HostView) (p : string) (fails : bool) : option FileInfo :=
  if fails then None else match stat_name (ho_world h) p with Yes info => Some info | No _ => None end.

Definition os_open (h : HostView) (p : string) (fails : bool) : option Z :=
  if fails then None else match stat_follow 40 (ho_world h) p with Yes info => Some (fi_inode info) | No _ => None end.

Definition file_stat (h : HostView) (i : Z) (fails : bool) : option FileInfo :=
  if fails then None else (fun n => {| fi_inode := i; fi_node := n |}) <$> w_inodes (ho_world h) !! i.

(** [io.ReadAll(io.LimitReader(file, n))]. *)
Definition read_limit (h : HostView) (i : Z) (n : Z) (fails : bool) : option bytes :=
  if fails then None else Some (str_take (Z.to_nat n) (data_of h i)).

(** [filepath.EvalSymlinks(p)] returns [p]: every prefix of the path exists and
    none is a symbolic link. *)
Definition prefixes (p : string) : list string := (fun k => render (take k (components p))) <$> seq 0 (S (length (components p))).

Definition evaluates_to_itself (h : HostView) (p : string) : bool :=
  forallb (fun x => match stat_name (ho_world h) x with Yes info => negb (is_symlink (i_kind (fi_node info))) | No _ => false end) (prefixes p).

Definition clean_absolute (p : string) : bool := filepath_IsAbs p && (path_Clean p =s? p).

Definition o022 : Z := 18.
Definition o077 : Z := 63.
Definition perm_lacks (mask : Z) (info : FileInfo) : bool := Z.land (i_perm (fi_node info)) mask =? 0.

(** ** The reads *)

Definition readCredentialFile (path : string) (maximum : Z) (m : Moments) : result bytes :=
  let '(f1, f2, f3, f4) := mo_fails m in
  if negb (clean_absolute path) then Err "credential path must be absolute and clean" else
  match os_lstat (mo_lstat m) path f1 with
  | None => Err "credential must be a protected bounded regular file"
  | Some before =>
      let size := size_of (mo_lstat m) (fi_inode before) in
      if negb (kind_is KRegular before) || negb (perm_lacks o022 before) || (size <=? 0) || (maximum <? size)
      then Err "credential must be a protected bounded regular file" else
      match os_open (mo_open m) path f2 with
      | None => Err "open"
      | Some file =>
          match file_stat (mo_stat m) file f3 with
          | None => Err "credential changed while opening"
          | Some after =>
              if negb (same_file before after) then Err "credential changed while opening" else
              match read_limit (mo_read m) file (maximum + 1) f4 with
              | None => Err "credential changed outside its size bound"
              | Some raw => if maximum <? len raw then Err "credential changed outside its size bound" else Ok raw
              end
          end
      end
  end.

Section Owner.
Context (euid : Z).

Definition maxConfigBytes : Z := Z.shiftl 128 10.

(** The file part of [readConfig]: the raw bytes. *)
Definition readConfig_raw (path : string) (m : Moments) : result bytes :=
  let '(f1, f2, f3, f4) := mo_fails m in
  if negb (clean_absolute path) then Err "configuration path must be canonical and absolute" else
  if negb (evaluates_to_itself (mo_eval m) path) then Err "configuration path contains a symlink" else
  match os_lstat (mo_lstat m) path f1 with
  | None => Err "configuration must be a bounded private owned regular file"
  | Some before =>
      let size := size_of (mo_lstat m) (fi_inode before) in
      if negb (kind_is KRegular before) || negb (perm_is o600 before) || (size <=? 0) || (maxConfigBytes <? size) ||
         negb (CurrentUserOwnsSingleLink euid before)
      then Err "configuration must be a bounded private owned regular file" else
      match os_open (mo_open m) path f2 with
      | None => Err "open configuration"
      | Some file =>
          match file_stat (mo_stat m) file f3 with
          | None => Err "configuration changed while opening"
          | Some after =>
              if negb (same_file before after) || negb (perm_is o600 after) then Err "configuration changed while opening" else
              match read_limit (mo_read m) file (maxConfigBytes + 1) f4 with
              | None => Err "read complete configuration"
              | Some raw => if negb (len raw =? size_of (mo_stat m) file) then Err "read complete configuration" else Ok raw
              end
          end
      end
  end.

Definition requirePrivateDirectory (path : string) (info : option FileInfo) (at_eval : HostView) : result unit :=
  if negb (clean_absolute path) then Err "worker state directory must be canonical and absolute" else
  if negb (match info with Some i => private_dir euid i | None => false end) then Err "worker state directory must be private and owned" else
  if negb (evaluates_to_itself at_eval path) then Err "worker state directory contains a symlink" else Ok tt.

Definition requirePrivateOwnedDirectory (path : string) (info : option FileInfo) (at_eval : HostView) : result unit :=
  if negb (clean_absolute path) then Err "private directory path must be canonical and absolute" else
  if negb (match info with Some i => private_dir euid i | None => false end) then Err "directory must be private and owned" else
  if negb (evaluates_to_itself at_eval path) then Err "private directory path contains a symlink" else Ok tt.

Definition maxSourceBytes : Z := Z.shiftl 16 20.

(** [dir_seen] is what the check of the parent sees. *)
Definition readPrivateSource (path : string) (dir_seen : HostView) (m : Moments) : result bytes :=
  let '(f1, f2, f3, f4) := mo_fails m in
  if negb (clean_absolute path) then Err "source archive path must be canonical and absolute" else
  if negb (is_ok (requirePrivateOwnedDirectory (filepath_Dir path) (os_lstat dir_seen (filepath_Dir path) false) (mo_eval m)))
  then Err "source archive parent must be private and owned" else
  match os_lstat (mo_lstat m) path f1 with
  | None => Err "source archive must be a bounded private owned regular file"
  | Some before =>
      let size := size_of (mo_lstat m) (fi_inode before) in
      if negb (kind_is KRegular before) || negb (perm_lacks o077 before) || negb (CurrentUserOwns euid before) || (size <? 0) || (maxSourceBytes <? size)
      then Err "source archive must be a bounded private owned regular file" else
      match os_open (mo_open m) path f2 with
      | None => Err "open source archive"
      | Some file =>
          match file_stat (mo_stat m) file f3 with
          | None => Err "source archive changed while opening"
          | Some after =>
              if negb (same_file before after) || negb (kind_is KRegular after) || negb (perm_lacks o077 after) || negb (CurrentUserOwns euid after)
              then Err "source archive changed while opening" else
              match read_limit (mo_read m) file (maxSourceBytes + 1) f4 with
              | None => Err "read bounded source archive"
              | Some archive =>
                  if (maxSourceBytes <? len archive) || negb (len archive =? size_of (mo_stat m) file)
                  then Err "read bounded source archive" else Ok archive
              end
          end
      end
  end.
End Owner.

(** ** What a read returns *)

(** The bytes are the whole content, when they were read, of an inode that was at
    the path itself when it was checked: nobody has slipped in another file. *)
Definition content_of_checked (path : string) (m : Moments) (ok : FileInfo -> Prop) (raw : bytes) : Prop :=
  exists before, stat_name (ho_world (mo_lstat m)) path = Yes before /\ i_kind (fi_node before) = KRegular /\ ok before /\
    os_open (mo_open m) path false = Some (fi_inode before) /\ raw = data_of (mo_read m) (fi_inode before).

Lemma os_lstat_some h p fails info : os_lstat h p fails = Some info -> stat_name (ho_world h) p = Yes info.
Proof. unfold os_lstat. destruct fails; [done|]. destruct (stat_name _ _); [by intros [= ->]|done]. Qed.

Lemma os_open_some h p fails i : os_open h p fails = Some i -> os_open h p false = Some i.
Proof. unfold os_open. by destruct fails. Qed.

Lemma file_stat_same h i fails after before :
  file_stat h i fails = Some after -> same_file before after = true -> fi_inode before = i.
Proof.
  unfold file_stat, same_file. destruct fails; [done|]. intros (n & _ & ->)%fmap_Some. cbn. by intros ->%Z.eqb_eq.
Qed.

Lemma read_limit_whole h i n fails raw :
  0 <= n -> read_limit h i (n + 1) fails = Some raw -> len raw <= n -> raw = data_of h i.
Proof.
  unfold read_limit. destruct fails; [done|]. intros Hn [= <-] Hl. apply str_take_all. unfold len in Hl. rewrite str_take_length in Hl. lia.
Qed.

Lemma kind_is_spec k info : kind_is k info = true -> i_kind (fi_node info) = k.
Proof. apply bool_decide_eq_true_1. Qed.

(** The cases of one read, in the order of the calls. *)
Ltac read_cases :=
  repeat match goal with
  | |- context [mo_fails ?m] => destruct (mo_fails m) as [[[? ?] ?] ?]
  | |- (if ?b then Err _ else _) = _ -> _ => destruct b eqn:?; [intros [=]|]
  | |- (match ?o with Some _ => _ | None => Err _ end) = _ -> _ => destruct o eqn:?; [|intros [=]]
  end.

Lemma checked_content path m f1 f2 f3 f4 before file after n raw (ok : FileInfo -> Prop) :
  os_lstat (mo_lstat m) path f1 = Some before -> kind_is KRegular before = true -> ok before ->
  os_open (mo_open m) path f2 = Some file -> file_stat (mo_stat m) file f3 = Some after -> same_file before after = true ->
  0 <= n -> read_limit (mo_read m) file (n + 1) f4 = Some raw -> len raw <= n -> content_of_checked path m ok raw.
Proof.
  intros Hl Hk Hok Ho Hst Hsame Hn Hr Hlen. pose proof (file_stat_same _ _ _ _ _ Hst Hsame) as Hi.
  exists before. split_and!; [by eapply os_lstat_some|by apply kind_is_spec|done|rewrite Hi; by eapply os_open_some|].
  rewrite Hi. by eapply read_limit_whole.
Qed.

(** Whatever another process does to the path between the calls, a
    credential that is returned is the content of a regular file that was at the
    path itself, that nobody but its owner could write, with at most the allowed
    size. *)
Theorem credential_checked path maximum m raw
    (Hmax : 0 <= maximum) (Hok : readCredentialFile path maximum m = Ok raw) :
  len raw <= maximum /\ content_of_checked path m (fun before => Z.land (i_perm (fi_node before)) o022 = 0) raw.
Proof.
  revert Hok. unfold readCredentialFile. read_cases. intros [= <-]. bool_props. split; [done|].
  eapply checked_content; try done. by apply Z.eqb_eq.
Qed.

(** A source archive is the content of a file that was private to this user when
    it was checked and when it was opened, in its whole length. *)
Theorem source_checked euid path dir_seen m raw (Hok : readPrivateSource euid path dir_seen m = Ok raw) :
  len raw <= maxSourceBytes /\
  content_of_checked path m (fun before => i_uid (fi_node before) = euid /\ Z.land (i_perm (fi_node before)) o077 = 0) raw.
Proof.
  revert Hok. unfold readPrivateSource. read_cases. intros [= <-]. unfold CurrentUserOwns, perm_lacks in *. bool_props. split; [done|].
  eapply (checked_content _ _ _ _ _ _ _ _ _ maxSourceBytes); first [done | by apply Z.leb_le].
Qed.

(** The configuration is the content of a file with a single name that was
    private to this user, unless it grew over the limit while it was read. *)
Theorem config_checked euid path m raw (Hok : readConfig_raw euid path m = Ok raw) (Hlen : len raw <= maxConfigBytes) :
  content_of_checked path m (fun before => i_uid (fi_node before) = euid /\ i_nlink (fi_node before) = 1 /\ i_perm (fi_node before) = o600) raw.
Proof.
  revert Hok. unfold readConfig_raw. read_cases. intros [= <-]. unfold CurrentUserOwnsSingleLink, perm_is in *. bool_props.
  eapply (checked_content _ _ _ _ _ _ _ _ _ maxConfigBytes); first [done | by apply Z.leb_le].
Qed.

(** ** Witnesses *)

Module ReadSamples.
Definition dir_node : Inode := {| i_kind := KDirectory; i_perm := o700; i_uid := 7; i_nlink := 2 |}.
Definition file_node : Inode := {| i_kind := KRegular; i_perm := o600; i_uid := 7; i_nlink := 1 |}.
Definition link_node : Inode := {| i_kind := KSymlink "/etc/other"; i_perm := 511; i_uid := 7; i_nlink := 1 |}.
Definition inodes : gmap Z Inode := {[1 := dir_node; 2 := dir_node; 3 := file_node; 4 := file_node; 5 := link_node]}.
Definition contents : gmap Z bytes := {[3 := "the key"; 4 := "another"]}.
Definition host (key : Z) : HostView :=
  {| ho_world := {| w_names := {["/" := 1; "/etc" := 2; "/etc/key" := key; "/etc/other" := 4]}; w_inodes := inodes; w_fds := ∅; w_locks := ∅ |};
     ho_data := contents |}.
Definition steady : Moments :=
  {| mo_eval := host 3; mo_lstat := host 3; mo_open := host 3; mo_stat := host 3; mo_read := host 3; mo_fails := (false, false, false, false) |}.
(** The path becomes a link to another file before it is opened. *)
Definition swapped : Moments :=
  {| mo_eval := host 3; mo_lstat := host 3; mo_open := host 5; mo_stat := host 5; mo_read := host 5; mo_fails := (false, false, false, false) |}.
End ReadSamples.

Example swapped_refused :
  os_open (mo_open ReadSamples.swapped) "/etc/key" false = Some 4 /\
  readCredentialFile "/etc/key" 100 ReadSamples.swapped = Err "credential changed while opening" /\
  readPrivateSource 7 "/etc/key" (ReadSamples.host 3) ReadSamples.swapped = Err "source archive changed while opening" /\
  readConfig_raw 7 "/etc/key" ReadSamples.swapped = Err "configuration changed while opening".
Proof. split_and!; vm_compute; reflexivity. Qed.

Lemma credential_checked_witness :
  readCredentialFile "/etc/key" 100 ReadSamples.steady = Ok "the key" /\
  content_of_checked "/etc/key" ReadSamples.steady (fun before => Z.land (i_perm (fi_node before)) o022 = 0) "the key".
Proof.
  assert (H : readCredentialFile "/etc/key" 100 ReadSamples.steady = Ok "the key") by (vm_compute; reflexivity).
  split; [exact H|]. exact (proj2 (credential_checked "/etc/key" 100 ReadSamples.steady "the key" ltac:(lia) H)).
Defined.
