(* ===== verification/AdapterServer.v ===== *)
(** * pkg/adapterhttp: the public HTTP boundary

    [NewBoundary] wraps a handler with an authenticated, bounded entry;
    [NewServer] puts it behind TLS with credentials read from protected files.
    Overlapping requests are the steps of a transition system.  The parsers of
    certificates are parameters; the files are those of [PrivateRead]. *)

From S2P Require Import Prelude GoStd GoText Sha256 GoHttp DirLock PrivateRead.

Definition DefaultMaxRequestBytes : Z := Z.shiftl 16 20.
Definition DefaultMaxConcurrent : Z := 64.
Definition maximumRequestBytes : Z := Z.shiftl 16 20.
Definition maximumConcurrent : Z := 1024.

Record BoundaryConfig := { bc_BearerToken : string; bc_MaxRequestBytes : Z; bc_MaxConcurrent : Z }.

(** The characters carriage return, newline, tab and space. *)
Definition blanks : string := String "013" (String "010" (String "009" " ")).

(** The configuration the handler closes over. *)
Definition NewBoundary (next_nil : bool) (config : BoundaryConfig) : result BoundaryConfig :=
  let token := strings_TrimSpace (bc_BearerToken config) in
  if next_nil || (len token <? 32) || (512 <? len token) || contains_any token blanks
  then Err "a strong bounded adapter bearer token is required" else
  let maxBytes := if bc_MaxRequestBytes config =? 0 then DefaultMaxRequestBytes else bc_MaxRequestBytes config in
  let maxConcurrent := if bc_MaxConcurrent config =? 0 then DefaultMaxConcurrent else bc_MaxConcurrent config in
  if (maxBytes <=? 0) || (maximumRequestBytes <? maxBytes) || (maxConcurrent <=? 0) || (maximumConcurrent <? maxConcurrent)
  then Err "invalid public adapter resource bounds"
  else Ok {| bc_BearerToken := token; bc_MaxRequestBytes := maxBytes; bc_MaxConcurrent := maxConcurrent |}.

Definition base_headers : list (string * string) :=
  [("Cache-Control", "no-store"); ("X-Content-Type-Options", "nosniff"); ("Referrer-Policy", "no-referrer")].

Definition quote_text (s : string) : string := String "034" (s +:+ String "034" "").

(** [http.MaxBytesReader]: what the wrapped handler reads, and whether its reads
    end in an error. *)
Definition max_bytes (body : bytes) (n : Z) : bytes * bool :=
  if len body <=? n then (body, false) else (str_take (Z.to_nat n) body, true).

(** The entry, while [used] other requests are inside: the headers set so far,
    and a refusal or the request with its bounded body for the wrapped handler. *)
Definition enter_boundary (b : BoundaryConfig) (used : nat) (request : HttpRequest)
    : list (string * string) * (HttpResponse + HttpRequest * bool) :=
  if hq_Header request "Origin" <>s? ""
  then (base_headers, inl (Refused StatusForbidden "browser-origin requests are not accepted")) else
  let unauthorized := (base_headers ++ [("WWW-Authenticate", "Bearer realm=" +:+ quote_text "tos-service-provider")],
                       inl (Refused StatusUnauthorized "unauthorized")) in
  match cut_prefix (hq_Header request "Authorization") "Bearer " with
  | None => unauthorized
  | Some provided =>
      if provided <>s? bc_BearerToken b then unauthorized else
      if negb (Z.of_nat used <? bc_MaxConcurrent b)
      then (base_headers ++ [("Retry-After", "1")], inl (Refused StatusTooManyRequests "adapter concurrency limit reached")) else
      if bc_MaxRequestBytes b <? hq_ContentLength request
      then (base_headers, inl (Refused StatusRequestEntityTooLarge "request body is too large")) else
      let (body, fails) := max_bytes (hq_Body request) (bc_MaxRequestBytes b) in
      (base_headers,
       inr ({| hq_Method := hq_Method request; hq_Path := hq_Path request; hq_RawQuery := hq_RawQuery request; hq_Fragment := hq_Fragment request;
               hq_Header := hq_Header request; hq_ContentLength := hq_ContentLength request; hq_Body := body |}, fails))
  end.

(** ** Overlapping requests

    A request is refused, or is inside until the wrapped handler returns. *)
Inductive boundary_step (b : BoundaryConfig) : list HttpRequest -> list HttpRequest -> Prop :=
| step_refuse inside request headers r : enter_boundary b (length inside) request = (headers, inl r) -> boundary_step b inside inside
| step_enter inside request headers bounded fails : enter_boundary b (length inside) request = (headers, inr (bounded, fails)) ->
    boundary_step b inside (bounded :: inside)
| step_leave before request after : boundary_step b (before ++ request :: after) (before ++ after).

(** What the wrapped handler may rely on. *)
Definition authorised (b : BoundaryConfig) (request : HttpRequest) : Prop :=
  hq_Header request "Origin" = "" /\ hq_Header request "Authorization" = "Bearer " +:+ bc_BearerToken b /\
  hq_ContentLength request <= bc_MaxRequestBytes b /\ len (hq_Body request) <= bc_MaxRequestBytes b.

Lemma NewBoundary_spec next_nil config b :
  NewBoundary next_nil config = Ok b ->
  32 <= len (bc_BearerToken b) <= 512 /\ contains_any (bc_BearerToken b) blanks = false /\
  0 < bc_MaxRequestBytes b <= maximumRequestBytes /\ 0 < bc_MaxConcurrent b <= maximumConcurrent /\
  bc_BearerToken b = strings_TrimSpace (bc_BearerToken config).
Proof.
  unfold NewBoundary. set (mb := if _ =? 0 then DefaultMaxRequestBytes else _). set (mc := if _ =? 0 then DefaultMaxConcurrent else _).
  set (token := strings_TrimSpace _). destruct (next_nil || _ || _ || _) eqn:E1; [intros [=]|].
  destruct ((mb <=? 0) || _ || _ || _) eqn:E2; [intros [=]|]. intros [= <-]. cbn [bc_BearerToken bc_MaxRequestBytes bc_MaxConcurrent].
  bool_props. split_and!; done.
Qed.

Lemma max_bytes_bounded body n : 0 <= n -> len (max_bytes body n).1 <= n.
Proof.
  intros Hn. unfold max_bytes. destruct (len body <=? n) eqn:E; cbn; [by apply Z.leb_le|].
  unfold len. rewrite str_take_length. lia.
Qed.

Lemma enter_spec b used request headers bounded fails :
  0 <= bc_MaxRequestBytes b -> enter_boundary b used request = (headers, inr (bounded, fails)) ->
  authorised b bounded /\ Z.of_nat used < bc_MaxConcurrent b /\ headers = base_headers /\
  (fails = false -> hq_Body bounded = hq_Body request).
Proof.
  intros Hn. unfold enter_boundary. destruct (String.eqb_spec (hq_Header request "Origin") "") as [Ho|_]; cbn [negb]; [|intros [=]].
  destruct (cut_prefix _ _) as [provided|] eqn:Hp; [|intros [=]]. apply cut_prefix_spec in Hp.
  destruct (String.eqb_spec provided (bc_BearerToken b)) as [->|_]; cbn [negb]; [|intros [=]].
  destruct (_ <? bc_MaxConcurrent b) eqn:Hc; cbn [negb]; [|intros [=]]. apply Z.ltb_lt in Hc.
  destruct (_ <? hq_ContentLength request) eqn:Hl; [intros [=]|]. apply Z.ltb_ge in Hl.
  pose proof (max_bytes_bounded (hq_Body request) (bc_MaxRequestBytes b) Hn) as Hb.
  destruct (max_bytes _ _) as [body fails'] eqn:Hm. intros [= <- <- <-]. split_and!; try done.
  intros ->. unfold max_bytes in Hm. destruct (len _ <=? _); by injection Hm.
Qed.

(** C23. However requests overlap, the wrapped handler serves at most the
    configured number of requests at a time, at most 1024, and only requests that
    presented the operator's token, at least 32 characters without blanks, that
    do not come from a browser, and whose body is within the bound, at most
    16 MiB. *)
Theorem boundary_enforced next_nil config b inside
    (Hnew : NewBoundary next_nil config = Ok b) (Hr : rtc (boundary_step b) [] inside) :
  Z.of_nat (length inside) <= bc_MaxConcurrent b <= 1024 /\ 32 <= len (bc_BearerToken b) /\
  bc_MaxRequestBytes b <= 16777216 /\ Forall (authorised b) inside.
Proof.
  apply NewBoundary_spec in Hnew as (Ht & _ & Hm & Hc & _).
  assert (Hinv : Z.of_nat (length inside) <= bc_MaxConcurrent b /\ Forall (authorised b) inside).
  { assert (H0 : Z.of_nat (length (@nil HttpRequest)) <= bc_MaxConcurrent b /\ Forall (authorised b) []) by (split; [cbn; lia|constructor]).
    revert Hr H0. generalize (@nil HttpRequest). intros l Hr. induction Hr as [|l1 l2 l3 Hs _ IH]; [done|]. intros [Hn Hf]. apply IH.
    destruct Hs as [l1 request headers r He|l1 request headers bounded fails He|before request after].
    - done.
    - apply enter_spec in He as (Ha & Hu & _); [|lia]. split; [cbn [length]; lia|by constructor].
    - rewrite length_app in Hn |- *. cbn [length] in Hn. apply Forall_app in Hf as [Hf1 Hf2]. apply Forall_cons in Hf2 as [_ Hf2].
      split; [lia|by apply Forall_app]. }
  destruct Hinv as [Hi Hf]. split_and!; [done|apply Hc|apply Ht|apply Hm|done].
Qed.

(** ** The server *)

(** The parsers of crypto/tls and crypto/x509. *)
Class CertificateParsers := {
  Certificate : Type;
  CertPool : Type;
  X509KeyPair : bytes -> bytes -> option Certificate;
  AppendCertsFromPEM : bytes -> option CertPool;   (* the pool, when a certificate was found *)
}.

Section Server.
Context `{CertificateParsers}.

Record ServerConfig := {
  sc_Address : string;
  sc_CertificateFile : string;
  sc_PrivateKeyFile : string;
  sc_ClientCAFile : string;
  sc_Boundary : BoundaryConfig;
  sc_ReadHeaderTimeout : Z;
  sc_ReadTimeout : Z;
  sc_IdleTimeout : Z;
  sc_MaxHeaderBytes : Z;
}.

Definition VersionTLS13 : Z := 772.

(** [tc_ClientCAs] with [RequireAndVerifyClientCert] when present. *)
Record TLSConfig := { tc_MinVersion : Z; tc_Certificates : list Certificate; tc_ClientCAs : option CertPool }.

Record HttpServer := {
  sv_Addr : string;
  sv_Handler : BoundaryConfig;
  sv_TLSConfig : option TLSConfig;
  sv_ReadHeaderTimeout : Z;
  sv_ReadTimeout : Z;
  sv_IdleTimeout : Z;
  sv_MaxHeaderBytes : Z;
}.

(** What the three reads see. *)
Record Reads := { rd_certificate : Moments; rd_key : Moments; rd_ca : Moments }.

Definition certificate_limit : Z := Z.shiftl 2 20.
Definition key_limit : Z := Z.shiftl 1 20.

(** An error of the callee is replaced by the caller's text. *)
Definition replace_err {A} (m : result A) (e : string) : result A := match m with Ok a => Ok a | Err _ => Err e end.
Definition from_opt {A} (o : option A) (e : string) : result A := match o with Some a => Ok a | None => Err e end.

Definition loadTLS (certificatePath keyPath clientCAPath : string) (r : Reads) : result TLSConfig :=
  let* certificatePEM := replace_err (readCredentialFile certificatePath certificate_limit (rd_certificate r)) "read public adapter certificate" in
  let* keyPEM := replace_err (readCredentialFile keyPath key_limit (rd_key r)) "read public adapter private key" in
  let* certificate := from_opt (X509KeyPair certificatePEM keyPEM) "invalid public adapter TLS key pair" in
  let config := {| tc_MinVersion := VersionTLS13; tc_Certificates := [certificate]; tc_ClientCAs := None |} in
  if clientCAPath =s? "" then Ok config else
  let* caPEM := replace_err (readCredentialFile clientCAPath certificate_limit (rd_ca r)) "read public adapter client CA" in
  let* pool := from_opt (AppendCertsFromPEM caPEM) "public adapter client CA contains no certificate" in
  Ok {| tc_MinVersion := tc_MinVersion config; tc_Certificates := tc_Certificates config; tc_ClientCAs := Some pool |}.

Definition or_default (x d : Z) : Z := if x =? 0 then d else x.

Definition NewServer (handler_nil : bool) (config : ServerConfig) (r : Reads) : result HttpServer :=
  fail_if handler_nil "public adapter handler is required" ;;;
  fail_if (negb (bool_decide (is_Some (net_SplitHostPort (sc_Address config))))) "public adapter address must include host and port" ;;;
  let* tlsConfig := loadTLS (sc_CertificateFile config) (sc_PrivateKeyFile config) (sc_ClientCAFile config) r in
  let* bounded := NewBoundary handler_nil (sc_Boundary config) in
  let header := or_default (sc_ReadHeaderTimeout config) (5 * time_Second) in
  let read := or_default (sc_ReadTimeout config) (30 * time_Second) in
  let idle := or_default (sc_IdleTimeout config) (2 * time_Minute) in
  let maxHeader := or_default (sc_MaxHeaderBytes config) (Z.shiftl 32 10) in
  fail_if ((header <=? 0) || (30 * time_Second <? header) || (read <=? 0) || (5 * time_Minute <? read) ||
           (idle <=? 0) || (10 * time_Minute <? idle) || (maxHeader <? Z.shiftl 4 10) || (Z.shiftl 64 10 <? maxHeader))
    "invalid public adapter HTTP bounds" ;;;
  Ok {| sv_Addr := sc_Address config; sv_Handler := bounded; sv_TLSConfig := Some tlsConfig; sv_ReadHeaderTimeout := header;
        sv_ReadTimeout := read; sv_IdleTimeout := idle; sv_MaxHeaderBytes := maxHeader |}.

(** The check of [ListenAndServe] before it starts the preloaded TLS server. *)
Definition ListenAndServe (server : HttpServer) (serve : result unit) : result unit :=
  match sv_TLSConfig server with
  | Some tls => if negb (llen (tc_Certificates tls) =? 1) then Err "public adapter TLS server is not configured" else serve
  | None => Err "public adapter TLS server is not configured"
  end.

Lemma replace_err_ok {A} (m : result A) e a : replace_err m e = Ok a -> m = Ok a.
Proof. by destruct m. Qed.

Lemma from_opt_ok {A} (o : option A) e a : from_opt o e = Ok a -> o = Some a.
Proof. destruct o; [by intros [= ->]|done]. Qed.

(** The content of a protected file at the path. *)
Definition protected (path : string) (m : Moments) (raw : bytes) : Prop :=
  content_of_checked path m (fun before => Z.land (i_perm (fi_node before)) o022 = 0) raw.

Lemma readCredential_ok path n m raw : 0 <= n -> readCredentialFile path n m = Ok raw -> protected path m raw.
Proof.
  intros Hn Hr. revert Hr. unfold readCredentialFile. read_cases. intros [= <-]. bool_props.
  eapply checked_content; try done. by apply Z.eqb_eq.
Qed.

Lemma loadTLS_spec certificatePath keyPath clientCAPath r tls :
  loadTLS certificatePath keyPath clientCAPath r = Ok tls ->
  tc_MinVersion tls = VersionTLS13 /\
  (exists certPEM keyPEM certificate, protected certificatePath (rd_certificate r) certPEM /\ protected keyPath (rd_key r) keyPEM /\
     X509KeyPair certPEM keyPEM = Some certificate /\ tc_Certificates tls = [certificate]) /\
  (clientCAPath = "" /\ tc_ClientCAs tls = None \/
   clientCAPath <> "" /\ exists caPEM pool, protected clientCAPath (rd_ca r) caPEM /\ AppendCertsFromPEM caPEM = Some pool /\ tc_ClientCAs tls = Some pool).
Proof.
  unfold loadTLS. intros (certPEM & Hc%replace_err_ok & Hrest)%rbind_ok.
  apply rbind_ok in Hrest as (keyPEM & Hk%replace_err_ok & Hrest). apply rbind_ok in Hrest as (certificate & Hp%from_opt_ok & Hrest).
  apply readCredential_ok in Hc, Hk; [|by apply Z.leb_le..].
  destruct (String.eqb_spec clientCAPath "") as [->|Hne].
  - injection Hrest as <-. cbn. split_and!; [done|by exists certPEM, keyPEM, certificate|by left].
  - apply rbind_ok in Hrest as (caPEM & Hca%replace_err_ok & Hrest). apply rbind_ok in Hrest as (pool & Hpool%from_opt_ok & Hrest).
    apply readCredential_ok in Hca; [|by apply Z.leb_le]. injection Hrest as <-. cbn.
    split_and!; [done|by exists certPEM, keyPEM, certificate|right; split; [done|by exists caPEM, pool]].
Qed.

(** A server that is returned speaks TLS 1.3 with the key pair of protected
    files, requires client certificates exactly when a client authority is
    configured, has all its timeouts and header sizes within their bounds, serves
    through the boundary of its configuration, and passes the check of
    [ListenAndServe]. *)
Theorem server_hardened handler_nil config r server
    (Hnew : NewServer handler_nil config r = Ok server) :
  (exists tls, sv_TLSConfig server = Some tls /\ tc_MinVersion tls = VersionTLS13 /\
     (exists certPEM keyPEM certificate, protected (sc_CertificateFile config) (rd_certificate r) certPEM /\
        protected (sc_PrivateKeyFile config) (rd_key r) keyPEM /\ X509KeyPair certPEM keyPEM = Some certificate /\ tc_Certificates tls = [certificate]) /\
     (sc_ClientCAFile config = "" <-> tc_ClientCAs tls = None)) /\
  NewBoundary false (sc_Boundary config) = Ok (sv_Handler server) /\
  0 < sv_ReadHeaderTimeout server <= 30 * time_Second /\ 0 < sv_ReadTimeout server <= 5 * time_Minute /\
  0 < sv_IdleTimeout server <= 10 * time_Minute /\ 4096 <= sv_MaxHeaderBytes server <= 65536 /\
  (forall serve, ListenAndServe server serve = serve).
Proof.
  revert Hnew. unfold NewServer. destruct handler_nil; [intros [=]|]. cbn [fail_if rbind]. destruct (negb _); [intros [=]|]. cbn [fail_if rbind].
  intros (tls & Htls & Hrest)%rbind_ok. apply rbind_ok in Hrest as (bounded & Hb & Hrest).
  apply rbind_ok in Hrest as ([] & Hbounds & Hrest). injection Hrest as <-. apply fail_if_ok in Hbounds. bool_props.
  cbn [sv_TLSConfig sv_Handler sv_ReadHeaderTimeout sv_ReadTimeout sv_IdleTimeout sv_MaxHeaderBytes].
  pose proof (loadTLS_spec _ _ _ _ _ Htls) as (Hv & (c & k & certificate & Hc & Hk & Hp & Hlist) & Hca).
  split_and!; try done.
  - exists tls. split_and!; [done|done|by exists c, k, certificate|]. destruct Hca as [[-> ->]|(Hne & ca & pool & _ & _ & ->)]; done.
  - intros serve. unfold ListenAndServe. cbn [sv_TLSConfig]. by rewrite Hlist.
Qed.
End Server.

(** ** Witnesses *)

Module BoundarySamples.
Definition token : string := "0123456789abcdef0123456789abcdef".
Definition config : BoundaryConfig := {| bc_BearerToken := token +:+ " "; bc_MaxRequestBytes := 8; bc_MaxConcurrent := 0 |}.
Definition boundary : BoundaryConfig := {| bc_BearerToken := token; bc_MaxRequestBytes := 8; bc_MaxConcurrent := 64 |}.
Definition request (authorization : string) (body : bytes) : HttpRequest :=
  {| hq_Method := "POST"; hq_Path := "/"; hq_RawQuery := ""; hq_Fragment := "";
     hq_Header := fun name => if name =s? "Authorization" then authorization else ""; hq_ContentLength := -1; hq_Body := body |}.
Definition entered : HttpRequest := request ("Bearer " +:+ token) "12345678".

#[export] Instance parsers : CertificateParsers := {|
  Certificate := bytes * bytes; CertPool := bytes; X509KeyPair c k := Some (c, k); AppendCertsFromPEM b := Some b |}.

Definition server_config : ServerConfig :=
  {| sc_Address := "127.0.0.1:8443"; sc_CertificateFile := "/etc/key"; sc_PrivateKeyFile := "/etc/other"; sc_ClientCAFile := "";
     sc_Boundary := config; sc_ReadHeaderTimeout := 0; sc_ReadTimeout := 0; sc_IdleTimeout := 0; sc_MaxHeaderBytes := 0 |}.
Definition reads : Reads := {| rd_certificate := ReadSamples.steady; rd_key := ReadSamples.steady; rd_ca := ReadSamples.steady |}.

Lemma boundary_new : NewBoundary false config = Ok boundary.
Proof. vm_compute. reflexivity. Qed.

(** A body over the bound is cut off. *)
Lemma one_inside : rtc (boundary_step boundary) [] [entered].
Proof.
  apply rtc_once. refine (step_enter boundary [] (request ("Bearer " +:+ token) "123456789") base_headers entered true _). reflexivity.
Qed.
End BoundarySamples.
#[local] Existing Instance BoundarySamples.parsers.

Lemma boundary_enforced_witness :
  NewBoundary false BoundarySamples.config = Ok BoundarySamples.boundary /\ Forall (authorised BoundarySamples.boundary) [BoundarySamples.entered].
Proof.
  split; [exact BoundarySamples.boundary_new|].
  destruct (boundary_enforced false BoundarySamples.config BoundarySamples.boundary [BoundarySamples.entered] BoundarySamples.boundary_new BoundarySamples.one_inside)
    as (_ & _ & _ & Hf). exact Hf.
Defined.

Lemma server_hardened_witness :
  exists server, NewServer false BoundarySamples.server_config BoundarySamples.reads = Ok server /\
    4096 <= sv_MaxHeaderBytes server <= 65536.
Proof.
  destruct (NewServer false BoundarySamples.server_config BoundarySamples.reads) as [server|e] eqn:E.
  - exists server. split; [reflexivity|].
    destruct (server_hardened false BoundarySamples.server_config BoundarySamples.reads server E) as (_ & _ & _ & _ & _ & Hb & _). exact Hb.
  - exfalso. vm_compute in E. discriminate E.
Defined.
