(* ===== verification/OutcomeEvidence.v ===== *)
(** * pkg/commercegate/outcome_evidence.go and outcome_metering.go

    The gate exports the record of an execution as an evidence object and as a
    signed-to-be assertion that cites it, and the usage of a run as a meter
    object.  [ExportOutcomeEvidence] reads the record under the gate's lock;
    [BuildOperationOutcomeArtifacts] reads it a second time after the lock was
    released, so that other operations of the gate may run in between.

    The commerce module's sorting, digests, encodings and validation are the
    class [OutcomeCommerce]; a time is a number of Unix seconds, none for the
    zero time. *)

From S2P Require Import Prelude GoStd Sha256 FS Json RecordStore GoHttp Executor GatePlan CommerceGate GateProtocol GateRuns.

Definition ExecutionOutcomeEvidenceProfileV1 : string := "tos.ai.execution-gate-evidence.v1".
Definition ExecutionResourceMeterEvidenceProfileV1 : string := "tos.ai.execution-resource-meter.v1".

Record ExecutionOutcomeEvidence := {
  oe_SchemaVersion : Z;
  oe_ExecutionID : string;
  oe_AgreementBodyDigest : string;
  oe_ObligationID : string;
  oe_PlanDigest : string;
  oe_State : string;
  oe_StateRevision : Z;
  oe_OutcomeDigest : string;
  oe_PrepareActionID : string;
  oe_PrepareRequestDigest : string;
  oe_StartActionID : string;
  oe_StartRequestDigest : string;
  oe_ObservedAtUnix : Z;
}.

Record ExecutionResourceMeterEvidence := {
  rm_SchemaVersion : Z;
  rm_ExecutionID : string;
  rm_CPUMillis : Z;
  rm_PeakMemoryBytes : Z;
  rm_DiskWrittenBytes : Z;
  rm_DurationNanoseconds : Z;
  rm_MeterImplementationDigest : string;
  rm_ObservedAtUnix : Z;
}.

(** The structures of the commerce module, with the fields the gate sets. *)
Record ProofRef := { pr_ProofProfileURI : string; pr_ObjectDigest : string; pr_CanonicalSize : Z }.

Record EvidenceItem := {
  ei_EvidenceRole : string;
  ei_EvidenceProfileURI : string;
  ei_SourceObjectProfileURI : string;
  ei_SourceObjectDigest : string;
  ei_ObjectDigest : string;
  ei_CanonicalSize : Z;
  ei_MediaType : string;
  ei_IssuerDescriptor : string;
  ei_SubjectDescriptor : string;
  ei_ClaimedObservationTimeUnix : Z;
  ei_AuthorityTimeProofDigest : string;
  ei_IssuerQualificationProofDigest : string;
  ei_Visibility : string;
  ei_AudienceDigest : string;
  ei_RetentionPolicyDigest : string;
  ei_RetrievalPolicyDigest : string;
}.

Record EvidenceManifest := {
  em_SchemaVersion : Z;
  em_ManifestPurpose : string;
  em_AuthorityProofRefs : list ProofRef;
  em_EvidenceItems : list EvidenceItem;
}.

Record GateExecutionObservation := {
  go_ExecutionID : string;
  go_AgreementBodyDigest : string;
  go_ObligationID : string;
  go_PlanDigest : string;
  go_GatePolicyDigest : string;
  go_InputSetDigest : string;
  go_ResourceSetDigest : string;
  go_CredentialSetDigest : string;
  go_EffectSetDigest : string;
  go_State : string;
  go_StateRevision : Z;
  go_StartActionID : string;
  go_StartRequestDigest : string;
  go_AuthoritativeRecord : string;
  go_ObservedAtUnix : Z;
}.

Record OutcomeEvidenceDescriptor := { od_CanonicalEvidence : bytes; od_EvidenceItem : EvidenceItem }.

(** The functions of the module.  A sort returns the sorted slice and its error. *)
Class OutcomeCommerce := {
  ProofMaterial : Type;
  pm_ProofProfileURI : ProofMaterial -> string;
  pm_CanonicalObject : ProofMaterial -> bytes;
  ExtensionSet : Type;
  EventBody : Type;
  OutcomeAuthorityTimeProofProfile : string;
  OutcomeIssuerQualificationProofProfile : string;
  SortMaterials : list ProofMaterial -> list ProofMaterial * option string;
  SortRefs : list ProofRef -> list ProofRef * option string;
  ProofObjectDigest : ProofMaterial -> result string;
  ValidateManifest : EvidenceManifest -> result unit;
  ValidateObservation : GateExecutionObservation -> result unit;
  Marshal_evidence : ExecutionOutcomeEvidence -> result bytes;
  Digest_evidence : string -> ExecutionOutcomeEvidence -> result string;
  Marshal_meter : ExecutionResourceMeterEvidence -> result bytes;
  Digest_meter : string -> ExecutionResourceMeterEvidence -> result string;
  Marshal_observation : GateExecutionObservation -> result bytes;
  Digest_resources : string -> list FileBinding -> list NetworkBinding -> result string;
  Digest_credentials : string -> list CredentialBinding -> result string;
  Digest_effects : string -> list EffectBinding -> result string;
  EmptyExtensionSet : ExtensionSet;
  BuildEvent : string -> bytes -> EvidenceManifest -> ExtensionSet -> result EventBody;   (* for the subject execution *)
  VerifyBundle : EventBody -> bytes -> EvidenceManifest -> ExtensionSet -> list ProofMaterial -> result unit;
}.

Section Outcome.
Context `{Commerce} `{Json gateRecord} `{OutcomeCommerce}.

Record ArtifactBundle := {
  ab_AssertionPayload : bytes;
  ab_EvidenceManifest : EvidenceManifest;
  ab_ExtensionSet : ExtensionSet;
  ab_AuthorityProofs : list ProofMaterial;
}.

(** What the caller describes of an evidence object. *)
Record Description := {
  de_issuerDescriptor : string;
  de_visibility : string;
  de_audienceDigest : string;
  de_retentionPolicyDigest : string;
  de_retrievalPolicyDigest : string;
}.

Definition canonicalOutcomeDigest (value : string) : string :=
  if (len value =? 71) && (7 <? len value) && (str_take 7 value =s? "sha256:") then value else "".

(** [uint64(observedAt.UTC().Unix())]. *)
Definition unix_u64 (seconds : Z) : Z := wrap64 seconds.

Definition evidence_of (executionID : string) (entry : gateRecord) (observedAt : Z) : ExecutionOutcomeEvidence :=
  {| oe_SchemaVersion := 1; oe_ExecutionID := executionID;
     oe_AgreementBodyDigest := pl_AgreementBodyDigest (gr_Plan entry); oe_ObligationID := pl_ExecutionObligationID (gr_Plan entry);
     oe_PlanDigest := gr_PlanDigest entry; oe_State := gr_State entry; oe_StateRevision := gr_StateRevision entry;
     oe_OutcomeDigest := canonicalOutcomeDigest (gr_OutcomeDigest entry); oe_PrepareActionID := gr_PrepareActionID entry;
     oe_PrepareRequestDigest := gr_PrepareRequestDigest entry; oe_StartActionID := canonicalOutcomeDigest (gr_StartActionID entry);
     oe_StartRequestDigest := canonicalOutcomeDigest (gr_StartRequestDigest entry); oe_ObservedAtUnix := unix_u64 observedAt |}.

Definition item_of (role profile source digest : string) (canonical : bytes) (d : Description) (subject : string) (observedAt : Z)
    (timeDigest qualificationDigest : string) : EvidenceItem :=
  {| ei_EvidenceRole := role; ei_EvidenceProfileURI := profile; ei_SourceObjectProfileURI := source; ei_SourceObjectDigest := digest;
     ei_ObjectDigest := digest; ei_CanonicalSize := len canonical; ei_MediaType := "application/cbor";
     ei_IssuerDescriptor := de_issuerDescriptor d; ei_SubjectDescriptor := subject; ei_ClaimedObservationTimeUnix := unix_u64 observedAt;
     ei_AuthorityTimeProofDigest := timeDigest; ei_IssuerQualificationProofDigest := qualificationDigest;
     ei_Visibility := de_visibility d; ei_AudienceDigest := de_audienceDigest d; ei_RetentionPolicyDigest := de_retentionPolicyDigest d;
     ei_RetrievalPolicyDigest := de_retrievalPolicyDigest d |}.

(** [ExportOutcomeEvidence] after the record was read. *)
Definition export_record (executionID : string) (d : Description) (subject timeDigest qualificationDigest : string) (timeSize qualificationSize : Z)
    (observedAt : Z) (entry : gateRecord) : result OutcomeEvidenceDescriptor :=
  fail_if ((gr_StateRevision entry =? 0) || (pl_ExecutionID (gr_Plan entry) <>s? executionID)) "execution Gate record is inconsistent" ;;;
  let evidence := evidence_of executionID entry observedAt in
  let* canonical := Marshal_evidence evidence in
  let* digest := Digest_evidence "tos.ai.execution-gate-evidence.v1" evidence in
  let item := item_of "authoritative_resolution" ExecutionOutcomeEvidenceProfileV1 "tos.ai.local-execution-gate.v1" digest canonical d subject
                observedAt timeDigest qualificationDigest in
  let refs := [ {| pr_ProofProfileURI := OutcomeAuthorityTimeProofProfile; pr_ObjectDigest := timeDigest; pr_CanonicalSize := timeSize |};
                {| pr_ProofProfileURI := OutcomeIssuerQualificationProofProfile; pr_ObjectDigest := qualificationDigest; pr_CanonicalSize := qualificationSize |} ] in
  ValidateManifest {| em_SchemaVersion := 1; em_ManifestPurpose := "gate_export_validation"; em_AuthorityProofRefs := (SortRefs refs).1;
                      em_EvidenceItems := [item] |} ;;;
  Ok {| od_CanonicalEvidence := canonical; od_EvidenceItem := item |}.

Definition ExportOutcomeEvidence (g : Gate) (executionID : string) (d : Description) (subject timeDigest qualificationDigest : string)
    (timeSize qualificationSize : Z) (observedAt : option Z) : IO (result OutcomeEvidenceDescriptor) :=
  match observedAt with
  | None => mret (Err "execution outcome evidence request is invalid")
  | Some now =>
      if negb (g_open g) || (executionID =s? "") then mret (Err "execution outcome evidence request is invalid") else
      let! entry := readRecord (gate_path g executionID) in
      mret (export_record executionID d subject timeDigest qualificationDigest timeSize qualificationSize now entry)
  end.

(** The loop over the sorted proofs: their references and the digest of each
    profile. *)
Fixpoint collect_refs (proofs : list ProofMaterial) (timeDigest qualificationDigest : string)
    : result (list ProofRef * string * string) :=
  match proofs with
  | [] => Ok ([], timeDigest, qualificationDigest)
  | material :: rest =>
      let* digest := ProofObjectDigest material in
      let ref := {| pr_ProofProfileURI := pm_ProofProfileURI material; pr_ObjectDigest := digest; pr_CanonicalSize := len (pm_CanonicalObject material) |} in
      let* digests :=
        (if pm_ProofProfileURI material =s? OutcomeAuthorityTimeProofProfile then Ok (digest, qualificationDigest)
         else if pm_ProofProfileURI material =s? OutcomeIssuerQualificationProofProfile then Ok (timeDigest, digest)
         else Err "Gate outcome authority proof profile is unsupported") in
      let* collected := collect_refs rest digests.1 digests.2 in
      Ok (ref :: collected.1.1, collected.1.2, collected.2)
  end.

Definition proofSize (refs : list ProofRef) (digest : string) : Z :=
  match list_find (fun ref => pr_ObjectDigest ref = digest) refs with Some (_, ref) => pr_CanonicalSize ref | None => 0 end.

Record Proofs := { ps_proofs : list ProofMaterial; ps_refs : list ProofRef; ps_time : string; ps_qualification : string }.

Definition prepare_proofs (gatePolicyDigest : string) (authorityProofs : list ProofMaterial) : result Proofs :=
  fail_if (negb (validDigest gatePolicyDigest) || negb (llen authorityProofs =? 2)) "Gate outcome artifact request is incomplete" ;;;
  let '(proofs, sortErr) := SortMaterials authorityProofs in
  match sortErr with
  | Some e => Err e
  | None =>
      let* collected := collect_refs proofs "" "" in
      let '(refs, timeDigest, qualificationDigest) := collected in
      let '(refs, refErr) := SortRefs refs in
      fail_if ((timeDigest =s? "") || (qualificationDigest =s? "") || bool_decide (is_Some refErr)) "Gate outcome requires one proof of each authority profile" ;;;
      Ok {| ps_proofs := proofs; ps_refs := refs; ps_time := timeDigest; ps_qualification := qualificationDigest |}
  end.

Definition observation_of (executionID gatePolicyDigest resourceDigest credentialDigest effectDigest : string) (entry : gateRecord)
    (descriptor : OutcomeEvidenceDescriptor) (observedAt : Z) : GateExecutionObservation :=
  {| go_ExecutionID := executionID; go_AgreementBodyDigest := pl_AgreementBodyDigest (gr_Plan entry);
     go_ObligationID := pl_ExecutionObligationID (gr_Plan entry); go_PlanDigest := gr_PlanDigest entry; go_GatePolicyDigest := gatePolicyDigest;
     go_InputSetDigest := pl_AcceptedInputManifestDigest (gr_Plan entry); go_ResourceSetDigest := resourceDigest;
     go_CredentialSetDigest := credentialDigest; go_EffectSetDigest := effectDigest; go_State := strings_ToLower (gr_State entry);
     go_StateRevision := gr_StateRevision entry; go_StartActionID := gr_StartActionID entry; go_StartRequestDigest := gr_StartRequestDigest entry;
     go_AuthoritativeRecord := ei_ObjectDigest (od_EvidenceItem descriptor); go_ObservedAtUnix := unix_u64 observedAt |}.

(** [BuildOperationOutcomeArtifacts] after the second read of the record. *)
Definition build_artifacts (executionID gatePolicyDigest : string) (p : Proofs) (descriptor : OutcomeEvidenceDescriptor) (observedAt : Z)
    (entry : gateRecord) : result (EventBody * ArtifactBundle) :=
  let* resourceDigest := Digest_resources "tos.ai.execution-resource-set.v1" (pl_Files (gr_Plan entry)) (pl_NetworkBindings (gr_Plan entry)) in
  let* credentialDigest := Digest_credentials "tos.ai.execution-credential-set.v1" (pl_CredentialBindings (gr_Plan entry)) in
  let* effectDigest := Digest_effects "tos.ai.execution-effect-set.v1" (pl_EffectBindings (gr_Plan entry)) in
  let assertion := observation_of executionID gatePolicyDigest resourceDigest credentialDigest effectDigest entry descriptor observedAt in
  match Marshal_observation assertion, ValidateObservation assertion with
  | Ok assertionPayload, Ok _ =>
      let manifest := {| em_SchemaVersion := 1; em_ManifestPurpose := "gate_execution_assertion"; em_AuthorityProofRefs := ps_refs p;
                         em_EvidenceItems := [od_EvidenceItem descriptor] |} in
      let* event := BuildEvent executionID assertionPayload manifest EmptyExtensionSet in
      VerifyBundle event assertionPayload manifest EmptyExtensionSet (ps_proofs p) ;;;
      Ok (event, {| ab_AssertionPayload := assertionPayload; ab_EvidenceManifest := manifest; ab_ExtensionSet := EmptyExtensionSet;
                    ab_AuthorityProofs := ps_proofs p |})
  | _, _ => Err "Gate outcome assertion is invalid"
  end.

(** The whole call; [between] is what other calls of the gate do while the lock
    is free between the two reads. *)
Definition BuildOperationOutcomeArtifacts (g : Gate) (executionID : string) (d : Description) (gatePolicyDigest : string)
    (authorityProofs : list ProofMaterial) (observedAt : option Z) (between : IO unit) : IO (result (EventBody * ArtifactBundle)) :=
  match prepare_proofs gatePolicyDigest authorityProofs with
  | Err e => mret (Err e)
  | Ok p =>
      let! descriptor := ExportOutcomeEvidence g executionID d executionID (ps_time p) (ps_qualification p)
                           (proofSize (ps_refs p) (ps_time p)) (proofSize (ps_refs p) (ps_qualification p)) observedAt in
      _ ← between;
      let! entry := readRecord (gate_path g executionID) in
      mret (build_artifacts executionID gatePolicyDigest p descriptor (default 0 observedAt) entry)
  end.

Definition BuildExecutionResourceMeterEvidence (executionID : string) (usage : Usage) (meterImplementationDigest : string) (d : Description)
    (timeDigest qualificationDigest : string) (observedAt : option Z) : result OutcomeEvidenceDescriptor :=
  match observedAt with
  | None => Err "execution resource-meter evidence is invalid"
  | Some now =>
      fail_if ((executionID =s? "") || (us_Duration usage <=? 0) || (wrap64 (us_Duration usage) =? 0) || negb (validDigest meterImplementationDigest))
        "execution resource-meter evidence is invalid" ;;;
      let evidence := {| rm_SchemaVersion := 1; rm_ExecutionID := executionID; rm_CPUMillis := us_CPUMillis usage; rm_PeakMemoryBytes := us_PeakMemory usage;
                         rm_DiskWrittenBytes := us_DiskWritten usage; rm_DurationNanoseconds := wrap64 (us_Duration usage);
                         rm_MeterImplementationDigest := meterImplementationDigest; rm_ObservedAtUnix := unix_u64 now |} in
      let* canonical := Marshal_meter evidence in
      let* digest := Digest_meter "tos.ai.execution-resource-meter-evidence.v1" evidence in
      Ok {| od_CanonicalEvidence := canonical;
            od_EvidenceItem := item_of "cost_source" ExecutionResourceMeterEvidenceProfileV1 "tos.ai.executor-usage.v1" digest canonical d executionID now
                                 timeDigest qualificationDigest |}
  end.

(** ** Reading a record *)

Lemma bind_done {A B} (m : IO A) (k : A -> IO B) w b w' :
  (m ≫= k) w = (Done b, w') -> exists a w1, m w = (Done a, w1) /\ k a w1 = (Done b, w').
Proof. unfold mbind, io_bind. destruct (m w) as [[a|] w1]; [|done]. intros Hk. by exists a, w1. Qed.

Lemma ebind_done {A B} (m : IO (result A)) (k : A -> IO (result B)) w b w' :
  ebind m k w = (Done (Ok b), w') -> exists a w1, m w = (Done (Ok a), w1) /\ k a w1 = (Done (Ok b), w').
Proof. unfold ebind. intros ([a|e] & w1 & Hm & Hk)%bind_done; [by exists a, w1|done]. Qed.

Lemma op_reads {A} (f : disk -> sys A) w r w' :
  op (fun d => (f d, d)) w = (Done r, w') -> w_disk w' = w_disk w /\ (r = f (w_disk w) \/ r = SErr EIO).
Proof.
  intros (x & w1 & Hp & Hk)%bind_done. assert (Hd : w_disk w1 = w_disk w).
  { unfold pop in Hp. destruct (w_script w) as [|[] script]; by simplify_eq. }
  destruct x; cbn in Hk; injection Hk as <- <-; cbn; rewrite ?Hd; auto.
Qed.

(** A record that was read is what the file holds. *)
Lemma readRecord_reads p w entry w' :
  readRecord p w = (Done (Ok entry), w') ->
  w_disk w' = w_disk w /\ valid_record entry = true /\ exists i, d_live (w_disk w) !! p = Some i /\ json_unmarshal (i_data i) = Some entry.
Proof.
  intros (info & w1 & Hl & Hk)%bind_done. apply op_reads in Hl as [Hd1 Hinfo]. destruct info as [i|e]; [|done].
  match type of Hk with (if ?b then _ else _) _ = _ => destruct b end; [done|].
  apply bind_done in Hk as (raw & w2 & Hr & Hk). apply op_reads in Hr as [Hd2 Hraw]. injection Hk as Hk <-.
  split; [by rewrite Hd2|]. destruct raw as [raw|e]; [|done]. destruct Hraw as [Hraw|]; [|done]. rewrite Hd1 in Hraw.
  destruct (d_live (w_disk w) !! p) as [i'|] eqn:Hp; [|done]. injection Hraw as ->.
  destruct (json_unmarshal (i_data i')) as [e|] eqn:Hu; [|done]. destruct (valid_record e) eqn:Hv; [|done]. cbn [negb] in Hk.
  destruct (negb (valid_effects _)); [done|]. injection Hk as ->. split; [done|]. by exists i'.
Qed.

(** ** The proofs *)

Definition ref_of (m : ProofMaterial) (digest : string) : ProofRef :=
  {| pr_ProofProfileURI := pm_ProofProfileURI m; pr_ObjectDigest := digest; pr_CanonicalSize := len (pm_CanonicalObject m) |}.

(** One proof of each profile, with the digests of their objects. *)
Definition one_of_each (proofs : list ProofMaterial) (p : Proofs) : Prop :=
  exists mt mq, proofs ≡ₚ [mt; mq] /\ pm_ProofProfileURI mt = OutcomeAuthorityTimeProofProfile /\
    pm_ProofProfileURI mq = OutcomeIssuerQualificationProofProfile /\ ProofObjectDigest mt = Ok (ps_time p) /\
    ProofObjectDigest mq = Ok (ps_qualification p) /\ ps_refs p ≡ₚ [ref_of mt (ps_time p); ref_of mq (ps_qualification p)] /\
    ps_proofs p ≡ₚ proofs.

Lemma collect_one m rest t q refs t' q' :
  collect_refs (m :: rest) t q = Ok (refs, t', q') ->
  exists digest refs', ProofObjectDigest m = Ok digest /\ refs = ref_of m digest :: refs' /\
    (pm_ProofProfileURI m = OutcomeAuthorityTimeProofProfile /\ collect_refs rest digest q = Ok (refs', t', q') \/
     pm_ProofProfileURI m = OutcomeIssuerQualificationProofProfile /\ collect_refs rest t digest = Ok (refs', t', q')).
Proof.
  cbn [collect_refs]. intros (digest & Hd & Hrest)%rbind_ok. apply rbind_ok in Hrest as ([d1 d2] & Hs & Hrest).
  apply rbind_ok in Hrest as ([[refs' a] b] & Hc & Hrest). injection Hrest as <- <- <-. exists digest, refs'. split_and!; [done|done|].
  destruct (String.eqb_spec (pm_ProofProfileURI m) OutcomeAuthorityTimeProofProfile) as [->|_]; [left; by injection Hs as -> ->|].
  destruct (String.eqb_spec (pm_ProofProfileURI m) OutcomeIssuerQualificationProofProfile) as [->|_]; [right; by injection Hs as -> ->|done].
Qed.

Context (Hrefs : forall l, (SortRefs l).1 ≡ₚ l) (Hmaterials : forall l, (SortMaterials l).1 ≡ₚ l).

Lemma prepare_proofs_spec gatePolicyDigest proofs p :
  prepare_proofs gatePolicyDigest proofs = Ok p -> validDigest gatePolicyDigest = true /\ one_of_each proofs p.
Proof.
  unfold prepare_proofs. intros ([] & Hg%fail_if_ok & Hrest)%rbind_ok. apply orb_false_iff in Hg as [Hg%negb_false_iff Hn%negb_false_iff].
  split; [done|]. apply Z.eqb_eq in Hn. pose proof (Hmaterials proofs) as Hm. destruct (SortMaterials proofs) as [sorted [e|]]; [done|]. cbn in Hm.
  apply rbind_ok in Hrest as ([[refs t] q] & Hc & Hrest). pose proof (Hrefs refs) as Hr. destruct (SortRefs refs) as [refs' refErr]. cbn in Hr.
  apply rbind_ok in Hrest as ([] & Hb%fail_if_ok & Hrest). injection Hrest as <-.
  apply orb_false_iff in Hb as [Hb _]. apply orb_false_iff in Hb as [Ht Hq]. apply String.eqb_neq in Ht, Hq.
  assert (Hlen : length sorted = 2%nat) by (apply Permutation_length in Hm; rewrite Hm; unfold llen in Hn; lia).
  destruct sorted as [|m1 [|m2 [|]]]; try done.
  apply collect_one in Hc as (d1 & r1 & Hd1 & -> & [[Hp1 Hc]|[Hp1 Hc]]);
    apply collect_one in Hc as (d2 & r2 & Hd2 & -> & [[Hp2 Hc]|[Hp2 Hc]]); injection Hc as <- <- <-; try done.
  - exists m1, m2. split_and!; done.
  - exists m2, m1. split_and!; try done.
    + rewrite <- Hm. apply Permutation_swap.
    + cbn. rewrite Hr. apply Permutation_swap.
Qed.

(** ** Theorems *)

(** The assertion and the evidence object say the same of the execution. *)
Lemma validDigest_canonical value : validDigest value = true -> canonicalOutcomeDigest value = value.
Proof.
  unfold validDigest, canonicalOutcomeDigest. intros [[Hl Hp]%andb_true_iff _]%andb_true_iff. rewrite Hl, Hp.
  apply Z.eqb_eq in Hl. by rewrite Hl.
Qed.

(** The identifiers of a started execution are exported as they are. *)
Lemma valid_record_start entry :
  valid_record entry = true ->
  canonicalOutcomeDigest (gr_StartActionID entry) = gr_StartActionID entry /\
  canonicalOutcomeDigest (gr_StartRequestDigest entry) = gr_StartRequestDigest entry.
Proof.
  unfold valid_record. rewrite !andb_true_iff, negb_true_iff. intros [[_ Heq%Bool.eqb_prop] Hv].
  destruct (String.eqb_spec (gr_StartActionID entry) "") as [->|_].
  - symmetry in Heq. apply String.eqb_eq in Heq. by rewrite Heq.
  - cbn [negb andb] in Hv. apply negb_true_iff, orb_false_iff in Hv as [Ha%negb_false_iff Hr%negb_false_iff]. by split; apply validDigest_canonical.
Qed.

(** The evidence object says of an execution what the gate's record says; an
    outcome that is not a digest is left out. *)
Record evidence_says (executionID : string) (entry : gateRecord) (now : Z) (e : ExecutionOutcomeEvidence) : Prop := {
  es_version : oe_SchemaVersion e = 1;
  es_execution : oe_ExecutionID e = executionID;
  es_agreement : oe_AgreementBodyDigest e = pl_AgreementBodyDigest (gr_Plan entry) /\ oe_ObligationID e = pl_ExecutionObligationID (gr_Plan entry);
  es_plan : oe_PlanDigest e = gr_PlanDigest entry;
  es_state : oe_State e = gr_State entry /\ oe_StateRevision e = gr_StateRevision entry;
  es_outcome : oe_OutcomeDigest e = gr_OutcomeDigest entry \/ (oe_OutcomeDigest e = "" /\ validDigest (gr_OutcomeDigest entry) = false);
  es_prepare : oe_PrepareActionID e = gr_PrepareActionID entry /\ oe_PrepareRequestDigest e = gr_PrepareRequestDigest entry;
  es_start : oe_StartActionID e = gr_StartActionID entry /\ oe_StartRequestDigest e = gr_StartRequestDigest entry;
  es_time : oe_ObservedAtUnix e = wrap64 now;
}.

(** The assertion says the same, binds the policy and the inputs, resources,
    credentials and effects of the plan, and cites the evidence object. *)
Record assertion_says (executionID policy : string) (entry : gateRecord) (now : Z) (evidenceDigest : string)
    (o : GateExecutionObservation) : Prop := {
  as_execution : go_ExecutionID o = executionID;
  as_agreement : go_AgreementBodyDigest o = pl_AgreementBodyDigest (gr_Plan entry) /\ go_ObligationID o = pl_ExecutionObligationID (gr_Plan entry);
  as_plan : go_PlanDigest o = gr_PlanDigest entry;
  as_policy : go_GatePolicyDigest o = policy;
  as_inputs : go_InputSetDigest o = pl_AcceptedInputManifestDigest (gr_Plan entry);
  as_resources : Digest_resources "tos.ai.execution-resource-set.v1" (pl_Files (gr_Plan entry)) (pl_NetworkBindings (gr_Plan entry)) =
    Ok (go_ResourceSetDigest o);
  as_credentials : Digest_credentials "tos.ai.execution-credential-set.v1" (pl_CredentialBindings (gr_Plan entry)) = Ok (go_CredentialSetDigest o);
  as_effects : Digest_effects "tos.ai.execution-effect-set.v1" (pl_EffectBindings (gr_Plan entry)) = Ok (go_EffectSetDigest o);
  as_state : go_State o = strings_ToLower (gr_State entry) /\ go_StateRevision o = gr_StateRevision entry;
  as_start : go_StartActionID o = gr_StartActionID entry /\ go_StartRequestDigest o = gr_StartRequestDigest entry;
  as_cites : go_AuthoritativeRecord o = evidenceDigest;
  as_time : go_ObservedAtUnix o = wrap64 now;
}.

(** The item that describes the evidence object. *)
Record item_says (executionID : string) (d : Description) (now : Z) (p : Proofs) (evidenceDigest : string) (canonical : bytes)
    (item : EvidenceItem) : Prop := {
  is_role : ei_EvidenceRole item = "authoritative_resolution" /\ ei_EvidenceProfileURI item = "tos.ai.execution-gate-evidence.v1" /\
    ei_SourceObjectProfileURI item = "tos.ai.local-execution-gate.v1" /\ ei_MediaType item = "application/cbor";
  is_object : ei_ObjectDigest item = evidenceDigest /\ ei_SourceObjectDigest item = evidenceDigest /\ ei_CanonicalSize item = len canonical;
  is_parties : ei_IssuerDescriptor item = de_issuerDescriptor d /\ ei_SubjectDescriptor item = executionID;
  is_time : ei_ClaimedObservationTimeUnix item = wrap64 now;
  is_proofs : ei_AuthorityTimeProofDigest item = ps_time p /\ ei_IssuerQualificationProofDigest item = ps_qualification p;
  is_access : ei_Visibility item = de_visibility d /\ ei_AudienceDigest item = de_audienceDigest d /\
    ei_RetentionPolicyDigest item = de_retentionPolicyDigest d /\ ei_RetrievalPolicyDigest item = de_retrievalPolicyDigest d;
}.

Lemma evidence_of_says executionID entry now : valid_record entry = true -> evidence_says executionID entry now (evidence_of executionID entry now).
Proof.
  intros Hv. apply valid_record_start in Hv as [Hsa Hsr]. constructor; try done. cbn [evidence_of oe_OutcomeDigest].
  destruct (validDigest (gr_OutcomeDigest entry)) eqn:Hd; [left; by apply validDigest_canonical|].
  unfold canonicalOutcomeDigest. case_match; auto.
Qed.

Lemma build_artifacts_ok executionID policy p descriptor now entry event bundle :
  build_artifacts executionID policy p descriptor now entry = Ok (event, bundle) ->
  exists observation, assertion_says executionID policy entry now (ei_ObjectDigest (od_EvidenceItem descriptor)) observation /\
    Marshal_observation observation = Ok (ab_AssertionPayload bundle) /\ ValidateObservation observation = Ok tt /\
    em_AuthorityProofRefs (ab_EvidenceManifest bundle) = ps_refs p /\ em_EvidenceItems (ab_EvidenceManifest bundle) = [od_EvidenceItem descriptor] /\
    ab_AuthorityProofs bundle = ps_proofs p /\
    VerifyBundle event (ab_AssertionPayload bundle) (ab_EvidenceManifest bundle) (ab_ExtensionSet bundle) (ab_AuthorityProofs bundle) = Ok tt.
Proof.
  unfold build_artifacts. intros (r & Hres & Hrest)%rbind_ok. apply rbind_ok in Hrest as (c & Hcred & Hrest). apply rbind_ok in Hrest as (f & Heff & Hrest).
  set (o := observation_of _ _ _ _ _ _ _ _) in *. destruct (Marshal_observation o) as [payload|] eqn:Hm; [|done].
  destruct (ValidateObservation o) as [[]|] eqn:Hv; [|done]. apply rbind_ok in Hrest as (ev & _ & Hrest).
  apply rbind_ok in Hrest as ([] & Hver & Hrest). injection Hrest as <- <-. exists o. split_and!; [by constructor|done..].
Qed.

Lemma export_record_ok executionID d subject t q ts qs now entry descriptor :
  export_record executionID d subject t q ts qs now entry = Ok descriptor ->
  pl_ExecutionID (gr_Plan entry) = executionID /\
  exists canonical digest, Marshal_evidence (evidence_of executionID entry now) = Ok canonical /\
    Digest_evidence "tos.ai.execution-gate-evidence.v1" (evidence_of executionID entry now) = Ok digest /\
    forall p, ps_time p = t -> ps_qualification p = q -> subject = executionID ->
      item_says executionID d now p digest canonical (od_EvidenceItem descriptor).
Proof.
  unfold export_record. intros ([] & Hg%fail_if_ok & Hrest)%rbind_ok. apply rbind_ok in Hrest as (canonical & Hm & Hrest).
  apply rbind_ok in Hrest as (digest & Hd & Hrest). apply rbind_ok in Hrest as ([] & _ & Hrest). injection Hrest as <-.
  apply orb_false_iff in Hg as [_ Hg%negb_false_iff]. apply String.eqb_eq in Hg. split; [done|].
  exists canonical, digest. split_and!; [done..|]. intros p <- <- ->. by constructor.
Qed.

(** C36. When no other call changes the record between the two reads, the
    artifacts that are returned are consistent: the evidence object says of the
    execution what the gate's record says ([evidence_says]); the assertion says
    the same, binds the gate's policy and the digests of the plan's inputs,
    resources, credentials and effects, and cites the evidence object's digest
    ([assertion_says]); the manifest describes exactly that object ([item_says])
    and carries exactly one proof of each authority profile. *)
Theorem artifacts_consistent g executionID d policy proofs observedAt between w w' event bundle
    (Hquiet : forall v r v', between v = (r, v') -> d_live (w_disk v') !! gate_path g executionID = d_live (w_disk v) !! gate_path g executionID)
    (Hrun : BuildOperationOutcomeArtifacts g executionID d policy proofs observedAt between w = (Done (Ok (event, bundle)), w')) :
  exists i entry now p o evidence canonical evidenceDigest item,
    d_live (w_disk w) !! gate_path g executionID = Some i /\ json_unmarshal (i_data i) = Some entry /\ observedAt = Some now /\
    pl_ExecutionID (gr_Plan entry) = executionID /\ validDigest policy = true /\
    evidence_says executionID entry now evidence /\ Marshal_evidence evidence = Ok canonical /\
    Digest_evidence "tos.ai.execution-gate-evidence.v1" evidence = Ok evidenceDigest /\
    assertion_says executionID policy entry now evidenceDigest o /\ Marshal_observation o = Ok (ab_AssertionPayload bundle) /\
    em_EvidenceItems (ab_EvidenceManifest bundle) = [item] /\ item_says executionID d now p evidenceDigest canonical item /\
    one_of_each proofs p /\ em_AuthorityProofRefs (ab_EvidenceManifest bundle) = ps_refs p /\ ab_AuthorityProofs bundle = ps_proofs p.
Proof.
  revert Hrun. unfold BuildOperationOutcomeArtifacts. destruct (prepare_proofs policy proofs) as [p|e] eqn:Hp; [|done].
  apply prepare_proofs_spec in Hp as [Hpol Hp].
  intros (descriptor & w1 & He & Hrest)%ebind_done. apply bind_done in Hrest as ([] & w2 & Hb & Hrest).
  apply ebind_done in Hrest as (entry' & w3 & Hr2 & Hbuild). injection Hbuild as Hbuild _.
  revert He. unfold ExportOutcomeEvidence. destruct observedAt as [now|]; [|done]. destruct (_ || _); [done|].
  intros (entry & w0 & Hr1 & He)%ebind_done. injection He as He ->.
  apply readRecord_reads in Hr1 as (Hd1 & Hv & i & Hi & Hu). apply readRecord_reads in Hr2 as (_ & _ & i' & Hi' & Hu').
  rewrite (Hquiet _ _ _ Hb), Hd1, Hi in Hi'. injection Hi' as <-. rewrite Hu in Hu'. injection Hu' as <-.
  apply export_record_ok in He as (Hid & canonical & dig & Hmar & Hdig & Hitem).
  specialize (Hitem p eq_refl eq_refl eq_refl).
  apply build_artifacts_ok in Hbuild as (o & Ho & Hm & _ & Hrf & Hit & Hpf & _).
  rewrite (proj1 (is_object _ _ _ _ _ _ _ Hitem)) in Ho.
  exists i, entry, now, p, o, (evidence_of executionID entry now), canonical, dig, (od_EvidenceItem descriptor).
  split_and!; try done. by apply evidence_of_says.
Qed.
End Outcome.

(** ** Samples *)

Module OutcomeSamples.
Import GateSamples.

Definition evidence_text (e : ExecutionOutcomeEvidence) : string :=
  oe_ExecutionID e +:+ "|" +:+ oe_State e +:+ "|" +:+ put_Z (oe_StateRevision e) +:+ "|" +:+ oe_OutcomeDigest e.
Definition observation_text (o : GateExecutionObservation) : string :=
  go_ExecutionID o +:+ "|" +:+ go_State o +:+ "|" +:+ put_Z (go_StateRevision o) +:+ "|" +:+ go_AuthoritativeRecord o.

(** Proofs are ordered by their profile. *)
Definition sort2 {A} (key : A -> string) (l : list A) : list A :=
  match l with [a; b] => if String.ltb (key b) (key a) then [b; a] else [a; b] | _ => l end.
Lemma sort2_permutation {A} (key : A -> string) l : sort2 key l ≡ₚ l.
Proof. destruct l as [|a [|b [|]]]; try reflexivity. cbn. destruct (String.ltb _ _); [apply Permutation_swap|reflexivity]. Qed.

#[export] Instance outcome_commerce : OutcomeCommerce := {|
  ProofMaterial := string * string;
  pm_ProofProfileURI := fst;
  pm_CanonicalObject := snd;
  ExtensionSet := unit;
  EventBody := string;
  OutcomeAuthorityTimeProofProfile := "authority-time";
  OutcomeIssuerQualificationProofProfile := "issuer-qualification";
  SortMaterials l := (sort2 fst l, None);
  SortRefs l := (sort2 pr_ProofProfileURI l, None);
  ProofObjectDigest m := Ok (PlanSamples.label (m.1 +:+ m.2));
  ValidateManifest m := fail_if (bool_decide (em_AuthorityProofRefs m = [])) "no proofs";
  ValidateObservation o := fail_if (go_StateRevision o =? 0) "no revision";
  Marshal_evidence e := Ok (evidence_text e);
  Digest_evidence domain e := Ok (digest (domain +:+ evidence_text e));
  Marshal_meter e := Ok (rm_ExecutionID e);
  Digest_meter domain e := Ok (digest (domain +:+ rm_ExecutionID e));
  Marshal_observation o := Ok (observation_text o);
  Digest_resources domain files _ := Ok (digest (domain +:+ str_join "," (fb_Path <$> files)));
  Digest_credentials domain credentials := Ok (digest domain);
  Digest_effects domain effects := Ok (digest (domain +:+ str_join "," (eb_PlanEffectID <$> effects)));
  EmptyExtensionSet := tt;
  BuildEvent subject payload _ _ := Ok (subject +:+ payload);
  VerifyBundle event payload _ _ _ := fail_if (negb (str_drop 71 event =s? payload)) "payload differs";
|}.

Lemma SortRefs_permutation l : (SortRefs l).1 ≡ₚ l.
Proof. apply sort2_permutation. Qed.
Lemma SortMaterials_permutation l : (SortMaterials l).1 ≡ₚ l.
Proof. apply sort2_permutation. Qed.

Definition description : Description :=
  {| de_issuerDescriptor := "issuer"; de_visibility := "private"; de_audienceDigest := PlanSamples.label "audience";
     de_retentionPolicyDigest := PlanSamples.label "retention"; de_retrievalPolicyDigest := PlanSamples.label "retrieval" |}.
Definition proofs : list (string * string) := [("issuer-qualification", "q"); ("authority-time", "t")].
Definition exported (between : IO unit) : outcome (result (string * ArtifactBundle)) * world :=
  BuildOperationOutcomeArtifacts gate (la_ExecutionID launch) description (PlanSamples.label "policy") proofs (Some 1700000000) between world3.
Definition quiet : IO unit := mret tt.
Definition complete : IO unit := _ ← Complete gate launch StateSucceeded (PlanSamples.label "outcome"); mret tt.

Definition bundle_of (o : outcome (result (string * ArtifactBundle))) : string * ArtifactBundle :=
  got o ("", {| ab_AssertionPayload := ""; ab_EvidenceManifest := {| em_SchemaVersion := 0; em_ManifestPurpose := ""; em_AuthorityProofRefs := []; em_EvidenceItems := [] |};
                ab_ExtensionSet := tt; ab_AuthorityProofs := [] |}).
Definition artifacts : string * ArtifactBundle := bundle_of (exported quiet).1.
Definition returned {A} (o : outcome (result A)) : bool := match o with Done (Ok _) => true | _ => false end.
Lemma returned_bundle o : returned o = true -> o = Done (Ok ((bundle_of o).1, (bundle_of o).2)).
Proof. by destruct o as [[[]|]|]. Qed.
Lemma exported_ok : BuildOperationOutcomeArtifacts gate (la_ExecutionID launch) description (PlanSamples.label "policy") proofs (Some 1700000000) quiet world3 =
  (Done (Ok (artifacts.1, artifacts.2)), (exported quiet).2).
Proof. apply pair_fst, returned_bundle. vm_compute. reflexivity. Qed.

(** The assertion a quiet export makes, and the one of an export during which the
    execution completes: the second cites the first one's evidence. *)
Definition interrupted : string * ArtifactBundle := bundle_of (exported complete).1.
Definition asserted (state : string) (revision : Z) (b : ArtifactBundle) : bool :=
  ab_AssertionPayload b =s? la_ExecutionID launch +:+ "|" +:+ state +:+ "|" +:+ put_Z revision +:+ "|" +:+
    match em_EvidenceItems (ab_EvidenceManifest b) with [item] => ei_ObjectDigest item | _ => "" end.
End OutcomeSamples.
Import GateSamples OutcomeSamples.

Lemma artifacts_consistent_witness : exists p, one_of_each proofs p /\ ab_AuthorityProofs artifacts.2 = ps_proofs p.
Proof.
  destruct (artifacts_consistent SortRefs_permutation SortMaterials_permutation gate (la_ExecutionID launch)
    description (PlanSamples.label "policy") proofs (Some 1700000000) quiet world3 (exported quiet).2 artifacts.1 artifacts.2) as
    (i & entry & now & p & o & evidence & canonical & dig & item & Hrest).
  - intros v r v' Hq. injection Hq as _ <-. reflexivity.
  - exact exported_ok.
  - exists p. destruct Hrest as (_ & _ & _ & _ & _ & _ & _ & _ & _ & _ & _ & _ & Hp & _ & Hb). exact (conj Hp Hb).
Defined.

(** The record may change between the two reads: when the execution completes
    there, the assertion says [succeeded] at revision 6 and cites the evidence
    object of the running execution at revision 5. *)
Example assertion_cites_older_record :
  asserted "running" 5 artifacts.2 = true /\ asserted "succeeded" 6 interrupted.2 = true /\
  (ei_ObjectDigest <$> em_EvidenceItems (ab_EvidenceManifest interrupted.2)) = (ei_ObjectDigest <$> em_EvidenceItems (ab_EvidenceManifest artifacts.2)).
Proof. split_and!; vm_compute; reflexivity. Qed.
