(* ===== verification/ConfigJson.v ===== *)
(** * Duplicate fields of the operator's configuration

    [rejectDuplicateJSON] of cmd/tos-messenger-event-worker/main.go walks the
    tokens of encoding/json's [Decoder] and refuses a document in which some
    object, at any depth, has a field twice.  The decoder is modelled as the state
    machine of [Decoder.Token] and [Decoder.More] over the lexemes of the input:
    the splitting of the bytes into lexemes, the decoding of a string literal and
    the refusal of a malformed literal are the library's, and a lexeme it refuses
    is [LBad].

    The reference is the grammar: [render] writes a tree as lexemes. *)

From S2P Require Import Prelude GoStd GoHttp.
From stdpp Require Import gmap.

Inductive lexeme :=
| LOpenObject | LCloseObject | LOpenArray | LCloseArray | LColon | LComma
| LString (s : string)
| LScalar
| LBad.

Inductive token := Delim (c : ascii) | TString (s : string) | TScalar.

Inductive tokenState :=
| tokenTopValue | tokenArrayStart | tokenArrayValue | tokenArrayComma
| tokenObjectStart | tokenObjectKey | tokenObjectColon | tokenObjectValue | tokenObjectComma.

Record Decoder := D { dc_input : list lexeme; dc_state : tokenState; dc_stack : list tokenState }.

(** A token, or an error that is the end of the input or not. *)
Inductive tokened := Tok (t : token) (d : Decoder) | TokErr (eof : bool).

Definition tokenValueAllowed (s : tokenState) : bool :=
  match s with tokenTopValue | tokenArrayStart | tokenArrayValue | tokenObjectValue => true | _ => false end.

Definition tokenValueEnd (s : tokenState) : tokenState :=
  match s with tokenArrayStart | tokenArrayValue => tokenArrayComma | tokenObjectValue => tokenObjectComma | _ => s end.

(** A closing delimiter returns to the state of the enclosing value. *)
Definition close_token (c : ascii) (input : list lexeme) (stack : list tokenState) : tokened :=
  match stack with s :: stack' => Tok (Delim c) (D input (tokenValueEnd s) stack') | [] => TokErr false end.

Fixpoint Token_from (input : list lexeme) (st : tokenState) (stack : list tokenState) : tokened :=
  match input with
  | [] => TokErr true
  | l :: rest =>
      match l with
      | LOpenArray => if tokenValueAllowed st then Tok (Delim "[") (D rest tokenArrayStart (st :: stack)) else TokErr false
      | LCloseArray => match st with tokenArrayStart | tokenArrayComma => close_token "]" rest stack | _ => TokErr false end
      | LOpenObject => if tokenValueAllowed st then Tok (Delim "{") (D rest tokenObjectStart (st :: stack)) else TokErr false
      | LCloseObject => match st with tokenObjectStart | tokenObjectComma => close_token "}" rest stack | _ => TokErr false end
      | LColon => match st with tokenObjectColon => Token_from rest tokenObjectValue stack | _ => TokErr false end
      | LComma =>
          match st with
          | tokenArrayComma => Token_from rest tokenArrayValue stack
          | tokenObjectComma => Token_from rest tokenObjectKey stack
          | _ => TokErr false
          end
      | LString s =>
          match st with
          | tokenObjectStart | tokenObjectKey => Tok (TString s) (D rest tokenObjectColon stack)
          | _ => if tokenValueAllowed st then Tok (TString s) (D rest (tokenValueEnd st) stack) else TokErr false
          end
      | LScalar => if tokenValueAllowed st then Tok TScalar (D rest (tokenValueEnd st) stack) else TokErr false
      | LBad => TokErr false
      end
  end.

Definition Token (d : Decoder) : tokened := Token_from (dc_input d) (dc_state d) (dc_stack d).

Definition More (d : Decoder) : bool :=
  match dc_input d with [] | LCloseArray :: _ | LCloseObject :: _ => false | _ => true end.

(** ** The scan *)

Definition out_of_fuel : string := "out of fuel".

Fixpoint scanValue (fuel : nat) (d : Decoder) : result Decoder :=
  match fuel with
  | O => Err out_of_fuel
  | S f =>
      match Token d with
      | TokErr _ => Err "token"
      | Tok (Delim c) d1 =>
          if Ascii.eqb c "{" then scanObject f ∅ d1 else
          if Ascii.eqb c "[" then scanArray f d1 else Err "invalid configuration delimiter"
      | Tok _ d1 => Ok d1
      end
  end
with scanObject (fuel : nat) (keys : gset string) (d : Decoder) : result Decoder :=
  match fuel with
  | O => Err out_of_fuel
  | S f =>
      if More d then
        match Token d with
        | Tok (TString key) d1 =>
            if bool_decide (key ∈ keys) then Err "configuration contains a duplicate field" else
            match scanValue f d1 with Ok d2 => scanObject f ({[key]} ∪ keys) d2 | Err e => Err e end
        | _ => Err "invalid configuration object"
        end
      else match Token d with
           | Tok (Delim c) d1 => if Ascii.eqb c "}" then Ok d1 else Err "invalid configuration object ending"
           | _ => Err "invalid configuration object ending"
           end
  end
with scanArray (fuel : nat) (d : Decoder) : result Decoder :=
  match fuel with
  | O => Err out_of_fuel
  | S f =>
      if More d then match scanValue f d with Ok d1 => scanArray f d1 | Err e => Err e end
      else match Token d with
           | Tok (Delim c) d1 => if Ascii.eqb c "]" then Ok d1 else Err "invalid configuration array ending"
           | _ => Err "invalid configuration array ending"
           end
  end.

(** Every token takes a lexeme at least, so that twice the length is enough. *)
Definition rejectDuplicateJSON (input : list lexeme) : result unit :=
  match scanValue (S (2 * length input)) (D input tokenTopValue []) with
  | Err e => Err ("invalid configuration JSON: " +:+ e)
  | Ok d => match Token d with TokErr true => Ok tt | _ => Err "configuration JSON has trailing data" end
  end.

(** ** The grammar *)

Inductive json :=
| JScalar
| JString (s : string)
| JArray (l : list json)
| JObject (l : list (string * json)).

(** Induction under the lists. *)
Lemma json_ind' (P : json -> Prop) (Hscalar : P JScalar) (Hstring : forall s, P (JString s))
    (Harray : forall l, Forall P l -> P (JArray l)) (Hobject : forall l, Forall (fun kv => P kv.2) l -> P (JObject l)) : forall v, P v.
Proof.
  fix IH 1. intros [|s|l|l]; [done|done| |].
  - apply Harray. induction l as [|x l IHl]; constructor; [apply IH|exact IHl].
  - apply Hobject. induction l as [|[k x] l IHl]; constructor; [apply IH|exact IHl].
Qed.

(** The elements after the first one, each with its comma, and all of them. *)
Definition more_items (l : list (list lexeme)) : list lexeme := concat (cons LComma <$> l).
Definition items (l : list (list lexeme)) : list lexeme := match l with [] => [] | x :: r => x ++ more_items r end.

Fixpoint render (v : json) : list lexeme :=
  match v with
  | JScalar => [LScalar]
  | JString s => [LString s]
  | JArray l => LOpenArray :: items (List.map render l) ++ [LCloseArray]
  | JObject l => LOpenObject :: items (List.map (fun kv => LString kv.1 :: LColon :: render kv.2) l) ++ [LCloseObject]
  end.

(** No object of the value has a field twice. *)
Fixpoint unique_fields (v : json) : bool :=
  match v with
  | JArray l => forallb unique_fields l
  | JObject l => bool_decide (NoDup (List.map fst l)) && forallb (fun kv => unique_fields kv.2) l
  | _ => true
  end.

(** ** What the scan accepts *)

(** The states in which the scan asks for a value, what the decoder takes before
    it, and the states of the value and after it. *)
Definition asks (st : tokenState) : Prop := st = tokenTopValue \/ st = tokenArrayStart \/ st = tokenArrayComma \/ st = tokenObjectColon.
Definition lead (st : tokenState) : list lexeme :=
  match st with tokenArrayComma | tokenObjectComma => [LComma] | tokenObjectColon => [LColon] | _ => [] end.
Definition ready (st : tokenState) : tokenState :=
  match st with tokenArrayComma => tokenArrayValue | tokenObjectColon => tokenObjectValue | tokenObjectComma => tokenObjectKey | _ => st end.
Definition after (st : tokenState) : tokenState := tokenValueEnd (ready st).

Lemma Token_lead st input stack :
  asks st \/ st = tokenObjectComma \/ st = tokenObjectStart -> Token (D (lead st ++ input) st stack) = Token_from input (ready st) stack.
Proof. by intros [[->|[->|[->| ->]]]|[->| ->]]. Qed.

(** A token in a state that asks for a value: the lead, then the first lexeme of a
    value. *)
Lemma Token_value st input stack t d (Hasks : asks st) (Hmore : st = tokenArrayStart \/ st = tokenArrayComma -> More (D input st stack) = true) :
  Token (D input st stack) = Tok t d ->
  exists rest, (t = Delim "{" /\ input = lead st ++ LOpenObject :: rest /\ d = D rest tokenObjectStart (ready st :: stack)) \/
    (t = Delim "[" /\ input = lead st ++ LOpenArray :: rest /\ d = D rest tokenArrayStart (ready st :: stack)) \/
    (exists s, t = TString s /\ input = lead st ++ LString s :: rest /\ d = D rest (after st) stack) \/
    (t = TScalar /\ input = lead st ++ LScalar :: rest /\ d = D rest (after st) stack).
Proof.
  unfold Token. cbn [dc_input dc_state dc_stack]. destruct Hasks as [->|[->|[->| ->]]]; cbn [lead ready after tokenValueEnd app].
  1,2: destruct input as [|[] input]; cbn; try done; intros E; try (by specialize (Hmore (or_introl eq_refl))); simplify_eq; exists input; naive_solver.
  1,2: destruct input as [|[] [|[] input]]; cbn; try done; intros E; try (by specialize (Hmore (or_intror eq_refl))); simplify_eq; exists input; naive_solver.
Qed.

(** A key of an object. *)
Lemma Token_key st input stack t d (Hst : st = tokenObjectStart \/ st = tokenObjectComma) (Hmore : More (D input st stack) = true) :
  Token (D input st stack) = Tok t d ->
  exists s rest, t = TString s /\ input = lead st ++ LString s :: rest /\ d = D rest tokenObjectColon stack.
Proof.
  unfold Token. cbn [dc_input dc_state dc_stack]. destruct Hst as [->| ->]; cbn [lead app].
  - destruct input as [|[] rest]; cbn; try done; intros E; simplify_eq; by eexists _, _.
  - destruct input as [|[] [|[] rest]]; cbn; try done; intros E; simplify_eq; by eexists _, _.
Qed.

(** The fields of an object, and the elements that are left in a state: with the
    comma of the first one or without. *)
Definition entry (kv : string * json) : list lexeme := LString kv.1 :: LColon :: render kv.2.
Definition left_items (st : tokenState) (l : list (list lexeme)) : list lexeme :=
  match st with tokenArrayStart | tokenObjectStart => items l | _ => more_items l end.

Definition in_object (st : tokenState) : Prop := st = tokenObjectStart \/ st = tokenObjectComma.
Definition in_array (st : tokenState) : Prop := st = tokenArrayStart \/ st = tokenArrayComma.

Lemma left_items_cons st x l : in_object st \/ in_array st -> left_items st (x :: l) = lead st ++ x ++ more_items l.
Proof. by intros [[->| ->]|[->| ->]]. Qed.

Lemma left_items_nil st : in_object st \/ in_array st -> left_items st [] = [].
Proof. by intros [[->| ->]|[->| ->]]. Qed.

(** The end of an object or an array. *)
Lemma object_end st input s stack d :
  in_object st -> More (D input st (s :: stack)) = false ->
  match Token (D input st (s :: stack)) with
  | Tok (Delim c) d1 => if Ascii.eqb c "}" then Ok d1 else Err "invalid configuration object ending"
  | _ => Err "invalid configuration object ending"
  end = Ok d -> exists rest, input = LCloseObject :: rest /\ d = D rest (tokenValueEnd s) stack.
Proof. intros [->| ->]; destruct input as [|[] input]; try done; intros _ E; injection E as <-; by exists input. Qed.

Lemma array_end st input s stack d :
  in_array st -> More (D input st (s :: stack)) = false ->
  match Token (D input st (s :: stack)) with
  | Tok (Delim c) d1 => if Ascii.eqb c "]" then Ok d1 else Err "invalid configuration array ending"
  | _ => Err "invalid configuration array ending"
  end = Ok d -> exists rest, input = LCloseArray :: rest /\ d = D rest (tokenValueEnd s) stack.
Proof. intros [->| ->]; destruct input as [|[] input]; try done; intros _ E; injection E as <-; by exists input. Qed.

(** What each of the three scans has read when it returns. *)
Definition value_read (fuel : nat) : Prop := forall input st stack d,
  asks st -> (in_array st -> More (D input st stack) = true) -> scanValue fuel (D input st stack) = Ok d ->
  exists v rest, input = lead st ++ render v ++ rest /\ d = D rest (after st) stack /\ unique_fields v = true.
Definition object_read (fuel : nat) : Prop := forall keys input st s stack d,
  in_object st -> scanObject fuel keys (D input st (s :: stack)) = Ok d ->
  exists l rest, input = left_items st (List.map entry l) ++ LCloseObject :: rest /\ d = D rest (tokenValueEnd s) stack /\
    NoDup (List.map fst l) /\ (forall k, k ∈ List.map fst l -> k ∉ keys) /\ forallb (fun kv => unique_fields kv.2) l = true.
Definition array_read (fuel : nat) : Prop := forall input st s stack d,
  in_array st -> scanArray fuel (D input st (s :: stack)) = Ok d ->
  exists l rest, input = left_items st (List.map render l) ++ LCloseArray :: rest /\ d = D rest (tokenValueEnd s) stack /\
    forallb unique_fields l = true.

Lemma value_read_step fuel : object_read fuel -> array_read fuel -> value_read (S fuel).
Proof.
  intros Ho Ha input st stack d Hasks Hmore. cbn [scanValue]. destruct (Token (D input st stack)) as [t d1|] eqn:Et; [|done].
  apply Token_value in Et; [|done|done]. destruct Et as (rest & [(-> & -> & ->)|[(-> & -> & ->)|[(s & -> & -> & ->)|(-> & -> & ->)]]]).
  - intros E. apply Ho in E as (l & rest' & -> & -> & Hn & _ & Hu); [|by left]. exists (JObject l), rest'. split_and!; [|done|].
    + cbn [render left_items app]. by rewrite <- app_assoc.
    + cbn [unique_fields]. by rewrite bool_decide_eq_true_2, Hu.
  - intros E. apply Ha in E as (l & rest' & -> & -> & Hu); [|by left]. exists (JArray l), rest'. split_and!; [|done|done].
    cbn [render left_items app]. by rewrite <- app_assoc.
  - intros E. injection E as <-. by exists (JString s), rest.
  - intros E. injection E as <-. by exists JScalar, rest.
Qed.

Lemma object_read_step fuel : value_read fuel -> object_read fuel -> object_read (S fuel).
Proof.
  intros Hv Ho keys input st s stack d Hst. cbn [scanObject]. destruct (More _) eqn:Hm.
  - destruct (Token _) as [t d1|] eqn:Et; [|done]. apply Token_key in Et as (k & rest & -> & -> & ->); [|done|done].
    case_bool_decide as Hk; [done|]. destruct (scanValue fuel _) as [d2|] eqn:Ev; [|done].
    apply Hv in Ev as (v & rest' & -> & -> & Hu); [|unfold asks; tauto|by intros [? | ?]].
    intros E. apply Ho in E as (l & rest'' & -> & -> & Hn & Hk' & Hl); [|by right]. exists ((k, v) :: l), rest''. split_and!.
    + cbn [List.map]. rewrite left_items_cons by tauto. rewrite <- !app_assoc. reflexivity.
    + done.
    + cbn. constructor; [|done]. intros Hin. apply Hk' in Hin. set_solver.
    + intros k' Hin. cbn in Hin. apply elem_of_cons in Hin as [->|Hin]; [done|]. apply Hk' in Hin. set_solver.
    + cbn. by rewrite Hu.
  - intros E. apply object_end in E as (rest & -> & ->); [|done|done]. exists [], rest. cbn [List.map].
    rewrite left_items_nil by tauto. split_and!; try done; [constructor|]. intros k Hk. by apply elem_of_nil in Hk.
Qed.

Lemma array_read_step fuel : value_read fuel -> array_read fuel -> array_read (S fuel).
Proof.
  intros Hv Ha input st s stack d Hst. cbn [scanArray]. destruct (More _) eqn:Hm.
  - destruct (scanValue fuel _) as [d2|] eqn:Ev; [|done].
    apply Hv in Ev as (v & rest & -> & -> & Hu); [|unfold asks, in_array in *; tauto|done].
    replace (after st) with tokenArrayComma by (by destruct Hst as [->| ->]).
    intros E. apply Ha in E as (l & rest' & -> & -> & Hl); [|by right]. exists (v :: l), rest'. split_and!; [|done|by cbn; rewrite Hu].
    cbn [List.map]. rewrite left_items_cons by tauto. cbn [left_items]. by rewrite <- !app_assoc.
  - intros E. apply array_end in E as (rest & -> & ->); [|done|done]. exists [], rest. cbn [List.map].
    by rewrite left_items_nil by tauto.
Qed.

Lemma scan_sound fuel : value_read fuel /\ object_read fuel /\ array_read fuel.
Proof.
  induction fuel as [|fuel (Hv & Ho & Ha)].
  - split_and!; unfold value_read, object_read, array_read; by intros.
  - split_and!; [by apply value_read_step|by apply object_read_step|by apply array_read_step].
Qed.

(** ** What it needs *)

Definition list_cost (l : list nat) : nat := S (sum_list (S <$> l)).
Fixpoint cost (v : json) : nat :=
  match v with
  | JScalar | JString _ => 1
  | JArray l => S (list_cost (List.map cost l))
  | JObject l => S (list_cost (List.map (fun kv => cost kv.2) l))
  end.

Lemma items_length l : (sum_list (length <$> l) <= length (items l))%nat.
Proof.
  assert (Hmore : forall r, (sum_list (length <$> r) <= length (more_items r))%nat).
  { induction r as [|y r IH]; [done|]. change (more_items (y :: r)) with (LComma :: y ++ more_items r). csimpl. rewrite length_app. lia. }
  destruct l as [|x l]; [done|]. cbn [items]. csimpl. rewrite length_app. specialize (Hmore l). lia.
Qed.

Lemma list_cost_bound {A} (c : A -> nat) (f : A -> list lexeme) l :
  Forall (fun x => (S (c x) <= 2 * length (f x))%nat) l -> (S (S (list_cost (List.map c l))) <= 2 * S (length (items (List.map f l) ++ [LBad])))%nat.
Proof.
  intros Hl. rewrite length_app. pose proof (items_length (List.map f l)) as Hi.
  assert (sum_list (S <$> List.map c l) <= 2 * sum_list (length <$> List.map f l))%nat.
  { clear Hi. induction Hl as [|x l Hx _ IH]; [done|]. csimpl. lia. }
  unfold list_cost. cbn [length]. lia.
Qed.

Lemma cost_bound v : (S (cost v) <= 2 * length (render v))%nat.
Proof.
  induction v as [|s|l IH|l IH] using json_ind'; [done|done| |]; cbn [cost render length].
  - apply (list_cost_bound cost render) in IH. rewrite length_app in IH |- *. cbn [length] in *. lia.
  - assert (Forall (fun kv => S (cost kv.2) <= 2 * length (entry kv))%nat l) as Hl by (eapply Forall_impl; [exact IH|]; intros [k v]; unfold entry; cbn; lia).
    apply (list_cost_bound (fun kv => cost kv.2) entry) in Hl. rewrite length_app in Hl |- *. cbn [length] in *. unfold entry in Hl. lia.
Qed.

Lemma render_more v st stack rest : More (D (lead st ++ render v ++ rest) st stack) = true.
Proof. destruct st, v; reflexivity. Qed.

Definition scanned (v : json) : Prop := forall fuel st stack rest, asks st -> (cost v <= fuel)%nat ->
  scanValue fuel (D (lead st ++ render v ++ rest) st stack) = Ok (D rest (after st) stack).

Lemma array_scanned l : Forall scanned l -> forall fuel st s stack rest, in_array st -> (list_cost (List.map cost l) <= fuel)%nat ->
  scanArray fuel (D (left_items st (List.map render l) ++ LCloseArray :: rest) st (s :: stack)) = Ok (D rest (tokenValueEnd s) stack).
Proof.
  induction 1 as [|v l Hv Hl IH]; intros [|fuel] st s stack rest Hst Hf; try (unfold list_cost in Hf; lia).
  - cbn [List.map]. rewrite left_items_nil by tauto. by destruct Hst as [->| ->].
  - unfold list_cost in *. cbn [List.map fmap list_fmap sum_list sum_list_with] in *. rewrite left_items_cons by tauto. rewrite <- !app_assoc.
    cbn [scanArray]. rewrite render_more, Hv; [|unfold asks, in_array in *; tauto|csimpl in *; lia].
    replace (after st) with tokenArrayComma by (by destruct Hst as [->| ->]). apply (IH fuel tokenArrayComma); [by right|csimpl in *; lia].
Qed.

Lemma object_scanned l : Forall (fun kv => scanned kv.2) l -> forall fuel keys st s stack rest, in_object st ->
  (list_cost (List.map (fun kv => cost kv.2) l) <= fuel)%nat -> NoDup (List.map fst l) -> (forall k, k ∈ List.map fst l -> k ∉ keys) ->
  scanObject fuel keys (D (left_items st (List.map entry l) ++ LCloseObject :: rest) st (s :: stack)) = Ok (D rest (tokenValueEnd s) stack).
Proof.
  induction 1 as [|[k v] l Hv Hl IH]; intros [|fuel] keys st s stack rest Hst Hf Hn Hk; try (unfold list_cost in Hf; lia).
  - cbn [List.map]. rewrite left_items_nil by tauto. by destruct Hst as [->| ->].
  - unfold list_cost in *. cbn [List.map fst snd] in *. rewrite left_items_cons by tauto. rewrite <- !app_assoc. inversion Hn as [|? ? Hk' Hn']; subst.
    assert (Hkey : k ∉ keys) by (apply Hk; left).
    assert (Ht : Token (D (lead st ++ entry (k, v) ++ more_items (List.map entry l) ++ LCloseObject :: rest) st (s :: stack)) =
      Tok (TString k) (D (lead tokenObjectColon ++ render v ++ left_items tokenObjectComma (List.map entry l) ++ LCloseObject :: rest) tokenObjectColon (s :: stack)))
      by (by destruct Hst as [->| ->]).
    cbn [scanObject]. rewrite Ht. replace (More _) with true by (by destruct Hst as [->| ->]). rewrite bool_decide_eq_false_2 by done.
    rewrite Hv; [|unfold asks; tauto|csimpl in *; lia]. apply IH; [by right|csimpl in *; lia|done|].
    intros k' Hin. assert (k' ≠ k) by (by intros ->). assert (k' ∉ keys) by (apply Hk; by right). set_solver.
Qed.

Lemma value_scanned v : unique_fields v = true -> scanned v.
Proof.
  induction v as [|t|l IH|l IH] using json_ind'; intros Hu [|fuel] st stack rest Hst Hf; try (cbn in Hf; lia); cbn [scanValue]; rewrite Token_lead by tauto.
  - by destruct Hst as [->|[->|[->| ->]]].
  - by destruct Hst as [->|[->|[->| ->]]].
  - cbn [render]. rewrite <- app_comm_cons, <- app_assoc. cbn [Token_from app].
    assert (tokenValueAllowed (ready st) = true) as -> by (by destruct Hst as [->|[->|[->| ->]]]). cbn [Ascii.eqb].
    apply (array_scanned l) with (st := tokenArrayStart) (s := ready st); [|by left|cbn in Hf; lia].
    cbn in Hu. rewrite forallb_forall in Hu. rewrite Forall_forall in IH |- *. intros x Hx. apply IH; [done|]. apply Hu. by apply list_elem_of_In.
  - cbn [render]. rewrite <- app_comm_cons, <- app_assoc. cbn [Token_from app].
    assert (tokenValueAllowed (ready st) = true) as -> by (by destruct Hst as [->|[->|[->| ->]]]). cbn [Ascii.eqb].
    cbn in Hu. apply andb_true_iff in Hu as [Hn%bool_decide_eq_true Hu].
    apply (object_scanned l) with (st := tokenObjectStart) (s := ready st); [|by left|cbn in Hf; lia|done|set_solver].
    rewrite forallb_forall in Hu. rewrite Forall_forall in IH |- *. intros x Hx. apply IH; [done|]. apply Hu. by apply list_elem_of_In.
Qed.

(** ** The fuel is enough for every input *)

Definition left (d : Decoder) : nat := length (dc_input d).

Lemma Token_takes d t d' : Token d = Tok t d' -> (left d' < left d)%nat.
Proof.
  unfold Token, left. destruct d as [input st stack]. cbn [dc_input dc_state dc_stack]. revert st.
  induction input as [|l input IH]; intros st; [done|]. destruct l, st; cbn; unfold close_token; intros E;
    repeat (match type of E with context [match ?s with [] => _ | _ => _ end] => destruct s end); simplify_eq; cbn; try lia; apply IH in E; lia.
Qed.

Lemma scan_takes fuel :
  (forall d d', scanValue fuel d = Ok d' -> (left d' < left d)%nat) /\
  (forall keys d d', scanObject fuel keys d = Ok d' -> (left d' < left d)%nat) /\ (forall d d', scanArray fuel d = Ok d' -> (left d' < left d)%nat).
Proof.
  induction fuel as [|fuel (IHv & IHo & IHa)]; [done|]. split_and!; intros *; cbn [scanValue scanObject scanArray].
  - destruct (Token d) as [t d1|] eqn:Et; [|done]. apply Token_takes in Et.
    destruct t; [|by intros [= <-]|by intros [= <-]]. destruct (Ascii.eqb _ _); [intros E%IHo; lia|]. destruct (Ascii.eqb _ _); [intros E%IHa; lia|done].
  - destruct (More d); destruct (Token d) as [t d1|] eqn:Et; try done; apply Token_takes in Et; destruct t; try done.
    + case_bool_decide; [done|]. destruct (scanValue fuel d1) as [d2|] eqn:Ev; [|done]. apply IHv in Ev. intros E%IHo. lia.
    + destruct (Ascii.eqb _ _); [by intros [= <-]|done].
  - destruct (More d).
    + destruct (scanValue fuel d) as [d2|] eqn:Ev; [|done]. apply IHv in Ev. intros E%IHa. lia.
    + destruct (Token d) as [t d1|] eqn:Et; [|done]. apply Token_takes in Et. destruct t; try done. destruct (Ascii.eqb _ _); [by intros [= <-]|done].
Qed.

Lemma scan_total fuel :
  (forall d, (2 * left d < fuel)%nat -> scanValue fuel d <> Err out_of_fuel) /\
  (forall keys d, (S (2 * left d) < fuel)%nat -> scanObject fuel keys d <> Err out_of_fuel) /\
  (forall d, (S (2 * left d) < fuel)%nat -> scanArray fuel d <> Err out_of_fuel).
Proof.
  induction fuel as [|fuel (IHv & IHo & IHa)]; [split_and!; intros; lia|].
  split_and!; intros *; cbn [scanValue scanObject scanArray]; intros Hf.
  - destruct (Token d) as [t d1|] eqn:Et; [|done]. apply Token_takes in Et.
    destruct t; [|done|done]. destruct (Ascii.eqb _ _); [apply IHo; lia|]. destruct (Ascii.eqb _ _); [apply IHa; lia|done].
  - destruct (More d); destruct (Token d) as [t d1|] eqn:Et; try done; apply Token_takes in Et; destruct t; try done.
    + case_bool_decide; [done|]. destruct (scanValue fuel d1) as [d2|e] eqn:Ev.
      * apply scan_takes in Ev. apply IHo. lia.
      * intros [= ->]. revert Ev. apply IHv. lia.
    + by destruct (Ascii.eqb _ _).
  - destruct (More d).
    + destruct (scanValue fuel d) as [d2|e] eqn:Ev.
      * apply scan_takes in Ev. apply IHa. lia.
      * intros [= ->]. revert Ev. apply IHv. lia.
    + destruct (Token d) as [t d1|] eqn:Et; [|done]. destruct t; try done. by destruct (Ascii.eqb _ _).
Qed.

(** ** Theorems *)

(** C22. The check accepts exactly the documents that are one value in which no
    object, at any depth, has a field twice; and it ends on every input. *)
Theorem rejectDuplicateJSON_exact input :
  (rejectDuplicateJSON input = Ok tt <-> exists v, input = render v /\ unique_fields v = true) /\
  scanValue (S (2 * length input)) (D input tokenTopValue []) <> Err out_of_fuel.
Proof.
  split; [|apply scan_total; unfold left; cbn; lia]. unfold rejectDuplicateJSON. split.
  - destruct (scanValue _ _) as [d|] eqn:Es; [|done]. apply scan_sound in Es as (v & rest & -> & -> & Hu); [|by left|by intros [|]].
    destruct rest as [|l rest]; [intros _; exists v; cbn; by rewrite app_nil_r|].
    cbn. unfold Token. cbn. destruct l; try done.
  - intros (v & -> & Hu). rewrite <- (app_nil_r (render v)) at 2.
    rewrite (value_scanned v Hu _ tokenTopValue [] []); [done|by left|]. pose proof (cost_bound v). lia.
Qed.

(** ** Names of fields *)

(** encoding/json gives a key to the field with that name, or else to the first
    whose name differs in the case of letters only (here of ASCII keys). *)
Definition field_named (fields : list string) (key : string) : option string :=
  if bool_decide (key ∈ fields) then Some key
  else snd <$> list_find (fun name => strings_ToLower name = strings_ToLower key) fields.

(** Two keys that differ in case are no duplicates for the check, and both set the
    same field of the configuration. *)
Example case_variant_accepted :
  let document := [LOpenObject; LString "state_root"; LColon; LString "/reviewed"; LComma; LString "State_Root"; LColon; LString "/other"; LCloseObject] in
  rejectDuplicateJSON document = Ok tt /\
  field_named ["schema"; "state_root"] "state_root" = Some "state_root" /\ field_named ["schema"; "state_root"] "State_Root" = Some "state_root".
Proof. split_and!; vm_compute; reflexivity. Qed.

(** A duplicate below an array is found. *)
Example nested_duplicate_refused :
  rejectDuplicateJSON [LOpenArray; LScalar; LComma; LOpenObject; LString "a"; LColon; LScalar; LComma; LString "a"; LColon; LScalar; LCloseObject; LCloseArray]
    = Err "invalid configuration JSON: configuration contains a duplicate field".
Proof. vm_compute. reflexivity. Qed.
