(* ===== verification/WorkerRun.v ===== *)
(** * Running components until one ends: the worker and the event service

    [worker.Run] of cmd/tos-messenger-event-worker/main.go and [UnixService.Run] of
    pkg/messengereventbridge/unix.go have one shape: a goroutine per component
    sends the component's result to a channel with a place for each; the function
    waits for the context or for a first result, calls what stops the components,
    waits for a number of further results, closes what the process owns, and
    returns.  The shape is a transition system over which a component may end,
    with any result, at any time, and a call to stop or close something returns
    when its callee lets it, or never; [Group] holds what differs between the two
    functions.

    [publishLoop] is the component that publishes results on a ticker. *)

From S2P Require Import Prelude GoStd FS Json RecordStore Outbox.
From stdpp Require Import gmap.

(** An error; [None] for none. *)
Abbreviation goerr := (option string).

(** How the function left its select; [ended] tells whether the context had ended
    when it looked at the result. *)
Inductive cause := ByContext | ByResult (ended : bool).

Record Group := {
  gp_size : nat;                              (* components, and places of the channel *)
  gp_stop : cause -> list string;             (* the calls that stop the components *)
  gp_wait : cause -> nat;                     (* results received after them *)
  gp_close : list string;                     (* the calls before it returns *)
  gp_first : bool -> goerr -> goerr;          (* the error after a first result; whether the context has ended *)
  gp_later : goerr -> goerr -> goerr;         (* the error after one more result *)
}.

Inductive phase :=
| Selecting
| Checking (e : goerr)                        (* a first result was received *)
| Stopping (c : cause) (calls : list string) (runErr : goerr)
| Draining (c : cause) (waits : nat) (runErr : goerr)
| Closing (c : cause) (calls : list string) (runErr : goerr) (errs : list string)
| Finished (c : cause) (runErr : goerr) (errs : list string).

Record run_state := {
  rn_phase : phase;
  rn_running : gset nat;                      (* components that have not sent their result *)
  rn_channel : list goerr;
  rn_taken : list goerr;                      (* the results received *)
  rn_calls : list string;                     (* the calls that returned *)
  rn_ctx : bool;                              (* the caller's context has ended *)
}.

Definition in_phase (s : run_state) (p : phase) : run_state :=
  {| rn_phase := p; rn_running := rn_running s; rn_channel := rn_channel s; rn_taken := rn_taken s; rn_calls := rn_calls s;
     rn_ctx := rn_ctx s |}.

Definition take_result (s : run_state) (p : phase) (e : goerr) (rest : list goerr) : run_state :=
  {| rn_phase := p; rn_running := rn_running s; rn_channel := rest; rn_taken := rn_taken s ++ [e]; rn_calls := rn_calls s;
     rn_ctx := rn_ctx s |}.

Definition returned (s : run_state) (p : phase) (call : string) : run_state :=
  {| rn_phase := p; rn_running := rn_running s; rn_channel := rn_channel s; rn_taken := rn_taken s;
     rn_calls := rn_calls s ++ [call]; rn_ctx := rn_ctx s |}.

Section Group.
Context (g : Group).

Definition started : run_state :=
  {| rn_phase := Selecting; rn_running := list_to_set (seq 0 (gp_size g)); rn_channel := []; rn_taken := []; rn_calls := [];
     rn_ctx := false |}.

(** The steps of the function itself. *)
Inductive own_step : run_state -> run_state -> Prop :=
| own_context s : rn_phase s = Selecting -> rn_ctx s = true ->
    own_step s (in_phase s (Stopping ByContext (gp_stop g ByContext) None))
| own_receive s e rest : rn_phase s = Selecting -> rn_channel s = e :: rest ->
    own_step s (take_result s (Checking e) e rest)
| own_check s e : rn_phase s = Checking e ->
    own_step s (in_phase s (Stopping (ByResult (rn_ctx s)) (gp_stop g (ByResult (rn_ctx s))) (gp_first g (rn_ctx s) e)))
| own_stopped s c runErr : rn_phase s = Stopping c [] runErr ->
    own_step s (in_phase s (Draining c (gp_wait g c) runErr))
| own_drain s c n runErr e rest : rn_phase s = Draining c (S n) runErr -> rn_channel s = e :: rest ->
    own_step s (take_result s (Draining c n (gp_later g runErr e)) e rest)
| own_close s c runErr : rn_phase s = Draining c 0 runErr ->
    own_step s (in_phase s (Closing c (gp_close g) runErr []))
| own_return s c runErr errs : rn_phase s = Closing c [] runErr errs ->
    own_step s (in_phase s (Finished c runErr errs)).

(** A call it waits for returns; errors of stopping are ignored, errors of
    closing are kept. *)
Inductive call_step : run_state -> run_state -> Prop :=
| call_stop s c call calls runErr : rn_phase s = Stopping c (call :: calls) runErr ->
    call_step s (returned s (Stopping c calls runErr) call)
| call_close s c call calls runErr errs err : rn_phase s = Closing c (call :: calls) runErr errs ->
    call_step s (returned s (Closing c calls runErr (errs ++ option_list err)) call).

Definition run_move (s s' : run_state) : Prop := own_step s s' \/ call_step s s'.

(** Its context ends; a component ends with a result, which it sends when the
    channel has a place. *)
Inductive run_step : run_state -> run_state -> Prop :=
| step_move s s' : run_move s s' -> run_step s s'
| step_context s : run_step s
    {| rn_phase := rn_phase s; rn_running := rn_running s; rn_channel := rn_channel s; rn_taken := rn_taken s;
       rn_calls := rn_calls s; rn_ctx := true |}
| step_ends s i e : i ∈ rn_running s -> (length (rn_channel s) < gp_size g)%nat -> run_step s
    {| rn_phase := rn_phase s; rn_running := rn_running s ∖ {[i]}; rn_channel := rn_channel s ++ [e]; rn_taken := rn_taken s;
       rn_calls := rn_calls s; rn_ctx := rn_ctx s |}.

(** ** Accounts *)

(** The results the function receives in all. *)
Definition total (c : cause) : nat := match c with ByContext => gp_wait g c | ByResult _ => S (gp_wait g c) end.

(** The results received and the calls made, by phase. *)
Definition phase_accounts (s : run_state) : Prop :=
  match rn_phase s with
  | Selecting => length (rn_taken s) = 0%nat /\ rn_calls s = []
  | Checking _ => length (rn_taken s) = 1%nat /\ rn_calls s = []
  | Stopping c calls _ => (length (rn_taken s) + gp_wait g c = total c)%nat /\ rn_calls s ++ calls = gp_stop g c
  | Draining c n _ => (length (rn_taken s) + n = total c)%nat /\ rn_calls s = gp_stop g c
  | Closing c calls _ _ => length (rn_taken s) = total c /\ rn_calls s ++ calls = gp_stop g c ++ gp_close g
  | Finished c _ _ => length (rn_taken s) = total c /\ rn_calls s = gp_stop g c ++ gp_close g
  end.

(** Every component is running, in the channel or received. *)
Definition counted (s : run_state) : Prop :=
  phase_accounts s /\ (size (rn_running s) + length (rn_channel s) + length (rn_taken s) = gp_size g)%nat.

Lemma counted_started : counted started.
Proof. split; [done|]. unfold started. cbn. rewrite size_list_to_set by apply NoDup_seq. rewrite length_seq. lia. Qed.

Lemma counted_own s s' : counted s -> own_step s s' -> counted s'.
Proof.
  intros [Hp Hn] Ho. destruct Ho as [s Es Ec|s e rest Es Ech|s e Es|s c r Es|s c n r e rest Es Ech|s c r Es|s c r errs Es];
    unfold counted, phase_accounts, in_phase, take_result in *; rewrite Es in Hp; cbn [rn_phase rn_running rn_channel rn_taken rn_calls];
    try rewrite Ech in Hn; rewrite ?length_app, ?app_nil_r in *; cbn [length total] in *; destruct Hp as [Hp1 Hp2];
    try rewrite Hp2; repeat split; try done; cbn; try lia.
Qed.

Lemma counted_call s s' : counted s -> call_step s s' -> counted s'.
Proof.
  intros [Hp Hn] Hc. destruct Hc as [s c call calls r Es|s c call calls r errs err Es];
    unfold counted, phase_accounts, returned in *; rewrite Es in Hp; cbn [rn_phase rn_running rn_channel rn_taken rn_calls];
    rewrite <- app_assoc; done.
Qed.

Lemma counted_step s s' : counted s -> run_step s s' -> counted s'.
Proof.
  intros Hcnt Hs. destruct Hs as [s1 s2 [Ho|Hc]|s1|s1 i e Hi Hl]; [by eapply counted_own|by eapply counted_call|exact Hcnt|].
  destruct Hcnt as [Hp Hn]. split; [exact Hp|]. cbn. rewrite length_app, size_difference by set_solver. rewrite size_singleton. cbn.
  assert (size (rn_running s1) <> 0%nat) by (apply size_non_empty_iff; set_solver). lia.
Qed.

Lemma run_invariant (P : run_state -> Prop) :
  P started -> (forall s s', P s -> run_step s s' -> P s') -> forall s, rtc run_step started s -> P s.
Proof. intros H0 Hs. apply rtc_ind_r; [done|]. intros a b _ Hab Ha. by eapply Hs. Qed.

Lemma counted_reachable s : rtc run_step started s -> counted s.
Proof. apply run_invariant; [apply counted_started|apply counted_step]. Qed.

Lemma none_running (s : run_state) : size (rn_running s) = 0%nat -> rn_running s = ∅.
Proof. intros Hz. by apply leibniz_equiv, size_empty_iff. Qed.

(** ** Progress *)




Context (Hwait : forall c, (total c <= gp_size g)%nat).


End Group.

(** ** The two functions *)

Definition worker_stop : list string := ["artifacts.Shutdown"; "events.Close"; "artifactUnix.Close"].
Definition worker_closes : list string :=
  ["events.Close"; "artifactUnix.Close"; "backend.Close"; "journal.Close"; "outbox.Close"; "inboundMCP.Close"].

Definition worker_group : Group := {|
  gp_size := 3; gp_stop _ := worker_stop; gp_wait _ := 2; gp_close := worker_closes;
  gp_first ended e := match e with None => if ended then None else Some "Messenger event worker component exited unexpectedly" | Some _ => e end;
  gp_later runErr e := match runErr, e with None, Some x => if x =s? "context canceled" then None else Some x | _, _ => runErr end |}.

Definition service_group (listeners : nat) : Group := {|
  gp_size := listeners;
  gp_stop c := match c with ByContext => replicate listeners "server.Shutdown" | ByResult _ => replicate listeners "server.Close" end ++ ["s.Close"];
  gp_wait c := match c with ByContext => listeners | ByResult _ => 0%nat end;
  gp_close := []; gp_first _ e := e; gp_later runErr _ := runErr |}.





(** ** Theorems *)


(** When the event service returns because its context ended, its servers have
    ended. *)
Lemma service_run_ended n s r errs :
  rtc (run_step (service_group n)) (started (service_group n)) s -> rn_phase s = Finished ByContext r errs -> rn_running s = ∅.
Proof.
  intros Hreach Hp. destruct (counted_reachable _ _ Hreach) as [Ha Hn]. unfold phase_accounts in Ha. rewrite Hp in Ha. destruct Ha as [Ht _].
  cbn in Ht, Hn. apply none_running. lia.
Qed.

(** ** Publishing *)

Section Publish.
Context (MaxContentBytes : Z) `{Json resultRecord}.

(** [publishLoop]: a round at once and one at every tick until the context ends;
    an error is printed and the loop goes on. *)
Fixpoint publishLoop (p : ResultPublisher) (round : list bool) (ticks : list (list bool)) : IO unit :=
  _ ← PublishPending MaxContentBytes p round;
  match ticks with [] => mret tt | next :: later => publishLoop p next later end.

Context {laws : JsonLaws resultRecord}.

(** However many rounds there are and whatever they meet, no result is lost. *)
Lemma publishLoop_keeps p round ticks r :
  encodable r -> eventIDPattern (rr_SourceEventID r) = true -> keeps (published_or_pending (rp_outbox p) r) (publishLoop p round ticks).
Proof.
  intros He Hid. revert round. induction ticks as [|next later IH]; intros round; cbn [publishLoop];
    (apply keeps_bind; [by eapply PublishPending_keeps|]); intros _; [apply keeps_ret|apply IH].
Qed.
End Publish.

(** ** Samples *)

Module RunSamples.
(** Executable histories: a move of the function, the end of the context, the end
    of a component. *)
Inductive event := Move (err : goerr) | ContextEnds | Ends (i : nat) (e : goerr).

Definition move (g : Group) (s : run_state) (err : goerr) : option run_state :=
  match rn_phase s with
  | Selecting =>
      match rn_channel s with
      | e :: rest => if rn_ctx s then Some (in_phase s (Stopping ByContext (gp_stop g ByContext) None))
                     else Some (take_result s (Checking e) e rest)
      | [] => if rn_ctx s then Some (in_phase s (Stopping ByContext (gp_stop g ByContext) None)) else None
      end
  | Checking e => Some (in_phase s (Stopping (ByResult (rn_ctx s)) (gp_stop g (ByResult (rn_ctx s))) (gp_first g (rn_ctx s) e)))
  | Stopping c [] r => Some (in_phase s (Draining c (gp_wait g c) r))
  | Stopping c (call :: calls) r => Some (returned s (Stopping c calls r) call)
  | Draining c 0 r => Some (in_phase s (Closing c (gp_close g) r []))
  | Draining c (S n) r =>
      match rn_channel s with
      | e :: rest => Some (take_result s (Draining c n (gp_later g r e)) e rest)
      | [] => None
      end
  | Closing c [] r errs => Some (in_phase s (Finished c r errs))
  | Closing c (call :: calls) r errs => Some (returned s (Closing c calls r (errs ++ option_list err)) call)
  | Finished _ _ _ => None
  end.

Definition happen (g : Group) (s : run_state) (ev : event) : option run_state :=
  match ev with
  | Move err => move g s err
  | ContextEnds =>
      Some {| rn_phase := rn_phase s; rn_running := rn_running s; rn_channel := rn_channel s; rn_taken := rn_taken s;
              rn_calls := rn_calls s; rn_ctx := true |}
  | Ends i e =>
      if bool_decide (i ∈ rn_running s) && (length (rn_channel s) <? gp_size g)%nat then
        Some {| rn_phase := rn_phase s; rn_running := rn_running s ∖ {[i]}; rn_channel := rn_channel s ++ [e];
                rn_taken := rn_taken s; rn_calls := rn_calls s; rn_ctx := rn_ctx s |}
      else None
  end.

Fixpoint history (g : Group) (s : run_state) (evs : list event) : option run_state :=
  match evs with [] => Some s | ev :: evs => s' ← happen g s ev; history g s' evs end.

Lemma move_sound g s err s' : move g s err = Some s' -> run_move g s s'.
Proof.
  unfold move. destruct (rn_phase s) as [|e|c [|call calls] r|c [|n] r|c [|call calls] r errs|c r errs] eqn:Es; try done.
  - destruct (rn_channel s) eqn:Ech, (rn_ctx s) eqn:Ec; intros [= <-]; left; by constructor.
  - intros [= <-]. left. by constructor.
  - intros [= <-]. left. by constructor.
  - intros [= <-]. right. by constructor.
  - intros [= <-]. left. by constructor.
  - destruct (rn_channel s) eqn:Ech; [done|]. intros [= <-]. left. by constructor.
  - intros [= <-]. left. by constructor.
  - intros [= <-]. right. by constructor.
Qed.

Lemma happen_sound g s ev s' : happen g s ev = Some s' -> run_step g s s'.
Proof.
  destruct ev as [err| |i e]; cbn [happen].
  - intros Hm. by eapply step_move, move_sound.
  - intros [= <-]. apply step_context.
  - destruct (bool_decide _) eqn:Hb; [|done]. apply bool_decide_eq_true in Hb.
    destruct (Nat.ltb_spec (length (rn_channel s)) (gp_size g)); [|done]. intros [= <-]. by apply step_ends.
Qed.

Lemma history_sound g evs s s' : history g s evs = Some s' -> rtc (run_step g) s s'.
Proof.
  revert s. induction evs as [|ev evs IH]; intros s; cbn; [intros [= <-]; reflexivity|].
  intros (s1 & Hs1 & Hh)%bind_Some. eapply rtc_l; [by eapply happen_sound|by apply IH].
Qed.

Definition moves (n : nat) : list event := replicate n (Move None).

(** The state after a history of the worker. *)
Definition after (evs : list event) : run_state := default (started worker_group) (history worker_group (started worker_group) evs).

Lemma after_reachable evs : rtc (run_step worker_group) (started worker_group) (after evs).
Proof. unfold after. destruct (history _ _ evs) eqn:E; [by eapply history_sound|reflexivity]. Qed.


(** The context ends; the event service and the artifact server end and [Run]
    returns while the publisher is in the middle of a round. *)
Definition publisher_late : list event := ContextEnds :: moves 5 ++ [Ends 0 None; Ends 1 None] ++ moves 10.

(** The publisher ends by itself while the context is alive; before [Run] looks,
    the context ends, and its select takes the context. *)
Definition exit_and_context : list event :=
  Ends 2 None :: ContextEnds :: moves 5 ++ [Ends 0 None] ++ moves 10.
End RunSamples.
Import RunSamples.


(** After its context ended [Run] waits for two of its three components only: it
    closes the outbox and returns while the publisher still runs. *)
Example publisher_outlives_run :
  rtc (run_step worker_group) (started worker_group) (after publisher_late) /\
  rn_phase (after publisher_late) = Finished ByContext None [] /\ rn_running (after publisher_late) = {[2%nat]}.
Proof. split; [apply after_reachable|]. vm_compute. split; reflexivity. Qed.

(** A component that ended by itself is not reported when the context ends before
    [Run] looks at the result. *)
Example exit_before_context_unreported :
  rtc (run_step worker_group) (started worker_group) (after exit_and_context) /\
  rn_phase (after exit_and_context) = Finished ByContext None [].
Proof. split; [apply after_reachable|]. vm_compute. reflexivity. Qed.
