(* ===== verification/Worker.v ===== *)
(** * cmd/tos-messenger-event-worker: configuration, opening and closing

    [readConfig] and [validateConfig] decide which configuration an operator may
    give; [openWorker] opens the components of the process one after the other and
    closes, through its deferred function, what it opened when a later call fails.

    The calls of [openWorker] are values of [call] with the arguments the source
    gives them.  The outcome of a call is a parameter, except of those whose code
    is modelled and has no state of its own; what a call leaves open is a
    [resource].  The clients of the chain, of the native registry and of the
    Messenger daemon are the class [WorkerModules]; the decoding of the
    configuration is the class [ConfigCodec]. *)

From stdpp Require Import gmap.
From S2P Require Import Prelude GoStd GoText FS Json RecordStore Executor ContainerdSpec Runner Outbox EventServer GoHttp ArtifactHTTP DirLock PrivateRead.
From S2P Require Import ConfigJson WorkerRun.

Record networkConfig := { nc_ID : string; nc_GenesisRootHash : string; nc_GenesisFileHash : string }.

Record chainConfig := {
  cc_Endpoints : list string;
  cc_Quorum : Z;
  cc_RegistryWorkchain : Z;
  cc_RegistryCodeBOCBase64 : string;
  cc_RegistryCodeHash : string;
  cc_EscrowCodeHash : string;
}.

Record providerConfig := {
  pc_AgentID : string;
  pc_Address : string;
  pc_TransportDigest : string;
  pc_ExecutionSignerAuthorization : string;
}.

Record config := {
  cf_Schema : string;
  cf_StateRoot : string;
  cf_A2ASocket : string;
  cf_MCPSocket : string;
  cf_ArtifactSocket : string;
  cf_ArtifactHTTPSOrigin : string;
  cf_MessengerRuntimeSocket : string;
  cf_MessengerCallTimeoutSeconds : Z;
  cf_PublishIntervalMilliseconds : Z;
  cf_ResultLifetimeSeconds : Z;
  cf_AllowedSenders : list string;
  cf_AllowedConversations : list string;
  cf_ResultRoutes : list ResultRoute;
  cf_Network : networkConfig;
  cf_Chain : chainConfig;
  cf_Provider : providerConfig;
  cf_ContainerdSocket : string;
  cf_ContainerdFIFODirectory : string;
}.

Definition configSchema : string := "tos.service.messenger-event-worker.v1".

Definition networkDomain (c : networkConfig) : NetworkDomain :=
  {| nd_NetworkId := nc_ID c; nd_GenesisRootHash := nc_GenesisRootHash c; nd_GenesisFileHash := nc_GenesisFileHash c |}.

Class WorkerModules := {
  toschain_New : string -> list string -> Z -> result unit;
  nativecore_NewLocator : NetworkDomain -> Z -> string -> string -> result unit;
  localapi_NewClient : string -> Z -> result unit;
}.

(** [Decode_config] reads one value from the bytes and returns what it left. *)
Class ConfigCodec := {
  lexemes : bytes -> list lexeme;
  Decode_config : bytes -> option (config * bytes);
}.

Section Configuration.
Context `{NetUrl} `{WorkerModules} `{ConfigCodec}.

Definition readConfig (euid : Z) (path : string) (m : Moments) : result config :=
  let* raw := readConfig_raw euid path m in
  rejectDuplicateJSON (lexemes raw) ;;;
  match Decode_config raw with
  | None => Err "decode configuration"
  | Some (value, rest) => if bool_decide (lexemes rest = []) then Ok value else Err "configuration has trailing data"
  end.

(** The values [validateConfig] builds for the checks of the constructors. *)
Definition validationCaller : LocalAPICaller := fun _ _ => Err "validation-only caller".
Definition no_outbox : ResultOutbox := {| ob_root := ""; ob_open := false |}.
Definition lifetime (c : config) : Z := cf_ResultLifetimeSeconds c * time_Second.

Fixpoint distinct_sockets (seen : gset string) (sockets : list string) : bool :=
  match sockets with
  | [] => true
  | socket :: rest => if bool_decide (socket ∈ seen) then false else distinct_sockets ({[socket]} ∪ seen) rest
  end.

Fixpoint routes_cover (senders : list string) (routes : list ResultRoute) : bool :=
  match senders, routes with
  | sender :: senders', route :: routes' => (sender =s? rt_SenderAgentID route) && routes_cover senders' routes'
  | _, _ => true
  end.

Definition incomplete (c : config) : bool :=
  (cf_Schema c <>s? configSchema) || (cf_StateRoot c =s? "") || (cf_A2ASocket c =s? "") || (cf_MCPSocket c =s? "") ||
  (cf_ArtifactSocket c =s? "") || (cf_ArtifactHTTPSOrigin c =s? "") || (cf_MessengerRuntimeSocket c =s? "") ||
  (cf_ContainerdSocket c =s? "") || (cf_ContainerdFIFODirectory c =s? "") ||
  (cf_PublishIntervalMilliseconds c <? 100) || (60000 <? cf_PublishIntervalMilliseconds c) ||
  (cf_ResultLifetimeSeconds c <? 60) || (7 * 24 * 60 * 60 <? cf_ResultLifetimeSeconds c) ||
  (cf_MessengerCallTimeoutSeconds c <? 1) || (60 <? cf_MessengerCallTimeoutSeconds c) ||
  (llen (cc_Endpoints (cf_Chain c)) =? 0) || (cc_Quorum (cf_Chain c) <=? 0) || (llen (cc_Endpoints (cf_Chain c)) <? cc_Quorum (cf_Chain c)) ||
  (cc_RegistryCodeBOCBase64 (cf_Chain c) =s? "") || (cc_RegistryCodeHash (cf_Chain c) =s? "") || (cc_EscrowCodeHash (cf_Chain c) =s? "") ||
  (pc_AgentID (cf_Provider c) =s? "") || (pc_Address (cf_Provider c) =s? "") || (pc_TransportDigest (cf_Provider c) =s? "") ||
  (pc_ExecutionSignerAuthorization (cf_Provider c) =s? "").

Definition worker_paths (c : config) : list string :=
  [cf_StateRoot c; cf_A2ASocket c; cf_MCPSocket c; cf_ArtifactSocket c; cf_MessengerRuntimeSocket c; cf_ContainerdSocket c; cf_ContainerdFIFODirectory c].
Definition worker_sockets (c : config) : list string :=
  [cf_A2ASocket c; cf_MCPSocket c; cf_ArtifactSocket c; cf_MessengerRuntimeSocket c; cf_ContainerdSocket c].

(** [root_ok] is the check of the state directory, [requirePrivateDirectory]. *)
Definition validateConfig (c : config) (root_ok : result unit) : result unit :=
  fail_if (incomplete c) "invalid Messenger event worker configuration" ;;;
  fail_if (negb (forallb PrivateRead.clean_absolute (worker_paths c))) "worker paths must be canonical and absolute" ;;;
  fail_if (negb (distinct_sockets ∅ (worker_sockets c))) "worker authority sockets must be distinct" ;;;
  root_ok ;;;
  let network := networkDomain (cf_Network c) in
  let* _ := NewStaticPolicy (Some network) (cf_AllowedSenders c) (cf_AllowedConversations c) in
  let* _ := NewResultPublisher no_outbox validationCaller (cf_ResultRoutes c) (lifetime c) in
  fail_if (negb (llen (cf_AllowedSenders c) =? llen (cf_ResultRoutes c))) "every allowed sender must have exactly one result route" ;;;
  fail_if (negb (routes_cover (cf_AllowedSenders c) (cf_ResultRoutes c))) "result routes must exactly cover allowed senders" ;;;
  toschain_New (nc_ID (cf_Network c)) (cc_Endpoints (cf_Chain c)) (cc_Quorum (cf_Chain c)) ;;;
  nativecore_NewLocator network (cc_RegistryWorkchain (cf_Chain c)) (cc_RegistryCodeBOCBase64 (cf_Chain c)) (cc_RegistryCodeHash (cf_Chain c)) ;;;
  let* _ := ArtifactHTTP.New false (cf_ArtifactHTTPSOrigin c) in
  localapi_NewClient (cf_MessengerRuntimeSocket c) (cf_MessengerCallTimeoutSeconds c * time_Second).

(** [os.Mkdir] of a state directory, and its check. *)
Inductive mkdir_result := MkdirDone | MkdirExists | MkdirFailed.
Definition ensurePrivateDirectory (euid : Z) (path : string) (made : mkdir_result) (info : option FileInfo) (at_eval : HostView) : result unit :=
  match made with
  | MkdirFailed => Err "create private worker state directory"
  | _ => requirePrivateDirectory euid path info at_eval
  end.

(** ** What is configured is consistent *)

Lemma collect_routes_spec previous routes acc table :
  collect_routes previous routes acc = Ok table ->
  (forall k r, acc !! k = Some r -> rt_SenderAgentID r = k) ->
  (forall k r, table !! k = Some r -> rt_SenderAgentID r = k) /\
  forall k, is_Some (table !! k) <-> is_Some (acc !! k) \/ k ∈ (rt_SenderAgentID <$> routes).
Proof.
  revert previous acc. induction routes as [|r routes IH]; intros previous acc; cbn [collect_routes].
  - intros [= <-] Hacc. split; [done|]. intros k. csimpl. rewrite elem_of_nil. tauto.
  - destruct (_ || _); [done|]. intros E Hacc. apply IH in E as [Ht Hk].
    + split; [done|]. intros k. rewrite Hk. csimpl. rewrite elem_of_cons. destruct (decide (k = rt_SenderAgentID r)) as [->|Hne].
      * rewrite lookup_insert_eq. naive_solver.
      * rewrite lookup_insert_ne by done. naive_solver.
    + intros k r'. rewrite lookup_insert_Some. intros [[<- <-]|[_ Hl]]; [done|by apply Hacc].
Qed.

Lemma routes_cover_spec senders routes :
  length senders = length routes -> routes_cover senders routes = true -> senders = rt_SenderAgentID <$> routes.
Proof.
  revert routes. induction senders as [|s senders IH]; intros [|r routes]; try done. cbn [routes_cover]. intros [= Hl] [Hs%String.eqb_eq Hc]%andb_true_iff.
  csimpl. by rewrite Hs, (IH routes).
Qed.

Lemma distinct_sockets_spec seen sockets : distinct_sockets seen sockets = true -> NoDup sockets /\ forall s, s ∈ sockets -> s ∉ seen.
Proof.
  revert seen. induction sockets as [|s sockets IH]; intros seen; cbn [distinct_sockets].
  - intros _. split; [constructor|]. intros s Hs. by apply elem_of_nil in Hs.
  - case_bool_decide as Hs; [done|]. intros [Hn Hd]%IH. split; [constructor; [|done]; intros Hin%Hd; set_solver|].
    intros s' [->|Hin%Hd]%elem_of_cons; [done|set_solver].
Qed.

(** What the checks of an accepted configuration found. *)
Lemma configuration_parts c root_ok outbox client :
  validateConfig c root_ok = Ok tt ->
  exists policy table,
    NewStaticPolicy (Some (networkDomain (cf_Network c))) (cf_AllowedSenders c) (cf_AllowedConversations c) = Ok policy /\
    NewResultPublisher outbox client (cf_ResultRoutes c) (lifetime c) =
      Ok {| rp_outbox := outbox; rp_client := client; rp_routes := table; rp_lifetime := lifetime c |} /\
    collect_routes "" (cf_ResultRoutes c) ∅ = Ok table /\ cf_AllowedSenders c = rt_SenderAgentID <$> cf_ResultRoutes c /\
    distinct_sockets ∅ (worker_sockets c) = true /\ forallb PrivateRead.clean_absolute (worker_paths c) = true.
Proof.
  unfold validateConfig. intros ([] & _ & Hr)%rbind_ok. apply rbind_ok in Hr as ([] & Hpaths%fail_if_ok & Hr).
  apply rbind_ok in Hr as ([] & Hsock%fail_if_ok & Hr). apply rbind_ok in Hr as ([] & _ & Hr). apply rbind_ok in Hr as (policy & Hpol & Hr).
  apply rbind_ok in Hr as (publisher0 & Hpub & Hr). apply rbind_ok in Hr as ([] & Hlen%fail_if_ok & Hr). apply rbind_ok in Hr as ([] & Hcov%fail_if_ok & _).
  apply negb_false_iff in Hpaths, Hsock, Hlen, Hcov. apply Z.eqb_eq in Hlen. unfold llen in Hlen.
  apply routes_cover_spec in Hcov; [|lia]. unfold NewResultPublisher in *. apply rbind_ok in Hpub as ([] & Hok & Hpub).
  apply rbind_ok in Hpub as (table & Ht & _). exists policy, table. split_and!; try done. rewrite Hok. cbn. by rewrite Ht.
Qed.

(** A configuration that is accepted builds its policy and its publisher, and
    they fit: every event the policy authorises comes from a sender that has a
    result route of its own, every route is of an authorised sender, and the five
    sockets are different clean absolute paths. *)
Theorem configuration_consistent c root_ok outbox client (Hvalid : validateConfig c root_ok = Ok tt) :
  exists policy publisher,
    NewStaticPolicy (Some (networkDomain (cf_Network c))) (cf_AllowedSenders c) (cf_AllowedConversations c) = Ok policy /\
    NewResultPublisher outbox client (cf_ResultRoutes c) (lifetime c) = Ok publisher /\
    (forall event, is_ok (AuthorizeMessengerEvent policy event) = true ->
       exists route, rp_routes publisher !! ev_SenderAgentID event = Some route /\ rt_SenderAgentID route = ev_SenderAgentID event) /\
    (forall sender, is_Some (rp_routes publisher !! sender) -> sender ∈ cf_AllowedSenders c) /\
    NoDup (worker_sockets c) /\ Forall (fun p => PrivateRead.clean_absolute p = true) (worker_paths c).
Proof.
  destruct (configuration_parts c root_ok outbox client Hvalid) as (policy & table & Hpol & Hpub & Ht & Hcov & Hsock & Hpaths).
  destruct (collect_routes_spec _ _ _ _ Ht) as [Hkey Hdom]; [by intros k r; rewrite lookup_empty|]. eexists policy, _. split_and!.
  - exact Hpol.
  - exact Hpub.
  - intros event Ha. apply (proj1 (AuthorizeMessengerEvent_exact _ _ _ _ _ Hpol)) in Ha as (_ & Hin & _). cbn.
    assert (is_Some (table !! ev_SenderAgentID event)) as [route Hroute] by (apply Hdom; right; by rewrite <- Hcov).
    exists route. split; [done|by apply Hkey].
  - intros sender Hs. cbn in Hs. apply Hdom in Hs as [[r Hs]|Hs]; [by rewrite lookup_empty in Hs|]. by rewrite Hcov.
  - apply distinct_sockets_spec in Hsock. tauto.
  - rewrite forallb_forall in Hpaths. apply Forall_forall. intros p Hp. apply Hpaths. by apply list_elem_of_In.
Qed.
End Configuration.

(** ** Opening and closing *)

(** What stays open after a call. *)
Inductive resource := RBackend | RJournal | ROutbox | RInboundMCP | REvents | RArtifactUnix.
#[export] Instance resource_eq : EqDecision resource.
Proof. solve_decision. Defined.

(** [FrozenV1ImageReference] and the fixed configuration of the driver. *)
Definition FrozenV1ImageReference : string := "docker.io/tosnetwork/software-work-go:1.26.5@" +:+ FrozenV1ImageDigest.

Definition backend_config (c : config) : ContainerdSpec.Config :=
  {| cfg_SocketPath := cf_ContainerdSocket c; cfg_Namespace := "tos-service-paid-work"; cfg_Snapshotter := "overlayfs";
     cfg_Runtime := "io.containerd.runc.v2"; cfg_FIFODir := cf_ContainerdFIFODirectory c; cfg_MaxActive := 1; cfg_OperationTimeout := 0;
     cfg_CleanupTimeout := 0; cfg_PermitGPU := false; cfg_PermitNetwork := false; cfg_GPUDevices := ∅; cfg_CDISpecDirs := [];
     cfg_PolicyLimits := FrozenV1Limits; cfg_ImageReference := FrozenV1ImageReference; cfg_ImageDigest := FrozenV1ImageDigest;
     cfg_ImagePlatform := "linux/amd64" |}.

(** The calls of [openWorker], with their arguments. *)
Inductive call :=
| EnsurePrivateDirectory (path : string)
| NewFromChain (directory nativeCheckpoint escrowCheckpoint : string) (network : NetworkDomain) (chain : chainConfig) (provider : providerConfig)
    (manifestDigest : string)
| OpenBackend (cfg : ContainerdSpec.Config)
| CallNewPolicyExecutor (policy : Policy)
| OpenStore (path : string)
| OpenJournal (path : string)
| CallNewRunner (contract : Contract)
| OpenPersistent (origin index : string)
| OpenResultOutbox (path : string)
| OpenMCPResultJournal (path : string)
| NewA2AAdapter
| NewMCPAdapter
| NewA2AExecutionHandler
| NewMCPExecutionHandlerSplit
| CallNewStaticPolicy (network : NetworkDomain) (senders conversations : list string)
| NewEventServer
| CallListenUnix (a2aSocket mcpSocket : string)
| NewClient (socket : string) (timeout : Z)
| CallNewResultPublisher (routes : list ResultRoute) (lifetime : Z)
| CallListenLimited (socket : string) (limit : Z).

Definition acquires (k : call) : option resource :=
  match k with
  | OpenBackend _ => Some RBackend
  | OpenJournal _ => Some RJournal
  | OpenResultOutbox _ => Some ROutbox
  | OpenMCPResultJournal _ => Some RInboundMCP
  | CallListenUnix _ _ => Some REvents
  | CallListenLimited _ _ => Some RArtifactUnix
  | _ => None
  end.

(** Which fields of the worker are not nil, and the interval of its publisher. *)
Record worker := {
  wk_events : bool;
  wk_publisher : bool;
  wk_interval : Z;
  wk_artifacts : bool;
  wk_artifactUnix : bool;
  wk_backend : bool;
  wk_journal : bool;
  wk_outbox : bool;
  wk_inboundMCP : bool;
}.

Definition only_backend : worker :=
  {| wk_events := false; wk_publisher := false; wk_interval := 0; wk_artifacts := false; wk_artifactUnix := false; wk_backend := true;
     wk_journal := false; wk_outbox := false; wk_inboundMCP := false |}.

(** The assignment to the process after a call that succeeded. *)
Definition record_call (c : config) (k : call) (w : worker) : worker :=
  match k with
  | OpenJournal _ => {| wk_events := wk_events w; wk_publisher := wk_publisher w; wk_interval := wk_interval w; wk_artifacts := wk_artifacts w;
      wk_artifactUnix := wk_artifactUnix w; wk_backend := wk_backend w; wk_journal := true; wk_outbox := wk_outbox w; wk_inboundMCP := wk_inboundMCP w |}
  | OpenResultOutbox _ => {| wk_events := wk_events w; wk_publisher := wk_publisher w; wk_interval := wk_interval w; wk_artifacts := wk_artifacts w;
      wk_artifactUnix := wk_artifactUnix w; wk_backend := wk_backend w; wk_journal := wk_journal w; wk_outbox := true; wk_inboundMCP := wk_inboundMCP w |}
  | OpenMCPResultJournal _ => {| wk_events := wk_events w; wk_publisher := wk_publisher w; wk_interval := wk_interval w; wk_artifacts := wk_artifacts w;
      wk_artifactUnix := wk_artifactUnix w; wk_backend := wk_backend w; wk_journal := wk_journal w; wk_outbox := wk_outbox w; wk_inboundMCP := true |}
  | CallListenUnix _ _ => {| wk_events := true; wk_publisher := wk_publisher w; wk_interval := wk_interval w; wk_artifacts := wk_artifacts w;
      wk_artifactUnix := wk_artifactUnix w; wk_backend := wk_backend w; wk_journal := wk_journal w; wk_outbox := wk_outbox w; wk_inboundMCP := wk_inboundMCP w |}
  | CallNewResultPublisher _ _ => {| wk_events := wk_events w; wk_publisher := true; wk_interval := cf_PublishIntervalMilliseconds c * 1000000;
      wk_artifacts := wk_artifacts w; wk_artifactUnix := wk_artifactUnix w; wk_backend := wk_backend w; wk_journal := wk_journal w; wk_outbox := wk_outbox w;
      wk_inboundMCP := wk_inboundMCP w |}
  | CallListenLimited _ _ => {| wk_events := wk_events w; wk_publisher := wk_publisher w; wk_interval := wk_interval w; wk_artifacts := true;
      wk_artifactUnix := true; wk_backend := wk_backend w; wk_journal := wk_journal w; wk_outbox := wk_outbox w; wk_inboundMCP := wk_inboundMCP w |}
  | _ => w
  end.

Definition stateDirectories : list string :=
  ["gate"; "native-checkpoint"; "escrow-checkpoint"; "artifacts"; "journal"; "result-outbox"; "mcp-result-journal"].
Definition under (c : config) (name : string) : string := filepath_Join (cf_StateRoot c) name.

(** The calls before the process exists and after. *)
Definition first_calls (c : config) : list call :=
  (EnsurePrivateDirectory <$> (under c <$> stateDirectories)) ++
  [NewFromChain (under c "gate") (filepath_Join (under c "native-checkpoint") "checkpoint.json") (filepath_Join (under c "escrow-checkpoint") "checkpoint.json")
     (networkDomain (cf_Network c)) (cf_Chain c) (cf_Provider c) FrozenV1ManifestDigest].

Definition later_calls (c : config) : list call :=
  [CallNewPolicyExecutor FrozenV1Policy; OpenStore (under c "artifacts"); OpenJournal (under c "journal"); CallNewRunner FrozenV1Contract;
   OpenPersistent (cf_ArtifactHTTPSOrigin c) (under c "artifact-publications.json"); OpenResultOutbox (under c "result-outbox");
   OpenMCPResultJournal (under c "mcp-result-journal"); NewA2AAdapter; NewMCPAdapter; NewA2AExecutionHandler; NewMCPExecutionHandlerSplit;
   CallNewStaticPolicy (networkDomain (cf_Network c)) (cf_AllowedSenders c) (cf_AllowedConversations c); NewEventServer;
   CallListenUnix (cf_A2ASocket c) (cf_MCPSocket c); NewClient (cf_MessengerRuntimeSocket c) (cf_MessengerCallTimeoutSeconds c * time_Second);
   CallNewResultPublisher (cf_ResultRoutes c) (lifetime c); CallListenLimited (cf_ArtifactSocket c) 128].

Section Opening.
(** The outcome of a call whose code is not repeated here, and of closing. *)
Context (outcome_of : call -> goerr) (closing : resource -> goerr).

Definition err_of {A} (r : result A) : goerr := match r with Ok _ => None | Err e => Some e end.

Definition call_result (k : call) : goerr :=
  match k with
  | CallNewPolicyExecutor policy => err_of (policy_validate policy)
  | CallNewRunner contract => if is_ok (validateContract contract) then None else Some "invalid software-work runner configuration"
  | CallNewStaticPolicy network senders conversations => err_of (NewStaticPolicy (Some network) senders conversations)
  | CallNewResultPublisher routes lifetime => err_of (NewResultPublisher no_outbox validationCaller routes lifetime)
  | _ => outcome_of k
  end.

(** A call that fails leaves nothing open. *)
Fixpoint run_calls (calls : list call) (c : config) (w : worker) (open : list resource) : goerr * worker * list resource :=
  match calls with
  | [] => (None, w, open)
  | k :: rest =>
      match call_result k with
      | Some e => (Some e, w, open)
      | None => run_calls rest c (record_call c k w) (option_list (acquires k) ++ open)
      end
  end.

(** [worker.Close]: every field that is not nil is closed, whatever the others
    returned; the errors in their order. *)
Definition close_one (present : bool) (r : resource) (s : list string * list resource) : list string * list resource :=
  if present then (s.1 ++ option_list (closing r), filter (.≠ r) s.2) else s.

Definition worker_Close (w : worker) (open : list resource) : list string * list resource :=
  close_one (wk_inboundMCP w) RInboundMCP (close_one (wk_outbox w) ROutbox (close_one (wk_journal w) RJournal
    (close_one (wk_backend w) RBackend (close_one (wk_artifactUnix w) RArtifactUnix (close_one (wk_events w) REvents ([], open)))))).

Definition openWorker (c : config) : result worker * list resource :=
  match run_calls (first_calls c ++ [OpenBackend (backend_config c)]) c only_backend [] with
  | (Some e, _, open) => (Err e, open)
  | (None, _, open) =>
      match run_calls (later_calls c) c only_backend open with
      | (Some e, process, open') => (Err e, (worker_Close process open').2)
      | (None, process, open') => (Ok process, open')
      end
  end.

(** The guard of [Run]. *)
Definition worker_Run_valid (w : worker) : bool := wk_events w && wk_publisher w && wk_artifacts w && wk_artifactUnix w.

(** ** Nothing is left open *)

(** The process has a field for every resource that is open. *)
Definition field_of (w : worker) (r : resource) : bool :=
  match r with
  | RBackend => wk_backend w | RJournal => wk_journal w | ROutbox => wk_outbox w
  | RInboundMCP => wk_inboundMCP w | REvents => wk_events w | RArtifactUnix => wk_artifactUnix w
  end.
Definition owned (w : worker) (open : list resource) : Prop := forall r, r ∈ open -> field_of w r = true.

Lemma record_call_owned c k w open :
  wk_backend w = true -> owned w open -> wk_backend (record_call c k w) = true /\ owned (record_call c k w) (option_list (acquires k) ++ open).
Proof.
  intros Hb Ho. split; [by destruct k|]. intros r [Hr|Hr]%elem_of_app.
  - destruct k; cbn in Hr; try (by apply elem_of_nil in Hr); apply list_elem_of_singleton in Hr as ->; done.
  - specialize (Ho r Hr). by destruct k, r.
Qed.

Lemma run_calls_owned calls c w open e w' open' :
  wk_backend w = true -> owned w open -> run_calls calls c w open = (e, w', open') -> wk_backend w' = true /\ owned w' open'.
Proof.
  revert w open. induction calls as [|k calls IH]; intros w open Hb Ho; cbn [run_calls]; [by intros [= _ <- <-]|].
  destruct (call_result k); [by intros [= _ <- <-]|]. destruct (record_call_owned c k w open Hb Ho) as [Hb' Ho']. by apply IH.
Qed.

Lemma worker_Close_open w open r : r ∈ (worker_Close w open).2 <-> r ∈ open /\ field_of w r = false.
Proof.
  unfold worker_Close, close_one.
  destruct (wk_inboundMCP w) eqn:E1, (wk_outbox w) eqn:E2, (wk_journal w) eqn:E3, (wk_backend w) eqn:E4, (wk_artifactUnix w) eqn:E5, (wk_events w) eqn:E6;
    cbn [fst snd]; rewrite ?list_elem_of_filter; destruct r; cbn [field_of]; rewrite ?E1, ?E2, ?E3, ?E4, ?E5, ?E6; intuition congruence.
Qed.

Lemma worker_Close_owned w open : owned w open -> (worker_Close w open).2 = [].
Proof.
  intros Ho. apply elem_of_nil_inv. intros r [Hr Hf]%worker_Close_open. apply Ho in Hr. congruence.
Qed.

(** All calls succeed: the worker has its parts and is ready to run. *)
Lemma run_calls_ok calls c w open w' open' :
  run_calls calls c w open = (None, w', open') ->
  w' = fold_left (fun w k => record_call c k w) calls w /\ open' = fold_left (fun l k => option_list (acquires k) ++ l) calls open.
Proof.
  revert w open. induction calls as [|k calls IH]; intros w open; cbn [run_calls]; [by intros [= <- <-]|].
  destruct (call_result k) eqn:Hk; [done|]. by intros [-> ->]%IH.
Qed.

Lemma first_calls_open c w open e w' open' : run_calls (first_calls c) c w open = (e, w', open') -> open' = open /\ w' = w.
Proof.
  assert (Hq : Forall (fun k => acquires k = None /\ forall w, record_call c k w = w) (first_calls c)) by (repeat constructor).
  revert w open. induction Hq as [|k calls [Ha Hr] _ IH]; intros w open; cbn [run_calls]; [by intros [= _ <- <-]|].
  destruct (call_result k); [by intros [= _ <- <-]|]. rewrite Ha, Hr. apply IH.
Qed.

Lemma run_calls_app l1 l2 c w open :
  run_calls (l1 ++ l2) c w open =
  match run_calls l1 c w open with (None, w', open') => run_calls l2 c w' open' | failed => failed end.
Proof. revert w open. induction l1 as [|k l1 IH]; intros w open; [done|]. cbn [run_calls app]. destruct (call_result k); [done|]. apply IH. Qed.

(** Whichever call fails, an opening that fails leaves nothing open: every
    component that was opened is closed again.  One that succeeds has the parts
    [Run] asks for and an owner for everything that is open, so that [Close], which
    goes on after an error, leaves nothing open either. *)
Theorem opening_closes c r open (Hopen : openWorker c = (r, open)) :
  match r with
  | Err _ => open = []
  | Ok w => worker_Run_valid w = true /\ (forall x, field_of w x = true) /\ (forall x, x ∈ open) /\ (worker_Close w open).2 = []
  end.
Proof.
  revert Hopen. unfold openWorker. rewrite run_calls_app. destruct (run_calls (first_calls c) c only_backend []) as [[[e|] w0] open0] eqn:E0.
  - apply first_calls_open in E0 as [-> _]. by intros [= <- <-].
  - apply first_calls_open in E0 as [-> ->]. cbn [run_calls]. destruct (call_result (OpenBackend _)) as [e|]; [by intros [= <- <-]|]. cbn [acquires record_call].
    change (option_list (Some RBackend) ++ []) with [RBackend].
    destruct (run_calls (later_calls c) c only_backend [RBackend]) as [[e process] open'] eqn:E1.
    assert (Hown : wk_backend process = true /\ owned process open')
      by (eapply run_calls_owned; [| |exact E1]; [done|by intros x ->%list_elem_of_singleton]). destruct Hown as [_ Hown].
    destruct e as [e|]; intros [<- <-]%pair_equal_spec; [by apply worker_Close_owned|].
    apply run_calls_ok in E1 as [Hw Hl]. split_and!; [by rewrite Hw|by intros []; rewrite Hw| |by apply worker_Close_owned].
    intros x. rewrite Hl. cbn. destruct x; repeat (apply list_elem_of_here || apply list_elem_of_further).
Qed.

(** The driver accepts the configuration the worker gives it. *)
Lemma backend_config_accepted ParseQualifiedName c :
  PrivateRead.clean_absolute (cf_ContainerdSocket c) = true -> PrivateRead.clean_absolute (cf_ContainerdFIFODirectory c) = true ->
  ContainerdSpec.validateConfig ParseQualifiedName (withConfigDefaults (backend_config c)) = Ok tt.
Proof.
  unfold PrivateRead.clean_absolute. intros [Ha Hb]%andb_true_iff [Hc Hd]%andb_true_iff. unfold ContainerdSpec.validateConfig.
  cbn [withConfigDefaults backend_config cfg_SocketPath cfg_FIFODir]. rewrite Ha, Hb, Hc, Hd. vm_compute. reflexivity.
Qed.

(** With an accepted configuration only the calls to the outside can fail. *)
Lemma accepted_configuration_opens `{NetUrl} `{WorkerModules} c root_ok :
  validateConfig c root_ok = Ok tt -> (forall k, outcome_of k = None) -> exists w, (openWorker c).1 = Ok w.
Proof.
  intros Hvalid Hout. destruct (configuration_parts c root_ok no_outbox validationCaller Hvalid) as (policy & table & Hpol & Hpub & _).
  assert (Hall : forall calls w open, Forall (fun k => call_result k = None) calls -> exists w' open', run_calls calls c w open = (None, w', open')).
  { intros calls w open Hf. revert w open. induction Hf as [|k calls Hk _ IH]; intros w open; cbn [run_calls]; [by eexists _, _|]. rewrite Hk. apply IH. }
  unfold openWorker. edestruct (Hall (first_calls c ++ [OpenBackend (backend_config c)])) as (w0 & open0 & ->); [repeat (constructor; [apply Hout|]); constructor|].
  edestruct (Hall (later_calls c)) as (w1 & open1 & ->); [|by exists w1].
  assert (Hexecutor : call_result (CallNewPolicyExecutor FrozenV1Policy) = None) by (vm_compute; reflexivity).
  assert (Hrunner : call_result (CallNewRunner FrozenV1Contract) = None) by (vm_compute; reflexivity).
  unfold later_calls. repeat (apply Forall_cons_2;
    [lazymatch goal with
     | |- call_result (CallNewPolicyExecutor _) = _ => exact Hexecutor
     | |- call_result (CallNewRunner _) = _ => exact Hrunner
     | |- call_result (CallNewStaticPolicy _ _ _) = _ => cbn [call_result]; by rewrite Hpol
     | |- call_result (CallNewResultPublisher _ _) = _ => cbn [call_result]; by rewrite Hpub
     | |- _ => cbn [call_result]; exact (Hout _)
     end|]). apply Forall_nil_2.
Qed.
End Opening.

(** ** The commands *)

Inductive exit_status := Failed (errors : list string) | ConfigurationValid | Finished_ok.

Section Main.
Context `{NetUrl} `{WorkerModules} `{ConfigCodec}.
Context (outcome_of : call -> goerr) (closing : resource -> goerr) (Run : worker -> list string).

(** [main] of the worker; [root_ok] is what the check of a state root finds. *)
Definition worker_main (euid : Z) (configPath : string) (narg : Z) (check : bool) (m : Moments) (root_ok : string -> result unit) : exit_status :=
  if (configPath =s? "") || negb (narg =? 0) then Failed ["exactly one -config path is required"] else
  match readConfig euid configPath m with
  | Err e => Failed [e]
  | Ok configuration =>
      match validateConfig configuration (root_ok (cf_StateRoot configuration)) with
      | Err e => Failed [e]
      | Ok _ =>
          if check then ConfigurationValid else
          match (openWorker outcome_of closing configuration).1 with
          | Err e => Failed [e]
          | Ok process => match Run process with [] => Finished_ok | errors => Failed errors end
          end
      end
  end.
End Main.

(** The request of software-work-execute: the digest is of the archive it read. *)
Definition sha256Digest (value : bytes) : string := Sha256.digest value.
Definition work_request (quote executionID inputDigest : string) (archive : bytes) : Runner.Request :=
  {| rq_QuoteCommitment := quote; rq_ExecutionID := executionID; rq_InputDigest := inputDigest; rq_SourceDigest := sha256Digest archive;
     rq_SourceArchive := archive |}.

(** ** Samples *)

Module WorkerSamples.
Import Outbox.Samples PublicationSamples.
#[export] Instance modules : WorkerModules := {|
  toschain_New _ endpoints quorum := fail_if (llen endpoints <? quorum) "quorum";
  nativecore_NewLocator network _ _ _ := fail_if (nd_NetworkId network =s? "") "network";
  localapi_NewClient socket timeout := fail_if (timeout <=? 0) "timeout" |}.

Definition configuration : config := {|
  cf_Schema := configSchema; cf_StateRoot := "/state"; cf_A2ASocket := "/run/a2a.sock"; cf_MCPSocket := "/run/mcp.sock";
  cf_ArtifactSocket := "/run/artifacts.sock"; cf_ArtifactHTTPSOrigin := "https://artifacts"; cf_MessengerRuntimeSocket := "/run/messenger.sock";
  cf_MessengerCallTimeoutSeconds := 5; cf_PublishIntervalMilliseconds := 500; cf_ResultLifetimeSeconds := 3600; cf_AllowedSenders := [sender];
  cf_AllowedConversations := ["conversation"]; cf_ResultRoutes := [route];
  cf_Network := {| nc_ID := "tos"; nc_GenesisRootHash := "root"; nc_GenesisFileHash := "file" |};
  cf_Chain := {| cc_Endpoints := ["https://chain"]; cc_Quorum := 1; cc_RegistryWorkchain := 0; cc_RegistryCodeBOCBase64 := "boc";
                 cc_RegistryCodeHash := "hash"; cc_EscrowCodeHash := "escrow" |};
  cf_Provider := {| pc_AgentID := "agent"; pc_Address := "address"; pc_TransportDigest := "transport"; pc_ExecutionSignerAuthorization := "signer" |};
  cf_ContainerdSocket := "/run/containerd.sock"; cf_ContainerdFIFODirectory := "/run/fifo" |}.

Lemma configuration_ok : validateConfig configuration (Ok tt) = Ok tt.
Proof. vm_compute. reflexivity. Qed.

(** The Messenger client is refused: the last calls do not happen. *)
Definition no_client (k : call) : goerr := match k with NewClient _ _ => Some "client" | _ => None end.
Definition all_well (k : call) : goerr := None.
Definition close_fails (r : resource) : goerr := match r with RBackend => Some "backend" | _ => None end.
Definition opened : worker :=
  match (openWorker all_well close_fails configuration).1 with Ok w => w | Err _ => only_backend end.
End WorkerSamples.
Import WorkerSamples.

Lemma configuration_consistent_witness :
  exists policy publisher, NewStaticPolicy (Some (networkDomain (cf_Network configuration))) (cf_AllowedSenders configuration)
      (cf_AllowedConversations configuration) = Ok policy /\
    NewResultPublisher no_outbox validationCaller (cf_ResultRoutes configuration) (lifetime configuration) = Ok publisher.
Proof.
  destruct (configuration_consistent configuration (Ok tt) no_outbox validationCaller configuration_ok) as (policy & publisher & H1 & H2 & _).
  exists policy, publisher. exact (conj H1 H2).
Defined.

Lemma opening_closes_witness :
  openWorker no_client close_fails configuration = (Err "client", []) /\ (openWorker no_client close_fails configuration).2 = [].
Proof.
  assert (E : openWorker no_client close_fails configuration = (Err "client", [])) by (vm_compute; reflexivity).
  split; [exact E|]. rewrite E. exact (opening_closes no_client close_fails configuration (Err "client") [] E).
Defined.

(** The whole process opens, and closing goes on after an error of the driver. *)
Example worker_lifecycle :
  worker_Run_valid opened = true /\ llen (openWorker all_well close_fails configuration).2 = 6 /\
  worker_Close close_fails opened (openWorker all_well close_fails configuration).2 = (["backend"], []).
Proof. split_and!; vm_compute; reflexivity. Qed.
