(* ===== verification/Systemd.v ===== *)
(** * pkg/servicemanager/systemd.go

    An adapter for one systemd unit: the constructor fixes the unit and the
    executable, and every operation is one command with fixed arguments.  The
    runner of a command is a parameter: it returns, fails or panics. *)

From S2P Require Import Prelude GoStd GoText.

Definition MaxOperationTimeout : Z := 2 * time_Minute.

Definition unit_first (c : ascii) : bool := is_upper c || is_lower c || is_digit c.
Definition unit_char (c : ascii) : bool :=
  unit_first c || Ascii.eqb c "_" || Ascii.eqb c "." || Ascii.eqb c "@" || Ascii.eqb c "-".

(** [^[A-Za-z0-9][A-Za-z0-9_.@-]{0,126}\.service$]: the suffix is anchored, so
    that the rest of the text is what the two classes match. *)
Definition unitPattern (s : string) : bool :=
  has_suffix s ".service" &&
  match trim_suffix s ".service" with
  | String c rest => unit_first c && str_forallb unit_char rest && (len rest <=? 126)
  | EmptyString => false
  end.

Record Systemd := { sd_unit : string; sd_binary : string; sd_timeout : Z }.

Definition NewSystemdWithRunner (unit binary : string) (timeout : Z) (runner_nil : bool) : result Systemd :=
  fail_if (negb (unitPattern unit) || (binary <>s? "/usr/bin/systemctl") || (timeout <=? 0) || (MaxOperationTimeout <? timeout) || runner_nil)
    "invalid systemd service configuration" ;;;
  Ok {| sd_unit := unit; sd_binary := binary; sd_timeout := timeout |}.

Definition NewSystemd (unit : string) (timeout : Z) : result Systemd :=
  NewSystemdWithRunner unit "/usr/bin/systemctl" timeout false.

Inductive run_outcome := Returned | RunFailed | Panicked.

(** The context: the error it has at the call, and the error of the operation's
    own context when the runner has returned. *)
Record RunContext := { rc_before : option string; rc_after : option string }.

(** A command: its executable, its arguments and the time it may take. *)
Record Command := { cm_binary : string; cm_arguments : list string; cm_timeout : Z }.

(** The result of an operation and the command it ran. *)
Definition run (s : Systemd) (ctx : RunContext) (runner : Command -> run_outcome) (verb : string) (suffix : list string) : result unit * option Command :=
  match rc_before ctx with
  | Some e => (Err e, None)
  | None =>
      let command := {| cm_binary := sd_binary s; cm_arguments := "--no-ask-password" :: verb :: suffix ++ [sd_unit s]; cm_timeout := sd_timeout s |} in
      (match runner command, rc_after ctx with
       | Panicked, _ => Err "systemd service operation failed"
       | RunFailed, Some e => Err e
       | RunFailed, None => Err "systemd service operation failed"
       | Returned, Some e => Err e
       | Returned, None => Ok tt
       end, Some command)
  end.

Definition Restart (s : Systemd) ctx runner : result unit * option Command := run s ctx runner "restart" [].
Definition Reload (s : Systemd) ctx runner : result unit * option Command := run s ctx runner "reload" [].
Definition CheckReady (s : Systemd) ctx runner : result unit * option Command := run s ctx runner "is-active" ["--quiet"].

(** ** The commands that can run *)

(** The characters of a unit: no slash, no blank, no shell or option syntax. *)
Definition plain_unit (s : string) : Prop := str_forallb unit_char s = true /\ has_prefix s "-" = false /\ len s <= 135.

Lemma has_suffix_trim s t : has_suffix s t = true -> s = trim_suffix s t +:+ t.
Proof.
  unfold trim_suffix. intros Hs. rewrite Hs. unfold has_suffix in Hs. apply andb_true_iff in Hs as [_ Hd%String.eqb_eq].
  transitivity (str_take (String.length s - String.length t) s +:+ str_drop (String.length s - String.length t) s); [by rewrite str_take_drop|by rewrite Hd].
Qed.

Lemma unitPattern_plain s : unitPattern s = true -> plain_unit s.
Proof.
  unfold unitPattern. intros [Hs Hm]%andb_true_iff. apply has_suffix_trim in Hs. destruct (trim_suffix s ".service") as [|c rest]; [done|].
  apply andb_true_iff in Hm as [[Hc Hr]%andb_true_iff Hl%Z.leb_le]. rewrite Hs. split_and!.
  - cbn. rewrite str_forallb_app, Hr. unfold unit_char at 1. by rewrite Hc.
  - cbn. unfold has_prefix. cbn. destruct (Ascii.eqb_spec c "-") as [->|Hne]; done.
  - unfold len in *. rewrite str_length_app. cbn. lia.
Qed.

(** An adapter that was constructed runs, for each of its operations, at most the
    one command with its unit as the last argument; an operation reports success
    exactly when the command returned in time. *)
Theorem only_fixed_commands unit timeout s ctx runner (Hnew : NewSystemd unit timeout = Ok s) :
  plain_unit unit /\ 0 < sd_timeout s <= MaxOperationTimeout /\
  Forall (fun '(operation, arguments) =>
    let '(r, ran) := operation s ctx runner in
    let command := {| cm_binary := "/usr/bin/systemctl"; cm_arguments := "--no-ask-password" :: arguments ++ [unit]; cm_timeout := sd_timeout s |} in
    (ran = None /\ is_Some (rc_before ctx) \/ ran = Some command /\ rc_before ctx = None) /\
    (r = Ok tt <-> rc_before ctx = None /\ runner command = Returned /\ rc_after ctx = None))
  [(Restart, ["restart"]); (Reload, ["reload"]); (CheckReady, ["is-active"; "--quiet"])].
Proof.
  revert Hnew. unfold NewSystemd, NewSystemdWithRunner. intros ([] & Hg%fail_if_ok & Hs)%rbind_ok. injection Hs as <-.
  rewrite !orb_false_iff, negb_false_iff, Z.leb_gt, Z.ltb_ge in Hg. destruct Hg as [[[[Hu _] Ht] Ht'] _].
  split; [by apply unitPattern_plain|]. split; [done|].
  repeat constructor; unfold Restart, Reload, CheckReady, run; cbn [sd_unit sd_binary sd_timeout];
    destruct (rc_before ctx) as [e|]; cbn [app]; try (destruct (runner _), (rc_after ctx)); naive_solver.
Qed.

Example unit_names :
  unitPattern "tos-ai@1.service" = true /\ unitPattern ".service" = false /\ unitPattern "--user.service" = false /\
  unitPattern "a/b.service" = false /\ unitPattern "tos.service.timer" = false.
Proof. split_and!; vm_compute; reflexivity. Qed.
