(* ===== verification/PublicServers.v ===== *)
(** * The public servers of the adapters

    pkg/a2aadapter/server.go and pkg/mcpadapter/server.go put the adapters behind
    the official transports and the public HTTP boundary.  A transport, which reads
    a bounded request and names the method or the tool it calls, is a parameter. *)

From S2P Require Import Prelude GoStd GoText Sha256 FS Json RecordStore GoHttp Runner DirLock PrivateRead AdapterServer AdapterProtocol A2AAdapter MCPAdapter.

(** The methods of the A2A request handler. *)
Inductive A2AMethod (D : Type) :=
| MethodSendMessage (request : option (option (@Message D)))
| GetTask | ListTasks | CancelTask
| SubscribeToTask | SendStreamingMessage
| GetTaskPushConfig | ListTaskPushConfigs | CreateTaskPushConfig | DeleteTaskPushConfig
| GetExtendedAgentCard.
Arguments MethodSendMessage {D} request.

(** What a public server answers. *)
Inductive answer_of (A : Type) := AtBoundary (r : HttpResponse) | AtTransport | Answered (a : result A).
Arguments AtBoundary {A} r.
Arguments AtTransport {A}.
Arguments Answered {A} a.

Section Public.
Context {D : Type} (marshal_any : D -> option bytes).
Context `{NetUrl} `{Json taskBinding} `{Json A2AAdapter.inputFields} `{Json MCPAdapter.inputFields} `{CertificateParsers}.
Context (ErrInvalidParams ErrUnsupportedOperation ErrPushNotificationNotSupported ErrExtendedCardNotConfigured : string).

(** [requestHandler]: the narrow profile has one method; an iterator of events
    yields one error. *)
Definition handle_a2a (a : A2AAdapter.Adapter) (method : A2AMethod D) : prog (result Task) :=
  match method with
  | MethodSendMessage request => SendMessage marshal_any ErrInvalidParams a request
  | GetTask _ | ListTasks _ | CancelTask _ | SubscribeToTask _ | SendStreamingMessage _ => Ret (Err ErrUnsupportedOperation)
  | GetTaskPushConfig _ | ListTaskPushConfigs _ | CreateTaskPushConfig _ | DeleteTaskPushConfig _ => Ret (Err ErrPushNotificationNotSupported)
  | GetExtendedAgentCard _ => Ret (Err ErrExtendedCardNotConfigured)
  end.

(** [NewPublicServer]: a handler exists when the adapter is not nil; [added] is
    the registration of the tool with the MCP server. *)
Definition a2a_NewPublicServer (adapter_nil : bool) (config : ServerConfig) (r : Reads) : result HttpServer :=
  fail_if adapter_nil "missing A2A adapter" ;;; NewServer false config r.

Definition mcp_NewPublicServer (adapter_nil : bool) (added : result unit) (config : ServerConfig) (r : Reads) : result HttpServer :=
  fail_if adapter_nil "missing MCP adapter" ;;; added ;;; NewServer false config r.

(** A request to a public server while [used] others are inside: the boundary,
    the transport, which also sees whether reading the body fails, and the
    handler. *)
Definition serve_public {M A} (transport : HttpRequest -> bool -> option M) (handler : M -> prog (result A)) (b : BoundaryConfig) (used : nat)
    (request : HttpRequest) : prog (answer_of A) :=
  match (enter_boundary b used request).2 with
  | inl refusal => Ret (AtBoundary refusal)
  | inr (bounded, fails) =>
      match transport bounded fails with
      | None => Ret AtTransport
      | Some method => prog_map Answered (handler method)
      end
  end.

(** ** What reaches an adapter *)

Lemma NewServer_boundary config r server : NewServer false config r = Ok server -> NewBoundary false (sc_Boundary config) = Ok (sv_Handler server).
Proof.
  unfold NewServer. intros ([] & _ & Hr)%rbind_ok. apply rbind_ok in Hr as ([] & _ & Hr). apply rbind_ok in Hr as (tls & _ & Hr).
  apply rbind_ok in Hr as (bounded & Hb & Hr). apply rbind_ok in Hr as ([] & _ & Hr). by injection Hr as <-.
Qed.

Definition acts {A} (p : prog A) : bool := match p with Ret _ => false | Do _ _ => true end.

(** A request causes a call to the gate, the runner, the locator or the settler
    only if it passed the boundary and its handler causes one. *)
Lemma serve_public_effects {M A} (transport : HttpRequest -> bool -> option M) (handler : M -> prog (result A)) config r server used request X (e : effect X) k :
  NewServer false config r = Ok server -> serve_public transport handler (sv_Handler server) used request = Do e k ->
  32 <= len (bc_BearerToken (sv_Handler server)) /\
  exists bounded fails method, authorised (sv_Handler server) bounded /\ transport bounded fails = Some method /\ acts (handler method) = true.
Proof.
  intros Hb%NewServer_boundary. apply NewBoundary_spec in Hb as (Ht & _ & Hm & _ & _). unfold serve_public.
  destruct (enter_boundary _ _ _) as [headers [refusal|[bounded fails]]] eqn:He; [done|]. cbn [snd].
  apply enter_spec in He as (Ha & _); [|lia]. destruct (transport bounded fails) as [method|] eqn:Em; [|done].
  destruct (handler method) as [a|Y e' k'] eqn:Eh; [done|]. intros _. split; [apply Ht|]. exists bounded, fails, method. by rewrite Eh.
Qed.

(** The public servers of both adapters act only for requests that passed the
    boundary with the operator's token, and the A2A server only for the method
    that sends a message: every other method is refused without any call to the
    gate, the runner, the locator or the settler. *)
Theorem public_servers_guarded a2a mcp config r server used request X (e : effect X) :
  (forall transport k, a2a_NewPublicServer false config r = Ok server ->
     serve_public transport (handle_a2a a2a) (sv_Handler server) used request = Do e k ->
     exists bounded fails message, authorised (sv_Handler server) bounded /\ transport bounded fails = Some (MethodSendMessage message)) /\
  (forall transport added k, mcp_NewPublicServer false added config r = Ok server ->
     serve_public transport (MCPAdapter.Call mcp) (sv_Handler server) used request = Do e k ->
     exists bounded fails input, authorised (sv_Handler server) bounded /\ transport bounded fails = Some input).
Proof.
  split.
  - intros transport k Hnew Hs. eapply serve_public_effects in Hs as (_ & bounded & fails & method & Ha & Hm & Hd); [|exact Hnew].
    destruct method; try done. by eexists _, _, _.
  - intros transport added k Hnew Hs. unfold mcp_NewPublicServer in Hnew. apply rbind_ok in Hnew as ([] & _ & Hnew). apply rbind_ok in Hnew as ([] & _ & Hnew).
    eapply serve_public_effects in Hs as (_ & bounded & fails & input & Ha & Hm & _); [|exact Hnew]. by eexists _, _, _.
Qed.
End Public.
